(* ===== verification/_CoqProject ===== *)
-Q . S2P
Prelude.v
Order.v
Compare.v
Heap.v
Qsort.v
Tape.v
BufFile.v
Tuplestore.v
StoreSpec.v
LogTape.v
Tuplesort.v
InMemory.v
RunTapes.v
Polyphase.v
BuildRuns.v
MergeRuns.v
MergePasses.v
External.v
SortRun.v
Cursor.v
SortNode.v
Agreement.v
IndexSort.v
DatumSort.v
PgList.v
SharedLists.v
BufferQueue.v
PrlMerge.v
ParallelSort.v
Workers.v
Append.v
LimitNode.v
Material.v
PrlAppend.v
ShmContext.v
