(* ===== verification/Prelude.v ===== *)
(** * Verification of prlpg, a PostgreSQL fork that sorts and appends in parallel

    ** The program

    The repository is PostgreSQL with parallel query processing added.  (Paths below are under src/prlpg/src.)  A sort
    node (backend/executor/nodeSort.c) can have its rows sorted by worker processes.  The leader puts a job for each
    worker into a list in shared memory and tells the postmaster, which forks the workers (StartParallelWorkers of
    backend/postmaster/postmaster.c, slaveBackendMain of backend/postmaster/slaveworker.c).  Leader and worker
    synchronise through the state of a Worker record, which each side polls (waitForWorkers, waitForState,
    stateTransition of backend/storage/lmgr/parallel.c), and exchange tuples through a queue with semaphores for each worker
    (createBufferQueue, bufferQueueAdd, bufferQueueGet).  The leader deals its rows out in turn (distributeToWorker of
    backend/utils/sort/tuplesort.c), each worker sorts its share with the sort module of PostgreSQL and sends the
    result back through the same queue, and the leader merges the streams with a heap (prepareForMerge,
    tuplesort_gettupleslot_from_worker).  An append node (backend/executor/nodeAppend.c) can have its subplans run by workers
    in the same way.  A query cancel is passed on through another shared list and SIGINT.

    ** Files

    - Prelude (this file): outcomes of C code ([res]: a value, a failed Assert, undefined behaviour, elog, or a loop
      that does not end), the state and error monad [M] in which stateful code is written, and its laws.
    - Order: comparison functions as integers, their laws ([CmpLaws]), [sorted], lexicographic composition, 32-bit
      wrap-around.
    - Compare: the comparison of sort tuples of tuplesort.c (heap tuples, index tuples for btree and hash, datums) and
      the reversal of its direction.
    - Heap: the heap that tuplesort.c keeps in an array (tuplesort_heap_insert, tuplesort_heap_siftup).
    - Qsort: port/qsort_arg.c, with its counts of bytes as ints ([as_int]).
    - Tape: what tuplesort.c relies on of backend/utils/sort/logtape.c: a tape is a string of bytes with a position.
    - BufFile: all of backend/storage/file/buffile.c, over physical files as a class ([PhysFile]; fd.c and the system calls, which may move less
      than asked and may fail).  [TempFile] is what its users rely on.
    - Tuplestore: all of backend/utils/sort/tuplestore.c, over [TempFile]; how a tuple is read and written.
    - StoreSpec: what a tuple store promises: a list of tuples with read pointers; that tuplestore.c implements it.
    - LogTape: all of logtape.c: the temporary file as a sequence of blocks, the list of free blocks, the trees of indirect
      blocks, reading, writing, rewinding, freezing, backing up and seeking, and that they implement the tapes of Tape.
    - Tuplesort: the state of a sort and all operations of tuplesort.c on it, in memory, bounded and on tapes.
      The class [SortMethods] stands for the methods that each kind of sort tuple supplies (comparetup,
      writetup, readtup, reversedirection), where a comparison may raise an error; [heap_methods] is its instance for heap tuples.
    - InMemory: sorts that end in memory and bounded sorts, for any methods that satisfy [SortMethodsLaws], which
      [heap_methods] does; what it is for a state to yield a given sequence of tuples ([yields]).
    - RunTapes: a run on a tape as the bytes of its tuples; reading one tuple, the end of a run, rewinding.
    - Polyphase: Algorithm D of Knuth: how many runs and dummy runs each tape has (selectnewtape).
    - BuildRuns: initial runs by replacement selection (inittapes, dumptuples, puttuple_common).
    - MergeRuns: one run of a merge: the preread tuples of each tape, linked in the slots of the array behind the heap
      (mergepreread, mergeprereadone, the free list of slots), and the step that takes the smallest.
    - MergePasses: mergeonerun and beginmerge on a level of the polyphase distribution.
    - External: mergeruns and the two ways in which a sort on tapes returns its result, from one tape or by
      merging on the fly.
    - SortRun: the whole life of a sort (begin, puttuple, performsort, gettuple) for any work_mem, in memory or on tapes.
    - Cursor: scans with random access: reading in both directions, rescan, markpos and restorepos.
    - SortNode: the sort node of the executor without workers (ExecInitSort, ExecSort, ExecReScanSort, ExecSortMarkPos, ExecSortRestrPos,
      ExecEndSort), over a class of subplans ([OuterPlan]), and what the limit node of backend/executor/nodeLimit.c tells it.
    - Agreement: two sorts with different comparisons take the same steps, up to the first comparison that raises an error.
    - IndexSort: the sorts that build btree and hash indexes, with the check for duplicates in the comparison.
    - DatumSort: the sorts of single values, with datumGetSize and datumCopy of backend/utils/adt/datum.c.
    - PgList: all of backend/nodes/list.c, in a store of cells and headers with addresses, so that sharing and the
      use of freed cells are visible.
    - SharedLists: the lists of jobs and workers in parallel.c, cancelWorkers, cleanup, and StartParallelWorkers and
      CancelParallelWorkers of postmaster.c; the spinlock of the job list is explicit there ([lock_after]).
    - BufferQueue: the queue of parallel.c, with the semaphores of backend/port/sysv_sema.c and the pool of semaphores, for
      any number of processes.  Each process is a program counter ([pc]), each semaphore operation and each critical section is
      a step ([bq_step]), and [sys_step] interleaves them and lets a query cancel strike where the code allows it.
    - PrlMerge: the k-way merge of the leader over a class of sources ([MergeSource]); its instance for several sort states
      (tuplesort_gettupleslot_from_multiple_lts).
    - ParallelSort: the data path of a parallel sort: dealing out, doSort of the workers, merge; its instance of
      [MergeSource] for queues, and the whole composed as ExecSort composes it ([parallel_sort]).
    - Workers: the control path: states of the workers, operations on them, and leader and workers as
      processes ([step]; with cancels [cstep]).
    - Append: nodeAppend.c without workers, over a class of subplans ([SubPlan]), and how it gives subplans to workers.
    - LimitNode: all of backend/executor/nodeLimit.c, over the same class, with what a subplan is told of the limit ([LimitInput]).
    - Material: all of backend/executor/nodeMaterial.c, over the same class and the tuple store of Tuplestore.
    - PrlAppend: an append node with workers: the leader (ExecAppend, ExecEndAppend), the workers (doQuery) and ExecPrlSend of
      backend/executor/nodePrlSend.c as processes ([astep]).
    - ShmContext: all of backend/utils/mmgr/shmctx.c, memory contexts in shared memory, over the mm library as a class
      ([MMLib]), for any number of processes ([act]).

    ** What the theorems show

    - A parallel sort returns a sorted permutation of its input, and with a LIMIT the smallest rows
      (parallel_sort_correct, parallel_sort_limit), from the theorems on its parts: distribute_round_robin,
      worker_sorts_and_sends, merge_sorts_streams, which rest on the lemma behind tuplesort_sorts
      ([sort_run_ok] of SortRun), qsort_arg_correct and comparetup_heap_is_preorder.  All of them state that the code
      returns, not only that what it returns is right.
    - A sort returns a sorted permutation of the tuples it was given, whether they fit in work_mem or go to tapes
      through runs and merge passes (tuplesort_sorts); with a bound, the smallest (tuplesort_bounded_smallest).  A
      scan with random access behaves as a cursor on the sorted sequence in memory and on tape alike
      (random_access_scan, memory_not_observable).  On the way: initial runs are ascending and hold what was
      put (building_runs_wf), and dummy runs make the distribution a perfect one (runs_distributed_perfectly).
    - A sort node is a cursor over the sorted rows of its subplan (sort_node_cursor); scanned again with other parameters or another
      limit, it notices when it has to sort again, and returns the first rows of the new order (sort_node_rescans).
    - A sort for a unique index either returns the tuples in order or ends with the error of a duplicate, and the latter exactly
      when there is one, although only the comparison checks (unique_index_sort); sorts for hash indexes
      and of single values, by value and by reference (hash_index_sort, datum_sort_correct).
    - buffile.c makes one sequence of bytes of a buffer and physical files of limited size (buffile_refines); up to the first call in which a
      system call fails all calls are right, and that one shows it: a write or read returns less than asked for, a seek fails (buffile_errors).  It is also a sequence of blocks (buffile_blocks), on which
      logtape.c implements tapes as byte strings, and recycles blocks without two tapes sharing one (logtape_refines).
    - A tuple store is a list of tuples with read pointers, wherever the tuples are (tuplestore_refines).
    - The queue of any number of processes is a bounded first-in first-out queue, uses no freed or NULL pointer, excludes
      the processes from each other's critical sections, and blocks nobody without a reason (queue_refines_fifo,
      queue_memory_safe, queue_mutual_exclusion, queue_progress); it can be created and destroyed
      (create_destroy_roundtrip), 33 times at once; one more ends with a spinlock held, and nothing can be created or destroyed any more
      (semaphores_bound_queues).
    - Processes that allocate and free in shared memory contexts do not disturb each other: pointers handed out are areas of their own,
      the lists of blocks stay linked both ways, the assertions of pfree hold and nothing is lost (shm_context_safe); a reset gives back just what the context had
      (shm_reset_frees).
    - The protocol of leader and workers always ends, without a deadlock, and a queue is never used in
      both directions at once (protocol_terminates, queue_directions_separate).
    - list.c implements sequences: every operation is related to the sequence it computes, the cells it frees and
      those it leaves alone (list_append_cons_refine, list_delete_refines, list_concat_shares, list_set_operations,
      list_copy_truncate, list_free_exact).
    - An append node returns the rows of its subplans in turn, in both directions and after rescans (append_scrolls); with workers it
      returns the rows of the subplans it runs, each once (append_parallel_rows), and always ends (append_protocol_ends).
    - A limit node returns the rows of the window of OFFSET and LIMIT, in both directions and after rescans, although the subplan may know that no
      more are needed (limit_window).  A materialize node is a cursor over the rows of its subplan, of which it fetches and stores only those it has been asked for
      (material_cursor, by way of the specification of the tuple store).
    - Where the code does not do what it means to, a theorem says what it does: a cancel can leave the leader waiting
      for ever or a queue locked (cancel_hangs_leader, cancelled_holder_wedges_queue), cleanup uses freed memory
      (cleanup_reads_freed_cell), a spinlock is released twice and a list walked without it (job_lock_released_twice), a queue larger than a semaphore can count ends
      the backend and costs three semaphores (create_destroy_roundtrip), subplans are given out wrongly
      (append_assigns_second_plan), an append node that was not run cannot be ended (append_end_needs_fetch), positions of a parallel sort do not work (parallel_positions_fail),
      a limit ends after a row when its sum with the offset overflows (limit_overflow), a
      comparison may overflow (int_min_breaks_desc), a new read pointer of a tuple store is put at an old position (alloc_copies_old_position), its memory
      is not accounted for as it should be (putvalues_not_accounted, readtup_not_freed), an unreadable file ends its tuples (read_error_is_end),
      and a mark at the last row of a materialize node may move behind it (mark_at_end_moves).

    ** Bounds and fuel

    Loops over linked cells have the number of cells in the store as fuel, which a list without a cycle cannot use up, and a list
    with one turns into [EDiverge].  qsort_arg recurses as deep as the array is long, at most; its theorem includes that this is
    enough, for arrays of less than 2 GiB, as the code counts their bytes in ints; an array of a sort stays below MaxAllocSize (1 GiB), which is part of the
    invariant of a sort.  A semaphore counts up to [SEMVMX]; the invariant of a queue includes that its capacity is not above that, and
    createBufferQueue fails if it is.  The loops of a worker have one more round than there are cells to receive or tuples to send, and the theorems
    are stated with that number.  ints are unbounded integers (numbers of runs and tapes and the memory of the tapes, which would take about
    2^31 runs to overflow), except where overflow matters: results of comparison functions (32 bits)
    and the bound of a sort and of a limit.  The loop of a limit node that skips rows has one round for each of them.  The merge of runs has as fuel the number of bytes on the tapes and the number of
    levels; the theorems include that this is enough.  Sorts are correct for any work_mem that has room for the
    first array of tuples ([memory_ok]: the code starts with 1024 entries), any accounting of the memory of a
    tuple, and tuples whose length fits the length word ([row_fits]).  The size of a physical file and of the buffer of a temporary
    file are any that go together ([code_sizes]), so that the examples cross files of eight bytes; its loops move at least one byte
    in each round, and have as many rounds as there are bytes.

    ** What is not modelled

    Virtual file descriptors (backend/storage/file/fd.c) and the system calls under buffile.c, a class with what they are documented to do; the file under
    logtape.c and tuplestore.c does not fail there; the OSSP mm library under
    shmctx.c, which is not part of the repository and a parameter; the rest of the executor, queries given as strings, doTest, process start-up and
    signal delivery, settings.  heap_getattr, index_getattr, the comparison functions of the types, GetMemoryChunkSpace and
    equal() are parameters.  Trace output and statistics are left out. *)

From stdpp Require Export base tactics option list list_numbers gmap sets strings.
From Stdlib Require Export ZArith Lia.
From Stdlib Require Import Permutation Sorted.

(** ** Outcomes of C code *)

Inductive error :=
| EAssert               (* an Assert(...) that does not hold *)
| EUndef                (* undefined behaviour: a dangling or NULL pointer, a double pfree *)
| EElog (msg : string)  (* elog(ERROR/FATAL, ...) or ereport *)
| EDiverge.             (* a loop over a cyclic chain of pointers *)

Inductive res (A : Type) :=
| Ok (a : A)
| Err (e : error).
Arguments Ok {A} a.
Arguments Err {A} e.

#[export] Instance res_ret : MRet res := @Ok.
#[export] Instance res_bind : MBind res := fun A B f r =>
  match r with Ok a => f a | Err e => Err e end.

(** Element [i] of an array; undefined out of bounds. *)
Definition idx {A} (l : list A) (i : nat) : res A := match l !! i with Some x => Ok x | None => Err EUndef end.

Lemma idx_ok {A} (l : list A) i x : l !! i = Some x -> idx l i = Ok x.
Proof. intros H. unfold idx. by rewrite H. Qed.
Lemma idx_inv {A} (l : list A) i x : idx l i = Ok x -> l !! i = Some x.
Proof. unfold idx. destruct (l !! i); naive_solver. Qed.
Lemma res_bind_inv {A B} (r : res A) (f : A -> res B) b : (r ≫= f) = Ok b -> exists a, r = Ok a /\ f a = Ok b.
Proof. destruct r; naive_solver. Qed.

(** State and error monad: stateful C code over a store [S]. *)
Definition M (S A : Type) : Type := S -> res (A * S).

#[export] Instance M_ret S : MRet (M S) := fun A a s => Ok (a, s).
#[export] Instance M_bind S : MBind (M S) := fun A B f m s =>
  match m s with
  | Ok (a, s') => f a s'
  | Err e => Err e
  end.

Definition mget {S} : M S S := fun s => Ok (s, s).
Definition mput {S} (s : S) : M S unit := fun _ => Ok (tt, s).
Definition mmod {S} (f : S -> S) : M S unit := fun s => Ok (tt, f s).
Definition mfail {S A} (e : error) : M S A := fun _ => Err e.

(** [Assert(c)]; the build of the repository defines USE_ASSERT_CHECKING. *)
Definition Assert {S} (c : bool) : M S unit :=
  fun s => if c then Ok (tt, s) else Err EAssert.

(** Dereference: [None] is a NULL pointer or an object no longer there. *)
Definition deref {S A} (o : option A) : M S A :=
  fun s => match o with Some a => Ok (a, s) | None => Err EUndef end.

Lemma mbind_ok {S A B} (m : M S A) (f : A -> M S B) s a s' :
  m s = Ok (a, s') -> (m ≫= f) s = f a s'.
Proof. intros H. unfold mbind, M_bind. by rewrite H. Qed.

Lemma mbind_err {S A B} (m : M S A) (f : A -> M S B) s e :
  m s = Err e -> (m ≫= f) s = Err e.
Proof. intros H. unfold mbind, M_bind. by rewrite H. Qed.

Lemma mbind_inv {S A B} (m : M S A) (f : A -> M S B) s r :
  (m ≫= f) s = Ok r -> exists a s', m s = Ok (a, s') /\ f a s' = Ok r.
Proof. unfold mbind, M_bind. destruct (m s) as [[a s']|e]; naive_solver. Qed.

Lemma mbind_assoc {S A B C} (m : M S A) (f : A -> M S B) (g : B -> M S C) s :
  ((m ≫= f) ≫= g) s = (m ≫= (fun x => f x ≫= g)) s.
Proof. unfold mbind, M_bind. by destruct (m s) as [[a s']|e]. Qed.

(** Steps that succeed. *)
Section steps.
Context {S A B : Type}.

Lemma mget_ok (f : S -> M S B) s : (mget ≫= f) s = f s s.
Proof. done. Qed.
Lemma mput_ok s' (f : unit -> M S B) s : (mput s' ≫= f) s = f tt s'.
Proof. done. Qed.
Lemma mmod_ok g (f : unit -> M S B) s : (mmod g ≫= f) s = f tt (g s).
Proof. done. Qed.
Lemma mret_ok (a : A) (f : A -> M S B) s : (mret a ≫= f) s = f a s.
Proof. done. Qed.
Lemma Assert_ok c (f : unit -> M S B) s : c = true -> (Assert c ≫= f) s = f tt s.
Proof. by intros ->. Qed.
End steps.

(** Flags of ExecInitNode (src/include/executor/executor.h) *)
Definition EXEC_FLAG_REWIND : Z := 0x0002.
Definition EXEC_FLAG_BACKWARD : Z := 0x0004.
Definition EXEC_FLAG_MARK : Z := 0x0008.

(** Pointers: [None] is NULL. *)
Abbreviation addr := positive (only parsing).
Abbreviation ptr := (option positive) (only parsing).

(** ** Permutations of concatenations *)

Ltac perm_norm :=
  rewrite ?fmap_app, ?fmap_cons, ?fmap_nil; cbn [app fst snd];
  repeat match goal with |- context [?x :: ?l] => lazymatch l with [] => fail | _ => change (x :: l) with ([x] ++ l) end end;
  repeat rewrite <- app_assoc; rewrite ?app_nil_r.
(** Cancels the first part of the left side, after bringing it to the front on the right. *)
Ltac perm_step :=
  lazymatch goal with
  | |- ?l ≡ₚ ?l => reflexivity
  | |- ?a ++ ?l ≡ₚ ?a ++ ?r => apply Permutation_app_head
  | |- ?a ++ ?l ≡ₚ ?r =>
    match r with
    | context [?b ++ a ++ ?t] => rewrite (Permutation_app_swap_app b a t)
    | context [?b ++ a] => rewrite (Permutation_app_comm b a)
    end
  end.
(** Both sides are the same parts in a different order. *)
Ltac perm := perm_norm; repeat perm_step; try reflexivity.

(** Membership in such concatenations, and inclusions between them. *)
Ltac mem := rewrite ?fmap_app, ?fmap_cons; cbn [fst snd]; repeat first [rewrite elem_of_app|rewrite elem_of_cons]; rewrite ?elem_of_nil; tauto.
Ltac incl := clear; let x := fresh in intros x; mem.
