(* ===== verification/Order.v ===== *)
(** * Order: three-way comparison functions and sorted sequences

    The sort code of the program is generic in a comparison function in the style of
    qsort(): negative, zero or positive.  [CmpLaws] says what the sort code relies on; it is
    proved for the tuple comparisons in Compare.v and used by the heap, by qsort_arg,
    by tuplesort and by the merge of the workers' outputs. *)

From S2P Require Import Prelude.
From Stdlib Require Export Sorted.

(** ** int32 *)

Definition wrap32 (z : Z) : Z := ((z + 2 ^ 31) mod 2 ^ 32 - 2 ^ 31)%Z.
Definition INT_MIN : Z := (- 2 ^ 31)%Z.
Definition INT_MAX : Z := (2 ^ 31 - 1)%Z.
Definition int32_range (z : Z) : Prop := (INT_MIN <= z <= INT_MAX)%Z.

Lemma wrap32_id z : int32_range z -> wrap32 z = z.
Proof. unfold int32_range, INT_MIN, INT_MAX, wrap32. intros. rewrite Z.mod_small; lia. Qed.

(** ** Comparison functions *)

Class CmpLaws {A} (cmp : A -> A -> Z) : Prop := {
  cmp_sgn : forall x y, Z.sgn (cmp y x) = (- Z.sgn (cmp x y))%Z;
  cmp_trans : forall x y z, (cmp x y <= 0)%Z -> (cmp y z <= 0)%Z -> (cmp x z <= 0)%Z }.

Section Laws.
Context {A : Type} (cmp : A -> A -> Z) `{!CmpLaws cmp}.
Local Open Scope Z_scope.

Lemma cmp_refl x : cmp x x = 0.
Proof. pose proof (cmp_sgn x x). lia. Qed.
Lemma cmp_total x y : 0 <= cmp x y -> cmp y x <= 0.
Proof. pose proof (cmp_sgn x y). lia. Qed.
Lemma cmp_le_ge x y : cmp x y <= 0 -> 0 <= cmp y x.
Proof. pose proof (cmp_sgn x y). lia. Qed.
Lemma cmp_gt x y : 0 < cmp x y -> cmp y x <= 0.
Proof. pose proof (cmp_sgn x y). lia. Qed.
Lemma cmp_lt_trans x y z : cmp x y < 0 -> cmp y z <= 0 -> cmp x z < 0.
Proof.
  intros H1 H2. pose proof (cmp_sgn x y). pose proof (cmp_sgn x z).
  assert (cmp x z <= 0) by (eapply cmp_trans; [apply Z.lt_le_incl|]; eauto).
  destruct (Z.eq_dec (cmp x z) 0); [|lia].
  assert (cmp y x <= 0) by (apply (cmp_trans y z x); lia). lia.
Qed.
Lemma cmp_lt_trans_r x y z : cmp x y <= 0 -> cmp y z < 0 -> cmp x z < 0.
Proof.
  intros H1 H2. pose proof (cmp_sgn y z). pose proof (cmp_sgn x z).
  assert (cmp x z <= 0) by (eapply cmp_trans; [eauto|apply Z.lt_le_incl; eauto]).
  destruct (Z.eq_dec (cmp x z) 0); [|lia].
  assert (cmp z y <= 0) by (apply (cmp_trans z x y); lia). lia.
Qed.

(** ** Sorted sequences *)

Definition cmp_le (x y : A) : Prop := cmp x y <= 0.
Definition sorted (l : list A) : Prop := StronglySorted cmp_le l.

#[export] Instance cmp_le_transitive : Transitive cmp_le.
Proof. intros x y z. apply cmp_trans. Qed.
#[export] Instance cmp_le_reflexive : Reflexive cmp_le.
Proof. intros x. unfold cmp_le. rewrite cmp_refl. lia. Qed.

Lemma sorted_app l1 l2 :
  sorted l1 -> sorted l2 -> (forall x y, x ∈ l1 -> y ∈ l2 -> cmp x y <= 0) -> sorted (l1 ++ l2).
Proof.
  intros H1 H2 H12. induction H1 as [|x l1 H1 IH Hx]; simpl; [done|].
  constructor; [apply IH; set_solver|].
  apply Forall_app. split; [done|]. apply Forall_forall. intros y Hy. apply H12; set_solver.
Qed.
Lemma sorted_snoc l x : sorted l -> (forall y, y ∈ l -> cmp y x <= 0) -> sorted (l ++ [x]).
Proof. intros H Hx. apply sorted_app; [done|repeat constructor|]. set_solver. Qed.
Lemma sorted_app_inv l1 l2 :
  sorted (l1 ++ l2) -> sorted l1 /\ sorted l2 /\ (forall x y, x ∈ l1 -> y ∈ l2 -> cmp x y <= 0).
Proof.
  induction l1 as [|x l1 IH]; simpl; intros H; [split_and!; [constructor|done|set_solver]|].
  apply StronglySorted_inv in H as [H Hx]. destruct (IH H) as (H1 & H2 & H12).
  rewrite Forall_app in Hx. destruct Hx as [Hx1 Hx2]. rewrite Forall_forall in Hx2. split_and!; [by constructor|done|].
  intros a b [->|Ha]%elem_of_cons Hb; [by apply Hx2|by apply H12].
Qed.
Lemma sorted_cons_inv x l : sorted (x :: l) -> sorted l /\ (forall y, y ∈ l -> cmp x y <= 0).
Proof. intros [H Hx]%StronglySorted_inv. rewrite Forall_forall in Hx. done. Qed.

(** A sequence is sorted when neighbours are in order. *)
Lemma sorted_adjacent l :
  (forall i x y, l !! i = Some x -> l !! S i = Some y -> cmp x y <= 0) -> sorted l.
Proof.
  intros H. apply Sorted_StronglySorted; [intros x y z; apply cmp_trans|].
  induction l as [|x l IH]; [constructor|]. constructor.
  - apply IH. intros i. apply (H (S i)).
  - destruct l as [|y l]; constructor. by apply (H 0%nat).
Qed.
Lemma sorted_lookup l i j x y : sorted l -> (i < j)%nat -> l !! i = Some x -> l !! j = Some y -> cmp x y <= 0.
Proof.
  intros Hs. revert i j. induction Hs as [|a l Hs IH Ha]; intros [|i] [|j] Hij Hi Hj; simplify_eq/=; try lia.
  - rewrite Forall_forall in Ha. apply Ha. by eapply list_elem_of_lookup_2.
  - apply (IH i j); [lia|done|done].
Qed.
End Laws.
Arguments sorted {A} cmp l.

Lemma sorted_fmap {A B} (f : A -> B) (c : B -> B -> Z) l : sorted (fun x y => c (f x) (f y)) l -> sorted c (f <$> l).
Proof. induction 1 as [|x l Hs IH Hx]; constructor; [done|]. by apply Forall_fmap. Qed.
(** Two sorted permutations of each other agree up to ties. *)
Lemma cmp_sgn_sorted_ext {A} (c1 c2 : A -> A -> Z) l :
  (forall x y, Z.sgn (c1 x y) = Z.sgn (c2 x y)) -> sorted c1 l -> sorted c2 l.
Proof.
  intros H Hs. induction Hs as [|x l Hs IH Hx]; constructor; [done|].
  eapply Forall_impl; [exact Hx|]. unfold cmp_le. intros y Hy. specialize (H x y). lia.
Qed.

(** ** Building comparison functions *)

(** The next key decides when the first is equal. *)
Definition lex {A} (c1 c2 : A -> A -> Z) (x y : A) : Z :=
  if decide (c1 x y = 0%Z) then c2 x y else c1 x y.

Definition flip_cmp {A} (c : A -> A -> Z) (x y : A) : Z := c y x.

Lemma lex_laws {A} (c1 c2 : A -> A -> Z) `{!CmpLaws c1} `{!CmpLaws c2} : CmpLaws (lex c1 c2).
Proof.
  unfold lex. split.
  - intros x y. pose proof (cmp_sgn (cmp := c1) x y). pose proof (cmp_sgn (cmp := c2) x y).
    repeat case_decide; lia.
  - intros x y z H1 H2. pose proof (cmp_sgn (cmp := c1) x y). pose proof (cmp_sgn (cmp := c1) y z).
    pose proof (cmp_sgn (cmp := c1) x z).
    assert (Hle : (c1 x z <= 0)%Z) by (apply (cmp_trans x y z); repeat case_decide; lia).
    destruct (decide (c1 x z = 0%Z)) as [Hz|]; [|lia].
    assert (c1 y x <= 0)%Z by (apply (cmp_trans y z x); repeat case_decide; lia).
    assert (c1 z y <= 0)%Z by (apply (cmp_trans z x y); repeat case_decide; lia).
    repeat case_decide; try lia. by apply (cmp_trans x y z).
Qed.

Lemma flip_laws {A} (c : A -> A -> Z) `{!CmpLaws c} : CmpLaws (flip_cmp c).
Proof.
  unfold flip_cmp. split.
  - intros x y. apply cmp_sgn.
  - intros x y z H1 H2. by apply (cmp_trans z y x).
Qed.

#[export] Instance const_laws {A} : CmpLaws (fun _ _ : A => 0%Z).
Proof. split; [done|lia]. Qed.

Lemma proj_laws {A B} (f : A -> B) (c : B -> B -> Z) `{!CmpLaws c} : CmpLaws (fun x y => c (f x) (f y)).
Proof. split; intros; [apply cmp_sgn|by eapply cmp_trans]. Qed.

Lemma sgn_laws {A} (c c' : A -> A -> Z) `{!CmpLaws c} :
  (forall x y, Z.sgn (c' x y) = Z.sgn (c x y)) -> CmpLaws c'.
Proof.
  intros H. split.
  - intros x y. rewrite !H. apply cmp_sgn.
  - intros x y z H1 H2. pose proof (H x y). pose proof (H y z). pose proof (H x z).
    assert (c x z <= 0)%Z by (apply (cmp_trans x y z); lia). lia.
Qed.

(** The comparison of machine integers, as C code writes it with [<]. *)
Definition cmp_int (x y : Z) : Z := if (x <? y)%Z then (-1)%Z else if (x =? y)%Z then 0%Z else 1%Z.
#[export] Instance cmp_int_laws : CmpLaws cmp_int.
Proof. unfold cmp_int. split; intros *; repeat case_match; lia. Qed.
