(* ===== verification/Compare.v ===== *)
(** * Compare: the comparison of sort tuples (src/backend/utils/sort/tuplesort.c)

    inlineApplySortFunction, the comparetup_xxx and reversedirection_xxx routines and the
    set-up of scan keys in tuplesort_begin_heap.  The SQL comparison functions (fmgr), and
    the access to a column of a tuple (heap_getattr, index_getattr) are parameters. *)

From S2P Require Import Prelude Order.
Local Open Scope Z_scope.

Definition SK_BT_DESC : Z := 1 ≪ 24.
Definition SK_BT_NULLS_FIRST : Z := 2 ≪ 24.

(** [flags & bit] as a condition *)
Definition flag_set (flags bit : Z) : bool := negb (Z.land flags bit =? 0).

(** An SQL value, by value. *)
Definition Datum := Z.

Record ScanKeyData := mkKey {
  sk_flags : Z; sk_attno : Z;
  sk_func : Datum -> Datum -> Z     (* what the function returns, as a Datum *) }.

Definition with_flags (f : Z) (k : ScanKeyData) : ScanKeyData := mkKey f (sk_attno k) (sk_func k).

Definition DatumGetInt32 (d : Datum) : Z := wrap32 d.

Definition inlineApplySortFunction (sortFunction : Datum -> Datum -> Z) (sk_flags : Z)
    (datum1 : Datum) (isNull1 : bool) (datum2 : Datum) (isNull2 : bool) : Z :=
  if isNull1 then
    if isNull2 then 0
    else if flag_set sk_flags SK_BT_NULLS_FIRST then -1
    else 1
  else if isNull2 then
    if flag_set sk_flags SK_BT_NULLS_FIRST then 1 else -1
  else
    let compare := DatumGetInt32 (sortFunction datum1 datum2) in
    if flag_set sk_flags SK_BT_DESC then wrap32 (- compare) else compare.

Definition ApplySortFunction := inlineApplySortFunction.

(** [sk_flags ^= (SK_BT_DESC | SK_BT_NULLS_FIRST)] *)
Definition reverse_flags (f : Z) : Z := Z.lxor f (Z.lor SK_BT_DESC SK_BT_NULLS_FIRST).

(** SortTuple; [tuple] is the tuple proper, of the kind the sort variant uses. *)
Record SortTuple (T : Type) := mkSortTuple {
  tuple : T; datum1 : Datum; isnull1 : bool; tupindex : Z }.
Arguments mkSortTuple {T} tuple datum1 isnull1 tupindex.
Arguments tuple {T} s.
Arguments datum1 {T} s.
Arguments isnull1 {T} s.
Arguments tupindex {T} s.
Definition with_tupindex {T} (i : Z) (t : SortTuple T) : SortTuple T :=
  mkSortTuple (tuple t) (datum1 t) (isnull1 t) i.

(** ** MinimalTuple variant *)

Section Heap.
Context {MinimalTuple : Type}.
(** The column [attno] of a tuple, and whether it is NULL. *)
Variable heap_getattr : MinimalTuple -> Z -> Datum * bool.

(** One additional key of comparetup_heap. *)
Definition compare_attr (k : ScanKeyData) (a b : SortTuple MinimalTuple) : Z :=
  let '(datum1, isnull1) := heap_getattr (tuple a) (sk_attno k) in
  let '(datum2, isnull2) := heap_getattr (tuple b) (sk_attno k) in
  inlineApplySortFunction (sk_func k) (sk_flags k) datum1 isnull1 datum2 isnull2.

(** The loop [for (nkey = 1; nkey < nKeys; ...)]. *)
Fixpoint compare_rest (keys : list ScanKeyData) (a b : SortTuple MinimalTuple) : Z :=
  match keys with
  | [] => 0
  | k :: keys' =>
    let compare := compare_attr k a b in
    if decide (compare = 0) then compare_rest keys' a b else compare
  end.

Definition compare_leading (k : ScanKeyData) (a b : SortTuple MinimalTuple) : Z :=
  inlineApplySortFunction (sk_func k) (sk_flags k) (datum1 a) (isnull1 a) (datum1 b) (isnull1 b).

(** [scanKeys] has nKeys elements; nKeys > 0 is asserted by tuplesort_begin_heap. *)
Definition comparetup_heap (scanKeys : list ScanKeyData) (a b : SortTuple MinimalTuple) : Z :=
  match scanKeys with
  | [] => 0
  | k :: keys =>
    let compare := compare_leading k a b in
    if decide (compare = 0) then compare_rest keys a b else compare
  end.

Definition reversedirection_heap (scanKeys : list ScanKeyData) : list ScanKeyData :=
  (fun k => with_flags (reverse_flags (sk_flags k)) k) <$> scanKeys.

(** What copytup_heap, readtup_heap and computeDatum1 do about the leading key. *)
Definition computeDatum1 (scanKeys : list ScanKeyData) (t : MinimalTuple) (i : Z) : SortTuple MinimalTuple :=
  match scanKeys with
  | [] => mkSortTuple t 0 true i
  | k :: _ => let '(d, n) := heap_getattr t (sk_attno k) in mkSortTuple t d n i
  end.

(** The scan keys tuplesort_begin_heap sets up; [get_compare_function_for_ordering_op] gives the
    comparison function of an operator and whether it sorts in reverse. *)
Fixpoint make_scanKeys (get_compare_function_for_ordering_op : Z -> option ((Datum -> Datum -> Z) * bool))
    (attNums sortOperators : list Z) (nullsFirstFlags : list bool) : res (list ScanKeyData) :=
  match attNums, sortOperators, nullsFirstFlags with
  | a :: attNums', o :: ops', nf :: nfs' =>
    if (a =? 0) || (o =? 0) then Err EAssert
    else match get_compare_function_for_ordering_op o with
         | None => Err (EElog "operator is not a valid ordering operator")
         | Some (f, reverse) =>
           let flags := 0 in
           let flags := if reverse : bool then Z.lor flags SK_BT_DESC else flags in
           let flags := if nf : bool then Z.lor flags SK_BT_NULLS_FIRST else flags in
           ks ← make_scanKeys get_compare_function_for_ordering_op attNums' ops' nfs';
           Ok (mkKey flags a f :: ks)
         end
  | _, _, _ => Ok []
  end.
End Heap.

(** ** IndexTuple variant *)

Section Index.
(** An index tuple is its bytes.  It begins with t_tid, the heap item the entry points to (block number, high half
    first, and offset number), and t_info, which has the size in its low bits.  No two index tuples of an index build have the same
    t_tid, so that the bytes stand for the pointer to the tuple where the code compares pointers. *)
Definition IndexTuple := list Z.
Definition uint16_at (t : IndexTuple) (i : nat) : Z := nth i t 0 + 256 * nth (S i) t 0.
Definition it_blk (t : IndexTuple) : Z := Z.lor (uint16_at t 0 ≪ 16) (uint16_at t 2).
Definition it_pos (t : IndexTuple) : Z := uint16_at t 4.
Definition INDEX_SIZE_MASK : Z := 0x1FFF.
Definition IndexTupleSize (t : IndexTuple) : nat := Z.to_nat (Z.land (uint16_at t 6) INDEX_SIZE_MASK).
Variable index_getattr : IndexTuple -> Z -> Datum * bool.

(** The keys of comparetup_index_btree after the first: the comparison, and whether a NULL was seen. *)
Fixpoint compare_index_rest (nkey : Z) (keys : list ScanKeyData) (equal_hasnull : bool) (a b : IndexTuple) : Z * bool :=
  match keys with
  | [] => (0, equal_hasnull)
  | k :: keys' =>
    let '(datum1, isnull1) := index_getattr a nkey in
    let '(datum2, isnull2) := index_getattr b nkey in
    let compare := inlineApplySortFunction (sk_func k) (sk_flags k) datum1 isnull1 datum2 isnull2 in
    if decide (compare = 0) then compare_index_rest (nkey + 1) keys' (equal_hasnull || isnull1) a b
    else (compare, equal_hasnull)
  end.

Definition tid_order (a b : IndexTuple) : Z :=
  if negb (it_blk a =? it_blk b) then (if it_blk a <? it_blk b then -1 else 1)
  else if negb (it_pos a =? it_pos b) then (if it_pos a <? it_pos b then -1 else 1)
  else 0.

(** With the assertion of ItemPointerGetBlockNumber and ItemPointerGetOffsetNumber that the item pointer is valid. *)
Definition compare_tid (a b : IndexTuple) : res Z :=
  if (it_pos a =? 0) || (it_pos b =? 0) then Err EAssert else Ok (tid_order a b).

(** The keys alone: comparison and NULL flag, before the check of uniqueness. *)
Definition compare_index_keys (keys : list ScanKeyData) (a b : SortTuple IndexTuple) : Z * bool :=
  match keys with
  | [] => (0, false)
  | k :: keys' =>
    let compare := inlineApplySortFunction (sk_func k) (sk_flags k) (datum1 a) (isnull1 a) (datum1 b) (isnull1 b) in
    if decide (compare = 0) then compare_index_rest 2 keys' (isnull1 a) (tuple a) (tuple b)
    else (compare, false)
  end.

Definition comparetup_index_btree (enforceUnique : bool) (keys : list ScanKeyData)
    (a b : SortTuple IndexTuple) : res Z :=
  let '(compare, equal_hasnull) := compare_index_keys keys a b in
  if decide (compare = 0) then
    if enforceUnique && negb equal_hasnull && negb (bool_decide (tuple a = tuple b))
    then Err (EElog "could not create unique index")
    else compare_tid (tuple a) (tuple b)
  else Ok compare.

Definition DatumGetUInt32 (d : Datum) : Z := d mod 2 ^ 32.
Definition comparetup_index_hash (hash_mask : Z) (a b : SortTuple IndexTuple) : res Z :=
  if isnull1 a then Err EAssert
  else let hash1 := Z.land (DatumGetUInt32 (datum1 a)) hash_mask in
  if isnull1 b then Err EAssert
  else let hash2 := Z.land (DatumGetUInt32 (datum1 b)) hash_mask in
  if hash2 <? hash1 then Ok 1 else if hash1 <? hash2 then Ok (-1) else compare_tid (tuple a) (tuple b).

Definition reversedirection_index_btree (keys : list ScanKeyData) : list ScanKeyData :=
  (fun k => with_flags (reverse_flags (sk_flags k)) k) <$> keys.
Definition reversedirection_index_hash : res (list ScanKeyData) :=
  Err (EElog "reversedirection_index_hash is not implemented").
End Index.

(** ** Datum variant *)

Definition comparetup_datum {T} (sortOpFn : Datum -> Datum -> Z) (sortFnFlags : Z) (a b : SortTuple T) : Z :=
  inlineApplySortFunction sortOpFn sortFnFlags (datum1 a) (isnull1 a) (datum1 b) (isnull1 b).
Definition reversedirection_datum (sortFnFlags : Z) : Z := reverse_flags sortFnFlags.
Definition copytup_datum : res unit := Err (EElog "copytup_datum() should not be called").

Definition SelectSortFunction (get_compare_function_for_ordering_op : Z -> option ((Datum -> Datum -> Z) * bool))
    (sortOperator : Z) (nulls_first : bool) : res ((Datum -> Datum -> Z) * Z) :=
  match get_compare_function_for_ordering_op sortOperator with
  | None => Err (EElog "operator is not a valid ordering operator")
  | Some (f, reverse) =>
    let sortFlags := if reverse : bool then SK_BT_DESC else 0 in
    Ok (f, if nulls_first then Z.lor sortFlags SK_BT_NULLS_FIRST else sortFlags)
  end.

(** ** Lemmas *)

(** What the sort code needs of an SQL comparison function: a total preorder, and no result of
    INT_MIN, whose negation is itself. *)
Class SortFunction (f : Datum -> Datum -> Z) : Prop := {
  sf_laws :: CmpLaws (fun x y => DatumGetInt32 (f x y));
  sf_min : forall x y, DatumGetInt32 (f x y) <> INT_MIN }.

Lemma wrap32_range z : int32_range (wrap32 z).
Proof.
  unfold int32_range, wrap32, INT_MIN, INT_MAX. pose proof (Z.mod_pos_bound (z + 2 ^ 31) (2 ^ 32)). lia.
Qed.

Lemma negate_int32 f `{!SortFunction f} x y : wrap32 (- DatumGetInt32 (f x y)) = - DatumGetInt32 (f x y).
Proof.
  pose proof (sf_min x y) as Hm. pose proof (wrap32_range (f x y)) as Hr. unfold DatumGetInt32 in *.
  apply wrap32_id. revert Hm Hr. unfold int32_range, INT_MIN, INT_MAX. lia.
Qed.

Lemma flag_set_testbit flags n : 0 <= n -> flag_set flags (1 ≪ n) = Z.testbit flags n.
Proof.
  intros Hn. unfold flag_set. rewrite Z.shiftl_1_l.
  destruct (Z.testbit flags n) eqn:E.
  - apply negb_true_iff, Z.eqb_neq. intros H. assert (Z.testbit (Z.land flags (2 ^ n)) n = false) as Hb by (by rewrite H, Z.bits_0).
    rewrite Z.land_spec, E, Z.pow2_bits_true in Hb by done. done.
  - apply negb_false_iff, Z.eqb_eq. apply Z.bits_inj'. intros m Hm. rewrite Z.land_spec, Z.bits_0.
    destruct (decide (m = n)) as [->|]; [by rewrite E|]. rewrite Z.pow2_bits_false by lia. by rewrite andb_false_r.
Qed.

Lemma flag_set_reverse flags :
  flag_set (reverse_flags flags) SK_BT_DESC = negb (flag_set flags SK_BT_DESC) /\
  flag_set (reverse_flags flags) SK_BT_NULLS_FIRST = negb (flag_set flags SK_BT_NULLS_FIRST).
Proof.
  unfold SK_BT_DESC, SK_BT_NULLS_FIRST, reverse_flags. change (2 ≪ 24) with (1 ≪ 25).
  rewrite !flag_set_testbit by done. rewrite !Z.lxor_spec. unfold SK_BT_DESC, SK_BT_NULLS_FIRST.
  split; destruct (Z.testbit _ _); reflexivity.
Qed.

Lemma reverse_flags_involutive flags : reverse_flags (reverse_flags flags) = flags.
Proof. unfold reverse_flags. by rewrite Z.lxor_assoc, Z.lxor_nilpotent, Z.lxor_0_r. Qed.

(** One key, on values with their NULL flags. *)
Definition apply_key (k : ScanKeyData) (p q : Datum * bool) : Z :=
  inlineApplySortFunction (sk_func k) (sk_flags k) (fst p) (snd p) (fst q) (snd q).

(** NULLs before or after all other values. *)
Lemma null_laws (nf : bool) (c : Datum -> Datum -> Z) `{!CmpLaws c} :
  CmpLaws (fun p q : Datum * bool =>
    if snd p then if snd q then 0 else if nf then -1 else 1
    else if snd q then if nf then 1 else -1 else c (fst p) (fst q)).
Proof.
  split.
  - intros [x nx] [y ny]; simpl. destruct nx, ny, nf; try done; apply cmp_sgn.
  - intros [x nx] [y ny] [z nz]; simpl. destruct nx, ny, nz, nf; try lia; apply cmp_trans.
Qed.

Lemma direction_laws (desc : bool) f `{!SortFunction f} :
  CmpLaws (fun x y => if desc then wrap32 (- DatumGetInt32 (f x y)) else DatumGetInt32 (f x y)).
Proof.
  destruct desc; [|apply sf_laws].
  eapply (sgn_laws (flip_cmp (fun x y => DatumGetInt32 (f x y)))); [apply flip_laws, sf_laws|].
  intros x y. rewrite negate_int32 by done. unfold flip_cmp.
  pose proof (cmp_sgn (cmp := fun x y => DatumGetInt32 (f x y)) x y) as H. simpl in H. rewrite H. lia.
Qed.

#[export] Instance apply_key_laws k `{!SortFunction (sk_func k)} : CmpLaws (apply_key k).
Proof.
  exact (null_laws (flag_set (sk_flags k) SK_BT_NULLS_FIRST) _
    (CmpLaws0 := direction_laws (flag_set (sk_flags k) SK_BT_DESC) (sk_func k))).
Qed.

Definition reversed (k : ScanKeyData) : ScanKeyData := with_flags (reverse_flags (sk_flags k)) k.

Lemma apply_key_reversed k `{!SortFunction (sk_func k)} p q : apply_key (reversed k) p q = - apply_key k p q.
Proof.
  unfold apply_key, inlineApplySortFunction, reversed; simpl.
  destruct (flag_set_reverse (sk_flags k)) as [-> ->]. destruct p as [x nx], q as [y ny]; simpl.
  rewrite ?negate_int32 by done. destruct nx, ny, (flag_set (sk_flags k) SK_BT_NULLS_FIRST), (flag_set (sk_flags k) SK_BT_DESC); simpl; lia.
Qed.

Section HeapLemmas.
Context {MinimalTuple : Type} (heap_getattr : MinimalTuple -> Z -> Datum * bool).

Lemma compare_attr_laws k `{!SortFunction (sk_func k)} : CmpLaws (compare_attr heap_getattr k).
Proof.
  eapply sgn_laws; [apply (proj_laws (fun a : SortTuple MinimalTuple => heap_getattr (tuple a) (sk_attno k)) (apply_key k))|].
  intros a b. unfold compare_attr, apply_key. by destruct (heap_getattr (tuple a) _), (heap_getattr (tuple b) _).
Qed.
Lemma compare_leading_laws k `{!SortFunction (sk_func k)} : CmpLaws (compare_leading (MinimalTuple := MinimalTuple) k).
Proof. apply (proj_laws (fun a : SortTuple MinimalTuple => (datum1 a, isnull1 a)) (apply_key k)). Qed.

Lemma compare_rest_laws keys : Forall (fun k => SortFunction (sk_func k)) keys -> CmpLaws (compare_rest heap_getattr keys).
Proof.
  induction 1 as [|k keys Hk _ IH]; [exact const_laws|].
  pose proof (compare_attr_laws k) as Ha.
  exact (@lex_laws _ (compare_attr heap_getattr k) (compare_rest heap_getattr keys) Ha IH).
Qed.
Lemma comparetup_heap_laws keys : Forall (fun k => SortFunction (sk_func k)) keys -> CmpLaws (comparetup_heap heap_getattr keys).
Proof.
  intros [|k keys' Hk Hks]; [exact const_laws|].
  pose proof (compare_leading_laws k) as Hl. pose proof (compare_rest_laws keys' Hks) as Hr.
  exact (@lex_laws _ (compare_leading k) (compare_rest heap_getattr keys') Hl Hr).
Qed.

Lemma compare_attr_reversed k `{!SortFunction (sk_func k)} a b :
  compare_attr heap_getattr (reversed k) a b = - compare_attr heap_getattr k a b.
Proof.
  unfold compare_attr. simpl. destruct (heap_getattr (tuple a) _) as [x nx], (heap_getattr (tuple b) _) as [y ny].
  exact (apply_key_reversed k (x, nx) (y, ny)).
Qed.
Lemma compare_rest_reversed keys a b :
  Forall (fun k => SortFunction (sk_func k)) keys ->
  compare_rest heap_getattr (reversedirection_heap keys) a b = - compare_rest heap_getattr keys a b.
Proof.
  induction 1 as [|k keys Hk _ IH]; simpl; [done|].
  change (with_flags _ k) with (reversed k). rewrite compare_attr_reversed by done.
  repeat case_decide; lia.
Qed.
Lemma comparetup_heap_reversed keys a b :
  Forall (fun k => SortFunction (sk_func k)) keys ->
  comparetup_heap heap_getattr (reversedirection_heap keys) a b = - comparetup_heap heap_getattr keys a b.
Proof.
  intros [|k keys' Hk Hks]; simpl; [done|]. change (with_flags _ k) with (reversed k).
  assert (compare_leading (reversed k) a b = - compare_leading k a b) as ->
    by exact (apply_key_reversed k (datum1 a, isnull1 a) (datum1 b, isnull1 b)).
  fold (reversedirection_heap keys'). rewrite compare_rest_reversed by done. repeat case_decide; lia.
Qed.
Lemma reversedirection_heap_involutive keys : reversedirection_heap (reversedirection_heap keys) = keys.
Proof.
  unfold reversedirection_heap. rewrite <- list_fmap_compose. rewrite <- (list_fmap_id keys) at 2.
  apply list_fmap_ext. intros _ [f a g] _. unfold compose, with_flags; simpl. by rewrite reverse_flags_involutive.
Qed.
End HeapLemmas.

Section IndexLemmas.
Context (index_getattr : IndexTuple -> Z -> Datum * bool).

(** The values of the key columns: the first is cached in the sort tuple. *)
Definition rest_values (nkey : Z) (n : nat) (t : IndexTuple) : list (Datum * bool) :=
  (fun i => index_getattr t (nkey + Z.of_nat i)) <$> seq 0 n.
Definition key_values (n : nat) (a : SortTuple IndexTuple) : list (Datum * bool) :=
  match n with O => [] | S n' => (datum1 a, isnull1 a) :: rest_values 2 n' (tuple a) end.

(** Lexicographic comparison of the key columns. *)
Fixpoint compare_values (keys : list ScanKeyData) (xs ys : list (Datum * bool)) : Z :=
  match keys, xs, ys with
  | k :: keys', x :: xs', y :: ys' => if decide (apply_key k x y = 0) then compare_values keys' xs' ys' else apply_key k x y
  | _, _, _ => 0
  end.

Lemma rest_values_S nkey n t : rest_values nkey (S n) t = index_getattr t nkey :: rest_values (nkey + 1) n t.
Proof.
  unfold rest_values. simpl. f_equal; [by rewrite Z.add_0_r|].
  rewrite <- fmap_S_seq, <- list_fmap_compose. apply list_fmap_ext. intros i x _. simpl. f_equal. lia.
Qed.

Lemma compare_index_rest_spec keys : forall nkey hn a b,
  let r := compare_index_rest index_getattr nkey keys hn a b in
  fst r = compare_values keys (rest_values nkey (length keys) a) (rest_values nkey (length keys) b) /\
  (fst r = 0 -> snd r = hn || existsb snd (rest_values nkey (length keys) a)).
Proof.
  induction keys as [|k keys IH]; intros nkey hn a b; cbv zeta; [simpl; by rewrite orb_false_r|].
  cbn [length]. rewrite !rest_values_S. cbn [compare_index_rest compare_values existsb]. destruct (index_getattr a nkey) as [x nx] eqn:Ea, (index_getattr b nkey) as [y ny] eqn:Eb.
  change (inlineApplySortFunction (sk_func k) (sk_flags k) x nx y ny) with (apply_key k (x, nx) (y, ny)).
  destruct (decide (apply_key k (x, nx) (y, ny) = 0)); cbn [fst snd]; [|done].
  destruct (IH (nkey + 1) (hn || nx) a b) as [-> H2]. split; [done|]. intros H. rewrite H2 by done. by rewrite orb_assoc.
Qed.

Lemma compare_index_keys_spec keys a b :
  let r := compare_index_keys index_getattr keys a b in
  fst r = compare_values keys (key_values (length keys) a) (key_values (length keys) b) /\
  (fst r = 0 -> snd r = existsb snd (key_values (length keys) a)).
Proof.
  destruct keys as [|k keys]; simpl; [done|].
  change (inlineApplySortFunction (sk_func k) (sk_flags k) (datum1 a) (isnull1 a) (datum1 b) (isnull1 b))
    with (apply_key k (datum1 a, isnull1 a) (datum1 b, isnull1 b)).
  destruct (decide _); [|done]. apply compare_index_rest_spec.
Qed.

(** The outcomes of comparetup_index_btree. *)
Lemma comparetup_index_btree_cases enforceUnique keys a b :
  let va := key_values (length keys) a in
  let vb := key_values (length keys) b in
  comparetup_index_btree index_getattr enforceUnique keys a b =
  if decide (compare_values keys va vb = 0) then
    if enforceUnique && negb (existsb snd va) && negb (bool_decide (tuple a = tuple b))
    then Err (EElog "could not create unique index")
    else compare_tid (tuple a) (tuple b)
  else Ok (compare_values keys va vb).
Proof.
  simpl. unfold comparetup_index_btree. destruct (compare_index_keys_spec keys a b) as [H1 H2].
  destruct (compare_index_keys index_getattr keys a b) as [c hn]; simpl in *. subst c.
  destruct (decide _) as [E|]; [|done]. by rewrite (H2 E).
Qed.
End IndexLemmas.

Lemma tid_order_laws : CmpLaws tid_order.
Proof.
  apply (sgn_laws (lex (fun a b => it_blk a - it_blk b) (fun a b => it_pos a - it_pos b))).
  - apply lex_laws; split; intros; lia.
  - intros a b. unfold tid_order, lex. repeat case_match; lia.
Qed.
Lemma tid_order_zero a b : tid_order a b = 0 <-> it_blk a = it_blk b /\ it_pos a = it_pos b.
Proof. unfold tid_order. repeat case_match; naive_solver lia. Qed.

(** ** Properties *)

(** C30: comparetup_heap is a total preorder on sort tuples for any list of scan keys,
    with any directions and NULL placements, provided the comparison functions of
    the columns are; this is what sorting relies on. *)
Theorem comparetup_heap_is_preorder {MinimalTuple} (heap_getattr : MinimalTuple -> Z -> Datum * bool) keys :
  Forall (fun k => SortFunction (sk_func k)) keys ->
  let cmp := comparetup_heap heap_getattr keys in
  (forall a, cmp a a = 0) /\ (forall a b, Z.sgn (cmp b a) = - Z.sgn (cmp a b)) /\
  (forall a b c, cmp a b <= 0 -> cmp b c <= 0 -> cmp a c <= 0).
Proof.
  intros Hk. pose proof (comparetup_heap_laws heap_getattr keys Hk) as HL. split_and!.
  - intros a. by apply cmp_refl.
  - intros a b. apply cmp_sgn.
  - intros a b c. apply cmp_trans.
Qed.

(** C24: reversedirection_heap exactly reverses the order of comparetup_heap, NULLs
    included, and applied twice it gives the keys back; the bounded heap sort depends on both. *)
Theorem reversedirection_heap_reverses {MinimalTuple} (heap_getattr : MinimalTuple -> Z -> Datum * bool) keys a b :
  Forall (fun k => SortFunction (sk_func k)) keys ->
  comparetup_heap heap_getattr (reversedirection_heap keys) a b = - comparetup_heap heap_getattr keys a b /\
  reversedirection_heap (reversedirection_heap keys) = keys.
Proof. intros Hk. split; [by apply comparetup_heap_reversed|apply reversedirection_heap_involutive]. Qed.

(** C31: comparetup_index_btree compares the key columns in order, and ties by the block and
    offset of the heap item; it raises the unique violation exactly when uniqueness is enforced,
    all key columns are equal, none of them is NULL and the two tuples are
    not one and the same. *)
Theorem comparetup_index_btree_spec (index_getattr : IndexTuple -> Z -> Datum * bool) enforceUnique keys a b :
  let va := key_values index_getattr (length keys) a in
  let vb := key_values index_getattr (length keys) b in
  comparetup_index_btree index_getattr enforceUnique keys a b =
  if decide (compare_values keys va vb = 0) then
    if enforceUnique && negb (existsb snd va) && negb (bool_decide (tuple a = tuple b))
    then Err (EElog "could not create unique index")
    else compare_tid (tuple a) (tuple b)
  else Ok (compare_values keys va vb).
Proof. apply comparetup_index_btree_cases. Qed.

(** C40: A comparison function that answers INT_MIN breaks descending sorts: the negation in
    inlineApplySortFunction overflows to INT_MIN again, so that each of two values sorts before the
    other. *)
Theorem int_min_breaks_desc :
  let f := fun x y => if x <? y then INT_MIN else if y <? x then INT_MAX else 0 in
  inlineApplySortFunction f SK_BT_DESC 1 false 2 false < 0 /\ inlineApplySortFunction f SK_BT_DESC 2 false 1 false < 0.
Proof. vm_compute. done. Qed.

(** ** Witnesses *)

#[export] Instance cmp_int_sort : SortFunction cmp_int.
Proof.
  assert (H : forall x y, DatumGetInt32 (cmp_int x y) = cmp_int x y).
  { intros x y. unfold cmp_int. repeat case_match; reflexivity. }
  split.
  - eapply (sgn_laws cmp_int); [apply cmp_int_laws|]. intros x y. by rewrite H.
  - intros x y. rewrite H. unfold cmp_int. repeat case_match; done.
Qed.

(** Rows of integers, columns from one, without NULLs. *)
Definition demo_getattr (t : list Z) (attno : Z) : Datum * bool :=
  match t !! Z.to_nat (attno - 1) with Some v => (v, false) | None => (0, true) end.
(** ORDER BY c2 DESC, c1 *)
Definition demo_keys : list ScanKeyData := [mkKey SK_BT_DESC 2 cmp_int; mkKey 0 1 cmp_int].
Definition demo_tuple (t : list Z) : SortTuple (list Z) := computeDatum1 demo_getattr demo_keys t 0.
Lemma demo_keys_ok : Forall (fun k => SortFunction (sk_func k)) demo_keys.
Proof. repeat constructor; simpl; apply cmp_int_sort. Qed.

Lemma comparetup_heap_is_preorder_witness :
  comparetup_heap demo_getattr demo_keys (demo_tuple [1; 5]) (demo_tuple [2; 5]) = -1 /\
  comparetup_heap demo_getattr demo_keys (demo_tuple [2; 5]) (demo_tuple [1; 4]) = -1 /\
  comparetup_heap demo_getattr demo_keys (demo_tuple [1; 5]) (demo_tuple [1; 4]) <= 0.
Proof.
  split; [reflexivity|]. split; [reflexivity|].
  destruct (comparetup_heap_is_preorder demo_getattr demo_keys demo_keys_ok) as (_ & _ & Ht).
  apply (Ht _ (demo_tuple [2; 5])); vm_compute; discriminate.
Defined.

Lemma reversedirection_heap_reverses_witness :
  comparetup_heap demo_getattr (reversedirection_heap demo_keys) (demo_tuple [1; 5]) (demo_tuple [2; 5]) = 1.
Proof.
  exact (proj1 (reversedirection_heap_reverses demo_getattr demo_keys (demo_tuple [1; 5]) (demo_tuple [2; 5]) demo_keys_ok)).
Defined.
