(* ===== verification/Heap.v ===== *)
(** * Heap: the binary heap of tuplesort.c (Knuth's Algorithm 5.2.3H)

    tuplesort_heap_insert and tuplesort_heap_siftup on the array memtuples[], whose first
    memtupcount entries are the heap; the comparison, which may raise an error, is a parameter here and is
    HEAPCOMPARE in Tuplesort.v.  Both move a hole through the array instead of swapping. *)

From S2P Require Import Prelude Order.
From Stdlib Require Import Permutation.

Section HeapCode.
Context {A : Type} (cmp : A -> A -> res Z).

(** The loop of tuplesort_heap_insert: the hole is at [j]. *)
Fixpoint insert_loop (fuel : nat) (memtuples : list A) (j : nat) (tuple : A) : res (list A) :=
  match j with
  | O => Ok (<[0 := tuple]> memtuples)
  | S j' =>
    match fuel with
    | O => Err EDiverge
    | S f =>
      let i := j' / 2 in                     (* (j - 1) >> 1 *)
      y ← idx memtuples i;
      c ← cmp tuple y;
      if (0 <=? c)%Z then Ok (<[j := tuple]> memtuples)
      else insert_loop f (<[j := y]> memtuples) i tuple
    end
  end.

(** tuplesort_heap_insert: the new array and count; the hole moves up at most [memtupcount] times. *)
Definition heap_insert (memtuples : list A) (memtupcount : nat) (tuple : A) : res (list A * nat) :=
  if decide (memtupcount < length memtuples) then     (* Assert(memtupcount < memtupsize) *)
    mt ← insert_loop memtupcount memtuples memtupcount tuple;
    Ok (mt, S memtupcount)
  else Err EAssert.

(** The loop of tuplesort_heap_siftup: the hole is at [i], the heap has [n] entries. *)
Fixpoint siftup_loop (fuel : nat) (memtuples : list A) (n i : nat) (tuple : A) : res (list A) :=
  match fuel with
  | O => Err EDiverge
  | S f =>
    let j := 2 * i + 1 in
    if decide (n <= j) then Ok (<[i := tuple]> memtuples)
    else
      yj ← idx memtuples j;
      j ← (if decide (j + 1 < n) then
             yj1 ← idx memtuples (j + 1);
             c ← cmp yj yj1;
             Ok (if (0 <? c)%Z then j + 1 else j)
           else Ok j);
      y ← idx memtuples j;
      c ← cmp tuple y;
      if (c <=? 0)%Z then Ok (<[i := tuple]> memtuples)
      else siftup_loop f (<[i := y]> memtuples) n j tuple
  end.

(** tuplesort_heap_siftup: [if (--memtupcount <= 0) return;] and then the loop. *)
Definition heap_siftup (memtuples : list A) (memtupcount : nat) : res (list A * nat) :=
  let n := memtupcount - 1 in
  if decide (n = 0) then Ok (memtuples, 0)
  else
    tuple ← idx memtuples n;
    mt ← siftup_loop (S n) memtuples n 0 tuple;
    Ok (mt, n).
End HeapCode.

Section Heap.
Context {A : Type} (cmp : A -> A -> Z).

(** ** The invariant *)

Definition parent (j : nat) : nat := (j - 1) / 2.

(** The first [n] entries are in heap order. *)
Definition heap_ok (l : list A) (n : nat) : Prop :=
  forall k x y, 0 < k -> k < n -> l !! parent k = Some x -> l !! k = Some y -> (cmp x y <= 0)%Z.

(** Heap order but for the hole at [j], where [t] is to go: [up] says that [t] is small
    enough for the entries below. *)
Record hole_up (l : list A) (n j : nat) (t : A) : Prop := {
  hu_other : forall k x y, 0 < k -> k < n -> k <> j -> parent k <> j ->
    l !! parent k = Some x -> l !! k = Some y -> (cmp x y <= 0)%Z;
  hu_below : forall k y, 0 < k -> k < n -> parent k = j -> l !! k = Some y -> (cmp t y <= 0)%Z;
  hu_skip : forall k x y, 0 < j -> 0 < k -> k < n -> parent k = j ->
    l !! parent j = Some x -> l !! k = Some y -> (cmp x y <= 0)%Z }.

Record hole_down (l : list A) (n i : nat) (t : A) : Prop := {
  hd_other : forall k x y, 0 < k -> k < n -> k <> i -> parent k <> i ->
    l !! parent k = Some x -> l !! k = Some y -> (cmp x y <= 0)%Z;
  hd_above : forall x, 0 < i -> l !! parent i = Some x -> (cmp x t <= 0)%Z;
  hd_skip : forall k x y, 0 < i -> 0 < k -> k < n -> parent k = i ->
    l !! parent i = Some x -> l !! k = Some y -> (cmp x y <= 0)%Z }.

Lemma parent_lt j : 0 < j -> parent j < j.
Proof. intros. unfold parent. apply Nat.Div0.div_lt_upper_bound; lia. Qed.
Lemma parent_children i k : 0 < k -> parent k = i -> k = 2 * i + 1 \/ k = 2 * i + 2.
Proof.
  unfold parent. intros Hk <-. pose proof (Nat.div_mod_eq (k - 1) 2). pose proof (Nat.mod_upper_bound (k - 1) 2). lia.
Qed.
Lemma parent_left i : parent (2 * i + 1) = i.
Proof. unfold parent. replace (2 * i + 1 - 1) with (i * 2) by lia. apply Nat.div_mul. done. Qed.
Lemma parent_right i : parent (2 * i + 1 + 1) = i.
Proof.
  unfold parent. replace (2 * i + 1 + 1 - 1) with (1 + i * 2) by lia. rewrite Nat.div_add by done. done.
Qed.

(** Moving an entry into the hole keeps the entries, up to order. *)
Lemma swap_perm (l : list A) i j a b :
  l !! i = Some a -> l !! j = Some b -> <[i := b]> (<[j := a]> l) ≡ₚ l.
Proof.
  intros Hi Hj. destruct (decide (i = j)) as [->|Hij].
  { simplify_eq. by rewrite list_insert_insert_eq, list_insert_id. }
  symmetry. apply Permutation_inj. split; [by rewrite !length_insert|].
  pose proof (lookup_lt_Some _ _ _ Hi). pose proof (lookup_lt_Some _ _ _ Hj).
  exists (fun k => if decide (k = i) then j else if decide (k = j) then i else k). split.
  - intros x y. repeat case_decide; congruence.
  - intros k. repeat case_decide; subst; simplify_eq.
    + by rewrite list_lookup_insert_ne, list_lookup_insert_eq.
    + by rewrite list_lookup_insert_eq by (by rewrite length_insert).
    + by rewrite !list_lookup_insert_ne.
Qed.

Lemma move_hole_perm (l : list A) i j y t :
  i <> j -> l !! i = Some y -> j < length l -> <[i := t]> (<[j := y]> l) ≡ₚ <[j := t]> l.
Proof.
  intros Hij Hi Hj. rewrite <- (swap_perm (<[j := t]> l) i j y t).
  - by rewrite list_insert_insert_eq.
  - by rewrite list_lookup_insert_ne.
  - by rewrite list_lookup_insert_eq.
Qed.

Context `{!CmpLaws cmp}.
(** The comparison of the code, which raises no error on the entries in [dom] and then answers as [cmp]. *)
Context (ccmp : A -> A -> res Z) (dom : A -> Prop) (Hcmp : forall x y, dom x -> dom y -> ccmp x y = Ok (cmp x y)).

(** The hole can be filled when its parent is small enough. *)
Lemma hole_up_fill l n j t :
  hole_up l n j t -> j < length l -> (forall x, 0 < j -> l !! parent j = Some x -> (cmp x t <= 0)%Z) ->
  heap_ok (<[j := t]> l) n.
Proof.
  intros [H1 H2 H3] Hj Hup k x z Hk0 Hk Hx Hz. pose proof (parent_lt k Hk0).
  destruct (decide (k = j)) as [->|Hkj].
  - rewrite list_lookup_insert_eq in Hz by lia. rewrite list_lookup_insert_ne in Hx by lia. simplify_eq. by apply Hup.
  - rewrite (list_lookup_insert_ne _ _ k) in Hz by done. destruct (decide (parent k = j)) as [Hp|Hp].
    + rewrite Hp, list_lookup_insert_eq in Hx by lia. simplify_eq. by eapply H2.
    + rewrite list_lookup_insert_ne in Hx by done. by eapply (H1 k).
Qed.

(** The hole moves to the parent when that is too big. *)
Lemma hole_up_move l n j t y :
  hole_up l n j t -> 0 < j -> j < length l -> j < n -> l !! parent j = Some y -> (cmp t y < 0)%Z ->
  hole_up (<[j := y]> l) n (parent j) t.
Proof.
  intros [H1 H2 H3] Hj Hjl Hjn Hy Ht. pose proof (parent_lt j Hj). split.
  - intros k x z Hk0 Hk Hki Hpi Hx Hz. destruct (decide (k = j)) as [->|]; [done|].
    rewrite list_lookup_insert_ne in Hz by done. destruct (decide (parent k = j)) as [Hp'|].
    + rewrite Hp', list_lookup_insert_eq in Hx by lia. simplify_eq. by eapply (H3 k).
    + rewrite list_lookup_insert_ne in Hx by done. by eapply (H1 k).
  - intros k z Hk0 Hk Hpk Hz. destruct (decide (k = j)) as [->|].
    + rewrite list_lookup_insert_eq in Hz by lia. simplify_eq. lia.
    + rewrite list_lookup_insert_ne in Hz by done. apply (cmp_trans t y z); [lia|].
      apply (H1 k y z); try done; [lia|congruence].
  - intros k x z Hi0 Hk0 Hk Hpk Hx Hz. pose proof (parent_lt _ Hi0).
    rewrite list_lookup_insert_ne in Hx by lia.
    assert (Hxy : (cmp x y <= 0)%Z) by (apply (H1 (parent j) x y); try done; lia).
    destruct (decide (k = j)) as [->|].
    + rewrite list_lookup_insert_eq in Hz by lia. by simplify_eq.
    + rewrite list_lookup_insert_ne in Hz by done. apply (cmp_trans x y z); [done|].
      apply (H1 k y z); try done; [lia|congruence].
Qed.

Lemma insert_loop_spec fuel : forall l n j t,
  hole_up l n j t -> n <= length l -> j < n -> j <= fuel -> dom t -> (forall k y, k < n -> k <> j -> l !! k = Some y -> dom y) ->
  exists l', insert_loop ccmp fuel l j t = Ok l' /\ length l' = length l /\ l' ≡ₚ <[j := t]> l /\
    (forall k, n <= k -> l' !! k = l !! k) /\ heap_ok l' n.
Proof.
  induction fuel as [|f IH]; intros l n j t HU Hn Hj Hf Ht Hdom.
  all: assert (Hstop : (forall x, 0 < j -> l !! parent j = Some x -> (cmp x t <= 0)%Z) ->
    length (<[j := t]> l) = length l /\ <[j := t]> l ≡ₚ <[j := t]> l /\
    (forall k, n <= k -> <[j := t]> l !! k = l !! k) /\ heap_ok (<[j := t]> l) n)
    by (intros; split_and!; [apply length_insert|done|intros; apply list_lookup_insert_ne; lia|apply hole_up_fill; auto with lia]).
  - assert (j = 0) as -> by lia. eexists. split; [reflexivity|]. apply Hstop. lia.
  - destruct j as [|j']; [eexists; split; [reflexivity|]; apply Hstop; lia|].
    cbn [insert_loop]. replace (j' / 2) with (parent (S j')) by (unfold parent; f_equal; lia).
    pose proof (parent_lt (S j') ltac:(lia)) as Hp.
    destruct (lookup_lt_is_Some_2 l (parent (S j'))) as [y Hy]; [lia|]. rewrite (idx_ok _ _ _ Hy). cbn [mbind res_bind].
    assert (dom y) by (apply (Hdom (parent (S j'))); [lia|lia|done]). rewrite Hcmp by done. cbn [mbind res_bind].
    destruct (0 <=? cmp t y)%Z eqn:E.
    + eexists. split; [reflexivity|]. apply Hstop. intros x _ Hx. simplify_eq. apply (cmp_total cmp). lia.
    + destruct (IH (<[S j' := y]> l) n (parent (S j')) t) as (l' & He & Hl & Hperm & Htail & Hok);
        [apply hole_up_move; auto with lia|rewrite ?length_insert; lia..|done| |].
      { intros k z Hk Hkp. destruct (decide (k = S j')) as [->|]; [rewrite list_lookup_insert_eq by lia; congruence|].
        rewrite list_lookup_insert_ne by done. by apply Hdom. }
      exists l'. rewrite length_insert in Hl. split_and!; try done.
      * rewrite Hperm. apply move_hole_perm; [lia|done|lia].
      * intros k Hk. rewrite Htail by done. apply list_lookup_insert_ne. lia.
Qed.

(** Entries past the heap do not take part. *)
Lemma perm_take (l l' : list A) n :
  n <= length l -> length l' = length l -> l' ≡ₚ l -> (forall k, n <= k -> l' !! k = l !! k) -> take n l' ≡ₚ take n l.
Proof.
  intros Hn Hl Hp Ht. apply (Permutation_app_inv_r (drop n l)).
  assert (drop n l' = drop n l) as Hd.
  { apply list_eq. intros k. rewrite !lookup_drop. apply Ht. lia. }
  rewrite <- Hd at 1. by rewrite !take_drop.
Qed.

(** tuplesort_heap_insert adds the tuple to the heap. *)
Lemma heap_insert_spec l n t :
  heap_ok l n -> n < length l -> dom t -> Forall dom (take n l) ->
  exists l', heap_insert ccmp l n t = Ok (l', S n) /\ length l' = length l /\ heap_ok l' (S n) /\
    take (S n) l' ≡ₚ t :: take n l /\ (forall k, S n <= k -> l' !! k = l !! k).
Proof.
  intros Hok Hn Hd Hds. unfold heap_insert. rewrite decide_True by done.
  destruct (insert_loop_spec n l (S n) n t) as (l' & He & Hl & Hp & Ht & Hok'); [|lia..|done| |].
  - split.
    + intros k x y Hk0 Hk Hkn _. apply Hok; lia.
    + intros k y Hk0 Hk Hp. pose proof (parent_lt k Hk0). lia.
    + intros k x y _ Hk0 Hk Hp. pose proof (parent_lt k Hk0). lia.
  - intros k y Hk Hkn Hy. apply (Forall_lookup_1 _ _ k _ Hds). rewrite lookup_take_lt by lia. done.
  - rewrite He. exists l'. simpl. split_and!; try done.
    rewrite (perm_take (<[n := t]> l) l' (S n)); [|rewrite ?length_insert; lia..|done|].
    + rewrite insert_take_drop by done. rewrite take_app_ge by (rewrite length_take; lia).
      rewrite length_take, Nat.min_l by lia. replace (S n - n) with 1 by lia. simpl. rewrite take_0.
      by rewrite (Permutation_app_comm _ [t]).
    + intros k Hk. rewrite Ht by done. symmetry. apply list_lookup_insert_ne. lia.
Qed.

(** The hole can be filled when the entries below are big enough. *)
Lemma hole_down_fill l n i t :
  hole_down l n i t -> i < length l ->
  (forall k y, 0 < k -> k < n -> parent k = i -> l !! k = Some y -> (cmp t y <= 0)%Z) ->
  heap_ok (<[i := t]> l) n.
Proof.
  intros [H1 H2 H3] Hi Hb k x z Hk0 Hk Hx Hz. pose proof (parent_lt k Hk0).
  destruct (decide (k = i)) as [->|Hki].
  - rewrite list_lookup_insert_eq in Hz by lia. rewrite list_lookup_insert_ne in Hx by lia. simplify_eq. by apply H2.
  - rewrite (list_lookup_insert_ne _ _ k) in Hz by done. destruct (decide (parent k = i)) as [Hp|Hp].
    + rewrite Hp, list_lookup_insert_eq in Hx by lia. simplify_eq. by apply (Hb k).
    + rewrite list_lookup_insert_ne in Hx by done. by eapply (H1 k).
Qed.

(** The hole moves to the smaller child when that is smaller than the tuple. *)
Lemma hole_down_move l n i j t y :
  hole_down l n i t -> 0 < j -> j < n -> n <= length l -> parent j = i -> l !! j = Some y ->
  (forall k z, 0 < k -> k < n -> parent k = i -> l !! k = Some z -> (cmp y z <= 0)%Z) ->
  (0 < cmp t y)%Z -> hole_down (<[i := y]> l) n j t.
Proof.
  intros [H1 H2 H3] Hj Hjn Hn Hp Hy Hmin Ht. pose proof (parent_lt j Hj). split.
  - intros k x z Hk0 Hk Hkj Hpj Hx Hz. destruct (decide (k = i)) as [->|Hki].
    + pose proof (parent_lt i Hk0). rewrite list_lookup_insert_eq in Hz by lia. rewrite list_lookup_insert_ne in Hx by lia.
      simplify_eq. by apply (H3 j).
    + rewrite (list_lookup_insert_ne _ _ k) in Hz by done. destruct (decide (parent k = i)) as [Hp'|].
      * rewrite Hp', list_lookup_insert_eq in Hx by lia. simplify_eq. by apply (Hmin k).
      * rewrite list_lookup_insert_ne in Hx by done. by eapply (H1 k).
  - intros x _ Hx. rewrite Hp, list_lookup_insert_eq in Hx by lia. simplify_eq. apply (cmp_gt cmp). done.
  - intros k x z _ Hk0 Hk Hpk Hx Hz. rewrite Hp, list_lookup_insert_eq in Hx by lia. simplify_eq.
    pose proof (parent_lt k Hk0). rewrite list_lookup_insert_ne in Hz by lia. apply (H1 k x z); rewrite ?Hpk; try done; lia.
Qed.

(** The child the loop chooses is the smaller one. *)
Lemma smaller_child l n i yj :
  2 * i + 1 < n -> n <= length l -> l !! (2 * i + 1) = Some yj -> (forall k y, k < n -> k <> i -> l !! k = Some y -> dom y) ->
  exists j y, (if decide (2 * i + 1 + 1 < n) then
             yj1 ← idx l (2 * i + 1 + 1);
             c ← ccmp yj yj1;
             Ok (if (0 <? c)%Z then 2 * i + 1 + 1 else 2 * i + 1)
           else Ok (2 * i + 1)) = Ok j /\ l !! j = Some y /\ 0 < j /\ j < n /\ parent j = i /\
    (forall k z, 0 < k -> k < n -> parent k = i -> l !! k = Some z -> (cmp y z <= 0)%Z).
Proof.
  intros Hn Hl Hyj Hdom. case_decide as Hd.
  - destruct (lookup_lt_is_Some_2 l (2 * i + 1 + 1)) as [yj1 Hyj1]; [lia|]. rewrite (idx_ok _ _ _ Hyj1). cbn [mbind res_bind].
    rewrite Hcmp by (eapply Hdom; [| |done]; lia). cbn [mbind res_bind].
    destruct (0 <? cmp yj yj1)%Z eqn:E; [exists (2 * i + 1 + 1), yj1|exists (2 * i + 1), yj];
      (split_and!; [done|done|lia|lia|apply parent_left || apply parent_right|]);
      intros k z Hk0 Hk Hpk Hz; destruct (parent_children i k Hk0 Hpk) as [->| ->];
      replace (2 * i + 2) with (2 * i + 1 + 1) in * by lia; simplify_eq; rewrite ?(cmp_refl cmp); try lia.
    apply (cmp_gt cmp). lia.
  - exists (2 * i + 1), yj. split_and!; [done|done|lia|lia|apply parent_left|].
    intros k z Hk0 Hk Hpk Hz. destruct (parent_children i k Hk0 Hpk) as [->| ->]; [|lia].
    simplify_eq. rewrite (cmp_refl cmp). lia.
Qed.

Lemma siftup_loop_spec fuel : forall l n i t,
  hole_down l n i t -> n <= length l -> i < n -> n - i <= fuel -> dom t -> (forall k y, k < n -> k <> i -> l !! k = Some y -> dom y) ->
  exists l', siftup_loop ccmp fuel l n i t = Ok l' /\ length l' = length l /\ l' ≡ₚ <[i := t]> l /\
    (forall k, n <= k -> l' !! k = l !! k) /\ heap_ok l' n.
Proof.
  induction fuel as [|f IH]; intros l n i t HD Hn Hi Hf Ht Hdom; [lia|].
  assert (Hstop : (forall k y, 0 < k -> k < n -> parent k = i -> l !! k = Some y -> (cmp t y <= 0)%Z) ->
    length (<[i := t]> l) = length l /\ <[i := t]> l ≡ₚ <[i := t]> l /\
    (forall k, n <= k -> <[i := t]> l !! k = l !! k) /\ heap_ok (<[i := t]> l) n).
  { intros. split_and!; [apply length_insert|done|intros; apply list_lookup_insert_ne; lia|apply hole_down_fill; auto with lia]. }
  cbn [siftup_loop]. case_decide as Hd.
  - eexists. split; [reflexivity|]. apply Hstop. intros k y Hk0 Hk Hp.
    destruct (parent_children i k Hk0 Hp); lia.
  - destruct (lookup_lt_is_Some_2 l (2 * i + 1)) as [yj Hyj]; [lia|]. rewrite (idx_ok _ _ _ Hyj). cbn [mbind res_bind].
    destruct (smaller_child l n i yj) as (j & y & He & Hy & Hj0 & Hjn & Hpj & Hmin); [lia|done|done|done|].
    cbn [mbind res_bind] in He. rewrite He. cbn [mbind res_bind]. rewrite (idx_ok _ _ _ Hy). cbn [mbind res_bind].
    pose proof (parent_lt j Hj0) as Hpl. assert (dom y) by (apply (Hdom j); [lia|lia|done]). rewrite Hcmp by done. cbn [mbind res_bind].
    destruct (cmp t y <=? 0)%Z eqn:E.
    + eexists. split; [reflexivity|]. apply Hstop. intros k z Hk0 Hk Hp Hz.
      apply (cmp_trans t y z); [lia|by apply (Hmin k)].
    + destruct (IH (<[i := y]> l) n j t) as (l' & He' & Hl & Hperm & Htail & Hok);
        [by apply hole_down_move; auto with lia|rewrite ?length_insert; lia..|done| |].
      { intros k z Hk Hkj. destruct (decide (k = i)) as [->|]; [rewrite list_lookup_insert_eq by lia; congruence|].
        rewrite list_lookup_insert_ne by done. by apply Hdom. }
      exists l'. rewrite length_insert in Hl. split_and!; try done.
      * rewrite Hperm. apply move_hole_perm; [lia|done|lia].
      * intros k Hk. rewrite Htail by done. apply list_lookup_insert_ne. lia.
Qed.

(** tuplesort_heap_siftup removes the root. *)
Lemma heap_siftup_spec l n root :
  heap_ok l n -> 0 < n -> n <= length l -> l !! 0 = Some root -> Forall dom (take n l) ->
  exists l', heap_siftup ccmp l n = Ok (l', n - 1) /\ length l' = length l /\ heap_ok l' (n - 1) /\
    take n l ≡ₚ root :: take (n - 1) l' /\ (forall k, n - 1 <= k -> l' !! k = l !! k).
Proof.
  intros Hok Hn Hl Hr Hds. unfold heap_siftup.
  assert (Hdom : forall k y, k < n -> l !! k = Some y -> dom y).
  { intros k y Hk Hy. apply (Forall_lookup_1 _ _ k _ Hds). by rewrite lookup_take_lt. } case_decide as Hd.
  - assert (n = 1) as -> by lia. exists l. split_and!; try done; [intros k x y ? ?; lia|].
    destruct l; simplify_eq/=. by rewrite take_0.
  - destruct (lookup_lt_is_Some_2 l (n - 1)) as [t Ht]; [lia|]. rewrite (idx_ok _ _ _ Ht). cbn [mbind res_bind].
    assert (HD : hole_down l (n - 1) 0 t).
    { split; [|lia..]. intros k x y Hk0 Hk _ _. apply Hok; lia. }
    destruct (siftup_loop_spec (S (n - 1)) l (n - 1) 0 t HD) as (l' & He & Hlen & Hp & Htl & Hok'); [lia..|apply (Hdom (n - 1)); [lia|done]|intros k y ? _; apply Hdom; lia|].
    rewrite He. simpl. exists l'. split_and!; try done.
    rewrite (perm_take (<[0 := t]> l) l' (n - 1)); [|rewrite ?length_insert; lia..|done|].
    + assert (take n l = take (n - 1) l ++ [t]) as ->.
      { replace n with (S (n - 1)) at 1 by lia. by apply take_S_r. }
      destruct l as [|r l0]; [done|]. simplify_eq/=. destruct (n - 1) as [|m] eqn:En; [lia|]. simpl.
      by rewrite (Permutation_app_comm _ [t]).
    + intros k Hk. rewrite Htl by done. symmetry. apply list_lookup_insert_ne. lia.
Qed.

(** The root of a heap is a least entry. *)
Lemma heap_root_min l n root k y :
  heap_ok l n -> l !! 0 = Some root -> k < n -> n <= length l -> l !! k = Some y -> (cmp root y <= 0)%Z.
Proof.
  intros Hok Hr Hk Hn. revert y Hk. induction k as [k IH] using lt_wf_ind. intros y Hk Hy.
  destruct (decide (k = 0)) as [->|Hk0]; [simplify_eq; rewrite (cmp_refl cmp); lia|].
  pose proof (parent_lt k ltac:(lia)) as Hp. destruct (lookup_lt_is_Some_2 l (parent k)) as [x Hx]; [lia|].
  apply (cmp_trans root x y); [apply (IH (parent k)); auto with lia|apply (Hok k); auto with lia].
Qed.

Lemma heap_root_least l n root x :
  heap_ok l n -> l !! 0 = Some root -> n <= length l -> x ∈ take n l -> (cmp root x <= 0)%Z.
Proof.
  intros Hok Hr Hn [k Hk]%list_elem_of_lookup. apply lookup_take_Some in Hk as [Hk ?].
  by eapply (heap_root_min l n).
Qed.

Lemma heap_ok_0 l : heap_ok l 0.
Proof. intros k x y ? ?. lia. Qed.
End Heap.
