(* ===== verification/Qsort.v ===== *)
(** * Qsort: qsort_arg (src/port/qsort_arg.c)

    Bentley and McIlroy's quicksort with the check for presorted input.  The array of [n]
    elements at [a] is a list; a recursive call works on a segment of it.  Positions
    are counted in elements.  The variables [d] and [r] of the code are ints that count bytes: [as_int] is the assignment to
    them.  The comparison may raise an error, which ends the sort; an access out of bounds is
    [EUndef] and a lack of fuel [EDiverge], and both are shown not to happen. *)

From S2P Require Import Prelude Order Heap.
From Stdlib Require Import Permutation.

Section QsortCode.
Context {A : Type} (cmp : A -> A -> res Z).

(** swap(a, b), swapfunc *)
Definition swap (l : list A) (i j : nat) : res (list A) :=
  x ← idx l i; y ← idx l j; Ok (<[i := y]> (<[j := x]> l)).

(** vecswap(a, b, n): element by element *)
Fixpoint vecswap (l : list A) (i j n : nat) : res (list A) :=
  match n with
  | O => Ok l
  | S n' => l' ← swap l i j; vecswap l' (S i) (S j) n'
  end.

Definition cmp_at (l : list A) (i j : nat) : res Z := x ← idx l i; y ← idx l j; cmp x y.

Definition med3 (l : list A) (a b c : nat) : res nat :=
  ab ← cmp_at l a b;
  if (ab <? 0)%Z then
    bc ← cmp_at l b c;
    if (bc <? 0)%Z then Ok b else ac ← cmp_at l a c; Ok (if (ac <? 0)%Z then c else a)
  else
    bc ← cmp_at l b c;
    if (0 <? bc)%Z then Ok b else ac ← cmp_at l a c; Ok (if (ac <? 0)%Z then a else c).

(** The insertion sort for n < 7: the inner loop, then the outer one. *)
Fixpoint insertion_inner (l : list A) (pl : nat) : res (list A) :=
  match pl with
  | O => Ok l
  | S pl' =>
    c ← cmp_at l pl' pl;
    if (0 <? c)%Z then l' ← swap l pl pl'; insertion_inner l' pl' else Ok l
  end.
Fixpoint insertion_outer (k : nat) (l : list A) (pm : nat) : res (list A) :=
  match k with
  | O => Ok l
  | S k' => l' ← insertion_inner l pm; insertion_outer k' l' (S pm)
  end.

(** Is the input sorted already?  [k] neighbours are left to look at. *)
Fixpoint presorted_from (k : nat) (l : list A) (pm : nat) : res bool :=
  match k with
  | O => Ok true
  | S k' => c ← cmp_at l (pm - 1) pm; if (0 <? c)%Z then Ok false else presorted_from k' l (S pm)
  end.

(** Does an int hold the size in bytes of [n] elements? *)
Context (int_holds : nat -> bool).

(** An assignment to the int [d] or [r].  A count that does not fit would be cut off, and the positions computed from it would
    be outside the array. *)
Definition as_int (n : nat) : res nat := if int_holds n then Ok n else Err EUndef.

Definition choose_pivot (l : list A) (n : nat) : res nat :=
  let pm := n / 2 in
  if decide (7 < n) then
    let pl := 0 in
    let pn := n - 1 in
    '(pl, pm, pn) ← (if decide (40 < n) then
        d ← as_int (n / 8);
        d2 ← as_int (2 * d);
        pl' ← med3 l pl (pl + d) (pl + d2);
        pm' ← med3 l (pm - d) pm (pm + d);
        pn' ← med3 l (pn - d2) (pn - d) pn;
        Ok (pl', pm', pn')
      else Ok (pl, pm, pn));
    med3 l pl pm pn
  else Ok pm.

(** [while (pb <= pc && (r = cmp(pb, a, arg)) <= 0)] *)
Fixpoint scan_left (fuel : nat) (l : list A) (pa pb pc : nat) : res (list A * nat * nat) :=
  if decide (pb <= pc) then
    match fuel with
    | O => Err EDiverge
    | S f =>
      r ← cmp_at l pb 0;
      if (r <=? 0)%Z then
        if (r =? 0)%Z then l' ← swap l pa pb; scan_left f l' (S pa) (S pb) pc
        else scan_left f l pa (S pb) pc
      else Ok (l, pa, pb)
    end
  else Ok (l, pa, pb).

(** [while (pb <= pc && (r = cmp(pc, a, arg)) >= 0)] *)
Fixpoint scan_right (fuel : nat) (l : list A) (pb pc pd : nat) : res (list A * nat * nat) :=
  if decide (pb <= pc) then
    match fuel with
    | O => Err EDiverge
    | S f =>
      r ← cmp_at l pc 0;
      if (0 <=? r)%Z then
        if (r =? 0)%Z then l' ← swap l pc pd; scan_right f l' pb (pc - 1) (pd - 1)
        else scan_right f l pb (pc - 1) pd
      else Ok (l, pc, pd)
    end
  else Ok (l, pc, pd).

(** The loop [for (;;)] that partitions. *)
Fixpoint partition_loop (fuel : nat) (l : list A) (pa pb pc pd : nat) : res (list A * nat * nat * nat * nat) :=
  match fuel with
  | O => Err EDiverge
  | S f =>
    '(l, pa, pb) ← scan_left fuel l pa pb pc;
    '(l, pc, pd) ← scan_right fuel l pb pc pd;
    if decide (pc < pb) then Ok (l, pa, pb, pc, pd)
    else l ← swap l pb pc; partition_loop f l pa (S pb) (pc - 1) pd
  end.

(** From the choice of the pivot to the second vecswap: the new array, the number of elements
    less than the pivot and that of those greater. *)
Definition partition (l : list A) : res (list A * nat * nat) :=
  let n := length l in
  pm ← choose_pivot l n;
  l ← swap l 0 pm;
  '(l, pa, pb, pc, pd) ← partition_loop n l 1 1 (n - 1) (n - 1);
  r ← as_int (Nat.min pa (pb - pa));
  l ← vecswap l 0 (pb - r) r;
  r ← as_int (Nat.min (pd - pc) (n - pd - 1));
  l ← vecswap l pb (n - r) r;
  Ok (l, pb - pa, pd - pc).

(** qsort_arg; the [goto loop] on the last segment is the second recursive call. *)
Fixpoint qsort_fuel (fuel : nat) (l : list A) : res (list A) :=
  match fuel with
  | O => Err EDiverge
  | S f =>
    let n := length l in
    if decide (n < 7) then insertion_outer (n - 1) l 1
    else
      presorted ← presorted_from (n - 1) l 1;
      if presorted : bool then Ok l
      else
        '(l, nl, ng) ← partition l;
        nl ← as_int nl;
        less ← (if decide (1 < nl) then qsort_fuel f (take nl l) else Ok (take nl l));
        ng ← as_int ng;
        greater ← (if decide (1 < ng) then qsort_fuel f (drop (n - ng) l) else Ok (drop (n - ng) l));
        Ok (less ++ drop nl (take (n - ng) l) ++ greater)
  end.

End QsortCode.

(** qsort_arg(a, n, es, cmp, arg), where [es] is the size of an element in bytes and an int has 32 bits.  Each call works on
    fewer elements than the one before. *)
Definition int_bytes (es : Z) (n : nat) : bool := (Z.of_nat n * es <? 2 ^ 31)%Z.
Definition qsort_arg {A} (es : Z) (cmp : A -> A -> res Z) (l : list A) : res (list A) :=
  qsort_fuel cmp (int_bytes es) (S (length l)) l.

Section Qsort.
Context {A : Type} (cmp : A -> A -> Z).
(** The comparison of the code, which raises no error on the elements in [dom] and then answers as [cmp]. *)
Context (ccmp : A -> A -> res Z) (dom : A -> Prop) (Hcmp : forall x y, dom x -> dom y -> ccmp x y = Ok (cmp x y)).
Implicit Types l : list A.
(** The array is small enough for the ints. *)
Context (int_holds : nat -> bool).
Definition ints_hold l : Prop := forall n, n <= length l -> int_holds n = true.

Lemma as_int_ok l n : ints_hold l -> n <= length l -> as_int int_holds n = Ok n.
Proof. intros Hi Hn. unfold as_int. by rewrite Hi. Qed.

(** ** Lemmas on swaps *)

Lemma swap_ok l i j : i < length l -> j < length l -> exists l', swap l i j = Ok l'.
Proof.
  intros [x Hx]%lookup_lt_is_Some_2 [y Hy]%lookup_lt_is_Some_2. unfold swap. rewrite (idx_ok _ _ _ Hx), (idx_ok _ _ _ Hy). cbn. eauto.
Qed.
Lemma swap_spec l i j l' :
  swap l i j = Ok l' ->
  length l' = length l /\ l' ≡ₚ l /\
  forall k, l' !! k = if decide (k = i) then l !! j else if decide (k = j) then l !! i else l !! k.
Proof.
  unfold swap. intros (x & Hx%idx_inv & (y & Hy%idx_inv & [= <-])%res_bind_inv)%res_bind_inv.
  split_and!; [by rewrite !length_insert|by apply swap_perm|]. intros k.
  pose proof (lookup_lt_Some _ _ _ Hx). pose proof (lookup_lt_Some _ _ _ Hy).
  repeat case_decide; subst.
  - by rewrite list_lookup_insert_eq by (by rewrite length_insert).
  - by rewrite list_lookup_insert_ne, list_lookup_insert_eq.
  - by rewrite !list_lookup_insert_ne.
Qed.

Lemma vecswap_spec n : forall l i j,
  i + n <= j -> j + n <= length l ->
  exists l', vecswap l i j n = Ok l' /\ length l' = length l /\ l' ≡ₚ l /\
  forall k, l' !! k = if decide (i <= k < i + n) then l !! (j + (k - i))
                 else if decide (j <= k < j + n) then l !! (i + (k - j)) else l !! k.
Proof.
  induction n as [|n IH]; intros l i j Hij Hj; simpl.
  - exists l. split_and!; try done. intros k. by rewrite !decide_False by lia.
  - destruct (swap_ok l i j) as [l1 H1]; [lia..|]. rewrite H1. simpl.
    destruct (swap_spec _ _ _ _ H1) as (L1 & P1 & K1).
    destruct (IH l1 (S i) (S j)) as (l2 & H2 & L2 & P2 & K2); [lia..|].
    exists l2. split_and!; [done|congruence|by rewrite P2|]. intros k. rewrite K2, !K1.
    repeat case_decide; try lia; f_equal; lia.
Qed.

Lemma cmp_at_ok l i j x y : Forall dom l -> l !! i = Some x -> l !! j = Some y -> cmp_at ccmp l i j = Ok (cmp x y).
Proof.
  intros Hd Hx Hy. unfold cmp_at. rewrite (idx_ok _ _ _ Hx), (idx_ok _ _ _ Hy). cbn.
  apply Hcmp; by eapply Forall_lookup_1.
Qed.
Lemma cmp_at_lt l i j : Forall dom l -> i < length l -> j < length l -> exists c, cmp_at ccmp l i j = Ok c.
Proof. intros Hd [x Hx]%lookup_lt_is_Some_2 [y Hy]%lookup_lt_is_Some_2. eexists. by apply cmp_at_ok. Qed.

Lemma med3_ok l a b c :
  Forall dom l -> a < length l -> b < length l -> c < length l -> exists m, med3 ccmp l a b c = Ok m /\ m < length l.
Proof.
  intros Hd Ha Hb Hc. unfold med3.
  destruct (cmp_at_lt l a b Hd Ha Hb) as [? ->], (cmp_at_lt l b c Hd Hb Hc) as [? ->], (cmp_at_lt l a c Hd Ha Hc) as [? ->]. cbn.
  repeat case_match; eexists; (split; [reflexivity|done]).
Qed.
Lemma choose_pivot_ok l : ints_hold l -> Forall dom l -> 0 < length l -> exists m, choose_pivot ccmp int_holds l (length l) = Ok m /\ m < length l.
Proof.
  intros Hi Hdm Hn. remember (length l) as n eqn:En. unfold choose_pivot.
  pose proof (Nat.div_mod_eq n 2). pose proof (Nat.mod_upper_bound n 2).
  pose proof (Nat.div_mod_eq n 8). pose proof (Nat.mod_upper_bound n 8).
  case_decide; [|exists (n / 2); split; [done|lia]]. cbv zeta. case_decide; cbn [mbind res_bind].
  - rewrite (as_int_ok l (n / 8)) by (done || lia). cbn [mbind res_bind]. rewrite (as_int_ok l (2 * (n / 8))) by (done || lia). cbn [mbind res_bind].
    destruct (med3_ok l 0 (0 + n / 8) (0 + 2 * (n / 8))) as (? & -> & ?); [done|lia..|].
    destruct (med3_ok l (n / 2 - n / 8) (n / 2) (n / 2 + n / 8)) as (? & -> & ?); [done|lia..|].
    destruct (med3_ok l (n - 1 - 2 * (n / 8)) (n - 1 - n / 8) (n - 1)) as (? & -> & ?); [done|lia..|].
    cbn [mbind res_bind]. subst n. by apply med3_ok.
  - subst n. apply med3_ok; [done|lia..].
Qed.

Context `{!CmpLaws cmp}.

(** ** Insertion sort *)

(** The first [m] elements are in order. *)
Definition sorted_to (l : list A) (m : nat) : Prop :=
  forall i j x y, i < j -> j < m -> l !! i = Some x -> l !! j = Some y -> (cmp x y <= 0)%Z.

Lemma sorted_to_sorted l : sorted_to l (length l) -> sorted cmp l.
Proof.
  intros H. apply (sorted_adjacent cmp). intros i x y Hx Hy.
  apply (H i (S i)); [lia|by eapply lookup_lt_Some|done|done].
Qed.

Lemma insertion_inner_spec m : forall pl l,
  Forall dom l -> pl < m -> m <= length l ->
  (forall i j x y, i < j -> j < m -> i <> pl -> j <> pl -> l !! i = Some x -> l !! j = Some y -> (cmp x y <= 0)%Z) ->
  (forall j x y, pl < j -> j < m -> l !! pl = Some x -> l !! j = Some y -> (cmp x y <= 0)%Z) ->
  exists l', insertion_inner ccmp l pl = Ok l' /\ length l' = length l /\ l' ≡ₚ l /\ sorted_to l' m.
Proof.
  induction pl as [|pl IH]; intros l Hdm Hpl Hm Ho Hb.
  - exists l. split_and!; try done. intros i j x y Hij Hj Hx Hy.
    destruct (decide (i = 0)) as [->|]; [by eapply (Hb j)|by apply (Ho i j); auto with lia].
  - destruct (lookup_lt_is_Some_2 l pl) as [u Hu]; [lia|]. destruct (lookup_lt_is_Some_2 l (S pl)) as [t Ht]; [lia|].
    cbn [insertion_inner]. rewrite (cmp_at_ok _ _ _ _ _ Hdm Hu Ht). cbn [mbind res_bind].
    destruct (0 <? cmp u t)%Z eqn:E.
    + destruct (swap_ok l (S pl) pl) as [l1 H1]; [lia..|]. rewrite H1. cbn [mbind res_bind].
      destruct (swap_spec _ _ _ _ H1) as (L1 & P1 & K1).
      destruct (IH l1) as (l' & He & Hl & Hp & Hs); [by rewrite P1|lia|lia| | |].
      * intros i j x y Hij Hj Hi Hj'. rewrite !K1. repeat case_decide; subst; try lia.
        -- intros Hx Hy. rewrite Hu in Hx. injection Hx as ->. apply (Ho pl j); auto with lia.
        -- intros Hx Hy. rewrite Hu in Hy. injection Hy as ->. apply (Ho i pl); auto with lia.
        -- intros Hx Hy. apply (Ho i j); auto with lia.
      * intros j x y Hij Hj. rewrite !K1. rewrite (decide_False (P := pl = S pl)), (decide_True (P := pl = pl)) by lia.
        intros Hx. rewrite Ht in Hx. injection Hx as ->. repeat case_decide; subst; try lia.
        -- intros Hy. rewrite Hu in Hy. injection Hy as ->. apply (cmp_gt cmp). lia.
        -- intros Hy. apply (Hb j); auto with lia.
      * exists l'. split_and!; [done|congruence|by rewrite Hp|done].
    + exists l. split_and!; try done. intros i j x y Hij Hj Hx Hy.
      destruct (decide (i = S pl)) as [->|]; [by apply (Hb j)|]. destruct (decide (j = S pl)) as [->|]; [|by apply (Ho i j)].
      rewrite Ht in Hy. injection Hy as <-. destruct (decide (i = pl)) as [->|]; [simplify_eq; lia|].
      apply (cmp_trans x u t); [apply (Ho i pl); auto with lia|lia].
Qed.

Lemma insertion_outer_spec k : forall l pm,
  Forall dom l -> pm + k = length l -> sorted_to l pm ->
  exists l', insertion_outer ccmp k l pm = Ok l' /\ l' ≡ₚ l /\ sorted_to l' (length l').
Proof.
  induction k as [|k IH]; intros l pm Hdm Hk Hs; cbn [insertion_outer].
  - exists l. split_and!; try done. by replace (length l) with pm by lia.
  - destruct (insertion_inner_spec (S pm) pm l) as (l1 & He & Hl & Hp & Hs1); [done|lia..| | |].
    + intros i j x y Hij Hj Hi Hj'. apply Hs; lia.
    + lia.
    + rewrite He. cbn [mbind res_bind]. destruct (IH l1 (S pm)) as (l' & He' & Hp' & Hs'); [by rewrite Hp|lia|done|].
      exists l'. split_and!; [done|by rewrite Hp'|done].
Qed.

Lemma presorted_spec k : forall l pm,
  Forall dom l -> 0 < pm -> pm + k = length l ->
  (forall i x y, S i < pm -> l !! i = Some x -> l !! S i = Some y -> (cmp x y <= 0)%Z) ->
  exists b, presorted_from ccmp k l pm = Ok b /\ (b = true -> sorted cmp l).
Proof.
  induction k as [|k IH]; intros l pm Hdm H0 Hk Ho; cbn [presorted_from].
  - exists true. split; [done|]. intros _. apply (sorted_adjacent cmp). intros i x y Hx Hy.
    apply (Ho i); [|done..]. pose proof (lookup_lt_Some _ _ _ Hy). lia.
  - destruct (lookup_lt_is_Some_2 l (pm - 1)) as [u Hu]; [lia|]. destruct (lookup_lt_is_Some_2 l pm) as [t Ht]; [lia|].
    rewrite (cmp_at_ok _ _ _ _ _ Hdm Hu Ht). cbn [mbind res_bind]. destruct (0 <? cmp u t)%Z eqn:E; [by exists false|].
    apply IH; [done|lia..|]. intros i x y Hi Hx Hy. destruct (decide (S i = pm)) as [<-|]; [|apply (Ho i); auto with lia].
    replace (S i - 1) with i in Hu by lia. simplify_eq. lia.
Qed.

(** ** Partitioning *)

(** Three-way partition around the pivot [p] at position 0. *)
Record part_inv (p : A) (l : list A) (pa pb pc pd : nat) : Prop := {
  pi_bounds : 1 <= pa <= pb /\ pb <= pc + 1 /\ pc <= pd < length l;
  pi_pivot : l !! 0 = Some p;
  pi_eq1 : forall k x, k < pa -> l !! k = Some x -> cmp x p = 0%Z;
  pi_lt : forall k x, pa <= k < pb -> l !! k = Some x -> (cmp x p < 0)%Z;
  pi_gt : forall k x, pc < k <= pd -> l !! k = Some x -> (0 < cmp x p)%Z;
  pi_eq2 : forall k x, pd < k -> l !! k = Some x -> cmp x p = 0%Z }.

(** A position of the new array, by the region it was in. *)
Ltac region := match goal with
  | H : _, Hy : ?l !! ?k = Some ?y |- context [cmp ?y _] => apply (H k y); [lia|exact Hy]
  end.

Lemma scan_left_spec p fuel : forall l pa pb pc pd,
  Forall dom l -> part_inv p l pa pb pc pd -> pc + 1 - pb <= fuel ->
  exists l' pa' pb', scan_left ccmp fuel l pa pb pc = Ok (l', pa', pb') /\ length l' = length l /\ l' ≡ₚ l /\
    part_inv p l' pa' pb' pc pd /\ pb <= pb' /\
    (pb' <= pc -> forall x, l' !! pb' = Some x -> (0 < cmp x p)%Z).
Proof.
  induction fuel as [|f IH]; intros l pa pb pc pd Hdm HI Hf; pose proof HI as [(Ha & Hb & Hd) Hp H1 H2 H3 H4];
    cbn [scan_left].
  { rewrite decide_False by lia. exists l, pa, pb. split_and!; try done; lia. }
  case_decide as Hbc; [|exists l, pa, pb; split_and!; try done; lia].
  destruct (lookup_lt_is_Some_2 l pb) as [x Hx]; [lia|]. rewrite (cmp_at_ok _ _ _ _ _ Hdm Hx Hp). cbn [mbind res_bind].
  destruct (cmp x p <=? 0)%Z eqn:E.
  2:{ exists l, pa, pb. split_and!; try done. intros _ y Hy. simplify_eq. lia. }
  destruct (cmp x p =? 0)%Z eqn:E0.
  - destruct (swap_ok l pa pb) as [l1 Hs]; [lia..|]. rewrite Hs. cbn [mbind res_bind].
    destruct (swap_spec _ _ _ _ Hs) as (L1 & P1 & K1).
    destruct (IH l1 (S pa) (S pb) pc pd) as (l' & pa' & pb' & He & Hl & Hpm & HI' & Hle & Hst).
    + by rewrite P1.
    + split; [lia|by rewrite K1, !decide_False by lia|..]; intros k y Hk; rewrite K1;
        repeat case_decide; subst; intros Hy; simplify_eq; try lia; region.
    + lia.
    + exists l', pa', pb'. split_and!; [done|congruence|by rewrite Hpm|done|lia|done].
  - destruct (IH l pa (S pb) pc pd) as (l' & pa' & pb' & He & Hl & Hpm & HI' & Hle & Hst); [done| |lia|].
    + split; try done; [lia|]. intros k y Hk Hy. destruct (decide (k = pb)) as [->|]; [simplify_eq; lia|region].
    + exists l', pa', pb'. split_and!; try done. lia.
Qed.

Lemma scan_right_spec p fuel : forall l pa pb pc pd,
  Forall dom l -> part_inv p l pa pb pc pd -> pc + 1 - pb <= fuel ->
  (pb <= pc -> forall x, l !! pb = Some x -> (0 < cmp x p)%Z) ->
  exists l' pc' pd', scan_right ccmp fuel l pb pc pd = Ok (l', pc', pd') /\ length l' = length l /\ l' ≡ₚ l /\
    part_inv p l' pa pb pc' pd' /\ pc' <= pc /\
    (pb <= pc' -> forall x, l' !! pb = Some x -> (0 < cmp x p)%Z) /\
    (pb <= pc' -> forall x, l' !! pc' = Some x -> (cmp x p < 0)%Z).
Proof.
  induction fuel as [|f IH]; intros l pa pb pc pd Hdm HI Hf Hpb; pose proof HI as [(Ha & Hb & Hd) Hp H1 H2 H3 H4];
    cbn [scan_right].
  { rewrite decide_False by lia. exists l, pc, pd. split_and!; try done; lia. }
  case_decide as Hbc; [|exists l, pc, pd; split_and!; try done; lia].
  destruct (lookup_lt_is_Some_2 l pc) as [x Hx]; [lia|]. rewrite (cmp_at_ok _ _ _ _ _ Hdm Hx Hp). cbn [mbind res_bind].
  destruct (0 <=? cmp x p)%Z eqn:E.
  2:{ exists l, pc, pd. split_and!; try done. intros _ y Hy. simplify_eq. lia. }
  destruct (cmp x p =? 0)%Z eqn:E0.
  - assert (pb <> pc) by (intros ->; specialize (Hpb Hbc _ Hx); lia).
    destruct (swap_ok l pc pd) as [l1 Hs]; [lia..|]. rewrite Hs. cbn [mbind res_bind].
    destruct (swap_spec _ _ _ _ Hs) as (L1 & P1 & K1).
    destruct (IH l1 pa pb (pc - 1) (pd - 1)) as (l' & pc' & pd' & He & Hl & Hpm & HI' & Hle & Hst).
    + by rewrite P1.
    + split; [lia|by rewrite K1, !decide_False by lia|..]; intros k y Hk; rewrite K1;
        repeat case_decide; subst; intros Hy; simplify_eq; try lia; try region.
      assert (pd = pc) as -> by lia. simplify_eq. lia.
    + lia.
    + intros _ y. rewrite K1, !decide_False by lia. by apply Hpb.
    + exists l', pc', pd'. split_and!; [done|congruence|by rewrite Hpm|done|lia|naive_solver..].
  - destruct (IH l pa pb (pc - 1) pd) as (l' & pc' & pd' & He & Hl & Hpm & HI' & Hle & Hst); [done| |lia|auto with lia|].
    + split; try done; [lia|]. intros k y Hk Hy. destruct (decide (k = pc)) as [->|]; [simplify_eq; lia|region].
    + exists l', pc', pd'. split_and!; try done; [lia|naive_solver..].
Qed.

Lemma partition_loop_spec p fuel : forall l pa pb pc pd,
  Forall dom l -> part_inv p l pa pb pc pd -> pc + 1 - pb < fuel ->
  exists l' pa' pb' pc' pd', partition_loop ccmp fuel l pa pb pc pd = Ok (l', pa', pb', pc', pd') /\
    length l' = length l /\ l' ≡ₚ l /\ part_inv p l' pa' pb' pc' pd' /\ pc' < pb'.
Proof.
  induction fuel as [|f IH]; intros l pa pb pc pd Hdm HI Hf; [lia|]. cbn [partition_loop].
  destruct (scan_left_spec p (S f) l pa pb pc pd Hdm HI) as (l1 & pa1 & pb1 & He1 & L1 & P1 & HI1 & Hle1 & St1); [lia|].
  rewrite He1. cbn [mbind res_bind].
  destruct (scan_right_spec p (S f) l1 pa1 pb1 pc pd ltac:(by rewrite P1) HI1) as (l2 & pc2 & pd2 & He2 & L2 & P2 & HI2 & Hle2 & Sb & Sc);
    [lia|done|].
  rewrite He2. cbn [mbind res_bind]. case_decide as Hcb.
  { exists l2, pa1, pb1, pc2, pd2. split_and!; [done|congruence|by rewrite P2, P1|done|done]. }
  pose proof HI2 as [(Ha & Hb & Hd) Hp H1 H2 H3 H4].
  destruct (lookup_lt_is_Some_2 l2 pb1) as [x Hx]; [lia|]. destruct (lookup_lt_is_Some_2 l2 pc2) as [y Hy]; [lia|].
  specialize (Sb ltac:(lia) _ Hx). specialize (Sc ltac:(lia) _ Hy).
  assert (pb1 <> pc2) by (intros ->; simplify_eq; lia).
  destruct (swap_ok l2 pb1 pc2) as [l3 Hs]; [lia..|]. rewrite Hs. cbn [mbind res_bind].
  destruct (swap_spec _ _ _ _ Hs) as (L3 & P3 & K3).
  destruct (IH l3 pa1 (S pb1) (pc2 - 1) pd2) as (l' & pa' & pb' & pc' & pd' & He & Hl & Hpm & HI' & Hlt).
  - by rewrite P3, P2, P1.
  - split; [lia|by rewrite K3, !decide_False by lia|..]; intros k z Hk; rewrite K3;
      repeat case_decide; subst; intros Hz; simplify_eq; try lia; region.
  - lia.
  - exists l', pa', pb', pc', pd'. split_and!; [done|congruence|by rewrite Hpm, P3, P2, P1|done|done].
Qed.

(** The array after both vecswaps: less, equal, greater. *)
Record partitioned (p : A) (l : list A) (nl ng : nat) : Prop := {
  pt_bounds : nl + ng < length l;
  pt_lt : forall k x, k < nl -> l !! k = Some x -> (cmp x p < 0)%Z;
  pt_eq : forall k x, nl <= k < length l - ng -> l !! k = Some x -> cmp x p = 0%Z;
  pt_gt : forall k x, length l - ng <= k -> l !! k = Some x -> (0 < cmp x p)%Z }.

Lemma vecswap_left p l pa pb pc pd :
  part_inv p l pa pb pc pd -> pc < pb ->
  let r := Nat.min pa (pb - pa) in
  exists l', vecswap l 0 (pb - r) r = Ok l' /\ length l' = length l /\ l' ≡ₚ l /\
    (forall k x, k < pb - pa -> l' !! k = Some x -> (cmp x p < 0)%Z) /\
    (forall k x, pb - pa <= k < pb -> l' !! k = Some x -> cmp x p = 0%Z) /\
    (forall k, pb <= k -> l' !! k = l !! k).
Proof.
  intros [(Ha & Hb & Hd) Hp H1 H2 H3 H4] Hlt. cbv zeta.
  destruct (vecswap_spec (Nat.min pa (pb - pa)) l 0 (pb - Nat.min pa (pb - pa))) as (l' & He & Hl & Hpm & K); [lia..|].
  exists l'. split_and!; try done.
  - intros k x Hk. rewrite K. repeat case_decide; intros Hx; try lia; region.
  - intros k x Hk. rewrite K. repeat case_decide; intros Hx; try lia; region.
  - intros k Hk. rewrite K. by rewrite !decide_False by lia.
Qed.

Lemma vecswap_right p l l1 pa pb pc pd :
  part_inv p l pa pb pc pd -> pc < pb -> length l1 = length l -> (forall k, pb <= k -> l1 !! k = l !! k) ->
  let r := Nat.min (pd - pc) (length l - pd - 1) in
  exists l', vecswap l1 pb (length l - r) r = Ok l' /\ length l' = length l /\ l' ≡ₚ l1 /\
    (forall k, k < pb -> l' !! k = l1 !! k) /\
    (forall k x, pb <= k < length l - (pd - pc) -> l' !! k = Some x -> cmp x p = 0%Z) /\
    (forall k x, length l - (pd - pc) <= k -> l' !! k = Some x -> (0 < cmp x p)%Z).
Proof.
  intros [(Ha & Hb & Hd) Hp H1 H2 H3 H4] Hlt Hlen Hsame. cbv zeta.
  destruct (vecswap_spec (Nat.min (pd - pc) (length l - pd - 1)) l1 pb (length l - Nat.min (pd - pc) (length l - pd - 1)))
    as (l' & He & Hl & Hpm & K); [lia..|].
  exists l'. split_and!; try done; [lia|..].
  - intros k Hk. rewrite K. by rewrite !decide_False by lia.
  - intros k x Hk. rewrite K. repeat case_decide; rewrite Hsame by lia; intros Hx; try lia; region.
  - intros k x Hk. rewrite K. repeat case_decide; rewrite Hsame by lia; intros Hx;
      pose proof (lookup_lt_Some _ _ _ Hx); try lia; region.
Qed.

Lemma partition_spec l :
  ints_hold l -> Forall dom l -> 0 < length l ->
  exists p l' nl ng, partition ccmp int_holds l = Ok (l', nl, ng) /\ length l' = length l /\ l' ≡ₚ l /\ partitioned p l' nl ng.
Proof.
  intros Hints Hdm Hn. unfold partition. destruct (choose_pivot_ok l Hints Hdm Hn) as (pm & Hpm & Hpl). rewrite Hpm. cbn [mbind res_bind].
  destruct (swap_ok l 0 pm) as [l1 Hs]; [lia..|]. rewrite Hs. cbn [mbind res_bind].
  destruct (swap_spec _ _ _ _ Hs) as (L1 & P1 & _).
  destruct (lookup_lt_is_Some_2 l1 0) as [p Hp]; [lia|].
  assert (HI : part_inv p l1 1 1 (length l - 1) (length l - 1)).
  { split; [lia|done|..]; intros k x Hk Hx; try lia.
    - assert (k = 0) as -> by lia. simplify_eq. apply (cmp_refl cmp).
    - pose proof (lookup_lt_Some _ _ _ Hx). lia. }
  destruct (partition_loop_spec p (length l) l1 _ _ _ _ ltac:(by rewrite P1) HI) as (l2 & pa & pb & pc & pd & He & L2 & P2 & HI2 & Hlt); [lia|].
  rewrite He. cbn [mbind res_bind]. destruct (pi_bounds _ _ _ _ _ _ HI2) as (Ha & Hb & Hd).
  rewrite (as_int_ok l (Nat.min pa (pb - pa))) by (done || lia). cbn [mbind res_bind].
  destruct (vecswap_left p l2 pa pb pc pd HI2 Hlt) as (l3 & He3 & L3 & P3 & A1 & A2 & A3). rewrite He3. cbn [mbind res_bind].
  destruct (vecswap_right p l2 l3 pa pb pc pd HI2 Hlt L3 A3) as (l4 & He4 & L4 & P4 & B1 & B2 & B3).
  rewrite (as_int_ok l (Nat.min (pd - pc) (length l - pd - 1))) by (done || lia). cbn [mbind res_bind].
  replace (length l) with (length l2) by congruence. rewrite He4. cbn [mbind res_bind].
  exists p, l4, (pb - pa), (pd - pc).
  split_and!; [done|congruence|by rewrite P4, P3, P2, P1|].
  split; rewrite ?L4; [lia|..].
  - intros k x Hk. rewrite B1 by lia. by apply A1.
  - intros k x Hk Hx. destruct (decide (k < pb)); [rewrite B1 in Hx by done; apply (A2 k); auto with lia|].
    apply (B2 k); auto with lia.
  - done.
Qed.

(** ** qsort_arg *)

Lemma partitioned_parts p l nl ng :
  partitioned p l nl ng ->
  (forall x, x ∈ take nl l -> (cmp x p < 0)%Z) /\
  (forall x, x ∈ drop nl (take (length l - ng) l) -> cmp x p = 0%Z) /\
  (forall x, x ∈ drop (length l - ng) l -> (0 < cmp x p)%Z).
Proof.
  intros [Hb H1 H2 H3]. split_and!; intros x [k Hk]%list_elem_of_lookup.
  - apply lookup_take_Some in Hk as [Hk ?]. by apply (H1 k).
  - rewrite lookup_drop in Hk. apply lookup_take_Some in Hk as [Hk ?]. apply (H2 (nl + k)); [lia|done].
  - rewrite lookup_drop in Hk. apply (H3 (length l - ng + k)); [lia|done].
Qed.

Lemma three_parts (l : list A) nl ng :
  nl + ng <= length l -> take nl l ++ drop nl (take (length l - ng) l) ++ drop (length l - ng) l = l.
Proof.
  intros H. rewrite app_assoc. replace (take nl l) with (take nl (take (length l - ng) l)) by (rewrite take_take; f_equal; lia).
  by rewrite !take_drop.
Qed.

Lemma equal_sorted p l : (forall x, x ∈ l -> cmp x p = 0%Z) -> sorted cmp l.
Proof.
  intros H. apply (sorted_adjacent cmp). intros i x y Hx%list_elem_of_lookup_2 Hy%list_elem_of_lookup_2.
  apply (cmp_trans x p y); [rewrite H by done; lia|]. apply (cmp_total cmp). rewrite H by done. lia.
Qed.

Lemma short_sorted l : length l <= 1 -> sorted cmp l.
Proof. destruct l as [|x [|y l]]; simpl; try lia; repeat constructor. Qed.

Lemma join_sorted p less mid greater :
  sorted cmp less -> sorted cmp greater ->
  (forall x, x ∈ less -> (cmp x p < 0)%Z) -> (forall x, x ∈ mid -> cmp x p = 0%Z) ->
  (forall x, x ∈ greater -> (0 < cmp x p)%Z) ->
  sorted cmp (less ++ mid ++ greater).
Proof.
  intros Hl Hg H1 H2 H3.
  apply (sorted_app cmp); [done|apply (sorted_app cmp); [by eapply equal_sorted|done|]|].
  - intros x y Hx Hy. apply (cmp_trans x p y); [rewrite H2 by done; lia|]. apply (cmp_gt cmp). auto.
  - intros x y Hx [Hy|Hy]%elem_of_app; apply (cmp_trans x p y); try (specialize (H1 x Hx); lia).
    + apply (cmp_total cmp). rewrite H2 by done. lia.
    + apply (cmp_gt cmp). auto.
Qed.

Lemma qsort_fuel_spec fuel : forall l,
  ints_hold l -> Forall dom l -> length l < fuel -> exists l', qsort_fuel ccmp int_holds fuel l = Ok l' /\ l' ≡ₚ l /\ sorted cmp l'.
Proof.
  induction fuel as [|f IH]; intros l Hints Hdm Hf; [lia|]. cbn [qsort_fuel]. cbv zeta.
  case_decide as H7.
  { destruct l as [|a l0]; [by exists []; split_and!; [..|constructor]|].
    destruct (insertion_outer_spec (length (a :: l0) - 1) (a :: l0) 1) as (l' & He & Hp & Hs); [done|simpl; lia|intros i j; lia|].
    exists l'. split_and!; try done. by apply sorted_to_sorted. }
  destruct (presorted_spec (length l - 1) l 1) as (b & He & Hb); [done|lia|lia|intros; lia|]. rewrite He. cbn [mbind res_bind].
  destruct b; [exists l; auto|]. clear He Hb.
  destruct (partition_spec l) as (p & l1 & nl & ng & He & L1 & P1 & HP); [done|done|lia|]. rewrite He. cbn [mbind res_bind].
  pose proof (pt_bounds _ _ _ _ HP). destruct (partitioned_parts _ _ _ _ HP) as (Q1 & Q2 & Q3). rewrite L1 in *.
  assert (Hrec : forall seg, Forall dom seg -> length seg < length l ->
    forall c : nat, (c <= 1 -> length seg <= 1) ->
    exists seg', (if decide (1 < c) then qsort_fuel ccmp int_holds f seg else Ok seg) = Ok seg' /\ seg' ≡ₚ seg /\ sorted cmp seg').
  { intros seg Hsd Hs c Hc. case_decide; [apply IH; [intros n Hn; apply Hints; lia|done|lia]|]. exists seg. split_and!; try done. apply short_sorted. lia. }
  assert (Hdm1 : Forall dom l1) by (by rewrite P1).
  destruct (Hrec (take nl l1)) with (c := nl) as (less & He1 & Hp1 & Hs1); [by apply Forall_take|rewrite length_take; lia..|].
  destruct (Hrec (drop (length l - ng) l1)) with (c := ng) as (greater & He2 & Hp2 & Hs2); [by apply Forall_drop|rewrite length_drop; lia..|].
  rewrite (as_int_ok l nl) by (done || lia). cbn [mbind res_bind]. rewrite He1. cbn [mbind res_bind].
  rewrite (as_int_ok l ng) by (done || lia). cbn [mbind res_bind]. rewrite He2. cbn [mbind res_bind].
  eexists. split; [reflexivity|]. split.
  - rewrite Hp1, Hp2. rewrite <- L1. rewrite three_parts by lia. done.
  - apply (join_sorted p); try done.
    + intros x. rewrite Hp1. apply Q1.
    + intros x. rewrite Hp2. apply Q3.
Qed.

End Qsort.

Lemma int_bytes_ok {A} es (l : list A) : (0 <= es)%Z -> (Z.of_nat (length l) * es < 2 ^ 31)%Z -> ints_hold (int_bytes es) l.
Proof. intros He Hl n Hn. unfold int_bytes. apply Z.ltb_lt. nia. Qed.

Lemma qsort_arg_sorts_on {A} (cmp : A -> A -> Z) (ccmp : A -> A -> res Z) (dom : A -> Prop) `{!CmpLaws cmp} es (l : list A) :
  (forall x y, dom x -> dom y -> ccmp x y = Ok (cmp x y)) -> (0 <= es)%Z -> (Z.of_nat (length l) * es < 2 ^ 31)%Z -> Forall dom l ->
  exists l', qsort_arg es ccmp l = Ok l' /\ l' ≡ₚ l /\ sorted cmp l'.
Proof. intros Hc He Hl Hdm. apply (qsort_fuel_spec cmp ccmp dom); [done|done|by apply int_bytes_ok|done|lia]. Qed.

(** ** Properties *)

(** C24: qsort_arg terminates on every array of less than 2 GiB (elements of [es] bytes, counts of bytes being ints), within as
    many levels of recursion as there are elements, stays within the array, and leaves a sorted permutation of it, for any
    comparison that raises no error on the elements of the array and is a total preorder. *)
Theorem qsort_arg_correct {A} (cmp : A -> A -> Z) (ccmp : A -> A -> res Z) (es : Z) (l : list A) :
  CmpLaws cmp -> (forall x y, x ∈ l -> y ∈ l -> ccmp x y = Ok (cmp x y)) ->
  (0 < es)%Z -> (Z.of_nat (length l) * es < 2 ^ 31)%Z ->
  exists l', qsort_arg es ccmp l = Ok l' /\ l' ≡ₚ l /\ sorted cmp l'.
Proof. intros HL Hc He Hl. apply (qsort_arg_sorts_on cmp ccmp (fun x => x ∈ l)); [done|lia|done|]. by apply Forall_forall. Qed.

Lemma qsort_arg_correct_witness :
  exists l', qsort_arg 8 (fun x y => Ok (cmp_int x y)) [5; 3; 9; 1; 8; 3; 7; 2; 6; 4]%Z = Ok l' /\ l' = [1; 2; 3; 3; 4; 5; 6; 7; 8; 9]%Z /\
    sorted cmp_int l'.
Proof.
  destruct (qsort_arg_correct cmp_int (fun x y => Ok (cmp_int x y)) 8 [5; 3; 9; 1; 8; 3; 7; 2; 6; 4]%Z cmp_int_laws (fun _ _ _ _ => eq_refl) ltac:(lia) ltac:(vm_compute; reflexivity)) as (l' & He & _ & Hs).
  exists l'. split; [exact He|]. split; [|exact Hs]. vm_compute in He. injection He as <-. reflexivity.
Defined.
