(* ===== verification/Tape.v ===== *)
(** * Tape: what a logical tape is

    The abstract view of the logical tapes of src/backend/utils/sort/logtape.c: a tape is a sequence of bytes with a
    position.  It is written from the start, rewound and read to the end; a frozen tape can be read again, backwards, and from
    a saved position.  LogTape shows that the blocks and indirect blocks of logtape.c implement it. *)

From S2P Require Import Prelude.

(** A byte, as a number from 0 to 255. *)
Abbreviation byte := Z (only parsing).

(** The size of a block, as configured by default. *)
Definition BLCKSZ : nat := Z.to_nat 8192.

Record tape := mkTape { tp_bytes : list byte; tp_pos : nat; tp_writing : bool; tp_frozen : bool }.

(** The operations, where they are allowed. *)
Definition tape_create : tape := mkTape [] 0 true false.
Definition tape_append (data : list byte) (t : tape) : option tape :=
  if tp_writing t then Some (mkTape (tp_bytes t ++ data) (tp_pos t + length data) true (tp_frozen t)) else None.
Definition tape_next (size : nat) (t : tape) : option (list byte * tape) :=
  if tp_writing t then None
  else let data := take size (drop (tp_pos t) (tp_bytes t)) in Some (data, mkTape (tp_bytes t) (tp_pos t + length data) false (tp_frozen t)).
Definition tape_rewind (forWrite : bool) (t : tape) : option tape :=
  if forWrite then if tp_writing t || tp_frozen t then None else Some (mkTape [] 0 true false)
  else if tp_writing t || tp_frozen t then Some (mkTape (tp_bytes t) 0 false (tp_frozen t)) else None.
Definition tape_freeze (t : tape) : option tape := if tp_writing t then Some (mkTape (tp_bytes t) 0 false true) else None.
Definition tape_back (size : nat) (t : tape) : option (bool * tape) :=
  if tp_frozen t && negb (tp_writing t) then
    if decide (size <= tp_pos t) then Some (true, mkTape (tp_bytes t) (tp_pos t - size) false true) else Some (false, t)
  else None.
Definition tape_seek (p : nat) (t : tape) : option (bool * tape) :=
  if tp_frozen t && negb (tp_writing t) then
    if decide (p <= length (tp_bytes t)) then Some (true, mkTape (tp_bytes t) p false true) else Some (false, t)
  else None.

(** ** Machine integers on tape: an unsigned int is four bytes, the low one first. *)
Definition uint32_bytes (z : Z) : list byte :=
  [z mod 256; (z / 256) mod 256; (z / 65536) mod 256; (z / 16777216) mod 256]%Z.
Definition bytes_uint32 (bs : list byte) : Z :=
  match bs with [a; b; c; d] => (a + 256 * b + 65536 * c + 16777216 * d)%Z | _ => 0%Z end.

Lemma uint32_roundtrip z : (0 <= z < 2 ^ 32)%Z -> bytes_uint32 (uint32_bytes z) = z.
Proof.
  intros Hz. unfold bytes_uint32, uint32_bytes.
  assert (z / 65536 = z / 256 / 256)%Z as E1 by (by rewrite Z.div_div).
  assert (z / 16777216 = z / 256 / 256 / 256)%Z as E2 by (by rewrite !Z.div_div).
  rewrite E1, E2. Z.to_euclidean_division_equations. lia.
Qed.
