(* ===== verification/BufFile.v ===== *)
(** * BufFile: buffered temporary files (src/backend/storage/file/buffile.c)

    A BufFile is one sequence of bytes, stored in physical files of limited size and read and written through a buffer.  A physical
    file (src/backend/storage/file/fd.c, over the system calls) is a class: reading and writing may do less than asked, and may fail.
    [TempFile] is what the users of a BufFile rely on; here it is shown that buffile.c provides it. *)

From S2P Require Import Prelude Tape.

(** ** Physical files *)

Class PhysFile (P : Type) := {
  OpenTemporaryFile : P;
  FileSeek : P -> Z -> Z * P;                     (* SEEK_SET; the new position *)
  FileRead : P -> nat -> Z * list byte * P;       (* the return code and what was read *)
  FileWrite : P -> list byte -> Z * P }.

(** [d] written over [bs] at position [n] *)
Definition overlay {A} (bs : list A) (n : nat) (d : list A) : list A := take n bs ++ d ++ drop (n + length d) bs.

(** [ph_fails] tells whether calls may fail at all, [ph_failed] that one on this file has; of a file after a failed call nothing else
    is known. *)
Class PhysFileLaws (P : Type) `{!PhysFile P} := {
  ph_bytes : P -> list byte;
  ph_pos : P -> nat;
  ph_fails : Prop;
  ph_failed : P -> Prop;
  ph_open : ph_bytes OpenTemporaryFile = [] /\ ph_pos OpenTemporaryFile = 0 /\ ~ ph_failed OpenTemporaryFile;
  ph_seek : forall p off r p', FileSeek p (Z.of_nat off) = (r, p') ->
    (ph_fails /\ ph_failed p' /\ r <> Z.of_nat off) \/
    (r = Z.of_nat off /\ ph_bytes p' = ph_bytes p /\ ph_pos p' = off /\ (ph_failed p' -> ph_failed p));
  ph_read : forall p n r d p', FileRead p n = (r, d, p') -> ph_pos p <= length (ph_bytes p) ->
    (ph_fails /\ ph_failed p' /\ (r < 0)%Z) \/
    (r = Z.of_nat (length d) /\ length d <= n /\ (exists rest, drop (ph_pos p) (ph_bytes p) = d ++ rest) /\ (0 < n -> ph_pos p < length (ph_bytes p) -> d <> []) /\
     ph_bytes p' = ph_bytes p /\ ph_pos p' = ph_pos p + length d /\ (ph_failed p' -> ph_failed p));
  ph_write : forall p d r p', FileWrite p d = (r, p') -> ph_pos p <= length (ph_bytes p) -> d <> [] ->
    (ph_fails /\ ph_failed p' /\ (r <= 0)%Z) \/
    (exists n, r = Z.of_nat n /\ 0 < n <= length d /\ ph_bytes p' = overlay (ph_bytes p) (ph_pos p) (take n d) /\ ph_pos p' = ph_pos p + n /\
      (ph_failed p' -> ph_failed p)) }.

(** ** The file *)

(** numFiles is the length of both arrays; the contents of buffer[] behind nbytes mean nothing. *)
Record BufFile (P : Type) := mkBufFile {
  bf_files : list P;
  bf_offsets : list Z;
  bf_isTemp : bool;
  bf_dirty : bool;
  bf_curFile : Z;
  bf_curOffset : Z;
  bf_pos : nat;
  bf_nbytes : nat;
  bf_buffer : list byte }.
Arguments mkBufFile {P} bf_files bf_offsets bf_isTemp bf_dirty bf_curFile bf_curOffset bf_pos bf_nbytes bf_buffer.
Arguments bf_files {P} b.
Arguments bf_offsets {P} b.
Arguments bf_isTemp {P} b.
Arguments bf_dirty {P} b.
Arguments bf_curFile {P} b.
Arguments bf_curOffset {P} b.
Arguments bf_pos {P} b.
Arguments bf_nbytes {P} b.
Arguments bf_buffer {P} b.

Section code.
Context {P : Type} `{!PhysFile P}.
(** The limit on the size of a physical file, and the size of the buffer (BLCKSZ). *)
Context (MAX_PHYSICAL_FILESIZE : Z) (bufsize : nat).
Local Abbreviation bfile := (BufFile P).
Local Abbreviation BM := (M (BufFile P)).
Implicit Type b : bfile.

Definition numFiles b : Z := Z.of_nat (length (bf_files b)).

Definition set_physical files offsets b : bfile := mkBufFile files offsets (bf_isTemp b) (bf_dirty b) (bf_curFile b) (bf_curOffset b) (bf_pos b) (bf_nbytes b) (bf_buffer b).
Definition set_cur file offset b : bfile := mkBufFile (bf_files b) (bf_offsets b) (bf_isTemp b) (bf_dirty b) file offset (bf_pos b) (bf_nbytes b) (bf_buffer b).
Definition set_window pos nbytes b : bfile := mkBufFile (bf_files b) (bf_offsets b) (bf_isTemp b) (bf_dirty b) (bf_curFile b) (bf_curOffset b) pos nbytes (bf_buffer b).
Definition set_bf_dirty d b : bfile := mkBufFile (bf_files b) (bf_offsets b) (bf_isTemp b) d (bf_curFile b) (bf_curOffset b) (bf_pos b) (bf_nbytes b) (bf_buffer b).
Definition set_bf_buffer buf b : bfile := mkBufFile (bf_files b) (bf_offsets b) (bf_isTemp b) (bf_dirty b) (bf_curFile b) (bf_curOffset b) (bf_pos b) (bf_nbytes b) buf.

Definition makeBufFile (firstfile : P) : bfile := mkBufFile [firstfile] [0%Z] false false 0 0 0 0 (replicate bufsize 0%Z).
Definition BufFileCreateTemp : bfile :=
  let file := makeBufFile OpenTemporaryFile in
  mkBufFile (bf_files file) (bf_offsets file) true (bf_dirty file) (bf_curFile file) (bf_curOffset file) (bf_pos file) (bf_nbytes file) (bf_buffer file).

Definition extendBufFile : BM unit :=
  b ← mget;
  Assert (bf_isTemp b);;
  mput (set_physical (bf_files b ++ [OpenTemporaryFile]) (bf_offsets b ++ [0%Z]) b).
(** while (file->curFile + 1 >= file->numFiles) extendBufFile(file); *)
Fixpoint extend_while (fuel : nat) : BM unit :=
  b ← mget;
  if (bf_curFile b + 1 <? numFiles b)%Z then mret tt
  else match fuel with O => mfail EDiverge | S fuel' => extendBufFile;; extend_while fuel' end.

(** files[curFile] and offsets[curFile] *)
Definition this_file : BM (P * Z) :=
  b ← mget;
  if (bf_curFile b <? 0)%Z then mfail EUndef
  else f ← deref (bf_files b !! Z.to_nat (bf_curFile b)); o ← deref (bf_offsets b !! Z.to_nat (bf_curFile b)); mret (f, o).
Definition put_this (f : P) (o : Z) : BM unit :=
  mmod (fun b => set_physical (<[Z.to_nat (bf_curFile b) := f]> (bf_files b)) (<[Z.to_nat (bf_curFile b) := o]> (bf_offsets b)) b).

(** Repositions the physical file if necessary; false if that failed. *)
Definition reposition : BM bool :=
  '(f, o) ← this_file;
  b ← mget;
  if decide (bf_curOffset b <> o) then
    let '(r, f) := FileSeek f (bf_curOffset b) in
    if decide (r <> bf_curOffset b) then put_this f o;; mret false
    else put_this f (bf_curOffset b);; mret true
  else mret true.

Definition BufFileLoadBuffer : BM unit :=
  b ← mget;
  (if (MAX_PHYSICAL_FILESIZE <=? bf_curOffset b)%Z && (bf_curFile b + 1 <? numFiles b)%Z then mput (set_cur (bf_curFile b + 1) 0 b) else mret tt);;
  ok ← reposition;
  if negb ok then mret tt
  else
    '(f, o) ← this_file;
    b ← mget;
    let '(r, d, f) := FileRead f bufsize in
    let n := if (r <? 0)%Z then 0%Z else r in
    mput (set_bf_buffer (d ++ drop (length d) (bf_buffer b)) (set_window (bf_pos b) (Z.to_nat n) b));;
    put_this f (o + n)%Z.

(** On to the next file, a new one if there is none *)
Definition make_room : BM unit :=
  b ← mget;
  if (MAX_PHYSICAL_FILESIZE <=? bf_curOffset b)%Z && bf_isTemp b then
    extend_while (Z.to_nat (bf_curFile b + 2 - numFiles b));; mmod (fun b => set_cur (bf_curFile b + 1) 0 b)
  else mret tt.
(** One write at the current place; how much was written, [None] if a call failed. *)
Definition write_piece (data : list byte) : BM (option nat) :=
  ok ← reposition;
  if negb ok then mret None
  else
    '(f, o) ← this_file;
    let '(r, f) := FileWrite f data in
    if (r <=? 0)%Z then put_this f o;; mret None
    else put_this f (o + r)%Z;; mmod (fun b => set_cur (bf_curFile b) (bf_curOffset b + r) b);; mret (Some (Z.to_nat r)).
(** The loop of BufFileDumpBuffer from [wpos] on; false if a call failed. *)
Fixpoint dump_loop (fuel wpos : nat) : BM bool :=
  b ← mget;
  if decide (wpos < bf_nbytes b) then
    match fuel with
    | O => mfail EDiverge
    | S fuel' =>
      make_room;;
      b ← mget;
      let bytestowrite := bf_nbytes b - wpos in
      let bytestowrite := if bf_isTemp b then
          (if (MAX_PHYSICAL_FILESIZE - bf_curOffset b <? Z.of_nat bytestowrite)%Z then Z.to_nat (MAX_PHYSICAL_FILESIZE - bf_curOffset b) else bytestowrite)
        else bytestowrite in
      n ← write_piece (take bytestowrite (drop wpos (bf_buffer b)));
      match n with None => mret false | Some n => dump_loop fuel' (wpos + n) end
    end
  else mret true.

Definition BufFileDumpBuffer : BM unit :=
  b ← mget;
  ok ← dump_loop (bf_nbytes b) 0;
  if negb ok then mret tt
  else
    mmod (set_bf_dirty false);;
    mmod (fun b => set_cur (bf_curFile b) (bf_curOffset b - (Z.of_nat (bf_nbytes b) - Z.of_nat (bf_pos b))) b);;
    b ← mget;
    (if (bf_curOffset b <? 0)%Z then
       Assert (0 <=? bf_curFile b - 1)%Z;;
       mput (set_cur (bf_curFile b - 1) (bf_curOffset b + MAX_PHYSICAL_FILESIZE) b)
     else mret tt);;
    mmod (set_window 0 0).

(** true is 0, false is EOF *)
Definition BufFileFlush : BM bool :=
  b ← mget;
  if bf_dirty b then BufFileDumpBuffer;; b ← mget; mret (negb (bf_dirty b)) else mret true.

Fixpoint bufread_loop (fuel size : nat) : BM (list byte) :=
  match size with
  | O => mret []
  | _ =>
    match fuel with
    | O => mfail EDiverge
    | S fuel' =>
      b ← mget;
      (if decide (bf_nbytes b <= bf_pos b) then
         mput (set_window 0 0 (set_cur (bf_curFile b) (bf_curOffset b + Z.of_nat (bf_pos b)) b));;
         BufFileLoadBuffer
       else mret tt);;
      b' ← mget;
      if bool_decide (bf_nbytes b <= bf_pos b) && bool_decide (bf_nbytes b' = 0) then mret []
      else
        let nthistime := Nat.min (bf_nbytes b' - bf_pos b') size in
        Assert (0 <? nthistime);;
        mput (set_window (bf_pos b' + nthistime) (bf_nbytes b') b');;
        rest ← bufread_loop fuel' (size - nthistime);
        mret (take nthistime (drop (bf_pos b') (bf_buffer b')) ++ rest)
    end
  end.
(** What was read; nread is its length. *)
Definition BufFileRead (size : nat) : BM (list byte) :=
  b ← mget;
  if bf_dirty b then
    ok ← BufFileFlush;
    if negb ok then mret []
    else b ← mget; Assert (negb (bf_dirty b));; bufread_loop (S size) size
  else bufread_loop (S size) size.

Fixpoint bufwrite_loop (fuel : nat) (data : list byte) : BM nat :=
  match data with
  | [] => mret 0
  | _ =>
    match fuel with
    | O => mfail EDiverge
    | S fuel' =>
      b ← mget;
      ok ← (if decide (bufsize <= bf_pos b) then
              if bf_dirty b then BufFileDumpBuffer;; b ← mget; mret (negb (bf_dirty b))
              else mput (set_window 0 0 (set_cur (bf_curFile b) (bf_curOffset b + Z.of_nat (bf_pos b)) b));; mret true
            else mret true);
      if negb ok then mret 0
      else
        b ← mget;
        let nthistime := Nat.min (bufsize - bf_pos b) (length data) in
        Assert (0 <? nthistime);;
        let pos := bf_pos b + nthistime in
        mput (set_window pos (Nat.max (bf_nbytes b) pos) (set_bf_dirty true (set_bf_buffer (overlay (bf_buffer b) (bf_pos b) (take nthistime data)) b)));;
        n ← bufwrite_loop fuel' (drop nthistime data);
        mret (nthistime + n)
    end
  end.
(** The number of bytes written *)
Definition BufFileWrite (data : list byte) : BM nat := bufwrite_loop (length data) data.

Inductive whence := SEEK_SET | SEEK_CUR.
(** while (newOffset < 0): None is EOF *)
Fixpoint seek_back (fuel : nat) (newFile newOffset : Z) : res (option (Z * Z)) :=
  if (newOffset <? 0)%Z then
    match fuel with
    | O => Err EDiverge
    | S fuel' => if (newFile - 1 <? 0)%Z then Ok None else seek_back fuel' (newFile - 1) (newOffset + MAX_PHYSICAL_FILESIZE)
    end
  else Ok (Some (newFile, newOffset)).
(** while (newOffset > MAX_PHYSICAL_FILESIZE) *)
Fixpoint seek_forward (fuel : nat) (nfiles newFile newOffset : Z) : res (option (Z * Z)) :=
  if (MAX_PHYSICAL_FILESIZE <? newOffset)%Z then
    match fuel with
    | O => Err EDiverge
    | S fuel' => if (nfiles <=? newFile + 1)%Z then Ok None else seek_forward fuel' nfiles (newFile + 1) (newOffset - MAX_PHYSICAL_FILESIZE)
    end
  else Ok (Some (newFile, newOffset)).

(** The rest of BufFileSeek, when the buffer has to be given up *)
Definition seek_far (newFile newOffset : Z) : BM bool :=
  ok ← BufFileFlush;
  if negb ok then mret false
  else
    b ← mget;
    let '(newFile, newOffset) := if bf_isTemp b && (newFile =? numFiles b)%Z && (newOffset =? 0)%Z then ((newFile - 1)%Z, MAX_PHYSICAL_FILESIZE) else (newFile, newOffset) in
    match (if bf_isTemp b then seek_forward (S (Z.to_nat (numFiles b - newFile))) (numFiles b) newFile newOffset else Ok (Some (newFile, newOffset))) with
    | Err e => mfail e
    | Ok None => mret false
    | Ok (Some (newFile, newOffset)) =>
      if (numFiles b <=? newFile)%Z then mret false
      else mput (set_window 0 0 (set_cur newFile newOffset b));; mret true
    end.
Definition BufFileSeek (fileno offset : Z) (w : whence) : BM bool :=
  b ← mget;
  let start := match w with
    | SEEK_SET => if (fileno <? 0)%Z then None else Some (fileno, offset)
    | SEEK_CUR => Some (bf_curFile b, (bf_curOffset b + Z.of_nat (bf_pos b) + offset)%Z)
    end in
  match start with
  | None => mret false
  | Some (newFile, newOffset) =>
    match seek_back (S (Z.to_nat newFile)) newFile newOffset with
    | Err e => mfail e
    | Ok None => mret false
    | Ok (Some (newFile, newOffset)) =>
      if (newFile =? bf_curFile b)%Z && (bf_curOffset b <=? newOffset)%Z && (newOffset <=? bf_curOffset b + Z.of_nat (bf_nbytes b))%Z
      then mput (set_window (Z.to_nat (newOffset - bf_curOffset b)) (bf_nbytes b) b);; mret true
      else seek_far newFile newOffset
    end
  end.

Definition BufFileTell b : Z * Z := (bf_curFile b, (bf_curOffset b + Z.of_nat (bf_pos b))%Z).

Definition BUFFILE_SEG_SIZE : Z := (MAX_PHYSICAL_FILESIZE / Z.of_nat bufsize)%Z.
Definition BufFileSeekBlock (blknum : Z) : BM bool :=
  BufFileSeek (Z.quot blknum BUFFILE_SEG_SIZE) (Z.rem blknum BUFFILE_SEG_SIZE * Z.of_nat bufsize)%Z SEEK_SET.

(** What is given to FileClose *)
Definition BufFileClose : BM (list P) := BufFileFlush;; b ← mget; mret (bf_files b).

(** How the tapes read and write blocks (src/backend/utils/sort/logtape.c) *)
Definition ltsWriteBlock_bytes (blocknum : Z) (buf : list byte) : BM unit :=
  ok ← BufFileSeekBlock blocknum;
  if negb ok then mfail (EElog "could not write block of temporary file")
  else n ← BufFileWrite buf; if decide (n = bufsize) then mret tt else mfail (EElog "could not write block of temporary file").
Definition ltsReadBlock_bytes (blocknum : Z) : BM (list byte) :=
  ok ← BufFileSeekBlock blocknum;
  if negb ok then mfail (EElog "could not read block of temporary file")
  else d ← BufFileRead bufsize; if decide (length d = bufsize) then mret d else mfail (EElog "could not read block of temporary file").
End code.
(** The limit of the code. *)
Definition MAX_PHYSICAL_FILESIZE : Z := 0x40000000.
(** The sizes of the code are such as the theorems want them. *)
Lemma code_sizes : 0 < BLCKSZ /\ (Z.of_nat BLCKSZ <= MAX_PHYSICAL_FILESIZE)%Z /\ (MAX_PHYSICAL_FILESIZE mod Z.of_nat BLCKSZ = 0)%Z.
Proof. unfold BLCKSZ, MAX_PHYSICAL_FILESIZE. rewrite Z2Nat.id by lia. split; [lia|]. split; [lia|reflexivity]. Qed.

(** ** Writing over a sequence *)

Lemma overlay_lookup {A} (l : list A) n d i : n <= length l ->
  overlay l n d !! i = if decide (n <= i < n + length d) then d !! (i - n) else l !! i.
Proof.
  intros Hn. unfold overlay. destruct (decide (i < n)) as [Hi|Hi].
  { rewrite lookup_app_l, lookup_take_lt, decide_False by (rewrite ?length_take; lia). done. }
  rewrite lookup_app_r, length_take_le by (rewrite ?length_take; lia). destruct (decide (i < n + length d)) as [Hj|Hj].
  - rewrite lookup_app_l, decide_True by lia. done.
  - rewrite lookup_app_r, lookup_drop, decide_False by lia. f_equal. lia.
Qed.
Lemma overlay_length {A} (l : list A) n d : n <= length l -> length (overlay l n d) = Nat.max (length l) (n + length d).
Proof. intros Hn. unfold overlay. rewrite !length_app, length_take, length_drop. lia. Qed.
Lemma overlay_nil {A} (l : list A) n : overlay l n [] = l.
Proof. unfold overlay. cbn. rewrite Nat.add_0_r. apply take_drop. Qed.

(** Two sequences of positions given by [overlay] agree. *)
Ltac overlay_ext :=
  apply list_eq; let i := fresh "i" in intros i; repeat (rewrite overlay_lookup by (rewrite ?overlay_length, ?length_app, ?length_take; lia));
  rewrite ?overlay_length, ?length_app in * by lia; repeat case_decide; try lia.

Lemma overlay_overlay {A} (l : list A) n x m d : n <= length l -> m <= length x ->
  overlay (overlay l n x) (n + m) d = overlay l n (overlay x m d).
Proof.
  intros Hn Hm. overlay_ext; first [done|f_equal; lia].
Qed.
Lemma overlay_end {A} (l d : list A) : overlay l (length l) d = l ++ d.
Proof. unfold overlay. rewrite firstn_all, drop_ge, app_nil_r by lia. done. Qed.
Lemma overlay_app {A} (l : list A) n x d : n <= length l -> overlay (overlay l n x) (n + length x) d = overlay l n (x ++ d).
Proof. intros Hn. rewrite overlay_overlay, overlay_end by lia. done. Qed.
Lemma overlay_drop {A} (l : list A) n x m : n <= length l -> m <= length x ->
  drop (n + m) (overlay l n x) = drop m x ++ drop (n + length x) l.
Proof.
  intros Hn Hm. unfold overlay. rewrite drop_app_ge by (rewrite length_take; lia). rewrite length_take_le by lia.
  replace (n + m - n) with m by lia. apply drop_app_le. lia.
Qed.
Lemma overlay_same {A} (l x r : list A) n : n <= length l -> drop n l = x ++ r -> overlay l n x = l.
Proof.
  intros Hn Hx. unfold overlay. rewrite <- drop_drop, Hx, drop_app_length, <- Hx. apply take_drop.
Qed.
Lemma overlay_in {A} (pre s post : list A) o d : o + length d <= length s \/ (o <= length s /\ post = []) ->
  overlay (pre ++ s ++ post) (length pre + o) d = pre ++ overlay s o d ++ post.
Proof.
  intros Ho. unfold overlay. rewrite take_app_add, take_app_le by lia. rewrite <- !app_assoc. do 3 f_equal.
  rewrite <- Nat.add_assoc, drop_app_add. destruct Ho as [Ho|[Ho ->]]; [apply drop_app_le; lia|rewrite !app_nil_r; done].
Qed.

(** ** Segments *)

Section segments.
Context (seg : nat).
Implicit Type ss : list (list byte).

(** All segments but the last are full. *)
Definition segs_ok ss : Prop := forall i s, ss !! i = Some s -> length s <= seg /\ (S i < length ss -> length s = seg).

Lemma segs_tail s ss : segs_ok (s :: ss) -> segs_ok ss.
Proof. intros H i t Ht. destruct (H (S i) t Ht) as [H1 H2]. split; [done|]. intros. apply H2. cbn. lia. Qed.
Lemma segs_before ss i : segs_ok ss -> i < length ss -> length (concat (take i ss)) = i * seg.
Proof.
  revert i. induction ss as [|s ss IH]; intros i H Hi; [cbn in Hi; lia|]. destruct i; [done|]. cbn in *.
  rewrite length_app, IH by (first [exact (segs_tail _ _ H)|lia]). destruct (H 0 s eq_refl) as [_ H2]. rewrite H2 by (cbn; lia). lia.
Qed.
Lemma segs_split ss i s : segs_ok ss -> ss !! i = Some s ->
  exists pre, length pre = i * seg /\ concat ss = pre ++ s ++ concat (drop (S i) ss) /\ forall t, concat (<[i := t]> ss) = pre ++ t ++ concat (drop (S i) ss).
Proof.
  intros H Hi. exists (concat (take i ss)). pose proof (lookup_lt_Some _ _ _ Hi) as Hl. rewrite segs_before by done. split; [done|].
  assert (Hc : forall t, concat (<[i := t]> ss) = concat (take i ss) ++ t ++ concat (drop (S i) ss)).
  { intros t. rewrite insert_take_drop, concat_app by done. done. }
  split; [|done]. rewrite <- Hc, list_insert_id by done. done.
Qed.
Lemma segs_last ss i : segs_ok ss -> i < length ss -> i * seg <= length (concat ss).
Proof. intros H Hi. rewrite <- (segs_before ss i H Hi). rewrite <- (take_drop i ss) at 2. rewrite concat_app, length_app. lia. Qed.
Lemma segs_length ss : segs_ok ss -> length (concat ss) <= length ss * seg.
Proof.
  induction ss as [|s ss IH]; intros H; [done|]. cbn. rewrite length_app. specialize (IH (segs_tail _ _ H)). destruct (H 0 s eq_refl). lia.
Qed.
(** A position of the whole is a position of the segment it names. *)
Lemma segs_inside ss i s o : segs_ok ss -> ss !! i = Some s -> o <= seg -> i * seg + o <= length (concat ss) -> o <= length s.
Proof.
  intros H Hi Ho Hle. destruct (segs_split _ _ _ H Hi) as (pre & Hp & Hc & _). pose proof (lookup_lt_Some _ _ _ Hi).
  destruct (decide (S i < length ss)) as [Hn|Hn]; [destruct (H i s Hi) as [_ H2]; rewrite H2; lia|].
  rewrite (drop_ge ss) in Hc by lia. rewrite Hc, !length_app in Hle. cbn in Hle. lia.
Qed.
Lemma segs_overlay ss i s o d : segs_ok ss -> ss !! i = Some s -> o <= length s -> o + length d <= seg ->
  concat (<[i := overlay s o d]> ss) = overlay (concat ss) (i * seg + o) d /\ segs_ok (<[i := overlay s o d]> ss).
Proof.
  intros H Hi Ho Hd. destruct (segs_split _ _ _ H Hi) as (pre & Hp & Hc & Hn). pose proof (lookup_lt_Some _ _ _ Hi) as Hlt.
  destruct (H i s Hi) as [Hs Hf]. split.
  - rewrite Hn, Hc, <- Hp, overlay_in; [done|]. destruct (decide (S i < length ss)); [left; rewrite Hf; lia|right]. rewrite drop_ge by lia. done.
  - intros j t Hj. rewrite length_insert. destruct (decide (i = j)) as [<-|Hne].
    + rewrite list_lookup_insert_eq in Hj by done. injection Hj as <-. rewrite overlay_length by done. split; [lia|]. intros Hl. rewrite (Hf Hl). lia.
    + rewrite list_lookup_insert_ne in Hj by done. exact (H j t Hj).
Qed.
Lemma segs_extend ss : segs_ok ss -> (forall s, ss !! (length ss - 1) = Some s -> length s = seg) -> segs_ok (ss ++ [[]]).
Proof.
  intros H Hl i s Hi. rewrite length_app. apply lookup_app_Some in Hi as [Hi|[Hge Hi]].
  - destruct (H i s Hi) as [H1 H2]. split; [done|]. intros _. pose proof (lookup_lt_Some _ _ _ Hi). destruct (decide (S i < length ss)); [auto|].
    apply Hl. replace (length ss - 1) with i by lia. done.
  - apply list_lookup_singleton_Some in Hi as [Hi <-]. cbn. split; lia.
Qed.
Lemma segs_drop ss i s o : segs_ok ss -> ss !! i = Some s -> o <= length s -> drop (i * seg + o) (concat ss) = drop o s ++ concat (drop (S i) ss).
Proof.
  intros H Hi Ho. destruct (segs_split _ _ _ H Hi) as (pre & Hp & Hc & _). rewrite Hc, <- Hp, drop_app_add, drop_app_le by done. done.
Qed.
End segments.

(** ** The file is one sequence of bytes *)

Section correct.
Context {P : Type} `{!PhysFile P} `{!PhysFileLaws P} (MAX : Z) (bufsize : nat).
Context (Hbuf : 0 < bufsize) (Hmax : (Z.of_nat bufsize <= MAX)%Z).
Implicit Type b : BufFile P.
Local Abbreviation seg := (Z.to_nat MAX).

Definition segs b : list (list byte) := ph_bytes <$> bf_files b.
Definition flat b : list byte := concat (segs b).
(** Where the buffer begins *)
Definition base b : nat := Z.to_nat (bf_curFile b) * seg + Z.to_nat (bf_curOffset b).

Record phys_ok b : Prop := {
  po_temp : bf_isTemp b = true;
  po_offsets : bf_offsets b = (fun f => Z.of_nat (ph_pos f)) <$> bf_files b;
  po_segs : segs_ok seg (segs b);
  po_works : Forall (fun f => ~ ph_failed f) (bf_files b) }.
(** A call on one of the physical files has failed. *)
Definition any_failed b : Prop := Exists ph_failed (bf_files b).
Record placed b : Prop := {
  pl_file : (0 <= bf_curFile b < numFiles b)%Z;
  pl_offset : (0 <= bf_curOffset b <= MAX)%Z;
  pl_base : base b <= length (flat b) }.

(** Only the files' own state differs. *)
Definition only_physical b b' : Prop := exists fs os, b' = set_physical fs os b.
Definition same_bytes b b' : Prop := only_physical b b' /\ segs b' = segs b /\ phys_ok b'.

Lemma this_file_ok b : phys_ok b -> placed b ->
  exists f, bf_files b !! Z.to_nat (bf_curFile b) = Some f /\ segs b !! Z.to_nat (bf_curFile b) = Some (ph_bytes f) /\
    this_file b = Ok ((f, Z.of_nat (ph_pos f)), b) /\ Z.to_nat (bf_curOffset b) <= length (ph_bytes f).
Proof.
  intros Hp [Hf Ho Hb]. unfold numFiles in Hf. destruct (lookup_lt_is_Some_2 (bf_files b) (Z.to_nat (bf_curFile b)) ltac:(lia)) as [f Hl]. exists f.
  assert (Hs : segs b !! Z.to_nat (bf_curFile b) = Some (ph_bytes f)) by (unfold segs; rewrite list_lookup_fmap, Hl; done).
  repeat split; [done|done| |].
  - unfold this_file. rewrite mget_ok. destruct (Z.ltb_spec (bf_curFile b) 0); [lia|]. rewrite Hl, (po_offsets b Hp), list_lookup_fmap, Hl. done.
  - apply (segs_inside seg (segs b) _ _ _ (po_segs b Hp) Hs); [lia|exact Hb].
Qed.

Definition with_file (f : P) b : BufFile P :=
  set_physical (<[Z.to_nat (bf_curFile b) := f]> (bf_files b)) (<[Z.to_nat (bf_curFile b) := Z.of_nat (ph_pos f)]> (bf_offsets b)) b.
Lemma with_file_segs f b : segs (with_file f b) = <[Z.to_nat (bf_curFile b) := ph_bytes f]> (segs b).
Proof. unfold segs, with_file. cbn. apply list_fmap_insert. Qed.
Lemma works_not_failed b : phys_ok b -> ~ any_failed b.
Proof. intros Hp H. apply Exists_exists in H as (f & Hin & Hf). pose proof (po_works b Hp) as Hw. rewrite Forall_forall in Hw. by apply (Hw f). Qed.
Lemma with_file_failed f o b f0 : bf_files b !! Z.to_nat (bf_curFile b) = Some f0 -> ph_failed f ->
  any_failed (set_physical (<[Z.to_nat (bf_curFile b) := f]> (bf_files b)) o b).
Proof. intros Hl Hf. apply Exists_exists. exists f. split; [|done]. apply list_elem_of_insert. by eapply lookup_lt_Some. Qed.
Lemma with_file_ok f f0 b : phys_ok b -> segs_ok seg (segs (with_file f b)) -> bf_files b !! Z.to_nat (bf_curFile b) = Some f0 -> (ph_failed f -> ph_failed f0) ->
  phys_ok (with_file f b).
Proof.
  intros [H1 H2 H3 H4] Hs Hl Hf. split; [done| |done|]; cbn; [by rewrite H2, list_fmap_insert|]. apply Forall_insert; [done|].
  intros Hx. exact (Forall_lookup_1 _ _ _ _ H4 Hl (Hf Hx)).
Qed.
Lemma with_file_same f f0 b : phys_ok b -> bf_files b !! Z.to_nat (bf_curFile b) = Some f0 -> ph_bytes f = ph_bytes f0 -> (ph_failed f -> ph_failed f0) -> same_bytes b (with_file f b).
Proof.
  intros Hp Hl He Hff. assert (Hs : segs (with_file f b) = segs b).
  { rewrite with_file_segs, He. apply list_insert_id. unfold segs. rewrite list_lookup_fmap, Hl. done. }
  split; [do 2 eexists; reflexivity|split; [done|]]. apply (with_file_ok f f0); [done| |done|done]. rewrite Hs. apply Hp.
Qed.
Lemma same_bytes_place b b' : same_bytes b b' -> placed b -> placed b'.
Proof.
  intros [(fs & os & ->) [Hs _]] [Hf Ho Hb]. assert (Hl : length fs = length (bf_files b)).
  { apply (f_equal length) in Hs. unfold segs in Hs. cbn in Hs. rewrite !length_fmap in Hs. done. }
  unfold numFiles in *. split; cbn in *; unfold numFiles in *; cbn; [rewrite Hl; done|done|]. unfold base, flat in *. cbn. rewrite Hs. done.
Qed.

Lemma reposition_ok b : phys_ok b -> placed b ->
  (ph_fails /\ exists b', reposition b = Ok (false, b') /\ only_physical b b' /\ any_failed b') \/
  exists b' f, reposition b = Ok (true, b') /\ same_bytes b b' /\ bf_files b' !! Z.to_nat (bf_curFile b) = Some f /\ ph_pos f = Z.to_nat (bf_curOffset b).
Proof.
  intros Hp Hpl. destruct (this_file_ok b Hp Hpl) as (f & Hl & _ & Ht & _). destruct Hpl as [_ Ho _].
  unfold reposition. rewrite (mbind_ok _ _ _ _ _ Ht), mget_ok. destruct (decide _) as [Hne|He].
  - destruct (FileSeek f (bf_curOffset b)) as [r f'] eqn:Es. pose proof (Z2Nat.id (bf_curOffset b) ltac:(lia)) as Hid. rewrite <- Hid in Es.
    apply ph_seek in Es as [(Hfl & Hfd & Hr)|(Hr & Hby & Hpos & Hfd)]; rewrite Hid in Hr.
    + left. split; [done|]. destruct (decide (r <> bf_curOffset b)); [|done]. eexists. split; [reflexivity|]. split; [do 2 eexists; reflexivity|by eapply with_file_failed].
    + right. destruct (decide (r <> bf_curOffset b)); [done|]. exists (with_file f' b), f'. unfold with_file at 1. rewrite Hpos, Hid.
      split; [reflexivity|]. split; [eapply with_file_same; done|]. split; [|done]. cbn. apply list_lookup_insert_eq. eapply lookup_lt_Some. done.
  - right. apply dec_stable in He. exists b, f. split; [done|]. split; [|split; [done|lia]].
    split; [exists (bf_files b), (bf_offsets b); destruct b; done|done].
Qed.

Lemma segs_here b s : phys_ok b -> placed b -> segs b !! Z.to_nat (bf_curFile b) = Some s ->
  drop (base b) (flat b) = drop (Z.to_nat (bf_curOffset b)) s ++ concat (drop (S (Z.to_nat (bf_curFile b))) (segs b)).
Proof.
  intros Hp [_ Ho Hb] Hs. apply segs_drop; [apply Hp|done|]. apply (segs_inside seg (segs b) _ _ _ (po_segs b Hp) Hs); [lia|exact Hb].
Qed.

(** On to the next file *)
Definition advanced b : BufFile P := if (MAX <=? bf_curOffset b)%Z && (bf_curFile b + 1 <? numFiles b)%Z then set_cur (bf_curFile b + 1) 0 b else b.
Lemma advanced_ok b : phys_ok b -> placed b ->
  phys_ok (advanced b) /\ placed (advanced b) /\ base (advanced b) = base b /\ segs (advanced b) = segs b /\
  ((bf_curOffset (advanced b) < MAX)%Z \/ (bf_curFile (advanced b) + 1 = numFiles (advanced b))%Z).
Proof.
  intros Hp Hpl. pose proof Hpl as [Hf Ho Hb]. unfold advanced. destruct (Z.leb_spec MAX (bf_curOffset b)) as [Hm|Hm]; cbn [andb];
    [|split_and!; [done..|lia]]. destruct (Z.ltb_spec (bf_curFile b + 1) (numFiles b)) as [Hn|Hn]; [|split_and!; [done..|lia]].
  assert (Hbase : base (set_cur (bf_curFile b + 1) 0 b) = base b).
  { unfold base. cbn. rewrite (Z2Nat.inj_add _ 1) by lia. replace (bf_curOffset b) with MAX by lia. change (Z.to_nat 1) with 1. lia. }
  split_and!; [destruct Hp; split; done| |done|done|left; cbn; lia].
  split; cbn; [change (numFiles (set_cur (bf_curFile b + 1) 0 b)) with (numFiles b); lia|lia|]. rewrite Hbase. done.
Qed.

(** What the buffer holds *)
Definition window b : list byte := take (bf_nbytes b) (bf_buffer b).

(** Everything but the place, the window and the files' own state is kept. *)
Record loaded b b' : Prop := {
  ld_phys : phys_ok b';
  ld_placed : placed b';
  ld_flat : flat b' = flat b;
  ld_base : base b' = base b;
  ld_pos : bf_pos b' = bf_pos b;
  ld_dirty : bf_dirty b' = bf_dirty b;
  ld_size : length (bf_buffer b') = bufsize;
  ld_nbytes : bf_nbytes b' <= bufsize;
  ld_inside : (bf_curOffset b' + Z.of_nat (bf_nbytes b') <= MAX)%Z;
  ld_window : exists rest, drop (base b) (flat b) = window b' ++ rest;
  ld_eof : bf_nbytes b' = 0 -> base b = length (flat b) }.

Lemma segs_eof b s : phys_ok b -> placed b -> ((bf_curOffset b < MAX)%Z \/ (bf_curFile b + 1 = numFiles b)%Z) ->
  segs b !! Z.to_nat (bf_curFile b) = Some s -> length s <= Z.to_nat (bf_curOffset b) -> base b = length (flat b).
Proof.
  intros Hp Hpl Hadv Hs Hl. pose proof (segs_here b s Hp Hpl Hs) as Hd. destruct Hpl as [Hf Ho Hb].
  destruct (po_segs b Hp _ _ Hs) as [_ Hfull]. assert (Hlen : length (segs b) = length (bf_files b)) by apply length_fmap. unfold numFiles in *.
  rewrite (drop_ge s), (drop_ge (segs b)) in Hd by (destruct (decide (S (Z.to_nat (bf_curFile b)) < length (segs b))); [specialize (Hfull ltac:(done))|]; lia).
  apply (f_equal length) in Hd. rewrite length_drop in Hd. cbn in Hd. lia.
Qed.

Lemma LoadBuffer_eq b : BufFileLoadBuffer MAX bufsize b =
  (ok ← reposition;
   if negb ok then mret tt
   else
     '(f, o) ← this_file;
     b ← mget;
     let '(r, d, f) := FileRead f bufsize in
     let n := if (r <? 0)%Z then 0%Z else r in
     mput (set_bf_buffer (d ++ drop (length d) (bf_buffer b)) (set_window (bf_pos b) (Z.to_nat n) b));;
     put_this f (o + n)%Z) (advanced b).
Proof. unfold BufFileLoadBuffer, advanced. rewrite mget_ok. destruct (_ && _); rewrite ?mput_ok, ?mret_ok; reflexivity. Qed.

Lemma loaded_from b b1 b' : segs b1 = segs b -> base b1 = base b -> bf_pos b1 = bf_pos b -> bf_dirty b1 = bf_dirty b -> loaded b1 b' -> loaded b b'.
Proof. unfold flat. intros Hs Hb Hp Hd [? ? H3 H4 H5 H6 ? ? ? H10 H11]. unfold flat in *. rewrite Hs, Hb in *. split; unfold flat; try done; congruence. Qed.

Lemma BufFileLoadBuffer_ok b : phys_ok b -> placed b -> bf_nbytes b = 0 -> length (bf_buffer b) = bufsize ->
  (ph_fails /\ exists b', BufFileLoadBuffer MAX bufsize b = Ok (tt, b') /\ bf_nbytes b' = 0 /\ any_failed b') \/
  exists b', BufFileLoadBuffer MAX bufsize b = Ok (tt, b') /\ loaded b b'.
Proof.
  intros Hp0 Hpl0 Hn0 Hsz. rewrite LoadBuffer_eq. destruct (advanced_ok b Hp0 Hpl0) as (Hp1 & Hpl1 & Hbase & Hsegs & Hadv).
  assert (Heq : bf_pos (advanced b) = bf_pos b /\ bf_dirty (advanced b) = bf_dirty b /\ bf_buffer (advanced b) = bf_buffer b /\ bf_nbytes (advanced b) = bf_nbytes b)
    by (unfold advanced; destruct (_ && _); done).
  destruct Heq as (Epos & Edirty & Ebuf & Enb). set (b1 := advanced b) in *. clearbody b1.
  destruct (reposition_ok b1 Hp1 Hpl1) as [(Hfl & b2 & Hr & (fs & os & ->) & Hfd)|(b2 & f & Hr & Hsame & Hl & Hpos)]; rewrite (mbind_ok _ _ _ _ _ Hr).
  { left. split; [done|]. eexists. split; [reflexivity|]. split; [cbn; congruence|done]. }
  pose proof (same_bytes_place _ _ Hsame Hpl1) as Hpl2. destruct Hsame as [(fs & os & ->) [Hseg2 Hp2]].
  destruct (this_file_ok _ Hp2 Hpl2) as (f' & Hl' & Hs & Ht & Ho). cbn in Hl, Hl', Ho, Hs. rewrite Hl in Hl'. injection Hl' as <-.
  cbn [negb]. rewrite (mbind_ok _ _ _ _ _ Ht), mget_ok.
  destruct (FileRead f bufsize) as [[r d] f2] eqn:Er. apply ph_read in Er as [(Hfl & Hfd & Hneg)|(-> & Hd & [rest Hrest] & Hmore & Hby & Hps & Hfd)]; [..|lia].
  { left. split; [done|]. destruct (Z.ltb_spec r 0); [|lia]. rewrite mput_ok. eexists. split; [reflexivity|]. split; [reflexivity|]. apply Exists_exists. exists f2. split; [|done].
    cbn. apply list_elem_of_insert. by eapply lookup_lt_Some. }
  right. destruct (Z.ltb_spec (Z.of_nat (length d)) 0); [lia|]. rewrite mput_ok, Nat2Z.id.
  set (b3 := set_bf_buffer _ _). exists (with_file f2 b3). split.
  { unfold put_this, mmod, with_file. rewrite Hps, Nat2Z.inj_add. reflexivity. }
  assert (Hp3 : phys_ok b3) by (destruct Hp2; split; done).
  destruct (with_file_same f2 f b3 Hp3 Hl Hby Hfd) as [_ [Hsegs3 Hp4]]. change (segs b3) with (segs (set_physical fs os b1)) in Hsegs3. rewrite Hseg2 in Hsegs3.
  pose proof (segs_here b1 (ph_bytes f) Hp1 Hpl1 ltac:(rewrite <- Hseg2; done)) as Hd1. rewrite <- Hpos, Hrest in Hd1.
  assert (Hwin : take (length d) (d ++ drop (length d) (bf_buffer b1)) = d) by (apply take_app_length).
  assert (Hdl : length d <= length (ph_bytes f) - Z.to_nat (bf_curOffset b1)).
  { apply (f_equal length) in Hrest. rewrite length_drop, length_app in Hrest. lia. }
  assert (Hsl : length (ph_bytes f) <= seg) by (eapply (po_segs _ Hp2); exact Hs).
  destruct Hpl1 as [Hf1 Ho1 Hb1]. assert (Hpl3 : placed b3) by (destruct Hpl2; split; done).
  apply (loaded_from b b1); [done..|].
  split; [done|eapply same_bytes_place; [eapply (with_file_same f2 f); done|done]|unfold flat; rewrite Hsegs3; done|done|done|done| |cbn; lia|cbn; lia| |].
  - cbn. rewrite length_app, length_drop, Ebuf. lia.
  - exists (rest ++ concat (drop (S (Z.to_nat (bf_curFile b1))) (segs b1))). fold (flat b1). rewrite Hd1. cbn. rewrite Hwin, app_assoc. done.
  - cbn. intros Hz. apply (segs_eof b1 (ph_bytes f)); [done|split; done|done|rewrite <- Hseg2; done|].
    destruct (decide (length (ph_bytes f) <= Z.to_nat (bf_curOffset b1))) as [?|Hgt]; [done|]. destruct (nil_length_inv d Hz). destruct Hmore; [done|lia|done].
Qed.

Definition same_buffer b b' : Prop := bf_dirty b' = bf_dirty b /\ bf_pos b' = bf_pos b /\ bf_nbytes b' = bf_nbytes b /\ bf_buffer b' = bf_buffer b.
Lemma only_physical_buffer b b' : only_physical b b' -> same_buffer b b'.
Proof. intros (fs & os & ->). done. Qed.

Lemma extend_ok b : phys_ok b -> placed b -> (MAX <= bf_curOffset b)%Z ->
  exists b', extend_while (Z.to_nat (bf_curFile b + 2 - numFiles b)) b = Ok (tt, b') /\ phys_ok b' /\ placed b' /\ base b' = base b /\ flat b' = flat b /\
    bf_curFile b' = bf_curFile b /\ bf_curOffset b' = bf_curOffset b /\ (bf_curFile b' + 1 < numFiles b')%Z /\ same_buffer b b'.
Proof.
  intros Hp Hpl Hm. pose proof Hpl as [Hf Ho Hb]. destruct (Z.ltb_spec (bf_curFile b + 1) (numFiles b)) as [Hlt|Hge].
  { exists b. split; [|done]. destruct (Z.to_nat _); cbn [extend_while]; rewrite mget_ok; destruct (Z.ltb_spec (bf_curFile b + 1) (numFiles b)); done || lia. }
  replace (bf_curFile b + 2 - numFiles b)%Z with 1%Z by lia. change (Z.to_nat 1) with 1. cbn [extend_while]. rewrite mget_ok.
  destruct (Z.ltb_spec (bf_curFile b + 1) (numFiles b)); [lia|].
  set (b' := set_physical (bf_files b ++ [OpenTemporaryFile]) (bf_offsets b ++ [0%Z]) b). exists b'.
  assert (He : extendBufFile b = Ok (tt, b')) by (unfold extendBufFile; rewrite mget_ok, Assert_ok by apply Hp; done).
  destruct ph_open as (Hob & Hop & Hnf). assert (Hs : segs b' = segs b ++ [[]]) by (unfold segs, b'; cbn; rewrite fmap_app; cbn; rewrite Hob; done).
  assert (Hn : numFiles b' = (numFiles b + 1)%Z) by (unfold numFiles, b'; cbn; rewrite length_app; cbn; lia).
  assert (Hfl : flat b' = flat b) by (unfold flat; rewrite Hs, concat_app; apply app_nil_r).
  rewrite (mbind_ok _ _ _ _ _ He), mget_ok. cbn [bf_curFile b' set_physical]. fold b'. rewrite Hn. destruct (Z.ltb_spec (bf_curFile b + 1) (numFiles b + 1)); [|lia].
  split; [done|]. split_and!; [split| |done|done|done|done|cbn; fold b'; lia|done].
  - apply Hp.
  - cbn. rewrite fmap_app, (po_offsets b Hp). cbn. rewrite Hop. done.
  - rewrite Hs. apply segs_extend; [apply Hp|]. intros s Hsl. destruct (po_segs b Hp _ _ Hsl) as [Hle _]. apply Nat.le_antisymm; [done|].
    unfold numFiles in *. assert (Hlen : length (segs b) = length (bf_files b)) by apply length_fmap.
    replace (length (segs b) - 1) with (Z.to_nat (bf_curFile b)) in Hsl by lia.
    pose proof (segs_inside seg _ _ _ (Z.to_nat (bf_curOffset b)) (po_segs b Hp) Hsl ltac:(lia) Hb). lia.
  - cbn. apply Forall_app. split; [apply Hp|by repeat constructor].
  - split; [rewrite Hn; cbn; lia|done|rewrite Hfl; done].
Qed.

Lemma make_room_ok b : phys_ok b -> placed b ->
  exists b', make_room MAX b = Ok (tt, b') /\ phys_ok b' /\ placed b' /\ base b' = base b /\ flat b' = flat b /\ (bf_curOffset b' < MAX)%Z /\ same_buffer b b'.
Proof.
  intros Hp Hpl. unfold make_room. rewrite mget_ok, (po_temp b Hp), andb_true_r. destruct (Z.leb_spec MAX (bf_curOffset b)) as [Hm|Hm].
  2:{ exists b. done. }
  destruct (extend_ok b Hp Hpl Hm) as (b' & He & Hp' & [Hf Ho Hb] & Hbase & Hfl & Hcf & Hco & Hlt & Hsb). rewrite (mbind_ok _ _ _ _ _ He).
  eexists. split; [reflexivity|]. assert (Heq : base (set_cur (bf_curFile b' + 1) 0 b') = base b').
  { unfold base. cbn. rewrite (Z2Nat.inj_add _ 1) by lia. replace (bf_curOffset b') with MAX by lia. change (Z.to_nat 1) with 1. lia. }
  split_and!; [destruct Hp'; split; done| |congruence|done|cbn; lia|done].
  split; cbn; [change (numFiles (set_cur (bf_curFile b' + 1) 0 b')) with (numFiles b'); lia|lia|]. rewrite Heq. done.
Qed.

Lemma phys_write_ok b f f' x : phys_ok b -> placed b -> bf_files b !! Z.to_nat (bf_curFile b) = Some f -> ph_bytes f' = overlay (ph_bytes f) (Z.to_nat (bf_curOffset b)) x ->
  (bf_curOffset b + Z.of_nat (length x) <= MAX)%Z -> (ph_failed f' -> ph_failed f) ->
  let b' := set_cur (bf_curFile b) (bf_curOffset b + Z.of_nat (length x)) (with_file f' b) in
  phys_ok b' /\ placed b' /\ flat b' = overlay (flat b) (base b) x /\ base b' = base b + length x.
Proof.
  intros Hp Hpl Hl Hby Hx Hff b'. destruct (this_file_ok b Hp Hpl) as (f0 & Hl' & Hs & _ & Hle). rewrite Hl in Hl'. injection Hl' as <-.
  destruct Hpl as [Hf Ho Hb]. destruct (segs_overlay seg (segs b) _ _ (Z.to_nat (bf_curOffset b)) x (po_segs b Hp) Hs Hle ltac:(lia)) as [Hc Hok].
  rewrite <- Hby in Hc, Hok. assert (Hs' : segs b' = <[Z.to_nat (bf_curFile b) := ph_bytes f']> (segs b)) by apply with_file_segs.
  assert (Hfl : flat b' = overlay (flat b) (base b) x) by (unfold flat; rewrite Hs'; exact Hc).
  assert (Hbase : base b' = base b + length x) by (unfold base, b'; cbn; lia).
  split_and!; [|split|done|done].
  - destruct (with_file_ok f' f b Hp) as [? ? ? ?]; [rewrite with_file_segs; done|done|done|]. split; done.
  - unfold b', numFiles in *. cbn. rewrite length_insert. done.
  - cbn. lia.
  - rewrite Hfl, Hbase, overlay_length by done. lia.
Qed.

Lemma write_piece_ok b data : phys_ok b -> placed b -> data <> [] -> (bf_curOffset b + Z.of_nat (length data) <= MAX)%Z ->
  (ph_fails /\ exists b', write_piece data b = Ok (None, b') /\ same_buffer b b' /\ any_failed b') \/
  exists n b', write_piece data b = Ok (Some n, b') /\ 0 < n <= length data /\ phys_ok b' /\ placed b' /\
    flat b' = overlay (flat b) (base b) (take n data) /\ base b' = base b + n /\ same_buffer b b'.
Proof.
  intros Hp Hpl Hne Hfit. unfold write_piece.
  destruct (reposition_ok b Hp Hpl) as [(Hfl & b2 & Hr & Hph & Hfd)|(b2 & f & Hr & Hsame & Hl & Hpos)]; rewrite (mbind_ok _ _ _ _ _ Hr).
  { left. split; [done|]. eexists. split; [reflexivity|]. split; [apply only_physical_buffer; done|done]. }
  pose proof (same_bytes_place _ _ Hsame Hpl) as Hpl2. destruct Hsame as [(fs & os & ->) [Hseg2 Hp2]].
  assert (Hfl2 : flat (set_physical fs os b) = flat b) by (unfold flat; congruence).
  change (base b) with (base (set_physical fs os b)). rewrite <- Hfl2. clear Hfl2.
  set (b2 := set_physical fs os b) in *. assert (Hsb : same_buffer b b2) by done.
  destruct (this_file_ok _ Hp2 Hpl2) as (f' & Hl' & Hs & Ht & Ho). change (bf_curFile b) with (bf_curFile b2) in Hl. rewrite Hl in Hl'. injection Hl' as <-.
  cbn [negb]. rewrite (mbind_ok _ _ _ _ _ Ht).
  destruct (FileWrite f data) as [r f2] eqn:Ew. apply ph_write in Ew as [(Hfl & Hfd & Hneg)|(n & -> & Hn & Hbytes & Hps & Hfd)]; [| |rewrite Hpos; exact Ho|done].
  { left. split; [done|]. destruct (Z.leb_spec r 0); [|lia]. eexists. split; [reflexivity|]. split; [done|by eapply with_file_failed]. }
  right. destruct (Z.leb_spec (Z.of_nat n) 0); [lia|]. assert (Hxl : length (take n data) = n) by (rewrite length_take; lia).
  destruct (phys_write_ok b2 f f2 (take n data) Hp2 Hpl2 Hl) as (Hp3 & Hpl3 & Hfl3 & Hbase3); [rewrite Hbytes, Hpos; done|cbn; lia|done|].
  rewrite Hxl in *. exists n. eexists. split; [|split_and!; done || lia].
  assert (Hput : put_this f2 (Z.of_nat (ph_pos f) + Z.of_nat n)%Z b2 = Ok (tt, with_file f2 b2)) by (unfold put_this, mmod, with_file; rewrite Hps, Nat2Z.inj_add; done).
  rewrite (mbind_ok _ _ _ _ _ Hput), mmod_ok, Nat2Z.id. reflexivity.
Qed.

Lemma window_drop b wpos n : wpos + n <= bf_nbytes b -> take n (drop wpos (bf_buffer b)) = take n (drop wpos (window b)).
Proof. intros Hn. unfold window. rewrite !take_drop_commute, take_take. do 2 f_equal. lia. Qed.
Lemma window_length b : bf_nbytes b <= length (bf_buffer b) -> length (window b) = bf_nbytes b.
Proof. apply length_take_le. Qed.
Lemma same_buffer_window b b' : same_buffer b b' -> window b' = window b.
Proof. intros (_ & _ & H1 & H2). unfold window. congruence. Qed.
Lemma same_buffer_trans b b' b'' : same_buffer b b' -> same_buffer b' b'' -> same_buffer b b''.
Proof. intros (? & ? & ? & ?) (? & ? & ? & ?). split_and!; congruence. Qed.

Lemma dump_loop_ok fuel : forall wpos b, phys_ok b -> placed b -> wpos <= bf_nbytes b -> bf_nbytes b - wpos <= fuel -> bf_nbytes b <= length (bf_buffer b) ->
  (ph_fails /\ exists b', dump_loop MAX fuel wpos b = Ok (false, b') /\ same_buffer b b' /\ any_failed b') \/
  exists b', dump_loop MAX fuel wpos b = Ok (true, b') /\ phys_ok b' /\ placed b' /\ flat b' = overlay (flat b) (base b) (drop wpos (window b)) /\
    base b' = base b + (bf_nbytes b - wpos) /\ same_buffer b b'.
Proof.
  induction fuel as [|fuel IH]; intros wpos b Hp Hpl Hw Hfu Hlen; cbn [dump_loop]; rewrite mget_ok; destruct (decide (wpos < bf_nbytes b)) as [Hlt|Hge]; [lia| | |].
  1,3: right; exists b; rewrite drop_ge, overlay_nil by (rewrite window_length; lia); split_and!; done || lia.
  destruct (make_room_ok b Hp Hpl) as (b1 & Hm & Hp1 & Hpl1 & Hbase1 & Hfl1 & Hroom & Hsb1). rewrite (mbind_ok _ _ _ _ _ Hm), mget_ok, (po_temp b1 Hp1).
  pose proof (same_buffer_window _ _ Hsb1) as Hwin1. pose proof Hsb1 as (_ & _ & Hnb1 & Hbuf1). rewrite <- Hbase1, <- Hfl1, <- Hwin1, <- Hnb1.
  rewrite <- Hbuf1, <- Hnb1 in *. set (bytes := if (_ <? _)%Z then _ else _).
  assert (Hby : 0 < bytes /\ wpos + bytes <= bf_nbytes b1 /\ (bf_curOffset b1 + Z.of_nat bytes <= MAX)%Z).
  { subst bytes. destruct (Z.ltb_spec (MAX - bf_curOffset b1) (Z.of_nat (bf_nbytes b1 - wpos))); destruct Hpl1; lia. } clearbody bytes.
  set (data := take bytes (drop wpos (bf_buffer b1))). assert (Hdl : length data = bytes) by (unfold data; rewrite length_take, length_drop; lia).
  destruct (write_piece_ok b1 data Hp1 Hpl1) as [(Hfl & b2 & Hr & Hsb2 & Hfd)|(n & b2 & Hr & Hn & Hp2 & Hpl2 & Hfl2 & Hbase2 & Hsb2)];
    [intros Hnil; rewrite Hnil in Hdl; cbn in Hdl; lia|lia| |]; rewrite (mbind_ok _ _ _ _ _ Hr).
  { left. split; [done|]. eexists. split; [reflexivity|]. split; [eapply same_buffer_trans; done|done]. }
  pose proof Hsb2 as (_ & _ & Hnb2 & Hbuf2). pose proof (same_buffer_window _ _ Hsb2) as Hwin2.
  destruct (IH (wpos + n) b2 Hp2 Hpl2) as [(Hfl & b3 & Hr3 & Hsb3 & Hfd)|(b3 & Hr3 & Hp3 & Hpl3 & Hfl3 & Hbase3 & Hsb3)]; [lia|lia|congruence| |].
  { left. split; [done|]. eexists. split; [exact Hr3|]. split; [eauto using same_buffer_trans|done]. }
  right. exists b3. split; [exact Hr3|]. split_and!; [done|done| |lia|eauto using same_buffer_trans].
  rewrite Hfl3, Hbase2, Hfl2, Hwin2. replace n with (length (take n data)) at 2 by (rewrite length_take; lia).
  rewrite overlay_app by apply Hpl1. f_equal. unfold data. rewrite take_take, Nat.min_l, window_drop by lia.
  rewrite <- drop_drop. apply take_drop.
Qed.

(** ** The abstraction: the bytes [F] and the position [p] *)

Record rep b (F : list byte) (p : nat) : Prop := {
  rp_phys : phys_ok b;
  rp_placed : placed b;
  rp_size : length (bf_buffer b) = bufsize;
  rp_nbytes : bf_nbytes b <= bufsize;
  rp_pos : bf_pos b <= bf_nbytes b;
  rp_bytes : F = overlay (flat b) (base b) (window b);
  rp_at : p = base b + bf_pos b;
  rp_clean : bf_dirty b = false -> F = flat b /\ (bf_curOffset b + Z.of_nat (bf_nbytes b) <= MAX)%Z }.

Lemma rep_le b F p : rep b F p -> p <= length F.
Proof.
  intros [H1 [_ _ Hb] H3 H4 H5 -> -> _]. rewrite overlay_length, window_length by lia. lia.
Qed.

(** Nothing in the buffer *)
Lemma rep_empty b F p : phys_ok b -> placed b -> length (bf_buffer b) = bufsize -> bf_nbytes b = 0 -> bf_pos b = 0 -> flat b = F -> base b = p -> rep b F p.
Proof.
  intros Hp Hpl Hs Hn H0 HF Hb. pose proof Hpl as [_ Ho _]. split; try done; try lia.
  - unfold window. rewrite Hn, take_0, overlay_nil. done.
  - intros _. split; [done|lia].
Qed.

Lemma place_back b k : phys_ok b -> placed b -> k <= base b -> k <= bufsize ->
  let b1 := set_cur (bf_curFile b) (bf_curOffset b - Z.of_nat k) b in
  let b' := if (bf_curOffset b1 <? 0)%Z then set_cur (bf_curFile b1 - 1) (bf_curOffset b1 + MAX) b1 else b1 in
  ((bf_curOffset b1 < 0)%Z -> (0 <=? bf_curFile b1 - 1)%Z = true) /\ placed b' /\ base b' = base b - k.
Proof.
  intros Hp [Hf Ho Hb] Hk Hks b1 b'. subst b1 b'. cbn. destruct (Z.ltb_spec (bf_curOffset b - Z.of_nat k) 0) as [Hlt|Hge].
  2:{ split; [lia|]. assert (He : base (set_cur (bf_curFile b) (bf_curOffset b - Z.of_nat k) b) = base b - k) by (unfold base in *; cbn; lia).
      split; [|exact He]. split; [exact Hf|cbn; lia|]. rewrite He. change (base b - k <= length (flat b)). lia. }
  assert (H0 : (0 < bf_curFile b)%Z). { destruct (decide (bf_curFile b = 0%Z)) as [He|]; [|lia]. unfold base in Hk. rewrite He in Hk. cbn in Hk. lia. }
  split; [intros _; apply Z.leb_le; lia|]. set (b' := set_cur _ _ (set_cur _ _ _)).
  assert (He : base b' = base b - k).
  { unfold base, b'. cbn [bf_curFile bf_curOffset set_cur]. replace (Z.to_nat (bf_curFile b)) with (S (Z.to_nat (bf_curFile b - 1))) by lia. rewrite Nat.mul_succ_l. generalize (Z.to_nat (bf_curFile b - 1) * seg). intros. lia. }
  split; [|exact He]. split; [change (numFiles b') with (numFiles b); cbn; lia|cbn; lia|]. rewrite He. change (flat b') with (flat b). lia.
Qed.

Lemma BufFileDumpBuffer_ok b F p : rep b F p ->
  (ph_fails /\ exists b', BufFileDumpBuffer MAX b = Ok (tt, b') /\ bf_dirty b' = bf_dirty b /\ any_failed b') \/
  exists b', BufFileDumpBuffer MAX b = Ok (tt, b') /\ rep b' F p /\ bf_dirty b' = false /\ bf_nbytes b' = 0.
Proof.
  intros [Hp Hpl Hs Hn Hpos HF Hat _]. unfold BufFileDumpBuffer. rewrite mget_ok.
  destruct (dump_loop_ok (bf_nbytes b) 0 b Hp Hpl) as [(Hfl & b' & Hr & Hsb & Hfd)|(b1 & Hr & Hp1 & Hpl1 & Hfl1 & Hbase1 & Hsb)]; [lia..| |]; rewrite (mbind_ok _ _ _ _ _ Hr).
  { left. split; [done|]. eexists. split; [reflexivity|]. split; [apply Hsb|done]. }
  right. cbn [negb]. rewrite !mmod_ok, mget_ok. destruct Hsb as (_ & Epos & Enb & Ebuf). rewrite drop_0, <- HF in Hfl1.
  set (k := bf_nbytes b - bf_pos b). assert (Hk : (Z.of_nat (bf_nbytes b1) - Z.of_nat (bf_pos b1) = Z.of_nat k)%Z) by lia.
  destruct (place_back b1 k Hp1 Hpl1) as (Hass & Hpl2 & Hbase2); [lia..|]. cbn in Hass, Hpl2, Hbase2. cbn. rewrite Hk.
  assert (Hgo : forall b', placed b' -> base b' = base b1 - k -> b' = set_cur (bf_curFile b') (bf_curOffset b') b1 -> rep (set_window 0 0 (set_bf_dirty false b')) F p).
  { intros b' Hpl' Hb' He. apply rep_empty; [| |rewrite He; cbn; congruence|done|done|rewrite He; done|].
    - rewrite He. destruct Hp1; split; done.
    - destruct Hpl'; split; done.
    - change (base (set_window _ _ _)) with (base b'). lia. }
  destruct (Z.ltb_spec (bf_curOffset b1 - Z.of_nat k) 0) as [Hlt|Hge].
  - rewrite mbind_assoc, Assert_ok, mput_ok by (apply Hass; done). eexists. split; [reflexivity|]. split; [|done]. exact (Hgo _ Hpl2 Hbase2 eq_refl).
  - rewrite mret_ok. eexists. split; [reflexivity|]. split; [|done]. exact (Hgo _ Hpl2 Hbase2 eq_refl).
Qed.

Lemma BufFileFlush_ok b F p : rep b F p ->
  (ph_fails /\ exists b', BufFileFlush MAX b = Ok (false, b') /\ any_failed b') \/
  exists b', BufFileFlush MAX b = Ok (true, b') /\ rep b' F p /\ bf_dirty b' = false.
Proof.
  intros Hr. unfold BufFileFlush. rewrite mget_ok. destruct (bf_dirty b) eqn:Ed; [|right; exists b; done].
  destruct (BufFileDumpBuffer_ok b F p Hr) as [(Hfl & b' & He & Hd & Hfd)|(b' & He & Hr' & Hd & _)]; rewrite (mbind_ok _ _ _ _ _ He), mget_ok; [left|right].
  - split; [done|]. exists b'. rewrite Hd, Ed. done.
  - exists b'. rewrite Hd. done.
Qed.

Lemma rep_data b F p : rep b F p -> drop p F = drop (bf_pos b) (window b) ++ drop (base b + bf_nbytes b) (flat b).
Proof.
  intros [_ [_ _ Hb] Hs Hn Hpos -> -> _]. rewrite overlay_drop, window_length; [done|lia|done|]. rewrite window_length; lia.
Qed.
Lemma read_piece b F p n : rep b F p -> n <= bf_nbytes b - bf_pos b ->
  take n (drop (bf_pos b) (bf_buffer b)) = take n (drop p F) /\ rep (set_window (bf_pos b + n) (bf_nbytes b) b) F (p + n).
Proof.
  intros Hr Hn. rewrite (rep_data b F p Hr). destruct Hr as [Hp Hpl Hs Hnb Hpos HF Hat Hc]. split.
  - rewrite window_drop, take_app_le by (rewrite ?length_drop, ?window_length; lia). done.
  - split; [destruct Hp; split; done|destruct Hpl; split; done|done|done|cbn; lia|done| |done]. subst p. change (base (set_window _ _ b)) with (base b). cbn. lia.
Qed.

(** An exhausted clean buffer is given up. *)
Definition next_window b : BufFile P := set_window 0 0 (set_cur (bf_curFile b) (bf_curOffset b + Z.of_nat (bf_pos b)) b).
Lemma next_window_rep b F p : rep b F p -> bf_dirty b = false -> rep (next_window b) F p.
Proof.
  intros [Hp [Hf Ho Hb] Hs Hnb Hpos HF Hat Hc] Hd. destruct (Hc Hd) as [HFf Hin]. assert (He : base (next_window b) = p) by (subst p; unfold base; cbn; lia).
  apply rep_empty; [destruct Hp; split; done| |done..].
  split; [exact Hf|cbn; lia|]. rewrite He. change (flat (next_window b)) with (flat b). rewrite <- HFf, HF, overlay_length, window_length; lia.
Qed.
Lemma loaded_rep b b' F p : rep b F p -> bf_dirty b = false -> bf_pos b = 0 -> loaded b b' -> rep b' F p /\ bf_dirty b' = false.
Proof.
  intros Hr Hd H0 [H1 H2 H3 H4 H5 H6 H7 H8 H9 [rest H10] _]. destruct Hr as [Hp [_ _ Hb] Hs Hnb Hpos HF Hat Hc]. destruct (Hc Hd) as [HFf _]. split; [|congruence].
  split; [done|done|done|done|lia| |lia|]; rewrite ?H3, ?H4; [|intros _; done]. rewrite (overlay_same _ _ rest) by done. done.
Qed.

(** The outcome of reading [size] bytes *)
Definition read_outcome (size : nat) (F : list byte) (p : nat) (r : res (list byte * BufFile P)) : Prop :=
  (ph_fails /\ exists d b' rest, r = Ok (d, b') /\ length d < size /\ drop p F = d ++ rest /\ any_failed b') \/
  exists b', r = Ok (take size (drop p F), b') /\ rep b' F (p + length (take size (drop p F))) /\ bf_dirty b' = false.

Lemma bufread_loop_ok fuel : forall size b F p, rep b F p -> bf_dirty b = false -> size <= fuel -> read_outcome size F p (bufread_loop MAX bufsize fuel size b).
Proof.
  induction fuel as [|fuel IH]; intros size b F p Hr Hd Hfu.
  { right. exists b. replace size with 0 by lia. rewrite Nat.add_0_r. done. }
  destruct size as [|sz]; [right; exists b; rewrite Nat.add_0_r; done|]. cbn [bufread_loop]. rewrite mget_ok. set (size := S sz) in *.
  assert (Hgo : forall b' n, rep b' F p -> bf_dirty b' = false -> bf_pos b' < bf_nbytes b' -> n = Nat.min (bf_nbytes b' - bf_pos b') size ->
    read_outcome size F p ((Assert (0 <? n);; mput (set_window (bf_pos b' + n) (bf_nbytes b') b');;
        r ← bufread_loop MAX bufsize fuel (size - n); mret (take n (drop (bf_pos b') (bf_buffer b')) ++ r)) b')).
  { intros b' n Hr' Hd' Hlt Hn. destruct (read_piece b' F p n Hr') as [Hdat Hr2]; [lia|]. rewrite Assert_ok, mput_ok by (apply Nat.ltb_lt; lia).
    assert (Hln : length (take n (drop p F)) = n). { rewrite <- Hdat, length_take, length_drop. destruct Hr'. lia. }
    assert (Hsum : take n (drop p F) ++ take (size - n) (drop (p + n) F) = take size (drop p F)).
    { rewrite <- drop_drop, take_take_drop. f_equal. lia. }
    destruct (IH (size - n) _ F (p + n) Hr2 Hd' ltac:(lia)) as [(Hfl & d & b2 & rest & He & Hl & Hdr & Hfd)|(b2 & He & Hr3 & Hd3)]; rewrite (mbind_ok _ _ _ _ _ He), Hdat; [left|right].
    - split; [done|]. exists (take n (drop p F) ++ d), b2, rest. split; [done|]. split; [rewrite length_app; lia|]. split; [|done].
      rewrite <- app_assoc, <- Hdr, <- drop_drop. symmetry. apply take_drop.
    - exists b2. rewrite Hsum. split; [done|]. split; [|done]. rewrite <- Hsum, length_app, Hln, Nat.add_assoc. done. }
  destruct (decide (bf_nbytes b <= bf_pos b)) as [Hex|Hin].
  - rewrite bool_decide_true by done. cbn [andb]. rewrite mbind_assoc, mput_ok. fold (next_window b).
    pose proof (next_window_rep b F p Hr Hd) as Hr1. pose proof Hr1 as [Hp1 Hpl1 Hs1 Hn1 _ _ Hat1 Hc1].
    destruct (BufFileLoadBuffer_ok (next_window b) Hp1 Hpl1 eq_refl Hs1) as [(Hfl & b2 & He & H0 & Hfd)|(b2 & He & Hld)]; rewrite (mbind_ok _ _ _ _ _ He), mget_ok.
    { left. split; [done|]. rewrite bool_decide_true by done. exists [], b2, (drop p F). split; [done|]. cbn. split; [lia|split; done]. }
    destruct (loaded_rep _ _ F p Hr1 Hd eq_refl Hld) as [Hr2 Hd2]. destruct (decide (bf_nbytes b2 = 0)) as [H0|Hne].
    + right. rewrite bool_decide_true by done. exists b2. pose proof (ld_eof _ _ Hld H0) as Heof. destruct (Hc1 Hd) as [HF _].
      rewrite (drop_ge F p) by (rewrite HF, Hat1, <- Heof; cbn; lia). cbn. rewrite Nat.add_0_r. done.
    + rewrite bool_decide_false by done. apply Hgo; [done|done| |done]. rewrite (ld_pos _ _ Hld). cbn. lia.
  - rewrite mret_ok, mget_ok, bool_decide_false by done. cbn [andb]. apply Hgo; [done|done|lia|done].
Qed.

Lemma BufFileRead_ok size b F p : rep b F p ->
  (ph_fails /\ exists d b' rest, BufFileRead MAX bufsize size b = Ok (d, b') /\ (length d < size \/ size = 0 /\ d = []) /\ drop p F = d ++ rest /\ any_failed b') \/
  exists b', BufFileRead MAX bufsize size b = Ok (take size (drop p F), b') /\ rep b' F (p + length (take size (drop p F))).
Proof.
  intros Hr. unfold BufFileRead. rewrite mget_ok.
  set (good := fun r : res (list byte * BufFile P) => (ph_fails /\ exists d b' rest, r = Ok (d, b') /\ (length d < size \/ size = 0 /\ d = []) /\ drop p F = d ++ rest /\ any_failed b') \/
    exists b', r = Ok (take size (drop p F), b') /\ rep b' F (p + length (take size (drop p F)))).
  assert (Hgo : forall b', rep b' F p -> bf_dirty b' = false -> good (bufread_loop MAX bufsize (S size) size b')).
  { intros b' Hr' Hd'. destruct (bufread_loop_ok (S size) size b' F p Hr' Hd' ltac:(lia)) as [(Hfl & d & b2 & rest & He & Hl & Hdr & Hfd)|(b2 & He & Hr3 & _)]; [left|right; eauto].
    split; [done|]. exists d, b2, rest. split_and!; [done|by left|done|done]. }
  destruct (bf_dirty b) eqn:Ed; [|apply Hgo; done].
  destruct (BufFileFlush_ok b F p Hr) as [(Hfl & b' & He & Hfd)|(b' & He & Hr' & Hd')]; rewrite (mbind_ok _ _ _ _ _ He); cbn [negb].
  - left. split; [done|]. exists [], b', (drop p F). split; [done|]. split; [cbn; destruct size; [by right|left; lia]|split; done].
  - rewrite mget_ok, Hd', Assert_ok by done. apply Hgo; done.
Qed.

Lemma window_overlay b x : bf_pos b <= bf_nbytes b -> bf_nbytes b <= length (bf_buffer b) -> bf_pos b + length x <= length (bf_buffer b) ->
  take (Nat.max (bf_nbytes b) (bf_pos b + length x)) (overlay (bf_buffer b) (bf_pos b) x) = overlay (window b) (bf_pos b) x.
Proof.
  intros Hp Hn Hx. apply list_eq. intros i. destruct (decide (i < Nat.max (bf_nbytes b) (bf_pos b + length x))) as [Hi|Hi].
  - rewrite lookup_take_lt, !overlay_lookup by (rewrite ?window_length; lia). case_decide; [done|]. unfold window. rewrite lookup_take_lt by lia. done.
  - rewrite !lookup_ge_None_2; [done| |]; [rewrite overlay_length by (rewrite window_length; lia); rewrite window_length; lia|rewrite length_take, overlay_length; lia].
Qed.
Lemma buffer_write b F p x : rep b F p -> bf_pos b + length x <= bufsize ->
  rep (set_window (bf_pos b + length x) (Nat.max (bf_nbytes b) (bf_pos b + length x)) (set_bf_dirty true (set_bf_buffer (overlay (bf_buffer b) (bf_pos b) x) b)))
    (overlay F p x) (p + length x).
Proof.
  intros [Hp Hpl Hs Hnb Hpos HF Hat Hc] Hx. pose proof (pl_base b Hpl). split; [destruct Hp; split; done|destruct Hpl; split; done| |cbn; lia|cbn; lia| | |discriminate].
  - cbn. rewrite overlay_length; lia.
  - unfold window. cbn [bf_nbytes bf_buffer set_window set_bf_dirty set_bf_buffer]. rewrite window_overlay by lia. subst F p.
    rewrite overlay_overlay by (rewrite ?window_length; lia). done.
  - subst p. cbn. unfold base. cbn. lia.
Qed.

Lemma bufwrite_loop_ok fuel : forall data b F p, rep b F p -> length data <= fuel ->
  (ph_fails /\ exists n b', bufwrite_loop MAX bufsize fuel data b = Ok (n, b') /\ n < length data /\ any_failed b') \/
  exists b', bufwrite_loop MAX bufsize fuel data b = Ok (length data, b') /\ rep b' (overlay F p data) (p + length data).
Proof.
  induction fuel as [|fuel IH]; intros data b F p Hr Hfu.
  { right. destruct data; [|cbn in Hfu; lia]. exists b. rewrite overlay_nil, Nat.add_0_r. done. }
  destruct data as [|c cs]; [right; exists b; rewrite overlay_nil, Nat.add_0_r; done|]. cbn [bufwrite_loop]. rewrite mget_ok.
  set (data := c :: cs) in *. assert (Hdl : 0 < length data) by (cbn; lia). clearbody data.
  match goal with |- context [?m ≫= _] => set (room := m) end.
  assert (Hroom : (ph_fails /\ exists b', room b = Ok (false, b') /\ any_failed b') \/ exists b', room b = Ok (true, b') /\ rep b' F p /\ bf_pos b' < bufsize).
  { unfold room. destruct (decide (bufsize <= bf_pos b)); [|right; exists b; split; [done|split; [done|lia]]]. destruct (bf_dirty b) eqn:Ed.
    - destruct (BufFileDumpBuffer_ok b F p Hr) as [(Hfl & b' & He & Hd & Hfd)|(b' & He & Hr' & Hd & Hn)]; rewrite (mbind_ok _ _ _ _ _ He), mget_ok, Hd, ?Ed; [left|right]; [eauto|].
      exists b'. split; [done|]. split; [done|]. destruct Hr'. lia.
    - right. exists (next_window b). split; [done|]. split; [apply next_window_rep; done|cbn; lia]. }
  clearbody room. destruct Hroom as [(Hfl & b' & He & Hfd)|(b' & He & Hr' & Hlt)]; rewrite (mbind_ok _ _ _ _ _ He); cbn [negb].
  { left. split; [done|]. exists 0, b'. done. }
  rewrite mget_ok. set (n := Nat.min (bufsize - bf_pos b') (length data)). rewrite Assert_ok, mput_ok by (apply Nat.ltb_lt; lia).
  set (x := take n data). assert (Hxl : length x = n) by (unfold x; rewrite length_take; lia).
  pose proof (buffer_write b' F p x Hr' ltac:(lia)) as Hr2. rewrite Hxl in Hr2.
  destruct (IH (drop n data) _ _ _ Hr2) as [(Hfl & m & b2 & He2 & Hm & Hfd)|(b2 & He2 & Hr3)]; [rewrite length_drop; lia| |]; rewrite (mbind_ok _ _ _ _ _ He2); rewrite length_drop in *; [left|right].
  - split; [done|]. exists (n + m), b2. split; [done|]. split; [lia|done].
  - exists b2. split; [unfold mret, M_ret; do 2 f_equal; lia|]. pose proof (rep_le _ _ _ Hr'). rewrite <- Hxl, overlay_app in Hr3 at 1 by done.
    unfold x in Hr3 at 1. rewrite take_drop in Hr3. replace (p + length data) with (p + n + (length data - n)) by lia. done.
Qed.
Lemma BufFileWrite_ok data b F p : rep b F p ->
  (ph_fails /\ exists n b', BufFileWrite MAX bufsize data b = Ok (n, b') /\ n < length data /\ any_failed b') \/
  exists b', BufFileWrite MAX bufsize data b = Ok (length data, b') /\ rep b' (overlay F p data) (p + length data).
Proof. intros Hr. apply bufwrite_loop_ok; done. Qed.

Lemma seek_back_ok fuel : forall nf no, (0 <= nf < Z.of_nat fuel)%Z ->
  if (nf * MAX + no <? 0)%Z then seek_back MAX fuel nf no = Ok None
  else exists nf' no', seek_back MAX fuel nf no = Ok (Some (nf', no')) /\ (0 <= nf')%Z /\ (0 <= no')%Z /\ (nf' * MAX + no' = nf * MAX + no)%Z.
Proof.
  induction fuel as [|fuel IH]; intros nf no Hf; [lia|]. cbn [seek_back]. destruct (Z.ltb_spec no 0) as [Hn|Hn].
  2:{ destruct (Z.ltb_spec (nf * MAX + no) 0); [nia|]. exists nf, no. split_and!; done || lia. }
  destruct (Z.ltb_spec (nf - 1) 0) as [H0|H0].
  { assert (nf = 0%Z) by lia. subst nf. destruct (Z.ltb_spec (0 * MAX + no) 0); [done|lia]. }
  specialize (IH (nf - 1)%Z (no + MAX)%Z ltac:(lia)). replace ((nf - 1) * MAX + (no + MAX))%Z with (nf * MAX + no)%Z in IH by lia. exact IH.
Qed.
Lemma seek_forward_ok nfiles fuel : forall nf no, (0 <= nf < nfiles)%Z -> (nfiles - nf <= Z.of_nat fuel)%Z -> (0 <= no)%Z -> (nf * MAX + no <= nfiles * MAX)%Z ->
  exists nf' no', seek_forward MAX fuel nfiles nf no = Ok (Some (nf', no')) /\ (0 <= nf' < nfiles)%Z /\ (0 <= no' <= MAX)%Z /\ (nf' * MAX + no' = nf * MAX + no)%Z.
Proof.
  induction fuel as [|fuel IH]; intros nf no Hf Hfu Hn Hle; [lia|]. cbn [seek_forward]. destruct (Z.ltb_spec MAX no) as [Hgt|Hok].
  2:{ exists nf, no. split_and!; done || lia. }
  assert (Hnext : (nf + 1 < nfiles)%Z). { destruct (decide (nf + 1 < nfiles)%Z); [done|]. assert (nfiles = nf + 1)%Z by lia. subst nfiles. lia. }
  destruct (Z.leb_spec nfiles (nf + 1)); [lia|].
  destruct (IH (nf + 1)%Z (no - MAX)%Z) as (nf' & no' & He & H1 & H2 & H3); [lia..|]. exists nf', no'. split_and!; done || lia.
Qed.

(** The place a seek starts from *)
Definition seek_from (fileno offset : Z) (w : whence) b : Z * Z :=
  match w with SEEK_SET => (fileno, offset) | SEEK_CUR => (bf_curFile b, (bf_curOffset b + Z.of_nat (bf_pos b) + offset)%Z) end.

Lemma base_Z b : placed b -> Z.of_nat (base b) = (bf_curFile b * MAX + bf_curOffset b)%Z.
Proof. intros [Hf Ho _]. unfold base. rewrite Nat2Z.inj_add, Nat2Z.inj_mul, !Z2Nat.id; lia. Qed.
Lemma flat_limit b : phys_ok b -> (Z.of_nat (length (flat b)) <= numFiles b * MAX)%Z.
Proof.
  intros Hp. pose proof (segs_length seg (segs b) (po_segs b Hp)) as Hl. fold (flat b) in Hl. unfold segs in Hl at 1. rewrite length_fmap in Hl.
  unfold numFiles. apply Nat2Z.inj_le in Hl. rewrite Nat2Z.inj_mul, Z2Nat.id in Hl by lia. done.
Qed.

Lemma seek_far_ok b F p nf no t : rep b F p -> (0 <= nf)%Z -> (0 <= no)%Z -> (nf * MAX + no = Z.of_nat t)%Z -> t <= length F ->
  (ph_fails /\ exists b', seek_far MAX nf no b = Ok (false, b') /\ any_failed b') \/ exists b', seek_far MAX nf no b = Ok (true, b') /\ rep b' F t.
Proof.
  intros Hr Hnf Hno Ht Hle. unfold seek_far. destruct (BufFileFlush_ok b F p Hr) as [(Hfl & b' & He & Hfd)|(b1 & He & Hr1 & Hd1)]; rewrite (mbind_ok _ _ _ _ _ He); cbn [negb].
  { left. split; [done|]. exists b'. done. }
  right. rewrite mget_ok. destruct Hr1 as [Hp Hpl Hs Hnb Hpos HF Hat Hc]. destruct (Hc Hd1) as [HFf _]. pose proof (flat_limit b1 Hp) as Hlim. rewrite <- HFf in Hlim.
  rewrite (po_temp b1 Hp). cbn [andb]. pose proof Hpl as [Hf _ _].
  set (q := if _ && _ then _ else _). assert (Hq : exists nf1 no1, q = (nf1, no1) /\ (0 <= nf1 < numFiles b1)%Z /\ (0 <= no1)%Z /\ (nf1 * MAX + no1 = Z.of_nat t)%Z).
  { subst q. destruct (Z.eqb_spec nf (numFiles b1)) as [Hn|Hn]; cbn [andb].
    - destruct (Z.eqb_spec no 0); [do 2 eexists; split; [reflexivity|]; split_and!; lia|nia].
    - do 2 eexists. split; [reflexivity|]. split_and!; try lia. assert (nf <= numFiles b1)%Z; [nia|lia]. }
  clearbody q. destruct Hq as (nf1 & no1 & -> & Hn1 & Ho1 & Ht1).
  destruct (seek_forward_ok (numFiles b1) (S (Z.to_nat (numFiles b1 - nf1))) nf1 no1) as (nf2 & no2 & Hs2 & Hn2 & Ho2 & Ht2); [lia..|].
  rewrite Hs2. destruct (Z.leb_spec (numFiles b1) nf2); [lia|]. rewrite mput_ok. eexists. split; [reflexivity|].
  assert (Hbt : base (set_window 0 0 (set_cur nf2 no2 b1)) = t).
  { apply Nat2Z.inj. unfold base. cbn [bf_curFile bf_curOffset set_window set_cur]. rewrite Nat2Z.inj_add, Nat2Z.inj_mul, !Z2Nat.id; lia. }
  apply rep_empty; [destruct Hp; split; done| |done|done|done|done|done]. split; [exact Hn2|cbn; lia|]. rewrite Hbt. change (t <= length (flat b1)). congruence.
Qed.

Lemma BufFileSeek_eq fileno offset w b : (w = SEEK_SET -> 0 <= fileno)%Z ->
  BufFileSeek MAX fileno offset w b =
  let '(nf, no) := seek_from fileno offset w b in
  match seek_back MAX (S (Z.to_nat nf)) nf no with
  | Err e => mfail e
  | Ok None => mret false
  | Ok (Some (nf, no)) =>
    if (nf =? bf_curFile b)%Z && (bf_curOffset b <=? no)%Z && (no <=? bf_curOffset b + Z.of_nat (bf_nbytes b))%Z
    then mput (set_window (Z.to_nat (no - bf_curOffset b)) (bf_nbytes b) b);; mret true else seek_far MAX nf no
  end b.
Proof. intros Hw. unfold BufFileSeek. rewrite mget_ok. destruct w; [|done]. specialize (Hw eq_refl). destruct (Z.ltb_spec fileno 0); [lia|done]. Qed.

Lemma BufFileSeek_ok fileno offset w b F p t : rep b F p -> (w = SEEK_SET -> 0 <= fileno)%Z ->
  ((seek_from fileno offset w b).1 * MAX + (seek_from fileno offset w b).2 = Z.of_nat t)%Z -> t <= length F ->
  (ph_fails /\ exists b', BufFileSeek MAX fileno offset w b = Ok (false, b') /\ any_failed b') \/ exists b', BufFileSeek MAX fileno offset w b = Ok (true, b') /\ rep b' F t.
Proof.
  intros Hr Hw Ht Hle. rewrite BufFileSeek_eq by done. assert (H0 : (0 <= (seek_from fileno offset w b).1)%Z).
  { destruct w; cbn; [auto|]. destruct Hr as [_ [Hf _ _]]. lia. }
  destruct (seek_from fileno offset w b) as [nf no]. cbn in Ht, H0. pose proof (seek_back_ok (S (Z.to_nat nf)) nf no ltac:(lia)) as Hsb.
  destruct (Z.ltb_spec (nf * MAX + no) 0); [lia|]. destruct Hsb as (nf' & no' & -> & Hn' & Ho' & Ht').
  destruct (Z.eqb_spec nf' (bf_curFile b)) as [->|]; cbn [andb]; [|apply (seek_far_ok b F p); done || lia].
  destruct (Z.leb_spec (bf_curOffset b) no'); cbn [andb]; [|apply (seek_far_ok b F p); done || lia].
  destruct (Z.leb_spec no' (bf_curOffset b + Z.of_nat (bf_nbytes b))); [|apply (seek_far_ok b F p); done || lia].
  right. rewrite mput_ok. eexists. split; [reflexivity|]. destruct Hr as [Hp Hpl Hs Hnb Hpos HF Hat Hc]. pose proof (base_Z b Hpl).
  split; [destruct Hp; split; done|destruct Hpl; split; done|done|done|cbn; lia|done| |done]. change (base (set_window _ _ b)) with (base b). cbn. lia.
Qed.
(** A seek to before the beginning changes nothing. *)
Lemma BufFileSeek_eof fileno offset w b F p : rep b F p -> (w = SEEK_SET -> 0 <= fileno)%Z ->
  ((seek_from fileno offset w b).1 * MAX + (seek_from fileno offset w b).2 < 0)%Z -> BufFileSeek MAX fileno offset w b = Ok (false, b).
Proof.
  intros Hr Hw Ht. rewrite BufFileSeek_eq by done. assert (H0 : (0 <= (seek_from fileno offset w b).1)%Z).
  { destruct w; cbn; [auto|]. destruct Hr as [_ [Hf _ _]]. lia. }
  destruct (seek_from fileno offset w b) as [nf no]. cbn in Ht, H0. pose proof (seek_back_ok (S (Z.to_nat nf)) nf no ltac:(lia)) as Hsb.
  destruct (Z.ltb_spec (nf * MAX + no) 0); [|lia]. rewrite Hsb. done.
Qed.
Lemma BufFileSeek_negative fileno offset b : (fileno < 0)%Z -> BufFileSeek MAX fileno offset SEEK_SET b = Ok (false, b).
Proof. intros Hn. unfold BufFileSeek. rewrite mget_ok. destruct (Z.ltb_spec fileno 0); [done|lia]. Qed.

Lemma create_rep : rep (BufFileCreateTemp bufsize) [] 0.
Proof.
  destruct ph_open as (Ho & Hp & Hnf). assert (Hs : segs (BufFileCreateTemp bufsize) = [[]]) by (unfold segs; cbn; rewrite Ho; done).
  apply rep_empty; [split| |apply length_replicate|done|done|unfold flat; rewrite Hs; done|done].
  - done.
  - cbn. rewrite Hp. done.
  - rewrite Hs. intros [|i] s Hi; [|done]. injection Hi as <-. cbn. split; lia.
  - by repeat constructor.
  - split; [unfold numFiles; cbn; lia|cbn; lia|apply Nat.le_0_l].
Qed.
Lemma tell_ok b F p : rep b F p -> (0 <= (BufFileTell b).1)%Z /\ ((BufFileTell b).1 * MAX + (BufFileTell b).2 = Z.of_nat p)%Z.
Proof. intros [_ Hpl _ _ _ _ -> _]. pose proof (base_Z b Hpl). destruct Hpl as [Hf _ _]. cbn. lia. Qed.

(** ** Sequences of calls *)

Inductive bf_op := FWrite (data : list byte) | FRead (size : nat) | FSeek (fileno offset : Z) (w : whence) | FSeekBlock (blknum : Z).
(** What a call returns: what was read, how much was written, whether it moved *)
Inductive bf_result := GotData (d : list byte) | Wrote (n : nat) | Moved (ok : bool).

(** The calls on a sequence of bytes with a position; no answer for a seek to behind the end. *)
Definition seek_spec (t : Z) (f : list byte * nat) : option (bf_result * (list byte * nat)) :=
  if decide (t < 0)%Z then Some (Moved false, f)
  else if decide (Z.to_nat t <= length f.1) then Some (Moved true, (f.1, Z.to_nat t)) else None.
Definition bf_spec (op : bf_op) (f : list byte * nat) : option (bf_result * (list byte * nat)) :=
  match op with
  | FWrite data => Some (Wrote (length data), (overlay f.1 f.2 data, f.2 + length data))
  | FRead size => let d := take size (drop f.2 f.1) in Some (GotData d, (f.1, f.2 + length d))
  | FSeek fileno offset SEEK_SET => if decide (fileno < 0)%Z then Some (Moved false, f) else seek_spec (fileno * MAX + offset) f
  | FSeek _ offset SEEK_CUR => seek_spec (Z.of_nat f.2 + offset) f
  | FSeekBlock blknum => seek_spec (blknum * Z.of_nat bufsize) f
  end.
Definition bf_run (op : bf_op) : M (BufFile P) bf_result :=
  match op with
  | FWrite data => n ← BufFileWrite MAX bufsize data; mret (Wrote n)
  | FRead size => d ← BufFileRead MAX bufsize size; mret (GotData d)
  | FSeek fileno offset w => ok ← BufFileSeek MAX fileno offset w; mret (Moved ok)
  | FSeekBlock blknum => ok ← BufFileSeekBlock MAX bufsize blknum; mret (Moved ok)
  end.
(** What a call returns in which a call on a physical file failed: a write less than the length of its data, a seek EOF, and a read the
    beginning of what is there, less than was asked for. *)
Definition after_failure (op : bf_op) (f : list byte * nat) (r : bf_result) : Prop :=
  match op, r with
  | FWrite data, Wrote n => n < length data
  | FRead size, GotData d => (length d < size \/ size = 0 /\ d = []) /\ exists rest, drop f.2 f.1 = d ++ rest
  | FSeek _ _ _, Moved ok | FSeekBlock _, Moved ok => ok = false
  | _, _ => False
  end.

Definition outcome (op : bf_op) (f : list byte * nat) (r : bf_result) (f' : list byte * nat) (run : res (bf_result * BufFile P)) : Prop :=
  (ph_fails /\ exists r' b', run = Ok (r', b') /\ any_failed b' /\ after_failure op f r') \/ exists b', run = Ok (r, b') /\ rep b' f'.1 f'.2.

Lemma seek_spec_ok fileno offset w b F p r f' : rep b F p -> (w = SEEK_SET -> 0 <= fileno)%Z ->
  seek_spec ((seek_from fileno offset w b).1 * MAX + (seek_from fileno offset w b).2) (F, p) = Some (r, f') ->
  (ph_fails /\ exists b', BufFileSeek MAX fileno offset w b = Ok (false, b') /\ any_failed b') \/
  exists ok b', r = Moved ok /\ BufFileSeek MAX fileno offset w b = Ok (ok, b') /\ rep b' f'.1 f'.2.
Proof.
  intros Hr Hw E. unfold seek_spec in E. case_decide as Hn.
  - injection E as <- <-. right. exists false, b. split; [done|]. split; [|done]. apply (BufFileSeek_eof _ _ _ b F p); done.
  - case_decide as Hle; [|discriminate E]. injection E as <- <-. cbn [fst] in *.
    destruct (BufFileSeek_ok fileno offset w b F p (Z.to_nat ((seek_from fileno offset w b).1 * MAX + (seek_from fileno offset w b).2)) Hr Hw) as [H|(b' & He & Hr')]; [lia|done|left; done|].
    right. exists true, b'. done.
Qed.

Lemma seek_outcome op fileno offset w b F p r f' : rep b F p -> (w = SEEK_SET -> 0 <= fileno)%Z ->
  seek_spec ((seek_from fileno offset w b).1 * MAX + (seek_from fileno offset w b).2) (F, p) = Some (r, f') ->
  after_failure op (F, p) (Moved false) -> outcome op (F, p) r f' ((ok ← BufFileSeek MAX fileno offset w; mret (Moved ok)) b).
Proof.
  intros Hr Hw E Hrep. destruct (seek_spec_ok fileno offset w b F p r f' Hr Hw E) as [(Hfl & b' & He & Hfd)|(ok & b' & -> & He & Hr')]; rewrite (mbind_ok _ _ _ _ _ He); [left|right].
  - split; [done|]. exists (Moved false), b'. done.
  - exists b'. done.
Qed.

Context (Hblk : (MAX mod Z.of_nat bufsize = 0)%Z).
(** A block number as a file and an offset in it *)
Lemma block_place blknum : (0 <= blknum)%Z ->
  (0 <= Z.quot blknum (BUFFILE_SEG_SIZE MAX bufsize))%Z /\
  (Z.quot blknum (BUFFILE_SEG_SIZE MAX bufsize) * MAX + Z.rem blknum (BUFFILE_SEG_SIZE MAX bufsize) * Z.of_nat bufsize = blknum * Z.of_nat bufsize)%Z.
Proof using Hbuf Hmax Hblk.
  intros Hn. unfold BUFFILE_SEG_SIZE. pose proof (Z.div_mod MAX (Z.of_nat bufsize) ltac:(lia)) as Hd. rewrite Hblk in Hd.
  set (k := (MAX / Z.of_nat bufsize)%Z) in *. assert (Hk : (0 < k)%Z) by nia. split; [apply Z.quot_pos; lia|].
  pose proof (Z.quot_rem' blknum k) as Hq. set (q := Z.quot blknum k) in *. set (r := Z.rem blknum k) in *. clearbody q r. subst blknum. rewrite Hd at 1. lia.
Qed.
Lemma block_negative blknum : (blknum < 0)%Z -> (Z.quot blknum (BUFFILE_SEG_SIZE MAX bufsize) < 0)%Z \/
  (Z.quot blknum (BUFFILE_SEG_SIZE MAX bufsize) = 0%Z /\ (Z.rem blknum (BUFFILE_SEG_SIZE MAX bufsize) < 0)%Z).
Proof using Hbuf Hmax Hblk.
  intros Hn. unfold BUFFILE_SEG_SIZE. pose proof (Z.div_mod MAX (Z.of_nat bufsize) ltac:(lia)) as Hd. rewrite Hblk in Hd.
  set (k := (MAX / Z.of_nat bufsize)%Z) in *. assert (Hk : (0 < k)%Z) by nia. pose proof (Z.quot_rem' blknum k) as Hq.
  pose proof (Z.rem_nonpos blknum k ltac:(lia) ltac:(lia)). pose proof (Z.rem_bound_abs blknum k ltac:(lia)). nia.
Qed.

Lemma bf_refines op b F p r f' : rep b F p -> bf_spec op (F, p) = Some (r, f') -> outcome op (F, p) r f' (bf_run op b).
Proof using Hbuf Hmax Hblk.
  intros Hr E. destruct op as [data|size|fileno offset w|blknum]; cbn [bf_spec bf_run fst snd] in *.
  - injection E as <- <-. destruct (BufFileWrite_ok data b F p Hr) as [(Hfl & n & b' & He & Hn & Hfd)|(b' & He & Hr')]; rewrite (mbind_ok _ _ _ _ _ He); [left|right].
    + split; [done|]. exists (Wrote n), b'. done.
    + exists b'. done.
  - injection E as <- <-. destruct (BufFileRead_ok size b F p Hr) as [(Hfl & d & b' & rest & He & Hl & Hd & Hfd)|(b' & He & Hr')]; rewrite (mbind_ok _ _ _ _ _ He); [left|right].
    + split; [done|]. exists (GotData d), b'. split; [done|]. split; [done|]. split; [done|]. exists rest. done.
    + exists b'. done.
  - destruct w.
    + case_decide as Hn.
      * injection E as <- <-. right. exists b. rewrite (mbind_ok _ _ _ _ _ (BufFileSeek_negative fileno offset b Hn)). done.
      * apply seek_outcome; [done|lia|done|done].
    + apply seek_outcome; [done|done| |done]. rewrite <- E. f_equal. cbn. rewrite (rp_at _ _ _ Hr). pose proof (base_Z b (rp_placed _ _ _ Hr)). lia.
  - unfold BufFileSeekBlock. destruct (decide (blknum < 0)%Z) as [Hn|Hn].
    + unfold seek_spec in E. rewrite decide_True in E by nia. injection E as <- <-. right. exists b.
      assert (He : BufFileSeek MAX (Z.quot blknum (BUFFILE_SEG_SIZE MAX bufsize)) (Z.rem blknum (BUFFILE_SEG_SIZE MAX bufsize) * Z.of_nat bufsize) SEEK_SET b = Ok (false, b)).
      { destruct (block_negative blknum Hn) as [Hq|[Hq Hm]]; [apply BufFileSeek_negative; done|]. rewrite Hq. apply (BufFileSeek_eof _ _ _ b F p Hr); [done|cbn; nia]. }
      rewrite (mbind_ok _ _ _ _ _ He). done.
    + destruct (block_place blknum ltac:(lia)) as [Hq Ht]. apply seek_outcome; [done|done| |done]. cbn. rewrite Ht. done.
Qed.
End correct.

(** Sequences of calls, with what they return *)
Fixpoint bf_spec_all (MAX : Z) (bufsize : nat) (ops : list bf_op) (f : list byte * nat) : option (list bf_result * (list byte * nat)) :=
  match ops with
  | [] => Some ([], f)
  | op :: ops => '(r, f) ← bf_spec MAX bufsize op f; '(rs, f) ← bf_spec_all MAX bufsize ops f; Some (r :: rs, f)
  end.
Fixpoint bf_run_all {P} `{!PhysFile P} (MAX : Z) (bufsize : nat) (ops : list bf_op) : M (BufFile P) (list bf_result) :=
  match ops with
  | [] => mret []
  | op :: ops => r ← bf_run MAX bufsize op; rs ← bf_run_all MAX bufsize ops; mret (r :: rs)
  end.

Section sequences.
Context {P : Type} `{!PhysFile P} `{!PhysFileLaws P} (MAX : Z) (bufsize : nat).
Context (Hbuf : 0 < bufsize) (Hmax : (Z.of_nat bufsize <= MAX)%Z) (Hblk : (MAX mod Z.of_nat bufsize = 0)%Z).
Implicit Type b : BufFile P.

(** Up to the first failure *)
Lemma run_until ops : forall b F p rs f', rep MAX bufsize b F p -> bf_spec_all MAX bufsize ops (F, p) = Some (rs, f') ->
  exists k b' f, bf_run_all MAX bufsize (take k ops) b = Ok (take k rs, b') /\ bf_spec_all MAX bufsize (take k ops) (F, p) = Some (take k rs, f) /\
    rep MAX bufsize b' f.1 f.2 /\
    ((length ops <= k /\ f = f') \/
     (ph_fails /\ exists op r b'', ops !! k = Some op /\ bf_run MAX bufsize op b' = Ok (r, b'') /\ any_failed b'' /\ after_failure op f r)).
Proof using Hbuf Hmax Hblk.
  induction ops as [|op ops IH]; intros b F p rs f' Hr E; cbn [bf_spec_all] in E.
  { injection E as <- <-. exists 0, b, (F, p). split_and!; [done|done|done|]. left. done. }
  destruct (bf_spec MAX bufsize op (F, p)) as [[r [F1 p1]]|] eqn:E1; [|discriminate E]. cbn in E.
  destruct (bf_spec_all MAX bufsize ops (F1, p1)) as [[rs1 f1]|] eqn:E2; [|discriminate E]. injection E as <- <-.
  destruct (bf_refines MAX bufsize Hbuf Hmax Hblk op b F p r _ Hr E1) as [(Hfl & r' & b' & He & Hfd & Hrep)|(b1 & He & Hr1)].
  { exists 0, b, (F, p). split_and!; [done|done|done|]. right. split; [done|]. exists op, r', b'. done. }
  destruct (IH b1 F1 p1 rs1 f1 Hr1 E2) as (k & b2 & f & Hrun & Hspec & Hr2 & Hend). exists (S k), b2, f. split_and!.
  - cbn [take bf_run_all]. rewrite (mbind_ok _ _ _ _ _ He), (mbind_ok _ _ _ _ _ Hrun). done.
  - cbn [take bf_spec_all]. rewrite E1. cbn. rewrite Hspec. done.
  - done.
  - destruct Hend as [[Hk ->]|Hend]; [left|right; done]. split; [cbn; lia|done].
Qed.
Lemma bf_spec_all_length ops : forall f rs f', bf_spec_all MAX bufsize ops f = Some (rs, f') -> length rs = length ops.
Proof.
  induction ops as [|op ops IH]; intros f rs f' E; cbn [bf_spec_all] in E; [injection E as <- <-; done|].
  destruct (bf_spec MAX bufsize op f) as [[r f1]|]; [|discriminate E]. cbn in E.
  destruct (bf_spec_all MAX bufsize ops f1) as [[rs1 f2]|] eqn:E2; [|discriminate E]. injection E as <- <-. cbn. f_equal. eauto.
Qed.
Lemma run_all_ok ops b F p rs f' : ~ ph_fails -> rep MAX bufsize b F p -> bf_spec_all MAX bufsize ops (F, p) = Some (rs, f') ->
  exists b', bf_run_all MAX bufsize ops b = Ok (rs, b') /\ rep MAX bufsize b' f'.1 f'.2.
Proof using Hbuf Hmax Hblk.
  intros Hf Hr E. destruct (run_until ops b F p rs f' Hr E) as (k & b' & f & Hrun & _ & Hr' & [[Hk ->]|[? _]]); [|done].
  rewrite !take_ge in Hrun by (rewrite ?(bf_spec_all_length _ _ _ _ E); lia). exists b'. done.
Qed.

(** C6: a buffered file is one sequence of bytes with a position, whatever the sizes of its buffer and of its physical files.  As long as no system call fails, any
    sequence of writes, reads and seeks (to a place up to the end) on a new file returns what it would on such a sequence: a write puts
    its bytes over those behind the position, over the end too; a read returns the bytes behind the position, fewer at the end; a seek to before the
    beginning is refused and changes nothing.  System calls may read and write less than they were asked to.  Afterwards BufFileTell
    gives the position, all physical files but the last have exactly the size of the limit, and when the buffer has been flushed
    the physical files one after the other hold the sequence. *)
Theorem buffile_refines ops rs F p : ~ ph_fails -> bf_spec_all MAX bufsize ops ([], 0) = Some (rs, (F, p)) ->
  exists b, bf_run_all MAX bufsize ops (BufFileCreateTemp bufsize : BufFile P) = Ok (rs, b) /\
    ((BufFileTell b).1 * MAX + (BufFileTell b).2 = Z.of_nat p)%Z /\ segs_ok (Z.to_nat MAX) (ph_bytes <$> bf_files b) /\
    exists b', BufFileFlush MAX b = Ok (true, b') /\ concat (ph_bytes <$> bf_files b') = F.
Proof using Hbuf Hmax Hblk.
  intros Hf E. destruct (run_all_ok ops _ [] 0 rs _ Hf (create_rep MAX bufsize Hbuf Hmax) E) as (b & Hrun & Hr). exists b. split; [done|]. cbn in Hr.
  split; [apply (tell_ok MAX bufsize Hbuf Hmax b F p Hr)|]. split; [apply Hr|].
  destruct (BufFileFlush_ok MAX bufsize Hbuf Hmax b F p Hr) as [[? _]|(b' & He & Hr' & Hd)]; [done|]. exists b'. split; [done|].
  destruct (rp_clean _ _ _ _ _ Hr' Hd) as [HF _]. symmetry. exact HF.
Qed.

(** C23: what happens when system calls fail.  Let [k] calls of any sequence be the ones before a call on a physical file fails for the first
    time (all of them if none does).  These return what they would on a sequence of bytes.  The call in which the failure happens shows it: a
    write returns less than the length of its data, a seek fails, and a read returns less than was asked for, namely a beginning of what is
    there (as it also does at the end of the file; a read of no bytes returns none).  No data is made up. *)
Theorem buffile_errors ops rs f' : bf_spec_all MAX bufsize ops ([], 0) = Some (rs, f') ->
  exists k b f, bf_run_all MAX bufsize (take k ops) (BufFileCreateTemp bufsize : BufFile P) = Ok (take k rs, b) /\
    bf_spec_all MAX bufsize (take k ops) ([], 0) = Some (take k rs, f) /\ ~ any_failed b /\
    (length ops <= k \/ exists op r b', ops !! k = Some op /\ bf_run MAX bufsize op b = Ok (r, b') /\ any_failed b' /\ after_failure op f r).
Proof using Hbuf Hmax Hblk.
  intros E. destruct (run_until ops _ [] 0 rs f' (create_rep MAX bufsize Hbuf Hmax) E) as (k & b & f & Hrun & Hspec & Hr & Hend). exists k, b, f.
  split_and!; [done|done|apply (works_not_failed MAX), (rp_phys _ _ _ _ _ Hr)|]. destruct Hend as [[Hk _]|[_ Hend]]; auto.
Qed.
End sequences.

(** ** Files of blocks *)

Inductive block_op := WriteBlock (n : nat) (buf : list byte) | ReadBlock (n : nat).
(** On a sequence of blocks: a block is replaced or added at the end, and what was written is read. *)
Definition block_spec (bufsize : nat) (op : block_op) (bs : list (list byte)) : option (list byte * list (list byte)) :=
  match op with
  | WriteBlock n buf => if decide (n <= length bs /\ length buf = bufsize) then Some ([], take n bs ++ buf :: drop (S n) bs) else None
  | ReadBlock n => d ← bs !! n; Some (d, bs)
  end.
Fixpoint block_spec_all (bufsize : nat) (ops : list block_op) (bs : list (list byte)) : option (list (list byte) * list (list byte)) :=
  match ops with
  | [] => Some ([], bs)
  | op :: ops => '(d, bs) ← block_spec bufsize op bs; '(ds, bs) ← block_spec_all bufsize ops bs; Some (d :: ds, bs)
  end.
Definition block_run {P} `{!PhysFile P} (MAX : Z) (bufsize : nat) (op : block_op) : M (BufFile P) (list byte) :=
  match op with
  | WriteBlock n buf => ltsWriteBlock_bytes MAX bufsize (Z.of_nat n) buf;; mret []
  | ReadBlock n => ltsReadBlock_bytes MAX bufsize (Z.of_nat n)
  end.
Fixpoint block_run_all {P} `{!PhysFile P} (MAX : Z) (bufsize : nat) (ops : list block_op) : M (BufFile P) (list (list byte)) :=
  match ops with
  | [] => mret []
  | op :: ops => d ← block_run MAX bufsize op; ds ← block_run_all MAX bufsize ops; mret (d :: ds)
  end.

Section blocks.
Context {P : Type} `{!PhysFile P} `{!PhysFileLaws P} (MAX : Z) (bufsize : nat).
Context (Hbuf : 0 < bufsize) (Hmax : (Z.of_nat bufsize <= MAX)%Z) (Hblk : (MAX mod Z.of_nat bufsize = 0)%Z) (Hfails : ~ ph_fails).
Implicit Type b : BufFile P.

Definition sized (bs : list (list byte)) : Prop := Forall (fun d => length d = bufsize) bs.
Lemma sized_length bs : sized bs -> length (concat bs) = length bs * bufsize.
Proof. induction 1 as [|d bs Hd _ IH]; [done|]. cbn. rewrite length_app. lia. Qed.
Lemma sized_take bs n : sized bs -> take (n * bufsize) (concat bs) = concat (take n bs) /\ drop (n * bufsize) (concat bs) = concat (drop n bs).
Proof.
  intros Hs. revert n. induction Hs as [|d bs Hd _ IH]; intros n; [cbn; rewrite !take_nil, !drop_nil; done|]. destruct n as [|n]; [done|]. cbn. destruct (IH n) as [H1 H2].
  rewrite <- Hd at 1 3. rewrite take_app_add, drop_app_add, H1, H2. done.
Qed.
Lemma sized_overlay bs n d : sized bs -> n <= length bs -> length d = bufsize -> overlay (concat bs) (n * bufsize) d = concat (take n bs ++ d :: drop (S n) bs).
Proof.
  intros Hs Hn Hd. unfold overlay. rewrite concat_app. cbn. rewrite Hd. replace (n * bufsize + bufsize) with (S n * bufsize) by (cbn; lia).
  destruct (sized_take bs n Hs) as [-> _]. destruct (sized_take bs (S n) Hs) as [_ ->]. done.
Qed.
Lemma seek_block b F p n : rep MAX bufsize b F p -> n * bufsize <= length F -> exists b', BufFileSeekBlock MAX bufsize (Z.of_nat n) b = Ok (true, b') /\ rep MAX bufsize b' F (n * bufsize).
Proof using Hbuf Hmax Hblk Hfails.
  intros Hr Hn. destruct (block_place MAX bufsize Hbuf Hmax Hblk (Z.of_nat n) ltac:(lia)) as [Hq Ht].
  set (q := Z.quot (Z.of_nat n) (BUFFILE_SEG_SIZE MAX bufsize)) in *. set (o := (Z.rem (Z.of_nat n) (BUFFILE_SEG_SIZE MAX bufsize) * Z.of_nat bufsize)%Z) in *.
  destruct (BufFileSeek_ok MAX bufsize Hbuf Hmax q o SEEK_SET b F p (n * bufsize) Hr (fun _ => Hq)) as [[? _]|H]; [cbn [seek_from fst snd]; lia|done|done|exact H].
Qed.

Lemma block_step op b bs p d bs' : rep MAX bufsize b (concat bs) p -> sized bs -> block_spec bufsize op bs = Some (d, bs') ->
  exists b' p', block_run MAX bufsize op b = Ok (d, b') /\ rep MAX bufsize b' (concat bs') p' /\ sized bs'.
Proof using Hbuf Hmax Hblk Hfails.
  intros Hr Hs E. destruct op as [n buf|n]; cbn [block_spec block_run] in *.
  - case_decide as Hc; [|discriminate E]. destruct Hc as [Hn Hl]. injection E as <- <-. unfold ltsWriteBlock_bytes. rewrite mbind_assoc.
    destruct (seek_block b _ p n Hr) as (b1 & H1 & Hr1); [rewrite sized_length by done; apply Nat.mul_le_mono_r; done|]. rewrite (mbind_ok _ _ _ _ _ H1). cbn [negb]. rewrite mbind_assoc.
    destruct (BufFileWrite_ok MAX bufsize Hbuf Hmax buf b1 _ _ Hr1) as [[? _]|(b2 & H2 & Hr2)]; [done|]. rewrite (mbind_ok _ _ _ _ _ H2), decide_True by done.
    exists b2. eexists. split; [reflexivity|]. rewrite sized_overlay in Hr2 by done. split; [exact Hr2|].
    apply Forall_app. split; [apply Forall_take; done|]. constructor; [done|]. apply Forall_drop. done.
  - destruct (bs !! n) as [d0|] eqn:Ed; [|discriminate E]. injection E as <- <-. unfold ltsReadBlock_bytes. pose proof (lookup_lt_Some _ _ _ Ed) as Hn.
    pose proof (Forall_lookup_1 _ _ _ _ Hs Ed) as Hl. cbn in Hl.
    destruct (seek_block b _ p n Hr) as (b1 & H1 & Hr1); [rewrite sized_length by done; apply Nat.mul_le_mono_r; lia|]. rewrite (mbind_ok _ _ _ _ _ H1). cbn [negb].
    destruct (BufFileRead_ok MAX bufsize Hbuf Hmax bufsize b1 _ _ Hr1) as [[? _]|(b2 & H2 & Hr2)]; [done|]. destruct (sized_take bs n Hs) as [_ Hd]. rewrite Hd, (drop_S _ _ _ Ed) in H2. cbn in H2.
    rewrite <- Hl, take_app_length, Hl in H2. rewrite (mbind_ok _ _ _ _ _ H2), decide_True by done. exists b2. eexists. split; [reflexivity|]. split; [exact Hr2|done].
Qed.

(** C22: a buffered file is also a sequence of blocks, as logtape.c uses it.  When system calls do not fail, writing a block replaces it or adds it at the end, and reading
    a block returns what was last written to it, for any sequence of such calls on a new file, over the ends of physical files too. *)
Theorem buffile_blocks ops ds bs : block_spec_all bufsize ops [] = Some (ds, bs) ->
  exists b, block_run_all MAX bufsize ops (BufFileCreateTemp bufsize : BufFile P) = Ok (ds, b).
Proof using Hbuf Hmax Hblk Hfails.
  intros E. assert (H : forall ops b bs0 p ds bs, rep MAX bufsize b (concat bs0) p -> sized bs0 -> block_spec_all bufsize ops bs0 = Some (ds, bs) ->
    exists b', block_run_all MAX bufsize ops b = Ok (ds, b')); [|exact (H ops _ [] 0 ds bs (create_rep MAX bufsize Hbuf Hmax) ltac:(constructor) E)].
  clear ops ds bs E. intros ops. induction ops as [|op ops IH]; intros b bs0 p ds bs Hr Hs E; cbn [block_spec_all block_run_all] in *; [injection E as <- <-; exists b; done|].
  destruct (block_spec bufsize op bs0) as [[d bs1]|] eqn:E1; [|discriminate E]. cbn in E. destruct (block_spec_all bufsize ops bs1) as [[ds1 bs2]|] eqn:E2; [|discriminate E]. injection E as <- <-.
  destruct (block_step op b bs0 p d bs1 Hr Hs E1) as (b1 & p1 & H1 & Hr1 & Hs1). destruct (IH b1 bs1 p1 ds1 bs2 Hr1 Hs1 E2) as (b2 & H2). exists b2.
  rewrite (mbind_ok _ _ _ _ _ H1), (mbind_ok _ _ _ _ _ H2). done.
Qed.
End blocks.

(** ** What the users of a file rely on *)

Class TempFile (T : Type) := {
  tf_create : T;
  tf_write : list byte -> M T nat;
  tf_read : nat -> M T (list byte);
  tf_seek : Z -> Z -> whence -> M T bool;
  tf_tell : T -> Z * Z }.
(** [tf_rep]: the bytes of the file and the position; [tf_place]: what position a file number and an offset stand for *)
Class TempFileLaws (T : Type) `{!TempFile T} := {
  tf_rep : T -> list byte -> nat -> Prop;
  tf_place : Z * Z -> nat -> Prop;
  tf_create_rep : tf_rep tf_create [] 0;
  tf_rep_le : forall t F p, tf_rep t F p -> p <= length F;
  tf_place_start : tf_place (0, 0)%Z 0;
  tf_tell_place : forall t F p, tf_rep t F p -> tf_place (tf_tell t) p;
  tf_write_ok : forall t F p d, tf_rep t F p -> exists t', tf_write d t = Ok (length d, t') /\ tf_rep t' (overlay F p d) (p + length d);
  tf_read_ok : forall t F p n, tf_rep t F p -> exists t', tf_read n t = Ok (take n (drop p F), t') /\ tf_rep t' F (p + length (take n (drop p F)));
  tf_seek_set : forall t F p q n, tf_rep t F p -> tf_place q n -> n <= length F -> exists t', tf_seek q.1 q.2 SEEK_SET t = Ok (true, t') /\ tf_rep t' F n;
  tf_seek_cur : forall t F p off n, tf_rep t F p -> (Z.of_nat p + off = Z.of_nat n)%Z -> n <= length F -> exists t', tf_seek 0 off SEEK_CUR t = Ok (true, t') /\ tf_rep t' F n;
  tf_seek_before : forall t F p off, tf_rep t F p -> (Z.of_nat p + off < 0)%Z -> tf_seek 0 off SEEK_CUR t = Ok (false, t) }.

(** Buffered files are such files when system calls do not fail. *)
Section instance.
Context {P : Type} `{!PhysFile P} `{!PhysFileLaws P} (MAX : Z) (bufsize : nat).
Context (Hbuf : 0 < bufsize) (Hmax : (Z.of_nat bufsize <= MAX)%Z) (Hfails : ~ ph_fails).

Definition BufFile_TempFile : TempFile (BufFile P) := {|
  tf_create := BufFileCreateTemp bufsize;
  tf_write := BufFileWrite MAX bufsize;
  tf_read := BufFileRead MAX bufsize;
  tf_seek := BufFileSeek MAX;
  tf_tell := BufFileTell |}.
Program Definition BufFile_TempFileLaws : @TempFileLaws (BufFile P) BufFile_TempFile := {|
  tf_rep := rep MAX bufsize;
  tf_place := fun q n => (0 <= q.1)%Z /\ (q.1 * MAX + q.2 = Z.of_nat n)%Z |}.
Next Obligation. exact (create_rep MAX bufsize Hbuf Hmax). Qed.
Next Obligation. exact (rep_le MAX bufsize Hbuf). Qed.
Next Obligation. cbn. lia. Qed.
Next Obligation. intros t F p Hr. exact (tell_ok MAX bufsize Hbuf Hmax t F p Hr). Qed.
Next Obligation. intros t F p d Hr. destruct (BufFileWrite_ok MAX bufsize Hbuf Hmax d t F p Hr) as [[? _]|H]; [done|exact H]. Qed.
Next Obligation. intros t F p n Hr. destruct (BufFileRead_ok MAX bufsize Hbuf Hmax n t F p Hr) as [[? _]|H]; [done|exact H]. Qed.
Next Obligation.
  intros t F p q n Hr [H0 Hq] Hn. destruct (BufFileSeek_ok MAX bufsize Hbuf Hmax q.1 q.2 SEEK_SET t F p n Hr (fun _ => H0) Hq Hn) as [[? _]|H]; [done|exact H].
Qed.
Next Obligation.
  intros t F p off n Hr Hq Hn. pose proof (base_Z MAX bufsize Hbuf Hmax t (rp_placed _ _ _ _ _ Hr)). pose proof (rp_at _ _ _ _ _ Hr).
  destruct (BufFileSeek_ok MAX bufsize Hbuf Hmax 0 off SEEK_CUR t F p n Hr ltac:(done) ltac:(cbn; lia) Hn) as [[? _]|Hs]; [done|exact Hs].
Qed.
Next Obligation.
  intros t F p off Hr Hq. pose proof (base_Z MAX bufsize Hbuf Hmax t (rp_placed _ _ _ _ _ Hr)). pose proof (rp_at _ _ _ _ _ Hr).
  apply (BufFileSeek_eof MAX bufsize Hbuf Hmax 0 off SEEK_CUR t F p Hr); [done|cbn; lia].
Qed.
End instance.

(** ** Physical files in memory, for the examples *)

(** At most three bytes are moved by one call; a write that would make the file longer than the limit fails, which [mem_bad] records. *)
Record memfile := mkMem { mem_bytes : list byte; mem_pos : nat; mem_bad : bool }.
Definition mem_ops (limit : option nat) : PhysFile memfile := {|
  OpenTemporaryFile := mkMem [] 0 false;
  FileSeek := fun f off => (off, mkMem (mem_bytes f) (Z.to_nat off) (mem_bad f));
  FileRead := fun f n => let d := take (Nat.min n 3) (drop (mem_pos f) (mem_bytes f)) in (Z.of_nat (length d), d, mkMem (mem_bytes f) (mem_pos f + length d) (mem_bad f));
  FileWrite := fun f d =>
    let d := take 3 d in
    if match limit with Some m => m <? mem_pos f + length d | None => false end then ((-1)%Z, mkMem (mem_bytes f) (mem_pos f) true)
    else (Z.of_nat (length d), mkMem (overlay (mem_bytes f) (mem_pos f) d) (mem_pos f + length d) (mem_bad f)) |}.
Lemma mem_write_law limit f d r f' : @FileWrite _ (mem_ops limit) f d = (r, f') -> mem_pos f <= length (mem_bytes f) -> d <> [] ->
  (limit <> None /\ mem_bad f' = true /\ (r <= 0)%Z) \/
  (exists n, r = Z.of_nat n /\ 0 < n <= length d /\ mem_bytes f' = overlay (mem_bytes f) (mem_pos f) (take n d) /\ mem_pos f' = mem_pos f + n /\
    (mem_bad f' = true -> mem_bad f = true)).
Proof.
  intros E Hp Hd. set (x := take 3 d).
  change (@FileWrite _ (mem_ops limit) f d) with (if match limit with Some m => m <? mem_pos f + length x | None => false end then ((-1)%Z, mkMem (mem_bytes f) (mem_pos f) true)
    else (Z.of_nat (length x), mkMem (overlay (mem_bytes f) (mem_pos f) x) (mem_pos f + length x) (mem_bad f))) in E.
  assert (Hl : 0 < length d) by (destruct d; [done|cbn; lia]).
  assert (Hx : 0 < length x <= length d) by (unfold x; rewrite length_take; lia).
  assert (Hxd : take (length x) d = x) by (unfold x; rewrite length_take, <- take_take, firstn_all; done).
  destruct (match limit with Some m => _ | None => _ end) eqn:Em; injection E as <- <-; [left; split; [destruct limit; done|split; [done|lia]]|].
  right. exists (length x). rewrite Hxd. done.
Qed.
Program Definition mem_laws (limit : option nat) : @PhysFileLaws memfile (mem_ops limit) :=
  {| ph_bytes := mem_bytes; ph_pos := mem_pos; ph_fails := limit <> None; ph_failed := fun f => mem_bad f = true; ph_write := mem_write_law limit |}.
Next Obligation. done. Qed.
Next Obligation. intros limit f off r f' E. cbn in E. injection E as <- <-. right. cbn. rewrite Nat2Z.id. done. Qed.
Next Obligation.
  intros limit f n r d f' E Hp. cbn in E. injection E as <- <- <-. right. split; [done|]. split; [rewrite length_take; lia|].
  split; [|split; [|done]]; [eexists; symmetry; apply take_drop|]. intros Hn Hl Hd. apply (f_equal length) in Hd. rewrite length_take, length_drop in Hd. cbn in Hd. lia.
Qed.

Lemma buffile_refines_witness : exists b : BufFile memfile,
  @bf_run_all _ (mem_ops None) 8 4
    [FWrite [1; 2; 3; 4; 5; 6; 7; 8; 9; 10]%Z; FSeek 0 6 SEEK_SET; FRead 3; FSeek 0 (-4) SEEK_CUR; FWrite [20; 21; 22; 23; 24]%Z; FSeek 0 (-11) SEEK_CUR; FSeekBlock 2; FRead 9] (@BufFileCreateTemp _ (mem_ops None) 4) =
  Ok ([Wrote 10; Moved true; GotData [7; 8; 9]%Z; Moved true; Wrote 5; Moved false; Moved true; GotData [23; 24]%Z], b) /\ ((BufFileTell b).1 * 8 + (BufFileTell b).2 = 10)%Z.
Proof.
  edestruct (@buffile_refines _ (mem_ops None) (mem_laws None) 8 4) as (b & Hrun & Htell & _); [lia|lia|done|cbn; auto| |exists b; split; [exact Hrun|exact (Htell : _ = Z.of_nat 10)]].
  vm_compute. reflexivity.
Defined.

(** A physical file takes six bytes.  The first write that goes beyond is the fourth call: the three before it are right, and it reports that it wrote less. *)
Definition demo_calls : list bf_op := [FWrite [1; 2; 3]%Z; FSeek 0 1 SEEK_SET; FRead 1; FWrite [1; 2; 3; 4; 5; 6; 7; 8]%Z; FSeekBlock 0].
Definition demo_run (n : nat) : res (list bf_result * BufFile memfile) := @bf_run_all _ (mem_ops (Some 6)) 8 4 (take n demo_calls) (@BufFileCreateTemp _ (mem_ops (Some 6)) 4).
Definition demo_bad (n : nat) : bool := match demo_run n with Ok (_, b) => existsb mem_bad (bf_files b) | Err _ => false end.
Lemma demo_bad_failed n rs b : demo_run n = Ok (rs, b) -> ~ @any_failed _ _ (mem_laws (Some 6)) b -> demo_bad n = false.
Proof.
  intros Hr Hn. unfold demo_bad. rewrite Hr. apply not_true_iff_false. intros Hb. apply Hn, Exists_exists. apply existsb_exists in Hb as (f & Hin & Hf). exists f.
  split; [by apply list_elem_of_In|exact Hf].
Qed.
Lemma buffile_errors_witness : exists b r b', demo_run 3 = Ok ([Wrote 3; Moved true; GotData [2]%Z], b) /\
  @bf_run _ (mem_ops (Some 6)) 8 4 (FWrite [1; 2; 3; 4; 5; 6; 7; 8]%Z) b = Ok (Wrote r, b') /\ r < 8 /\ @any_failed _ _ (mem_laws (Some 6)) b'.
Proof.
  edestruct (@buffile_errors _ (mem_ops (Some 6)) (mem_laws (Some 6)) 8 4 ltac:(lia) ltac:(lia) eq_refl demo_calls) as (k & b & f & Hrun & Hspec & Hnf & Hend); [vm_compute; reflexivity|].
  pose proof (demo_bad_failed k _ b Hrun Hnf) as Hk.
  destruct k as [|[|[|[|k]]]]; [| | | |exfalso; destruct k as [|k]; [vm_compute in Hk; discriminate Hk|unfold demo_bad, demo_run in Hk; rewrite take_ge in Hk by (cbn; lia); vm_compute in Hk; discriminate Hk]]; (destruct Hend as [Hlen|(op & r & b' & Hop & Hr & Hfd & Haf)]; [cbn in Hlen; lia|]); injection Hop as <-.
  - exfalso. vm_compute in Hrun. injection Hrun as <-. vm_compute in Hr. injection Hr as <- <-. cbn in Haf. lia.
  - exfalso. vm_compute in Hrun. injection Hrun as <-. vm_compute in Hr. injection Hr as <- <-. cbn in Haf. discriminate Haf.
  - exfalso. vm_compute in Hrun. injection Hrun as <-. vm_compute in Hr. injection Hr as <- <-. cbn in Haf. destruct Haf as [[?|[? _]] _]; [lia|done].
  - destruct r as [d|n|ok]; [destruct Haf| |destruct Haf]. exists b, n, b'. split; [exact Hrun|]. split; [exact Hr|]. split; [exact Haf|exact Hfd].
Defined.

Lemma buffile_blocks_witness : exists b : BufFile memfile,
  @block_run_all _ (mem_ops None) 8 4 [WriteBlock 0 [1; 2; 3; 4]%Z; WriteBlock 1 [5; 6; 7; 8]%Z; WriteBlock 2 [9; 10; 11; 12]%Z; ReadBlock 1; WriteBlock 1 [0; 0; 0; 0]%Z; ReadBlock 2; ReadBlock 1]
    (@BufFileCreateTemp _ (mem_ops None) 4) = Ok ([[]; []; []; [5; 6; 7; 8]; []; [9; 10; 11; 12]; [0; 0; 0; 0]]%Z, b).
Proof.
  edestruct (@buffile_blocks _ (mem_ops None) (mem_laws None) 8 4) as (b & Hrun); [lia|lia|done|cbn; auto| |exists b; exact Hrun]. vm_compute. reflexivity.
Defined.
