(* ===== verification/Tuplestore.v ===== *)
(** * Tuplestore: temporary storage of tuples (src/backend/utils/sort/tuplestore.c)

    A tuple store takes tuples and hands them out again through any number of read pointers.  The tuples are kept in an array until they take too
    much memory, then in a temporary file, which is switched between writing and reading.  A tuple is what lies behind
    MINIMAL_TUPLE_DATA_OFFSET of a MinimalTuple, as that is what is stored; how much memory a tuple or the array takes is a parameter.  The
    temporary file is any [TempFile]: what buffile.c provides. *)

From S2P Require Import Prelude Tape BufFile.

(** ** Data *)

Inductive TupStoreStatus := TSS_INMEM | TSS_WRITEFILE | TSS_READFILE.
#[export] Instance TupStoreStatus_eq_dec : EqDecision TupStoreStatus.
Proof. solve_decision. Defined.

Abbreviation tup := (list byte) (only parsing).

(** file and offset are [None] until they are set. *)
Record TSReadPointer := mkPtr { rp_eflags : Z; rp_eof : bool; rp_current : nat; rp_where : option (Z * Z) }.

(** memtuples[] holds memtupcount tuples and has room for memtupsize. *)
Record Tuplestorestate (F : Type) := mkStore {
  ts_status : TupStoreStatus;
  ts_eflags : Z;
  ts_backward : bool;
  ts_truncated : bool;
  ts_availMem : Z;
  ts_myfile : option F;
  ts_memtuples : list tup;
  ts_memtupsize : nat;
  ts_readptrs : list TSReadPointer;
  ts_activeptr : nat;
  ts_readptrsize : nat;
  ts_writepos : Z * Z }.
Arguments mkStore {F} ts_status ts_eflags ts_backward ts_truncated ts_availMem ts_myfile ts_memtuples ts_memtupsize ts_readptrs ts_activeptr ts_readptrsize ts_writepos.
Arguments ts_status {F} _.
Arguments ts_eflags {F} _.
Arguments ts_backward {F} _.
Arguments ts_truncated {F} _.
Arguments ts_availMem {F} _.
Arguments ts_myfile {F} _.
Arguments ts_memtuples {F} _.
Arguments ts_memtupsize {F} _.
Arguments ts_readptrs {F} _.
Arguments ts_activeptr {F} _.
Arguments ts_readptrsize {F} _.
Arguments ts_writepos {F} _.

Section code.
Context {F : Type} `{!TempFile F} (GetMemoryChunkSpace : tup -> Z) (array_space : nat -> Z).
Local Abbreviation store := (Tuplestorestate F).
Local Abbreviation SM := (M store).
Implicit Type s : store.

Definition set_ts_status (v : TupStoreStatus) s : store := mkStore v (ts_eflags s) (ts_backward s) (ts_truncated s) (ts_availMem s) (ts_myfile s) (ts_memtuples s) (ts_memtupsize s) (ts_readptrs s) (ts_activeptr s) (ts_readptrsize s) (ts_writepos s).
Definition set_ts_eflags (v : Z) s : store := mkStore (ts_status s) v (ts_backward s) (ts_truncated s) (ts_availMem s) (ts_myfile s) (ts_memtuples s) (ts_memtupsize s) (ts_readptrs s) (ts_activeptr s) (ts_readptrsize s) (ts_writepos s).
Definition set_ts_backward (v : bool) s : store := mkStore (ts_status s) (ts_eflags s) v (ts_truncated s) (ts_availMem s) (ts_myfile s) (ts_memtuples s) (ts_memtupsize s) (ts_readptrs s) (ts_activeptr s) (ts_readptrsize s) (ts_writepos s).
Definition set_ts_truncated (v : bool) s : store := mkStore (ts_status s) (ts_eflags s) (ts_backward s) v (ts_availMem s) (ts_myfile s) (ts_memtuples s) (ts_memtupsize s) (ts_readptrs s) (ts_activeptr s) (ts_readptrsize s) (ts_writepos s).
Definition set_ts_availMem (v : Z) s : store := mkStore (ts_status s) (ts_eflags s) (ts_backward s) (ts_truncated s) v (ts_myfile s) (ts_memtuples s) (ts_memtupsize s) (ts_readptrs s) (ts_activeptr s) (ts_readptrsize s) (ts_writepos s).
Definition set_ts_myfile (v : option F) s : store := mkStore (ts_status s) (ts_eflags s) (ts_backward s) (ts_truncated s) (ts_availMem s) v (ts_memtuples s) (ts_memtupsize s) (ts_readptrs s) (ts_activeptr s) (ts_readptrsize s) (ts_writepos s).
Definition set_ts_memtuples (v : list tup) s : store := mkStore (ts_status s) (ts_eflags s) (ts_backward s) (ts_truncated s) (ts_availMem s) (ts_myfile s) v (ts_memtupsize s) (ts_readptrs s) (ts_activeptr s) (ts_readptrsize s) (ts_writepos s).
Definition set_ts_memtupsize (v : nat) s : store := mkStore (ts_status s) (ts_eflags s) (ts_backward s) (ts_truncated s) (ts_availMem s) (ts_myfile s) (ts_memtuples s) v (ts_readptrs s) (ts_activeptr s) (ts_readptrsize s) (ts_writepos s).
Definition set_ts_readptrs (v : list TSReadPointer) s : store := mkStore (ts_status s) (ts_eflags s) (ts_backward s) (ts_truncated s) (ts_availMem s) (ts_myfile s) (ts_memtuples s) (ts_memtupsize s) v (ts_activeptr s) (ts_readptrsize s) (ts_writepos s).
Definition set_ts_activeptr (v : nat) s : store := mkStore (ts_status s) (ts_eflags s) (ts_backward s) (ts_truncated s) (ts_availMem s) (ts_myfile s) (ts_memtuples s) (ts_memtupsize s) (ts_readptrs s) v (ts_readptrsize s) (ts_writepos s).
Definition set_ts_readptrsize (v : nat) s : store := mkStore (ts_status s) (ts_eflags s) (ts_backward s) (ts_truncated s) (ts_availMem s) (ts_myfile s) (ts_memtuples s) (ts_memtupsize s) (ts_readptrs s) (ts_activeptr s) v (ts_writepos s).
Definition set_ts_writepos (v : Z * Z) s : store := mkStore (ts_status s) (ts_eflags s) (ts_backward s) (ts_truncated s) (ts_availMem s) (ts_myfile s) (ts_memtuples s) (ts_memtupsize s) (ts_readptrs s) (ts_activeptr s) (ts_readptrsize s) v.
Definition ts_USEMEM (z : Z) s : store := set_ts_availMem (ts_availMem s - z) s.
Definition ts_FREEMEM (z : Z) s : store := set_ts_availMem (ts_availMem s + z) s.
Definition ts_LACKMEM s : bool := (ts_availMem s <? 0)%Z.
Definition memtupcount s : nat := length (ts_memtuples s).

(** A call on the temporary file *)
Definition on_file {A} (m : M F A) : SM A :=
  s ← mget;
  f ← deref (ts_myfile s);
  match m f with
  | Ok (a, f) => mput (set_ts_myfile (Some f) s);; mret a
  | Err e => mfail e
  end.
Definition file_tell : SM (Z * Z) := on_file (fun f => Ok (tf_tell f, f)).
Definition file_seek (q : Z * Z) (msg : string) : SM unit := ok ← on_file (tf_seek q.1 q.2 SEEK_SET); if ok : bool then mret tt else mfail (EElog msg).
Definition file_write (d : list byte) : SM unit := n ← on_file (tf_write d); if decide (n = length d) then mret tt else mfail (EElog "write failed").

(** Read pointers *)
Definition get_ptr (i : nat) : SM TSReadPointer := s ← mget; deref (ts_readptrs s !! i).
Definition put_ptr (i : nat) (p : TSReadPointer) : SM unit := mmod (fun s => set_ts_readptrs (<[i := p]> (ts_readptrs s)) s).
Definition active_ptr : SM TSReadPointer := s ← mget; get_ptr (ts_activeptr s).
Definition put_active (p : TSReadPointer) : SM unit := s ← mget; put_ptr (ts_activeptr s) p.
Definition set_eof (v : bool) (p : TSReadPointer) : TSReadPointer := mkPtr (rp_eflags p) v (rp_current p) (rp_where p).
Definition set_rp_current (v : nat) (p : TSReadPointer) : TSReadPointer := mkPtr (rp_eflags p) (rp_eof p) v (rp_where p).
Definition set_where (v : option (Z * Z)) (p : TSReadPointer) : TSReadPointer := mkPtr (rp_eflags p) (rp_eof p) (rp_current p) v.
Definition has_flag (eflags flag : Z) : bool := negb (Z.land eflags flag =? 0)%Z.

(** ** Tuples in the file *)

Definition writetup_heap (t : tup) : SM unit :=
  s ← mget;
  let tuplen := uint32_bytes (Z.of_nat (length t + 4)) in
  file_write tuplen;;
  file_write t;;
  (if ts_backward s then file_write tuplen else mret tt);;
  mmod (ts_FREEMEM (GetMemoryChunkSpace t)).

Definition ts_getlen (eofOK : bool) : SM Z :=
  d ← on_file (tf_read 4);
  if decide (length d = 4) then mret (bytes_uint32 d)
  else if decide (length d <> 0) then mfail (EElog "unexpected end of tape")
  else if negb eofOK then mfail (EElog "unexpected end of data")
  else mret 0%Z.

(** The length is unsigned: one below 4 wraps around. *)
Definition readtup_heap (len : Z) : SM tup :=
  let tupbodylen := Z.to_nat ((len - 4) mod 2 ^ 32) in
  s ← mget;
  t ← on_file (tf_read tupbodylen);
  mmod (ts_USEMEM (GetMemoryChunkSpace t));;
  if decide (length t <> tupbodylen) then mfail (EElog "unexpected end of data")
  else if ts_backward s then
    w ← on_file (tf_read 4);
    if decide (length w <> 4) then mfail (EElog "unexpected end of data") else mret t
  else mret t.

(** ** Setting up *)

Definition tuplestore_begin_common (eflags : Z) (maxKBytes : Z) : store :=
  mkStore TSS_INMEM eflags false false (maxKBytes * 1024 - array_space 1024) None [] 1024 [mkPtr eflags false 0 None] 0 8 (0, 0)%Z.
Definition tuplestore_begin_heap (randomAccess : bool) (maxKBytes : Z) : store :=
  tuplestore_begin_common (if randomAccess then Z.lor EXEC_FLAG_BACKWARD EXEC_FLAG_REWIND else EXEC_FLAG_REWIND) maxKBytes.

Definition or_flags (ps : list TSReadPointer) : Z := foldl Z.lor 0%Z (rp_eflags <$> ps).
Definition has_data s : bool := bool_decide (ts_status s <> TSS_INMEM) || negb (memtupcount s =? 0).
Definition tuplestore_set_eflags (eflags : Z) : SM unit :=
  s ← mget;
  if has_data s then mfail (EElog "too late to call tuplestore_set_eflags")
  else
    p ← get_ptr 0;
    put_ptr 0 (mkPtr eflags (rp_eof p) (rp_current p) (rp_where p));;
    mmod (fun s => set_ts_eflags (foldl Z.lor eflags (rp_eflags <$> tail (ts_readptrs s))) s).

Definition tuplestore_alloc_read_pointer (eflags : Z) : SM nat :=
  s ← mget;
  if has_data s && negb (Z.lor (ts_eflags s) eflags =? ts_eflags s)%Z then mfail (EElog "too late to require new tuplestore eflags")
  else
    (if decide (ts_readptrsize s <= length (ts_readptrs s)) then mmod (set_ts_readptrsize (ts_readptrsize s * 2)) else mret tt);;
    s ← mget;
    p ← get_ptr 0;
    if decide (length (ts_readptrs s) < ts_readptrsize s) then
      mput (set_ts_eflags (Z.lor (ts_eflags s) eflags) (set_ts_readptrs (ts_readptrs s ++ [mkPtr eflags (rp_eof p) (rp_current p) (rp_where p)]) s));;
      mret (length (ts_readptrs s))
    else mfail EUndef.

(** memtuples is never NULL.  BufFileClose only releases. *)
Definition tuplestore_clear s : store :=
  let s := set_ts_myfile None s in
  let s := foldl (fun s t => ts_FREEMEM (GetMemoryChunkSpace t) s) s (ts_memtuples s) in
  let s := set_ts_memtuples [] (set_ts_truncated false (set_ts_status TSS_INMEM s)) in
  set_ts_readptrs ((fun p => set_rp_current 0 (set_eof false p)) <$> ts_readptrs s) s.
(** What is closed and what is freed, besides the store itself *)
Definition tuplestore_end s : option F * list tup := (ts_myfile s, ts_memtuples s).

(** The position of the file is saved in the active pointer. *)
Definition save_active : SM unit := p ← active_ptr; if rp_eof p then mret tt else q ← file_tell; put_active (set_where (Some q) p).
Definition tuplestore_select_read_pointer (ptr : nat) : SM unit :=
  s ← mget;
  Assert (ptr <? length (ts_readptrs s));;
  if decide (ptr = ts_activeptr s) then mret tt
  else
    match ts_status s with
    | TSS_INMEM | TSS_WRITEFILE => mret tt
    | TSS_READFILE =>
      save_active;;
      readptr ← get_ptr ptr;
      if rp_eof readptr then file_seek (ts_writepos s) "tuplestore seek failed"
      else q ← deref (rp_where readptr); file_seek q "tuplestore seek failed"
    end;;
    mmod (set_ts_activeptr ptr).

Definition tuplestore_ateof : SM bool := p ← active_ptr; mret (rp_eof p).
Definition tuplestore_in_memory s : bool := bool_decide (ts_status s = TSS_INMEM).

(** ** Storing *)

(** Pointers at the end that are not active stay where they are, [f] tells where that is. *)
Definition leave_end (f : TSReadPointer -> TSReadPointer) : SM unit :=
  mmod (fun s => set_ts_readptrs (imap (fun i p => if rp_eof p && bool_decide (i <> ts_activeptr s) then f (set_eof false p) else p) (ts_readptrs s)) s).

(** for (i = 0;; i++): the pointers at tuple [i] are put at its place in the file, then it is written. *)
Fixpoint dump_from (i : nat) (ts : list tup) : SM unit :=
  s ← mget;
  q ← file_tell;
  mmod (fun s => set_ts_readptrs ((fun p => if bool_decide (i = rp_current p) && negb (rp_eof p) then set_where (Some q) p else p) <$> ts_readptrs s) s);;
  match ts with
  | [] => mret tt
  | t :: ts => writetup_heap t;; dump_from (S i) ts
  end.
Definition ts_dumptuples : SM unit :=
  s ← mget;
  dump_from 0 (ts_memtuples s);;
  mmod (set_ts_memtuples []).

Definition ts_MaxAllocSize : Z := 0x3fffffff.
Definition grow s : store :=
  if (ts_memtupsize s - 1 <=? memtupcount s) && (8 * Z.of_nat (ts_memtupsize s) <? ts_availMem s)%Z && (Z.of_nat (ts_memtupsize s * 2) <? ts_MaxAllocSize / 8)%Z
  then
    let s := ts_FREEMEM (array_space (ts_memtupsize s)) s in
    let s := set_ts_memtupsize (ts_memtupsize s * 2) s in
    ts_USEMEM (array_space (ts_memtupsize s)) s
  else s.

Definition tuplestore_puttuple_common (t : tup) : SM unit :=
  s ← mget;
  match ts_status s with
  | TSS_INMEM =>
    leave_end (set_rp_current (memtupcount s));;
    mmod grow;;
    s ← mget;
    if decide (memtupcount s < ts_memtupsize s) then
      mput (set_ts_memtuples (ts_memtuples s ++ [t]) s);;
      s ← mget;
      if (memtupcount s <? ts_memtupsize s) && negb (ts_LACKMEM s) then mret tt
      else
        mmod (set_ts_myfile (Some tf_create));;
        mmod (fun s => set_ts_backward (has_flag (ts_eflags s) EXEC_FLAG_BACKWARD) s);;
        mmod (set_ts_status TSS_WRITEFILE);;
        ts_dumptuples
    else mfail EUndef
  | TSS_WRITEFILE =>
    q ← file_tell;
    leave_end (set_where (Some q));;
    writetup_heap t
  | TSS_READFILE =>
    save_active;;
    file_seek (ts_writepos s) "tuplestore seek to EOF failed";;
    mmod (set_ts_status TSS_WRITEFILE);;
    leave_end (set_where (Some (ts_writepos s)));;
    writetup_heap t
  end.
(** From a slot, from a HeapTuple, from values: the tuple that ExecCopySlotMinimalTuple, minimal_tuple_from_heap_tuple or heap_form_minimal_tuple makes *)
Definition tuplestore_puttupleslot (t : tup) : SM unit := mmod (ts_USEMEM (GetMemoryChunkSpace t));; tuplestore_puttuple_common t.
Definition copytup_heap (t : tup) : SM tup := mmod (ts_USEMEM (GetMemoryChunkSpace t));; mret t.
Definition tuplestore_puttuple (t : tup) : SM unit := t ← copytup_heap t; tuplestore_puttuple_common t.
Definition tuplestore_putvalues (t : tup) : SM unit := tuplestore_puttuple_common t.

(** ** Reading *)

Definition get_in_memory (forward : bool) : SM (option tup) :=
  s ← mget;
  p ← active_ptr;
  if forward then
    if rp_eof p then mret None
    else if decide (rp_current p < memtupcount s) then
      t ← deref (ts_memtuples s !! rp_current p);
      put_active (set_rp_current (S (rp_current p)) p);;
      mret (Some t)
    else put_active (set_eof true p);; mret None
  else if negb (rp_eof p) && (rp_current p =? 0) then Assert (negb (ts_truncated s));; mret None
  else
    let p := if rp_eof p then set_eof false (set_rp_current (memtupcount s) p) else set_rp_current (rp_current p - 1) p in
    put_active p;;
    if decide (rp_current p = 0) then Assert (negb (ts_truncated s));; mret None
    else t ← deref (ts_memtuples s !! (rp_current p - 1)); mret (Some t).

Definition seek_cur (off : Z) : SM bool := on_file (tf_seek 0 off SEEK_CUR).
(** Reads the tuple of this length whose end was just read. *)
Definition read_back (tuplen : Z) : SM (option tup) :=
  ok ← seek_cur (- tuplen);
  if negb ok then mfail (EElog "bogus tuple length in backward scan")
  else t ← readtup_heap tuplen; mret (Some t).
Definition get_from_file (forward : bool) : SM (option tup) :=
  if forward then
    tuplen ← ts_getlen true;
    if decide (tuplen <> 0%Z) then t ← readtup_heap tuplen; mret (Some t)
    else p ← active_ptr; put_active (set_eof true p);; mret None
  else
    s ← mget;
    p ← active_ptr;
    ok ← seek_cur (-4);
    if negb ok then put_active (set_eof false p);; Assert (negb (ts_truncated s));; mret None
    else
      tuplen ← ts_getlen false;
      if rp_eof p then put_active (set_eof false p);; read_back tuplen
      else
        ok ← seek_cur (- (tuplen + 8));
        if negb ok then
          ok ← seek_cur (- (tuplen + 4));
          if negb ok then mfail (EElog "bogus tuple length in backward scan") else Assert (negb (ts_truncated s));; mret None
        else tuplen ← ts_getlen false; read_back tuplen.

Definition tuplestore_gettuple (forward : bool) : SM (option tup) :=
  s ← mget;
  p ← active_ptr;
  Assert (forward || has_flag (rp_eflags p) EXEC_FLAG_BACKWARD);;
  match ts_status s with
  | TSS_INMEM => get_in_memory forward
  | TSS_WRITEFILE =>
    if rp_eof p && forward then mret None
    else
      q ← file_tell;
      mmod (set_ts_writepos q);;
      (if rp_eof p then mret tt else q ← deref (rp_where p); file_seek q "tuplestore seek failed");;
      mmod (set_ts_status TSS_READFILE);;
      get_from_file forward
  | TSS_READFILE => get_from_file forward
  end.
(** The tuple goes to a slot, or is thrown away. *)
Definition tuplestore_gettupleslot (forward : bool) : SM (option tup) := tuplestore_gettuple forward.
Definition tuplestore_advance (forward : bool) : SM bool := t ← tuplestore_gettuple forward; mret (bool_decide (is_Some t)).

Definition tuplestore_rescan : SM unit :=
  s ← mget;
  p ← active_ptr;
  Assert (has_flag (rp_eflags p) EXEC_FLAG_REWIND);;
  Assert (negb (ts_truncated s));;
  match ts_status s with
  | TSS_INMEM => put_active (set_rp_current 0 (set_eof false p))
  | TSS_WRITEFILE => put_active (set_where (Some (0, 0)%Z) (set_eof false p))
  | TSS_READFILE => put_active (set_eof false p);; file_seek (0, 0)%Z "tuplestore seek to start failed"
  end.

Definition tuplestore_copy_read_pointer (srcptr destptr : nat) : SM unit :=
  s ← mget;
  Assert (srcptr <? length (ts_readptrs s));;
  Assert (destptr <? length (ts_readptrs s));;
  if decide (srcptr = destptr) then mret tt
  else
    sptr ← get_ptr srcptr;
    dptr ← get_ptr destptr;
    put_ptr destptr sptr;;
    (if decide (rp_eflags dptr <> rp_eflags sptr) then mmod (fun s => set_ts_eflags (or_flags (ts_readptrs s)) s) else mret tt);;
    match ts_status s with
    | TSS_INMEM | TSS_WRITEFILE => mret tt
    | TSS_READFILE =>
      if decide (destptr = ts_activeptr s) then
        if rp_eof sptr then file_seek (ts_writepos s) "tuplestore seek failed"
        else q ← deref (rp_where sptr); file_seek q "tuplestore seek failed"
      else if decide (srcptr = ts_activeptr s) then
        if rp_eof sptr then mret tt else q ← file_tell; put_ptr destptr (set_where (Some q) sptr)
      else mret tt
    end.

(** The oldest read pointer *)
Definition oldest s : nat := foldl (fun o p => if rp_eof p then o else Nat.min o (rp_current p)) (memtupcount s) (ts_readptrs s).
Definition tuplestore_trim : SM unit :=
  s ← mget;
  if has_flag (ts_eflags s) EXEC_FLAG_REWIND then mret tt
  else if decide (ts_status s <> TSS_INMEM) then mret tt
  else
    let nremove := oldest s - 1 in
    if decide (nremove = 0) then mret tt
    else
      Assert (nremove <=? memtupcount s);;
      let s := foldl (fun s t => ts_FREEMEM (GetMemoryChunkSpace t) s) s (take nremove (ts_memtuples s)) in
      let s := set_ts_memtuples (drop nremove (ts_memtuples s)) s in
      let s := set_ts_readptrs ((fun p => if rp_eof p then p else set_rp_current (rp_current p - nremove) p) <$> ts_readptrs s) s in
      mput (set_ts_truncated true s).
End code.

(** ** Tuples as bytes *)

(** What writetup_heap writes *)
Definition encode (bw : bool) (t : tup) : list byte :=
  uint32_bytes (Z.of_nat (length t + 4)) ++ t ++ (if bw then uint32_bytes (Z.of_nat (length t + 4)) else []).
Definition enc (bw : bool) (ts : list tup) : list byte := concat (encode bw <$> ts).
(** Where the [j]th tuple begins *)
Definition pos_of (bw : bool) (ts : list tup) (j : nat) : nat := length (enc bw (take j ts)).
(** Its length is an unsigned int. *)
Definition small (t : tup) : Prop := (Z.of_nat (length t + 4) < 2 ^ 32)%Z.
#[export] Instance small_dec t : Decision (small t).
Proof. unfold small. apply _. Defined.

Section layout.
Context (bw : bool).
Implicit Type ts : list tup.

Lemma enc_app ts ts' : enc bw (ts ++ ts') = enc bw ts ++ enc bw ts'.
Proof. unfold enc. rewrite fmap_app, concat_app. done. Qed.
Lemma enc_one t : enc bw [t] = encode bw t.
Proof. apply app_nil_r. Qed.
Lemma encode_length t : length (encode bw t) = 4 + length t + (if bw then 4 else 0).
Proof. unfold encode. rewrite !length_app. destruct bw; cbn; lia. Qed.

Lemma pos_of_le ts j : pos_of bw ts j <= length (enc bw ts).
Proof. unfold pos_of. rewrite <- (take_drop j ts) at 2. rewrite enc_app, length_app. lia. Qed.
Lemma pos_of_end ts j : length ts <= j -> pos_of bw ts j = length (enc bw ts).
Proof. intros Hj. unfold pos_of. rewrite take_ge by done. done. Qed.
Lemma pos_of_app ts t j : j <= length ts -> pos_of bw (ts ++ [t]) j = pos_of bw ts j.
Proof. intros Hj. unfold pos_of. rewrite take_app_le by done. done. Qed.
Lemma pos_of_S ts j t : ts !! j = Some t -> pos_of bw ts (S j) = pos_of bw ts j + length (encode bw t).
Proof. intros Hj. unfold pos_of. rewrite (take_S_r _ _ _ Hj), enc_app, enc_one, length_app. done. Qed.
(** What is behind the beginning of a tuple *)
Lemma enc_drop ts j : drop (pos_of bw ts j) (enc bw ts) = enc bw (drop j ts).
Proof. rewrite <- (take_drop j ts) at 2. unfold pos_of. rewrite enc_app, drop_app_length. done. Qed.
Lemma enc_at ts j t : ts !! j = Some t -> drop (pos_of bw ts j) (enc bw ts) = encode bw t ++ enc bw (drop (S j) ts).
Proof. intros Hj. rewrite enc_drop, (drop_S _ _ _ Hj), <- enc_one, <- enc_app. done. Qed.
End layout.

Lemma uint32_length z : length (uint32_bytes z) = 4.
Proof. done. Qed.
Lemma len_word t : small t -> bytes_uint32 (uint32_bytes (Z.of_nat (length t + 4))) = Z.of_nat (length t + 4).
Proof. intros Hs. apply uint32_roundtrip. unfold small in Hs. lia. Qed.

(** ** Calls on the file *)

Section file.
Context {F : Type} `{!TempFile F} `{!TempFileLaws F} (GetMemoryChunkSpace : tup -> Z).
Implicit Type s : Tuplestorestate F.

(** Only the file and the account of memory differ. *)
Definition moved s (f : F) (a : Z) : Tuplestorestate F := set_ts_availMem a (set_ts_myfile (Some f) s).

Lemma moved_id s f : ts_myfile s = Some f -> moved s f (ts_availMem s) = s.
Proof. destruct s. cbn. intros ->. done. Qed.
Lemma on_file_ok {A} (m : M F A) s f a f' : ts_myfile s = Some f -> m f = Ok (a, f') -> on_file m s = Ok (a, moved s f' (ts_availMem s)).
Proof. intros Hf Hm. unfold on_file. rewrite mget_ok, Hf. unfold mbind at 1, M_bind at 1, deref. rewrite Hm. done. Qed.
Lemma file_tell_ok s f : ts_myfile s = Some f -> file_tell s = Ok (tf_tell f, s).
Proof. intros Hf. unfold file_tell. rewrite (on_file_ok _ _ f _ _ Hf eq_refl), moved_id by done. done. Qed.

Lemma file_seek_ok s f E p q n msg : ts_myfile s = Some f -> tf_rep f E p -> tf_place q n -> n <= length E ->
  exists f', file_seek q msg s = Ok (tt, moved s f' (ts_availMem s)) /\ tf_rep f' E n.
Proof.
  intros Hf Hr Hq Hn. destruct (tf_seek_set f E p q n Hr Hq Hn) as (f' & He & Hr'). exists f'. split; [|done].
  unfold file_seek. rewrite (mbind_ok _ _ _ _ _ (on_file_ok _ _ _ _ _ Hf He)). done.
Qed.
Lemma file_write_ok s f E d : ts_myfile s = Some f -> tf_rep f E (length E) ->
  exists f', file_write d s = Ok (tt, moved s f' (ts_availMem s)) /\ tf_rep f' (E ++ d) (length (E ++ d)).
Proof.
  intros Hf Hr. destruct (tf_write_ok f E _ d Hr) as (f' & He & Hr'). exists f'. rewrite overlay_end in Hr'. rewrite length_app. split; [|done].
  unfold file_write. rewrite (mbind_ok _ _ _ _ _ (on_file_ok _ _ _ _ _ Hf He)). rewrite decide_True by done. done.
Qed.
Lemma seek_cur_ok s f E p off n : ts_myfile s = Some f -> tf_rep f E p -> (Z.of_nat p + off = Z.of_nat n)%Z -> n <= length E ->
  exists f', seek_cur off s = Ok (true, moved s f' (ts_availMem s)) /\ tf_rep f' E n.
Proof.
  intros Hf Hr Ho Hn. destruct (tf_seek_cur f E p off n Hr Ho Hn) as (f' & He & Hr'). exists f'. split; [|done]. exact (on_file_ok _ _ _ _ _ Hf He).
Qed.
Lemma seek_cur_before s f E p off : ts_myfile s = Some f -> tf_rep f E p -> (Z.of_nat p + off < 0)%Z -> seek_cur off s = Ok (false, s).
Proof.
  intros Hf Hr Ho. unfold seek_cur. rewrite (on_file_ok _ _ _ _ _ Hf (tf_seek_before f E p off Hr Ho)), moved_id by done. done.
Qed.

Lemma store_writetup_ok s f ts t : ts_myfile s = Some f -> tf_rep f (enc (ts_backward s) ts) (length (enc (ts_backward s) ts)) ->
  exists f' a, writetup_heap GetMemoryChunkSpace t s = Ok (tt, moved s f' a) /\ tf_rep f' (enc (ts_backward s) (ts ++ [t])) (length (enc (ts_backward s) (ts ++ [t]))).
Proof.
  intros Hf Hr. unfold writetup_heap. rewrite mget_ok. rewrite !enc_app, !enc_one. unfold encode.
  destruct (file_write_ok s f _ (uint32_bytes (Z.of_nat (length t + 4))) Hf Hr) as (f1 & H1 & Hr1). rewrite (mbind_ok _ _ _ _ _ H1).
  destruct (file_write_ok (moved s f1 (ts_availMem s)) f1 _ t eq_refl Hr1) as (f2 & H2 & Hr2). rewrite (mbind_ok _ _ _ _ _ H2). rewrite <- app_assoc in Hr2.
  destruct (ts_backward s).
  - destruct (file_write_ok (moved s f2 (ts_availMem s)) f2 _ (uint32_bytes (Z.of_nat (length t + 4))) eq_refl Hr2) as (f3 & H3 & Hr3).
    change (moved (moved s f1 _) f2 _) with (moved s f2 (ts_availMem s)). rewrite (mbind_ok _ _ _ _ _ H3). rewrite <- !app_assoc in Hr3. exists f3. eexists. split; [reflexivity|done].
  - rewrite app_nil_r. exists f2. eexists. split; [reflexivity|done].
Qed.

Lemma file_read_ok s f E p d rest : ts_myfile s = Some f -> tf_rep f E p -> drop p E = d ++ rest ->
  exists f', on_file (tf_read (length d)) s = Ok (d, moved s f' (ts_availMem s)) /\ tf_rep f' E (p + length d).
Proof.
  intros Hf Hr Hd. destruct (tf_read_ok f E p (length d) Hr) as (f' & He & Hr'). rewrite Hd, take_app_length in He, Hr'. exists f'. split; [|done].
  exact (on_file_ok _ _ _ _ _ Hf He).
Qed.
Lemma getlen_ok s f E p t rest eofOK : ts_myfile s = Some f -> tf_rep f E p -> small t -> drop p E = uint32_bytes (Z.of_nat (length t + 4)) ++ rest ->
  exists f', ts_getlen eofOK s = Ok (Z.of_nat (length t + 4), moved s f' (ts_availMem s)) /\ tf_rep f' E (p + 4).
Proof.
  intros Hf Hr Hs Hd. destruct (file_read_ok s f E p _ rest Hf Hr Hd) as (f' & He & Hr'). exists f'. split; [|done].
  unfold ts_getlen. change 4 with (length (uint32_bytes (Z.of_nat (length t + 4)))) at 1. rewrite (mbind_ok _ _ _ _ _ He), decide_True by done. rewrite len_word by done. done.
Qed.
Lemma getlen_end s f E : ts_myfile s = Some f -> tf_rep f E (length E) -> exists f', ts_getlen true s = Ok (0%Z, moved s f' (ts_availMem s)) /\ tf_rep f' E (length E).
Proof.
  intros Hf Hr. destruct (tf_read_ok f E _ 4 Hr) as (f' & He & Hr'). rewrite drop_ge in He, Hr' by done. cbn in He, Hr'. rewrite Nat.add_0_r in Hr'.
  exists f'. split; [|done]. unfold ts_getlen. rewrite (mbind_ok _ _ _ _ _ (on_file_ok _ _ _ _ _ Hf He)). done.
Qed.
Lemma readtup_ok s f E p t rest : ts_myfile s = Some f -> tf_rep f E p -> small t ->
  drop p E = t ++ (if ts_backward s then uint32_bytes (Z.of_nat (length t + 4)) else []) ++ rest ->
  exists f' a, readtup_heap GetMemoryChunkSpace (Z.of_nat (length t + 4)) s = Ok (t, moved s f' a) /\ tf_rep f' E (p + length t + if ts_backward s then 4 else 0).
Proof.
  intros Hf Hr Hs Hd. destruct (file_read_ok s f E p _ _ Hf Hr Hd) as (f1 & H1 & Hr1). unfold readtup_heap. rewrite mget_ok.
  assert (Hlen : Z.to_nat ((Z.of_nat (length t + 4) - 4) mod 2 ^ 32) = length t) by (unfold small in Hs; rewrite Z.mod_small; lia).
  rewrite Hlen, (mbind_ok _ _ _ _ _ H1), mmod_ok, decide_False by auto. destruct (ts_backward s) eqn:Eb.
  - assert (Hd2 : drop (p + length t) E = uint32_bytes (Z.of_nat (length t + 4)) ++ rest) by (rewrite <- drop_drop, Hd, drop_app_length; done).
    destruct (file_read_ok (ts_USEMEM (GetMemoryChunkSpace t) (moved s f1 (ts_availMem s))) f1 E _ _ _ eq_refl Hr1 Hd2) as (f2 & H2 & Hr2). exists f2.
    change 4 with (length (uint32_bytes (Z.of_nat (length t + 4)))) at 1. rewrite (mbind_ok _ _ _ _ _ H2), decide_False by auto. eexists. split; [reflexivity|done].
  - exists f1. eexists. split; [reflexivity|]. rewrite Nat.add_0_r. done.
Qed.

(** ** A store of tuples in a file *)

Context (ts : list tup) (Hsmall : Forall small ts).

Lemma forward_ok s f j t : ts_myfile s = Some f -> tf_rep f (enc (ts_backward s) ts) (pos_of (ts_backward s) ts j) -> ts !! j = Some t ->
  exists f' a, get_from_file GetMemoryChunkSpace true s = Ok (Some t, moved s f' a) /\ tf_rep f' (enc (ts_backward s) ts) (pos_of (ts_backward s) ts (S j)).
Proof.
  intros Hf Hr Hj. pose proof (Forall_lookup_1 _ _ _ _ Hsmall Hj) as Hs. set (bw := ts_backward s) in *. pose proof (enc_at bw ts j t Hj) as Hat.
  unfold encode in Hat. rewrite <- !app_assoc in Hat. destruct (getlen_ok s f _ _ t _ true Hf Hr Hs Hat) as (f1 & H1 & Hr1).
  assert (Hd : drop (pos_of bw ts j + 4) (enc bw ts) = t ++ (if bw then uint32_bytes (Z.of_nat (length t + 4)) else []) ++ enc bw (drop (S j) ts)).
  { rewrite <- drop_drop, Hat. change 4 with (length (uint32_bytes (Z.of_nat (length t + 4)))) at 1. rewrite drop_app_length. done. }
  destruct (readtup_ok (moved s f1 (ts_availMem s)) f1 _ _ t _ eq_refl Hr1 Hs Hd) as (f2 & a & H2 & Hr2). change (ts_backward (moved s f1 _)) with bw in Hr2.
  exists f2, a. split; [|rewrite (pos_of_S _ _ _ _ Hj), encode_length; eapply eq_rect; [exact Hr2|lia]].
  unfold get_from_file. rewrite (mbind_ok _ _ _ _ _ H1), decide_True by lia. rewrite (mbind_ok _ _ _ _ _ H2). done.
Qed.

(** Backwards, over the length words at the ends *)
Lemma back_len s f p j t off : ts_myfile s = Some f -> ts_backward s = true -> tf_rep f (enc true ts) p -> ts !! j = Some t ->
  (Z.of_nat p + off = Z.of_nat (pos_of true ts (S j)) - 4)%Z ->
  exists f' f'', seek_cur off s = Ok (true, moved s f' (ts_availMem s)) /\
    ts_getlen false (moved s f' (ts_availMem s)) = Ok (Z.of_nat (length t + 4), moved s f'' (ts_availMem s)) /\ tf_rep f'' (enc true ts) (pos_of true ts (S j)).
Proof.
  intros Hf Hb Hr Hj Hoff. pose proof (Forall_lookup_1 _ _ _ _ Hsmall Hj) as Hs. pose proof (pos_of_S true ts j t Hj) as Hpos. rewrite encode_length in Hpos.
  pose proof (pos_of_le true ts (S j)) as Hle. set (n := pos_of true ts j + (4 + length t)).
  destruct (seek_cur_ok s f _ p off n Hf Hr) as (f' & H1 & Hr1); [lia|lia|].
  assert (Hd : drop n (enc true ts) = uint32_bytes (Z.of_nat (length t + 4)) ++ enc true (drop (S j) ts)).
  { unfold n. rewrite <- drop_drop, (enc_at _ _ _ _ Hj). unfold encode. rewrite (app_assoc _ t), <- app_assoc. apply drop_app_length'. rewrite length_app. done. }
  destruct (getlen_ok (moved s f' (ts_availMem s)) f' _ _ t _ false eq_refl Hr1 Hs Hd) as (f'' & H2 & Hr2).
  exists f', f''. split; [done|]. split; [done|]. replace (pos_of true ts (S j)) with (n + 4) by lia. done.
Qed.
Lemma read_back_ok s f j t : ts_myfile s = Some f -> ts_backward s = true -> tf_rep f (enc true ts) (pos_of true ts (S j)) -> ts !! j = Some t ->
  exists f' a, read_back GetMemoryChunkSpace (Z.of_nat (length t + 4)) s = Ok (Some t, moved s f' a) /\ tf_rep f' (enc true ts) (pos_of true ts (S j)).
Proof.
  intros Hf Hb Hr Hj. pose proof (Forall_lookup_1 _ _ _ _ Hsmall Hj) as Hs. pose proof (pos_of_S true ts j t Hj) as Hpos. rewrite encode_length in Hpos.
  pose proof (pos_of_le true ts (S j)) as Hle. destruct (seek_cur_ok s f _ _ (- Z.of_nat (length t + 4)) (pos_of true ts j + 4) Hf Hr) as (f1 & H1 & Hr1); [lia|lia|].
  assert (Hd : drop (pos_of true ts j + 4) (enc true ts) = t ++ uint32_bytes (Z.of_nat (length t + 4)) ++ enc true (drop (S j) ts)).
  { rewrite <- drop_drop, (enc_at _ _ _ _ Hj). unfold encode. rewrite <- !app_assoc. apply drop_app_length'. done. }
  destruct (readtup_ok (moved s f1 (ts_availMem s)) f1 _ _ t (enc true (drop (S j) ts)) eq_refl Hr1 Hs) as (f2 & a & H2 & Hr2); [cbn; rewrite Hb; done|].
  exists f2, a. unfold read_back. rewrite (mbind_ok _ _ _ _ _ H1). cbn [negb]. rewrite (mbind_ok _ _ _ _ _ H2). split; [done|].
  cbn in Hr2. rewrite Hb in Hr2. replace (pos_of true ts (S j)) with (pos_of true ts j + 4 + length t + 4) by lia. done.
Qed.

Definition with_ptr s (p : TSReadPointer) : Tuplestorestate F := set_ts_readptrs (<[ts_activeptr s := p]> (ts_readptrs s)) s.
Lemma put_active_ok s p : put_active p s = Ok (tt, with_ptr s p).
Proof. done. Qed.

Lemma backward_start s f p : ts_myfile s = Some f -> tf_rep f (enc true ts) 0 -> active_ptr s = Ok (p, s) -> ts_truncated s = false ->
  get_from_file GetMemoryChunkSpace false s = Ok (None, with_ptr s (set_eof false p)).
Proof.
  intros Hf Hr Hp Ht. unfold get_from_file. rewrite mget_ok, (mbind_ok _ _ _ _ _ Hp), (mbind_ok _ _ _ _ _ (seek_cur_before s f _ 0 (-4) Hf Hr ltac:(lia))). cbn [negb].
  rewrite (mbind_ok _ _ _ _ _ (put_active_ok _ _)), Assert_ok by (rewrite Ht; done). done.
Qed.
Lemma backward_from_end s f p j t : ts_myfile s = Some f -> ts_backward s = true -> tf_rep f (enc true ts) (pos_of true ts (S j)) -> active_ptr s = Ok (p, s) -> ts !! j = Some t ->
  rp_eof p = true ->
  exists f' a, get_from_file GetMemoryChunkSpace false s = Ok (Some t, moved (with_ptr s (set_eof false p)) f' a) /\ tf_rep f' (enc true ts) (pos_of true ts (S j)).
Proof.
  intros Hf Hb Hr Hp Hj He. destruct (back_len s f _ j t (-4) Hf Hb Hr Hj ltac:(lia)) as (f1 & f2 & H1 & H2 & Hr2).
  unfold get_from_file. rewrite mget_ok, (mbind_ok _ _ _ _ _ Hp), (mbind_ok _ _ _ _ _ H1). cbn [negb]. rewrite (mbind_ok _ _ _ _ _ H2), He.
  rewrite (mbind_ok _ _ _ _ _ (put_active_ok _ _)). set (s2 := with_ptr (moved s f2 _) _).
  destruct (read_back_ok s2 f2 j t eq_refl Hb Hr2 Hj) as (f3 & a & H3 & Hr3). exists f3, a. split; [exact H3|done].
Qed.
Lemma backward_first s f p t : ts_myfile s = Some f -> ts_backward s = true -> tf_rep f (enc true ts) (pos_of true ts 1) -> active_ptr s = Ok (p, s) -> ts !! 0 = Some t ->
  rp_eof p = false -> ts_truncated s = false ->
  exists f' a, get_from_file GetMemoryChunkSpace false s = Ok (None, moved s f' a) /\ tf_rep f' (enc true ts) 0.
Proof.
  intros Hf Hb Hr Hp Hj He Ht. destruct (back_len s f _ 0 t (-4) Hf Hb Hr Hj ltac:(lia)) as (f1 & f2 & H1 & H2 & Hr2).
  pose proof (pos_of_S true ts 0 t Hj) as Hpos. rewrite encode_length in Hpos. change (pos_of true ts 0) with 0 in Hpos.
  unfold get_from_file. rewrite mget_ok, (mbind_ok _ _ _ _ _ Hp), (mbind_ok _ _ _ _ _ H1). cbn [negb]. rewrite (mbind_ok _ _ _ _ _ H2), He. set (s2 := moved s f2 _).
  rewrite (mbind_ok _ _ _ _ _ (seek_cur_before s2 f2 _ _ (- (Z.of_nat (length t + 4) + 8)) eq_refl Hr2 ltac:(lia))). cbn [negb].
  destruct (seek_cur_ok s2 f2 _ _ (- (Z.of_nat (length t + 4) + 4)) 0 eq_refl Hr2) as (f3 & H3 & Hr3); [lia|lia|]. rewrite (mbind_ok _ _ _ _ _ H3). cbn [negb].
  rewrite Assert_ok by (rewrite Ht; done). exists f3, (ts_availMem s). split; [reflexivity|done].
Qed.
Lemma backward_ok s f p j t t' : ts_myfile s = Some f -> ts_backward s = true -> tf_rep f (enc true ts) (pos_of true ts (S (S j))) -> active_ptr s = Ok (p, s) ->
  ts !! j = Some t -> ts !! S j = Some t' -> rp_eof p = false ->
  exists f' a, get_from_file GetMemoryChunkSpace false s = Ok (Some t, moved s f' a) /\ tf_rep f' (enc true ts) (pos_of true ts (S j)).
Proof.
  intros Hf Hb Hr Hp Hj Hj' He. destruct (back_len s f _ (S j) t' (-4) Hf Hb Hr Hj' ltac:(lia)) as (f1 & f2 & H1 & H2 & Hr2).
  pose proof (pos_of_S true ts (S j) t' Hj') as Hpos. rewrite encode_length in Hpos.
  unfold get_from_file. rewrite mget_ok, (mbind_ok _ _ _ _ _ Hp), (mbind_ok _ _ _ _ _ H1). cbn [negb]. rewrite (mbind_ok _ _ _ _ _ H2), He. set (s2 := moved s f2 _).
  destruct (back_len s2 f2 _ j t (- (Z.of_nat (length t' + 4) + 8)) eq_refl Hb Hr2 Hj ltac:(lia)) as (f3 & f4 & H3 & H4 & Hr4).
  rewrite (mbind_ok _ _ _ _ _ H3). cbn [negb]. rewrite (mbind_ok _ _ _ _ _ H4).
  destruct (read_back_ok (moved s2 f4 (ts_availMem s2)) f4 j t eq_refl Hb Hr4 Hj) as (f5 & a & H5 & Hr5). exists f5, a. split; [exact H5|done].
Qed.
End file.
