(* ===== verification/StoreSpec.v ===== *)
(** * StoreSpec: what a tuple store promises, and that tuplestore.c keeps it

    The specification: all tuples that were stored, in order, and read pointers that stand between them or are at the end.  It
    does not tell whether the tuples are in memory or in a file, nor whether tuples were removed by tuplestore_trim: it has a
    number of tuples that may have been removed. *)

From S2P Require Import Prelude Tape BufFile Tuplestore.

(** ** The specification *)

(** A pointer at the end has no position of its own. *)
Record aptr := mkA { a_eflags : Z; a_eof : bool; a_pos : nat }.
Record astore := mkAS { a_tuples : list tup; a_ptrs : list aptr; a_active : nat; a_floor : nat }.

Inductive ts_op := OPutSlot (t : tup) | OPut (t : tup) | OPutValues (t : tup) | OGet (forward : bool) | OAdvance (forward : bool) | OSelect (i : nat) | OAtEof | ORescan
  | OCopy (src dest : nat) | OTrim | OClear | OSetFlags (eflags : Z) | OAlloc (eflags : Z).
Inductive ts_result := Done | GotTuple (t : option tup) | Answer (b : bool) | Pointer (i : nat).

Definition a_flags (a : astore) : Z := foldl Z.lor 0%Z (a_eflags <$> a_ptrs a).
Definition a_set_ptr (i : nat) (p : aptr) (a : astore) : astore := mkAS (a_tuples a) (<[i := p]> (a_ptrs a)) (a_active a) (a_floor a).

Definition a_put (t : tup) (a : astore) : astore :=
  mkAS (a_tuples a ++ [t]) (imap (fun i p => if a_eof p && bool_decide (i <> a_active a) then mkA (a_eflags p) false (length (a_tuples a)) else p) (a_ptrs a)) (a_active a) (a_floor a).

Definition a_get (forward : bool) (a : astore) : option (option tup * astore) :=
  p ← a_ptrs a !! a_active a;
  if forward then
    if a_eof p then Some (None, a)
    else match a_tuples a !! a_pos p with
      | Some t => Some (Some t, a_set_ptr (a_active a) (mkA (a_eflags p) false (S (a_pos p))) a)
      | None => Some (None, a_set_ptr (a_active a) (mkA (a_eflags p) true (a_pos p)) a)
      end
  else if has_flag (a_eflags p) EXEC_FLAG_BACKWARD then
    let q := if a_eof p then length (a_tuples a) else a_pos p - 1 in
    if decide (0 < a_floor a /\ q <= a_floor a) then None
    else Some (if decide (q = 0) then None else a_tuples a !! (q - 1), a_set_ptr (a_active a) (mkA (a_eflags p) false q) a)
  else None.

(** The oldest position of a pointer *)
Definition a_oldest (a : astore) : nat := foldl (fun o p => if a_eof p then o else Nat.min o (a_pos p)) (length (a_tuples a)) (a_ptrs a).

(** No answer for what is not allowed: backwards or to the start for a pointer without that capability or where tuples may have been
    removed, flags that come too late, pointers that are not there.  A new pointer is where pointer 0 is; once there are tuples that needs pointer 0 to be at the
    end or not to be the active one. *)
Definition ts_spec (op : ts_op) (a : astore) : option (ts_result * astore) :=
  match op with
  | OPutSlot t | OPut t | OPutValues t => if decide (small t) then Some (Done, a_put t a) else None
  | OGet forward => '(t, a) ← a_get forward a; Some (GotTuple t, a)
  | OAdvance forward => '(t, a) ← a_get forward a; Some (Answer (bool_decide (is_Some t)), a)
  | OSelect i => if decide (i < length (a_ptrs a)) then Some (Done, mkAS (a_tuples a) (a_ptrs a) i (a_floor a)) else None
  | OAtEof => p ← a_ptrs a !! a_active a; Some (Answer (a_eof p), a)
  | ORescan => p ← a_ptrs a !! a_active a; if has_flag (a_eflags p) EXEC_FLAG_REWIND && (a_floor a =? 0) then Some (Done, a_set_ptr (a_active a) (mkA (a_eflags p) false 0) a) else None
  | OCopy src dest => p ← a_ptrs a !! src; _ ← a_ptrs a !! dest; Some (Done, a_set_ptr dest p a)
  | OTrim => Some (Done, if has_flag (a_flags a) EXEC_FLAG_REWIND then a else mkAS (a_tuples a) (a_ptrs a) (a_active a) (Nat.max (a_floor a) (a_oldest a - 1)))
  | OClear => Some (Done, mkAS [] ((fun p => mkA (a_eflags p) false 0) <$> a_ptrs a) (a_active a) 0)
  | OSetFlags eflags => p ← a_ptrs a !! 0; if decide (a_tuples a = []) then Some (Done, a_set_ptr 0 (mkA eflags (a_eof p) (a_pos p)) a) else None
  | OAlloc eflags =>
    p ← a_ptrs a !! 0;
    if bool_decide (a_tuples a = []) || ((Z.lor (a_flags a) eflags =? a_flags a)%Z && (a_eof p || negb (a_active a =? 0)))
    then Some (Pointer (length (a_ptrs a)), mkAS (a_tuples a) (a_ptrs a ++ [mkA eflags (a_eof p) (a_pos p)]) (a_active a) (a_floor a))
    else None
  end.

(** The calls of tuplestore.c *)
Section run.
Context {F : Type} `{!TempFile F} (chunk_space : tup -> Z) (array_space : nat -> Z).
Definition ts_run (op : ts_op) : M (Tuplestorestate F) ts_result :=
  match op with
  | OPutSlot t => tuplestore_puttupleslot chunk_space array_space t;; mret Done
  | OPut t => tuplestore_puttuple chunk_space array_space t;; mret Done
  | OPutValues t => tuplestore_putvalues chunk_space array_space t;; mret Done
  | OGet forward => t ← tuplestore_gettupleslot chunk_space forward; mret (GotTuple t)
  | OAdvance forward => b ← tuplestore_advance chunk_space forward; mret (Answer b)
  | OSelect i => tuplestore_select_read_pointer i;; mret Done
  | OAtEof => b ← tuplestore_ateof; mret (Answer b)
  | ORescan => tuplestore_rescan;; mret Done
  | OCopy src dest => tuplestore_copy_read_pointer src dest;; mret Done
  | OTrim => tuplestore_trim chunk_space;; mret Done
  | OClear => mmod (tuplestore_clear chunk_space);; mret Done
  | OSetFlags eflags => tuplestore_set_eflags eflags;; mret Done
  | OAlloc eflags => i ← tuplestore_alloc_read_pointer eflags; mret (Pointer i)
  end.
Fixpoint ts_run_all (ops : list ts_op) : M (Tuplestorestate F) (list ts_result) :=
  match ops with
  | [] => mret []
  | op :: ops => r ← ts_run op; rs ← ts_run_all ops; mret (r :: rs)
  end.
End run.
Fixpoint ts_spec_all (ops : list ts_op) (a : astore) : option (list ts_result * astore) :=
  match ops with
  | [] => Some ([], a)
  | op :: ops => '(r, a) ← ts_spec op a; '(rs, a) ← ts_spec_all ops a; Some (r :: rs, a)
  end.
Definition a_begin (randomAccess : bool) : astore :=
  mkAS [] [mkA (if randomAccess then Z.lor EXEC_FLAG_BACKWARD EXEC_FLAG_REWIND else EXEC_FLAG_REWIND) false 0] 0 0.

(** ** An invariant of the specification *)

Record a_ok (a : astore) : Prop := {
  ao_active : a_active a < length (a_ptrs a);
  ao_pos : forall i p, a_ptrs a !! i = Some p -> a_eof p = false -> a_pos p <= length (a_tuples a) /\ (0 < a_floor a -> a_floor a < a_pos p);
  ao_floor : 0 < a_floor a -> a_floor a < length (a_tuples a);
  ao_small : Forall small (a_tuples a) }.




(** The least of the positions that count *)
Lemma fold_min {A} (e : A -> bool) (g : A -> nat) l : forall n,
  let m := foldl (fun o p => if e p then o else Nat.min o (g p)) n l in
  m <= n /\ forall i p, l !! i = Some p -> e p = false -> m <= g p.
Proof.
  induction l as [|x l IH]; intros n; cbn; [split; [done|intros i p Hi; done]|].
  destruct (IH (if e x then n else Nat.min n (g x))) as [H1 H2]. split.
  - destruct (e x); lia.
  - intros [|i] p Hi He; [injection Hi as ->; rewrite He in *; lia|eauto].
Qed.

Section a_invariant.
Context (a : astore) (Ha : a_ok a).

Lemma a_set_ptr_ok i p : (a_eof p = false -> a_pos p <= length (a_tuples a) /\ (0 < a_floor a -> a_floor a < a_pos p)) -> a_ok (a_set_ptr i p a).
Proof using Ha.
  intros Hp. destruct Ha as [H1 H2 H3 H4]. split; cbn; [rewrite length_insert; done| |done|done].
  intros j q Hj Hq. destruct (decide (i = j)) as [<-|Hne]; [|rewrite list_lookup_insert_ne in Hj by done; eauto].
  destruct (decide (i < length (a_ptrs a))) as [Hlt|Hge].
  - rewrite list_lookup_insert_eq in Hj by done. injection Hj as <-. auto.
  - rewrite list_insert_ge in Hj by lia. eauto.
Qed.
Lemma a_get_ok forward t a' : a_get forward a = Some (t, a') -> a_ok a'.
Proof using Ha.
  intros E. unfold a_get in E. destruct (a_ptrs a !! a_active a) as [p|] eqn:Ep; [|discriminate E]. cbn in E. pose proof Ha as [H1 H2 H3 H4]. destruct forward.
  - destruct (a_eof p) eqn:Ee; [injection E as <- <-; done|]. destruct (H2 _ _ Ep Ee) as [Hle Hfl].
    destruct (a_tuples a !! a_pos p) as [x|] eqn:Ex; injection E as <- <-; apply a_set_ptr_ok; cbn; [|discriminate]. intros _. apply lookup_lt_Some in Ex. lia.
  - destruct (has_flag _ _); [|discriminate E]. case_decide as Hd; [discriminate E|]. injection E as <- <-. apply a_set_ptr_ok. cbn. intros _.
    destruct (a_eof p) eqn:Ee; [lia|]. destruct (H2 _ _ Ep Ee) as [Hle Hfl]. lia.
Qed.
Lemma a_put_ok t : small t -> a_ok (a_put t a).
Proof using Ha.
  intros Ht. destruct Ha as [H1 H2 H3 H4]. split; cbn.
  - rewrite length_imap. done.
  - intros i p Hi He. rewrite length_app. cbn. rewrite list_lookup_imap in Hi. destruct (a_ptrs a !! i) as [q|] eqn:Eq; [|discriminate Hi]. injection Hi as <-.
    destruct (a_eof q) eqn:Ee; cbn [andb] in *; [|destruct (H2 _ _ Eq Ee); lia]. case_bool_decide; [cbn; lia|congruence].
  - rewrite length_app. lia.
  - apply Forall_app. auto.
Qed.
Lemma a_trim_ok : a_ok (mkAS (a_tuples a) (a_ptrs a) (a_active a) (Nat.max (a_floor a) (a_oldest a - 1))).
Proof using Ha.
  destruct Ha as [H1 H2 H3 H4]. destruct (fold_min a_eof a_pos (a_ptrs a) (length (a_tuples a))) as [Hle Hmin]. fold (a_oldest a) in Hle, Hmin.
  split; cbn; [done| |lia|done]. intros i p Hi He. destruct (H2 _ _ Hi He). pose proof (Hmin _ _ Hi He). lia.
Qed.

Lemma a_ok_step op r a' : ts_spec op a = Some (r, a') -> a_ok a'.
Proof using Ha.
  intros E. pose proof Ha as [H1 H2 H3 H4]. destruct op as [t|t|t|fw|fw|i| | |src dest| | |fl|fl]; cbn [ts_spec] in E.
  1-3: case_decide; [|discriminate E]; injection E as <- <-; apply a_put_ok; done.
  1-2: destruct (a_get fw a) as [[t a1]|] eqn:Eg; [|discriminate E]; injection E as <- <-; eapply a_get_ok; exact Eg.
  - case_decide; [|discriminate E]. injection E as <- <-. split; done.
  - destruct (a_ptrs a !! a_active a); [|discriminate E]. injection E as <- <-. done.
  - destruct (a_ptrs a !! a_active a); [|discriminate E]. cbn in E. destruct (_ && _) eqn:Ef; [|discriminate E]. injection E as <- <-. apply a_set_ptr_ok. cbn.
    apply andb_prop in Ef as [_ Ef]. apply Nat.eqb_eq in Ef. lia.
  - destruct (a_ptrs a !! src) as [p|] eqn:Es; [|discriminate E]. cbn in E. destruct (a_ptrs a !! dest); [|discriminate E]. injection E as <- <-. apply a_set_ptr_ok. eauto.
  - injection E as <- <-. destruct (has_flag _ _); [done|]. apply a_trim_ok.
  - injection E as <- <-. split; cbn; [rewrite length_fmap; done| |lia|done]. intros i p Hi _. rewrite list_lookup_fmap in Hi.
    destruct (a_ptrs a !! i); [|discriminate Hi]. injection Hi as <-. cbn. lia.
  - destruct (a_ptrs a !! 0) as [p|] eqn:Es; [|discriminate E]. cbn in E. case_decide; [|discriminate E]. injection E as <- <-. apply a_set_ptr_ok. cbn. intros He. exact (H2 _ _ Es He).
  - destruct (a_ptrs a !! 0) as [p|] eqn:Es; [|discriminate E]. cbn in E. destruct (_ || _); [|discriminate E]. injection E as <- <-. split; cbn; [rewrite length_app; lia| |done|done].
    intros i q Hi He. apply lookup_app_Some in Hi as [Hi|[_ Hi]]; [eauto|]. apply list_lookup_singleton_Some in Hi as [_ <-]. exact (H2 _ _ Es He).
Qed.
End a_invariant.

(** ** Flags *)

Lemma has_flag_lor x y f : has_flag (Z.lor x y) f = has_flag x f || has_flag y f.
Proof.
  unfold has_flag. rewrite Z.land_lor_distr_l. destruct (Z.eqb_spec (Z.lor (Z.land x f) (Z.land y f)) 0) as [E|E].
  - apply Z.lor_eq_0_iff in E as [-> ->]. done.
  - destruct (Z.eqb_spec (Z.land x f) 0) as [E1|]; [|done]. destruct (Z.eqb_spec (Z.land y f) 0) as [E2|]; [|done]. rewrite E1, E2 in E. done.
Qed.
Lemma has_flag_fold l f : forall x, has_flag (foldl Z.lor x l) f = has_flag x f || existsb (fun y => has_flag y f) l.
Proof. induction l as [|y l IH]; intros x; cbn; [rewrite orb_false_r; done|]. rewrite IH, has_flag_lor, orb_assoc. done. Qed.
Lemma a_flags_spec a f : has_flag (a_flags a) f = true <-> exists i p, a_ptrs a !! i = Some p /\ has_flag (a_eflags p) f = true.
Proof.
  unfold a_flags. rewrite has_flag_fold. change (has_flag 0 f) with false. cbn [orb]. rewrite existsb_exists. split.
  - intros (y & Hy & Hf). apply list_elem_of_In, list_elem_of_fmap in Hy as (p & -> & Hp). apply list_elem_of_lookup in Hp as [i Hi]. eauto.
  - intros (i & p & Hi & Hf). exists (a_eflags p). split; [|done]. apply list_elem_of_In, list_elem_of_fmap. exists p. split; [done|]. eapply list_elem_of_lookup_2. exact Hi.
Qed.

(** ** Pointers *)

(** Pointers that stand for those of the specification; [good] is about the position, when it counts. *)
Definition ptrs_ok (good : nat -> TSReadPointer -> nat -> Prop) (ps : list TSReadPointer) (qs : list aptr) : Prop :=
  length ps = length qs /\
  forall i p q, ps !! i = Some p -> qs !! i = Some q -> rp_eflags p = a_eflags q /\ rp_eof p = a_eof q /\ (a_eof q = false -> good i p (a_pos q)).

Section pointers.
Context (good : nat -> TSReadPointer -> nat -> Prop) (ps : list TSReadPointer) (qs : list aptr) (H : ptrs_ok good ps qs).

Lemma ptrs_lookup i q : qs !! i = Some q -> exists p, ps !! i = Some p /\ rp_eflags p = a_eflags q /\ rp_eof p = a_eof q /\ (a_eof q = false -> good i p (a_pos q)).
Proof using H.
  intros Hq. destruct H as [Hl Hi]. destruct (lookup_lt_is_Some_2 ps i) as [p Hp]; [rewrite Hl; eapply lookup_lt_Some; exact Hq|]. exists p. split; [done|]. eauto.
Qed.
Lemma ptrs_flags : rp_eflags <$> ps = a_eflags <$> qs.
Proof using H.
  destruct H as [Hl Hi]. apply list_eq. intros i. rewrite !list_lookup_fmap. destruct (ps !! i) as [p|] eqn:Ep, (qs !! i) as [q|] eqn:Eq; cbn; [|exfalso|exfalso|done].
  - f_equal. eapply Hi; done.
  - apply lookup_lt_Some in Ep. apply lookup_ge_None_1 in Eq. lia.
  - apply lookup_lt_Some in Eq. apply lookup_ge_None_1 in Ep. lia.
Qed.
Lemma ptrs_weaken (good' : nat -> TSReadPointer -> nat -> Prop) :
  (forall i p q, qs !! i = Some q -> a_eof q = false -> good i p (a_pos q) -> good' i p (a_pos q)) -> ptrs_ok good' ps qs.
Proof using H. intros Hw. destruct H as [Hl Hi]. split; [done|]. intros i p q Hp Hq. destruct (Hi i p q Hp Hq) as (H1 & H2 & H3). split_and!; eauto. Qed.
Lemma ptrs_insert (good' : nat -> TSReadPointer -> nat -> Prop) i p q : rp_eflags p = a_eflags q -> rp_eof p = a_eof q -> (a_eof q = false -> good' i p (a_pos q)) ->
  (forall j p q, i <> j -> qs !! j = Some q -> a_eof q = false -> good j p (a_pos q) -> good' j p (a_pos q)) -> ptrs_ok good' (<[i := p]> ps) (<[i := q]> qs).
Proof using H.
  intros H1 H2 H3 Hw. destruct H as [Hl Hi]. split; [rewrite !length_insert; done|]. intros j p' q' Hp Hq. destruct (decide (i = j)) as [<-|Hne].
  - assert (Hlt : i < length ps) by (apply lookup_lt_Some in Hp; rewrite length_insert in Hp; done).
    rewrite list_lookup_insert_eq in Hp by done. rewrite list_lookup_insert_eq in Hq by lia. injection Hp as <-. injection Hq as <-. done.
  - rewrite list_lookup_insert_ne in Hp by done. rewrite list_lookup_insert_ne in Hq by done. destruct (Hi j p' q' Hp Hq) as (? & ? & ?). split_and!; eauto.
Qed.
Lemma ptrs_app p q : rp_eflags p = a_eflags q -> rp_eof p = a_eof q -> (a_eof q = false -> good (length ps) p (a_pos q)) -> ptrs_ok good (ps ++ [p]) (qs ++ [q]).
Proof using H.
  intros H1 H2 H3. destruct H as [Hl Hi]. split; [rewrite !length_app; cbn; lia|]. intros j p' q' Hp Hq.
  apply lookup_app_Some in Hp as [Hp|[Hge Hp]]; apply lookup_app_Some in Hq as [Hq|[Hge' Hq]].
  - eauto.
  - apply lookup_lt_Some in Hp. lia.
  - apply lookup_lt_Some in Hq. lia.
  - apply list_lookup_singleton_Some in Hp as [Hj <-]. apply list_lookup_singleton_Some in Hq as [_ <-]. replace j with (length ps) by lia. done.
Qed.
(** Pointers that are left behind by a new tuple, at [n] *)
Lemma ptrs_leave (good' : nat -> TSReadPointer -> nat -> Prop) act n f : (forall p, rp_eflags (f p) = rp_eflags p /\ rp_eof (f p) = rp_eof p) ->
  (forall i p, i <> act -> good' i (f (set_eof false p)) n) -> (forall i p q, qs !! i = Some q -> a_eof q = false -> good i p (a_pos q) -> good' i p (a_pos q)) ->
  ptrs_ok good' (imap (fun i p => if rp_eof p && bool_decide (i <> act) then f (set_eof false p) else p) ps)
    (imap (fun i q => if a_eof q && bool_decide (i <> act) then mkA (a_eflags q) false n else q) qs).
Proof using H.
  intros Hf Hn Hw. destruct H as [Hl Hi]. split; [rewrite !length_imap; done|]. intros i p' q' Hp Hq. rewrite list_lookup_imap in Hp. rewrite list_lookup_imap in Hq.
  destruct (ps !! i) as [p|] eqn:Ep; [|discriminate Hp]. destruct (qs !! i) as [q|] eqn:Eq; [|discriminate Hq]. injection Hp as <-. injection Hq as <-.
  destruct (Hi i p q Ep Eq) as (H1 & H2 & H3). rewrite H2. destruct (a_eof q) eqn:Ee; cbn [andb]; [|split_and!; eauto].
  case_bool_decide as Hne; [|split_and!; [done|congruence|rewrite Ee; done]]. destruct (Hf (set_eof false p)) as [-> ->]. split_and!; auto.
Qed.
End pointers.

(** ** The state of tuplestore.c and the specification *)

Section refinement.
Context {F : Type} `{!TempFile F} `{!TempFileLaws F} (chunk_space : tup -> Z) (array_space : nat -> Z).
Implicit Types (s : Tuplestorestate F) (a : astore).

(** [r] tuples were removed. *)
Record common (r : nat) s a : Prop := {
  cm_removed : r <= a_floor a;
  cm_ok : a_ok a;
  cm_flags : ts_eflags s = a_flags a;
  cm_active : ts_activeptr s = a_active a;
  cm_truncated : ts_truncated s = bool_decide (0 < r);
  cm_room : 0 < ts_memtupsize s;
  cm_readptrs : length (a_ptrs a) <= ts_readptrsize s }.
Record in_mem (r : nat) s a : Prop := {
  im_status : ts_status s = TSS_INMEM;
  im_tuples : ts_memtuples s = drop r (a_tuples a);
  im_room : length (ts_memtuples s) < ts_memtupsize s;
  im_ptrs : ptrs_ok (fun _ p k => rp_current p = k - r) (ts_readptrs s) (a_ptrs a) }.
(** file and offset of a pointer are those of tuple [j]. *)
Definition where_ok (bw : bool) (l : list tup) (p : TSReadPointer) (j : nat) : Prop := exists q, rp_where p = Some q /\ tf_place q (pos_of bw l j).
Record in_file (r : nat) s a : Prop := {
  if_tuples : a_tuples a <> [];
  if_memory : ts_memtuples s = [];
  if_backward : has_flag (a_flags a) EXEC_FLAG_BACKWARD = true -> ts_backward s = true }.
Record writing (r : nat) s a : Prop := {
  wr_status : ts_status s = TSS_WRITEFILE;
  wr_file : exists f, ts_myfile s = Some f /\ tf_rep f (enc (ts_backward s) (drop r (a_tuples a))) (length (enc (ts_backward s) (drop r (a_tuples a))));
  wr_ptrs : ptrs_ok (fun _ p k => where_ok (ts_backward s) (drop r (a_tuples a)) p (k - r)) (ts_readptrs s) (a_ptrs a) }.
(** The position of the active pointer is that of the file. *)
Definition file_pos (bw : bool) (r : nat) a : nat :=
  match a_ptrs a !! a_active a with
  | Some q => if a_eof q then length (enc bw (drop r (a_tuples a))) else pos_of bw (drop r (a_tuples a)) (a_pos q - r)
  | None => 0
  end.
Record reading (r : nat) s a : Prop := {
  rd_status : ts_status s = TSS_READFILE;
  rd_file : exists f, ts_myfile s = Some f /\ tf_rep f (enc (ts_backward s) (drop r (a_tuples a))) (file_pos (ts_backward s) r a);
  rd_writepos : tf_place (ts_writepos s) (length (enc (ts_backward s) (drop r (a_tuples a))));
  rd_ptrs : ptrs_ok (fun i p k => i <> a_active a -> where_ok (ts_backward s) (drop r (a_tuples a)) p (k - r)) (ts_readptrs s) (a_ptrs a) }.

Definition R s a : Prop := exists r, common r s a /\ (in_mem r s a \/ in_file r s a /\ (writing r s a \/ reading r s a)).

Lemma removed_le r s a : common r s a -> r <= length (a_tuples a).
Proof. intros [H1 [_ _ H2 _]]. destruct (decide (0 < a_floor a)) as [Hf|Hf]; [specialize (H2 Hf)|]; lia. Qed.
Lemma removed_pos r s a i q : common r s a -> a_ptrs a !! i = Some q -> a_eof q = false -> r <= a_pos q <= length (a_tuples a).
Proof.
  intros [H1 [_ H2 _ _]] Hq He. destruct (H2 i q Hq He) as [Hp Hf]. destruct (decide (0 < a_floor a)) as [H0|H0]; [specialize (Hf H0)|]; lia.
Qed.
Lemma active_lookup r s a : common r s a -> exists q, a_ptrs a !! a_active a = Some q.
Proof. intros [_ [H _ _ _]]. destruct (lookup_lt_is_Some_2 _ _ H) as [q Hq]. eauto. Qed.

(** The account of memory does not matter. *)
Lemma R_avail s a z : R s a -> R (set_ts_availMem z s) a.
Proof.
  intros (r & [C1 C2 C3 C4 C5 C6 C7] & H). exists r. split; [split; done|]. destruct H as [[M1 M2 M3 M4]|[[F1 F2 F3] [[W1 W2 W3]|[R1 R2 R3 R4]]]].
  - left. split; done.
  - right. split; [split; done|left; split; done].
  - right. split; [split; done|right; split; done].
Qed.

(** *** Storing *)

Lemma a_flags_put t a : a_flags (a_put t a) = a_flags a.
Proof.
  unfold a_flags. f_equal. apply list_eq. intros i. rewrite !list_lookup_fmap. cbn. rewrite list_lookup_imap. destruct (a_ptrs a !! i) as [q|]; [|done]. cbn.
  destruct (_ && _); done.
Qed.
Lemma common_put r s s' a t : common r s a -> small t -> ts_eflags s' = ts_eflags s -> ts_activeptr s' = ts_activeptr s -> ts_truncated s' = ts_truncated s ->
  0 < ts_memtupsize s' -> ts_readptrsize s' = ts_readptrsize s -> common r s' (a_put t a).
Proof.
  intros [C1 C2 C3 C4 C5 C6 C7] Ht H1 H2 H3 H4 H5. split; [done|apply a_put_ok; done|rewrite a_flags_put; congruence|cbn; congruence|congruence|done|]. cbn. rewrite length_imap. lia.
Qed.
Lemma drop_put r s a t : common r s a -> drop r (a_tuples (a_put t a)) = drop r (a_tuples a) ++ [t].
Proof. intros C. cbn. apply drop_app_le. eapply removed_le. exact C. Qed.

(** Switching to the file *)
Definition dumped (bw : bool) (L : list tup) (i : nat) (p p' : TSReadPointer) : Prop :=
  rp_eflags p' = rp_eflags p /\ rp_eof p' = rp_eof p /\ rp_current p' = rp_current p /\
  (rp_eof p = false -> if decide (i <= rp_current p <= length L) then where_ok bw L p' (rp_current p) else rp_where p' = rp_where p).

Lemma dump_from_ok L bw ts : forall i s f, ts_backward s = bw -> ts_myfile s = Some f -> tf_rep f (enc bw (take i L)) (length (enc bw (take i L))) -> drop i L = ts -> i <= length L ->
  exists f' z ps', dump_from chunk_space i ts s = Ok (tt, moved (set_ts_readptrs ps' s) f' z) /\ tf_rep f' (enc bw L) (length (enc bw L)) /\
    Forall2 (dumped bw L i) (ts_readptrs s) ps'.
Proof.
  induction ts as [|t ts IH]; intros i s f Hb Hf Hr Hd Hi; cbn [dump_from]; rewrite mget_ok, (mbind_ok _ _ _ _ _ (file_tell_ok s f Hf)), mmod_ok.
  - apply (f_equal length) in Hd as Hl. rewrite length_drop in Hl. cbn in Hl. assert (Hil : i = length L) by lia. rewrite take_ge in Hr by lia.
    exists f, (ts_availMem s). eexists. split; [symmetry; unfold mret, M_ret; do 2 f_equal; exact (moved_id (set_ts_readptrs _ s) f Hf)|]. split; [done|].
    apply Forall2_fmap_r, Forall_Forall2_diag, Forall_forall. intros p _. split_and!; try (destruct (_ && _); done). intros He. rewrite He. case_bool_decide as Hc; cbn [andb negb].
    + rewrite decide_True by lia. eexists. split; [reflexivity|]. rewrite pos_of_end by lia. eapply tf_tell_place. exact Hr.
    + rewrite decide_False by lia. done.
  - assert (Ht : L !! i = Some t) by (rewrite <- (Nat.add_0_r i), <- lookup_drop, Hd; done). pose proof (lookup_lt_Some _ _ _ Ht).
    set (s1 := set_ts_readptrs _ s). assert (Hr1 : tf_rep f (enc (ts_backward s1) (take i L)) (length (enc (ts_backward s1) (take i L)))) by (cbn; rewrite Hb; done).
    destruct (store_writetup_ok chunk_space s1 f (take i L) t Hf Hr1) as (f1 & z1 & H1 & Hr2). rewrite (mbind_ok _ _ _ _ _ H1).
    rewrite <- (take_S_r _ _ _ Ht) in Hr2. cbn in Hr2. rewrite Hb in Hr2.
    destruct (IH (S i) (moved s1 f1 z1) f1 Hb eq_refl Hr2) as (f2 & z2 & ps' & H2 & Hr3 & Hps); [rewrite (drop_S _ _ _ Ht) in Hd; injection Hd as ->; done|lia|].
    exists f2, z2, ps'. split; [rewrite H2; done|]. split; [done|]. cbn in Hps. rewrite Forall2_fmap_l in Hps. eapply Forall2_impl; [exact Hps|]. cbn. intros p p' (H4 & H5 & H6 & H7).
    case_bool_decide as Hc; cbn [andb] in *; [|split_and!; try done; intros He; specialize (H7 He); repeat case_decide; try lia; done].
    destruct (rp_eof p) eqn:Ee; cbn [negb] in *; [split_and!; done || congruence|]. cbn in H4, H5, H6, H7. split_and!; [done|congruence|done|]. intros _. specialize (H7 Ee).
    rewrite decide_True by lia. rewrite decide_False in H7 by lia. eexists. split; [exact H7|]. rewrite <- Hc. eapply tf_tell_place. exact Hr.
Qed.
Lemma dumped_ptrs bw L r ps ps' qs : ptrs_ok (fun _ p k => rp_current p = k - r) ps qs -> Forall2 (dumped bw L 0) ps ps' ->
  (forall i q, qs !! i = Some q -> a_eof q = false -> a_pos q - r <= length L) -> ptrs_ok (fun _ p k => where_ok bw L p (k - r)) ps' qs.
Proof.
  intros [Hl Hi] HF Hle. split; [rewrite <- (Forall2_length _ _ _ HF); done|]. intros i p' q Hp Hq. destruct (Forall2_lookup_r _ _ _ _ _ HF Hp) as (p & Hp0 & H1 & H2 & H3 & H4).
  destruct (Hi i p q Hp0 Hq) as (G1 & G2 & G3). split_and!; [congruence|congruence|]. intros He. rewrite <- (G3 He). specialize (H4 ltac:(congruence)).
  rewrite decide_True in H4; [done|]. rewrite (G3 He). specialize (Hle i q Hq He). lia.
Qed.

Lemma grow_eq s : exists n z, grow array_space s = set_ts_memtupsize n (set_ts_availMem z s) /\ ts_memtupsize s <= n.
Proof.
  unfold grow. destruct (_ && _).
  - eexists _, _. split; [reflexivity|]. cbn. lia.
  - exists (ts_memtupsize s), (ts_availMem s). split; [destruct s; done|done].
Qed.

Lemma put_in_memory r s a t : common r s a -> in_mem r s a -> small t ->
  exists s', tuplestore_puttuple_common chunk_space array_space t s = Ok (tt, s') /\ R s' (a_put t a).
Proof.
  intros C [M1 M2 M3 M4] Ht. unfold tuplestore_puttuple_common. rewrite mget_ok, M1. unfold leave_end. rewrite !mmod_ok. set (ps := imap _ _).
  assert (Hps : ptrs_ok (fun _ p k => rp_current p = k - r) ps (a_ptrs (a_put t a))).
  { unfold ps. rewrite (cm_active _ _ _ C). apply (ptrs_leave _ _ _ M4); [done| |done]. intros i p _. cbn. unfold memtupcount. rewrite M2, length_drop. done. }
  clearbody ps. destruct (grow_eq (set_ts_readptrs ps s)) as (n & z & -> & Hn). rewrite mget_ok. cbn in Hn. rewrite decide_True by (unfold memtupcount; cbn; lia).
  rewrite mput_ok, mget_ok. set (s3 := set_ts_memtuples _ _). pose proof (cm_room _ _ _ C) as Hroom.
  assert (C3 : forall s', ts_eflags s' = ts_eflags s -> ts_activeptr s' = ts_activeptr s -> ts_truncated s' = ts_truncated s -> 0 < ts_memtupsize s' ->
    ts_readptrsize s' = ts_readptrsize s -> common r s' (a_put t a)) by (intros s' **; apply (common_put r s); done).
  assert (Htup : ts_memtuples s3 = drop r (a_tuples (a_put t a))) by (rewrite (drop_put _ _ _ _ C); cbn; rewrite M2; done).
  destruct (_ && _) eqn:Eroom.
  { exists s3. split; [done|]. exists r. split; [apply C3; done || (cbn; lia)|]. left. apply andb_prop in Eroom as [Hlt _]. apply Nat.ltb_lt in Hlt. split; done. }
  rewrite !mmod_ok. unfold ts_dumptuples. rewrite mget_ok. set (s4 := set_ts_status _ _). set (bw := has_flag (ts_eflags s3) EXEC_FLAG_BACKWARD).
  destruct (dump_from_ok (ts_memtuples s4) bw (ts_memtuples s4) 0 s4 tf_create eq_refl eq_refl) as (f' & z' & ps' & Hrun & Hr & HF); [exact tf_create_rep|apply drop_0|lia|].
  rewrite (mbind_ok _ _ _ _ _ Hrun). eexists. split; [reflexivity|]. exists r. split; [apply C3; done || (cbn; lia)|]. right. change (ts_memtuples s4) with (ts_memtuples s3) in *.
  split; [split; [cbn; destruct (a_tuples a); done|done|]|left; split; [done| |]].
  - intros Hb. cbn. unfold bw. cbn. rewrite (cm_flags _ _ _ C), <- (a_flags_put t a). done.
  - exists f'. split; [done|]. cbn. rewrite Htup in Hr. exact Hr.
  - cbn. rewrite Htup in HF. apply (dumped_ptrs _ _ _ _ _ _ Hps HF). intros i q Hq He. rewrite length_drop.
    pose proof (removed_pos r _ _ i q (C3 s ltac:(done) ltac:(done) ltac:(done) Hroom ltac:(done)) Hq He). lia.
Qed.

Lemma where_ok_app bw l t p j : j <= length l -> where_ok bw l p j -> where_ok bw (l ++ [t]) p j.
Proof. intros Hj (q & H1 & H2). exists q. rewrite pos_of_app by done. done. Qed.

(** A tuple is added to the file: the pointers that stay are at [n], the end. *)
Lemma put_in_file r s a t q f : common r s a -> in_file r s a -> small t -> ts_status s = TSS_WRITEFILE ->
  ts_myfile s = Some f -> tf_rep f (enc (ts_backward s) (drop r (a_tuples a))) (length (enc (ts_backward s) (drop r (a_tuples a)))) ->
  tf_place q (length (enc (ts_backward s) (drop r (a_tuples a)))) ->
  ptrs_ok (fun _ p k => where_ok (ts_backward s) (drop r (a_tuples a)) p (k - r)) (ts_readptrs s) (a_ptrs a) ->
  exists s', (leave_end (set_where (Some q));; writetup_heap chunk_space t) s = Ok (tt, s') /\ R s' (a_put t a).
Proof.
  intros C [F1 F2 F3] Ht Hst Hf Hr Hq Hps. unfold leave_end. rewrite mmod_ok. set (s1 := set_ts_readptrs _ s).
  destruct (store_writetup_ok chunk_space s1 f _ t Hf Hr) as (f' & z & Hrun & Hr'). exists (moved s1 f' z). split; [exact Hrun|]. exists r.
  split; [apply (common_put r s); done || apply C|]. right. split; [split; [cbn; destruct (a_tuples a); done|done|rewrite a_flags_put; done]|]. left.
  pose proof (removed_le _ _ _ C) as Hle. split; [done| |].
  - exists f'. split; [done|]. rewrite (drop_put _ _ _ _ C). exact Hr'.
  - rewrite (drop_put _ _ _ _ C). cbn [ts_readptrs ts_backward moved s1 set_ts_readptrs set_ts_availMem set_ts_myfile]. rewrite (cm_active _ _ _ C).
    apply (ptrs_leave _ _ _ Hps); [done| |].
    + intros i p _. eexists. split; [reflexivity|]. rewrite pos_of_app, pos_of_end by (rewrite length_drop; lia). done.
    + intros i p k Hk He Hw. pose proof (removed_pos _ _ _ i k C Hk He). apply where_ok_app; [rewrite length_drop; lia|done].
Qed.

Lemma active_ok good r s a : common r s a -> ptrs_ok good (ts_readptrs s) (a_ptrs a) ->
  exists p q, a_ptrs a !! a_active a = Some q /\ ts_readptrs s !! ts_activeptr s = Some p /\ active_ptr s = Ok (p, s) /\
    rp_eflags p = a_eflags q /\ rp_eof p = a_eof q /\ (a_eof q = false -> good (a_active a) p (a_pos q)).
Proof.
  intros C Hps. destruct (active_lookup _ _ _ C) as [q Hq]. destruct (ptrs_lookup _ _ _ Hps _ _ Hq) as (p & Hp & H1 & H2 & H3). exists p, q. rewrite <- (cm_active _ _ _ C) in Hp.
  split_and!; try done. unfold active_ptr, get_ptr. rewrite !mget_ok, Hp. done.
Qed.
Lemma file_pos_eq bw r a q : a_ptrs a !! a_active a = Some q ->
  file_pos bw r a = if a_eof q then length (enc bw (drop r (a_tuples a))) else pos_of bw (drop r (a_tuples a)) (a_pos q - r).
Proof. intros Hq. unfold file_pos. rewrite Hq. done. Qed.

Lemma save_active_ok r s a : common r s a -> reading r s a ->
  exists ps, save_active s = Ok (tt, set_ts_readptrs ps s) /\ ptrs_ok (fun _ p k => where_ok (ts_backward s) (drop r (a_tuples a)) p (k - r)) ps (a_ptrs a).
Proof.
  intros C [R1 (f & Hf & Hr) R3 R4]. destruct (active_ok _ _ _ _ C R4) as (p & q & Hq & Hp & Hact & H1 & H2 & _). unfold save_active. rewrite (mbind_ok _ _ _ _ _ Hact).
  rewrite (file_pos_eq _ _ _ _ Hq) in Hr. destruct (rp_eof p) eqn:Ee.
  - exists (ts_readptrs s). split; [destruct s; done|]. apply (ptrs_weaken _ _ _ R4). intros i p' q' Hq' He' Hw. apply Hw. intros ->. congruence.
  - rewrite (mbind_ok _ _ _ _ _ (file_tell_ok s f Hf)). eexists. split; [reflexivity|]. rewrite (cm_active _ _ _ C). rewrite <- (list_insert_id (a_ptrs a) _ q Hq).
    rewrite <- H2 in Hr. apply (ptrs_insert _ _ _ R4); [done|cbn; congruence| |].
    + intros _. eexists. split; [reflexivity|]. eapply tf_tell_place. exact Hr.
    + intros j p' q' Hne Hq' _ Hw. auto.
Qed.

Lemma put_ok s a t : R s a -> small t -> exists s', tuplestore_puttuple_common chunk_space array_space t s = Ok (tt, s') /\ R s' (a_put t a).
Proof.
  intros (r & C & [Hm|[Hfile [[W1 (f & Hf & Hr) W3]|Hrd]]]) Ht; [eapply put_in_memory; done| |].
  - unfold tuplestore_puttuple_common. rewrite mget_ok, W1, (mbind_ok _ _ _ _ _ (file_tell_ok s f Hf)). eapply put_in_file; try done. eapply tf_tell_place. exact Hr.
  - destruct (save_active_ok r s a C Hrd) as (ps & Hsave & Hps). destruct Hrd as [R1 (f & Hf & Hr) R3 R4].
    unfold tuplestore_puttuple_common. rewrite mget_ok, R1, (mbind_ok _ _ _ _ _ Hsave).
    destruct (file_seek_ok (set_ts_readptrs ps s) f _ _ _ _ "tuplestore seek to EOF failed" Hf Hr R3 ltac:(done)) as (f' & Hseek & Hr'). rewrite (mbind_ok _ _ _ _ _ Hseek), mmod_ok.
    set (s2 := set_ts_status _ _). apply (put_in_file r s2 a t (ts_writepos s) f'); try done; [destruct C; split; done|destruct Hfile; split; done].
Qed.

(** *** Reading *)

Lemma a_flags_set_ptr i q q' a : a_ptrs a !! i = Some q -> a_eflags q' = a_eflags q -> a_flags (a_set_ptr i q' a) = a_flags a.
Proof.
  intros Hq He. unfold a_flags. cbn. rewrite list_fmap_insert, He, list_insert_id; [done|]. rewrite list_lookup_fmap, Hq. done.
Qed.
Lemma common_set_ptr r s s' a i q q' : common r s a -> a_ptrs a !! i = Some q -> a_eflags q' = a_eflags q -> a_ok (a_set_ptr i q' a) ->
  ts_eflags s' = ts_eflags s -> ts_activeptr s' = ts_activeptr s -> ts_truncated s' = ts_truncated s -> ts_memtupsize s' = ts_memtupsize s -> ts_readptrsize s' = ts_readptrsize s ->
  common r s' (a_set_ptr i q' a).
Proof.
  intros [C1 C2 C3 C4 C5 C6 C7] Hq He Hok H1 H2 H3 H4 H5. split; [done|done|rewrite (a_flags_set_ptr _ q) by done; congruence|cbn; congruence|congruence|lia|]. cbn. rewrite length_insert. lia.
Qed.
Lemma with_ptr_id s p : ts_readptrs s !! ts_activeptr s = Some p -> with_ptr s p = s.
Proof. intros Hp. unfold with_ptr. rewrite list_insert_id by done. destruct s. done. Qed.

Lemma R_mem_ptr r s a q q' p : common r s a -> in_mem r s a -> a_ptrs a !! a_active a = Some q -> a_eflags q' = a_eflags q -> a_ok (a_set_ptr (a_active a) q' a) ->
  rp_eflags p = a_eflags q -> rp_eof p = a_eof q' -> (a_eof q' = false -> rp_current p = a_pos q' - r) -> R (with_ptr s p) (a_set_ptr (a_active a) q' a).
Proof.
  intros C [M1 M2 M3 M4] Hq He Hok H1 H2 H3. exists r. split; [eapply common_set_ptr; done|]. left. split; try done. cbn. rewrite (cm_active _ _ _ C).
  apply (ptrs_insert _ _ _ M4); [congruence|done|done|done].
Qed.
Lemma get_mem_ok r s a fw t a' : common r s a -> in_mem r s a -> a_get fw a = Some (t, a') -> exists s', get_in_memory fw s = Ok (t, s') /\ R s' a'.
Proof.
  intros C Hm E. pose proof (a_get_ok a (cm_ok _ _ _ C) fw t a' E) as Hok. pose proof Hm as [M1 M2 M3 M4].
  destruct (active_ok _ _ _ _ C M4) as (p & q & Hq & Hp & Hact & H1 & H2 & H3). unfold a_get in E. rewrite Hq in E. cbn in E.
  unfold get_in_memory. rewrite mget_ok, (mbind_ok _ _ _ _ _ Hact), H2. pose proof (removed_le _ _ _ C) as Hrl.
  assert (Hcount : memtupcount s = length (a_tuples a) - r) by (unfold memtupcount; rewrite M2, length_drop; done).
  assert (Hlook : forall k, r <= k -> ts_memtuples s !! (k - r) = a_tuples a !! k) by (intros k Hk; rewrite M2, lookup_drop; f_equal; lia). destruct fw.
  - destruct (a_eof q) eqn:Ee; [injection E as <- <-; exists s; split; [done|]; exists r; auto|]. specialize (H3 eq_refl). destruct (removed_pos _ _ _ _ _ C Hq Ee) as [Hge Hle].
    destruct (a_tuples a !! a_pos q) as [x|] eqn:Ex; injection E as <- <-.
    + pose proof (lookup_lt_Some _ _ _ Ex). rewrite decide_True by lia. rewrite H3, (Hlook _ Hge), Ex. eexists. split; [reflexivity|].
      apply (R_mem_ptr r s a q); try done. intros _. cbn. lia.
    + apply lookup_ge_None_1 in Ex. rewrite decide_False by lia. eexists. split; [reflexivity|]. apply (R_mem_ptr r s a q); done.
  - destruct (has_flag _ _); [|discriminate E]. case_decide as Hleg; [discriminate E|]. injection E as <- <-. pose proof (cm_removed _ _ _ C) as Hfl.
    assert (Hstart : forall k, k - r = 0 -> r <= k -> ~ (0 < a_floor a /\ k <= a_floor a) -> k = 0 /\ ts_truncated s = false).
    { intros k Hk Hrk Hl. rewrite (cm_truncated _ _ _ C). assert (r = 0) by lia. subst r. split; [lia|done]. }
    destruct (a_eof q) eqn:Ee; cbn [negb andb].
    + cbn [rp_current set_eof set_rp_current]. rewrite Hcount. eexists. split; [|apply (R_mem_ptr r s a q _ (set_eof false (set_rp_current (length (a_tuples a) - r) p))); done].
      destruct (decide (length (a_tuples a) - r = 0)) as [Hz|Hz].
      * destruct (Hstart _ Hz Hrl Hleg) as [Hk Ht]. rewrite Ht, (decide_True (P := length (a_tuples a) = 0)) by done. reflexivity.
      * rewrite decide_False by lia. replace (length (a_tuples a) - r - 1) with (length (a_tuples a) - 1 - r) by lia. rewrite Hlook by lia.
        destruct (lookup_lt_is_Some_2 (a_tuples a) (length (a_tuples a) - 1)) as [x Hx]; [lia|]. rewrite Hx. reflexivity.
    + specialize (H3 eq_refl). destruct (removed_pos _ _ _ _ _ C Hq Ee) as [Hge Hle]. destruct (Nat.eqb_spec (rp_current p) 0) as [Hz|Hz].
      * destruct (ao_pos _ (cm_ok _ _ _ C) _ _ Hq Ee) as [_ Hfp]. assert (Hf0 : a_floor a = 0) by lia. assert (r = 0) by lia. subst r.
        rewrite (cm_truncated _ _ _ C). exists s. replace (a_pos q - 1) with 0 in * by lia. split; [reflexivity|].
        rewrite <- (with_ptr_id s p Hp). apply (R_mem_ptr 0 s a q); done.
      * cbn [rp_current set_rp_current]. eexists. split; [|apply (R_mem_ptr r s a q _ (set_rp_current (rp_current p - 1) p)); try done; intros _; cbn; lia].
        destruct (decide (rp_current p - 1 = 0)) as [Hz1|Hz1].
        -- destruct (Hstart (a_pos q - 1)) as [Hk Ht]; [lia|lia|done|]. rewrite Ht, (decide_True (P := a_pos q - 1 = 0)) by done. reflexivity.
        -- rewrite decide_False by lia. replace (rp_current p - 1 - 1) with (a_pos q - 1 - 1 - r) by lia. rewrite Hlook by lia.
           destruct (lookup_lt_is_Some_2 (a_tuples a) (a_pos q - 1 - 1)) as [x Hx]; [lia|]. rewrite Hx. reflexivity.
Qed.

Lemma R_read r s a q q' p f z : common r s a -> in_file r s a -> reading r s a -> a_ptrs a !! a_active a = Some q -> a_eflags q' = a_eflags q -> a_ok (a_set_ptr (a_active a) q' a) ->
  rp_eflags p = a_eflags q -> rp_eof p = a_eof q' ->
  tf_rep f (enc (ts_backward s) (drop r (a_tuples a)))
    (if a_eof q' then length (enc (ts_backward s) (drop r (a_tuples a))) else pos_of (ts_backward s) (drop r (a_tuples a)) (a_pos q' - r)) ->
  R (moved (with_ptr s p) f z) (a_set_ptr (a_active a) q' a).
Proof.
  intros C [F1 F2 F3] [R1 _ R3 R4] Hq He Hok H1 H2 Hr. pose proof (ao_active _ (cm_ok _ _ _ C)) as Hlt. exists r. split; [eapply common_set_ptr; done|]. right.
  split; [split; [done|done|rewrite (a_flags_set_ptr _ q) by done; done]|]. right. split; [done| |done|].
  - exists f. split; [done|]. rewrite (file_pos_eq _ _ _ q') by (cbn; apply list_lookup_insert_eq; done). exact Hr.
  - cbn. rewrite (cm_active _ _ _ C). apply (ptrs_insert _ _ _ R4); [congruence|done|done|auto].
Qed.
Lemma removed_lt r s a : common r s a -> a_tuples a <> [] -> r < length (a_tuples a).
Proof.
  intros [H1 [_ _ H2 _]] Hne. destruct (a_tuples a); [done|]. destruct (decide (0 < a_floor a)) as [Hf|Hf]; [specialize (H2 Hf); lia|cbn; lia].
Qed.

Lemma forward_file r s a t a' : common r s a -> in_file r s a -> reading r s a -> a_get true a = Some (t, a') -> exists s', get_from_file chunk_space true s = Ok (t, s') /\ R s' a'.
Proof.
  intros C Hfile Hrd E. pose proof (a_get_ok a (cm_ok _ _ _ C) _ t a' E) as Hok. pose proof Hrd as [R1 (f & Hf & Hr) R3 R4].
  destruct (active_ok _ _ _ _ C R4) as (p & q & Hq & Hp & Hact & H1 & H2 & _). unfold a_get in E. rewrite Hq in E. cbn in E.
  rewrite (file_pos_eq _ _ _ _ Hq) in Hr. pose proof (removed_le _ _ _ C) as Hrl. set (L := drop r (a_tuples a)) in *.
  assert (Hend : tf_rep f (enc (ts_backward s) L) (length (enc (ts_backward s) L)) ->
    exists f', get_from_file chunk_space true s = Ok (None, moved (with_ptr s (set_eof true p)) f' (ts_availMem s)) /\ tf_rep f' (enc (ts_backward s) L) (length (enc (ts_backward s) L))).
  { intros Hre. destruct (getlen_end s f _ Hf Hre) as (f' & Hl & Hr'). exists f'. split; [|done]. unfold get_from_file. rewrite (mbind_ok _ _ _ _ _ Hl), decide_False by auto.
    assert (Ha2 : active_ptr (moved s f' (ts_availMem s)) = Ok (p, moved s f' (ts_availMem s))) by (unfold active_ptr, get_ptr; rewrite !mget_ok; cbn; rewrite Hp; done).
    rewrite (mbind_ok _ _ _ _ _ Ha2). done. }
  destruct (a_eof q) eqn:Ee.
  - injection E as <- <-. destruct (Hend Hr) as (f' & -> & Hr'). eexists. split; [reflexivity|].
    assert (Ha : a = a_set_ptr (a_active a) q a) by (unfold a_set_ptr; rewrite list_insert_id by done; destruct a; done). rewrite Ha.
    apply (R_read r s a q); try done; [rewrite <- Ha; done|rewrite Ee; done].
  - destruct (removed_pos _ _ _ _ _ C Hq Ee) as [Hge Hle]. destruct (a_tuples a !! a_pos q) as [x|] eqn:Ex; injection E as <- <-.
    + assert (Hx : L !! (a_pos q - r) = Some x) by (unfold L; rewrite lookup_drop, <- Ex; f_equal; lia).
      destruct (forward_ok chunk_space L (Forall_drop _ _ _ (ao_small _ (cm_ok _ _ _ C))) s f _ _ Hf Hr Hx) as (f' & z & Hrun & Hr'). exists (moved s f' z). split; [done|].
      rewrite <- (with_ptr_id s p Hp). apply (R_read r s a q); try done. cbn [a_eof a_pos]. replace (S (a_pos q) - r) with (S (a_pos q - r)) by lia. done.
    + apply lookup_ge_None_1 in Ex. rewrite pos_of_end in Hr by (unfold L; rewrite length_drop; lia). destruct (Hend Hr) as (f' & -> & Hr'). eexists. split; [reflexivity|].
      apply (R_read r s a q); done.
Qed.

Lemma backward_file r s a t a' : common r s a -> in_file r s a -> reading r s a -> a_get false a = Some (t, a') -> exists s', get_from_file chunk_space false s = Ok (t, s') /\ R s' a'.
Proof.
  intros C Hfile Hrd E. pose proof (a_get_ok a (cm_ok _ _ _ C) _ t a' E) as Hok. pose proof Hrd as [R1 (f & Hf & Hr) R3 R4]. pose proof Hfile as [F1 _ F3].
  destruct (active_ok _ _ _ _ C R4) as (p & q & Hq & Hp & Hact & H1 & H2 & _). unfold a_get in E. rewrite Hq in E. cbn in E.
  rewrite (file_pos_eq _ _ _ _ Hq) in Hr. pose proof (removed_lt _ _ _ C F1) as Hrl.
  destruct (has_flag (a_eflags q) EXEC_FLAG_BACKWARD) eqn:Efl; [|discriminate E]. case_decide as Hleg; [discriminate E|]. injection E as <- <-.
  assert (Hbw : ts_backward s = true) by (apply F3, a_flags_spec; eauto). rewrite Hbw in Hr.
  pose proof (cm_removed _ _ _ C) as Hfl. set (L := drop r (a_tuples a)) in *. pose proof (Forall_drop _ r _ (ao_small _ (cm_ok _ _ _ C))) as Hsm. fold L in Hsm.
  assert (Hlook : forall k, r <= k -> L !! (k - r) = a_tuples a !! k) by (intros k Hk; unfold L; rewrite lookup_drop; f_equal; lia).
  assert (Htr : a_floor a = 0 -> r = 0 /\ ts_truncated s = false) by (intros H0; rewrite (cm_truncated _ _ _ C); assert (r = 0) by lia; subst r; done).
  assert (HR : forall p' q' f' z, a_eflags q' = a_eflags q -> a_eof q' = false -> a_ok (a_set_ptr (a_active a) q' a) -> rp_eflags p' = a_eflags q -> rp_eof p' = false ->
    tf_rep f' (enc true L) (pos_of true L (a_pos q' - r)) -> R (moved (with_ptr s p') f' z) (a_set_ptr (a_active a) q' a)).
  { intros p' q' f' z ? Heq ? ? ? Hrep. apply (R_read r s a q); try done; [congruence|]. rewrite Hbw, Heq. exact Hrep. }
  destruct (a_eof q) eqn:Ee.
  - rewrite decide_False by lia. destruct (lookup_lt_is_Some_2 (a_tuples a) (length (a_tuples a) - 1)) as [x Hx]; [lia|]. rewrite Hx.
    assert (Hj : length (a_tuples a) - r = S (length (a_tuples a) - 1 - r)) by lia.
    rewrite <- (pos_of_end true L (length (a_tuples a) - r)), Hj in Hr by (unfold L; rewrite length_drop; lia). rewrite <- (Hlook (length (a_tuples a) - 1)) in Hx by lia.
    destruct (backward_from_end chunk_space L Hsm s f p _ x Hf Hbw Hr Hact Hx H2) as (f' & z & Hrun & Hr'). eexists. split; [exact Hrun|]. apply HR; try done. cbn [a_pos]. rewrite Hj. done.
  - destruct (removed_pos _ _ _ _ _ C Hq Ee) as [Hge Hle]. destruct (ao_pos _ (cm_ok _ _ _ C) _ _ Hq Ee) as [_ Hfp]. destruct (decide (a_pos q - 1 = 0)) as [Hz|Hz].
    + destruct Htr as [-> Ht]; [lia|]. rewrite Nat.sub_0_r in Hr. destruct (decide (a_pos q = 0)) as [H0|H0].
      * rewrite H0 in Hr. change (pos_of true L 0) with 0 in Hr. rewrite (backward_start chunk_space L s f p Hf Hr Hact Ht). eexists. split; [reflexivity|].
        rewrite <- (moved_id (with_ptr s (set_eof false p)) f Hf). apply HR; try done. cbn. rewrite Hz. exact Hr.
      * replace (a_pos q) with 1 in Hr by lia. destruct (lookup_lt_is_Some_2 (a_tuples a) 0) as [x Hx]; [lia|]. rewrite <- (Hlook 0 ltac:(lia)) in Hx.
        destruct (backward_first chunk_space L Hsm s f p x Hf Hbw Hr Hact Hx H2 Ht) as (f' & z & Hrun & Hr'). exists (moved s f' z). split; [done|].
        rewrite <- (with_ptr_id s p Hp). apply HR; try done. cbn [a_pos]. rewrite Hz. exact Hr'.
    + destruct (lookup_lt_is_Some_2 (a_tuples a) (a_pos q - 1 - 1)) as [x Hx]; [lia|]. destruct (lookup_lt_is_Some_2 (a_tuples a) (a_pos q - 1)) as [y Hy]; [lia|]. rewrite Hx.
      assert (Hrk : r < a_pos q - 1) by lia. rewrite <- Hlook in Hx by lia. rewrite <- Hlook in Hy by lia. replace (a_pos q - r) with (S (S (a_pos q - 1 - 1 - r))) in Hr by lia.
      replace (a_pos q - 1 - r) with (S (a_pos q - 1 - 1 - r)) in Hy by lia.
      destruct (backward_ok chunk_space L Hsm s f p _ x y Hf Hbw Hr Hact Hx Hy H2) as (f' & z & Hrun & Hr'). exists (moved s f' z). split; [done|].
      rewrite <- (with_ptr_id s p Hp). apply HR; try done. cbn [a_pos]. replace (a_pos q - 1 - r) with (S (a_pos q - 1 - 1 - r)) by lia. done.
Qed.

Lemma get_file_ok r s a fw t a' : common r s a -> in_file r s a -> reading r s a -> a_get fw a = Some (t, a') -> exists s', get_from_file chunk_space fw s = Ok (t, s') /\ R s' a'.
Proof. destruct fw; [apply forward_file|apply backward_file]. Qed.
Lemma same_status r s s' a : common r s a -> in_file r s a -> ts_eflags s' = ts_eflags s -> ts_activeptr s' = ts_activeptr s -> ts_truncated s' = ts_truncated s ->
  ts_memtupsize s' = ts_memtupsize s -> ts_readptrsize s' = ts_readptrsize s -> ts_memtuples s' = ts_memtuples s -> ts_backward s' = ts_backward s -> common r s' a /\ in_file r s' a.
Proof. intros [C1 C2 C3 C4 C5 C6 C7] [F1 F2 F3] **. split; split; try done; try congruence; lia || (intros; rewrite F3 in *; congruence). Qed.

Lemma ptrs_exist r s a : common r s a -> (in_mem r s a \/ in_file r s a /\ (writing r s a \/ reading r s a)) -> exists good, ptrs_ok good (ts_readptrs s) (a_ptrs a).
Proof. intros _ [H|[_ [H|H]]]; destruct H; eauto. Qed.

Lemma get_ok s a fw t a' : R s a -> a_get fw a = Some (t, a') -> exists s', tuplestore_gettuple chunk_space fw s = Ok (t, s') /\ R s' a'.
Proof.
  intros (r & C & H) E. destruct (ptrs_exist r s a C H) as [good Hps].
  destruct (active_ok _ _ _ _ C Hps) as (p & q & Hq & Hp & Hact & H1 & H2 & _). unfold tuplestore_gettuple. rewrite mget_ok, (mbind_ok _ _ _ _ _ Hact).
  rewrite Assert_ok by (destruct fw; [done|]; unfold a_get in E; rewrite Hq in E; cbn in E |- *; rewrite H1; destruct (has_flag _ _); done).
  destruct H as [Hm|[Hfile [Hw|Hrd]]].
  - rewrite (im_status _ _ _ Hm). eapply get_mem_ok; done.
  - pose proof Hw as [W1 (f & Hf & Hr) W3]. rewrite W1. destruct (rp_eof p && fw) eqn:Ee.
    { apply andb_prop in Ee as [Ee ->]. unfold a_get in E. rewrite Hq in E. cbn in E. rewrite <- H2, Ee in E. injection E as <- <-. exists s. split; [done|]. exists r. auto. }
    rewrite (mbind_ok _ _ _ _ _ (file_tell_ok s f Hf)), mmod_ok. set (s1 := set_ts_writepos _ s). destruct (active_ok _ _ _ _ C W3) as (p1 & q1 & Hq1 & Hp1 & _ & _ & _ & Hwh).
    rewrite Hq in Hq1. injection Hq1 as <-. rewrite Hp in Hp1. injection Hp1 as <-.
    assert (Hseek : exists f', (if rp_eof p then mret tt else q0 ← deref (rp_where p); file_seek q0 "tuplestore seek failed") s1 = Ok (tt, moved s1 f' (ts_availMem s)) /\
      tf_rep f' (enc (ts_backward s) (drop r (a_tuples a))) (file_pos (ts_backward s) r a)).
    { rewrite (file_pos_eq _ _ _ _ Hq), <- H2. destruct (rp_eof p).
      - exists f. change (ts_availMem s) with (ts_availMem s1). rewrite (moved_id s1 f Hf). done.
      - destruct (Hwh ltac:(congruence)) as (w & -> & Hpl). apply (file_seek_ok s1 f _ _ w _ "tuplestore seek failed" Hf Hr Hpl). apply pos_of_le. }
    destruct Hseek as (f' & Hseek & Hr'). rewrite (mbind_ok _ _ _ _ _ Hseek), mmod_ok. set (s2 := set_ts_status _ _).
    destruct (same_status r s s2 a C Hfile) as [C2 Hfile2]; [done..|]. apply (get_file_ok r s2 a fw t a' C2 Hfile2); [|done].
    split; [done|exists f'; done|eapply tf_tell_place; exact Hr|]. cbn. apply (ptrs_weaken _ _ _ W3). auto.
  - rewrite (rd_status _ _ _ Hrd). eapply get_file_ok; done.
Qed.

(** *** Read pointers *)

Lemma ateof_ok s a q : R s a -> a_ptrs a !! a_active a = Some q -> tuplestore_ateof s = Ok (a_eof q, s).
Proof.
  intros (r & C & H) Hq. destruct (ptrs_exist r s a C H) as [good Hps]. destruct (active_ok _ _ _ _ C Hps) as (p & q' & Hq' & _ & Hact & _ & H2 & _).
  rewrite Hq in Hq'. injection Hq' as <-. unfold tuplestore_ateof. rewrite (mbind_ok _ _ _ _ _ Hact), <- H2. done.
Qed.

Lemma get_ptr_ok s i p : ts_readptrs s !! i = Some p -> get_ptr i s = Ok (p, s).
Proof. intros Hp. unfold get_ptr. rewrite mget_ok, Hp. done. Qed.

(** Another pointer becomes active. *)
Definition a_select (i : nat) a : astore := mkAS (a_tuples a) (a_ptrs a) i (a_floor a).
Lemma common_select r s s' a i : common r s a -> i < length (a_ptrs a) -> ts_eflags s' = ts_eflags s -> ts_activeptr s' = i -> ts_truncated s' = ts_truncated s ->
  ts_memtupsize s' = ts_memtupsize s -> ts_readptrsize s' = ts_readptrsize s -> common r s' (a_select i a).
Proof. intros [C1 [A1 A2 A3 A4] C3 C4 C5 C6 C7] Hi H1 H2 H3 H4 H5. split; [done|split; done|rewrite H1; done|done|congruence|lia|cbn; lia]. Qed.

Lemma select_ok s a i : R s a -> i < length (a_ptrs a) -> exists s', tuplestore_select_read_pointer i s = Ok (tt, s') /\ R s' (a_select i a).
Proof.
  intros (r & C & H) Hi. destruct (ptrs_exist r s a C H) as [good Hps0]. unfold tuplestore_select_read_pointer. rewrite mget_ok.
  rewrite Assert_ok by (destruct Hps0 as [-> _]; apply Nat.ltb_lt; done). case_decide as Hsame.
  { exists s. split; [done|]. assert (Ha : a_select i a = a) by (rewrite Hsame, (cm_active _ _ _ C); destruct a; done). rewrite Ha. exists r. auto. }
  assert (Cs : forall s', ts_eflags s' = ts_eflags s -> ts_activeptr s' = i -> ts_truncated s' = ts_truncated s ->
    ts_memtupsize s' = ts_memtupsize s -> ts_readptrsize s' = ts_readptrsize s -> common r s' (a_select i a)) by (intros; apply (common_select r s); done).
  destruct H as [[M1 M2 M3 M4]|[[F1 F2 F3] [[W1 W2 W3]|Hrd]]].
  - rewrite M1, mret_ok. eexists. split; [reflexivity|]. exists r. split; [apply Cs; done|]. left. split; done.
  - rewrite W1, mret_ok. eexists. split; [reflexivity|]. exists r. split; [apply Cs; done|]. right. split; [split; done|]. left. split; done.
  - destruct (save_active_ok r s a C Hrd) as (ps & Hsave & Hps). destruct Hrd as [R1 (f & Hf & Hr) R3 R4]. rewrite R1, mbind_assoc, (mbind_ok _ _ _ _ _ Hsave), mbind_assoc.
    destruct (lookup_lt_is_Some_2 _ _ Hi) as [q Hq]. destruct (ptrs_lookup _ _ _ Hps _ _ Hq) as (p & Hp & H1 & H2 & H3). set (s1 := set_ts_readptrs ps s).
    rewrite (mbind_ok _ _ _ _ _ (get_ptr_ok s1 i p Hp)).
    assert (Hseek : exists f', (if rp_eof p then file_seek (ts_writepos s) "tuplestore seek failed" else q0 ← deref (rp_where p); file_seek q0 "tuplestore seek failed") s1 = Ok (tt, moved s1 f' (ts_availMem s)) /\
      tf_rep f' (enc (ts_backward s) (drop r (a_tuples a))) (file_pos (ts_backward s) r (a_select i a))).
    { rewrite (file_pos_eq _ _ _ q) by done. rewrite H2. destruct (a_eof q).
      - exact (file_seek_ok s1 f _ _ _ _ "tuplestore seek failed" Hf Hr R3 ltac:(done)).
      - destruct (H3 eq_refl) as (w & -> & Hpl). exact (file_seek_ok s1 f _ _ w _ "tuplestore seek failed" Hf Hr Hpl (pos_of_le _ _ _)). }
    destruct Hseek as (f' & Hseek & Hr'). rewrite (mbind_ok _ _ _ _ _ Hseek). eexists. split; [reflexivity|]. exists r. split; [apply Cs; done|]. right. split; [split; done|]. right.
    split; [done|exists f'; done|done|]. apply (ptrs_weaken _ _ _ Hps). auto.
Qed.

Lemma rescan_ok s a q : R s a -> a_ptrs a !! a_active a = Some q -> has_flag (a_eflags q) EXEC_FLAG_REWIND = true -> a_floor a = 0 ->
  exists s', tuplestore_rescan s = Ok (tt, s') /\ R s' (a_set_ptr (a_active a) (mkA (a_eflags q) false 0) a).
Proof.
  intros (r & C & H) Hq Hfl H0. destruct (ptrs_exist r s a C H) as [good Hps]. destruct (active_ok _ _ _ _ C Hps) as (p & q' & Hq' & _ & Hact & H1 & H2 & _).
  rewrite Hq in Hq'. injection Hq' as <-. pose proof (cm_removed _ _ _ C) as Hr0. assert (r = 0) by lia. subst r.
  assert (Hok : a_ok (a_set_ptr (a_active a) (mkA (a_eflags q) false 0) a)) by (apply a_set_ptr_ok; [apply C|cbn; lia]).
  unfold tuplestore_rescan. rewrite mget_ok, (mbind_ok _ _ _ _ _ Hact), Assert_ok by (rewrite H1; done). rewrite Assert_ok by (rewrite (cm_truncated _ _ _ C); done).
  destruct H as [Hm|[Hfile [Hw|Hrd]]].
  - rewrite (im_status _ _ _ Hm). eexists. split; [reflexivity|]. apply (R_mem_ptr 0 s a q); done.
  - rewrite (wr_status _ _ _ Hw). eexists. split; [reflexivity|]. exists 0. destruct Hw as [W1 W2 W3], Hfile as [F1 F2 F3].
    split; [eapply common_set_ptr; done|]. right. split; [split; [done|done|rewrite (a_flags_set_ptr _ q) by done; done]|]. left. split; [done|done|].
    cbn. rewrite (cm_active _ _ _ C). apply (ptrs_insert _ _ _ W3); [done|done| |done]. intros _. eexists. split; [reflexivity|]. exact tf_place_start.
  - rewrite (rd_status _ _ _ Hrd), (mbind_ok _ _ _ _ _ (put_active_ok _ _)). destruct (rd_file _ _ _ Hrd) as (f & Hf & Hr).
    destruct (file_seek_ok (with_ptr s (set_eof false p)) f _ _ (0, 0)%Z 0 "tuplestore seek to start failed" Hf Hr tf_place_start ltac:(lia)) as (f' & Hseek & Hr').
    eexists. split; [exact Hseek|]. apply (R_read 0 s a q); done.
Qed.

Lemma ptrs_or_flags good ps a : ptrs_ok good ps (a_ptrs a) -> or_flags ps = a_flags a.
Proof. intros H. unfold or_flags, a_flags. rewrite (ptrs_flags _ _ _ H). done. Qed.
Lemma a_flags_copy f src dest q a : a_ptrs a !! src = Some q -> has_flag (a_flags (a_set_ptr dest q a)) f = true -> has_flag (a_flags a) f = true.
Proof.
  intros Hq Hf. apply a_flags_spec in Hf as (i & p & Hp & Hf). apply a_flags_spec. cbn in Hp. destruct (decide (dest = i)) as [<-|Hne].
  - destruct (decide (dest < length (a_ptrs a))) as [Hlt|Hge]; [|rewrite list_insert_ge in Hp by lia; eauto]. rewrite list_lookup_insert_eq in Hp by done. injection Hp as <-. eauto.
  - rewrite list_lookup_insert_ne in Hp by done. eauto.
Qed.

Section copy.
Context (s : Tuplestorestate F) (a : astore) (r src dest : nat) (q : aptr) (Hq : a_ptrs a !! src = Some q) (Hd : dest < length (a_ptrs a)) (C : common r s a).
Local Abbreviation a' := (a_set_ptr dest q a).

Lemma common_copy s' : ts_eflags s' = a_flags a' -> ts_activeptr s' = ts_activeptr s -> ts_truncated s' = ts_truncated s -> ts_memtupsize s' = ts_memtupsize s ->
  ts_readptrsize s' = ts_readptrsize s -> common r s' a'.
Proof using C Hq Hd.
  intros H1 H2 H3 H4 H5. destruct C as [C1 C2 C3 C4 C5 C6 C7]. split; [done|apply a_set_ptr_ok; [done|eapply ao_pos; done]|done|cbn; congruence|congruence|lia|]. cbn. rewrite length_insert. lia.
Qed.
(** The pointer and the flags are copied, then the rest depends on the state. *)
Lemma copy_start : (exists good, ptrs_ok good (ts_readptrs s) (a_ptrs a)) ->
  exists sptr, ts_readptrs s !! src = Some sptr /\ rp_eflags sptr = a_eflags q /\ rp_eof sptr = a_eof q /\
    forall k, (sp ← get_ptr src; dptr ← get_ptr dest; put_ptr dest sp;;
      (if decide (rp_eflags dptr <> rp_eflags sp) then mmod (fun s => set_ts_eflags (or_flags (ts_readptrs s)) s) else mret tt);; k sp) s =
      (k sptr : M (Tuplestorestate F) unit) (set_ts_eflags (a_flags a') (set_ts_readptrs (<[dest := sptr]> (ts_readptrs s)) s)).
Proof using C Hq Hd.
  intros [good Hps]. destruct (ptrs_lookup _ _ _ Hps _ _ Hq) as (sptr & Hs & H1 & H2 & _). exists sptr. split_and!; [done|done|done|]. intros k.
  destruct (lookup_lt_is_Some_2 _ _ Hd) as [dq Hdq]. destruct (ptrs_lookup _ _ _ Hps _ _ Hdq) as (dptr & Hdp & G1 & G2 & _).
  rewrite (mbind_ok _ _ _ _ _ (get_ptr_ok s src sptr Hs)), (mbind_ok _ _ _ _ _ (get_ptr_ok s dest dptr Hdp)). unfold put_ptr. rewrite mmod_ok.
  assert (Hps' : ptrs_ok (fun _ _ _ => True) (<[dest := sptr]> (ts_readptrs s)) (a_ptrs a')) by (apply (ptrs_insert _ _ _ Hps); done).
  case_decide as Hfl.
  - rewrite mmod_ok. cbn [ts_readptrs set_ts_readptrs]. rewrite (ptrs_or_flags _ _ a' Hps'). done.
  - rewrite mret_ok. f_equal. rewrite (a_flags_set_ptr dest dq) by (done || congruence). rewrite <- (cm_flags _ _ _ C). done.
Qed.
End copy.

Lemma copy_ok s a src dest q : R s a -> a_ptrs a !! src = Some q -> dest < length (a_ptrs a) ->
  exists s', tuplestore_copy_read_pointer src dest s = Ok (tt, s') /\ R s' (a_set_ptr dest q a).
Proof.
  intros (r & C & H) Hq Hd. destruct (ptrs_exist r s a C H) as [good Hps0]. pose proof (lookup_lt_Some _ _ _ Hq) as Hsl. unfold tuplestore_copy_read_pointer. rewrite mget_ok.
  rewrite Assert_ok by (destruct Hps0 as [-> _]; apply Nat.ltb_lt; done). rewrite Assert_ok by (destruct Hps0 as [-> _]; apply Nat.ltb_lt; done). case_decide as Hne.
  { subst dest. exists s. split; [done|]. unfold a_set_ptr. rewrite list_insert_id by done. exists r. destruct a; done. }
  destruct (copy_start s a r src dest q Hq Hd C (ptrs_exist r s a C H)) as (sptr & Hs & H1 & H2 & ->). set (s1 := set_ts_eflags _ _).
  assert (Cs : forall s', ts_eflags s' = a_flags (a_set_ptr dest q a) -> ts_activeptr s' = ts_activeptr s -> ts_truncated s' = ts_truncated s -> ts_memtupsize s' = ts_memtupsize s ->
    ts_readptrsize s' = ts_readptrsize s -> common r s' (a_set_ptr dest q a)) by (intros; apply (common_copy s a r src dest q Hq Hd C); done).
  assert (Hfl : has_flag (a_flags (a_set_ptr dest q a)) EXEC_FLAG_BACKWARD = true -> has_flag (a_flags a) EXEC_FLAG_BACKWARD = true) by (apply (a_flags_copy _ src); done).
  destruct H as [[M1 M2 M3 M4]|[[F1 F2 F3] [[W1 W2 W3]|Hrd]]].
  - rewrite M1. exists s1. split; [done|]. exists r. split; [apply Cs; done|]. left. split; try done. destruct (ptrs_lookup _ _ _ M4 _ _ Hq) as (sp & Hs' & _ & _ & Hg).
    rewrite Hs in Hs'. injection Hs' as <-. apply (ptrs_insert _ _ _ M4); done.
  - rewrite W1. exists s1. split; [done|]. exists r. split; [apply Cs; done|]. right. split; [split; auto|]. left. split; [done|done|]. destruct (ptrs_lookup _ _ _ W3 _ _ Hq) as (sp & Hs' & _ & _ & Hg).
    rewrite Hs in Hs'. injection Hs' as <-. apply (ptrs_insert _ _ _ W3); done.
  - destruct Hrd as [R1 (f & Hf & Hr) R3 R4]. rewrite R1, (cm_active _ _ _ C). destruct (ptrs_lookup _ _ _ R4 _ _ Hq) as (sp & Hs' & _ & _ & Hg). rewrite Hs in Hs'. injection Hs' as <-.
    assert (HR : forall f' ps, tf_rep f' (enc (ts_backward s) (drop r (a_tuples a))) (file_pos (ts_backward s) r (a_set_ptr dest q a)) ->
      ptrs_ok (fun i p k => i <> a_active a -> where_ok (ts_backward s) (drop r (a_tuples a)) p (k - r)) ps (a_ptrs (a_set_ptr dest q a)) ->
      R (moved (set_ts_readptrs ps s1) f' (ts_availMem s)) (a_set_ptr dest q a)).
    { intros f' ps Hrep Hptrs. exists r. split; [apply Cs; done|]. right. split; [split; auto|]. right. split; [done|exists f'; done|done|done]. }
    case_decide as Hda; [|case_decide as Hsa].
    + assert (Hseek : exists f', (if rp_eof sptr then file_seek (ts_writepos s) "tuplestore seek failed" else q0 ← deref (rp_where sptr); file_seek q0 "tuplestore seek failed") s1 = Ok (tt, moved s1 f' (ts_availMem s)) /\
        tf_rep f' (enc (ts_backward s) (drop r (a_tuples a))) (file_pos (ts_backward s) r (a_set_ptr dest q a))).
      { rewrite (file_pos_eq _ _ _ q) by (cbn; rewrite <- Hda; apply list_lookup_insert_eq; done). rewrite H2. destruct (a_eof q).
        - exact (file_seek_ok s1 f _ _ _ _ "tuplestore seek failed" Hf Hr R3 ltac:(done)).
        - destruct (Hg eq_refl) as (w & -> & Hpl); [congruence|]. exact (file_seek_ok s1 f _ _ w _ "tuplestore seek failed" Hf Hr Hpl (pos_of_le _ _ _)). }
      destruct Hseek as (f' & Hseek & Hr'). eexists. split; [exact Hseek|]. apply (HR f' (ts_readptrs s1)); [done|]. apply (ptrs_insert _ _ _ R4); [done|done|congruence|done].
    + assert (Hfp : file_pos (ts_backward s) r (a_set_ptr dest q a) = file_pos (ts_backward s) r a) by (unfold file_pos; cbn; rewrite list_lookup_insert_ne by done; done).
      pose proof Hr as Hr0. rewrite (file_pos_eq _ _ _ q) in Hr by congruence. rewrite H2. destruct (a_eof q) eqn:Ee.
      * exists s1. split; [done|]. rewrite <- (moved_id s1 f Hf). apply (HR f (ts_readptrs s1)); [rewrite Hfp; done|]. apply (ptrs_insert _ _ _ R4); [done|cbn; congruence|congruence|done].
      * rewrite (mbind_ok _ _ _ _ _ (file_tell_ok s1 f Hf)). eexists. split; [reflexivity|]. set (s2 := set_ts_readptrs _ s1). rewrite <- (moved_id s2 f Hf).
        apply (HR f (ts_readptrs s2)); [rewrite Hfp; done|]. cbn. rewrite list_insert_insert_eq. apply (ptrs_insert _ _ _ R4); [done|cbn; congruence| |done].
        intros _ _. eexists. split; [reflexivity|]. eapply tf_tell_place. exact Hr.
    + assert (Hfp : file_pos (ts_backward s) r (a_set_ptr dest q a) = file_pos (ts_backward s) r a) by (unfold file_pos; cbn; rewrite list_lookup_insert_ne by done; done).
      exists s1. split; [done|]. rewrite <- (moved_id s1 f Hf). apply (HR f (ts_readptrs s1)); [rewrite Hfp; done|]. apply (ptrs_insert _ _ _ R4); [done|done|auto|done].
Qed.

(** *** Removing *)

Lemma R_floor s a n : R s a -> a_floor a <= n -> a_ok (mkAS (a_tuples a) (a_ptrs a) (a_active a) n) -> R s (mkAS (a_tuples a) (a_ptrs a) (a_active a) n).
Proof.
  intros (r & [C1 C2 C3 C4 C5 C6 C7] & H) Hn Hok. exists r. split; [split; try done; cbn; lia|]. destruct H as [[M1 M2 M3 M4]|[[F1 F2 F3] [[W1 W2 W3]|[R1 R2 R3 R4]]]].
  - left. split; done.
  - right. split; [split; done|left; split; done].
  - right. split; [split; done|right; split; done].
Qed.
Lemma oldest_eq r s a : in_mem r s a -> oldest s = a_oldest a - r.
Proof.
  intros [_ Hm _ [Hl Hi]]. unfold oldest, a_oldest, memtupcount. rewrite Hm, length_drop. clear Hm. generalize (length (a_tuples a)). revert Hl Hi.
  generalize (ts_readptrs s) (a_ptrs a). intros ps. induction ps as [|p ps IH]; intros [|q qs] Hl Hi n; try discriminate Hl; [done|]. cbn.
  destruct (Hi 0 p q eq_refl eq_refl) as (_ & He & Hc). specialize (IH qs ltac:(injection Hl as Hl; done) (fun i => Hi (S i))). rewrite He.
  destruct (a_eof q); [apply IH|]. rewrite Hc, Nat.sub_min_distr_r by done. apply IH.
Qed.
Lemma free_all ts : forall s, exists z, foldl (fun s t => ts_FREEMEM (chunk_space t) s) s ts = set_ts_availMem z s.
Proof.
  induction ts as [|t ts IH]; intros s; cbn; [exists (ts_availMem s); destruct s; done|]. destruct (IH (ts_FREEMEM (chunk_space t) s)) as [z ->]. exists z. done.
Qed.

Lemma trim_ok s a : R s a -> exists s', tuplestore_trim chunk_space s = Ok (tt, s') /\
  R s' (if has_flag (a_flags a) EXEC_FLAG_REWIND then a else mkAS (a_tuples a) (a_ptrs a) (a_active a) (Nat.max (a_floor a) (a_oldest a - 1))).
Proof.
  intros HR. pose proof HR as (r & C & H). unfold tuplestore_trim. rewrite mget_ok, (cm_flags _ _ _ C). destruct (has_flag _ _); [exists s; done|].
  pose proof (a_trim_ok a (cm_ok _ _ _ C)) as Hok. pose proof (R_floor s a _ HR (Nat.le_max_l _ _) Hok) as Hsame. case_decide as Hst; [exists s; done|].
  destruct H as [Hm|[_ [[W1 _ _]|[R1 _ _ _]]]]; [|congruence..]. rewrite (oldest_eq r s a Hm). case_decide as Hz; [exists s; done|].
  pose proof Hm as [M1 M2 M3 M4]. destruct (fold_min a_eof a_pos (a_ptrs a) (length (a_tuples a))) as [Hle Hmin]. fold (a_oldest a) in Hle, Hmin.
  rewrite Assert_ok by (apply Nat.leb_le; unfold memtupcount; rewrite M2, length_drop; lia). set (n := a_oldest a - r - 1) in *.
  destruct (free_all (take n (ts_memtuples s)) s) as [z ->]. eexists. split; [reflexivity|]. exists (r + n). destruct C as [C1 C2 C3 C4 C5 C6 C7].
  split; [split; cbn; try done; [lia|rewrite bool_decide_true by lia; done]|]. left. split; cbn; [done|rewrite M2, drop_drop; done|rewrite length_drop; lia|].
  destruct M4 as [Hl Hi]. split; [rewrite length_fmap; done|]. intros i p' q Hp Hq. rewrite list_lookup_fmap in Hp. destruct (ts_readptrs s !! i) as [p|] eqn:Ep; [|discriminate Hp].
  injection Hp as <-. destruct (Hi i p q Ep Hq) as (H1 & H2 & H3). rewrite H2. destruct (a_eof q) eqn:Ee; [split_and!; done || congruence|]. cbn. split_and!; [done|congruence|].
  intros _. rewrite H3 by done. lia.
Qed.

Lemma clear_ok s a : R s a -> R (tuplestore_clear chunk_space s) (mkAS [] ((fun p => mkA (a_eflags p) false 0) <$> a_ptrs a) (a_active a) 0).
Proof.
  intros (r & C & H). destruct (ptrs_exist r s a C H) as [good [Hl Hi]]. unfold tuplestore_clear. cbn zeta. destruct (free_all (ts_memtuples (set_ts_myfile None s)) (set_ts_myfile None s)) as [z ->].
  exists 0. destruct C as [C1 [A1 A2 A3 A4] C3 C4 C5 C6 C7]. split.
  - split; cbn; [done| | |done|done|done|rewrite length_fmap; done].
    + split; cbn; [rewrite length_fmap; done| |lia|done]. intros i p Hp _. rewrite list_lookup_fmap in Hp. destruct (a_ptrs a !! i); [|discriminate Hp]. injection Hp as <-. cbn. lia.
    + unfold a_flags in *. cbn. rewrite <- list_fmap_compose. done.
  - left. split; cbn; [done|done|done|]. split; [rewrite !length_fmap; done|]. intros i p' q' Hp Hq. rewrite list_lookup_fmap in Hp. rewrite list_lookup_fmap in Hq.
    destruct (ts_readptrs s !! i) as [p|] eqn:Ep; [|discriminate Hp]. destruct (a_ptrs a !! i) as [q|] eqn:Eq; [|discriminate Hq]. injection Hp as <-. injection Hq as <-.
    destruct (Hi i p q Ep Eq) as (H1 & _ & _). done.
Qed.

(** *** Capabilities *)

Lemma no_data r s a : common r s a -> (in_mem r s a \/ in_file r s a /\ (writing r s a \/ reading r s a)) -> a_tuples a = [] -> in_mem r s a /\ has_data s = false.
Proof.
  intros C [Hm|[[F1 _ _] _]] He; [|done]. split; [done|]. destruct Hm as [M1 M2 _ _]. unfold has_data, memtupcount. rewrite M1, M2, He, drop_nil. done.
Qed.
Lemma set_flags_ok s a q e : R s a -> a_ptrs a !! 0 = Some q -> a_tuples a = [] -> exists s', tuplestore_set_eflags e s = Ok (tt, s') /\ R s' (a_set_ptr 0 (mkA e (a_eof q) (a_pos q)) a).
Proof.
  intros (r & C & H) Hq He. destruct (no_data r s a C H He) as [Hm Hnd]. destruct Hm as [M1 M2 M3 M4]. destruct (ptrs_lookup _ _ _ M4 _ _ Hq) as (p & Hp & H1 & H2 & H3).
  unfold tuplestore_set_eflags. rewrite mget_ok, Hnd, (mbind_ok _ _ _ _ _ (get_ptr_ok s 0 p Hp)). eexists. split; [reflexivity|].
  set (ps := <[0 := mkPtr e (rp_eof p) (rp_current p) (rp_where p)]> (ts_readptrs s)). assert (Hps : ptrs_ok (fun _ p k => rp_current p = k - r) ps (a_ptrs (a_set_ptr 0 (mkA e (a_eof q) (a_pos q)) a))) by (apply (ptrs_insert _ _ _ M4); done).
  exists r. destruct C as [C1 C2 C3 C4 C5 C6 C7]. split; [split; try done|left; split; done].
  - apply a_set_ptr_ok; [done|]. intros Hf. exact (ao_pos _ C2 _ _ Hq Hf).
  - rewrite <- (ptrs_or_flags _ _ _ Hps). cbn. unfold ps. destruct (ts_readptrs s); [discriminate Hp|]. unfold or_flags. cbn. rewrite Z.lor_0_l. done.
  - cbn. rewrite length_insert. done.
Qed.

Lemma alloc_ok s a q e : R s a -> a_ptrs a !! 0 = Some q -> (a_tuples a = [] \/ Z.lor (a_flags a) e = a_flags a /\ (a_eof q = true \/ a_active a <> 0)) ->
  exists s', tuplestore_alloc_read_pointer e s = Ok (length (a_ptrs a), s') /\ R s' (mkAS (a_tuples a) (a_ptrs a ++ [mkA e (a_eof q) (a_pos q)]) (a_active a) (a_floor a)).
Proof.
  intros (r & C & H) Hq Hcase. destruct (ptrs_exist r s a C H) as [good Hps0]. destruct (ptrs_lookup _ _ _ Hps0 _ _ Hq) as (p & Hp & H1 & H2 & _). pose proof Hps0 as [Hl _].
  unfold tuplestore_alloc_read_pointer. rewrite mget_ok. rewrite (cm_flags _ _ _ C). replace (has_data s && negb (Z.lor (a_flags a) e =? a_flags a)%Z) with false.
  2:{ destruct Hcase as [He|[He _]]; [destruct (no_data r s a C H He) as [_ ->]; done|]. rewrite He, Z.eqb_refl, andb_false_r. done. }
  pose proof (ao_active _ (cm_ok _ _ _ C)) as Hact. pose proof (cm_readptrs _ _ _ C) as Hsz.
  assert (Hgrow : exists n, length (a_ptrs a) < n /\ forall k : unit -> M (Tuplestorestate F) nat,
    ((if decide (ts_readptrsize s <= length (ts_readptrs s)) then mmod (set_ts_readptrsize (ts_readptrsize s * 2)) else mret tt) ≫= k) s = k tt (set_ts_readptrsize n s)).
  { case_decide as Hc; [exists (ts_readptrsize s * 2)|exists (ts_readptrsize s)]; (split; [lia|]); intros k; [done|]. rewrite mret_ok. f_equal. destruct s; done. }
  destruct Hgrow as (n & Hn & ->). rewrite mget_ok, (mbind_ok _ _ _ _ _ (get_ptr_ok (set_ts_readptrsize n s) 0 p Hp)). cbn [ts_readptrs ts_readptrsize set_ts_readptrsize]. rewrite decide_True by lia.
  rewrite mput_ok, Hl. eexists. split; [reflexivity|]. set (a' := mkAS _ _ _ _).
  assert (Hfl : a_flags a' = Z.lor (a_flags a) e) by (unfold a_flags, a'; cbn; rewrite fmap_app, foldl_app; done).
  assert (Hc : bool_decide (a_tuples a = []) || ((Z.lor (a_flags a) e =? a_flags a)%Z && (a_eof q || negb (a_active a =? 0))) = true).
  { destruct Hcase as [He|[He [He'|Hn0]]]; [rewrite bool_decide_true by done; done|rewrite He, He', Z.eqb_refl, orb_true_r; done|].
    apply Nat.eqb_neq in Hn0. rewrite He, Z.eqb_refl, Hn0, !orb_true_r. done. }
  assert (Hok : a_ok a') by (apply (a_ok_step a (cm_ok _ _ _ C) (OAlloc e) (Pointer (length (a_ptrs a)))); cbn; rewrite Hq; cbn; rewrite Hc; done). clear Hc.
  exists r. split.
  { destruct C as [C1 C2 C3 C4 C5 C6 C7]. split; try done; [rewrite Hfl, <- C3; done|]. cbn. rewrite length_app. cbn. lia. }
  assert (Hp' : forall good', ptrs_ok good' (ts_readptrs s) (a_ptrs a) -> (forall w, a_eof q = false -> good' 0 w (a_pos q) -> rp_where w = rp_where p -> rp_current w = rp_current p -> good' (length (ts_readptrs s)) (mkPtr e (rp_eof p) (rp_current p) (rp_where p)) (a_pos q)) ->
    ptrs_ok good' (ts_readptrs s ++ [mkPtr e (rp_eof p) (rp_current p) (rp_where p)]) (a_ptrs a')).
  { intros good' Hg Hw. destruct (ptrs_lookup _ _ _ Hg _ _ Hq) as (p2 & Hp2 & _ & _ & Hg0). rewrite Hp in Hp2. injection Hp2 as <-. apply (ptrs_app _ _ _ Hg); [done|done|]. intros Hf. apply (Hw p); auto. }
  destruct H as [[M1 M2 M3 M4]|[[F1 F2 F3] Hf]].
  - left. split; try done. apply Hp'; [done|]. cbn. congruence.
  - destruct Hcase as [?|[Hfe Hc]]; [done|]. right. split; [split; [done|done|rewrite Hfl, Hfe; done]|]. destruct Hf as [[W1 W2 W3]|[R1 R2 R3 R4]]; [left|right].
    + split; [done|done|]. apply Hp'; [done|]. intros w _ (w' & Hw' & Hpl) Hw _. exists w'. cbn. split; [congruence|done].
    + split; [done| |done|].
      * destruct R2 as (f & Hff & Hr). exists f. split; [done|]. unfold file_pos in *. cbn. rewrite lookup_app_l by done. exact Hr.
      * apply Hp'; [done|]. intros w He Hg Hw _ _. destruct Hc as [Hc|Hc]; [congruence|]. destruct Hg as (w' & Hw' & Hpl); [auto|]. exists w'. cbn. split; [congruence|done].
Qed.

(** *** All operations *)

Lemma step_ok op s a x a' : R s a -> ts_spec op a = Some (x, a') -> exists s', ts_run chunk_space array_space op s = Ok (x, s') /\ R s' a'.
Proof.
  intros HR E. destruct op as [t|t|t|fw|fw|i| | |src dest| | |fl|fl]; cbn [ts_spec ts_run] in *.
  1-3: case_decide as Ht; [|discriminate E]; injection E as <- <-.
  - unfold tuplestore_puttupleslot. rewrite mbind_assoc, mmod_ok. destruct (put_ok (ts_USEMEM (chunk_space t) s) a t (R_avail s a _ HR) Ht) as (s' & Hrun & HR'). rewrite (mbind_ok _ _ _ _ _ Hrun). exists s'. done.
  - unfold tuplestore_puttuple, copytup_heap. rewrite !mbind_assoc, mmod_ok, mret_ok. destruct (put_ok (ts_USEMEM (chunk_space t) s) a t (R_avail s a _ HR) Ht) as (s' & Hrun & HR').
    rewrite (mbind_ok _ _ _ _ _ Hrun). exists s'. done.
  - destruct (put_ok s a t HR Ht) as (s' & Hrun & HR'). unfold tuplestore_putvalues. rewrite (mbind_ok _ _ _ _ _ Hrun). exists s'. done.
  - destruct (a_get fw a) as [[t a1]|] eqn:Eg; [|discriminate E]. injection E as <- <-. destruct (get_ok s a fw t a1 HR Eg) as (s' & Hrun & HR').
    unfold tuplestore_gettupleslot. rewrite (mbind_ok _ _ _ _ _ Hrun). exists s'. done.
  - destruct (a_get fw a) as [[t a1]|] eqn:Eg; [|discriminate E]. injection E as <- <-. destruct (get_ok s a fw t a1 HR Eg) as (s' & Hrun & HR').
    unfold tuplestore_advance. rewrite mbind_assoc, (mbind_ok _ _ _ _ _ Hrun). exists s'. done.
  - case_decide as Hi; [|discriminate E]. injection E as <- <-. destruct (select_ok s a i HR Hi) as (s' & Hrun & HR'). rewrite (mbind_ok _ _ _ _ _ Hrun). exists s'. done.
  - destruct (a_ptrs a !! a_active a) as [q|] eqn:Hq; [|discriminate E]. injection E as <- <-. rewrite (mbind_ok _ _ _ _ _ (ateof_ok s a q HR Hq)). exists s. done.
  - destruct (a_ptrs a !! a_active a) as [q|] eqn:Hq; [|discriminate E]. cbn in E. destruct (_ && _) eqn:Ef; [|discriminate E]. injection E as <- <-.
    apply andb_prop in Ef as [Ef H0]. apply Nat.eqb_eq in H0. destruct (rescan_ok s a q HR Hq Ef H0) as (s' & Hrun & HR'). rewrite (mbind_ok _ _ _ _ _ Hrun). exists s'. done.
  - destruct (a_ptrs a !! src) as [q|] eqn:Hq; [|discriminate E]. cbn in E. destruct (a_ptrs a !! dest) eqn:Hd; [|discriminate E]. injection E as <- <-.
    destruct (copy_ok s a src dest q HR Hq (lookup_lt_Some _ _ _ Hd)) as (s' & Hrun & HR'). rewrite (mbind_ok _ _ _ _ _ Hrun). exists s'. done.
  - injection E as <- <-. destruct (trim_ok s a HR) as (s' & Hrun & HR'). rewrite (mbind_ok _ _ _ _ _ Hrun). exists s'. done.
  - injection E as <- <-. rewrite mmod_ok. eexists. split; [reflexivity|]. apply clear_ok. done.
  - destruct (a_ptrs a !! 0) as [q|] eqn:Hq; [|discriminate E]. cbn in E. case_decide as Ht; [|discriminate E]. injection E as <- <-.
    destruct (set_flags_ok s a q fl HR Hq Ht) as (s' & Hrun & HR'). rewrite (mbind_ok _ _ _ _ _ Hrun). exists s'. done.
  - destruct (a_ptrs a !! 0) as [q|] eqn:Hq; [|discriminate E]. cbn in E. destruct (_ || _) eqn:Ec; [|discriminate E]. injection E as <- <-.
    destruct (alloc_ok s a q fl HR Hq) as (s' & Hrun & HR'); [|rewrite (mbind_ok _ _ _ _ _ Hrun); exists s'; done].
    apply orb_prop in Ec as [Ec|Ec]; [left; apply bool_decide_eq_true in Ec; done|right]. apply andb_prop in Ec as [E1 E2]. apply Z.eqb_eq in E1. split; [done|].
    apply orb_prop in E2 as [E2|E2]; [auto|right]. apply negb_true_iff, Nat.eqb_neq in E2. done.
Qed.
Lemma steps_ok ops : forall s a xs a', R s a -> ts_spec_all ops a = Some (xs, a') -> exists s', ts_run_all chunk_space array_space ops s = Ok (xs, s') /\ R s' a'.
Proof.
  induction ops as [|op ops IH]; intros s a xs a' HR E; cbn [ts_spec_all ts_run_all] in *; [injection E as <- <-; exists s; done|].
  destruct (ts_spec op a) as [[x a1]|] eqn:E1; [|discriminate E]. cbn in E. destruct (ts_spec_all ops a1) as [[xs1 a2]|] eqn:E2; [|discriminate E]. injection E as <- <-.
  destruct (step_ok op s a x a1 HR E1) as (s1 & Hrun & HR1). destruct (IH s1 a1 xs1 a2 HR1 E2) as (s2 & Hrun2 & HR2). exists s2. split; [|done].
  rewrite (mbind_ok _ _ _ _ _ Hrun), (mbind_ok _ _ _ _ _ Hrun2). done.
Qed.
Lemma begin_R ra kb : R (tuplestore_begin_heap array_space ra kb) (a_begin ra).
Proof.
  exists 0. split.
  - split; [done| |destruct ra; done|done|done|cbn; lia|cbn; lia]. split; cbn; [lia| |lia|done]. intros [|i] p Hp _; [|done]. injection Hp as <-. cbn. lia.
  - left. split; [done|done|cbn; lia|]. split; [done|]. intros [|i] p q Hp Hq; [|done]. injection Hp as <-. injection Hq as <-. done.
Qed.

(** C7: a tuple store is the list of the tuples that were stored with pointers into it.  Any sequence of calls that the specification allows succeeds and returns what the
    specification says: tuples come out of each read pointer in the order they were stored, forwards and backwards; a pointer that has reached the end
    stays there when it is active and stays behind the old tuples otherwise.  This does not depend on the memory the store may use, so not on
    when the tuples move to the file, nor on how often the file is switched between reading and writing.  Trimming never removes a
    tuple that a pointer may still return, nor the last one it returned. *)
Theorem tuplestore_refines ra kb ops xs a' : ts_spec_all ops (a_begin ra) = Some (xs, a') ->
  exists s, ts_run_all chunk_space array_space ops (tuplestore_begin_heap array_space ra kb) = Ok (xs, s) /\
    (tuplestore_in_memory s = true -> exists r, ts_memtuples s = drop r (a_tuples a') /\
      (0 < r -> r < length (a_tuples a') /\ forall i q, a_ptrs a' !! i = Some q -> a_eof q = false -> r < a_pos q)).
Proof.
  intros E. destruct (steps_ok ops _ _ xs a' (begin_R ra kb) E) as (s & Hrun & (r & C & H)). exists s. split; [done|]. intros Hm. exists r.
  destruct C as [C1 [_ A2 A3 _] _ _ _ _ _]. split.
  - destruct H as [[_ H _ _]|[_ [[H _ _]|[H _ _ _]]]]; [done| |]; unfold tuplestore_in_memory in Hm; rewrite H in Hm; done.
  - intros H0. split; [lia|]. intros i q Hq He. destruct (A2 i q Hq He). lia.
Qed.
End refinement.

(** ** Examples, on a buffered file with a buffer of four bytes and physical files of eight *)

Definition demo_file : TempFile (BufFile memfile) := @BufFile_TempFile memfile (mem_ops None) 8 4.
Lemma demo_laws : @TempFileLaws (BufFile memfile) demo_file.
Proof. apply (@BufFile_TempFileLaws memfile (mem_ops None) (mem_laws None) 8 4); [lia|lia|cbn; auto]. Defined.
(** Two tuples fit into a store of one kilobyte. *)
Definition demo_run (ops : list ts_op) : res (list ts_result * Tuplestorestate (BufFile memfile)) :=
  @ts_run_all _ demo_file (fun _ => 400%Z) (fun _ => 0%Z) ops (tuplestore_begin_heap (fun _ => 0%Z) true 1).

Lemma tuplestore_refines_witness : exists s,
  demo_run [OAlloc 6; OPut [1; 1]%Z; OPutSlot [2]%Z; OGet true; OPut [3; 3; 3]%Z; OSelect 1; OGet true; OGet true; OAdvance true; OGet true; OAtEof; OPutSlot []; OAtEof; OGet false; OGet false;
    OSelect 0; OGet true; OCopy 1 0; OGet false; OGet false; OGet false; ORescan; OGet true; OTrim; OClear; OGet true] =
  Ok ([Pointer 1; Done; Done; GotTuple (Some [1; 1]%Z); Done; Done; GotTuple (Some [1; 1]%Z); GotTuple (Some [2]%Z); Answer true; GotTuple None; Answer true; Done; Answer true; GotTuple (Some []);
    GotTuple (Some [3; 3; 3]%Z); Done; GotTuple (Some [2]%Z); Done; GotTuple (Some [2]%Z); GotTuple (Some [1; 1]%Z); GotTuple None; Done; GotTuple (Some [1; 1]%Z); Done; Done; GotTuple None], s).
Proof.
  edestruct (@tuplestore_refines _ demo_file demo_laws (fun _ => 400%Z) (fun _ => 0%Z) true 1) as (s & Hrun & _); [|exists s; exact Hrun]. vm_compute. reflexivity.
Defined.

(** While the file is read by pointer 0, a new pointer does not get its position but the one it had when the file was last written: the comment of
    tuplestore_alloc_read_pointer says that the new pointer copies the position of read pointer 0. *)
Example alloc_copies_old_position : exists s,
  demo_run [OPut [1]%Z; OPut [2]%Z; OPut [3]%Z; OGet true; OGet true; OAlloc 6; OSelect 1; OGet true; OSelect 0; OGet true] =
  Ok ([Done; Done; Done; GotTuple (Some [1]%Z); GotTuple (Some [2]%Z); Pointer 1; Done; GotTuple (Some [1]%Z); Done; GotTuple (Some [3]%Z)], s).
Proof. vm_compute. eexists. reflexivity. Qed.
(** Tuples stored by tuplestore_putvalues are not accounted for when they are stored, but when they are freed. *)
Example putvalues_not_accounted : exists s,
  demo_run [OPutValues [1]%Z; OPutValues [2]%Z; OPutValues [3]%Z; OPutValues [4]%Z; OClear] = Ok ([Done; Done; Done; Done; Done], s) /\ ts_availMem s = (1024 + 4 * 400)%Z.
Proof. vm_compute. eexists. split; reflexivity. Qed.
(** Tuples read from the file are accounted for when they are read, but not when they are freed. *)
Example readtup_not_freed : exists s,
  demo_run [OPut [1]%Z; OPut [2]%Z; OPut [3]%Z; OGet true; OGet true; OGet true; OClear] =
  Ok ([Done; Done; Done; GotTuple (Some [1]%Z); GotTuple (Some [2]%Z); GotTuple (Some [3]%Z); Done], s) /\ ts_availMem s = (1024 - 3 * 400)%Z.
Proof. vm_compute. eexists. split; reflexivity. Qed.
(** A disk that cannot be read is taken for the end of the tuples: BufFileLoadBuffer turns the error of FileRead into an empty buffer, and the end of
    the file at the beginning of a tuple is no error. *)
Definition bad_reads : PhysFile memfile := {|
  OpenTemporaryFile := @OpenTemporaryFile _ (mem_ops None);
  FileSeek := @FileSeek _ (mem_ops None);
  FileRead := fun f _ => ((-1)%Z, [], f);
  FileWrite := @FileWrite _ (mem_ops None) |}.
Example read_error_is_end : exists s,
  @ts_run_all _ (@BufFile_TempFile memfile bad_reads 8 4) (fun _ => 400%Z) (fun _ => 0%Z) [OPut [1]%Z; OPut [2]%Z; OPut [3]%Z; OGet true; OAtEof] (tuplestore_begin_heap (fun _ => 0%Z) true 1) =
  Ok ([Done; Done; Done; GotTuple None; Answer true], s).
Proof. vm_compute. eexists. reflexivity. Qed.
