(* ===== verification/LogTape.v ===== *)
(** * LogTape: logical tapes in one file (src/backend/utils/sort/logtape.c)

    A set of tapes shares a temporary file.  Each tape keeps the numbers of its blocks in a hierarchy of indirect blocks; a
    block is released when it has been read, unless the tape is frozen.  A block of the file is either data or the
    numbers of other blocks; using one as the other is undefined here.  The file is a
    sequence of blocks which can be overwritten and extended at its end, as BufFile shows of backend/storage/file/buffile.c; the disk does not run full. *)

From S2P Require Import Prelude Order Qsort Tape.
From Stdlib Require Import Permutation.

(** ** Data *)

(** sizeof(long) is 8. *)
Definition BLOCKS_PER_INDIR_BLOCK : nat := BLCKSZ / 8.

(** An entry of ptrs[] that was never written is [None].  The nextup links make a list, the bottom level first. *)
Record IndirectBlock := mkInd { nextSlot : nat; ptrs : list (option Z) }.

Record LogicalTape := mkLt {
  indirect : list IndirectBlock;
  writing : bool;
  frozen : bool;
  dirty : bool;
  numFullBlocks : nat;
  lastBlockBytes : nat;
  buffer : option (list byte);
  curBlockNumber : nat;
  pos : nat;
  nbytes : nat }.

Inductive block := Data (d : list byte) | Ptrs (p : list (option Z)).

(** The part of a LogicalTapeSet that its tapes share.  freeBlocks[] holds nFreeBlocks numbers and has room for freeBlocksLen. *)
Record Pool := mkPool {
  pfile : list block;
  nFileBlocks : Z;
  forgetFreeSpace : bool;
  blocksSorted : bool;
  freeBlocks : list Z;
  freeBlocksLen : nat }.
Record LogicalTapeSet := mkLts { pool : Pool; lt_tapes : list LogicalTape }.

Local Abbreviation PM := (M Pool).

(** ** Blocks *)

Definition ltsWriteBlock (blocknum : Z) (b : block) : PM unit :=
  p ← mget;
  let n := Z.to_nat blocknum in
  if bool_decide (0 <= blocknum)%Z && bool_decide (n <= length (pfile p)) then
    mput (mkPool (take n (pfile p) ++ b :: drop (S n) (pfile p)) (nFileBlocks p) (forgetFreeSpace p) (blocksSorted p) (freeBlocks p) (freeBlocksLen p))
  else mfail (EElog "could not write block of temporary file").

Definition ltsReadBlock (blocknum : Z) : PM block :=
  p ← mget;
  match (if decide (0 <= blocknum)%Z then pfile p !! Z.to_nat blocknum else None) with
  | Some b => mret b
  | None => mfail (EElog "could not read block of temporary file")
  end.
Definition read_data (blocknum : Z) : PM (list byte) :=
  b ← ltsReadBlock blocknum; match b with Data d => mret d | Ptrs _ => mfail EUndef end.
Definition read_ptrs (blocknum : Z) : PM (list (option Z)) :=
  b ← ltsReadBlock blocknum; match b with Ptrs p => mret p | Data _ => mfail EUndef end.

Definition freeBlocks_cmp (a b : Z) : Z := if (a <? b)%Z then 1 else if (b <? a)%Z then -1 else 0.

(** qsort() is pg_qsort of src/port/qsort.c, the same code as qsort_arg without the argument.  The only array sorted here is
    freeBlocks[], which comes from palloc and repalloc: they give at most MaxAllocSize (1 GiB), so that an int holds the size in
    bytes of any part of it. *)
Definition pg_qsort {A} (cmp : A -> A -> Z) (l : list A) : res (list A) :=
  qsort_fuel (fun x y => Ok (cmp x y)) (fun _ => true) (S (length l)) l.

Definition ltsGetFreeBlock : PM Z :=
  p ← mget;
  match freeBlocks p with
  | [] =>
    mput (mkPool (pfile p) (nFileBlocks p + 1) (forgetFreeSpace p) (blocksSorted p) (freeBlocks p) (freeBlocksLen p));;
    mret (nFileBlocks p)
  | _ =>
    match (if blocksSorted p then Ok (freeBlocks p) else pg_qsort freeBlocks_cmp (freeBlocks p)) with
    | Err e => mfail e
    | Ok fb =>
      blk ← deref (last fb);
      mput (mkPool (pfile p) (nFileBlocks p) (forgetFreeSpace p) true (take (length fb - 1) fb) (freeBlocksLen p));;
      mret blk
    end
  end.

Definition ltsReleaseBlock (blocknum : Z) : PM unit :=
  p ← mget;
  if forgetFreeSpace p then mret tt
  else
    let len := if decide (freeBlocksLen p <= length (freeBlocks p)) then freeBlocksLen p * 2 else freeBlocksLen p in
    let sorted := match last (freeBlocks p) with Some b => if (b <? blocknum)%Z then false else blocksSorted p | None => blocksSorted p end in
    if decide (length (freeBlocks p) < len) then
      mput (mkPool (pfile p) (nFileBlocks p) false sorted (freeBlocks p ++ [blocknum]) len)
    else mfail EUndef.

(** ** Hierarchies of indirect blocks *)

(** indirect->ptrs[i] *)
Definition slot (ib : IndirectBlock) (i : nat) : PM Z := o ← deref (ptrs ib !! i); deref o.
Definition put_slot (i : nat) (b : Z) (ib : IndirectBlock) : list (option Z) := <[i := Some b]> (ptrs ib).
(** palloc(sizeof(IndirectBlock)), with nextSlot = 0 *)
Definition new_indirect : IndirectBlock := mkInd 0 (replicate BLOCKS_PER_INDIR_BLOCK None).
(** indirect->ptrs[indirect->nextSlot++] = blocknum *)
Definition push_slot (b : Z) (ib : IndirectBlock) : IndirectBlock := mkInd (S (nextSlot ib)) (put_slot (nextSlot ib) b ib).

Fixpoint ltsRecordBlockNum (ibs : list IndirectBlock) (blocknum : Z) : PM (list IndirectBlock) :=
  match ibs with
  | [] => mfail EUndef
  | ib :: nextup =>
    if decide (BLOCKS_PER_INDIR_BLOCK <= nextSlot ib) then
      indirblock ← ltsGetFreeBlock;
      ltsWriteBlock indirblock (Ptrs (ptrs ib));;
      nextup ← match nextup with
               | [] => mret [push_slot indirblock new_indirect]   (* a new level, with room *)
               | _ => ltsRecordBlockNum nextup indirblock
               end;
      mret (push_slot blocknum (mkInd 0 (ptrs ib)) :: nextup)
    else mret (push_slot blocknum ib :: nextup)
  end.

(** Resets a level to its start and fetches a number. *)
Definition restart (p : list (option Z)) : PM (Z * IndirectBlock) :=
  let ib := mkInd 0 p in
  b ← slot ib 0;
  if decide (b = -1)%Z then mret (b, ib) else mret (b, mkInd 1 p).

(** [fuel] bounds the levels; recording the last block of a level may add one. *)
Fixpoint ltsRewindIndirectBlock (fuel : nat) (ibs : list IndirectBlock) (freezing : bool) : PM (Z * list IndirectBlock) :=
  match ibs with
  | [] => mret ((-1)%Z, [])
  | ib :: nextup =>
    match fuel with
    | O => mfail EDiverge
    | S fuel' =>
      let p := if decide (nextSlot ib < BLOCKS_PER_INDIR_BLOCK) then put_slot (nextSlot ib) (-1) ib else ptrs ib in
      '(p, nextup) ← match nextup with
        | [] => mret (p, [])
        | _ =>
          indirblock ← ltsGetFreeBlock;
          ltsWriteBlock indirblock (Ptrs p);;
          nextup ← ltsRecordBlockNum nextup indirblock;
          '(indirblock, nextup) ← ltsRewindIndirectBlock fuel' nextup freezing;
          Assert (bool_decide (indirblock <> -1)%Z);;
          p ← read_ptrs indirblock;
          (if freezing then mret tt else ltsReleaseBlock indirblock);;
          mret (p, nextup)
        end;
      '(b, ib) ← restart p;
      mret (b, ib :: nextup)
    end
  end.

Fixpoint ltsRewindFrozenIndirectBlock (ibs : list IndirectBlock) : PM (Z * list IndirectBlock) :=
  match ibs with
  | [] => mret ((-1)%Z, [])
  | ib :: nextup =>
    '(p, nextup) ← match nextup with
      | [] => mret (ptrs ib, [])
      | _ =>
        '(indirblock, nextup) ← ltsRewindFrozenIndirectBlock nextup;
        Assert (bool_decide (indirblock <> -1)%Z);;
        p ← read_ptrs indirblock;
        mret (p, nextup)
      end;
    '(b, ib) ← restart p;
    mret (b, ib :: nextup)
  end.

(** indirect->ptrs[indirect->nextSlot++], unless it is the end *)
Definition take_slot (ib : IndirectBlock) (nextup : list IndirectBlock) : PM (Z * list IndirectBlock) :=
  b ← slot ib (nextSlot ib);
  if decide (b = -1)%Z then mret (b, ib :: nextup) else mret (b, mkInd (S (nextSlot ib)) (ptrs ib) :: nextup).

Fixpoint ltsRecallNextBlockNum (ibs : list IndirectBlock) (isfrozen : bool) : PM (Z * list IndirectBlock) :=
  match ibs with
  | [] => mret ((-1)%Z, [])
  | ib :: nextup =>
    ended ← (if decide (BLOCKS_PER_INDIR_BLOCK <= nextSlot ib) then mret true
             else b ← slot ib (nextSlot ib); mret (bool_decide (b = -1)%Z));
    if ended : bool then
      match nextup with
      | [] => mret ((-1)%Z, ibs)
      | _ =>
        '(indirblock, nextup') ← ltsRecallNextBlockNum nextup isfrozen;
        if decide (indirblock = -1)%Z then mret ((-1)%Z, ib :: nextup')
        else
          p ← read_ptrs indirblock;
          (if isfrozen then mret tt else ltsReleaseBlock indirblock);;
          take_slot (mkInd 0 p) nextup'
      end
    else take_slot ib nextup
  end.

Fixpoint ltsRecallPrevBlockNum (ibs : list IndirectBlock) : PM (Z * list IndirectBlock) :=
  match ibs with
  | [] => mret ((-1)%Z, [])
  | ib :: nextup =>
    if decide (nextSlot ib <= 1) then
      match nextup with
      | [] => mret ((-1)%Z, ibs)
      | _ =>
        '(indirblock, nextup') ← ltsRecallPrevBlockNum nextup;
        if decide (indirblock = -1)%Z then mret ((-1)%Z, ib :: nextup')
        else
          p ← read_ptrs indirblock;
          let ib := mkInd BLOCKS_PER_INDIR_BLOCK p in
          b ← slot ib (BLOCKS_PER_INDIR_BLOCK - 1);
          mret (b, ib :: nextup')
      end
    else
      b ← slot ib (nextSlot ib - 2);
      mret (b, mkInd (nextSlot ib - 1) (ptrs ib) :: nextup)
  end.

(** ** Tapes *)

Definition set_indirect (v : list IndirectBlock) (lt : LogicalTape) : LogicalTape :=
  mkLt v (writing lt) (frozen lt) (dirty lt) (numFullBlocks lt) (lastBlockBytes lt) (buffer lt) (curBlockNumber lt) (pos lt) (nbytes lt).
Definition set_dirty (v : bool) (lt : LogicalTape) : LogicalTape :=
  mkLt (indirect lt) (writing lt) (frozen lt) v (numFullBlocks lt) (lastBlockBytes lt) (buffer lt) (curBlockNumber lt) (pos lt) (nbytes lt).
Definition set_buffer (v : option (list byte)) (lt : LogicalTape) : LogicalTape :=
  mkLt (indirect lt) (writing lt) (frozen lt) (dirty lt) (numFullBlocks lt) (lastBlockBytes lt) v (curBlockNumber lt) (pos lt) (nbytes lt).
(** curBlockNumber, pos and nbytes *)
Definition set_place (c p n : nat) (lt : LogicalTape) : LogicalTape :=
  mkLt (indirect lt) (writing lt) (frozen lt) (dirty lt) (numFullBlocks lt) (lastBlockBytes lt) (buffer lt) c p n.
Definition set_full (v : nat) (lt : LogicalTape) : LogicalTape :=
  mkLt (indirect lt) (writing lt) (frozen lt) (dirty lt) v (lastBlockBytes lt) (buffer lt) (curBlockNumber lt) (pos lt) (nbytes lt).
(** the end of a write phase: lastBlockBytes, writing and frozen *)
Definition end_write (isfrozen : bool) (lt : LogicalTape) : LogicalTape :=
  mkLt (indirect lt) false isfrozen (dirty lt) (numFullBlocks lt) (nbytes lt) (buffer lt) (curBlockNumber lt) (pos lt) (nbytes lt).

Definition new_tape : LogicalTape := mkLt [] true false false 0 0 None 0 0 0.
Definition LogicalTapeSetCreate (ntapes : nat) : LogicalTapeSet := mkLts (mkPool [] 0 false true [] 32) (replicate ntapes new_tape).

Definition LogicalTapeSetForgetFreeSpace (lts : LogicalTapeSet) : LogicalTapeSet :=
  let p := pool lts in mkLts (mkPool (pfile p) (nFileBlocks p) true (blocksSorted p) (freeBlocks p) (freeBlocksLen p)) (lt_tapes lts).

Definition ltsDumpBuffer (lt : LogicalTape) : PM LogicalTape :=
  datablock ← ltsGetFreeBlock;
  Assert (dirty lt);;
  buf ← deref (buffer lt);
  ltsWriteBlock datablock (Data buf);;
  ibs ← ltsRecordBlockNum (indirect lt) datablock;
  mret (set_dirty false (set_indirect ibs lt)).

(** An operation on a tape of a set *)
Definition on_tape {A} (lts : LogicalTapeSet) (tapenum : nat) (f : LogicalTape -> PM (A * LogicalTape)) : res (A * LogicalTapeSet) :=
  match lt_tapes lts !! tapenum with
  | None => Err EAssert
  | Some lt =>
    match f lt (pool lts) with
    | Ok ((a, lt'), p) => Ok (a, mkLts p (<[tapenum := lt']> (lt_tapes lts)))
    | Err e => Err e
    end
  end.

(** The loop of LogicalTapeWrite; a round copies a byte at least. *)
Fixpoint write_loop (fuel : nat) (data : list byte) (lt : LogicalTape) : PM LogicalTape :=
  match data with
  | [] => mret lt
  | _ =>
    match fuel with
    | O => mfail EDiverge
    | S fuel' =>
      lt ← (if decide (BLCKSZ <= pos lt) then
              lt ← (if dirty lt then ltsDumpBuffer lt else mfail (EElog "invalid logtape state: should be dirty"));
              mret (set_place (S (curBlockNumber lt)) 0 0 (set_full (S (numFullBlocks lt)) lt))
            else mret lt);
      let nthistime := Nat.min (BLCKSZ - pos lt) (length data) in
      Assert (bool_decide (0 < nthistime));;
      buf ← deref (buffer lt);
      let buf := take (pos lt) buf ++ take nthistime data ++ drop (pos lt + nthistime) buf in
      let pos' := pos lt + nthistime in
      write_loop fuel' (drop nthistime data)
        (set_dirty true (set_place (curBlockNumber lt) pos' (if decide (nbytes lt < pos') then pos' else nbytes lt) (set_buffer (Some buf) lt)))
    end
  end.

Definition LogicalTapeWrite (lts : LogicalTapeSet) (tapenum : nat) (data : list byte) : res LogicalTapeSet :=
  r ← on_tape lts tapenum (fun lt =>
    Assert (writing lt);;
    let lt := match buffer lt with Some _ => lt | None => set_buffer (Some (replicate BLCKSZ 0%Z)) lt end in
    let lt := match indirect lt with [] => set_indirect [new_indirect] lt | _ => lt end in
    lt ← write_loop (length data) data lt;
    mret (tt, lt));
  Ok (snd r).

(** Reads the first block, or resets if the tape is empty. *)
Definition load_first (datablocknum : Z) (lt : LogicalTape) : PM LogicalTape :=
  let lt := set_place 0 0 0 lt in
  if decide (datablocknum = -1)%Z then mret lt
  else
    d ← read_data datablocknum;
    (if frozen lt then mret tt else ltsReleaseBlock datablocknum);;
    mret (set_place 0 0 (if decide (0 < numFullBlocks lt) then BLCKSZ else lastBlockBytes lt) (set_buffer (Some d) lt)).

(** The end of a write phase, in LogicalTapeRewind and LogicalTapeFreeze *)
Definition finish_write (freezing : bool) (lt : LogicalTape) : PM LogicalTape :=
  lt ← (if dirty lt then ltsDumpBuffer lt else mret lt);
  let lt := end_write freezing lt in
  '(datablocknum, ibs) ← ltsRewindIndirectBlock (S (length (indirect lt))) (indirect lt) freezing;
  load_first datablocknum (set_indirect ibs lt).

Definition LogicalTapeRewind (lts : LogicalTapeSet) (tapenum : nat) (forWrite : bool) : res LogicalTapeSet :=
  r ← on_tape lts tapenum (fun lt =>
    lt ← (if negb forWrite then
            if writing lt then finish_write false lt
            else
              Assert (frozen lt);;
              '(datablocknum, ibs) ← ltsRewindFrozenIndirectBlock (indirect lt);
              load_first datablocknum (set_indirect ibs lt)
          else
            Assert (negb (writing lt) && negb (frozen lt));;
            let ibs := match indirect lt with [] => [] | ib :: _ => [mkInd 0 (ptrs ib)] end in
            mret (mkLt ibs true (frozen lt) false 0 0 (buffer lt) 0 0 0));
    mret (tt, lt));
  Ok (snd r).

(** The loop of LogicalTapeRead: the bytes read.  A round copies a byte at least. *)
Fixpoint read_loop (fuel : nat) (size : nat) (lt : LogicalTape) : PM (list byte * LogicalTape) :=
  if decide (size = 0) then mret ([], lt)
  else
    match fuel with
    | O => mfail EDiverge
    | S fuel' =>
      '(eof, lt) ← (if decide (nbytes lt <= pos lt) then
          '(datablocknum, ibs) ← ltsRecallNextBlockNum (indirect lt) (frozen lt);
          let lt := set_indirect ibs lt in
          if decide (datablocknum = -1)%Z then mret (true, lt)
          else
            d ← read_data datablocknum;
            (if frozen lt then mret tt else ltsReleaseBlock datablocknum);;
            let c := S (curBlockNumber lt) in
            let n := if decide (c < numFullBlocks lt) then BLCKSZ else lastBlockBytes lt in
            mret (bool_decide (n <= 0), set_place c 0 n (set_buffer (Some d) lt))
        else mret (false, lt));
      if eof : bool then mret ([], lt)
      else
        let nthistime := Nat.min (nbytes lt - pos lt) size in
        Assert (bool_decide (0 < nthistime));;
        buf ← deref (buffer lt);
        let bytes := take nthistime (drop (pos lt) buf) in
        '(rest, lt) ← read_loop fuel' (size - nthistime) (set_place (curBlockNumber lt) (pos lt + nthistime) (nbytes lt) lt);
        mret (bytes ++ rest, lt)
    end.

Definition LogicalTapeRead (lts : LogicalTapeSet) (tapenum : nat) (size : nat) : res (list byte * LogicalTapeSet) :=
  on_tape lts tapenum (fun lt => Assert (negb (writing lt));; read_loop (S size) size lt).

Definition LogicalTapeFreeze (lts : LogicalTapeSet) (tapenum : nat) : res LogicalTapeSet :=
  r ← on_tape lts tapenum (fun lt => Assert (writing lt);; lt ← finish_write true lt; mret (tt, lt));
  Ok (snd r).

(** [k] blocks back; the last one is read. *)
Fixpoint back_loop (k : nat) (lt : LogicalTape) : PM LogicalTape :=
  match k with
  | O => mret lt
  | S k' =>
    '(datablocknum, ibs) ← ltsRecallPrevBlockNum (indirect lt);
    let lt := set_indirect ibs lt in
    if decide (datablocknum = -1)%Z then mfail (EElog "unexpected end of tape")
    else
      let lt := set_place (curBlockNumber lt - 1) (pos lt) (nbytes lt) lt in
      lt ← (if decide (k' = 0) then d ← read_data datablocknum; mret (set_buffer (Some d) lt) else mret lt);
      back_loop k' lt
  end.

(** [k] blocks forward; the last one is read. *)
Fixpoint forward_loop (k : nat) (lt : LogicalTape) : PM LogicalTape :=
  match k with
  | O => mret lt
  | S k' =>
    '(datablocknum, ibs) ← ltsRecallNextBlockNum (indirect lt) (frozen lt);
    let lt := set_indirect ibs lt in
    if decide (datablocknum = -1)%Z then mfail (EElog "unexpected end of tape")
    else
      let lt := set_place (S (curBlockNumber lt)) (pos lt) (nbytes lt) lt in
      lt ← (if decide (k' = 0) then d ← read_data datablocknum; mret (set_buffer (Some d) lt) else mret lt);
      forward_loop k' lt
  end.

Definition LogicalTapeBackspace (lts : LogicalTapeSet) (tapenum : nat) (size : nat) : res (bool * LogicalTapeSet) :=
  on_tape lts tapenum (fun lt =>
    Assert (frozen lt);;
    if decide (size <= pos lt) then mret (true, set_place (curBlockNumber lt) (pos lt - size) (nbytes lt) lt)
    else
      let size := size - pos lt in
      let nblocks := size / BLCKSZ in
      let size := size mod BLCKSZ in
      let nblocks' := if decide (size <> 0) then S nblocks else nblocks in
      let newpos := if decide (size <> 0) then BLCKSZ - size else 0 in
      if decide (curBlockNumber lt < nblocks') then mret (false, lt)
      else
        lt ← back_loop nblocks' lt;
        mret (true, set_place (curBlockNumber lt) newpos BLCKSZ lt)).

Definition LogicalTapeSeek (lts : LogicalTapeSet) (tapenum : nat) (blocknum offset : nat) : res (bool * LogicalTapeSet) :=
  on_tape lts tapenum (fun lt =>
    Assert (frozen lt);;
    Assert (bool_decide (offset <= BLCKSZ));;
    if bool_decide (blocknum = curBlockNumber lt) && bool_decide (offset <= nbytes lt)
    then mret (true, set_place (curBlockNumber lt) offset (nbytes lt) lt)
    else if bool_decide (numFullBlocks lt < blocknum) || (bool_decide (blocknum = numFullBlocks lt) && bool_decide (lastBlockBytes lt < offset))
    then mret (false, lt)
    else
      lt ← back_loop (curBlockNumber lt - blocknum) lt;
      lt ← forward_loop (blocknum - curBlockNumber lt) lt;
      let n := if decide (curBlockNumber lt < numFullBlocks lt) then BLCKSZ else lastBlockBytes lt in
      mret (true, set_place (curBlockNumber lt) offset n lt)).

Definition LogicalTapeTell (lts : LogicalTapeSet) (tapenum : nat) : res (nat * nat) :=
  match lt_tapes lts !! tapenum with Some lt => Ok (curBlockNumber lt, pos lt) | None => Err EAssert end.

Definition LogicalTapeSetBlocks (lts : LogicalTapeSet) : Z := nFileBlocks (pool lts).

(** ** The pool of blocks *)

Lemma BLCKSZ_pos : 0 < BLCKSZ.
Proof. unfold BLCKSZ. lia. Qed.
Lemma PER_ge : 2 <= BLOCKS_PER_INDIR_BLOCK.
Proof. apply Nat.leb_le. vm_compute. reflexivity. Qed.
#[global] Opaque BLCKSZ BLOCKS_PER_INDIR_BLOCK.

#[export] Instance freeBlocks_cmp_laws : CmpLaws freeBlocks_cmp.
Proof. unfold freeBlocks_cmp. split; intros *; repeat case_match; lia. Qed.

Lemma pg_qsort_sorts {A} (cmp : A -> A -> Z) `{!CmpLaws cmp} l : exists l', pg_qsort cmp l = Ok l' /\ l' ≡ₚ l /\ sorted cmp l'.
Proof. apply (qsort_fuel_spec cmp _ (fun _ => True)); [done|done|done|by apply Forall_true|lia]. Qed.

(** The block with a number. *)
Definition blk (p : Pool) (b : Z) : option block := if decide (0 <= b)%Z then pfile p !! Z.to_nat b else None.

(** [U] are the blocks in use. *)
Record pool_ok (p : Pool) (U : list Z) : Prop := {
  po_len : nFileBlocks p = Z.of_nat (length (pfile p));
  po_nodup : NoDup (freeBlocks p ++ U);
  po_range : Forall (fun b => 0 <= b < nFileBlocks p)%Z (freeBlocks p ++ U);
  po_room : length (freeBlocks p) <= freeBlocksLen p /\ 0 < freeBlocksLen p;
  po_sorted : blocksSorted p = true -> sorted freeBlocks_cmp (freeBlocks p) }.

Definition same_blocks (U : list Z) (p p' : Pool) : Prop := forall b, b ∈ U -> blk p' b = blk p b.

#[export] Instance pool_ok_proper p : Proper (Permutation ==> iff) (pool_ok p).
Proof.
  intros U U' HU. split; intros [H1 H2 H3 H4 H5]; split; try done; first [by rewrite <- HU|by rewrite HU].
Qed.

Lemma pool_perm p U U' : pool_ok p U -> U ≡ₚ U' -> pool_ok p U'.
Proof. intros H HU. by rewrite <- HU. Qed.

Lemma same_blocks_refl U p : same_blocks U p p.
Proof. done. Qed.
Lemma same_blocks_trans U p p1 p2 : same_blocks U p p1 -> same_blocks U p1 p2 -> same_blocks U p p2.
Proof. intros H1 H2 b Hb. rewrite H2 by done. by apply H1. Qed.
Lemma same_blocks_sub U U' p p' : U ⊆ U' -> same_blocks U' p p' -> same_blocks U p p'.
Proof. intros HU H b Hb. apply H. by apply HU. Qed.

Lemma pool_ok_drop p n U : pool_ok p (n :: U) -> pool_ok p U.
Proof.
  intros [H1 H2 H3 H4 H5]. split; try done.
  - apply NoDup_app in H2 as (? & Hd & [? ?]%NoDup_cons). apply NoDup_app. set_solver.
  - rewrite Forall_app, Forall_cons in *. tauto.
Qed.
Lemma pool_ok_drops p V U : pool_ok p (V ++ U) -> pool_ok p U.
Proof. induction V as [|n V IH]; [done|]. intros H. by apply IH, (pool_ok_drop _ n). Qed.
Lemma pool_ok_nonneg p n U : pool_ok p U -> n ∈ U -> (0 <= n)%Z.
Proof. intros [_ _ H _ _] Hn. rewrite Forall_forall in H. destruct (H n); [set_solver|done]. Qed.

Lemma write_block p n b :
  (0 <= n <= Z.of_nat (length (pfile p)))%Z ->
  exists p', ltsWriteBlock n b p = Ok (tt, p') /\ blk p' n = Some b /\ (forall c, c <> n -> blk p' c = blk p c \/ (Z.of_nat (length (pfile p)) <= c)%Z) /\
    length (pfile p') = Nat.max (length (pfile p)) (S (Z.to_nat n)) /\
    p' = mkPool (pfile p') (nFileBlocks p) (forgetFreeSpace p) (blocksSorted p) (freeBlocks p) (freeBlocksLen p).
Proof.
  intros Hn. unfold ltsWriteBlock, mbind, M_bind, mget. rewrite !bool_decide_true by lia. simpl. eexists. split; [reflexivity|].
  unfold blk. simpl. split_and!.
  - rewrite decide_True by lia. rewrite lookup_app_r by (rewrite length_take; lia).
    replace (Z.to_nat n - length (take (Z.to_nat n) (pfile p))) with 0 by (rewrite length_take; lia). done.
  - intros c Hc. destruct (decide (0 <= c)%Z) as [Hc0|]; [|by left]. destruct (decide (Z.of_nat (length (pfile p)) <= c)%Z); [by right|left].
    destruct (decide (c < n)%Z).
    + rewrite lookup_app_l by (rewrite length_take; lia). by rewrite lookup_take_lt by lia.
    + rewrite lookup_app_r by (rewrite length_take; lia). rewrite length_take.
      replace (Z.to_nat c - Nat.min (Z.to_nat n) (length (pfile p))) with (S (Z.to_nat c - S (Z.to_nat n))) by lia.
      simpl. rewrite lookup_drop. f_equal. lia.
  - rewrite length_app, length_take. simpl. rewrite length_drop. lia.
  - done.
Qed.

(** A block is taken and written at once. *)
Lemma alloc_write p U b : pool_ok p U ->
  exists n p1 p', ltsGetFreeBlock p = Ok (n, p1) /\ ltsWriteBlock n b p1 = Ok (tt, p') /\ pool_ok p' (n :: U) /\
    blk p' n = Some b /\ same_blocks U p p' /\ (0 <= n)%Z.
Proof.
  intros [H1 H2 H3 [H4 H4'] H5].
  assert (HU : forall c, c ∈ U -> (0 <= c < nFileBlocks p)%Z) by (intros c Hc; rewrite Forall_forall in H3; apply H3; set_solver).
  unfold ltsGetFreeBlock, mbind, M_bind, mget, mput, mret, M_ret. destruct (freeBlocks p) as [|f fs] eqn:Ef.
  - simpl in *. eexists _, _. set (p1 := mkPool _ _ _ _ _ _).
    destruct (write_block p1 (nFileBlocks p) b) as (p' & Hw & Hb & Hc & Hl & Hp'); [unfold p1; simpl; lia|].
    exists p'. split; [reflexivity|]. split; [exact Hw|]. unfold p1 in *. simpl in *. rewrite Hp'. split_and!.
    + split; simpl; rewrite ?Ef; try done.
      * rewrite Hl, H1. lia.
      * apply NoDup_cons. split; [|done]. intros Hin. specialize (HU _ Hin). lia.
      * apply Forall_cons. split; [lia|]. eapply Forall_impl; [exact H3|]. simpl. intros; lia.
    + by rewrite <- Hp'.
    + intros c Hin. destruct (Hc c) as [E|E]; [intros ->; specialize (HU _ Hin); lia|rewrite <- Hp', E; done|specialize (HU _ Hin); lia].
    + lia.
  - set (fb := f :: fs) in *.
    assert (exists fb', (if blocksSorted p then Ok fb else pg_qsort freeBlocks_cmp fb) = Ok fb' /\ fb' ≡ₚ fb /\ sorted freeBlocks_cmp fb') as (fb' & -> & Hp & Hs).
    { destruct (blocksSorted p) eqn:Es; [exists fb; auto|]. apply (pg_qsort_sorts freeBlocks_cmp fb). }
    destruct (last fb') as [n|] eqn:El.
    2:{ apply last_None in El. subst fb'. apply Permutation_nil in Hp. done. }
    apply last_Some in El as [fr ->]. rewrite length_app, Nat.add_sub, take_app_length. simpl.
    rewrite <- Hp in H2, H3. rewrite <- app_assoc in H2, H3. simpl in H2, H3.
    assert (Hn : (0 <= n < nFileBlocks p)%Z) by (rewrite Forall_app, Forall_cons in H3; tauto).
    eexists _, _. set (p1 := mkPool _ _ _ _ _ _).
    destruct (write_block p1 n b) as (p' & Hw & Hb & Hc & Hl & Hp'); [unfold p1; simpl; lia|].
    exists p'. split; [reflexivity|]. split; [exact Hw|]. unfold p1 in *. simpl in *. rewrite Hp'. split_and!; simpl.
    + split; simpl; try done.
      * rewrite Hl, H1. lia.
      * apply Permutation_length in Hp. rewrite length_app in Hp. simpl in Hp. lia.
      * intros _. apply (sorted_app_inv freeBlocks_cmp) in Hs as [? _]; done.
    + by rewrite <- Hp'.
    + apply NoDup_app in H2 as (_ & _ & [Hnin _]%NoDup_cons).
      intros c Hin. destruct (Hc c) as [E|E]; [intros ->; done|by rewrite <- Hp', E|]. specialize (HU _ Hin). lia.
    + lia.
Qed.

Lemma release_block p n U : pool_ok p (n :: U) ->
  exists p', ltsReleaseBlock n p = Ok (tt, p') /\ pool_ok p' U /\ same_blocks U p p'.
Proof.
  intros Hok. pose proof (pool_ok_drop _ _ _ Hok) as Hok'. destruct Hok as [H1 H2 H3 [H4 H4'] H5].
  unfold ltsReleaseBlock, mbind, M_bind, mget, mput. destruct (forgetFreeSpace p); [by exists p|].
  rewrite decide_True by (case_decide; lia). eexists. split; [reflexivity|]. split; [|done]. split; simpl; try done.
  - by rewrite <- app_assoc.
  - by rewrite <- app_assoc.
  - rewrite length_app. simpl. case_decide; lia.
  - destruct (last (freeBlocks p)) as [l|] eqn:El.
    + destruct (Z.ltb_spec l n); [done|]. intros Hs. specialize (H5 Hs). apply (sorted_snoc freeBlocks_cmp); [done|]. intros y Hy.
      apply last_Some in El as [fr Efr]. rewrite Efr in H5, Hy. assert (Hyl : (freeBlocks_cmp y l <= 0)%Z).
      { apply elem_of_app in Hy as [Hy| ->%list_elem_of_singleton]; [|unfold freeBlocks_cmp; repeat case_match; lia].
        apply (sorted_app_inv freeBlocks_cmp) in H5 as (_ & _ & H12). apply H12; [done|set_solver]. }
      revert Hyl. unfold freeBlocks_cmp. repeat case_match; lia.
    + apply last_None in El. rewrite El. simpl. intros _. repeat constructor.
Qed.

(** ** Hierarchies of block numbers *)

(** The first slots hold these numbers; after them comes the end mark unless the block is full. *)
Definition holds (q : list (option Z)) (l : list Z) : Prop :=
  length q = BLOCKS_PER_INDIR_BLOCK /\ take (length l) q = Some <$> l.
Definition ends (q : list (option Z)) (l : list Z) : Prop :=
  length l < BLOCKS_PER_INDIR_BLOCK -> q !! length l = Some (Some (-1)%Z).

Lemma holds_length q l : holds q l -> length l <= BLOCKS_PER_INDIR_BLOCK.
Proof. intros [Hl Ht]. apply (f_equal length) in Ht. rewrite length_take, length_fmap in Ht. lia. Qed.
Lemma holds_lookup q l i b : holds q l -> l !! i = Some b -> q !! i = Some (Some b).
Proof.
  intros [_ Ht] Hi. rewrite <- (lookup_take_lt q (length l)) by (by eapply lookup_lt_Some). by rewrite Ht, list_lookup_fmap, Hi.
Qed.
Lemma holds_snoc q l b : holds q l -> length l < BLOCKS_PER_INDIR_BLOCK -> holds (<[length l := Some b]> q) (l ++ [b]).
Proof.
  intros [Hl Ht] Hlt. split; [by rewrite length_insert|]. rewrite length_app, fmap_app. simpl.
  rewrite (take_insert_lt_S q (length l) (Some b)) || idtac.
  replace (length l + 1) with (S (length l)) by lia.
  rewrite (take_S_r _ _ (Some b)) by (apply list_lookup_insert_eq; lia). by rewrite take_insert_ge, Ht by lia.
Qed.
Lemma holds_restart q l b : holds q l -> holds (<[0 := Some b]> q) [b].
Proof.
  intros [Hl _]. pose proof PER_ge. split; [by rewrite length_insert|]. destruct q; simpl in *; [lia|]. by rewrite take_0.
Qed.
Lemma holds_mark q l : holds q l -> length l < BLOCKS_PER_INDIR_BLOCK ->
  holds (<[length l := Some (-1)%Z]> q) l /\ ends (<[length l := Some (-1)%Z]> q) l.
Proof.
  intros [Hl Ht] Hlt. split; [split; [by rewrite length_insert|by rewrite take_insert_ge by lia]|].
  intros _. apply list_lookup_insert_eq. lia.
Qed.

(** A full indirect block on file, with its number. *)
Definition full_on_file (p : Pool) (c : Z * list Z) : Prop :=
  length c.2 = BLOCKS_PER_INDIR_BLOCK /\ exists q, blk p c.1 = Some (Ptrs q) /\ holds q c.2.
Definition on_file (p : Pool) (c : Z * list Z) : Prop :=
  c.2 <> [] /\ exists q, blk p c.1 = Some (Ptrs q) /\ holds q c.2 /\ ends q c.2.

(** While writing: the hierarchy [ibs] has recorded the numbers [s], and owns the blocks [own] on file. *)
Fixpoint wlevels (p : Pool) (ibs : list IndirectBlock) (s own : list Z) : Prop :=
  match ibs with
  | [] => s = [] /\ own = []
  | ib :: up => exists chunks cur own_up,
      s = concat chunks.*2 ++ cur /\ Forall (Z.le 0) s /\ nextSlot ib = length cur /\ holds (ptrs ib) cur /\
      Forall (full_on_file p) chunks /\ own = chunks.*1 ++ own_up /\ wlevels p up chunks.*1 own_up /\
      (up <> [] -> cur <> [] /\ chunks <> [])
  end.

Lemma full_frame p p' U c : same_blocks U p p' -> c.1 ∈ U -> full_on_file p c -> full_on_file p' c.
Proof. intros H Hin [Hl (q & Hb & Hq)]. split; [done|]. exists q. rewrite (H _ Hin). split; [exact Hb|exact Hq]. Qed.
Lemma on_file_frame p p' U c : same_blocks U p p' -> c.1 ∈ U -> on_file p c -> on_file p' c.
Proof. intros H Hin [Hl (q & Hb & Hq)]. split; [done|]. exists q. rewrite (H _ Hin). split; [exact Hb|exact Hq]. Qed.
Lemma full_is_on_file p c : full_on_file p c -> on_file p c.
Proof.
  intros [Hl (q & Hb & Hq)]. pose proof PER_ge. split; [intros E; rewrite E in Hl; simpl in Hl; lia|]. exists q. split_and!; [done|done|].
  intros Hlt. lia.
Qed.

Lemma wlevels_frame p p' ibs : forall s own, same_blocks own p p' -> wlevels p ibs s own -> wlevels p' ibs s own.
Proof.
  induction ibs as [|ib up IH]; intros s own Hs; [done|]. intros (chunks & cur & own_up & H1 & H2 & H3 & H4 & H5 & -> & H7 & H8).
  exists chunks, cur, own_up. split_and!; try done.
  - rewrite Forall_forall in *. intros c Hc. eapply full_frame; [exact Hs| |by apply H5].
    apply elem_of_app. left. apply list_elem_of_fmap. eauto.
  - apply IH; [|done]. eapply same_blocks_sub; [|exact Hs]. set_solver.
Qed.

Lemma wlevels_nonneg p ibs s own : wlevels p ibs s own -> Forall (Z.le 0) s.
Proof. destruct ibs; [intros [-> _]; constructor|]. intros (? & ? & ? & _ & H & _). done. Qed.

(** What recording one more number does to the shape of the hierarchy. *)
Definition grows (ibs ibs' : list IndirectBlock) (n : Z) : Prop :=
  exists ib up, ibs = ib :: up /\
    ((nextSlot ib < BLOCKS_PER_INDIR_BLOCK /\ ibs' = push_slot n ib :: up) \/
     (BLOCKS_PER_INDIR_BLOCK <= nextSlot ib /\
      (length ibs' = length ibs \/ (length ibs' = S (length ibs) /\ Forall (fun ib => nextSlot ib = 1) ibs')))).

Lemma record_spec ibs : forall p s own F n,
  ibs <> [] -> (0 <= n)%Z -> pool_ok p (own ++ F) -> wlevels p ibs s own ->
  exists ibs' own' p', ltsRecordBlockNum ibs n p = Ok (ibs', p') /\ wlevels p' ibs' (s ++ [n]) own' /\ pool_ok p' (own' ++ F) /\
    same_blocks F p p' /\ ibs' <> [] /\ grows ibs ibs' n.
Proof.
  induction ibs as [|ib up IH]; intros p s own F n Hne Hn Hok; [done|].
  intros (chunks & cur & own_up & -> & Hnn & Hns & Hh & Hch & -> & Hup & Hfull). cbn [ltsRecordBlockNum].
  assert (Hnn' : Forall (Z.le 0) ((concat chunks.*2 ++ cur) ++ [n])) by (apply Forall_app; split; [done|by constructor]).
  pose proof (holds_length _ _ Hh) as Hcl. destruct (decide (BLOCKS_PER_INDIR_BLOCK <= nextSlot ib)) as [Hge|Hlt].
  - destruct (alloc_write p ((chunks.*1 ++ own_up) ++ F) (Ptrs (ptrs ib)) Hok) as (b & p1 & p2 & Hg & Hw & Hok2 & Hb & Hsame & Hb0).
    rewrite (mbind_ok _ _ _ _ _ Hg), (mbind_ok _ _ _ _ _ Hw).
    assert (Hnew : full_on_file p2 (b, cur)) by (split; [simpl; lia|by exists (ptrs ib)]).
    assert (Hold : Forall (full_on_file p2) chunks).
    { rewrite Forall_forall in *. intros c Hc. eapply full_frame; [exact Hsame| |by apply Hch]. rewrite !elem_of_app, list_elem_of_fmap. eauto. }
    assert (Hlast : holds (put_slot 0 n (mkInd 0 (ptrs ib))) [n]) by (by eapply holds_restart).
    destruct up as [|ib1 up].
    + destruct Hup as [Hc0 ->]. apply fmap_nil_inv in Hc0 as ->. simpl in *.
      eexists _, [b], p2. split; [reflexivity|]. split_and!; [|done|done|done|].
      * exists [(b, cur)], [n], []. split_and!; try done; simpl; [by rewrite app_nil_r|by constructor|].
        exists [], [b], []. pose proof PER_ge. split_and!; try done. by repeat constructor.
      * exists ib, []. split; [done|]. right. split; [done|]. right. split; [done|]. by repeat constructor.
    + destruct (IH p2 chunks.*1 own_up (b :: chunks.*1 ++ F) b) as (up' & own' & p3 & Hr & Hw3 & Hok3 & Hsame3 & Hne3 & Hg3); clear IH.
      { done. } { done. } { eapply pool_perm; [exact Hok2|perm]. }
      { eapply wlevels_frame; [|exact Hup]. eapply same_blocks_sub; [|exact Hsame]. incl. }
      rewrite (mbind_ok _ _ _ _ _ Hr). eexists _, ((chunks.*1 ++ [b]) ++ own'), p3. split; [reflexivity|]. split_and!; [| | |discriminate|].
      * destruct (Hfull ltac:(done)) as [Hc1 Hc2]. exists (chunks ++ [(b, cur)]), [n], own'. rewrite !fmap_app, concat_app. simpl. rewrite app_nil_r.
        split_and!; [reflexivity|exact Hnn'|reflexivity|exact Hlast| |reflexivity|exact Hw3|intros _; split; [discriminate|by destruct chunks]].
        apply Forall_app. split.
        -- rewrite Forall_forall in *. intros c Hc. eapply full_frame; [exact Hsame3| |by apply Hold]. rewrite elem_of_cons, elem_of_app, list_elem_of_fmap. eauto.
        -- constructor; [|constructor]. eapply full_frame; [exact Hsame3| |exact Hnew]. by left.
      * eapply pool_perm; [exact Hok3|perm].
      * eapply same_blocks_trans; [eapply same_blocks_sub; [|exact Hsame]; incl|]. eapply same_blocks_sub; [|exact Hsame3]. incl.
      * exists ib, (ib1 :: up). split; [done|]. right. split; [done|]. destruct Hg3 as (ib2 & up2 & [= <- <-] & [[_ ->]|[_ [Hl|[Hl Hall]]]]);
          [by left|left; simpl in *; lia|right]. split; [simpl in *; lia|]. by constructor.
  - eexists _, _, p. split; [reflexivity|]. split_and!; [|exact Hok|done|discriminate|exists ib, up; split; [done|left; split; [lia|done]]].
    exists chunks, (cur ++ [n]), own_up. split_and!; [by rewrite app_assoc|exact Hnn'| | |exact Hch|reflexivity|exact Hup|].
    + rewrite length_app. simpl. lia.
    + unfold push_slot, put_slot. simpl. rewrite Hns. apply holds_snoc; [done|lia].
    + intros Hup'. split; [by destruct cur|by apply Hfull].
Qed.

(** All blocks but the last are full. *)
Definition full_but_last (cs : list (list Z)) : Prop :=
  forall i c, cs !! i = Some c -> S i < length cs -> length c = BLOCKS_PER_INDIR_BLOCK.

(** While reading: [past] are the numbers handed out, the last one being where the tape is, and [rest] those to come.  When the
    tape is not frozen, only the blocks still to be read are on file. *)
Fixpoint rlevels (p : Pool) (fz : bool) (ibs : list IndirectBlock) (past rest own : list Z) : Prop :=
  match ibs with
  | [] => past = [] /\ rest = [] /\ own = []
  | ib :: up => exists pre cur post,
      past = concat pre.*2 ++ take (nextSlot ib) cur /\ rest = drop (nextSlot ib) cur ++ concat post.*2 /\
      nextSlot ib <= length cur /\ holds (ptrs ib) cur /\ ends (ptrs ib) cur /\
      full_but_last (pre.*2 ++ cur :: post.*2) /\ Forall (Z.le 0) (concat (pre.*2 ++ cur :: post.*2)) /\
      Forall (on_file p) (if fz then pre ++ post else post) /\
      match up with
      | [] => pre = [] /\ post = [] /\ own = []
      | _ => exists b own_up, 1 <= nextSlot ib /\ (fz = true -> on_file p (b, cur)) /\ rlevels p fz up (pre.*1 ++ [b]) post.*1 own_up /\
          own = (if fz then pre.*1 ++ b :: post.*1 else post.*1) ++ own_up
      end
  end.

Lemma rlevels_frame p p' fz ibs : forall past rest own, same_blocks own p p' -> rlevels p fz ibs past rest own -> rlevels p' fz ibs past rest own.
Proof.
  induction ibs as [|ib up IH]; intros past rest own Hs; [done|].
  intros (pre & cur & post & H1 & H2 & H3 & H4 & H5 & H6 & H7 & H8 & H9). exists pre, cur, post. split_and!; try assumption.
  - destruct up as [|ib1 up].
    + destruct H9 as (-> & -> & ->). by destruct fz.
    + destruct H9 as (b & own_up & _ & _ & _ & ->). rewrite Forall_forall in *. intros c Hc. eapply on_file_frame; [exact Hs| |by apply H8].
      destruct fz; rewrite !elem_of_app, ?elem_of_cons, !list_elem_of_fmap in *; naive_solver.
  - destruct up as [|ib1 up]; [done|]. destruct H9 as (b & own_up & Hk & Hb & Hr & ->). exists b, own_up. split_and!; [done| |apply IH; [|exact Hr]|done].
    + intros ->. eapply on_file_frame; [exact Hs| |by apply Hb]. rewrite elem_of_app, elem_of_app, elem_of_cons. tauto.
    + eapply same_blocks_sub; [|exact Hs]. incl.
Qed.

Lemma read_ptrs_ok p n q : (0 <= n)%Z -> blk p n = Some (Ptrs q) -> read_ptrs n p = Ok (q, p).
Proof. unfold blk. intros H. rewrite decide_True by done. intros Hb. unfold read_ptrs, ltsReadBlock, mbind, M_bind, mget. by rewrite decide_True, Hb by done. Qed.
Lemma read_data_ok p n d : (0 <= n)%Z -> blk p n = Some (Data d) -> read_data n p = Ok (d, p).
Proof. unfold blk. intros H. rewrite decide_True by done. intros Hb. unfold read_data, ltsReadBlock, mbind, M_bind, mget. by rewrite decide_True, Hb by done. Qed.

Lemma slot_ok ib i b p : ptrs ib !! i = Some (Some b) -> slot ib i p = Ok (b, p).
Proof. intros H. unfold slot, deref, mbind, M_bind. by rewrite H. Qed.

(** The first number of a block, or the end mark. *)
Lemma restart_ok q l p : holds q l -> ends q l -> Forall (Z.le 0) l ->
  restart q p = Ok ((default (-1)%Z (head l), mkInd (Nat.min 1 (length l)) q), p).
Proof.
  intros Hh He Hn. pose proof PER_ge. unfold restart. destruct l as [|b l].
  - specialize (He ltac:(simpl; lia)). by rewrite (mbind_ok _ _ _ _ _ (slot_ok (mkInd 0 q) 0 _ p He)).
  - rewrite (mbind_ok _ _ _ _ _ (slot_ok (mkInd 0 q) 0 b p (holds_lookup q (b :: l) 0 b Hh eq_refl))). apply Forall_cons in Hn as [Hb _].
    by rewrite decide_False by lia.
Qed.

Lemma full_but_last_cons c cs : full_but_last (c :: cs) -> full_but_last cs /\ (cs <> [] -> length c = BLOCKS_PER_INDIR_BLOCK).
Proof.
  intros H. split.
  - intros i x Hi Hl. apply (H (S i) x Hi). simpl. lia.
  - intros Hne. apply (H 0 c eq_refl). destruct cs; simpl; [done|lia].
Qed.
Lemma full_but_last_app cs1 cs2 : full_but_last (cs1 ++ cs2) -> full_but_last cs2 /\ (cs2 <> [] -> Forall (fun c => length c = BLOCKS_PER_INDIR_BLOCK) cs1).
Proof.
  induction cs1 as [|c cs1 IH]; [by intros; split|]. simpl. intros [H1 H2]%full_but_last_cons. destruct (IH H1) as [? H3]. split; [done|].
  intros Hne. constructor; [apply H2; by destruct cs1|by apply H3].
Qed.

Lemma rlevels_nonneg p fz ibs past rest own : rlevels p fz ibs past rest own -> Forall (Z.le 0) (past ++ rest).
Proof.
  destruct ibs as [|ib up]; [intros (-> & -> & _); constructor|]. intros (pre & cur & post & -> & -> & _ & _ & _ & _ & Hn & _).
  rewrite <- app_assoc, (app_assoc (take _ _)), take_drop. by rewrite concat_app in Hn.
Qed.

(** A level at its start. *)
Lemma start_level p fz q cur post up own :
  holds q cur -> ends q cur -> full_but_last (cur :: post.*2) -> Forall (Z.le 0) (concat (cur :: post.*2)) -> Forall (on_file p) post ->
  match up with
  | [] => post = [] /\ own = []
  | _ => exists b own_up, cur <> [] /\ (fz = true -> on_file p (b, cur)) /\ rlevels p fz up [b] post.*1 own_up /\
         own = (if fz then b :: post.*1 else post.*1) ++ own_up
  end ->
  rlevels p fz (mkInd (Nat.min 1 (length cur)) q :: up) (take 1 (cur ++ concat post.*2)) (drop 1 (cur ++ concat post.*2)) own.
Proof.
  intros Hh He Hf Hn Ho Hup. exists [], cur, post.
  assert (Hcur : cur = [] -> post = []) by (intros ->; destruct up; [by destruct Hup|by destruct Hup as (? & ? & ? & _)]).
  split_and!; cbn [nextSlot ptrs fmap list_fmap app]; [| |lia|exact Hh|exact He|exact Hf|exact Hn|by destruct fz|].
  - destruct cur; [by rewrite (Hcur eq_refl)|]. simpl. by rewrite !take_0.
  - destruct cur; [by rewrite (Hcur eq_refl)|]. simpl. by rewrite !drop_0.
  - destruct up; [destruct Hup; by split|]. destruct Hup as (b & own_up & Hc & Hb & Hr & ->). exists b, own_up. split_and!; [|exact Hb|exact Hr|by destruct fz].
    destruct cur; [done|simpl; lia].
Qed.

(** Everything from the start again, on a frozen tape. *)
Lemma rewind_frozen_spec ibs : forall p past rest own,
  rlevels p true ibs past rest own ->
  exists ibs', ltsRewindFrozenIndirectBlock ibs p = Ok ((default (-1)%Z (head (past ++ rest)), ibs'), p) /\
    rlevels p true ibs' (take 1 (past ++ rest)) (drop 1 (past ++ rest)) own /\ length ibs' = length ibs.
Proof.
  induction ibs as [|ib up IH]; intros p past rest own.
  - intros (-> & -> & ->). by exists [].
  - intros (pre & cur & post & -> & -> & Hk & Hh & He & Hf & Hn & Ho & Hup). cbn [ltsRewindFrozenIndirectBlock].
    rewrite <- app_assoc, (app_assoc (take _ _)), take_drop. destruct up as [|ib1 up].
    + destruct Hup as (-> & -> & ->). erewrite mbind_ok; [|reflexivity]. simpl in *. rewrite app_nil_r in Hn.
      rewrite (mbind_ok _ _ _ _ _ (restart_ok _ _ p Hh He Hn)). rewrite app_nil_r. eexists. split; [reflexivity|]. split; [|done].
      pose proof (start_level p true (ptrs ib) cur [] [] []) as Hst. simpl in Hst. rewrite app_nil_r in Hst. by apply Hst.
    + destruct Hup as (b & own_up & Hk1 & Hb & Hr & ->). destruct (IH p _ _ _ Hr) as (up' & Hrw & Hr' & Hl'). rewrite <- app_assoc in Hrw, Hr'. simpl in Hrw, Hr'.
      destruct (pre ++ (b, cur) :: post) as [|[b0 c0] chunks] eqn:Ech; [by destruct pre|].
      assert (Hall : pre.*1 ++ b :: post.*1 = b0 :: chunks.*1) by (change (b :: post.*1) with ((b, cur) :: post).*1; by rewrite <- fmap_app, Ech).
      assert (Hall2 : pre.*2 ++ cur :: post.*2 = c0 :: chunks.*2) by (change (cur :: post.*2) with ((b, cur) :: post).*2; by rewrite <- fmap_app, Ech).
      assert (Ho' : Forall (on_file p) ((b0, c0) :: chunks)).
      { rewrite <- Ech. rewrite Forall_app, Forall_cons in *. destruct Ho. split_and!; [done|by apply Hb|done]. }
      rewrite Hall2 in Hf, Hn. rewrite Hall in Hrw, Hr'. rewrite Hall. simpl in Hrw, Hr'.
      replace (concat pre.*2 ++ cur ++ concat post.*2) with (c0 ++ concat chunks.*2)
        by (transitivity (concat (pre.*2 ++ cur :: post.*2)); [by rewrite Hall2|by rewrite concat_app]).
      apply Forall_cons in Ho' as [(Hc0 & q & Hq & Hqh & Hqe) Ho']. simpl in *.
      assert (Hnb : (0 <= b0)%Z).
      { apply rlevels_nonneg in Hr'. by apply Forall_cons in Hr' as [? _]. }
      rewrite (mbind_ok _ _ _ (q, up') p).
      2:{ rewrite (mbind_ok _ _ _ _ _ Hrw). simpl. erewrite mbind_ok; [|unfold Assert; by rewrite bool_decide_true by lia].
          by rewrite (mbind_ok _ _ _ _ _ (read_ptrs_ok _ _ _ Hnb Hq)). }
      rewrite Forall_app in Hn. rewrite (mbind_ok _ _ _ _ _ (restart_ok _ _ p Hqh Hqe (proj1 Hn))).
      eexists. split; [by destruct c0|]. split; [|simpl; lia]. apply start_level; try done; [by apply Forall_app|].
      destruct up' as [|ib2 up']; [simpl in Hl'; lia|]. exists b0, own_up. split_and!; [done|intros _; split; [done|by exists q]|exact Hr'|done].
Qed.

Lemma take_slot_ok ib up b p : ptrs ib !! nextSlot ib = Some (Some b) -> (0 <= b)%Z ->
  take_slot ib up p = Ok ((b, mkInd (S (nextSlot ib)) (ptrs ib) :: up), p).
Proof. intros Hb Hn. unfold take_slot. rewrite (mbind_ok _ _ _ _ _ (slot_ok _ _ _ p Hb)). by rewrite decide_False by lia. Qed.

(** Whether a level has handed out all of its block. *)
Lemma ended_ok ib cur p : nextSlot ib <= length cur -> holds (ptrs ib) cur -> ends (ptrs ib) cur -> Forall (Z.le 0) cur ->
  (if decide (BLOCKS_PER_INDIR_BLOCK <= nextSlot ib) then mret true else b ← slot ib (nextSlot ib); mret (bool_decide (b = -1)%Z)) p =
    Ok (bool_decide (nextSlot ib = length cur), p).
Proof.
  intros Hk Hh He Hn. pose proof (holds_length _ _ Hh). destruct (decide (BLOCKS_PER_INDIR_BLOCK <= nextSlot ib)).
  - rewrite bool_decide_true by lia. done.
  - destruct (decide (nextSlot ib = length cur)) as [E|E].
    + rewrite (mbind_ok _ _ _ (-1)%Z p); [by rewrite (bool_decide_true (nextSlot ib = length cur))|]. apply slot_ok. rewrite E. apply He. lia.
    + destruct (lookup_lt_is_Some_2 cur (nextSlot ib)) as [b Hb]; [lia|].
      rewrite (mbind_ok _ _ _ b p) by (apply slot_ok; by eapply holds_lookup).
      rewrite Forall_lookup in Hn. specialize (Hn _ _ Hb). by rewrite !bool_decide_false by lia.
Qed.

Lemma recall_next_spec ibs : forall p fz past rest own F,
  rlevels p fz ibs past rest own -> pool_ok p (own ++ F) ->
  match rest with
  | [] => ltsRecallNextBlockNum ibs fz p = Ok (((-1)%Z, ibs), p)
  | b :: rest' => exists ibs' own' p', ltsRecallNextBlockNum ibs fz p = Ok ((b, ibs'), p') /\ rlevels p' fz ibs' (past ++ [b]) rest' own' /\
      pool_ok p' (own' ++ F) /\ same_blocks F p p' /\ (fz = true -> own' = own /\ p' = p)
  end.
Proof.
  induction ibs as [|ib up IH]; intros p fz past rest own F Hr Hok.
  - by destruct Hr as (_ & -> & _).
  - pose proof Hr as (pre & cur & post & Hpast & Hrest & Hk & Hh & He & Hf & Hn & Ho & Hup). cbn [ltsRecallNextBlockNum].
    assert (Hnc : Forall (Z.le 0) cur) by (rewrite concat_app, Forall_app in Hn; simpl in Hn; rewrite Forall_app in Hn; tauto).
    rewrite (mbind_ok _ _ _ _ _ (ended_ok ib cur p Hk Hh He Hnc)). case_bool_decide as Hend.
    + rewrite Hend, drop_all in Hrest. simpl in Hrest. destruct up as [|ib1 up].
      { destruct Hup as (_ & -> & _). by subst rest. }
      destruct Hup as (b & own_up & Hk1 & Hb & Hru & ->).
      specialize (IH p fz _ _ _ ((if fz then pre.*1 ++ b :: post.*1 else post.*1) ++ F) Hru ltac:(eapply pool_perm; [exact Hok|destruct fz; perm])).
      destruct post as [|[n c] post].
      { simpl in Hrest. subst rest. by rewrite (mbind_ok _ _ _ _ _ IH). }
      destruct IH as (up' & own' & p1 & Hrec & Hr1 & Hok1 & Hs1 & Hfz).
      rewrite (mbind_ok _ _ _ _ _ Hrec). assert (Hn0 : (0 <= n)%Z).
      { apply rlevels_nonneg in Hr1. rewrite !Forall_app, !Forall_cons in Hr1. tauto. }
      cbn [fst]. rewrite decide_False by lia.
      assert (Hon : on_file p1 (n, c)).
      { eapply on_file_frame; [exact Hs1| |]; [destruct fz; simpl; mem|].
        destruct fz; [apply Forall_app in Ho as [_ Ho]|]; by apply Forall_cons in Ho as [? _]. }
      destruct Hon as (Hcne & q & Hq & Hqh & Hqe). cbn [fst snd] in *. rewrite (mbind_ok _ _ _ _ _ (read_ptrs_ok _ _ _ Hn0 Hq)).
      assert (Hrel : exists p2, (if fz then mret () else ltsReleaseBlock n) p1 = Ok (tt, p2) /\
        pool_ok p2 (((if fz then pre.*1 ++ b :: n :: post.*1 else post.*1) ++ own') ++ F) /\ same_blocks ((if fz then pre.*1 ++ b :: n :: post.*1 else post.*1) ++ own' ++ F) p1 p2 /\ (fz = true -> p2 = p1)).
      { destruct fz.
        - exists p1. split_and!; [reflexivity| |apply same_blocks_refl|reflexivity]. eapply pool_perm; [exact Hok1|perm].
        - destruct (release_block p1 n (post.*1 ++ own' ++ F)) as (p2 & ? & ? & ?); [eapply pool_perm; [exact Hok1|perm]|].
          exists p2. split_and!; [assumption|by rewrite <- app_assoc|assumption|discriminate]. }
      destruct Hrel as (p2 & Hrel & Hok2 & Hs2 & Hfz2). rewrite (mbind_ok _ _ _ _ _ Hrel).
      destruct c as [|x c]; [by destruct Hcne|].
      assert (Hx : (0 <= x)%Z). { rewrite concat_app in Hn. simpl in Hn. rewrite !Forall_app, Forall_cons in Hn. tauto. }
      simpl in Hrest. subst rest.
      rewrite (take_slot_ok (mkInd 0 q) up' x p2 (holds_lookup q (x :: c) 0 x Hqh eq_refl) Hx).
      eexists _, (_ ++ own'), p2. split; [reflexivity|]. split_and!; [|exact Hok2| |].
      * assert (Hfl : (pre ++ [(b, cur)]).*2 ++ (x :: c) :: post.*2 = pre.*2 ++ cur :: ((n, x :: c) :: post).*2) by (by rewrite fmap_app, <- app_assoc).
        exists (pre ++ [(b, cur)]), (x :: c), post. cbn [nextSlot ptrs]. rewrite Hfl.
        split_and!; [| |simpl; lia|exact Hqh|exact Hqe|exact Hf|exact Hn| |].
        -- rewrite fmap_app, concat_app. simpl. rewrite app_nil_r. rewrite Hpast, Hend, firstn_all. by rewrite take_0.
        -- simpl. by rewrite drop_0.
        -- destruct fz; rewrite ?Forall_app, ?Forall_cons in *.
           ++ destruct (Hfz eq_refl) as [_ ->]. rewrite (Hfz2 eq_refl). split_and!; first [tauto|by apply Hb|constructor].
           ++ rewrite Forall_forall in *. intros c' Hc'. eapply on_file_frame; [exact Hs2|rewrite elem_of_app, list_elem_of_fmap; eauto|].
              eapply on_file_frame; [exact Hs1|rewrite elem_of_app, fmap_cons, elem_of_cons, list_elem_of_fmap; eauto 6|]. by apply Ho.
        -- destruct up' as [|ib2 up']; [destruct Hr1 as [Hr1 _]; by destruct (pre.*1)|]. rewrite fmap_app. cbn [fmap list_fmap fst]. exists n, own'.
           split_and!; [apply Nat.le_refl| | |destruct fz; [by rewrite <- !app_assoc|reflexivity]].
           ++ intros ->. rewrite (Hfz2 eq_refl). split; [exact Hcne|]. exists q. split_and!; assumption.
           ++ eapply rlevels_frame; [|exact Hr1]. eapply same_blocks_sub; [|exact Hs2]. incl.
      * eapply same_blocks_trans; (eapply same_blocks_sub; [|eassumption]); incl.
      * intros ->. destruct (Hfz eq_refl) as [-> ->]. rewrite (Hfz2 eq_refl). split; reflexivity.
    + assert (Hlt : nextSlot ib < length cur) by lia. destruct (lookup_lt_is_Some_2 cur _ Hlt) as [x Hx].
      rewrite (drop_S _ _ _ Hx) in Hrest. simpl in Hrest. subst rest.
      rewrite (take_slot_ok ib up x p); [|by eapply holds_lookup|rewrite Forall_lookup in Hnc; by eapply Hnc].
      eexists _, own, p. split; [reflexivity|]. split_and!; [|exact Hok|done|done].
      exists pre, cur, post. cbn [nextSlot ptrs]. split_and!; try assumption; [|reflexivity|].
      * by rewrite Hpast, (take_S_r _ _ _ Hx), app_assoc.
      * destruct up; [exact Hup|]. destruct Hup as (b & own_up & ? & Hup). exists b, own_up. split; [lia|exact Hup].
Qed.

(** The number before the one last handed out. *)
Lemma recall_prev_spec ibs : forall p past rest own,
  rlevels p true ibs past rest own ->
  (length past <= 1 -> ltsRecallPrevBlockNum ibs p = Ok (((-1)%Z, ibs), p)) /\
  (forall past' b x, past = past' ++ [b; x] -> exists ibs', ltsRecallPrevBlockNum ibs p = Ok ((b, ibs'), p) /\ rlevels p true ibs' (past' ++ [b]) (x :: rest) own).
Proof.
  induction ibs as [|ib up IH]; intros p past rest own Hr.
  { destruct Hr as (-> & _). split; [reflexivity|]. intros past' b x E. by destruct past'. }
  pose proof Hr as (pre & cur & post & Hpast & Hrest & Hk & Hh & He & Hf & Hn & Ho & Hup). cbn [ltsRecallPrevBlockNum].
  assert (Hpl : length past = length (concat pre.*2) + nextSlot ib) by (rewrite Hpast, length_app, length_take; lia).
  destruct (decide (nextSlot ib <= 1)) as [Hk1|Hk1].
  - destruct up as [|ib1 up].
    { destruct Hup as (-> & -> & ->). simpl in *. split; [reflexivity|]. intros past' b x ->. rewrite length_app in Hpl. simpl in Hpl. lia. }
    destruct Hup as (b & own_up & Hk2 & Hb & Hru & ->). destruct (IH p _ _ _ Hru) as [IH1 IH2]. clear IH.
    destruct pre as [|[b0 c0] pre _] using rev_ind.
    { specialize (IH1 ltac:(simpl; lia)). rewrite (mbind_ok _ _ _ _ _ IH1). split; [reflexivity|]. intros past' c x ->. rewrite length_app in Hpl. simpl in Hpl. lia. }
    assert (Hc0 : length c0 = BLOCKS_PER_INDIR_BLOCK).
    { rewrite fmap_app, <- app_assoc in Hf. apply full_but_last_app in Hf as [Hf _]. by apply full_but_last_cons in Hf as [_ Hf]; apply Hf. }
    pose proof PER_ge. split.
    { intros Hl. rewrite Hpl, fmap_app, concat_app, length_app in Hl. simpl in Hl. rewrite app_nil_r in Hl. lia. }
    intros past' c x E. rewrite fmap_app, <- app_assoc in IH2. destruct (IH2 pre.*1 b0 b eq_refl) as (up' & Hrec & Hr'). rewrite (mbind_ok _ _ _ _ _ Hrec).
    assert (Hb0 : (0 <= b0)%Z). { apply rlevels_nonneg in Hr'. rewrite !Forall_app, !Forall_cons in Hr'. tauto. }
    rewrite decide_False by lia. rewrite !Forall_app, Forall_cons in Ho. destruct Ho as ((Hopre & (Hc0ne & q & Hq & Hqh & Hqe) & _) & Hopost). cbn [fst snd] in *.
    rewrite (mbind_ok _ _ _ _ _ (read_ptrs_ok _ _ _ Hb0 Hq)).
    destruct c0 as [|y c0 _] using rev_ind; [by destruct Hc0ne|]. destruct cur as [|z cur]; [simpl in Hk; lia|].
    assert (nextSlot ib = 1) as Hk' by lia. rewrite Hk' in *. simpl in Hpast. rewrite take_0 in Hpast.
    rewrite fmap_app, concat_app in Hpast. simpl in Hpast. rewrite app_nil_r, <- !app_assoc in Hpast. rewrite E in Hpast. rewrite app_assoc in Hpast.
    apply (app_inj_2 _ _ [c; x] [y; z]) in Hpast as [-> [= -> ->]]; [|done].
    rewrite length_app in Hc0. simpl in Hc0.
    rewrite (mbind_ok _ _ _ y p).
    2:{ apply slot_ok. eapply (holds_lookup q (c0 ++ [y])); [exact Hqh|]. rewrite lookup_app_r by lia. by replace (_ - _ - _) with 0 by lia. }
    eexists. split; [reflexivity|].
    exists pre, (c0 ++ [y]), ((b, z :: cur) :: post). cbn [nextSlot ptrs]. rewrite fmap_app, <- app_assoc in Hf, Hn. simpl in Hf, Hn. split_and!.
    + rewrite firstn_all2 by (rewrite length_app; simpl; lia). by rewrite app_assoc.
    + rewrite drop_ge by (rewrite length_app; simpl; lia). rewrite Hrest. done.
    + rewrite length_app; simpl; lia.
    + exact Hqh.
    + exact Hqe.
    + exact Hf.
    + exact Hn.
    + apply Forall_app. split; [exact Hopre|]. apply Forall_cons. split; [by apply Hb|exact Hopost].
    + destruct up' as [|ib2 up']; [destruct Hr' as [Hr' _]; by destruct (pre.*1)|]. exists b0, own_up. split_and!; [lia| |exact Hr'|].
      * intros _. split; [done|]. exists q. split_and!; assumption.
      * rewrite fmap_app, <- !app_assoc. reflexivity.
  - split; [intros; lia|]. intros past' b x E.
    destruct (lookup_lt_is_Some_2 cur (nextSlot ib - 2)) as [y Hy]; [lia|]. destruct (lookup_lt_is_Some_2 cur (nextSlot ib - 1)) as [z Hz]; [lia|].
    assert (Ht : take (nextSlot ib) cur = take (nextSlot ib - 2) cur ++ [y; z]).
    { replace (nextSlot ib) with (S (nextSlot ib - 1)) at 1 by lia. rewrite (take_S_r _ _ _ Hz). replace (nextSlot ib - 1) with (S (nextSlot ib - 2)) by lia.
      rewrite (take_S_r _ _ _ Hy). by rewrite <- app_assoc. }
    rewrite Ht, app_assoc, E in Hpast. apply (app_inj_2 _ _ [b; x] [y; z]) in Hpast as [-> [= -> ->]]; [|done].
    rewrite (mbind_ok _ _ _ y p) by (apply slot_ok; by eapply holds_lookup). eexists. split; [reflexivity|].
    exists pre, cur, post. cbn [nextSlot ptrs]. split_and!; try assumption.
    + replace (nextSlot ib - 1) with (S (nextSlot ib - 2)) by lia. by rewrite (take_S_r _ _ _ Hy), app_assoc.
    + rewrite Hrest. rewrite (drop_S cur z (nextSlot ib - 1)) by done. by replace (S (nextSlot ib - 1)) with (nextSlot ib) by lia.
    + lia.
    + destruct up; [exact Hup|]. destruct Hup as (b1 & own_up & ? & Hup). exists b1, own_up. split; [lia|exact Hup].
Qed.

(** Enough fuel for ltsRewindIndirectBlock: recording the last block of a level can add one level, once. *)
Definition enough_fuel (fuel : nat) (ibs : list IndirectBlock) : Prop :=
  S (length ibs) <= fuel \/ (length ibs <= fuel /\ Forall (fun ib => nextSlot ib < BLOCKS_PER_INDIR_BLOCK) (tail ibs)).

Lemma enough_fuel_record fuel ib up up' n : enough_fuel (S fuel) (ib :: up) -> grows up up' n -> enough_fuel fuel up'.
Proof.
  pose proof PER_ge as HP. intros Hf (ib1 & up1 & -> & [[Hlt ->]|[Hge [Hl|[Hl Hall]]]]); destruct Hf as [Hf|[Hf Ht]]; unfold enough_fuel; simpl in *.
  - left. lia.
  - right. split; [lia|]. by apply Forall_cons in Ht as [_ Ht].
  - left. lia.
  - apply Forall_cons in Ht as [Ht _]. lia.
  - right. split; [lia|]. destruct up' as [|ib2 up']; [constructor|]. apply Forall_cons in Hall as [_ Hall]. eapply Forall_impl; [exact Hall|]. simpl. intros; lia.
  - apply Forall_cons in Ht as [Ht _]. lia.
Qed.

Lemma full_but_last_snoc cs c : Forall (fun c => length c = BLOCKS_PER_INDIR_BLOCK) cs -> full_but_last (cs ++ [c]).
Proof.
  intros Hf i x Hi Hl. rewrite length_app in Hl. simpl in Hl. rewrite lookup_app_l in Hi by lia. rewrite Forall_lookup in Hf. by eapply Hf.
Qed.

(** From writing to reading. *)
Lemma rewind_spec fuel : forall ibs freezing p s own F,
  enough_fuel fuel ibs -> wlevels p ibs s own -> pool_ok p (own ++ F) ->
  exists ibs' own' p', ltsRewindIndirectBlock fuel ibs freezing p = Ok ((default (-1)%Z (head s), ibs'), p') /\
    rlevels p' freezing ibs' (take 1 s) (drop 1 s) own' /\ pool_ok p' (own' ++ F) /\ same_blocks F p p'.
Proof.
  induction fuel as [|fuel IH]; intros ibs freezing p s own F Hfuel Hw Hok.
  { destruct ibs; [|destruct Hfuel as [Hf|[Hf _]]; simpl in Hf; lia]. destruct Hw as [-> ->]. exists [], [], p. split_and!; done. }
  destruct ibs as [|ib up].
  { destruct Hw as [-> ->]. exists [], [], p. split_and!; done. }
  destruct Hw as (chunks & cur & own_up & -> & Hnn & Hns & Hh & Hch & -> & Hup & Hfull). cbn [ltsRewindIndirectBlock].
  pose proof (holds_length _ _ Hh) as Hcl.
  set (q := if decide (nextSlot ib < BLOCKS_PER_INDIR_BLOCK) then put_slot (nextSlot ib) (-1) ib else ptrs ib).
  assert (Hq : holds q cur /\ ends q cur).
  { unfold q, put_slot. case_decide; [rewrite Hns in *; by apply holds_mark|]. split; [done|]. intros Hlt. lia. }
  clearbody q. destruct Hq as [Hqh Hqe]. destruct up as [|ib1 up].
  - destruct Hup as [Hc0 ->]. apply fmap_nil_inv in Hc0 as ->. simpl in *. erewrite mbind_ok; [|reflexivity]. cbv beta iota.
    rewrite (mbind_ok _ _ _ _ _ (restart_ok _ _ p Hqh Hqe Hnn)). eexists _, [], p. split; [reflexivity|]. split_and!; [|exact Hok|done].
    pose proof (start_level p freezing q cur [] [] []) as Hst. simpl in Hst. rewrite app_nil_r in Hst. 
    apply Hst; [exact Hqh|exact Hqe|by apply (full_but_last_snoc [])|exact Hnn|done|by split].
  - destruct (Hfull ltac:(discriminate)) as [Hcur Hchne]. clear Hfull.
    destruct (alloc_write p ((chunks.*1 ++ own_up) ++ F) (Ptrs q) Hok) as (b & p1 & p2 & Hg & Hwr & Hok2 & Hb & Hsame & Hb0).
    destruct (record_spec (ib1 :: up) p2 chunks.*1 own_up (b :: chunks.*1 ++ F) b) as (up1 & own1 & p3 & Hrec & Hw3 & Hok3 & Hs3 & Hne3 & Hg3);
      [done|done|eapply pool_perm; [exact Hok2|perm]|eapply wlevels_frame; [|exact Hup]; eapply same_blocks_sub; [|exact Hsame]; incl|].
    destruct (IH up1 freezing p3 (chunks.*1 ++ [b]) own1 (b :: chunks.*1 ++ F)) as (up2 & own2 & p4 & Hrw & Hr4 & Hok4 & Hs4);
      [by eapply enough_fuel_record|done|done|]. clear IH.
    assert (Hall : Forall (on_file p4) (chunks ++ [(b, cur)])).
    { apply Forall_app. split.
      - rewrite Forall_forall in *. intros c Hc. assert (c.1 ∈ chunks.*1) by (apply list_elem_of_fmap; eauto).
        apply full_is_on_file. eapply full_frame; [exact Hs4|mem|]. eapply full_frame; [exact Hs3|mem|].
        eapply full_frame; [exact Hsame|mem|]. by apply Hch.
      - constructor; [|constructor]. eapply on_file_frame; [exact Hs4|by left|]. eapply on_file_frame; [exact Hs3|by left|].
        split; [done|]. exists q. split_and!; assumption. }
    assert (Hfl : full_but_last (chunks ++ [(b, cur)]).*2).
    { rewrite fmap_app. apply full_but_last_snoc. rewrite Forall_fmap. eapply Forall_impl; [exact Hch|]. by intros c [? _]. }
    assert (Hcat : concat chunks.*2 ++ cur = concat (chunks ++ [(b, cur)]).*2) by (rewrite fmap_app, concat_app; simpl; by rewrite app_nil_r).
    assert (Hnum : chunks.*1 ++ [b] = (chunks ++ [(b, cur)]).*1) by (by rewrite fmap_app).
    assert (Hokp : pool_ok p4 ((chunks ++ [(b, cur)]).*1 ++ own2 ++ F)) by (rewrite <- Hnum; eapply pool_perm; [exact Hok4|perm]).
    assert (HF : same_blocks F p p4).
    { eapply same_blocks_trans; [eapply same_blocks_sub; [|exact Hsame]; incl|].
      eapply same_blocks_trans; (eapply same_blocks_sub; [|eassumption]); incl. }
    rewrite Hcat in Hnn |- *. rewrite Hnum in Hrw, Hr4. clear Hcat Hnum Hch. destruct (chunks ++ [(b, cur)]) as [|[f c0] rest] eqn:Ech; [destruct chunks; discriminate Ech|]. cbn [fmap list_fmap fst snd concat take drop head] in *.
    apply Forall_cons in Hall as [(Hc0 & q0 & Hq0 & Hqh0 & Hqe0) Hall]. cbn [fst snd] in *.
    assert (Hf0 : (0 <= f)%Z) by (apply rlevels_nonneg in Hr4; by apply Forall_cons in Hr4 as [? _]).
    assert (Hrel : exists p5, (if freezing then mret () else ltsReleaseBlock f) p4 = Ok (tt, p5) /\
        pool_ok p5 (((if freezing then f :: rest.*1 else rest.*1) ++ own2) ++ F) /\ same_blocks (rest.*1 ++ own2 ++ F) p4 p5 /\ (freezing = true -> p5 = p4)).
    { destruct freezing.
      - exists p4. split_and!; [reflexivity| |apply same_blocks_refl|reflexivity]. eapply pool_perm; [exact Hokp|perm].
      - destruct (release_block p4 f (rest.*1 ++ own2 ++ F)) as (p5 & ? & ? & ?); [exact Hokp|].
        exists p5. split_and!; [assumption|by rewrite <- app_assoc|assumption|discriminate]. }
    destruct Hrel as (p5 & Hrel & Hok5 & Hs5 & Hfz5).
    rewrite (mbind_ok _ _ _ (q0, up2) p5).
    2:{ rewrite (mbind_ok _ _ _ _ _ Hg), (mbind_ok _ _ _ _ _ Hwr), (mbind_ok _ _ _ _ _ Hrec), (mbind_ok _ _ _ _ _ Hrw). cbv beta iota. cbn [from_option id head].
        erewrite mbind_ok; [|unfold Assert; by rewrite bool_decide_true by lia].
        rewrite (mbind_ok _ _ _ _ _ (read_ptrs_ok _ _ _ Hf0 Hq0)), (mbind_ok _ _ _ _ _ Hrel). reflexivity. }
    rewrite Forall_app in Hnn. cbv beta iota. rewrite (mbind_ok _ _ _ _ _ (restart_ok _ _ p5 Hqh0 Hqe0 (proj1 Hnn))).
    eexists _, _, p5. split; [destruct c0; [by destruct Hc0|reflexivity]|]. split_and!; [|exact Hok5|eapply same_blocks_trans; [exact HF|]; eapply same_blocks_sub; [|exact Hs5]; incl].
    apply start_level; [exact Hqh0|exact Hqe0|exact Hfl|by apply Forall_app| |].
    + rewrite Forall_forall in *. intros c Hc. eapply on_file_frame; [exact Hs5|rewrite elem_of_app, list_elem_of_fmap; eauto|]. by apply Hall.
    + destruct up2 as [|ib2 up2]; [by destruct Hr4|]. exists f, own2. split_and!; [done| | |by destruct freezing].
      * intros Hfz. rewrite (Hfz5 Hfz). split; [done|]. exists q0. split_and!; assumption.
      * eapply rlevels_frame; [|exact Hr4]. eapply same_blocks_sub; [|exact Hs5]. incl.
Qed.

(** ** A tape *)

(** A block of data on file, with its number. *)
Definition data_on (p : Pool) (c : Z * list byte) : Prop :=
  (0 <= c.1)%Z /\ exists d, blk p c.1 = Some (Data d) /\ length d = BLCKSZ /\ take (length c.2) d = c.2.

Lemma data_frame p p' U c : same_blocks U p p' -> c.1 ∈ U -> data_on p c -> data_on p' c.
Proof. intros H Hin [Hl (q & Hb & Hq)]. split; [exact Hl|]. exists q. rewrite (H _ Hin). split; [exact Hb|exact Hq]. Qed.
Lemma data_frames p p' U D : same_blocks U p p' -> D.*1 ⊆ U -> Forall (data_on p) D -> Forall (data_on p') D.
Proof.
  intros H Hin Hd. rewrite Forall_forall in *. intros c Hc. eapply data_frame; [exact H| |by apply Hd]. apply Hin. apply list_elem_of_fmap. eauto.
Qed.

(** A tape that is written: [D] are the blocks dumped, [w] is the data in the buffer. *)
Record wcore (p : Pool) (lt : LogicalTape) (D : list (Z * list byte)) (w : list byte) (own : list Z) : Prop := {
  wc_levels : exists own_i, wlevels p (indirect lt) D.*1 own_i /\ own = D.*1 ++ own_i;
  wc_data : Forall (data_on p) D;
  wc_full : Forall (fun c => length c.2 = BLCKSZ) D;
  wc_number : numFullBlocks lt = length D /\ curBlockNumber lt = length D;
  wc_pos : pos lt = length w /\ nbytes lt = length w /\ length w <= BLCKSZ;
  wc_dirty : dirty lt = bool_decide (w <> []);
  wc_buffer : match buffer lt with Some buf => length buf = BLCKSZ /\ take (length w) buf = w | None => w = [] end;
  wc_mode : writing lt = true /\ frozen lt = false }.

Lemma dump_spec p lt D w own F :
  wcore p lt D w own -> pool_ok p (own ++ F) -> w <> [] -> indirect lt <> [] ->
  exists ibs b own' p' own_i, ltsDumpBuffer lt p = Ok (set_dirty false (set_indirect ibs lt), p') /\ ibs <> [] /\
    wlevels p' ibs (D.*1 ++ [b]) own_i /\ own' = D.*1 ++ [b] ++ own_i /\ Forall (data_on p') (D ++ [(b, w)]) /\
    pool_ok p' (own' ++ F) /\ same_blocks F p p' /\ length ibs <= S (length (indirect lt)).
Proof.
  intros [(own_i & Hw & ->) Hd Hfull Hnum (Hpos & Hnb & Hle) Hdirty Hbuf Hmode] Hok Hne Hibs.
  rewrite bool_decide_true in Hdirty by done. destruct (buffer lt) as [buf|] eqn:Eb; [|done]. destruct Hbuf as [Hbl Hbt].
  destruct (alloc_write p ((D.*1 ++ own_i) ++ F) (Data buf) Hok) as (b & p1 & p2 & Hg & Hwr & Hok2 & Hb & Hsame & Hb0).
  destruct (record_spec (indirect lt) p2 D.*1 own_i (b :: D.*1 ++ F) b) as (ibs & own1 & p3 & Hrec & Hw3 & Hok3 & Hs3 & Hne3 & Hg3);
    [done|done|eapply pool_perm; [exact Hok2|perm]|eapply wlevels_frame; [|exact Hw]; eapply same_blocks_sub; [|exact Hsame]; incl|].
  exists ibs, b, (D.*1 ++ [b] ++ own1), p3, own1. unfold ltsDumpBuffer. rewrite (mbind_ok _ _ _ _ _ Hg).
  erewrite mbind_ok; [|unfold Assert; by rewrite Hdirty]. erewrite mbind_ok; [|by rewrite Eb].
  rewrite (mbind_ok _ _ _ _ _ Hwr), (mbind_ok _ _ _ _ _ Hrec). split_and!; [reflexivity|exact Hne3|exact Hw3|reflexivity| | | |].
  - apply Forall_app. split.
    + eapply data_frames; [exact Hs3|incl|]. eapply data_frames; [exact Hsame|incl|exact Hd].
    + constructor; [|constructor]. eapply data_frame; [exact Hs3|by left|]. split; [done|]. exists buf. split_and!; assumption.
  - eapply pool_perm; [exact Hok3|perm].
  - eapply same_blocks_trans; (eapply same_blocks_sub; [|eassumption]); incl.
  - destruct Hg3 as (ib & up & E & [[_ ->]|[_ [?|[? _]]]]); [rewrite E; simpl; lia|lia|lia].
Qed.

Lemma write_loop_spec fuel : forall data p lt D w own F,
  length data <= fuel -> indirect lt <> [] -> buffer lt <> None -> wcore p lt D w own -> pool_ok p (own ++ F) ->
  exists lt' D' w' own' p', write_loop fuel data lt p = Ok (lt', p') /\ wcore p' lt' D' w' own' /\ pool_ok p' (own' ++ F) /\ same_blocks F p p' /\
    concat D'.*2 ++ w' = concat D.*2 ++ w ++ data /\ (data <> [] -> w' <> []) /\ (data = [] -> D' = D /\ w' = w) /\ indirect lt' <> [] /\ buffer lt' <> None.
Proof.
  induction fuel as [|fuel IH]; intros data p lt D w own F Hf Hibs Hbuf Hc Hok.
  { destruct data; [|simpl in Hf; lia]. exists lt, D, w, own, p. rewrite app_nil_r. split_and!; done. }
  destruct data as [|x data]; [exists lt, D, w, own, p; rewrite app_nil_r; split_and!; done|].
  cbn [write_loop]. set (ds := x :: data) in *.
  assert (Hstep : exists lt1 D1 w1 own1 p1, (if decide (BLCKSZ <= pos lt) then
              lt ← (if dirty lt then ltsDumpBuffer lt else mfail (EElog "invalid logtape state: should be dirty"));
              mret (set_place (S (curBlockNumber lt)) 0 0 (set_full (S (numFullBlocks lt)) lt))
            else mret lt) p = Ok (lt1, p1) /\ wcore p1 lt1 D1 w1 own1 /\ pool_ok p1 (own1 ++ F) /\ same_blocks F p p1 /\
            concat D1.*2 ++ w1 = concat D.*2 ++ w /\ length w1 < BLCKSZ /\ indirect lt1 <> [] /\ buffer lt1 <> None).
  { destruct (decide (BLCKSZ <= pos lt)) as [Hge|Hlt].
    - pose proof BLCKSZ_pos as HB. pose proof Hc as [_ _ _ [Hn1 Hn2] (Hpos & Hnb & Hle) Hdirty Hb Hmode].
      assert (Hw : w <> []) by (intros ->; simpl in *; lia). rewrite bool_decide_true in Hdirty by done.
      destruct (dump_spec p lt D w own F Hc Hok Hw Hibs) as (ibs & b & own' & p' & own_i & Hdump & Hibs' & Hwl & -> & Hd & Hok' & Hs' & _).
      rewrite Hdirty. rewrite (mbind_ok _ _ _ _ _ Hdump). eexists _, (D ++ [(b, w)]), [], _, p'. split; [reflexivity|]. split_and!; [|exact Hok'|exact Hs'| |simpl; lia|exact Hibs'|exact Hbuf].
      + split; cbn.
        * exists own_i. rewrite fmap_app. split; [exact Hwl|by rewrite <- app_assoc].
        * exact Hd.
        * apply Forall_app. split; [by destruct Hc|]. constructor; [simpl; lia|constructor].
        * rewrite length_app. simpl. lia.
        * lia.
        * done.
        * destruct (buffer lt); [|done]. by destruct Hb.
        * done.
      + rewrite fmap_app, concat_app. simpl. by rewrite !app_nil_r.
    - exists lt, D, w, own, p. split; [reflexivity|]. destruct (wc_pos _ _ _ _ _ Hc) as (Hpos & _). split_and!; try done. lia. }
  destruct Hstep as (lt1 & D1 & w1 & own1 & p1 & Hstep & Hc1 & Hok1 & Hs1 & Hcat1 & Hw1 & Hibs1 & Hbuf1).
  rewrite (mbind_ok _ _ _ _ _ Hstep). destruct Hc1 as [Hl1 Hd1 Hf1 Hn1 (Hp1 & Hnb1 & _) Hdt1 Hb1 Hm1]. destruct (buffer lt1) as [buf|] eqn:Eb; [|done]. clear Hbuf1.
  set (n := Nat.min (BLCKSZ - pos lt1) (length ds)). assert (Hn0 : 0 < n <= length ds) by (unfold n, ds; simpl; lia). assert (Hnle : pos lt1 + n <= BLCKSZ) by lia. clearbody n.
  erewrite mbind_ok; [|unfold Assert; by rewrite bool_decide_true by lia]. erewrite mbind_ok; [|reflexivity].
  set (buf' := take (pos lt1) buf ++ take n ds ++ drop (pos lt1 + n) buf). destruct Hb1 as [Hbl Hbt].
  assert (Hbl' : length buf' = BLCKSZ) by (unfold buf'; rewrite !length_app, !length_take, length_drop; lia).
  assert (Hbt' : take (length (w1 ++ take n ds)) buf' = w1 ++ take n ds).
  { unfold buf'. rewrite Hp1, Hbt, app_assoc. apply take_app_length. }
  edestruct (IH (drop n ds) p1) with (D := D1) (w := w1 ++ take n ds) (own := own1) (F := F)
    as (lt2 & D2 & w2 & own2 & p2 & Hrun & Hc2 & Hok2 & Hs2 & Hcat2 & Hne2 & Hnil2 & Hi2 & Hb2); [| | | |exact Hok1|].
  5:{ exists lt2, D2, w2, own2, p2. split; [exact Hrun|]. split_and!; try done.
      - by eapply same_blocks_trans.
      - rewrite Hcat2, <- (app_assoc w1), take_drop, (app_assoc (concat D.*2)), <- Hcat1. by rewrite app_assoc.
      - intros _. destruct (decide (drop n ds = [])) as [E|E]; [|by apply Hne2]. destruct (Hnil2 E) as [_ ->].
        intros E2. apply (f_equal length) in E2. rewrite length_app, length_take in E2. simpl in E2. lia. }
  - rewrite length_drop. clear -Hf Hn0. lia.
  - exact Hibs1.
  - done.
  - split; cbn; try done.
    + rewrite length_app, length_take, decide_True by lia. lia.
    + symmetry. apply bool_decide_true. intros E2. apply (f_equal length) in E2. rewrite length_app, length_take in E2. simpl in E2. lia.
Qed.

(** Blocks of data of a tape that is read: none is empty, and all but the last are full. *)
Definition chunked (cs : list (list byte)) : Prop :=
  forall i c, cs !! i = Some c -> c <> [] /\ length c <= BLCKSZ /\ (S i < length cs -> length c = BLCKSZ).

Lemma chunked_full cs c : Forall (fun c => length c = BLCKSZ) cs -> c <> [] -> length c <= BLCKSZ -> chunked (cs ++ [c]).
Proof.
  intros Hf Hc Hl i x Hi. rewrite length_app. simpl. pose proof BLCKSZ_pos. apply lookup_app_Some in Hi as [Hi|[Hge Hi]].
  - rewrite Forall_lookup in Hf. specialize (Hf _ _ Hi). split_and!; [intros E; rewrite E in Hf; simpl in Hf; lia|lia|done].
  - apply list_lookup_singleton_Some in Hi as [? <-]. split_and!; [done|done|lia].
Qed.
Lemma chunked_tail c cs : chunked (c :: cs) -> chunked cs /\ (cs <> [] -> length c = BLCKSZ).
Proof.
  intros H. split.
  - intros i x Hi. destruct (H (S i) x Hi) as (? & ? & Hf). split_and!; [done|done|]. intros Hl. apply Hf. simpl. lia.
  - intros Hne. destruct (H 0 c eq_refl) as (_ & _ & Hf). apply Hf. destruct cs; simpl; [done|lia].
Qed.

(** The place of a block in the whole. *)
Lemma chunked_drop cs : forall i c k, chunked cs -> cs !! i = Some c -> k <= length c ->
  drop (i * BLCKSZ + k) (concat cs) = drop k c ++ concat (drop (S i) cs).
Proof.
  induction cs as [|c0 cs IH]; intros [|i] c k Hc Hi Hk; simpl in Hi; try discriminate; apply chunked_tail in Hc as [Hc Hf].
  - injection Hi as ->. simpl. by rewrite drop_app_le, drop_0.
  - assert (Hl : length c0 = BLCKSZ) by (apply Hf; by destruct cs). cbn [concat drop].
    rewrite drop_app_ge by (rewrite Hl; lia). rewrite <- (IH i c k) by done. f_equal. rewrite Hl. lia.
Qed.
Lemma chunked_length cs : forall i c, chunked cs -> cs !! i = Some c -> length (concat cs) = i * BLCKSZ + length c + length (concat (drop (S i) cs)).
Proof.
  induction cs as [|c0 cs IH]; intros [|i] c Hc Hi; simpl in Hi; try discriminate; apply chunked_tail in Hc as [Hc Hf].
  - injection Hi as ->. cbn [concat drop]. rewrite length_app, drop_0. lia.
  - assert (Hl : length c0 = BLCKSZ) by (apply Hf; by destruct cs). cbn [concat drop]. rewrite length_app, Hl, (IH i c) by done. lia.
Qed.

(** The buffer, once it is there, has room for a block. *)
Definition buffer_ok (lt : LogicalTape) : Prop := forall buf, buffer lt = Some buf -> length buf = BLCKSZ.

(** A tape that is read: [D] are its blocks, the numbers [past] were handed out, the last one for the block in the buffer. *)
Record rcore (p : Pool) (lt : LogicalTape) (D : list (Z * list byte)) (past rest own : list Z) : Prop := {
  rc_levels : exists own_i, rlevels p (frozen lt) (indirect lt) past rest own_i /\ own = (if frozen lt then D.*1 else rest) ++ own_i;
  rc_numbers : past ++ rest = D.*1;
  rc_data : Forall (data_on p) (if frozen lt then D else drop (length past) D);
  rc_chunks : chunked D.*2;
  rc_number : numFullBlocks lt = length D - 1 /\ lastBlockBytes lt = from_option length 0 (last D.*2);
  rc_here : match D.*2 !! curBlockNumber lt with
            | Some c => length past = S (curBlockNumber lt) /\ nbytes lt = length c /\ exists buf, buffer lt = Some buf /\ take (length c) buf = c
            | None => D = [] /\ curBlockNumber lt = 0 /\ nbytes lt = 0
            end;
  rc_pos : pos lt <= nbytes lt;
  rc_buffer : buffer_ok lt;
  rc_mode : writing lt = false }.

(** The tape [lt] with the blocks [own] stands for [t]. *)
Definition tape_rep (p : Pool) (lt : LogicalTape) (t : tape) (own : list Z) : Prop :=
  (exists D w, wcore p lt D w own /\ (D <> [] -> w <> []) /\ (w <> [] -> indirect lt <> []) /\
     t = mkTape (concat D.*2 ++ w) (length (concat D.*2 ++ w)) true false) \/
  (exists D past rest, rcore p lt D past rest own /\ t = mkTape (concat D.*2) (curBlockNumber lt * BLCKSZ + pos lt) false (frozen lt)).

Lemma tape_rep_frame p p' lt t own : same_blocks own p p' -> tape_rep p lt t own -> tape_rep p' lt t own.
Proof.
  intros Hs [(D & w & [(own_i & Hw & ->) Hd Hf Hn Hp Hdt Hb Hm] & H2 & H3)|(D & past & rest & [(own_i & Hr & ->) Hnm Hd Hc Hn Hh Hp Hb Hm] & H2)].
  - left. exists D, w. split_and!; [|exact H2|exact (proj1 H3)|exact (proj2 H3)]. split; try done.
    + exists own_i. split; [|done]. eapply wlevels_frame; [|exact Hw]. eapply same_blocks_sub; [|exact Hs]. incl.
    + eapply data_frames; [exact Hs|incl|exact Hd].
  - right. exists D, past, rest. split; [|done]. split; try done.
    + exists own_i. split; [|done]. eapply rlevels_frame; [|exact Hr]. eapply same_blocks_sub; [|exact Hs]. incl.
    + destruct (frozen lt).
      * eapply data_frames; [exact Hs|incl|exact Hd].
      * eapply data_frames; [exact Hs| |exact Hd]. rewrite fmap_drop, <- Hnm, drop_app_length. incl.
Qed.

(** The block after the current one is the [n]-th: how many bytes it has. *)
Lemma block_size (D : list (Z * list byte)) n c : chunked D.*2 -> D.*2 !! n = Some c ->
  (if decide (n < length D - 1) then BLCKSZ else from_option length 0 (last D.*2)) = length c.
Proof.
  intros Hc Hn. pose proof (lookup_lt_Some _ _ _ Hn) as Hlt. rewrite length_fmap in Hlt. case_decide as Hd.
  - symmetry. destruct (Hc _ _ Hn) as (_ & _ & Hf). apply Hf. rewrite length_fmap. lia.
  - rewrite last_lookup, length_fmap. replace (Nat.pred (length D)) with n by lia. by rewrite Hn.
Qed.

Lemma load_first_spec p lt (D : list (Z * list byte)) own_i F :
  rlevels p (frozen lt) (indirect lt) (take 1 D.*1) (drop 1 D.*1) own_i -> Forall (data_on p) D -> chunked D.*2 ->
  numFullBlocks lt = length D - 1 -> lastBlockBytes lt = from_option length 0 (last D.*2) -> buffer_ok lt -> writing lt = false ->
  pool_ok p (D.*1 ++ own_i ++ F) ->
  exists lt' own' p', load_first (default (-1)%Z (head D.*1)) lt p = Ok (lt', p') /\ rcore p' lt' D (take 1 D.*1) (drop 1 D.*1) own' /\
    pool_ok p' (own' ++ F) /\ same_blocks F p p' /\ curBlockNumber lt' = 0 /\ pos lt' = 0 /\ frozen lt' = frozen lt.
Proof.
  intros Hr Hd Hc Hn Hl Hbk Hm Hok. unfold load_first. destruct D as [|[b c] D].
  - eexists _, own_i, p. split; [reflexivity|]. split_and!; try done.
    split; cbn; try done. + exists own_i. split; [exact Hr|]. by destruct (frozen lt). + by destruct (frozen lt).
  - cbn [fmap list_fmap head fst from_option id]. apply Forall_cons in Hd as [(Hb & d & Hbd & Hdl & Hdc) Hd]. cbn [fst snd] in *. rewrite decide_False by lia.
    rewrite (mbind_ok _ _ _ _ _ (read_data_ok _ _ _ Hb Hbd)). cbn [set_place frozen].
    assert (Hrel : exists p5, (if frozen lt then mret () else ltsReleaseBlock b) p = Ok (tt, p5) /\
        pool_ok p5 (((if frozen lt then b :: D.*1 else D.*1) ++ own_i) ++ F) /\ same_blocks (D.*1 ++ own_i ++ F) p p5 /\ (frozen lt = true -> p5 = p)).
    { destruct (frozen lt).
      - exists p. split_and!; [reflexivity| |apply same_blocks_refl|reflexivity]. eapply pool_perm; [exact Hok|perm].
      - destruct (release_block p b (D.*1 ++ own_i ++ F)) as (p5 & ? & ? & ?); [exact Hok|].
        exists p5. split_and!; [assumption|by rewrite <- app_assoc|assumption|discriminate]. }
    destruct Hrel as (p5 & Hrel & Hok5 & Hs5 & Hfz5). rewrite (mbind_ok _ _ _ _ _ Hrel).
    eexists _, _, p5. split; [reflexivity|]. split_and!; [|exact Hok5|eapply same_blocks_sub; [|exact Hs5]; incl|reflexivity..].
    split; cbn [set_place set_buffer frozen indirect curBlockNumber pos nbytes buffer numFullBlocks lastBlockBytes writing]; try done.
    + exists own_i. split; [|by destruct (frozen lt)]. eapply rlevels_frame; [|exact Hr]. eapply same_blocks_sub; [|exact Hs5]. incl.
    + destruct (frozen lt).
      * rewrite (Hfz5 eq_refl). constructor; [|done]. split; [done|]. by exists d.
      * simpl. rewrite drop_0. eapply data_frames; [exact Hs5|incl|exact Hd].
    + cbn [fmap list_fmap lookup list_lookup]. split_and!; [done| |by exists d]. rewrite Hn, Hl. apply (block_size ((b, c) :: D) 0 c Hc). done.
    + lia.
    + intros buf [= <-]. exact Hdl.
Qed.

(** The end of a write phase. *)
Lemma finish_write_spec fz p lt D w own F :
  wcore p lt D w own -> (D <> [] -> w <> []) -> (w <> [] -> indirect lt <> []) -> pool_ok p (own ++ F) ->
  exists lt' D' past rest own' p', finish_write fz lt p = Ok (lt', p') /\ rcore p' lt' D' past rest own' /\ pool_ok p' (own' ++ F) /\
    same_blocks F p p' /\ concat D'.*2 = concat D.*2 ++ w /\ curBlockNumber lt' = 0 /\ pos lt' = 0 /\ frozen lt' = fz.
Proof.
  intros Hc HD Hw Hok. pose proof Hc as [(own_i & Hl & ->) Hd Hfull [Hn1 Hn2] (Hpos & Hnb & Hle) Hdirty Hbuf Hmode]. unfold finish_write.
  assert (Hdump : exists ibs D' own1 p1, (if dirty lt then ltsDumpBuffer lt else mret lt) p = Ok (set_dirty false (set_indirect ibs lt), p1) /\
    wlevels p1 ibs D'.*1 own1 /\ Forall (data_on p1) D' /\ pool_ok p1 (D'.*1 ++ own1 ++ F) /\ same_blocks F p p1 /\
    concat D'.*2 = concat D.*2 ++ w /\ chunked D'.*2 /\ length D = length D' - 1 /\ length w = from_option length 0 (last D'.*2)).
  { destruct (decide (w = [])) as [->|Hwne].
    - assert (D = []) as -> by (destruct D; [done|by destruct HD]). rewrite bool_decide_false in Hdirty by tauto. rewrite Hdirty.
      exists (indirect lt), [], own_i, p. split_and!; try done. destruct lt; cbn in *. by subst.
    - destruct (dump_spec p lt D w _ F Hc Hok Hwne (Hw Hwne)) as (ibs & b & own' & p' & own1 & Hdp & Hibs & Hwl & -> & Hd' & Hok' & Hs' & _).
      rewrite bool_decide_true in Hdirty by done. rewrite Hdirty. exists ibs, (D ++ [(b, w)]), own1, p'. rewrite !fmap_app, concat_app. simpl. rewrite app_nil_r.
      split_and!; [exact Hdp|exact Hwl|exact Hd'|eapply pool_perm; [exact Hok'|perm]|exact Hs'|reflexivity| | |].
      + apply chunked_full; [|done|done]. by rewrite Forall_fmap.
      + rewrite length_app. simpl. lia.
      + by rewrite last_snoc. }

  destruct Hdump as (ibs & D' & own1 & p1 & Hdump & Hwl & Hd' & Hok1 & Hs1 & Hcat & Hch & Hlen & Hlast).
  rewrite (mbind_ok _ _ _ _ _ Hdump). cbn [set_dirty set_indirect end_write indirect].
  destruct (rewind_spec (S (length ibs)) ibs fz p1 D'.*1 own1 (D'.*1 ++ F)) as (ibs' & own2 & p2 & Hrw & Hr2 & Hok2 & Hs2);
    [left; lia|exact Hwl|eapply pool_perm; [exact Hok1|perm]|].
  rewrite (mbind_ok _ _ _ _ _ Hrw). cbv beta iota.
  match goal with |- context [load_first _ ?l] => set (lt1 := l) end.
  destruct (load_first_spec p2 lt1 D' own2 F) as (lt' & own' & p3 & Hload & Hrc & Hok3 & Hs3 & Hc0 & Hp0 & Hfz).
  - exact Hr2.
  - eapply data_frames; [exact Hs2|incl|exact Hd'].
  - exact Hch.
  - cbn. lia.
  - cbn. by rewrite Hnb.
  - intros buf E. cbn in E. rewrite E in Hbuf. by destruct Hbuf.
  - done.
  - eapply pool_perm; [exact Hok2|perm].
  - exists lt', D', (take 1 D'.*1), (drop 1 D'.*1), own', p3. split_and!; [exact Hload|exact Hrc|exact Hok3| |exact Hcat|exact Hc0|exact Hp0|exact Hfz].
    eapply same_blocks_trans; [exact Hs1|]. eapply same_blocks_trans; [|exact Hs3]. eapply same_blocks_sub; [|exact Hs2]. incl.
Qed.

(** On to the next block. *)
Lemma next_block_spec p lt D past rest own F :
  rcore p lt D past rest own -> pool_ok p (own ++ F) ->
  match rest with
  | [] => ltsRecallNextBlockNum (indirect lt) (frozen lt) p = Ok (((-1)%Z, indirect lt), p)
  | b :: rest' => exists ibs d own' p1 p2 c, ltsRecallNextBlockNum (indirect lt) (frozen lt) p = Ok ((b, ibs), p1) /\ read_data b p1 = Ok (d, p1) /\
      (if frozen lt then mret tt else ltsReleaseBlock b) p1 = Ok (tt, p2) /\ (0 <= b)%Z /\ D.*2 !! S (curBlockNumber lt) = Some c /\
      rcore p2 (set_place (S (curBlockNumber lt)) 0 (length c) (set_buffer (Some d) (set_indirect ibs lt))) D (past ++ [b]) rest' own' /\
      pool_ok p2 (own' ++ F) /\ same_blocks F p p2
  end.
Proof.
  intros [(own_i & Hr & ->) Hnm Hd Hch Hn Hh Hp Hbk Hm] Hok.
  pose proof (recall_next_spec (indirect lt) p (frozen lt) past rest own_i ((if frozen lt then D.*1 else rest) ++ F) Hr ltac:(eapply pool_perm; [exact Hok|destruct (frozen lt); perm])) as Hrec.
  destruct rest as [|b rest]; [exact Hrec|]. destruct Hrec as (ibs & own1 & p1 & Hrec & Hr1 & Hok1 & Hs1 & Hfz1).
  assert (Hk : length past = S (curBlockNumber lt)).
  { destruct (D.*2 !! curBlockNumber lt) as [c|]; [by destruct Hh|]. destruct Hh as (-> & _). apply (f_equal length) in Hnm. rewrite length_app in Hnm. simpl in Hnm. lia. }
  assert (Hbc : exists c, D !! length past = Some (b, c)).
  { assert (E : D.*1 !! length past = Some b) by (rewrite <- Hnm, lookup_app_r, Nat.sub_diag by lia; done).
    apply list_lookup_fmap_Some in E as ([b' c] & -> & E). eauto. }
  destruct Hbc as [c Hbc]. assert (Hdb : data_on p (b, c)).
  { destruct (frozen lt); [rewrite Forall_lookup in Hd; by eapply Hd|]. rewrite (drop_S _ _ _ Hbc) in Hd. by apply Forall_cons in Hd as [? _]. }
  assert (Hdb1 : data_on p1 (b, c)) by (eapply data_frame; [exact Hs1| |exact Hdb]; destruct (frozen lt); [rewrite <- Hnm|]; mem).
  destruct Hdb1 as (Hb0 & d & Hbd & Hdl & Hdc). cbn [fst snd] in *.
  assert (Hrel : exists p2, (if frozen lt then mret () else ltsReleaseBlock b) p1 = Ok (tt, p2) /\
        pool_ok p2 (((if frozen lt then D.*1 else rest) ++ own1) ++ F) /\ same_blocks ((if frozen lt then D.*1 else rest) ++ own1 ++ F) p1 p2).
  { destruct (frozen lt).
    - exists p1. split_and!; [reflexivity| |apply same_blocks_refl]. eapply pool_perm; [exact Hok1|perm].
    - destruct (release_block p1 b (rest ++ own1 ++ F)) as (p2 & ? & ? & ?); [eapply pool_perm; [exact Hok1|perm]|].
      exists p2. split_and!; [assumption|by rewrite <- app_assoc|assumption]. }
  destruct Hrel as (p2 & Hrel & Hok2 & Hs2).
  assert (Hc2 : D.*2 !! S (curBlockNumber lt) = Some c) by (rewrite <- Hk, list_lookup_fmap, Hbc; done).
  exists ibs, d, ((if frozen lt then D.*1 else rest) ++ own1), p1, p2, c. split_and!; [exact Hrec|by apply read_data_ok|exact Hrel|exact Hb0|exact Hc2| |exact Hok2|].
  2:{ eapply same_blocks_trans; (eapply same_blocks_sub; [|eassumption]); destruct (frozen lt); incl. }
  split; cbn [set_place set_buffer set_indirect frozen indirect curBlockNumber pos nbytes buffer numFullBlocks lastBlockBytes writing]; try assumption.
  - exists own1. split; [|reflexivity]. eapply rlevels_frame; [|exact Hr1]. eapply same_blocks_sub; [|exact Hs2]. destruct (frozen lt); incl.
  - by rewrite <- app_assoc.
  - destruct (frozen lt).
    + eapply data_frames; [exact Hs2|incl|]. eapply data_frames; [exact Hs1|incl|exact Hd].
    + rewrite length_app, Nat.add_1_r. rewrite (drop_S _ _ _ Hbc) in Hd. apply Forall_cons in Hd as [_ Hd].
      assert (Hrest : (drop (S (length past)) D).*1 = rest) by (rewrite fmap_drop, <- Hnm, cons_middle, app_assoc, drop_app_length'; [done|rewrite length_app; simpl; lia]).
      eapply data_frames; [exact Hs2|rewrite Hrest; incl|]. eapply data_frames; [exact Hs1|rewrite Hrest; incl|exact Hd].
  - rewrite Hc2. split_and!; [rewrite length_app; simpl; lia|done|by exists d].
  - lia.
  - intros buf [= <-]. exact Hdl.
Qed.

(** The place of a tape, in bytes from its start. *)
Definition at_byte (lt : LogicalTape) : nat := curBlockNumber lt * BLCKSZ + pos lt.

(** The current block, unless the tape is empty. *)
Lemma rcore_here p lt D past rest own : rcore p lt D past rest own -> D <> [] ->
  exists c, D.*2 !! curBlockNumber lt = Some c /\ length past = S (curBlockNumber lt) /\ nbytes lt = length c /\
    exists buf, buffer lt = Some buf /\ take (length c) buf = c.
Proof.
  intros H HD. pose proof (rc_here _ _ _ _ _ _ H) as Hh. destruct (D.*2 !! curBlockNumber lt) as [c|]; [|by destruct Hh]. exists c. tauto.
Qed.

Lemma set_indirect_same lt : set_indirect (indirect lt) lt = lt.
Proof. by destruct lt. Qed.

(** The first half of a round of LogicalTapeRead: more data in the buffer, or the end. *)
Lemma fill_spec p lt D past rest own F :
  rcore p lt D past rest own -> pool_ok p (own ++ F) ->
  exists eof lt1 past1 rest1 own1 p1,
    (if decide (nbytes lt <= pos lt) then
          '(datablocknum, ibs) ← ltsRecallNextBlockNum (indirect lt) (frozen lt);
          let lt := set_indirect ibs lt in
          if decide (datablocknum = -1)%Z then mret (true, lt)
          else
            d ← read_data datablocknum;
            (if frozen lt then mret tt else ltsReleaseBlock datablocknum);;
            let c := S (curBlockNumber lt) in
            let n := if decide (c < numFullBlocks lt) then BLCKSZ else lastBlockBytes lt in
            mret (bool_decide (n <= 0), set_place c 0 n (set_buffer (Some d) lt))
        else mret (false, lt)) p = Ok ((eof, lt1), p1) /\
    rcore p1 lt1 D past1 rest1 own1 /\ pool_ok p1 (own1 ++ F) /\ same_blocks F p p1 /\ at_byte lt1 = at_byte lt /\ frozen lt1 = frozen lt /\
    (if eof : bool then drop (at_byte lt) (concat D.*2) = [] else pos lt1 < nbytes lt1).
Proof.
  intros Hc Hok. pose proof (rc_pos _ _ _ _ _ _ Hc) as Hp. destruct (decide (nbytes lt <= pos lt)) as [Hge|Hlt].
  2:{ exists false, lt, past, rest, own, p. split_and!; try done. lia. }
  pose proof (next_block_spec p lt D past rest own F Hc Hok) as Hn. destruct rest as [|b rest].
  - rewrite (mbind_ok _ _ _ _ _ Hn). exists true, lt, past, [], own, p. rewrite set_indirect_same. split_and!; try done.
    destruct (decide (D = [])) as [->|HD]; [apply drop_nil|].
    destruct (rcore_here _ _ _ _ _ _ Hc HD) as (c & Hcur & Hpast & Hnb & _). unfold at_byte.
    rewrite (chunked_drop _ _ c) by (try done; try lia; by destruct Hc). rewrite !drop_ge; [done| |lia].
    pose proof (rc_numbers _ _ _ _ _ _ Hc) as E. rewrite app_nil_r in E. rewrite length_fmap, <- (length_fmap fst D), <- E. lia.
  - destruct Hn as (ibs & d & own' & p1 & p2 & c & Hrec & Hrd & Hrel & Hb & Hc2 & Hc' & Hok' & Hs').
    rewrite (mbind_ok _ _ _ _ _ Hrec). cbv beta iota. rewrite decide_False by lia. rewrite (mbind_ok _ _ _ _ _ Hrd). cbn [set_indirect frozen].
    rewrite (mbind_ok _ _ _ _ _ Hrel). cbn [set_indirect frozen curBlockNumber numFullBlocks lastBlockBytes].
    destruct (rc_number _ _ _ _ _ _ Hc) as [-> ->]. pose proof (rc_chunks _ _ _ _ _ _ Hc) as Hch.
    rewrite (block_size D _ c Hch Hc2). destruct (Hch _ _ Hc2) as (Hcne & _ & _).
    assert (Hcl : 0 < length c) by (destruct c; [by destruct Hcne|simpl; lia]). rewrite bool_decide_false by lia.
    eexists false, _, _, _, own', p2. split; [reflexivity|]. split; [exact Hc'|]. split_and!; [exact Hok'|exact Hs'| |done|done].
    unfold at_byte. cbn. destruct (rcore_here _ _ _ _ _ _ Hc) as (c0 & Hcur & _ & Hnb & _); [by intros ->|].
    destruct (Hch _ _ Hcur) as (_ & _ & Hfull). apply lookup_lt_Some in Hc2. specialize (Hfull Hc2). lia.
Qed.

Lemma read_loop_spec fuel : forall size p lt D past rest own F,
  size < fuel -> rcore p lt D past rest own -> pool_ok p (own ++ F) ->
  exists lt' past' rest' own' p',
    read_loop fuel size lt p = Ok ((take size (drop (at_byte lt) (concat D.*2)), lt'), p') /\ rcore p' lt' D past' rest' own' /\
    pool_ok p' (own' ++ F) /\ same_blocks F p p' /\ frozen lt' = frozen lt /\
    at_byte lt' = at_byte lt + length (take size (drop (at_byte lt) (concat D.*2))).
Proof.
  induction fuel as [|fuel IH]; intros size p lt D past rest own F Hf Hc Hok; [lia|]. cbn [read_loop].
  destruct (decide (size = 0)) as [->|Hsz].
  { exists lt, past, rest, own, p. rewrite take_0. split_and!; try done; simpl; lia. }
  destruct (fill_spec p lt D past rest own F Hc Hok) as (eof & lt1 & past1 & rest1 & own1 & p1 & Hfill & Hc1 & Hok1 & Hs1 & Hat & Hfz & Hend).
  rewrite (mbind_ok _ _ _ _ _ Hfill). clear Hfill. destruct eof.
  { rewrite Hend, take_nil. exists lt1, past1, rest1, own1, p1. split_and!; try done. simpl. lia. }
  rewrite <- Hat, <- Hfz. clear Hat Hfz.
  destruct (rcore_here _ _ _ _ _ _ Hc1) as (c & Hcur & Hpast & Hnb & buf & Hbuf & Hbt).
  { intros ->. pose proof (rc_here _ _ _ _ _ _ Hc1) as (_ & _ & Hn0). lia. }
  set (n := Nat.min (nbytes lt1 - pos lt1) size). assert (Hn : 0 < n <= size /\ pos lt1 + n <= length c) by lia.
  erewrite mbind_ok; [|unfold Assert; by rewrite bool_decide_true by lia]. rewrite Hbuf. erewrite mbind_ok; [|reflexivity].
  set (lt2 := set_place (curBlockNumber lt1) (pos lt1 + n) (nbytes lt1) lt1).
  assert (Hc2 : rcore p1 lt2 D past1 rest1 own1) by (destruct Hc1; split; try done; cbn; lia).
  assert (Hat2 : at_byte lt2 = at_byte lt1 + n) by (unfold at_byte; cbn; lia).
  destruct (IH (size - n) p1 lt2 D past1 rest1 own1 F) as (lt' & past' & rest' & own' & p' & Hrun & Hc' & Hok' & Hs' & Hfz' & Hat'); [lia|done|done|].
  assert (Hcut : take n (drop (pos lt1) buf) ++ take (size - n) (drop (at_byte lt2) (concat D.*2)) = take size (drop (at_byte lt1) (concat D.*2))).
  { assert (Hd : take n (drop (pos lt1) buf) = take n (drop (at_byte lt1) (concat D.*2))).
    { unfold at_byte. rewrite (chunked_drop _ _ c) by (try done; try lia; by destruct Hc1). rewrite take_app_le by (rewrite length_drop; lia).
      rewrite <- Hbt. rewrite <- (take_drop (length c) buf) at 1. rewrite Hbt. rewrite drop_app_le, take_app_le by (rewrite ?length_drop; lia). done. }
    rewrite Hd, Hat2, <- drop_drop. rewrite <- (take_drop n (take size _)). rewrite take_take, Nat.min_l, skipn_firstn_comm by lia. done. }
  rewrite (mbind_ok _ _ _ _ _ Hrun). cbv beta iota. rewrite Hcut. exists lt', past', rest', own', p'.
  split_and!; [reflexivity|exact Hc'|exact Hok'|by eapply same_blocks_trans|exact Hfz'|].
  assert (Hcl : length c <= length buf) by (rewrite <- Hbt, length_take; lia).
  rewrite Hat', <- Hcut, length_app, Hat2. rewrite (length_take _ n), length_drop. lia.
Qed.

(** *** Moving on a frozen tape, some blocks back or forward *)

Section moving.
Context (p : Pool) (D : list (Z * list byte)) (own_i F : list Z).
Context (Hdata : Forall (data_on p) D) (Hok : pool_ok p (own_i ++ F)).

(** The hierarchy stands at block [n]. *)
Definition stands_at (ibs : list IndirectBlock) (n : nat) : Prop := rlevels p true ibs (take (S n) D.*1) (drop (S n) D.*1) own_i.
(** The buffer holds block [n]. *)
Definition holds_block (buf : option (list byte)) (n : nat) : Prop :=
  exists c d, D.*2 !! n = Some c /\ buf = Some d /\ length d = BLCKSZ /\ take (length c) d = c.
(** [lt] moved to block [n]. *)
Definition moved (n : nat) (ibs : list IndirectBlock) (buf : option (list byte)) (lt : LogicalTape) : LogicalTape :=
  set_buffer buf (set_place n (pos lt) (nbytes lt) (set_indirect ibs lt)).

Lemma read_here n b : D.*1 !! n = Some b -> (0 <= b)%Z /\ exists d, read_data b p = Ok (d, p) /\ holds_block (Some d) n.
Proof using Hdata.
  intros Hb. apply list_lookup_fmap_Some in Hb as ([b' c] & -> & Hn). rewrite Forall_lookup in Hdata. destruct (Hdata _ _ Hn) as (Hb0 & d & Hd & Hdl & Hc).
  split; [exact Hb0|]. exists d. split; [by apply read_data_ok|]. exists c, d. by rewrite list_lookup_fmap, Hn.
Qed.

Lemma back_loop_spec k : forall lt, frozen lt = true -> curBlockNumber lt < length D -> k <= curBlockNumber lt -> stands_at (indirect lt) (curBlockNumber lt) ->
  exists ibs buf, back_loop k lt p = Ok (moved (curBlockNumber lt - k) ibs buf lt, p) /\ stands_at ibs (curBlockNumber lt - k) /\
    (if decide (k = 0) then buf = buffer lt else holds_block buf (curBlockNumber lt - k)).
Proof using Hdata.
  induction k as [|k IH]; intros lt Hfz Hlt Hk Hst.
  { exists (indirect lt), (buffer lt). rewrite Nat.sub_0_r. split_and!; [by destruct lt|exact Hst|reflexivity]. }
  cbn [back_loop]. set (n := curBlockNumber lt - 1). assert (Hn : curBlockNumber lt = S n) by lia.
  destruct (lookup_lt_is_Some_2 D.*1 n) as [b Hb]; [rewrite length_fmap; lia|].
  destruct (lookup_lt_is_Some_2 D.*1 (S n)) as [x Hx]; [rewrite length_fmap; lia|].
  destruct (recall_prev_spec _ _ _ _ _ Hst) as [_ Hprev]. rewrite Hn in Hprev, Hst.
  destruct (Hprev (take n D.*1) b x) as (ibs & Hrec & Hst').
  { by rewrite (take_S_r _ _ _ Hx), (take_S_r _ _ _ Hb), <- app_assoc. }
  rewrite <- (take_S_r _ _ _ Hb), <- (drop_S _ _ _ Hx) in Hst'. destruct (read_here n b Hb) as (Hb0 & d & Hrd & Hd).
  rewrite (mbind_ok _ _ _ _ _ Hrec). cbv beta iota. rewrite decide_False by lia. cbn [set_indirect set_place curBlockNumber]. fold n.
  destruct (decide (k = 0)) as [->|Hk0].
  - erewrite mbind_ok; [|rewrite (mbind_ok _ _ _ _ _ Hrd); reflexivity]. exists ibs, (Some d). rewrite Nat.sub_succ_r, Nat.sub_0_r.
    split_and!; [|rewrite Hn; exact Hst'|rewrite Hn; exact Hd]. rewrite Hn. reflexivity.
  - erewrite mbind_ok; [|reflexivity].
    edestruct (IH (set_place n (pos lt) (nbytes lt) (set_indirect ibs lt))) as (ibs2 & buf & Hrun & Hst2 & Hb2); [exact Hfz|cbn; lia|cbn; lia|exact Hst'|].
    exists ibs2, buf. rewrite Hn. change (S n - S k) with (n - k). split_and!; [exact Hrun|exact Hst2|exact Hb2].
Qed.

Lemma forward_loop_spec k : forall lt, frozen lt = true -> curBlockNumber lt + k < length D -> stands_at (indirect lt) (curBlockNumber lt) ->
  exists ibs buf, forward_loop k lt p = Ok (moved (curBlockNumber lt + k) ibs buf lt, p) /\ stands_at ibs (curBlockNumber lt + k) /\
    (if decide (k = 0) then buf = buffer lt else holds_block buf (curBlockNumber lt + k)).
Proof using Hdata Hok.
  induction k as [|k IH]; intros lt Hfz Hlt Hst.
  { exists (indirect lt), (buffer lt). rewrite Nat.add_0_r. split_and!; [by destruct lt|exact Hst|reflexivity]. }
  cbn [forward_loop]. set (n := S (curBlockNumber lt)).
  destruct (lookup_lt_is_Some_2 D.*1 n) as [b Hb]; [rewrite length_fmap; lia|].
  pose proof (recall_next_spec _ _ _ _ _ _ F Hst Hok) as Hnext. fold n in Hnext. rewrite (drop_S _ _ _ Hb) in Hnext.
  destruct Hnext as (ibs & own' & p' & Hrec & Hst' & _ & _ & Hsame). destruct (Hsame eq_refl) as [-> ->].
  rewrite <- (take_S_r _ _ _ Hb) in Hst'. destruct (read_here n b Hb) as (Hb0 & d & Hrd & Hd).
  rewrite Hfz, (mbind_ok _ _ _ _ _ Hrec). cbv beta iota. rewrite decide_False by lia. cbn [set_indirect set_place curBlockNumber]. fold n.
  replace (curBlockNumber lt + S k) with (n + k) by lia. destruct (decide (k = 0)) as [->|Hk0].
  - erewrite mbind_ok; [|rewrite (mbind_ok _ _ _ _ _ Hrd); reflexivity]. exists ibs, (Some d). rewrite Nat.add_0_r.
    split_and!; [reflexivity|exact Hst'|exact Hd].
  - erewrite mbind_ok; [|reflexivity].
    edestruct (IH (set_place n (pos lt) (nbytes lt) (set_indirect ibs lt))) as (ibs2 & buf & Hrun & Hst2 & Hb2); [exact Hfz|cbn; lia|exact Hst'|].
    exists ibs2, buf. split_and!; [exact Hrun|exact Hst2|exact Hb2].
Qed.
End moving.

(** ** One tape of a set *)

(** [f] does to a tape what takes [t] to [t'], returns [a], and leaves the blocks of the other tapes alone. *)
Definition simulates {A} (f : LogicalTape -> PM (A * LogicalTape)) (t : tape) (a : A) (t' : tape) : Prop :=
  forall p lt own F, tape_rep p lt t own -> pool_ok p (own ++ F) ->
  exists lt' own' p', f lt p = Ok ((a, lt'), p') /\ tape_rep p' lt' t' own' /\ pool_ok p' (own' ++ F) /\ same_blocks F p p'.

Lemma rcore_frozen p lt D past rest own : rcore p lt D past rest own -> frozen lt = true -> D <> [] -> exists own_i,
  stands_at p D own_i (indirect lt) (curBlockNumber lt) /\ own = D.*1 ++ own_i /\ Forall (data_on p) D /\ curBlockNumber lt < length D.
Proof.
  intros Hc Hfz HD. destruct (rcore_here _ _ _ _ _ _ Hc HD) as (c & Hcur & Hpast & _). destruct Hc as [(own_i & Hr & ->) Hnm Hd _ _ _ _ _ _].
  rewrite Hfz in *. exists own_i. apply lookup_lt_Some in Hcur. rewrite length_fmap in Hcur. split_and!; [|done|done|done].
  unfold stands_at. rewrite <- Hpast, <- Hnm. by rewrite take_app_length, drop_app_length.
Qed.

(** A frozen tape that moved to another block. *)
Lemma rcore_moved p lt D past rest own own_i n ibs buf k : rcore p lt D past rest own -> frozen lt = true -> own = D.*1 ++ own_i ->
  stands_at p D own_i ibs n -> holds_block D buf n -> (forall c, D.*2 !! n = Some c -> k <= length c) ->
  rcore p (set_place n k (if decide (n < length D - 1) then BLCKSZ else lastBlockBytes lt) (moved n ibs buf lt)) D (take (S n) D.*1) (drop (S n) D.*1) own.
Proof.
  intros Hc Hfz -> Hst (c & d & Hn & -> & Hdl & Hd) Hk. pose proof Hc as [_ Hnm Hdt Hch [Hn1 Hn2] _ _ _ Hm]. rewrite Hfz in Hdt. specialize (Hk _ Hn).
  assert (Hlt : n < length D) by (rewrite <- (length_fmap snd); by eapply lookup_lt_Some).
  rewrite Hn2, (block_size D n c Hch Hn).
  split; cbn [set_place moved set_buffer set_indirect frozen indirect curBlockNumber pos nbytes buffer numFullBlocks lastBlockBytes writing]; rewrite ?Hfz; try done.
  - by exists own_i.
  - apply take_drop.
  - rewrite Hn. split_and!; [rewrite length_take, length_fmap; lia|done|by exists d].
  - intros buf [= <-]. exact Hdl.
Qed.

Lemma tape_rep_writing p lt t own : tape_rep p lt t own -> writing lt = tp_writing t /\ frozen lt = tp_frozen t.
Proof. intros [(D & w & [] & _ & _ & ->)|(D & past & rest & [] & ->)]; cbn; tauto. Qed.

Lemma write_simulates data t t' : tape_append data t = Some t' -> simulates (fun lt =>
    Assert (writing lt);;
    let lt := match buffer lt with Some _ => lt | None => set_buffer (Some (replicate BLCKSZ 0%Z)) lt end in
    let lt := match indirect lt with [] => set_indirect [new_indirect] lt | _ => lt end in
    lt ← write_loop (length data) data lt;
    mret (tt, lt)) t tt t'.
Proof.
  unfold tape_append. intros Ht p lt own F Hrep Hok. pose proof (tape_rep_writing _ _ _ _ Hrep) as [Hwr _].
  destruct (tp_writing t) eqn:Etw; [|done]. injection Ht as <-.
  destruct Hrep as [(D & w & Hc & HD & Hw & ->)|(D & past & rest & Hc & ->)]; [|done].
  erewrite mbind_ok; [|unfold Assert; by rewrite Hwr]. cbv zeta.
  set (lt1 := match buffer lt with Some _ => lt | None => _ end). set (lt2 := match indirect lt1 with [] => _ | _ => lt1 end).
  assert (Hc2 : wcore p lt2 D w own /\ indirect lt2 <> [] /\ buffer lt2 <> None).
  { assert (Hc1 : wcore p lt1 D w own /\ buffer lt1 <> None).
    { unfold lt1. destruct (buffer lt) eqn:Eb; [by rewrite Eb|]. split; [|done]. destruct Hc as [Hl Hd Hf Hn Hp Hdt Hb Hm]. split; try done.
      rewrite Eb in Hb. subst w. cbn. by rewrite length_replicate. }
    clearbody lt1. destruct Hc1 as [Hc1 Hb1]. unfold lt2. destruct (indirect lt1) eqn:Ei; [|by rewrite Ei]. split_and!; [|done|done].
    destruct Hc1 as [(own_i & Hl & ->) Hd Hf Hn Hp Hdt Hb Hm]. rewrite Ei in Hl. destruct Hl as [HD0 ->]. apply fmap_nil_inv in HD0 as ->. split; try done.
    exists []. split; [|done]. exists [], [], []. split_and!; try done; apply length_replicate. }
  clearbody lt2. clear lt1. destruct Hc2 as (Hc2 & Hi2 & Hb2).
  destruct (write_loop_spec (length data) data p lt2 D w own F) as (lt' & D' & w' & own' & p' & Hrun & Hc' & Hok' & Hs' & Hcat & Hne & Hnil & Hi' & _); [done..|].
  rewrite (mbind_ok _ _ _ _ _ Hrun). exists lt', own', p'. split_and!; [reflexivity| |exact Hok'|exact Hs'].
  left. exists D', w'. split_and!; [exact Hc'| |done|].
  - destruct data; [|intros _; by apply Hne]. by destruct (Hnil eq_refl) as [-> ->].
  - cbn. rewrite Hcat, <- app_assoc, !length_app. f_equal. lia.
Qed.

Lemma read_simulates size data t t' : tape_next size t = Some (data, t') ->
  simulates (fun lt => Assert (negb (writing lt));; read_loop (S size) size lt) t data t'.
Proof.
  unfold tape_next. intros Ht p lt own F Hrep Hok. pose proof (tape_rep_writing _ _ _ _ Hrep) as [Hwr _].
  destruct (tp_writing t) eqn:Etw; [done|]. injection Ht as <- <-. erewrite mbind_ok; [|unfold Assert; by rewrite Hwr].
  destruct Hrep as [(D & w & Hc & HD & Hw & ->)|(D & past & rest & Hc & ->)]; [done|].
  destruct (read_loop_spec (S size) size p lt D past rest own F) as (lt' & past' & rest' & own' & p' & Hrun & Hc' & Hok' & Hs' & Hfz & Hat); [lia|done|done|].
  exists lt', own', p'. split_and!; [exact Hrun| |exact Hok'|exact Hs']. right. exists D, past', rest'. split; [exact Hc'|]. cbn. rewrite Hfz. f_equal. symmetry. exact Hat.
Qed.

Lemma rlevels_shape p fz ib up past rest own : rlevels p fz (ib :: up) past rest own -> length (ptrs ib) = BLOCKS_PER_INDIR_BLOCK.
Proof. intros (? & ? & ? & _ & _ & _ & [H _] & _). exact H. Qed.

Lemma rewind_simulates forWrite t t' : tape_rewind forWrite t = Some t' -> simulates (fun lt =>
    lt ← (if negb forWrite then
            if writing lt then finish_write false lt
            else
              Assert (frozen lt);;
              '(datablocknum, ibs) ← ltsRewindFrozenIndirectBlock (indirect lt);
              load_first datablocknum (set_indirect ibs lt)
          else
            Assert (negb (writing lt) && negb (frozen lt));;
            let ibs := match indirect lt with [] => [] | ib :: _ => [mkInd 0 (ptrs ib)] end in
            mret (mkLt ibs true (frozen lt) false 0 0 (buffer lt) 0 0 0));
    mret (tt, lt)) t tt t'.
Proof.
  intros Ht p lt own F Hrep Hok. pose proof (tape_rep_writing _ _ _ _ Hrep) as [Hwr Hfr]. unfold tape_rewind in Ht. destruct forWrite; cbn [negb].
  - destruct (tp_writing t) eqn:Ew, (tp_frozen t) eqn:Ef; try discriminate Ht. injection Ht as <-.
    destruct Hrep as [(D & w & _ & _ & _ & ->)|(D & past & rest & Hc & ->)]; [discriminate Ew|].
    rewrite mbind_assoc. erewrite mbind_ok; [|unfold Assert; by rewrite Hwr, Hfr]. eexists _, [], p. split_and!; [reflexivity| |by apply pool_ok_drops in Hok|done].
    left. exists [], []. split_and!; [|done|done|done]. destruct Hc as [(own_i & Hr & _) _ _ _ _ _ _ Hbk _]. split; cbn; try done.
    + exists []. split; [|done]. destruct (indirect lt) as [|ib up]; [done|]. exists [], [], []. split_and!; try done. split; [exact (rlevels_shape _ _ _ _ _ _ _ Hr)|reflexivity].
    + lia.
    + destruct (buffer lt) as [buf|] eqn:Eb; [|done]. split; [by apply Hbk|done].
  - destruct (writing lt) eqn:Ewr.
    + rewrite <- Hwr in Ht. injection Ht as <-. destruct Hrep as [(D & w & Hc & HD & Hw & ->)|(D & past & rest & Hc & ->)]; [|discriminate Hwr].
      destruct (finish_write_spec false p lt D w own F Hc HD Hw Hok) as (lt' & D' & past & rest & own' & p' & Hrun & Hc' & Hok' & Hs' & Hcat & Hc0 & Hp0 & Hfz).
      rewrite (mbind_ok _ _ _ _ _ Hrun). exists lt', own', p'. split_and!; [reflexivity| |exact Hok'|exact Hs'].
      right. exists D', past, rest. split; [exact Hc'|]. cbn. by rewrite Hcat, Hc0, Hp0, Hfz.
    + rewrite <- Hwr, <- Hfr in Ht. destruct (frozen lt) eqn:Efz; [|discriminate Ht]. injection Ht as <-.
      destruct Hrep as [(D & w & Hc & HD & Hw & ->)|(D & past & rest & Hc & ->)]; [discriminate Hwr|].
      pose proof Hc as [(own_i & Hr & ->) Hnm Hd Hch [Hn1 Hn2] Hh Hp Hbk Hm]. rewrite Efz in Hr, Hd.
      rewrite mbind_assoc. erewrite mbind_ok; [|reflexivity].
      destruct (rewind_frozen_spec _ _ _ _ _ Hr) as (ibs & Hrw & Hr' & _). rewrite Hnm in Hrw, Hr'. rewrite mbind_assoc, (mbind_ok _ _ _ _ _ Hrw). cbv beta iota.
      rewrite Efz in Hok. destruct (load_first_spec p (set_indirect ibs lt) D own_i F) as (lt' & own' & p' & Hrun & Hc' & Hok' & Hs' & Hc0 & Hp0 & Hfz).
      all: try (cbn; rewrite ?Efz; done). { by rewrite app_assoc. }
      rewrite (mbind_ok _ _ _ _ _ Hrun). exists lt', own', p'. split_and!; [reflexivity| |exact Hok'|exact Hs'].
      right. eexists D, _, _. split; [exact Hc'|]. cbn in Hfz |- *. by rewrite Hc0, Hp0, Hfz, Efz.
Qed.

Lemma freeze_simulates t t' : tape_freeze t = Some t' ->
  simulates (fun lt => Assert (writing lt);; lt ← finish_write true lt; mret (tt, lt)) t tt t'.
Proof.
  unfold tape_freeze. intros Ht p lt own F Hrep Hok. pose proof (tape_rep_writing _ _ _ _ Hrep) as [Hwr _].
  destruct (tp_writing t) eqn:Etw; [|done]. injection Ht as <-. erewrite mbind_ok; [|unfold Assert; by rewrite Hwr].
  destruct Hrep as [(D & w & Hc & HD & Hw & ->)|(D & past & rest & Hc & ->)]; [|done].
  destruct (finish_write_spec true p lt D w own F Hc HD Hw Hok) as (lt' & D' & past & rest & own' & p' & Hrun & Hc' & Hok' & Hs' & Hcat & Hc0 & Hp0 & Hfz).
  rewrite (mbind_ok _ _ _ _ _ Hrun). exists lt', own', p'. split_and!; [reflexivity| |exact Hok'|exact Hs'].
  right. exists D', past, rest. split; [exact Hc'|]. cbn. by rewrite Hcat, Hc0, Hp0, Hfz.
Qed.

Lemma back_simulates size t b t' : tape_back size t = Some (b, t') -> simulates (fun lt =>
    Assert (frozen lt);;
    if decide (size <= pos lt) then mret (true, set_place (curBlockNumber lt) (pos lt - size) (nbytes lt) lt)
    else
      let size := size - pos lt in
      let nblocks := size / BLCKSZ in
      let size := size mod BLCKSZ in
      let nblocks' := if decide (size <> 0) then S nblocks else nblocks in
      let newpos := if decide (size <> 0) then BLCKSZ - size else 0 in
      if decide (curBlockNumber lt < nblocks') then mret (false, lt)
      else
        lt ← back_loop nblocks' lt;
        mret (true, set_place (curBlockNumber lt) newpos BLCKSZ lt)) t b t'.
Proof.
  unfold tape_back. intros Ht p lt own F Hrep Hok. pose proof (tape_rep_writing _ _ _ _ Hrep) as [_ Hfr].
  destruct (tp_frozen t) eqn:Etf, (tp_writing t) eqn:Etw; try discriminate Ht. erewrite mbind_ok; [|unfold Assert; by rewrite Hfr].
  destruct Hrep as [(D & w & _ & _ & _ & ->)|(D & past & rest & Hc & ->)]; [done|]. cbn [negb andb tp_pos tp_bytes] in Ht.
  destruct (decide (size <= pos lt)) as [Hle|Hgt].
  - rewrite decide_True in Ht by lia. injection Ht as <- <-. eexists _, own, p. split_and!; [reflexivity| |exact Hok|done].
    right. exists D, past, rest. split; [destruct Hc; split; try done; cbn; lia|]. cbn. f_equal; [lia|done].
  - set (s := size - pos lt). cbv zeta. pose proof BLCKSZ_pos as HB. pose proof (Nat.div_mod s BLCKSZ ltac:(lia)) as Hdm. pose proof (Nat.mod_upper_bound s BLCKSZ ltac:(lia)) as Hmu.
    generalize dependent (s / BLCKSZ). generalize dependent (s mod BLCKSZ). intros r Hr q Hdm.
    set (nb := if decide (r <> 0) then S q else q). set (np := if decide (r <> 0) then BLCKSZ - r else 0).
    assert (Hs0 : 0 < s /\ size = s + pos lt) by lia. clearbody s.
    assert (Hnb : s + np = nb * BLCKSZ /\ np < BLCKSZ /\ 0 < s) by (unfold nb, np; destruct (decide (r <> 0)); lia).
    clearbody nb np. clear Hdm Hr. destruct Hnb as (Hnb & Hnp & Hs). destruct (decide (curBlockNumber lt < nb)) as [Hlt|Hge].
    + rewrite decide_False in Ht by nia. injection Ht as <- <-. exists lt, own, p. split_and!; [reflexivity| |exact Hok|done].
      right. exists D, past, rest. by split.
    + rewrite decide_True in Ht by nia. injection Ht as <- <-.
      assert (HD : D <> []) by (intros ->; pose proof (rc_here _ _ _ _ _ _ Hc) as (_ & ? & _); nia).
      destruct (rcore_frozen _ _ _ _ _ _ Hc Hfr HD) as (own_i & Hst & Ho & Hd & Hlen).
      destruct (back_loop_spec p D own_i Hd nb lt Hfr Hlen ltac:(lia) Hst) as (ibs & buf & Hrun & Hst' & Hbuf).
      rewrite decide_False in Hbuf by nia. rewrite (mbind_ok _ _ _ _ _ Hrun). cbn [moved set_buffer set_place curBlockNumber].
      set (n := curBlockNumber lt - nb) in *. assert (Hn : n < length D - 1) by nia.
      pose proof (rcore_moved p lt D past rest own own_i n ibs buf np Hc Hfr Ho Hst' Hbuf) as Hc'. rewrite decide_True in Hc' by done.
      eexists _, own, p. split_and!; [reflexivity| |exact Hok|done]. right. eexists D, _, _. split.
      * apply Hc'. intros c Hcn. destruct (rc_chunks _ _ _ _ _ _ Hc _ _ Hcn) as (_ & _ & Hf). rewrite Hf; [lia|]. rewrite length_fmap. lia.
      * cbn. rewrite Hfr. f_equal. nia.
Qed.

(** Positions LogicalTapeTell can return for a tape of [len] bytes. *)
Definition position (len blocknum offset : nat) : Prop := offset <= BLCKSZ /\ (blocknum = 0 \/ blocknum * BLCKSZ < len).

Lemma chunked_short cs n c : chunked cs -> cs !! n = Some c -> length (concat cs) = n * BLCKSZ + length c \/ length c = BLCKSZ.
Proof.
  intros Hc Hn. rewrite (chunked_length cs n c Hc Hn). destruct (decide (S n < length cs)) as [Hlt|Hge]; [right; by apply (Hc n c)|left].
  rewrite drop_ge by lia. simpl. lia.
Qed.
Lemma chunked_block cs n : chunked cs -> n * BLCKSZ < length (concat cs) -> n < length cs.
Proof.
  intros Hc Hl. destruct (decide (n < length cs)); [done|]. exfalso. destruct cs as [|c cs _] using rev_ind; [simpl in Hl; lia|].
  rewrite length_app in *. simpl in *. rewrite (chunked_length _ (length cs) c Hc) in Hl by (by rewrite lookup_app_r, Nat.sub_diag).
  destruct (Hc (length cs) c) as (_ & ? & _); [by rewrite lookup_app_r, Nat.sub_diag|].
  rewrite drop_ge in Hl by (rewrite length_app; simpl; lia). simpl in Hl. nia.
Qed.

Lemma seek_simulates blocknum offset t b t' : position (length (tp_bytes t)) blocknum offset -> tape_seek (blocknum * BLCKSZ + offset) t = Some (b, t') ->
  simulates (fun lt =>
    Assert (frozen lt);;
    Assert (bool_decide (offset <= BLCKSZ));;
    if bool_decide (blocknum = curBlockNumber lt) && bool_decide (offset <= nbytes lt)
    then mret (true, set_place (curBlockNumber lt) offset (nbytes lt) lt)
    else if bool_decide (numFullBlocks lt < blocknum) || (bool_decide (blocknum = numFullBlocks lt) && bool_decide (lastBlockBytes lt < offset))
    then mret (false, lt)
    else
      lt ← back_loop (curBlockNumber lt - blocknum) lt;
      lt ← forward_loop (blocknum - curBlockNumber lt) lt;
      let n := if decide (curBlockNumber lt < numFullBlocks lt) then BLCKSZ else lastBlockBytes lt in
      mret (true, set_place (curBlockNumber lt) offset n lt)) t b t'.
Proof.
  unfold tape_seek. intros [Hoff Hblk] Ht p lt own F Hrep Hok. pose proof (tape_rep_writing _ _ _ _ Hrep) as [_ Hfr].
  destruct (tp_frozen t) eqn:Etf, (tp_writing t) eqn:Etw; try discriminate Ht. erewrite mbind_ok; [|unfold Assert; by rewrite Hfr].
  erewrite mbind_ok; [|unfold Assert; by rewrite bool_decide_true by lia].
  destruct Hrep as [(D & w & _ & _ & _ & ->)|(D & past & rest & Hc & ->)]; [done|]. cbn [negb andb tp_pos tp_bytes] in Ht, Hblk.
  pose proof (rc_chunks _ _ _ _ _ _ Hc) as Hch. destruct (rc_number _ _ _ _ _ _ Hc) as [Hn1 Hn2].
  destruct (decide (D = [])) as [->|HD].
  { pose proof (rc_here _ _ _ _ _ _ Hc) as (_ & Hc0 & Hnb). assert (Hp0 : pos lt = 0) by (pose proof (rc_pos _ _ _ _ _ _ Hc); lia).
    assert (blocknum = 0) as -> by (cbn in Hblk; lia). rewrite Hc0, Hn1, Hn2, Hnb, Hp0 in *. cbn in Ht |- *. destruct offset as [|offset]; cbn in Ht |- *.
    - injection Ht as <- <-. eexists _, own, p. split_and!; [reflexivity| |exact Hok|done]. right. exists [], past, rest. split; [|cbn; by rewrite Hfr].
      destruct Hc; split; try done; cbn; lia.
    - injection Ht as <- <-. eexists _, own, p. split_and!; [reflexivity| |exact Hok|done]. right. exists [], past, rest. cbn. rewrite Hc0, Hp0. by split. }
  assert (Hlt : blocknum < length D).
  { destruct Hblk as [->|Hblk]; [destruct D; [done|simpl; lia]|]. rewrite <- (length_fmap snd D). by apply chunked_block. }
  destruct (lookup_lt_is_Some_2 D.*2 blocknum) as [c Hcb]; [by rewrite length_fmap|].
  pose proof (chunked_short _ _ _ Hch Hcb) as Hshort. pose proof (chunked_length _ _ _ Hch Hcb) as Hlong. pose proof (block_size _ _ _ Hch Hcb) as Hsz. rewrite <- Hn1, <- Hn2 in Hsz.
  assert (Hin : offset <= length c <-> blocknum * BLCKSZ + offset <= length (concat D.*2)) by lia.
  assert (Hfar : bool_decide (numFullBlocks lt < blocknum) || (bool_decide (blocknum = numFullBlocks lt) && bool_decide (lastBlockBytes lt < offset)) = bool_decide (length c < offset)).
  { rewrite (bool_decide_false (numFullBlocks lt < blocknum)) by lia. cbn [orb]. destruct (decide (blocknum < numFullBlocks lt)).
    - rewrite (bool_decide_false (blocknum = _)) by lia. symmetry. apply bool_decide_false. lia.
    - rewrite (bool_decide_true (blocknum = _)) by lia. cbn [andb]. by rewrite Hsz. }
  rewrite Hfar. clear Hfar. destruct (rcore_here _ _ _ _ _ _ Hc HD) as (c0 & Hc0 & _ & Hnb & _).
  destruct (decide (offset <= length c)) as [Hle|Hgt].
  2:{ rewrite decide_False in Ht by (by rewrite <- Hin). injection Ht as <- <-. rewrite (bool_decide_true (length c < offset)) by lia.
      assert (bool_decide (blocknum = curBlockNumber lt) && bool_decide (offset <= nbytes lt) = false) as ->.
      { destruct (decide (blocknum = curBlockNumber lt)) as [->|Hne]; [|by rewrite bool_decide_false by done].
        rewrite Hcb in Hc0. injection Hc0 as <-. rewrite (bool_decide_false (offset <= _)) by lia. apply andb_false_r. }
      eexists _, own, p. split_and!; [reflexivity| |exact Hok|done]. right. exists D, past, rest. by split. }
  rewrite decide_True in Ht by (by rewrite <- Hin). injection Ht as <- <-. rewrite (bool_decide_false (length c < offset)) by lia.
  destruct (decide (blocknum = curBlockNumber lt)) as [->|Hne].
  { rewrite Hcb in Hc0. injection Hc0 as <-. rewrite !bool_decide_true by lia. eexists _, own, p. split_and!; [reflexivity| |exact Hok|done].
    right. exists D, past, rest. split; [destruct Hc; split; try done; cbn; lia|]. cbn. by rewrite Hfr. }
  rewrite (bool_decide_false (blocknum = _)) by done. cbn [andb].
  destruct (rcore_frozen _ _ _ _ _ _ Hc Hfr HD) as (own_i & Hst & Ho & Hd & Hlen).
  assert (Hmove : exists ibs buf, (lt ← back_loop (curBlockNumber lt - blocknum) lt; forward_loop (blocknum - curBlockNumber lt) lt) p = Ok (moved blocknum ibs buf lt, p) /\
    stands_at p D own_i ibs blocknum /\ holds_block D buf blocknum).
  { destruct (back_loop_spec p D own_i Hd (curBlockNumber lt - blocknum) lt Hfr Hlen ltac:(lia) Hst) as (ibs & buf & Hrun & Hst' & Hbuf).
    rewrite (mbind_ok _ _ _ _ _ Hrun). cbn [moved set_buffer set_place curBlockNumber]. destruct (decide (curBlockNumber lt < blocknum)) as [Hup|Hdown].
    - replace (curBlockNumber lt - (curBlockNumber lt - blocknum)) with (curBlockNumber lt) in * by lia.
      destruct (forward_loop_spec p D own_i (D.*1 ++ F) Hd ltac:(subst own; eapply pool_perm; [exact Hok|perm]) (blocknum - curBlockNumber lt) (moved (curBlockNumber lt) ibs buf lt))
        as (ibs2 & buf2 & Hrun2 & Hst2 & Hbuf2); [exact Hfr|cbn; lia|exact Hst'|].
      exists ibs2, buf2. cbn [moved set_buffer set_place curBlockNumber] in Hrun2, Hst2, Hbuf2. rewrite decide_False in Hbuf2 by lia.
      replace (curBlockNumber lt + (blocknum - curBlockNumber lt)) with blocknum in * by lia. split_and!; [exact Hrun2|exact Hst2|exact Hbuf2].
    - rewrite decide_False in Hbuf by lia. replace (curBlockNumber lt - (curBlockNumber lt - blocknum)) with blocknum in * by lia. rewrite Nat.sub_diag.
      exists ibs, buf. split_and!; [reflexivity|exact Hst'|exact Hbuf]. }
  destruct Hmove as (ibs & buf & Hrun & Hst' & Hbuf). rewrite <- mbind_assoc, (mbind_ok _ _ _ _ _ Hrun). cbn [moved set_buffer set_place set_indirect curBlockNumber numFullBlocks lastBlockBytes].
  eexists _, own, p. split_and!; [reflexivity| |exact Hok|done]. right. eexists D, _, _. rewrite Hn1. split.
  - apply (rcore_moved p lt D past rest own own_i blocknum ibs buf offset Hc Hfr Ho Hst' Hbuf). intros c' Hc'. rewrite Hcb in Hc'. injection Hc' as <-. exact Hle.
  - cbn. by rewrite Hfr.
Qed.

(** ** A set of tapes *)

(** The set stands for the tapes [ts]; no block belongs to two of them. *)
Definition rep (lts : LogicalTapeSet) (ts : list tape) : Prop :=
  exists owns, length owns = length ts /\ length (lt_tapes lts) = length ts /\ pool_ok (pool lts) (concat owns) /\
    forall i lt t own, lt_tapes lts !! i = Some lt -> ts !! i = Some t -> owns !! i = Some own -> tape_rep (pool lts) lt t own.

Lemma concat_middle {A} (ls : list (list A)) i l : ls !! i = Some l -> concat ls = concat (take i ls) ++ l ++ concat (drop (S i) ls).
Proof. intros H. rewrite <- (take_drop_middle ls i l H) at 1. by rewrite concat_app. Qed.

Lemma on_tape_spec {A} (f : LogicalTape -> PM (A * LogicalTape)) lts ts i t a t' :
  rep lts ts -> ts !! i = Some t -> simulates f t a t' ->
  exists lts', on_tape lts i f = Ok (a, lts') /\ rep lts' (<[i := t']> ts).
Proof.
  intros (owns & Ho & Hl & Hok & Hrep) Ht Hsim. pose proof (lookup_lt_Some _ _ _ Ht) as Hi.
  destruct (lookup_lt_is_Some_2 (lt_tapes lts) i) as [lt Hlt]; [lia|]. destruct (lookup_lt_is_Some_2 owns i) as [own Hown]; [lia|].
  rewrite (concat_middle _ _ _ Hown) in Hok.
  destruct (Hsim (pool lts) lt own (concat (take i owns) ++ concat (drop (S i) owns))) as (lt' & own' & p' & Hrun & Hrep' & Hok' & Hs); [by eapply Hrep|eapply pool_perm; [exact Hok|perm]|].
  unfold on_tape. rewrite Hlt, Hrun. eexists. split; [reflexivity|]. exists (<[i := own']> owns). cbn. rewrite !length_insert.
  split_and!; [done|done| |].
  - rewrite (concat_middle (<[i := own']> owns) i own') by (apply list_lookup_insert_eq; lia). rewrite take_insert_ge, drop_insert_lt by lia.
    eapply pool_perm; [exact Hok'|perm].
  - intros j ltj tj ownj Hltj Htj Hownj. destruct (decide (i = j)) as [<-|Hij].
    + rewrite list_lookup_insert_eq in Hltj by lia. rewrite list_lookup_insert_eq in Htj by lia. rewrite list_lookup_insert_eq in Hownj by lia. congruence.
    + rewrite list_lookup_insert_ne in Hltj by done. rewrite list_lookup_insert_ne in Htj by done. rewrite list_lookup_insert_ne in Hownj by done.
      eapply tape_rep_frame; [|by eapply Hrep]. intros b Hb. apply Hs. rewrite elem_of_app, !list_elem_of_In, !in_concat.
      destruct (decide (j < i)).
      * left. exists ownj. split; [|by apply list_elem_of_In]. apply list_elem_of_In, (list_elem_of_lookup_2 _ j). by rewrite lookup_take_lt.
      * right. exists ownj. split; [|by apply list_elem_of_In]. apply list_elem_of_In, (list_elem_of_lookup_2 _ (j - S i)). rewrite lookup_drop.
        by replace (S i + (j - S i)) with j by lia.
Qed.

Lemma rep_create n : rep (LogicalTapeSetCreate n) (replicate n tape_create).
Proof.
  exists (replicate n []). rewrite !length_replicate. split_and!; [done|apply length_replicate| |].
  - assert (concat (replicate n (@nil Z)) = []) as -> by (induction n; done). split; cbn; [done|constructor|constructor|lia|]. intros _. constructor.
  - intros i lt t own Hlt Ht Hown. apply lookup_replicate in Hlt as [-> _]. apply lookup_replicate in Ht as [-> _]. apply lookup_replicate in Hown as [-> _].
    left. exists [], []. split_and!; try done. split; cbn; try done; [by exists []|lia].
Qed.

Lemma rep_forget lts ts : rep lts ts -> rep (LogicalTapeSetForgetFreeSpace lts) ts.
Proof.
  intros (owns & Ho & Hl & [H1 H2 H3 H4 H5] & Hrep). exists owns. split_and!; [done|done|by split|].
  intros i lt t own Hlt Ht Hown. eapply tape_rep_frame; [|by eapply Hrep]. by intros b _.
Qed.

Lemma tell_spec lts ts i t : rep lts ts -> ts !! i = Some t ->
  exists b o, LogicalTapeTell lts i = Ok (b, o) /\ b * BLCKSZ + o = tp_pos t /\ position (length (tp_bytes t)) b o.
Proof.
  intros (owns & Ho & Hl & Hok & Hrep) Ht. pose proof (lookup_lt_Some _ _ _ Ht) as Hi.
  destruct (lookup_lt_is_Some_2 (lt_tapes lts) i) as [lt Hlt]; [lia|]. destruct (lookup_lt_is_Some_2 owns i) as [own Hown]; [lia|].
  unfold LogicalTapeTell. rewrite Hlt. eexists _, _. split; [reflexivity|]. destruct (Hrep _ _ _ _ Hlt Ht Hown) as [(D & w & Hc & HD & _ & ->)|(D & past & rest & Hc & ->)].
  - destruct Hc as [_ _ Hfull [_ Hn] (Hp & _ & Hle) _ _ _]. assert (Hlen : length (concat D.*2) = length D * BLCKSZ).
    { clear -Hfull. induction Hfull as [|c D Hc _ IH]; [done|]. cbn. rewrite length_app. lia. }
    cbn [tp_pos tp_bytes]. rewrite length_app, Hlen, Hn, Hp. split; [lia|]. split; [lia|]. destruct D; [by left|right].
    destruct w; [by destruct HD|]. simpl. lia.
  - cbn [tp_pos tp_bytes]. split; [done|]. destruct (decide (D = [])) as [->|HD].
    + pose proof (rc_here _ _ _ _ _ _ Hc) as (_ & Hc0 & Hnb). pose proof (rc_pos _ _ _ _ _ _ Hc). split; [lia|by left].
    + destruct (rcore_here _ _ _ _ _ _ Hc HD) as (c & Hcur & _ & Hnb & _). pose proof (rc_pos _ _ _ _ _ _ Hc).
      destruct (rc_chunks _ _ _ _ _ _ Hc _ _ Hcur) as (Hne & Hcl & _). split; [lia|]. right.
      rewrite (chunked_length _ _ _ (rc_chunks _ _ _ _ _ _ Hc) Hcur). destruct c; [by destruct Hne|]. simpl. lia.
Qed.

(** The operations of logtape.c, on the tape with this number, as operations of Tape. *)
Inductive lt_op := OpWrite (data : list byte) | OpRead (size : nat) | OpRewind (forWrite : bool) | OpFreeze | OpBackspace (size : nat) | OpSeek (blocknum offset : nat).
(** What an operation returns: the bytes read, or whether it moved. *)
Abbreviation tape_result := (list byte + bool)%type.

Definition op_spec (op : lt_op) (t : tape) : option (tape_result * tape) :=
  match op with
  | OpWrite data => t ← tape_append data t; Some (inr true, t)
  | OpRead size => '(d, t) ← tape_next size t; Some (inl d, t)
  | OpRewind forWrite => t ← tape_rewind forWrite t; Some (inr true, t)
  | OpFreeze => t ← tape_freeze t; Some (inr true, t)
  | OpBackspace size => '(b, t) ← tape_back size t; Some (inr b, t)
  | OpSeek blocknum offset =>
    if bool_decide (offset <= BLCKSZ) && (bool_decide (blocknum = 0) || bool_decide (blocknum * BLCKSZ < length (tp_bytes t)))
    then '(b, t) ← tape_seek (blocknum * BLCKSZ + offset) t; Some (inr b, t) else None
  end.
Definition op_run (op : lt_op) (i : nat) (lts : LogicalTapeSet) : res (tape_result * LogicalTapeSet) :=
  match op with
  | OpWrite data => l ← LogicalTapeWrite lts i data; Ok (inr true, l)
  | OpRead size => '(d, l) ← LogicalTapeRead lts i size; Ok (inl d, l)
  | OpRewind forWrite => l ← LogicalTapeRewind lts i forWrite; Ok (inr true, l)
  | OpFreeze => l ← LogicalTapeFreeze lts i; Ok (inr true, l)
  | OpBackspace size => '(b, l) ← LogicalTapeBackspace lts i size; Ok (inr b, l)
  | OpSeek blocknum offset => '(b, l) ← LogicalTapeSeek lts i blocknum offset; Ok (inr b, l)
  end.

Lemma res_bind_ok {A B} (m : res A) (f : A -> res B) a : m = Ok a -> (m ≫= f) = f a.
Proof. by intros ->. Qed.

Section operations.
Context (lts : LogicalTapeSet) (ts : list tape) (i : nat) (t : tape) (Hr : rep lts ts) (Ht : ts !! i = Some t).

Lemma write_ok data t' : tape_append data t = Some t' -> exists lts', LogicalTapeWrite lts i data = Ok lts' /\ rep lts' (<[i := t']> ts).
Proof using Hr Ht.
  intros E. destruct (on_tape_spec _ _ _ _ _ _ _ Hr Ht (write_simulates _ _ _ E)) as (l & Hrun & Hr'). exists l. split; [exact (res_bind_ok _ _ _ Hrun)|exact Hr'].
Qed.
Lemma read_ok size d t' : tape_next size t = Some (d, t') -> exists lts', LogicalTapeRead lts i size = Ok (d, lts') /\ rep lts' (<[i := t']> ts).
Proof using Hr Ht. intros E. exact (on_tape_spec _ _ _ _ _ _ _ Hr Ht (read_simulates _ _ _ _ E)). Qed.
Lemma rewind_ok forWrite t' : tape_rewind forWrite t = Some t' -> exists lts', LogicalTapeRewind lts i forWrite = Ok lts' /\ rep lts' (<[i := t']> ts).
Proof using Hr Ht.
  intros E. destruct (on_tape_spec _ _ _ _ _ _ _ Hr Ht (rewind_simulates _ _ _ E)) as (l & Hrun & Hr'). exists l. split; [exact (res_bind_ok _ _ _ Hrun)|exact Hr'].
Qed.
Lemma freeze_ok t' : tape_freeze t = Some t' -> exists lts', LogicalTapeFreeze lts i = Ok lts' /\ rep lts' (<[i := t']> ts).
Proof using Hr Ht.
  intros E. destruct (on_tape_spec _ _ _ _ _ _ _ Hr Ht (freeze_simulates _ _ E)) as (l & Hrun & Hr'). exists l. split; [exact (res_bind_ok _ _ _ Hrun)|exact Hr'].
Qed.
Lemma backspace_ok size b t' : tape_back size t = Some (b, t') -> exists lts', LogicalTapeBackspace lts i size = Ok (b, lts') /\ rep lts' (<[i := t']> ts).
Proof using Hr Ht. intros E. exact (on_tape_spec _ _ _ _ _ _ _ Hr Ht (back_simulates _ _ _ _ E)). Qed.
Lemma seek_ok blocknum offset b t' : position (length (tp_bytes t)) blocknum offset -> tape_seek (blocknum * BLCKSZ + offset) t = Some (b, t') ->
  exists lts', LogicalTapeSeek lts i blocknum offset = Ok (b, lts') /\ rep lts' (<[i := t']> ts).
Proof using Hr Ht. intros Hp E. exact (on_tape_spec _ _ _ _ _ _ _ Hr Ht (seek_simulates _ _ _ _ _ Hp E)). Qed.

Lemma op_refines op r t' : op_spec op t = Some (r, t') -> exists lts', op_run op i lts = Ok (r, lts') /\ rep lts' (<[i := t']> ts).
Proof using Hr Ht.
  destruct op; cbn [op_spec op_run]; intros E.
  - destruct (tape_append data t) as [t1|] eqn:E1; [|discriminate E]. injection E as <- <-. destruct (write_ok _ _ E1) as (l & -> & ?). by exists l.
  - destruct (tape_next size t) as [[d t1]|] eqn:E1; [|discriminate E]. injection E as <- <-. destruct (read_ok _ _ _ E1) as (l & -> & ?). by exists l.
  - destruct (tape_rewind forWrite t) as [t1|] eqn:E1; [|discriminate E]. injection E as <- <-. destruct (rewind_ok _ _ E1) as (l & -> & ?). by exists l.
  - destruct (tape_freeze t) as [t1|] eqn:E1; [|discriminate E]. injection E as <- <-. destruct (freeze_ok _ E1) as (l & -> & ?). by exists l.
  - destruct (tape_back size t) as [[b t1]|] eqn:E1; [|discriminate E]. injection E as <- <-. destruct (backspace_ok _ _ _ E1) as (l & -> & ?). by exists l.
  - destruct (bool_decide (offset <= BLCKSZ) && _) eqn:E0; [|discriminate E].
    destruct (tape_seek _ t) as [[b t1]|] eqn:E1; [|discriminate E]. injection E as <- <-. assert (Hp : position (length (tp_bytes t)) blocknum offset).
    { apply andb_prop in E0 as [?%bool_decide_eq_true [?%bool_decide_eq_true|?%bool_decide_eq_true]%orb_prop]; split; auto. }
    destruct (seek_ok _ _ _ _ Hp E1) as (l & -> & ?). by exists l.
Qed.
End operations.

(** A sequence of operations on a set and its tapes, with what they return. *)
Inductive set_op := OnTape (i : nat) (op : lt_op) | ForgetFreeSpace.
Fixpoint run_spec (ops : list set_op) (ts : list tape) : option (list tape_result * list tape) :=
  match ops with
  | [] => Some ([], ts)
  | OnTape i op :: ops => t ← ts !! i; '(r, t) ← op_spec op t; '(rs, ts) ← run_spec ops (<[i := t]> ts); Some (r :: rs, ts)
  | ForgetFreeSpace :: ops => run_spec ops ts
  end.
Fixpoint run_ops (ops : list set_op) (lts : LogicalTapeSet) : res (list tape_result * LogicalTapeSet) :=
  match ops with
  | [] => Ok ([], lts)
  | OnTape i op :: ops => '(r, lts) ← op_run op i lts; '(rs, lts) ← run_ops ops lts; Ok (r :: rs, lts)
  | ForgetFreeSpace :: ops => run_ops ops (LogicalTapeSetForgetFreeSpace lts)
  end.

Lemma run_refines ops : forall lts ts rs ts', rep lts ts -> run_spec ops ts = Some (rs, ts') -> exists lts', run_ops ops lts = Ok (rs, lts') /\ rep lts' ts'.
Proof.
  induction ops as [|[i op|] ops IH]; intros lts ts rs ts' Hr E; cbn [run_spec run_ops] in *.
  - injection E as <- <-. by exists lts.
  - destruct (ts !! i) as [t|] eqn:Et; [|discriminate E]. cbn in E. destruct (op_spec op t) as [[r t1]|] eqn:E1; [|discriminate E]. cbn in E.
    destruct (op_refines lts ts i t Hr Et op r t1 E1) as (l1 & -> & Hr1).
    destruct (run_spec ops (<[i := t1]> ts)) as [[rs1 ts1]|] eqn:E2; [|discriminate E]. injection E as <- <-.
    destruct (IH _ _ _ _ Hr1 E2) as (l2 & Hrun & Hr2). exists l2. split; [|exact Hr2]. cbn. by rewrite Hrun.
  - exact (IH _ _ _ _ (rep_forget _ _ Hr) E).
Qed.

(** C5: the tapes of logtape.c, which share the blocks of one file and keep the numbers of their blocks in a hierarchy of indirect
    blocks, behave as independent sequences of bytes.  Whatever operations are done on the tapes of a new set, in any order,
    as long as each is allowed where it is done, all of them succeed and return the bytes (or the answer) that the sequences
    give; no tape is changed by an operation on another one; no block is in use for two things, whether or not free
    space is still being recycled; and the position that LogicalTapeTell returns afterwards is where the tape stands and is one that
    LogicalTapeSeek accepts. *)
Theorem logtape_refines n ops rs ts : run_spec ops (replicate n tape_create) = Some (rs, ts) ->
  exists lts, run_ops ops (LogicalTapeSetCreate n) = Ok (rs, lts) /\ rep lts ts /\
    forall i t, ts !! i = Some t -> exists b o, LogicalTapeTell lts i = Ok (b, o) /\ b * BLCKSZ + o = tp_pos t /\ position (length (tp_bytes t)) b o.
Proof.
  intros E. destruct (run_refines ops _ _ _ _ (rep_create n) E) as (lts & Hrun & Hr). exists lts. split_and!; [exact Hrun|exact Hr|].
  intros i t Ht. by eapply tell_spec.
Qed.
Lemma logtape_refines_witness : exists lts, run_ops
    [OnTape 0 (OpWrite [1; 2; 3]%Z); OnTape 1 (OpWrite [4; 5]%Z); OnTape 0 (OpRewind false); OnTape 0 (OpRead 2); OnTape 1 OpFreeze;
     OnTape 1 (OpRead 9); OnTape 0 (OpRead 9); OnTape 1 (OpBackspace 1); OnTape 1 (OpRead 1); OnTape 1 (OpSeek 0 0); OnTape 0 (OpRewind true);
     ForgetFreeSpace; OnTape 0 (OpWrite [6]%Z); OnTape 1 (OpRead 1)] (LogicalTapeSetCreate 2) =
  Ok ([inr true; inr true; inr true; inl [1; 2]%Z; inr true; inl [4; 5]%Z; inl [3]%Z; inr true; inl [5]%Z; inr true; inr true; inr true; inl [4]%Z], lts).
Proof.
  edestruct (logtape_refines 2) as (lts & Hrun & _); [|exists lts; exact Hrun]. vm_compute. reflexivity.
Defined.
