(* ===== verification/Tuplesort.v ===== *)
(** * Tuplesort: sorting tuples (src/backend/utils/sort/tuplesort.c)

    The state of a sort and its operations, generic in the kind of tuple: a [SortMethods]
    collects the function pointers comparetup, reversedirection, writetup and readtup of
    the state.  memtuples[] is a list of length memtupsize whose first memtupcount entries count.
    Memory is accounted for as in the code; how much a tuple or the array takes is a parameter.
    Errors are [EElog], failed assertions [EAssert], accesses out of an array [EUndef]. *)

From S2P Require Import Prelude Order Compare Heap Qsort Tape LogTape.
From Stdlib Require Import Permutation.

Inductive TupSortStatus :=
| TSS_INITIAL | TSS_BOUNDED | TSS_BUILDRUNS | TSS_SORTEDINMEM | TSS_SORTEDONTAPE | TSS_FINALMERGE.
#[export] Instance TupSortStatus_eq_dec : EqDecision TupSortStatus.
Proof. solve_decision. Defined.

(** What the tuplesort_begin_xxx routines install in the state.  [T] is the tuple proper and
    [K] the description of the keys.
    comparetup and reversedirection may raise an error instead of returning: [comparetup_error] and [reversedirection_error]
    say when, and what the error is. *)
Class SortMethods (T K : Type) := {
  comparetup : K -> SortTuple T -> SortTuple T -> Z;
  comparetup_error : K -> SortTuple T -> SortTuple T -> option error;
  reversedirection : K -> K;
  reversedirection_error : K -> option error;
  GetMemoryChunkSpace : T -> Z;                        (* of the tuple; 0 when there is none *)
  tuple_body : SortTuple T -> list byte;               (* what writetup puts between the length words *)
  tuple_of_body : K -> list byte -> SortTuple T;       (* what readtup makes of it *)
  array_space : nat -> Z }.                            (* GetMemoryChunkSpace(memtuples) *)

Section Tuplesort.
Context {T K : Type} `{SM : !SortMethods T K}.

Record Tuplesortstate := mkTuplesortstate {
  status : TupSortStatus;
  randomAccess : bool;
  bounded : bool;
  boundUsed : bool;
  bound : Z;
  availMem : Z;
  allowedMem : Z;
  maxTapes : nat;
  tapeRange : nat;
  tapeset : option LogicalTapeSet;
  scanKeys : K;
  memtuples : list (SortTuple T);
  memtupcount : nat;
  currentRun : Z;
  mergeactive : list bool;
  mergenext : list nat;
  mergelast : list nat;
  mergeavailslots : list Z;
  mergeavailmem : list Z;
  mergefreelist : nat;
  mergefirstfree : nat;
  Level : Z;
  destTape : nat;
  tp_fib : list Z;
  tp_runs : list Z;
  tp_dummy : list Z;
  tp_tapenum : list nat;
  activeTapes : nat;
  result_tape : Z;
  current : nat;
  eof_reached : bool;
  markpos_block : nat;
  markpos_offset : nat;
  markpos_eof : bool }.

Definition set_status (v : TupSortStatus) (s : Tuplesortstate) : Tuplesortstate :=
  mkTuplesortstate v (randomAccess s) (bounded s) (boundUsed s) (bound s) (availMem s) (allowedMem s) (maxTapes s) (tapeRange s) (tapeset s) (scanKeys s) (memtuples s) (memtupcount s) (currentRun s) (mergeactive s) (mergenext s) (mergelast s) (mergeavailslots s) (mergeavailmem s) (mergefreelist s) (mergefirstfree s) (Level s) (destTape s) (tp_fib s) (tp_runs s) (tp_dummy s) (tp_tapenum s) (activeTapes s) (result_tape s) (current s) (eof_reached s) (markpos_block s) (markpos_offset s) (markpos_eof s).
Definition set_randomAccess (v : bool) (s : Tuplesortstate) : Tuplesortstate :=
  mkTuplesortstate (status s) v (bounded s) (boundUsed s) (bound s) (availMem s) (allowedMem s) (maxTapes s) (tapeRange s) (tapeset s) (scanKeys s) (memtuples s) (memtupcount s) (currentRun s) (mergeactive s) (mergenext s) (mergelast s) (mergeavailslots s) (mergeavailmem s) (mergefreelist s) (mergefirstfree s) (Level s) (destTape s) (tp_fib s) (tp_runs s) (tp_dummy s) (tp_tapenum s) (activeTapes s) (result_tape s) (current s) (eof_reached s) (markpos_block s) (markpos_offset s) (markpos_eof s).
Definition set_bounded (v : bool) (s : Tuplesortstate) : Tuplesortstate :=
  mkTuplesortstate (status s) (randomAccess s) v (boundUsed s) (bound s) (availMem s) (allowedMem s) (maxTapes s) (tapeRange s) (tapeset s) (scanKeys s) (memtuples s) (memtupcount s) (currentRun s) (mergeactive s) (mergenext s) (mergelast s) (mergeavailslots s) (mergeavailmem s) (mergefreelist s) (mergefirstfree s) (Level s) (destTape s) (tp_fib s) (tp_runs s) (tp_dummy s) (tp_tapenum s) (activeTapes s) (result_tape s) (current s) (eof_reached s) (markpos_block s) (markpos_offset s) (markpos_eof s).
Definition set_boundUsed (v : bool) (s : Tuplesortstate) : Tuplesortstate :=
  mkTuplesortstate (status s) (randomAccess s) (bounded s) v (bound s) (availMem s) (allowedMem s) (maxTapes s) (tapeRange s) (tapeset s) (scanKeys s) (memtuples s) (memtupcount s) (currentRun s) (mergeactive s) (mergenext s) (mergelast s) (mergeavailslots s) (mergeavailmem s) (mergefreelist s) (mergefirstfree s) (Level s) (destTape s) (tp_fib s) (tp_runs s) (tp_dummy s) (tp_tapenum s) (activeTapes s) (result_tape s) (current s) (eof_reached s) (markpos_block s) (markpos_offset s) (markpos_eof s).
Definition set_bound (v : Z) (s : Tuplesortstate) : Tuplesortstate :=
  mkTuplesortstate (status s) (randomAccess s) (bounded s) (boundUsed s) v (availMem s) (allowedMem s) (maxTapes s) (tapeRange s) (tapeset s) (scanKeys s) (memtuples s) (memtupcount s) (currentRun s) (mergeactive s) (mergenext s) (mergelast s) (mergeavailslots s) (mergeavailmem s) (mergefreelist s) (mergefirstfree s) (Level s) (destTape s) (tp_fib s) (tp_runs s) (tp_dummy s) (tp_tapenum s) (activeTapes s) (result_tape s) (current s) (eof_reached s) (markpos_block s) (markpos_offset s) (markpos_eof s).
Definition set_availMem (v : Z) (s : Tuplesortstate) : Tuplesortstate :=
  mkTuplesortstate (status s) (randomAccess s) (bounded s) (boundUsed s) (bound s) v (allowedMem s) (maxTapes s) (tapeRange s) (tapeset s) (scanKeys s) (memtuples s) (memtupcount s) (currentRun s) (mergeactive s) (mergenext s) (mergelast s) (mergeavailslots s) (mergeavailmem s) (mergefreelist s) (mergefirstfree s) (Level s) (destTape s) (tp_fib s) (tp_runs s) (tp_dummy s) (tp_tapenum s) (activeTapes s) (result_tape s) (current s) (eof_reached s) (markpos_block s) (markpos_offset s) (markpos_eof s).
Definition set_allowedMem (v : Z) (s : Tuplesortstate) : Tuplesortstate :=
  mkTuplesortstate (status s) (randomAccess s) (bounded s) (boundUsed s) (bound s) (availMem s) v (maxTapes s) (tapeRange s) (tapeset s) (scanKeys s) (memtuples s) (memtupcount s) (currentRun s) (mergeactive s) (mergenext s) (mergelast s) (mergeavailslots s) (mergeavailmem s) (mergefreelist s) (mergefirstfree s) (Level s) (destTape s) (tp_fib s) (tp_runs s) (tp_dummy s) (tp_tapenum s) (activeTapes s) (result_tape s) (current s) (eof_reached s) (markpos_block s) (markpos_offset s) (markpos_eof s).
Definition set_maxTapes (v : nat) (s : Tuplesortstate) : Tuplesortstate :=
  mkTuplesortstate (status s) (randomAccess s) (bounded s) (boundUsed s) (bound s) (availMem s) (allowedMem s) v (tapeRange s) (tapeset s) (scanKeys s) (memtuples s) (memtupcount s) (currentRun s) (mergeactive s) (mergenext s) (mergelast s) (mergeavailslots s) (mergeavailmem s) (mergefreelist s) (mergefirstfree s) (Level s) (destTape s) (tp_fib s) (tp_runs s) (tp_dummy s) (tp_tapenum s) (activeTapes s) (result_tape s) (current s) (eof_reached s) (markpos_block s) (markpos_offset s) (markpos_eof s).
Definition set_tapeRange (v : nat) (s : Tuplesortstate) : Tuplesortstate :=
  mkTuplesortstate (status s) (randomAccess s) (bounded s) (boundUsed s) (bound s) (availMem s) (allowedMem s) (maxTapes s) v (tapeset s) (scanKeys s) (memtuples s) (memtupcount s) (currentRun s) (mergeactive s) (mergenext s) (mergelast s) (mergeavailslots s) (mergeavailmem s) (mergefreelist s) (mergefirstfree s) (Level s) (destTape s) (tp_fib s) (tp_runs s) (tp_dummy s) (tp_tapenum s) (activeTapes s) (result_tape s) (current s) (eof_reached s) (markpos_block s) (markpos_offset s) (markpos_eof s).
Definition set_tapeset (v : option LogicalTapeSet) (s : Tuplesortstate) : Tuplesortstate :=
  mkTuplesortstate (status s) (randomAccess s) (bounded s) (boundUsed s) (bound s) (availMem s) (allowedMem s) (maxTapes s) (tapeRange s) v (scanKeys s) (memtuples s) (memtupcount s) (currentRun s) (mergeactive s) (mergenext s) (mergelast s) (mergeavailslots s) (mergeavailmem s) (mergefreelist s) (mergefirstfree s) (Level s) (destTape s) (tp_fib s) (tp_runs s) (tp_dummy s) (tp_tapenum s) (activeTapes s) (result_tape s) (current s) (eof_reached s) (markpos_block s) (markpos_offset s) (markpos_eof s).
Definition set_scanKeys (v : K) (s : Tuplesortstate) : Tuplesortstate :=
  mkTuplesortstate (status s) (randomAccess s) (bounded s) (boundUsed s) (bound s) (availMem s) (allowedMem s) (maxTapes s) (tapeRange s) (tapeset s) v (memtuples s) (memtupcount s) (currentRun s) (mergeactive s) (mergenext s) (mergelast s) (mergeavailslots s) (mergeavailmem s) (mergefreelist s) (mergefirstfree s) (Level s) (destTape s) (tp_fib s) (tp_runs s) (tp_dummy s) (tp_tapenum s) (activeTapes s) (result_tape s) (current s) (eof_reached s) (markpos_block s) (markpos_offset s) (markpos_eof s).
Definition set_memtuples (v : list (SortTuple T)) (s : Tuplesortstate) : Tuplesortstate :=
  mkTuplesortstate (status s) (randomAccess s) (bounded s) (boundUsed s) (bound s) (availMem s) (allowedMem s) (maxTapes s) (tapeRange s) (tapeset s) (scanKeys s) v (memtupcount s) (currentRun s) (mergeactive s) (mergenext s) (mergelast s) (mergeavailslots s) (mergeavailmem s) (mergefreelist s) (mergefirstfree s) (Level s) (destTape s) (tp_fib s) (tp_runs s) (tp_dummy s) (tp_tapenum s) (activeTapes s) (result_tape s) (current s) (eof_reached s) (markpos_block s) (markpos_offset s) (markpos_eof s).
Definition set_memtupcount (v : nat) (s : Tuplesortstate) : Tuplesortstate :=
  mkTuplesortstate (status s) (randomAccess s) (bounded s) (boundUsed s) (bound s) (availMem s) (allowedMem s) (maxTapes s) (tapeRange s) (tapeset s) (scanKeys s) (memtuples s) v (currentRun s) (mergeactive s) (mergenext s) (mergelast s) (mergeavailslots s) (mergeavailmem s) (mergefreelist s) (mergefirstfree s) (Level s) (destTape s) (tp_fib s) (tp_runs s) (tp_dummy s) (tp_tapenum s) (activeTapes s) (result_tape s) (current s) (eof_reached s) (markpos_block s) (markpos_offset s) (markpos_eof s).
Definition set_currentRun (v : Z) (s : Tuplesortstate) : Tuplesortstate :=
  mkTuplesortstate (status s) (randomAccess s) (bounded s) (boundUsed s) (bound s) (availMem s) (allowedMem s) (maxTapes s) (tapeRange s) (tapeset s) (scanKeys s) (memtuples s) (memtupcount s) v (mergeactive s) (mergenext s) (mergelast s) (mergeavailslots s) (mergeavailmem s) (mergefreelist s) (mergefirstfree s) (Level s) (destTape s) (tp_fib s) (tp_runs s) (tp_dummy s) (tp_tapenum s) (activeTapes s) (result_tape s) (current s) (eof_reached s) (markpos_block s) (markpos_offset s) (markpos_eof s).
Definition set_mergeactive (v : list bool) (s : Tuplesortstate) : Tuplesortstate :=
  mkTuplesortstate (status s) (randomAccess s) (bounded s) (boundUsed s) (bound s) (availMem s) (allowedMem s) (maxTapes s) (tapeRange s) (tapeset s) (scanKeys s) (memtuples s) (memtupcount s) (currentRun s) v (mergenext s) (mergelast s) (mergeavailslots s) (mergeavailmem s) (mergefreelist s) (mergefirstfree s) (Level s) (destTape s) (tp_fib s) (tp_runs s) (tp_dummy s) (tp_tapenum s) (activeTapes s) (result_tape s) (current s) (eof_reached s) (markpos_block s) (markpos_offset s) (markpos_eof s).
Definition set_mergenext (v : list nat) (s : Tuplesortstate) : Tuplesortstate :=
  mkTuplesortstate (status s) (randomAccess s) (bounded s) (boundUsed s) (bound s) (availMem s) (allowedMem s) (maxTapes s) (tapeRange s) (tapeset s) (scanKeys s) (memtuples s) (memtupcount s) (currentRun s) (mergeactive s) v (mergelast s) (mergeavailslots s) (mergeavailmem s) (mergefreelist s) (mergefirstfree s) (Level s) (destTape s) (tp_fib s) (tp_runs s) (tp_dummy s) (tp_tapenum s) (activeTapes s) (result_tape s) (current s) (eof_reached s) (markpos_block s) (markpos_offset s) (markpos_eof s).
Definition set_mergelast (v : list nat) (s : Tuplesortstate) : Tuplesortstate :=
  mkTuplesortstate (status s) (randomAccess s) (bounded s) (boundUsed s) (bound s) (availMem s) (allowedMem s) (maxTapes s) (tapeRange s) (tapeset s) (scanKeys s) (memtuples s) (memtupcount s) (currentRun s) (mergeactive s) (mergenext s) v (mergeavailslots s) (mergeavailmem s) (mergefreelist s) (mergefirstfree s) (Level s) (destTape s) (tp_fib s) (tp_runs s) (tp_dummy s) (tp_tapenum s) (activeTapes s) (result_tape s) (current s) (eof_reached s) (markpos_block s) (markpos_offset s) (markpos_eof s).
Definition set_mergeavailslots (v : list Z) (s : Tuplesortstate) : Tuplesortstate :=
  mkTuplesortstate (status s) (randomAccess s) (bounded s) (boundUsed s) (bound s) (availMem s) (allowedMem s) (maxTapes s) (tapeRange s) (tapeset s) (scanKeys s) (memtuples s) (memtupcount s) (currentRun s) (mergeactive s) (mergenext s) (mergelast s) v (mergeavailmem s) (mergefreelist s) (mergefirstfree s) (Level s) (destTape s) (tp_fib s) (tp_runs s) (tp_dummy s) (tp_tapenum s) (activeTapes s) (result_tape s) (current s) (eof_reached s) (markpos_block s) (markpos_offset s) (markpos_eof s).
Definition set_mergeavailmem (v : list Z) (s : Tuplesortstate) : Tuplesortstate :=
  mkTuplesortstate (status s) (randomAccess s) (bounded s) (boundUsed s) (bound s) (availMem s) (allowedMem s) (maxTapes s) (tapeRange s) (tapeset s) (scanKeys s) (memtuples s) (memtupcount s) (currentRun s) (mergeactive s) (mergenext s) (mergelast s) (mergeavailslots s) v (mergefreelist s) (mergefirstfree s) (Level s) (destTape s) (tp_fib s) (tp_runs s) (tp_dummy s) (tp_tapenum s) (activeTapes s) (result_tape s) (current s) (eof_reached s) (markpos_block s) (markpos_offset s) (markpos_eof s).
Definition set_mergefreelist (v : nat) (s : Tuplesortstate) : Tuplesortstate :=
  mkTuplesortstate (status s) (randomAccess s) (bounded s) (boundUsed s) (bound s) (availMem s) (allowedMem s) (maxTapes s) (tapeRange s) (tapeset s) (scanKeys s) (memtuples s) (memtupcount s) (currentRun s) (mergeactive s) (mergenext s) (mergelast s) (mergeavailslots s) (mergeavailmem s) v (mergefirstfree s) (Level s) (destTape s) (tp_fib s) (tp_runs s) (tp_dummy s) (tp_tapenum s) (activeTapes s) (result_tape s) (current s) (eof_reached s) (markpos_block s) (markpos_offset s) (markpos_eof s).
Definition set_mergefirstfree (v : nat) (s : Tuplesortstate) : Tuplesortstate :=
  mkTuplesortstate (status s) (randomAccess s) (bounded s) (boundUsed s) (bound s) (availMem s) (allowedMem s) (maxTapes s) (tapeRange s) (tapeset s) (scanKeys s) (memtuples s) (memtupcount s) (currentRun s) (mergeactive s) (mergenext s) (mergelast s) (mergeavailslots s) (mergeavailmem s) (mergefreelist s) v (Level s) (destTape s) (tp_fib s) (tp_runs s) (tp_dummy s) (tp_tapenum s) (activeTapes s) (result_tape s) (current s) (eof_reached s) (markpos_block s) (markpos_offset s) (markpos_eof s).
Definition set_Level (v : Z) (s : Tuplesortstate) : Tuplesortstate :=
  mkTuplesortstate (status s) (randomAccess s) (bounded s) (boundUsed s) (bound s) (availMem s) (allowedMem s) (maxTapes s) (tapeRange s) (tapeset s) (scanKeys s) (memtuples s) (memtupcount s) (currentRun s) (mergeactive s) (mergenext s) (mergelast s) (mergeavailslots s) (mergeavailmem s) (mergefreelist s) (mergefirstfree s) v (destTape s) (tp_fib s) (tp_runs s) (tp_dummy s) (tp_tapenum s) (activeTapes s) (result_tape s) (current s) (eof_reached s) (markpos_block s) (markpos_offset s) (markpos_eof s).
Definition set_destTape (v : nat) (s : Tuplesortstate) : Tuplesortstate :=
  mkTuplesortstate (status s) (randomAccess s) (bounded s) (boundUsed s) (bound s) (availMem s) (allowedMem s) (maxTapes s) (tapeRange s) (tapeset s) (scanKeys s) (memtuples s) (memtupcount s) (currentRun s) (mergeactive s) (mergenext s) (mergelast s) (mergeavailslots s) (mergeavailmem s) (mergefreelist s) (mergefirstfree s) (Level s) v (tp_fib s) (tp_runs s) (tp_dummy s) (tp_tapenum s) (activeTapes s) (result_tape s) (current s) (eof_reached s) (markpos_block s) (markpos_offset s) (markpos_eof s).
Definition set_tp_fib (v : list Z) (s : Tuplesortstate) : Tuplesortstate :=
  mkTuplesortstate (status s) (randomAccess s) (bounded s) (boundUsed s) (bound s) (availMem s) (allowedMem s) (maxTapes s) (tapeRange s) (tapeset s) (scanKeys s) (memtuples s) (memtupcount s) (currentRun s) (mergeactive s) (mergenext s) (mergelast s) (mergeavailslots s) (mergeavailmem s) (mergefreelist s) (mergefirstfree s) (Level s) (destTape s) v (tp_runs s) (tp_dummy s) (tp_tapenum s) (activeTapes s) (result_tape s) (current s) (eof_reached s) (markpos_block s) (markpos_offset s) (markpos_eof s).
Definition set_tp_runs (v : list Z) (s : Tuplesortstate) : Tuplesortstate :=
  mkTuplesortstate (status s) (randomAccess s) (bounded s) (boundUsed s) (bound s) (availMem s) (allowedMem s) (maxTapes s) (tapeRange s) (tapeset s) (scanKeys s) (memtuples s) (memtupcount s) (currentRun s) (mergeactive s) (mergenext s) (mergelast s) (mergeavailslots s) (mergeavailmem s) (mergefreelist s) (mergefirstfree s) (Level s) (destTape s) (tp_fib s) v (tp_dummy s) (tp_tapenum s) (activeTapes s) (result_tape s) (current s) (eof_reached s) (markpos_block s) (markpos_offset s) (markpos_eof s).
Definition set_tp_dummy (v : list Z) (s : Tuplesortstate) : Tuplesortstate :=
  mkTuplesortstate (status s) (randomAccess s) (bounded s) (boundUsed s) (bound s) (availMem s) (allowedMem s) (maxTapes s) (tapeRange s) (tapeset s) (scanKeys s) (memtuples s) (memtupcount s) (currentRun s) (mergeactive s) (mergenext s) (mergelast s) (mergeavailslots s) (mergeavailmem s) (mergefreelist s) (mergefirstfree s) (Level s) (destTape s) (tp_fib s) (tp_runs s) v (tp_tapenum s) (activeTapes s) (result_tape s) (current s) (eof_reached s) (markpos_block s) (markpos_offset s) (markpos_eof s).
Definition set_tp_tapenum (v : list nat) (s : Tuplesortstate) : Tuplesortstate :=
  mkTuplesortstate (status s) (randomAccess s) (bounded s) (boundUsed s) (bound s) (availMem s) (allowedMem s) (maxTapes s) (tapeRange s) (tapeset s) (scanKeys s) (memtuples s) (memtupcount s) (currentRun s) (mergeactive s) (mergenext s) (mergelast s) (mergeavailslots s) (mergeavailmem s) (mergefreelist s) (mergefirstfree s) (Level s) (destTape s) (tp_fib s) (tp_runs s) (tp_dummy s) v (activeTapes s) (result_tape s) (current s) (eof_reached s) (markpos_block s) (markpos_offset s) (markpos_eof s).
Definition set_activeTapes (v : nat) (s : Tuplesortstate) : Tuplesortstate :=
  mkTuplesortstate (status s) (randomAccess s) (bounded s) (boundUsed s) (bound s) (availMem s) (allowedMem s) (maxTapes s) (tapeRange s) (tapeset s) (scanKeys s) (memtuples s) (memtupcount s) (currentRun s) (mergeactive s) (mergenext s) (mergelast s) (mergeavailslots s) (mergeavailmem s) (mergefreelist s) (mergefirstfree s) (Level s) (destTape s) (tp_fib s) (tp_runs s) (tp_dummy s) (tp_tapenum s) v (result_tape s) (current s) (eof_reached s) (markpos_block s) (markpos_offset s) (markpos_eof s).
Definition set_result_tape (v : Z) (s : Tuplesortstate) : Tuplesortstate :=
  mkTuplesortstate (status s) (randomAccess s) (bounded s) (boundUsed s) (bound s) (availMem s) (allowedMem s) (maxTapes s) (tapeRange s) (tapeset s) (scanKeys s) (memtuples s) (memtupcount s) (currentRun s) (mergeactive s) (mergenext s) (mergelast s) (mergeavailslots s) (mergeavailmem s) (mergefreelist s) (mergefirstfree s) (Level s) (destTape s) (tp_fib s) (tp_runs s) (tp_dummy s) (tp_tapenum s) (activeTapes s) v (current s) (eof_reached s) (markpos_block s) (markpos_offset s) (markpos_eof s).
Definition set_current (v : nat) (s : Tuplesortstate) : Tuplesortstate :=
  mkTuplesortstate (status s) (randomAccess s) (bounded s) (boundUsed s) (bound s) (availMem s) (allowedMem s) (maxTapes s) (tapeRange s) (tapeset s) (scanKeys s) (memtuples s) (memtupcount s) (currentRun s) (mergeactive s) (mergenext s) (mergelast s) (mergeavailslots s) (mergeavailmem s) (mergefreelist s) (mergefirstfree s) (Level s) (destTape s) (tp_fib s) (tp_runs s) (tp_dummy s) (tp_tapenum s) (activeTapes s) (result_tape s) v (eof_reached s) (markpos_block s) (markpos_offset s) (markpos_eof s).
Definition set_eof_reached (v : bool) (s : Tuplesortstate) : Tuplesortstate :=
  mkTuplesortstate (status s) (randomAccess s) (bounded s) (boundUsed s) (bound s) (availMem s) (allowedMem s) (maxTapes s) (tapeRange s) (tapeset s) (scanKeys s) (memtuples s) (memtupcount s) (currentRun s) (mergeactive s) (mergenext s) (mergelast s) (mergeavailslots s) (mergeavailmem s) (mergefreelist s) (mergefirstfree s) (Level s) (destTape s) (tp_fib s) (tp_runs s) (tp_dummy s) (tp_tapenum s) (activeTapes s) (result_tape s) (current s) v (markpos_block s) (markpos_offset s) (markpos_eof s).
Definition set_markpos_block (v : nat) (s : Tuplesortstate) : Tuplesortstate :=
  mkTuplesortstate (status s) (randomAccess s) (bounded s) (boundUsed s) (bound s) (availMem s) (allowedMem s) (maxTapes s) (tapeRange s) (tapeset s) (scanKeys s) (memtuples s) (memtupcount s) (currentRun s) (mergeactive s) (mergenext s) (mergelast s) (mergeavailslots s) (mergeavailmem s) (mergefreelist s) (mergefirstfree s) (Level s) (destTape s) (tp_fib s) (tp_runs s) (tp_dummy s) (tp_tapenum s) (activeTapes s) (result_tape s) (current s) (eof_reached s) v (markpos_offset s) (markpos_eof s).
Definition set_markpos_offset (v : nat) (s : Tuplesortstate) : Tuplesortstate :=
  mkTuplesortstate (status s) (randomAccess s) (bounded s) (boundUsed s) (bound s) (availMem s) (allowedMem s) (maxTapes s) (tapeRange s) (tapeset s) (scanKeys s) (memtuples s) (memtupcount s) (currentRun s) (mergeactive s) (mergenext s) (mergelast s) (mergeavailslots s) (mergeavailmem s) (mergefreelist s) (mergefirstfree s) (Level s) (destTape s) (tp_fib s) (tp_runs s) (tp_dummy s) (tp_tapenum s) (activeTapes s) (result_tape s) (current s) (eof_reached s) (markpos_block s) v (markpos_eof s).
Definition set_markpos_eof (v : bool) (s : Tuplesortstate) : Tuplesortstate :=
  mkTuplesortstate (status s) (randomAccess s) (bounded s) (boundUsed s) (bound s) (availMem s) (allowedMem s) (maxTapes s) (tapeRange s) (tapeset s) (scanKeys s) (memtuples s) (memtupcount s) (currentRun s) (mergeactive s) (mergenext s) (mergelast s) (mergeavailslots s) (mergeavailmem s) (mergefreelist s) (mergefirstfree s) (Level s) (destTape s) (tp_fib s) (tp_runs s) (tp_dummy s) (tp_tapenum s) (activeTapes s) (result_tape s) (current s) (eof_reached s) (markpos_block s) (markpos_offset s) v.

(** Operations on the state, with errors. *)
Local Abbreviation TM := (M Tuplesortstate).
Definition gets {A} (f : Tuplesortstate -> A) : TM A := fun s => Ok (f s, s).
Definition elog {A} (msg : string) : TM A := mfail (EElog msg).
Definition lift_res {A} (r : res A) : TM A := fun s => match r with Ok a => Ok (a, s) | Err e => Err e end.
(** Array access. *)
Definition at_idx {A} (l : list A) (i : nat) : TM A := deref (l !! i).
Definition upd_idx {A} (l : list A) (i : nat) (v : A) : TM (list A) :=
  if decide (i < length l) then mret (<[i := v]> l) else mfail EUndef.

Definition memtupsize (s : Tuplesortstate) : nat := length (memtuples s).
Definition LACKMEM (s : Tuplesortstate) : bool := (availMem s <? 0)%Z.
Definition USEMEM (amt : Z) (s : Tuplesortstate) : Tuplesortstate := set_availMem (availMem s - amt) s.
Definition FREEMEM (amt : Z) (s : Tuplesortstate) : Tuplesortstate := set_availMem (availMem s + amt) s.
(** The call of comparetup. *)
Definition comparetup_result (keys : K) (a b : SortTuple T) : res Z :=
  match comparetup_error keys a b with Some e => Err e | None => Ok (comparetup keys a b) end.
Definition COMPARETUP (s : Tuplesortstate) (a b : SortTuple T) : TM Z := lift_res (comparetup_result (scanKeys s) a b).
(** REVERSEDIRECTION *)
Definition REVERSEDIRECTION : TM unit :=
  s ← mget;
  match reversedirection_error (scanKeys s) with
  | Some e => mfail e
  | None => mput (set_scanKeys (reversedirection (scanKeys s)) s)
  end.

Definition SIZEOF_SORTTUPLE : Z := 24.
Definition MaxAllocSize : Z := 0x3fffffff.

(** The contents of memory nobody has written to. *)
Variable junk : SortTuple T.

(** ** Starting *)

Definition tuplesort_begin_common (workMem : Z) (ra : bool) (keys : K) : res Tuplesortstate :=
  let allowed := (workMem * 1024)%Z in
  let avail := (allowed - array_space 1024)%Z in
  if (avail <? 0)%Z then Err (EElog "insufficient memory allowed for sort")
  else Ok (mkTuplesortstate TSS_INITIAL ra false false 0 avail allowed 0 0 None keys (replicate 1024 junk) 0
             0 [] [] [] [] [] 0 0 0 0 [] [] [] [] 0 (-1) 0 false 0 0 false).

(** [bound] is an int64; twice the bound must fit an int. *)
Definition tuplesort_set_bound (b : Z) : TM unit :=
  s ← mget;
  Assert (bool_decide (status s = TSS_INITIAL));;
  Assert (bool_decide (memtupcount s = 0));;
  Assert (negb (bounded s));;
  if (INT_MAX / 2 <? b)%Z then mret tt
  else mput (set_bound (wrap32 b) (set_bounded true s)).

Definition grow_memtuples : TM bool :=
  s ← mget;
  let size := memtupsize s in
  if (availMem s <=? Z.of_nat size * SIZEOF_SORTTUPLE)%Z then mret false
  else if (MaxAllocSize / SIZEOF_SORTTUPLE <=? Z.of_nat size * 2)%Z then mret false
  else
    let s := FREEMEM (array_space size) s in
    let s := set_memtuples (memtuples s ++ replicate size junk) s in
    let s := USEMEM (array_space (memtupsize s)) s in
    if LACKMEM s then elog "unexpected out-of-memory situation during sort"
    else mput s;; mret true.

(** ** Heap *)

(** HEAPCOMPARE *)
Definition HEAPCOMPARE (keys : K) (checkIndex : bool) (a b : SortTuple T) : res Z :=
  if checkIndex && negb (tupindex a =? tupindex b)%Z then Ok (tupindex a - tupindex b)%Z else comparetup_result keys a b.

Definition tuplesort_heap_insert (tuple : SortTuple T) (tupleindex : Z) (checkIndex : bool) : TM unit :=
  s ← mget;
  '(mt, n) ← lift_res (heap_insert (HEAPCOMPARE (scanKeys s) checkIndex) (memtuples s) (memtupcount s) (with_tupindex tupleindex tuple));
  mput (set_memtupcount n (set_memtuples mt s)).

Definition tuplesort_heap_siftup (checkIndex : bool) : TM unit :=
  s ← mget;
  '(mt, n) ← lift_res (heap_siftup (HEAPCOMPARE (scanKeys s) checkIndex) (memtuples s) (memtupcount s));
  mput (set_memtupcount n (set_memtuples mt s)).

(** free_sort_tuple *)
Definition free_sort_tuple (t : SortTuple T) : TM unit := mmod (FREEMEM (GetMemoryChunkSpace (tuple t))).

(** The loop of make_bounded_heap from position [i] on, [k] tuples left. *)
Fixpoint bounded_loop (k i : nat) : TM unit :=
  match k with
  | O => mret tt
  | S k' =>
    s ← mget;
    x ← at_idx (memtuples s) i;
    skip ← (if (bound s <=? Z.of_nat (memtupcount s))%Z
            then top ← at_idx (memtuples s) 0; c ← COMPARETUP s x top; mret (c <=? 0)%Z
            else mret false);
    (if skip : bool then free_sort_tuple x
     else
       tuplesort_heap_insert x 0 false;;
       s ← mget;
       if (bound s <? Z.of_nat (memtupcount s))%Z then
         top ← at_idx (memtuples s) 0;
         free_sort_tuple top;;
         tuplesort_heap_siftup false
       else mret tt);;
    bounded_loop k' (S i)
  end.

Definition make_bounded_heap : TM unit :=
  s ← mget;
  let tupcount := memtupcount s in
  Assert (bool_decide (status s = TSS_INITIAL));;
  Assert (bounded s);;
  Assert (bound s <=? Z.of_nat tupcount)%Z;;
  REVERSEDIRECTION;;
  mmod (set_memtupcount 0);;
  bounded_loop tupcount 0;;
  s ← mget;
  Assert (Z.of_nat (memtupcount s) =? bound s)%Z;;
  mput (set_status TSS_BOUNDED s).

(** The loop of sort_bounded_heap; the heap shrinks by one each time. *)
Fixpoint unheapify (k : nat) : TM unit :=
  s ← mget;
  if decide (1 < memtupcount s) then
    match k with
    | O => mfail EDiverge
    | S k' =>
      stup ← at_idx (memtuples s) 0;
      tuplesort_heap_siftup false;;
      s ← mget;
      mt ← upd_idx (memtuples s) (memtupcount s) stup;
      mput (set_memtuples mt s);;
      unheapify k'
    end
  else mret tt.

Definition sort_bounded_heap : TM unit :=
  s ← mget;
  let tupcount := memtupcount s in
  Assert (bool_decide (status s = TSS_BOUNDED));;
  Assert (bounded s);;
  Assert (Z.of_nat tupcount =? bound s)%Z;;
  unheapify tupcount;;
  s ← mget;
  mput (set_memtupcount tupcount s);;
  REVERSEDIRECTION;;
  mmod (fun s => set_boundUsed true (set_status TSS_SORTEDINMEM s)).

(** ** Tapes *)

Definition tapes : TM LogicalTapeSet := s ← mget; deref (tapeset s).
Definition tape_op (f : LogicalTapeSet -> res LogicalTapeSet) : TM unit :=
  ts ← tapes; ts' ← lift_res (f ts); mmod (set_tapeset (Some ts')).
Definition tape_read (tapenum size : nat) : TM (list byte) :=
  ts ← tapes; '(data, ts') ← lift_res (LogicalTapeRead ts tapenum size); mmod (set_tapeset (Some ts'));; mret data.
Definition tape_backspace (tapenum size : nat) : TM bool :=
  ts ← tapes; '(b, ts') ← lift_res (LogicalTapeBackspace ts tapenum size); mmod (set_tapeset (Some ts'));; mret b.

Definition SIZEOF_UINT : nat := 4.

Definition getlen (tapenum : nat) (eofOK : bool) : TM Z :=
  data ← tape_read tapenum SIZEOF_UINT;
  if decide (length data = SIZEOF_UINT) then
    let len := bytes_uint32 data in
    if (len =? 0)%Z && negb eofOK then elog "unexpected end of data" else mret len
  else elog "unexpected end of tape".

Definition markrunend (tapenum : nat) : TM unit := tape_op (fun ts => LogicalTapeWrite ts tapenum (uint32_bytes 0)).

(** writetup_heap, writetup_index, writetup_datum: length word, body, and a copy of
    the length word for random access. *)
Definition writetup (tapenum : nat) (stup : SortTuple T) : TM unit :=
  let body := tuple_body stup in
  let tuplen := uint32_bytes (Z.of_nat (length body + SIZEOF_UINT)) in
  tape_op (fun ts => LogicalTapeWrite ts tapenum tuplen);;
  tape_op (fun ts => LogicalTapeWrite ts tapenum body);;
  s ← mget;
  (if randomAccess s then tape_op (fun ts => LogicalTapeWrite ts tapenum tuplen) else mret tt);;
  mmod (FREEMEM (GetMemoryChunkSpace (tuple stup))).

(** readtup_heap, readtup_index, readtup_datum: the length word has been read. *)
Definition readtup (tapenum : nat) (len : Z) : TM (SortTuple T) :=
  let bodylen := Z.to_nat (len - Z.of_nat SIZEOF_UINT) in
  body ← tape_read tapenum bodylen;
  if decide (length body = bodylen) then
    s ← mget;
    (if randomAccess s
     then data ← tape_read tapenum SIZEOF_UINT;
          if decide (length data = SIZEOF_UINT) then mret tt else elog "unexpected end of data"
     else mret tt);;
    let stup := tuple_of_body (scanKeys s) body in
    mmod (USEMEM (GetMemoryChunkSpace (tuple stup)));;
    mret stup
  else elog "unexpected end of data".

(** ** Initial runs *)

Definition MINORDER : Z := 6.
Definition TAPE_BUFFER_OVERHEAD : Z := (Z.of_nat BLCKSZ * 3)%Z.
Definition MERGE_BUFFER_SIZE : Z := (Z.of_nat BLCKSZ * 32)%Z.

(** C division truncates; the result is an int. *)
Definition tuplesort_merge_order (allowed : Z) : Z :=
  let mOrder := wrap32 (Z.quot (allowed - TAPE_BUFFER_OVERHEAD) (MERGE_BUFFER_SIZE + TAPE_BUFFER_OVERHEAD)) in
  Z.max mOrder MINORDER.

(** The loop of inittapes that makes a heap of the tuples. *)
Fixpoint heapify_loop (k j : nat) : TM unit :=
  match k with
  | O => mret tt
  | S k' =>
    s ← mget;
    stup ← at_idx (memtuples s) j;
    tuplesort_heap_insert stup 0 false;;
    heapify_loop k' (S j)
  end.

Definition inittapes : TM unit :=
  s ← mget;
  let mt := Z.min (tuplesort_merge_order (allowedMem s) + 1) (Z.of_nat (memtupsize s) / 2) in
  let n := Z.to_nat mt in
  let s := set_tapeRange (n - 1) (set_maxTapes n s) in
  let tapeSpace := (mt * TAPE_BUFFER_OVERHEAD)%Z in
  let s := if (tapeSpace + array_space (memtupsize s) <? allowedMem s)%Z then USEMEM tapeSpace s else s in
  let s := set_tapeset (Some (LogicalTapeSetCreate n)) s in
  let s := set_mergeactive (replicate n false) (set_mergenext (replicate n 0) (set_mergelast (replicate n 0)
           (set_mergeavailslots (replicate n 0%Z) (set_mergeavailmem (replicate n 0%Z) s)))) in
  let ntuples := memtupcount s in
  mput (set_memtupcount 0 s);;
  heapify_loop ntuples 0;;
  s ← mget;
  Assert (bool_decide (memtupcount s = ntuples));;
  mput (set_currentRun 0
       (set_tp_fib (<[n - 1 := 0%Z]> (replicate n 1%Z)) (set_tp_runs (replicate n 0%Z)
       (set_tp_dummy (<[n - 1 := 0%Z]> (replicate n 1%Z)) (set_tp_tapenum (seq 0 n)
       (set_Level 1 (set_destTape 0 (set_status TSS_BUILDRUNS s)))))))).

(** Step D4 for tape [j] and those after it, up to tapeRange. *)
Fixpoint increase_level (k j : nat) (a : Z) (fib dummy : list Z) : option (list Z * list Z) :=
  match k with
  | O => Some (fib, dummy)
  | S k' =>
    fj ← fib !! j; fj1 ← fib !! S j;
    increase_level k' (S j) a (<[j := (a + fj1)%Z]> fib) (<[j := (a + fj1 - fj)%Z]> dummy)
  end.

Definition selectnewtape : TM unit :=
  s ← mget;
  d ← at_idx (tp_dummy s) (destTape s);
  d1 ← at_idx (tp_dummy s) (S (destTape s));
  if (d <? d1)%Z then mput (set_destTape (S (destTape s)) s)
  else if negb (d =? 0)%Z then mput (set_destTape 0 s)
  else
    a ← at_idx (tp_fib s) 0;
    '(fib, dummy) ← deref (increase_level (tapeRange s) 0 a (tp_fib s) (tp_dummy s));
    mput (set_destTape 0 (set_tp_fib fib (set_tp_dummy dummy (set_Level (Level s + 1) s)))).

(** dumptuples; each round takes one tuple off the heap. *)
Fixpoint dumptuples_loop (fuel : nat) (alltuples : bool) : TM unit :=
  s ← mget;
  if alltuples || (LACKMEM s && bool_decide (1 < memtupcount s)) || bool_decide (memtupsize s <= memtupcount s) then
    match fuel with
    | O => mfail EDiverge
    | S f =>
      Assert (bool_decide (0 < memtupcount s));;
      tapenum ← at_idx (tp_tapenum s) (destTape s);
      top ← at_idx (memtuples s) 0;
      writetup tapenum top;;
      tuplesort_heap_siftup true;;
      s ← mget;
      top ← at_idx (memtuples s) 0;
      if bool_decide (memtupcount s = 0) || negb (currentRun s =? tupindex top)%Z then
        markrunend tapenum;;
        s ← mget;
        r ← at_idx (tp_runs s) (destTape s);
        d ← at_idx (tp_dummy s) (destTape s);
        let s := set_currentRun (currentRun s + 1)
                 (set_tp_runs (<[destTape s := (r + 1)%Z]> (tp_runs s))
                 (set_tp_dummy (<[destTape s := (d - 1)%Z]> (tp_dummy s)) s)) in
        mput s;;
        if bool_decide (memtupcount s = 0) then mret tt
        else
          Assert (currentRun s =? tupindex top)%Z;;
          selectnewtape;;
          dumptuples_loop f alltuples
      else dumptuples_loop f alltuples
    end
  else mret tt.
Definition dumptuples (alltuples : bool) : TM unit :=
  n ← gets memtupcount; dumptuples_loop (S n) alltuples.

(** ** Merging *)

(** Finds a free slot in memtuples[]. *)
Definition free_slot : TM nat :=
  s ← mget;
  if bool_decide (mergefreelist s <> 0) then
    slot ← at_idx (memtuples s) (mergefreelist s);
    mput (set_mergefreelist (Z.to_nat (tupindex slot)) s);;
    mret (mergefreelist s)
  else
    mput (set_mergefirstfree (S (mergefirstfree s)) s);;
    Assert (bool_decide (mergefirstfree s < memtupsize s));;
    mret (mergefirstfree s).

(** Stores a tuple and appends it to the list for its tape, which has [slots] slots left. *)
Definition store_preread (srcTape : nat) (slots : Z) (stup : SortTuple T) : TM unit :=
  tupIndex ← free_slot;
  s ← mget;
  mas ← upd_idx (mergeavailslots s) srcTape (slots - 1)%Z;
  mt ← upd_idx (memtuples s) tupIndex (with_tupindex 0 stup);
  last ← at_idx (mergelast s) srcTape;
  let s := set_mergeavailslots mas s in
  s ← (if bool_decide (last <> 0) then
         prev ← at_idx mt last;
         mt ← upd_idx mt last (with_tupindex (Z.of_nat tupIndex) prev);
         mret (set_memtuples mt s)
       else mret (set_mergenext (<[srcTape := tupIndex]> (mergenext s)) (set_memtuples mt s)));
  mput (set_mergelast (<[srcTape := tupIndex]> (mergelast s)) s).

(** The bytes on a tape that has been written. *)
Definition tape_size (lt : LogicalTape) : nat := numFullBlocks lt * BLCKSZ + lastBlockBytes lt.

(** The loop of mergeprereadone.  The fuel is the number of bytes on the tape: a round that
    goes on has read a length word. *)
Fixpoint preread_loop (fuel : nat) (srcTape : nat) : TM unit :=
  s ← mget;
  slots ← at_idx (mergeavailslots s) srcTape;
  next ← at_idx (mergenext s) srcTape;
  if ((0 <? slots)%Z && negb (LACKMEM s)) || bool_decide (next = 0) then
    match fuel with
    | O => mfail EDiverge
    | S f =>
      tuplen ← getlen srcTape true;
      if (tuplen =? 0)%Z then
        s ← mget; act ← upd_idx (mergeactive s) srcTape false; mput (set_mergeactive act s)
      else
        stup ← readtup srcTape tuplen;
        store_preread srcTape slots stup;;
        preread_loop f srcTape
    end
  else mret tt.

Definition mergeprereadone (srcTape : nat) : TM unit :=
  s ← mget;
  active ← at_idx (mergeactive s) srcTape;
  if active : bool then
    let priorAvail := availMem s in
    avail ← at_idx (mergeavailmem s) srcTape;
    mput (set_availMem avail s);;
    ts ← tapes;
    lt ← at_idx (lt_tapes ts) srcTape;
    preread_loop (S (tape_size lt)) srcTape;;
    s ← mget;
    let spaceUsed := (avail - availMem s)%Z in
    mam ← upd_idx (mergeavailmem s) srcTape (availMem s);
    mput (set_availMem (priorAvail - spaceUsed)%Z (set_mergeavailmem mam s))
  else mret tt.

Fixpoint for_tapes (k srcTape : nat) (body : nat -> TM unit) : TM unit :=
  match k with
  | O => mret tt
  | S k' => body srcTape;; for_tapes k' (S srcTape) body
  end.

Definition mergepreread : TM unit := n ← gets maxTapes; for_tapes n 0 mergeprereadone.

(** Pulls the next preread tuple of a tape into the heap and recycles its slot; [tupIndex] is not 0. *)
Definition pull_preread (srcTape tupIndex : nat) : TM unit :=
  s ← mget;
  tup ← at_idx (memtuples s) tupIndex;
  let next := Z.to_nat (tupindex tup) in
  mn ← upd_idx (mergenext s) srcTape next;
  let s := set_mergenext mn s in
  ml ← (if bool_decide (next = 0) then upd_idx (mergelast s) srcTape 0 else mret (mergelast s));
  mput (set_mergelast ml s);;
  tuplesort_heap_insert tup (Z.of_nat srcTape) false;;
  s ← mget;
  (* the slot is past the heap, so it still holds the tuple; now it links the free slots *)
  slot ← at_idx (memtuples s) tupIndex;
  mt ← upd_idx (memtuples s) tupIndex (with_tupindex (Z.of_nat (mergefreelist s)) slot);
  slots ← at_idx (mergeavailslots s) srcTape;
  mput (set_mergeavailslots (<[srcTape := (slots + 1)%Z]> (mergeavailslots s))
       (set_mergefreelist tupIndex (set_memtuples mt s))).

(** The run counts, and which tapes are active. *)
Definition count_run (tapenum : nat) : TM unit :=
  s ← mget;
  d ← at_idx (tp_dummy s) tapenum;
  if (0 <? d)%Z then mput (set_tp_dummy (<[tapenum := (d - 1)%Z]> (tp_dummy s)) s)
  else
    r ← at_idx (tp_runs s) tapenum;
    Assert (0 <? r)%Z;;
    src ← at_idx (tp_tapenum s) tapenum;
    act ← upd_idx (mergeactive s) src true;
    mput (set_activeTapes (S (activeTapes s))
         (set_mergeactive act (set_tp_runs (<[tapenum := (r - 1)%Z]> (tp_runs s)) s))).

Definition share_space (slotsPerTape spacePerTape : Z) (srcTape : nat) : TM unit :=
  s ← mget;
  active ← at_idx (mergeactive s) srcTape;
  if active : bool then
    ms ← upd_idx (mergeavailslots s) srcTape slotsPerTape;
    mm ← upd_idx (mergeavailmem s) srcTape spacePerTape;
    mput (set_mergeavailslots ms (set_mergeavailmem mm s))
  else mret tt.

Definition load_heap (srcTape : nat) : TM unit :=
  s ← mget;
  tupIndex ← at_idx (mergenext s) srcTape;
  if bool_decide (tupIndex = 0) then mret tt else pull_preread srcTape tupIndex.

Definition beginmerge : TM unit :=
  s ← mget;
  Assert (bool_decide (memtupcount s = 0));;
  mput (set_activeTapes 0 (set_mergeactive (replicate (maxTapes s) false) s));;
  for_tapes (tapeRange s) 0 count_run;;
  s ← mget;
  let s := set_mergefirstfree (activeTapes s) (set_mergefreelist 0
           (set_mergelast (replicate (maxTapes s) 0) (set_mergenext (replicate (maxTapes s) 0) s))) in
  mput s;;
  Assert (bool_decide (0 < activeTapes s));;
  let slotsPerTape := Z.quot (Z.of_nat (memtupsize s) - Z.of_nat (mergefirstfree s)) (Z.of_nat (activeTapes s)) in
  Assert (0 <? slotsPerTape)%Z;;
  let spacePerTape := Z.quot (availMem s) (Z.of_nat (activeTapes s)) in
  for_tapes (maxTapes s) 0 (share_space slotsPerTape spacePerTape);;
  mergepreread;;
  for_tapes (maxTapes s) 0 load_heap.

(** The bytes on all tapes, which bound the number of tuples still to come. *)
Definition bytes_on_tapes (s : Tuplesortstate) : nat :=
  match tapeset s with Some ts => sum_list_with tape_size (lt_tapes ts) | None => 0 end.

(** The loop of mergeonerun. *)
Fixpoint mergeonerun_loop (fuel : nat) (dest : nat) : TM unit :=
  s ← mget;
  if bool_decide (0 < memtupcount s) then
    match fuel with
    | O => mfail EDiverge
    | S f =>
      let priorAvail := availMem s in
      top ← at_idx (memtuples s) 0;
      let srcTape := Z.to_nat (tupindex top) in
      writetup dest top;;
      s ← mget;
      let spaceFreed := (availMem s - priorAvail)%Z in
      am ← at_idx (mergeavailmem s) srcTape;
      mput (set_mergeavailmem (<[srcTape := (am + spaceFreed)%Z]> (mergeavailmem s)) s);;
      tuplesort_heap_siftup false;;
      s ← mget;
      next ← at_idx (mergenext s) srcTape;
      (if bool_decide (next = 0) then mergepreread else mret tt);;
      s ← mget;
      next ← at_idx (mergenext s) srcTape;
      (if bool_decide (next = 0) then mret tt else pull_preread srcTape next);;
      mergeonerun_loop f dest
    end
  else mret tt.

Definition mergeonerun : TM unit :=
  s ← mget;
  dest ← at_idx (tp_tapenum s) (tapeRange s);
  let fuel := S (bytes_on_tapes s) in
  beginmerge;;
  mergeonerun_loop fuel dest;;
  markrunend dest;;
  s ← mget;
  r ← at_idx (tp_runs s) (tapeRange s);
  mput (set_tp_runs (<[tapeRange s := (r + 1)%Z]> (tp_runs s)) s).

(** Step D5: merge onto tape[T] until tape[P] is empty; each round uses up a run or dummy run of it. *)
Fixpoint merge_level (fuel : nat) : TM unit :=
  s ← mget;
  r ← at_idx (tp_runs s) (tapeRange s - 1);
  d ← at_idx (tp_dummy s) (tapeRange s - 1);
  if negb (r =? 0)%Z || negb (d =? 0)%Z then
    match fuel with
    | O => mfail EDiverge
    | S f =>
      let allDummy := forallb (fun d => negb (d =? 0)%Z) (take (tapeRange s) (tp_dummy s)) in
      (if allDummy then
         dT ← at_idx (tp_dummy s) (tapeRange s);
         mput (set_tp_dummy (((fun d => (d - 1)%Z) <$> take (tapeRange s) (tp_dummy s)) ++ (dT + 1)%Z :: drop (S (tapeRange s)) (tp_dummy s)) s)
       else mergeonerun);;
      merge_level f
    end
  else mret tt.

(** Moves the last tape to the front, step D6. *)
Definition rotate {A} (l : list A) (n : nat) : list A :=
  match l !! n with Some x => x :: take n l ++ drop (S n) l | None => l end.

(** The loop [for (;;)] of mergeruns; the level goes down each time. *)
Fixpoint mergeruns_loop (fuel : nat) : TM unit :=
  match fuel with
  | O => mfail EDiverge
  | S f =>
    s ← mget;
    let P := tapeRange s in
    let allOneRun := forallb (fun j => match tp_runs s !! j, tp_dummy s !! j with
                                  | Some r, Some d => (r + d =? 1)%Z | _, _ => false end) (seq 0 P) in
    (if negb (randomAccess s) then rT ← at_idx (tp_runs s) P; Assert (rT =? 0)%Z else mret tt);;
    if negb (randomAccess s) && allOneRun then
      tape_op (fun ts => Ok (LogicalTapeSetForgetFreeSpace ts));;
      beginmerge;;
      mmod (set_status TSS_FINALMERGE)
    else
      rP ← at_idx (tp_runs s) (P - 1);
      dP ← at_idx (tp_dummy s) (P - 1);
      merge_level (Z.to_nat (rP + dP));;
      s ← mget;
      mput (set_Level (Level s - 1) s);;
      if (Level s - 1 =? 0)%Z then
        tT ← at_idx (tp_tapenum s) P;
        mmod (set_result_tape (Z.of_nat tT));;
        tape_op (fun ts => LogicalTapeFreeze ts tT);;
        mmod (set_status TSS_SORTEDONTAPE)
      else
        tT ← at_idx (tp_tapenum s) P;
        tP ← at_idx (tp_tapenum s) (P - 1);
        tape_op (fun ts => LogicalTapeRewind ts tT false);;
        tape_op (fun ts => LogicalTapeRewind ts tP true);;
        s ← mget;
        let s := set_tp_runs (<[P - 1 := 0%Z]> (tp_runs s)) s in
        mput (set_tp_tapenum (rotate (tp_tapenum s) P) (set_tp_dummy (rotate (tp_dummy s) P)
             (set_tp_runs (rotate (tp_runs s) P) s)));;
        mergeruns_loop f
  end.

Definition mergeruns : TM unit :=
  s ← mget;
  Assert (bool_decide (status s = TSS_BUILDRUNS));;
  Assert (bool_decide (memtupcount s = 0));;
  if (currentRun s =? 1)%Z then
    t ← at_idx (tp_tapenum s) (destTape s);
    mput (set_result_tape (Z.of_nat t) s);;
    tape_op (fun ts => LogicalTapeFreeze ts t);;
    mmod (set_status TSS_SORTEDONTAPE)
  else
    for_tapes (tapeRange s) 0 (fun j => tape_op (fun ts => LogicalTapeRewind ts j false));;
    mergeruns_loop (Z.to_nat (Level s)).

(** ** Putting tuples in *)

(** puttuple_common in the state TSS_INITIAL: the tuple goes to the array. *)
Definition put_initial (tup : SortTuple T) : TM unit :=
  s ← mget;
  (if bool_decide (memtupsize s - 1 <= memtupcount s) then
     grow_memtuples;;
     s ← mget;
     Assert (bool_decide (memtupcount s < memtupsize s))
   else mret tt);;
  s ← mget;
  mt ← upd_idx (memtuples s) (memtupcount s) tup;
  let s := set_memtupcount (S (memtupcount s)) (set_memtuples mt s) in
  mput s;;
  let n := Z.of_nat (memtupcount s) in
  if bounded s && ((bound s * 2 <? n)%Z || ((bound s <? n)%Z && LACKMEM s)) then make_bounded_heap
  else if bool_decide (memtupcount s < memtupsize s) && negb (LACKMEM s) then mret tt
  else
    inittapes;;
    dumptuples false.

Definition put_bounded (tup : SortTuple T) : TM unit :=
  s ← mget;
  top ← at_idx (memtuples s) 0;
  c ← COMPARETUP s tup top;
  if (c <=? 0)%Z then free_sort_tuple tup
  else
    free_sort_tuple top;;
    tuplesort_heap_siftup false;;
    tuplesort_heap_insert tup 0 false.

Definition put_buildruns (tup : SortTuple T) : TM unit :=
  s ← mget;
  Assert (bool_decide (0 < memtupcount s));;
  top ← at_idx (memtuples s) 0;
  c ← COMPARETUP s tup top;
  (if (0 <=? c)%Z
   then tuplesort_heap_insert tup (currentRun s) true
   else tuplesort_heap_insert tup (currentRun s + 1)%Z true);;
  dumptuples false.

Definition puttuple_common (tup : SortTuple T) : TM unit :=
  s ← mget;
  match status s with
  | TSS_INITIAL => put_initial tup
  | TSS_BOUNDED => put_bounded tup
  | TSS_BUILDRUNS => put_buildruns tup
  | _ => elog "invalid tuplesort state"
  end.

(** tuplesort_puttupleslot and its siblings: the tuple was copied, its space is counted. *)
Definition puttuple (stup : SortTuple T) : TM unit :=
  mmod (USEMEM (GetMemoryChunkSpace (tuple stup)));;
  puttuple_common stup.

(** ** Sorting *)

Definition start_reading (st : TupSortStatus) (s : Tuplesortstate) : Tuplesortstate :=
  set_current 0 (set_eof_reached false (set_markpos_offset 0 (set_markpos_eof false (set_status st s)))).

Definition tuplesort_performsort : TM unit :=
  s ← mget;
  match status s with
  | TSS_INITIAL =>
    (if decide (1 < memtupcount s) then
       l ← lift_res (qsort_arg SIZEOF_SORTTUPLE (comparetup_result (scanKeys s)) (take (memtupcount s) (memtuples s)));
       mput (set_memtuples (l ++ drop (memtupcount s) (memtuples s)) s)
     else mret tt);;
    mmod (start_reading TSS_SORTEDINMEM)
  | TSS_BOUNDED =>
    sort_bounded_heap;;
    mmod (start_reading TSS_SORTEDINMEM)
  | TSS_BUILDRUNS =>
    dumptuples true;;
    mergeruns;;
    mmod (fun s => set_eof_reached false (set_markpos_block 0 (set_markpos_offset 0 (set_markpos_eof false s))))
  | _ => elog "invalid tuplesort state"
  end.

(** ** Getting tuples out *)

(** TSS_SORTEDINMEM; [slave] is isSlaveWorker(). *)
Definition get_inmem (slave forward : bool) : TM (option (SortTuple T)) :=
  s ← mget;
  Assert (forward || randomAccess s);;
  if forward then
    if bool_decide (current s < memtupcount s) then
      t ← at_idx (memtuples s) (current s);
      mput (set_current (S (current s)) s);;
      mret (Some t)
    else
      mput (set_eof_reached true s);;
      if bounded s && (bound s <=? Z.of_nat (current s))%Z && negb slave
      then elog "retrieved too many tuples in a bounded sort"
      else mret None
  else if bool_decide (current s = 0) then mret None
  else if eof_reached s then
    mput (set_eof_reached false s);;
    t ← at_idx (memtuples s) (current s - 1);
    mret (Some t)
  else
    mput (set_current (current s - 1) s);;
    if bool_decide (current s - 1 = 0) then mret None
    else
      t ← at_idx (memtuples s) (current s - 1 - 1);
      mret (Some t).

(** TSS_SORTEDONTAPE *)
Definition get_ontape (forward : bool) : TM (option (SortTuple T)) :=
  s ← mget;
  Assert (forward || randomAccess s);;
  let tape := Z.to_nat (result_tape s) in
  if forward then
    if eof_reached s then mret None
    else
      tuplen ← getlen tape true;
      if negb (tuplen =? 0)%Z then t ← readtup tape tuplen; mret (Some t)
      else mmod (set_eof_reached true);; mret None
  else
    found ← (if eof_reached s then
        ok ← tape_backspace tape (2 * SIZEOF_UINT);
        if ok : bool then mmod (set_eof_reached false);; mret true else mret false
      else
        ok ← tape_backspace tape SIZEOF_UINT;
        if ok : bool then
          tuplen ← getlen tape false;
          ok ← tape_backspace tape (Z.to_nat tuplen + 2 * SIZEOF_UINT);
          if ok : bool then mret true
          else
            ok ← tape_backspace tape (Z.to_nat tuplen + SIZEOF_UINT);
            if ok : bool then mret false else elog "bogus tuple length in backward scan"
        else mret false);
    if found : bool then
      tuplen ← getlen tape false;
      ok ← tape_backspace tape (Z.to_nat tuplen);
      if ok : bool then t ← readtup tape tuplen; mret (Some t)
      else elog "bogus tuple length in backward scan"
    else mret None.

(** TSS_FINALMERGE: as the loop of mergeonerun, but prereading from the one tape that ran dry. *)
Definition get_finalmerge (forward : bool) : TM (option (SortTuple T)) :=
  s ← mget;
  Assert forward;;
  if bool_decide (0 < memtupcount s) then
    top ← at_idx (memtuples s) 0;
    let srcTape := Z.to_nat (tupindex top) in
    let tuplen := GetMemoryChunkSpace (tuple top) in
    am ← at_idx (mergeavailmem s) srcTape;
    mput (FREEMEM tuplen (set_mergeavailmem (<[srcTape := (am + tuplen)%Z]> (mergeavailmem s)) s));;
    tuplesort_heap_siftup false;;
    s ← mget;
    next ← at_idx (mergenext s) srcTape;
    (if bool_decide (next = 0) then mergeprereadone srcTape else mret tt);;
    s ← mget;
    next ← at_idx (mergenext s) srcTape;
    (if bool_decide (next = 0) then mret tt else pull_preread srcTape next);;
    mret (Some top)
  else mret None.

Definition tuplesort_gettuple_common (slave forward : bool) : TM (option (SortTuple T)) :=
  s ← mget;
  match status s with
  | TSS_SORTEDINMEM => get_inmem slave forward
  | TSS_SORTEDONTAPE => get_ontape forward
  | TSS_FINALMERGE => get_finalmerge forward
  | _ => elog "invalid tuplesort state"
  end.

(** ** Positions *)

Definition tuplesort_rescan : TM unit :=
  s ← mget;
  Assert (randomAccess s);;
  match status s with
  | TSS_SORTEDINMEM =>
    mput (set_current 0 (set_eof_reached false (set_markpos_offset 0 (set_markpos_eof false s))))
  | TSS_SORTEDONTAPE =>
    tape_op (fun ts => LogicalTapeRewind ts (Z.to_nat (result_tape s)) false);;
    mmod (fun s => set_eof_reached false (set_markpos_block 0 (set_markpos_offset 0 (set_markpos_eof false s))))
  | _ => elog "invalid tuplesort state"
  end.

Definition tuplesort_markpos : TM unit :=
  s ← mget;
  Assert (randomAccess s);;
  match status s with
  | TSS_SORTEDINMEM => mput (set_markpos_offset (current s) (set_markpos_eof (eof_reached s) s))
  | TSS_SORTEDONTAPE =>
    ts ← tapes;
    '(blk, off) ← lift_res (LogicalTapeTell ts (Z.to_nat (result_tape s)));
    mput (set_markpos_block blk (set_markpos_offset off (set_markpos_eof (eof_reached s) s)))
  | _ => elog "invalid tuplesort state"
  end.

Definition tuplesort_restorepos : TM unit :=
  s ← mget;
  Assert (randomAccess s);;
  match status s with
  | TSS_SORTEDINMEM => mput (set_current (markpos_offset s) (set_eof_reached (markpos_eof s) s))
  | TSS_SORTEDONTAPE =>
    ts ← tapes;
    '(ok, ts') ← lift_res (LogicalTapeSeek ts (Z.to_nat (result_tape s)) (markpos_block s) (markpos_offset s));
    if ok : bool then mput (set_tapeset (Some ts') (set_eof_reached (markpos_eof s) s))
    else elog "tuplesort_restorepos failed"
  | _ => elog "invalid tuplesort state"
  end.

(** tuplesort_get_stats: the name of the method. *)
Definition tuplesort_sort_method (s : Tuplesortstate) : string :=
  match status s with
  | TSS_SORTEDINMEM => if boundUsed s then "top-N heapsort" else "quicksort"
  | TSS_SORTEDONTAPE => "external sort"
  | TSS_FINALMERGE => "external merge"
  | _ => "still in progress"
  end.

(** ** Whole sorts *)

Fixpoint put_all (ts : list (SortTuple T)) : TM unit :=
  match ts with [] => mret tt | t :: ts' => puttuple t;; put_all ts' end.

(** Up to [n] calls of tuplesort_gettuple_common, forward, until it answers no. *)
Fixpoint get_all (slave : bool) (n : nat) : TM (list (SortTuple T)) :=
  match n with
  | O => mret []
  | S n' =>
    o ← tuplesort_gettuple_common slave true;
    match o with
    | Some t => rest ← get_all slave n'; mret (t :: rest)
    | None => mret []
    end
  end.
End Tuplesort.
Arguments Tuplesortstate T K : clear implicits.

(** Equal states: both sides become records of the fields. *)
Ltac flat_state := cbv beta iota zeta delta [mput mmod
  status randomAccess bounded boundUsed bound availMem allowedMem maxTapes tapeRange tapeset scanKeys memtuples
  memtupcount currentRun mergeactive mergenext mergelast mergeavailslots mergeavailmem mergefreelist
  mergefirstfree Level destTape tp_fib tp_runs tp_dummy tp_tapenum activeTapes result_tape current eof_reached
  markpos_block markpos_offset markpos_eof
  set_status set_randomAccess set_bounded set_boundUsed set_bound set_availMem set_allowedMem set_maxTapes
  set_tapeRange set_tapeset set_scanKeys set_memtuples set_memtupcount set_currentRun set_mergeactive
  set_mergenext set_mergelast set_mergeavailslots set_mergeavailmem set_mergefreelist set_mergefirstfree
  set_Level set_destTape set_tp_fib set_tp_runs set_tp_dummy set_tp_tapenum set_activeTapes set_result_tape
  set_current set_eof_reached set_markpos_block set_markpos_offset set_markpos_eof].

(** Steps that succeed. *)
Section steps.
Context {T K A B : Type}.
Implicit Types (s : Tuplesortstate T K) (f : A -> M (Tuplesortstate T K) B).

Lemma at_idx_ok (l : list A) i x f s : l !! i = Some x -> (at_idx l i ≫= f) s = f x s.
Proof. intros H. unfold at_idx, deref, mbind, M_bind. by rewrite H. Qed.
Lemma upd_idx_ok (l : list A) i x (f : list A -> M (Tuplesortstate T K) B) s : i < length l -> (upd_idx l i x ≫= f) s = f (<[i := x]> l) s.
Proof. intros H. unfold upd_idx, mbind, M_bind. by rewrite decide_True. Qed.
End steps.

(** ** MinimalTuples

    A MinimalTuple is its body, the bytes after the length word and the padding; these are what goes to
    tape.  The space a tuple takes and the way a column is found in it are parameters. *)
Definition MinimalTuple := list byte.

Definition heap_methods (heap_getattr : MinimalTuple -> Z -> Datum * bool) (chunk_space : MinimalTuple -> Z)
    (space : nat -> Z) : SortMethods MinimalTuple (list ScanKeyData) := {|
  comparetup := comparetup_heap heap_getattr;
  comparetup_error _ _ _ := None;
  reversedirection := reversedirection_heap;
  reversedirection_error _ := None;
  GetMemoryChunkSpace := chunk_space;
  tuple_body st := tuple st;
  tuple_of_body keys body := computeDatum1 heap_getattr keys body 0;
  array_space := space |}.
