(* ===== verification/InMemory.v ===== *)
(** * InMemory: the sort state in memory

    What a sort relies on of its methods, the heap of the sort state, the bounded heap that keeps the smallest [bound] tuples, and
    reading a result that is in memory. *)

From S2P Require Import Prelude Order Compare Heap Qsort Tape Tuplesort.
From Stdlib Require Import Permutation.

(** The tuples a sort has to do with, where comparisons may raise errors: a comparison of two of them does not. *)
Class Domain (T : Type) := in_domain : SortTuple T -> Prop.
#[export] Instance any_tuple (T : Type) : Domain T | 100 := fun _ => True.

(** What the sort relies on of its methods; [valid] are the key descriptions in use. *)
Class SortMethodsLaws {T K} {Dm : Domain T} (SM : SortMethods T K) (valid : K -> Prop) : Prop := {
  sm_cmp : forall k, valid k -> CmpLaws (comparetup k);
  sm_no_error : forall k a b, valid k -> in_domain a -> in_domain b -> comparetup_error k a b = None;
  sm_domain : forall i x, in_domain (with_tupindex i x) <-> in_domain x;
  sm_tupindex : forall k a b i j, comparetup k (with_tupindex i a) (with_tupindex j b) = comparetup k a b }.

(** What bounded sorts rely on in addition. *)
Class ReverseLaws {T K} (SM : SortMethods T K) (valid : K -> Prop) : Prop := {
  sm_reverse_error : forall k, valid k -> reversedirection_error k = None;
  sm_valid_reverse : forall k, valid k -> valid (reversedirection k);
  sm_reverse : forall k a b, valid k -> comparetup (reversedirection k) a b = (- comparetup k a b)%Z;
  sm_involutive : forall k, valid k -> reversedirection (reversedirection k) = k }.

(** The interface is implemented by comparetup_heap and reversedirection_heap. *)
Definition sort_functions (keys : list ScanKeyData) : Prop := Forall (fun k => SortFunction (sk_func k)) keys.

#[export] Instance heap_methods_laws heap_getattr chunk_space space :
  SortMethodsLaws (heap_methods heap_getattr chunk_space space) sort_functions.
Proof.
  split; simpl.
  - intros k Hk. by apply comparetup_heap_laws.
  - done.
  - done.
  - intros [|k keys] a b i j; [done|]. simpl. unfold compare_leading. simpl. case_decide; [|done].
    induction keys as [|k' keys IH]; simpl; [done|]. unfold compare_attr at 1 2 3. simpl.
    rewrite IH. done.
Qed.
#[export] Instance heap_methods_reverse heap_getattr chunk_space space :
  ReverseLaws (heap_methods heap_getattr chunk_space space) sort_functions.
Proof.
  split; simpl.
  - done.
  - intros k Hk. unfold sort_functions, reversedirection_heap. apply Forall_fmap. eapply Forall_impl; [exact Hk|done].
  - intros k a b Hk. by apply comparetup_heap_reversed.
  - intros k _. apply reversedirection_heap_involutive.
Qed.

Section InMemory.
Context {T K : Type} `{SM : !SortMethods T K} {Dm : Domain T} (valid : K -> Prop) `{HL : !SortMethodsLaws SM valid}.
Context (junk : SortTuple T).
Local Abbreviation state := (Tuplesortstate T K).

(** The tuple without the bookkeeping index. *)
Definition norm (t : SortTuple T) : SortTuple T := with_tupindex 0 t.

Ltac mstep := unfold mbind, M_bind, mret, M_ret, mget, mput, mmod, mfail, gets, elog, Assert, deref, at_idx, upd_idx, lift_res; simpl.

Lemma cmp_norm_l k a b i : comparetup k (with_tupindex i a) b = comparetup k a b.
Proof. rewrite <- (sm_tupindex k a b i (tupindex b)) at 1. f_equal. by destruct b. Qed.
Lemma cmp_norm_r k a b i : comparetup k a (with_tupindex i b) = comparetup k a b.
Proof. rewrite <- (sm_tupindex k a b (tupindex a) i) at 1. f_equal. by destruct a. Qed.
Lemma norm_with_tupindex i t : norm (with_tupindex i t) = norm t.
Proof. by destruct t. Qed.

(** ** Heap operations on the state *)

Definition in_heap (s : state) : list (SortTuple T) := take (memtupcount s) (memtuples s).
Definition heap_inv (s : state) : Prop :=
  heap_ok (comparetup (scanKeys s)) (memtuples s) (memtupcount s) /\ memtupcount s <= memtupsize s /\ Forall in_domain (in_heap s).

Lemma comparetup_ok k a b : valid k -> in_domain a -> in_domain b -> comparetup_result k a b = Ok (comparetup k a b).
Proof. intros Hv Ha Hb. unfold comparetup_result. by rewrite sm_no_error. Qed.
Lemma heapcompare_ok k (ci : bool) a b : valid k -> in_domain a -> in_domain b ->
  HEAPCOMPARE k ci a b = Ok (if ci && negb (tupindex a =? tupindex b)%Z then (tupindex a - tupindex b)%Z else comparetup k a b).
Proof. intros Hv Ha Hb. unfold HEAPCOMPARE. destruct (ci && _); [done|]. by apply comparetup_ok. Qed.
Lemma in_domain_norm i x : in_domain x -> in_domain (with_tupindex i x).
Proof. by rewrite sm_domain. Qed.
Lemma Forall_in_domain_norm (l l' : list (SortTuple T)) : norm <$> l ≡ₚ norm <$> l' -> Forall in_domain l' -> Forall in_domain l.
Proof.
  intros Hp Hl. assert (H : Forall in_domain (norm <$> l)) by (rewrite Hp; apply Forall_fmap; eapply Forall_impl; [exact Hl|]; intros x; apply in_domain_norm).
  rewrite Forall_fmap in H. eapply Forall_impl; [exact H|]. intros x. unfold compose, norm. by rewrite sm_domain.
Qed.
Lemma compare_state k s a b : valid k -> scanKeys s = k -> in_domain a -> in_domain b -> COMPARETUP s a b s = Ok (comparetup k a b, s).
Proof. intros Hv <- Ha Hb. unfold COMPARETUP, lift_res. by rewrite comparetup_ok. Qed.

Lemma insert_ok s t i :
  valid (scanKeys s) -> heap_inv s -> memtupcount s < memtupsize s -> in_domain t ->
  exists mt, tuplesort_heap_insert t i false s = Ok (tt, set_memtupcount (S (memtupcount s)) (set_memtuples mt s)) /\
    length mt = memtupsize s /\ heap_ok (comparetup (scanKeys s)) mt (S (memtupcount s)) /\
    take (S (memtupcount s)) mt ≡ₚ with_tupindex i t :: in_heap s /\
    (forall k, S (memtupcount s) <= k -> mt !! k = memtuples s !! k).
Proof.
  intros Hv (Hok & _ & Hd) Hn Ht. pose proof (sm_cmp _ Hv) as HC.
  destruct (heap_insert_spec (comparetup (scanKeys s)) (HEAPCOMPARE (scanKeys s) false) in_domain (fun x y => heapcompare_ok _ false x y Hv)
    (memtuples s) (memtupcount s) (with_tupindex i t) Hok Hn) as (mt & He & Hl & Hok' & Hp & Htl); [by apply in_domain_norm|done|].
  exists mt. split_and!; try done. unfold tuplesort_heap_insert. mstep. by rewrite He.
Qed.
(** The heap after an insertion. *)
Lemma insert_inv s t i mt : heap_inv s -> memtupcount s < memtupsize s -> in_domain t -> length mt = memtupsize s ->
  heap_ok (comparetup (scanKeys s)) mt (S (memtupcount s)) -> take (S (memtupcount s)) mt ≡ₚ with_tupindex i t :: in_heap s ->
  heap_inv (set_memtupcount (S (memtupcount s)) (set_memtuples mt s)).
Proof.
  intros (_ & _ & Hd) Hn Ht Hl Hok Hp. split_and!; [done|unfold memtupsize in *; simpl; lia|].
  unfold in_heap. simpl. rewrite Hp. constructor; [by apply in_domain_norm|done].
Qed.

Lemma siftup_ok s root :
  valid (scanKeys s) -> heap_inv s -> 0 < memtupcount s -> memtuples s !! 0 = Some root ->
  exists mt, tuplesort_heap_siftup false s = Ok (tt, set_memtupcount (memtupcount s - 1) (set_memtuples mt s)) /\
    length mt = memtupsize s /\ heap_ok (comparetup (scanKeys s)) mt (memtupcount s - 1) /\
    in_heap s ≡ₚ root :: take (memtupcount s - 1) mt /\
    (forall k, memtupcount s - 1 <= k -> mt !! k = memtuples s !! k).
Proof.
  intros Hv (Hok & Hle & Hd) Hn Hr. pose proof (sm_cmp _ Hv) as HC.
  destruct (heap_siftup_spec (comparetup (scanKeys s)) (HEAPCOMPARE (scanKeys s) false) in_domain (fun x y => heapcompare_ok _ false x y Hv)
    (memtuples s) (memtupcount s) root Hok Hn Hle Hr Hd) as (mt & He & Hl & Hok' & Hp & Ht).
  exists mt. split_and!; try done. unfold tuplesort_heap_siftup. mstep. by rewrite He.
Qed.
(** The heap after the root was taken off. *)
Lemma siftup_inv s root mt : heap_inv s -> length mt = memtupsize s -> heap_ok (comparetup (scanKeys s)) mt (memtupcount s - 1) ->
  in_heap s ≡ₚ root :: take (memtupcount s - 1) mt -> heap_inv (set_memtupcount (memtupcount s - 1) (set_memtuples mt s)).
Proof.
  intros (_ & Hle & Hd) Hl Hok Hp. split_and!; [done|unfold memtupsize in *; simpl; lia|].
  unfold in_heap. simpl. rewrite Hp in Hd. by apply Forall_cons in Hd as [_ Hd].
Qed.
Lemma heap_root_domain s root : heap_inv s -> 0 < memtupcount s -> memtuples s !! 0 = Some root -> in_domain root.
Proof. intros (_ & _ & Hd) Hn Hr. apply (Forall_lookup_1 _ _ 0 _ Hd). apply lookup_take_Some. by split. Qed.

Lemma root_least s root x :
  valid (scanKeys s) -> heap_inv s -> memtuples s !! 0 = Some root -> x ∈ in_heap s ->
  (comparetup (scanKeys s) root x <= 0)%Z.
Proof.
  intros Hv (Hok & Hle & _) Hr Hx. pose proof (sm_cmp _ Hv) as HC.
  by eapply (heap_root_least (comparetup (scanKeys s)) (memtuples s) (memtupcount s)).
Qed.

(** ** The smallest tuples *)

(** Of the tuples [ins], [kept] are kept and [D] discarded, none of which is smaller. *)
Definition keeps (k : K) (kept D ins : list (SortTuple T)) : Prop :=
  (norm <$> kept) ++ (norm <$> D) ≡ₚ norm <$> ins /\
  forall x y, x ∈ kept -> y ∈ D -> (comparetup k x y <= 0)%Z.

Lemma keeps_discard k kept D ins x :
  keeps k kept D ins -> (forall z, z ∈ kept -> (comparetup k z x <= 0)%Z) -> keeps k kept (x :: D) (ins ++ [x]).
Proof.
  intros [Hp Ho] Hx. split.
  - rewrite fmap_app. simpl. rewrite <- Hp. rewrite <- Permutation_middle. by rewrite (Permutation_app_comm _ [norm x]).
  - intros z y Hz [->|Hy]%elem_of_cons; auto.
Qed.

Lemma keeps_insert k kept kept' ins x i :
  keeps k kept [] ins -> kept' ≡ₚ with_tupindex i x :: kept -> keeps k kept' [] (ins ++ [x]).
Proof.
  intros [Hp _] Hk. split; [|set_solver]. rewrite Hk, fmap_app. simpl. rewrite <- Hp, norm_with_tupindex. simpl.
  by rewrite (Permutation_app_comm _ [norm x]).
Qed.

Lemma keeps_replace k kept kept1 kept2 D ins x top root i :
  valid k -> keeps k kept D ins -> kept1 ≡ₚ with_tupindex i x :: kept -> kept1 ≡ₚ root :: kept2 ->
  top ∈ kept -> (comparetup k x top <= 0)%Z -> (forall z, z ∈ kept2 -> (comparetup k z root <= 0)%Z) ->
  keeps k kept2 (root :: D) (ins ++ [x]).
Proof.
  intros Hv [Hp Ho] H1 H2 Ht Hx Hr. pose proof (sm_cmp _ Hv) as HC. split.
  - rewrite fmap_app. simpl. rewrite <- Hp. rewrite <- Permutation_middle.
    assert (norm root :: (norm <$> kept2) ≡ₚ norm x :: (norm <$> kept)) as Hn.
    { rewrite <- (norm_with_tupindex i x). rewrite <- !fmap_cons. by rewrite <- H1, <- H2. }
    rewrite app_comm_cons, Hn. simpl. by rewrite (Permutation_app_comm _ [norm x]).
  - intros z y Hz [->|Hy]%elem_of_cons; [by apply Hr|].
    assert (z ∈ with_tupindex i x :: kept) as Hz' by (rewrite <- H1, H2; by right).
    apply elem_of_cons in Hz' as [->|Hz']; [|by apply Ho].
    rewrite cmp_norm_l. apply (cmp_trans x top y); [done|by apply Ho].
Qed.

Lemma keeps_perm k kept kept' D ins ins' :
  kept ≡ₚ kept' -> ins ≡ₚ ins' -> keeps k kept D ins -> keeps k kept' D ins'.
Proof. intros Hk Hi [Hp Ho]. split; [by rewrite <- Hk, <- Hi|]. intros x y. rewrite <- Hk. apply Ho. Qed.

(** ** The bounded heap *)

Section bounded.
Context `{HR : !ReverseLaws SM valid}.

(** The loops of the bounded heap sort change nothing else. *)
Definition upd (a : Z) (n : nat) (mt : list (SortTuple T)) (s : state) : state :=
  set_availMem a (set_memtupcount n (set_memtuples mt s)).

(** The heap under construction: [c] is the number of tuples it has to reach. *)
Record bheap (k : K) (s : state) (D ins : list (SortTuple T)) : Prop := {
  bh_keys : scanKeys s = reversedirection k;
  bh_heap : heap_inv s;
  bh_keeps : keeps k (in_heap s) D ins;
  bh_count : (Z.of_nat (memtupcount s) <= bound s)%Z;
  bh_full : D = [] \/ Z.of_nat (memtupcount s) = bound s }.

Lemma reversed_ge k a b : valid k -> (comparetup (reversedirection k) a b <= 0)%Z -> (comparetup k b a <= 0)%Z.
Proof. intros Hv. rewrite sm_reverse by done. pose proof (sm_cmp _ Hv) as HC. intros. apply (cmp_total _ a b). lia. Qed.

(** The root of the reversed heap is a greatest tuple. *)
Lemma bheap_top k s D ins root x :
  valid k -> bheap k s D ins -> memtuples s !! 0 = Some root -> x ∈ in_heap s -> (comparetup k x root <= 0)%Z.
Proof.
  intros Hv [Hk Hh _ _ _] Hr Hx. apply reversed_ge; [done|]. rewrite <- Hk.
  apply root_least; try done. rewrite Hk. by apply sm_valid_reverse.
Qed.

Lemma in_heap_top (s : state) root : 0 < memtupcount s -> memtuples s !! 0 = Some root -> root ∈ in_heap s.
Proof.
  intros Hn Hr. apply list_elem_of_lookup. exists 0. apply lookup_take_Some. by split.
Qed.

(** A tuple no smaller than the root is discarded. *)
Lemma bheap_discard k s D ins x root a :
  valid k -> bheap k s D ins -> Z.of_nat (memtupcount s) = bound s -> memtuples s !! 0 = Some root ->
  (comparetup (reversedirection k) x root <= 0)%Z ->
  bheap k (set_availMem a s) (x :: D) (ins ++ [x]).
Proof.
  intros Hv HB Hc Hr Hx. pose proof HB as [H1 H2 H3 H4 H5]. split; try done; [|by right].
  apply keeps_discard; [done|]. intros z Hz. pose proof (sm_cmp _ Hv) as HC.
  apply (cmp_trans z root x); [by eapply bheap_top|by apply reversed_ge].
Qed.

(** The heap takes the tuple while it is not full. *)
Lemma bheap_insert k s ins x :
  valid k -> in_domain x -> bheap k s [] ins -> memtupcount s < memtupsize s -> (Z.of_nat (memtupcount s) < bound s)%Z ->
  exists mt, tuplesort_heap_insert x 0 false s = Ok (tt, set_memtupcount (S (memtupcount s)) (set_memtuples mt s)) /\
    length mt = memtupsize s /\ (forall j, S (memtupcount s) <= j -> mt !! j = memtuples s !! j) /\
    bheap k (set_memtupcount (S (memtupcount s)) (set_memtuples mt s)) [] (ins ++ [x]).
Proof.
  intros Hv Hdx HB Hn Hc. pose proof HB as [H1 H2 H3 H4 H5].
  destruct (insert_ok s x 0) as (mt & He & Hl & Hok & Hp & Ht); [rewrite H1; by apply sm_valid_reverse|done..|].
  exists mt. split_and!; try done. split; simpl; try done; [| |lia|by left].
  - by eapply insert_inv.
  - by eapply keeps_insert.
Qed.

(** make_bounded_heap on a full heap: insert, then drop the greatest. *)
Lemma bheap_insert_drop k s D ins x root :
  valid k -> in_domain x -> bheap k s D ins -> memtupcount s < memtupsize s -> Z.of_nat (memtupcount s) = bound s ->
  0 < memtupcount s -> memtuples s !! 0 = Some root -> (0 < comparetup (reversedirection k) x root)%Z ->
  exists mt a D', (tuplesort_heap_insert x 0 false;;
     s ← mget;
     if (bound s <? Z.of_nat (memtupcount s))%Z then
       top ← at_idx (memtuples s) 0; free_sort_tuple top;; tuplesort_heap_siftup false
     else mret tt) s = Ok (tt, upd a (memtupcount s) mt s) /\
    length mt = memtupsize s /\ (forall j, S (memtupcount s) <= j -> mt !! j = memtuples s !! j) /\
    bheap k (upd a (memtupcount s) mt s) D' (ins ++ [x]).
Proof.
  intros Hv Hdx HB Hn Hc H0 Hr Hx. pose proof HB as [H1 H2 H3 H4 H5]. pose proof (sm_cmp _ Hv) as HC.
  assert (Hvr : valid (scanKeys s)) by (rewrite H1; by apply sm_valid_reverse).
  destruct (insert_ok s x 0 Hvr H2 Hn Hdx) as (mt & He & Hl & Hok & Hp & Ht). pose proof (insert_inv _ _ _ _ H2 Hn Hdx Hl Hok Hp) as HI.
  rewrite (mbind_ok _ _ _ _ _ He). unfold memtupsize in *.
  destruct (lookup_lt_is_Some_2 mt 0) as [top Htop]; [lia|].
  unfold mbind at 1, M_bind at 1, mget at 1. cbn beta iota.
  destruct (_ <? _)%Z eqn:E; [|simpl in E; apply Z.ltb_ge in E; exfalso; lia].
  unfold mbind at 1, M_bind at 1, at_idx, deref. simpl. rewrite Htop.
  set (s1 := FREEMEM (GetMemoryChunkSpace (tuple top)) (set_memtupcount (S (memtupcount s)) (set_memtuples mt s))).
  unfold mbind, M_bind, free_sort_tuple, mmod. fold s1.
  destruct (siftup_ok s1 top) as (mt' & He' & Hl' & Hok' & Hp' & Ht'); [done|exact HI|simpl; lia|done|].
  pose proof (siftup_inv s1 top mt' HI Hl' Hok' Hp') as HI'. rewrite He'. simpl in *. rewrite Nat.sub_0_r in *.
  exists mt', (availMem s1), (top :: D). split_and!; try done; [unfold memtupsize in *; simpl in *; congruence| |].
  { intros j Hj. rewrite Ht' by lia. by apply Ht. }
  split; simpl; try done; [|by right].
  eapply (keeps_replace k (in_heap s) (take (S (memtupcount s)) mt)); try done.
  - by apply in_heap_top.
  - apply (cmp_total _ root x). apply (cmp_le_ge _ x root). rewrite sm_reverse in Hx by done. lia.
  - intros z Hz. apply reversed_ge; [done|]. rewrite <- H1.
    assert (z ∈ in_heap s1) as Hz' by (unfold in_heap; simpl; unfold in_heap in Hp'; simpl in Hp'; rewrite Hp'; by right).
    by apply (root_least s1 top z).
Qed.

(** puttuple_common on a full heap: drop the greatest, then insert. *)
Lemma put_bounded_ok k s D ins x :
  valid k -> in_domain x -> bheap k s D ins -> Z.of_nat (memtupcount s) = bound s -> 0 < memtupcount s ->
  exists mt a D', put_bounded x s = Ok (tt, upd a (memtupcount s) mt s) /\ length mt = memtupsize s /\
    bheap k (upd a (memtupcount s) mt s) D' (ins ++ [x]).
Proof.
  intros Hv Hdx HB Hc H0. pose proof HB as [H1 H2 H3 H4 H5]. pose proof (sm_cmp _ Hv) as HC.
  assert (Hvr : valid (scanKeys s)) by (rewrite H1; by apply sm_valid_reverse).
  destruct (lookup_lt_is_Some_2 (memtuples s) 0) as [root Hr]; [destruct H2; unfold memtupsize in *; lia|].
  unfold put_bounded, at_idx, deref. unfold mbind at 1, M_bind at 1, mget. unfold mbind at 1, M_bind at 1. rewrite Hr.
  rewrite (mbind_ok _ _ _ _ _ (compare_state (scanKeys s) s x root Hvr eq_refl Hdx (heap_root_domain _ _ H2 H0 Hr))). destruct (comparetup (scanKeys s) x root <=? 0)%Z eqn:E.
  - exists (memtuples s), (availMem s + GetMemoryChunkSpace (tuple x))%Z, (x :: D).
    unfold free_sort_tuple, mmod, FREEMEM, upd. split; [by destruct s|]. split; [done|].
    pose proof (bheap_discard k s D ins x root (availMem s + GetMemoryChunkSpace (tuple x)) Hv HB Hc Hr) as HB'.
    destruct s; simpl in *. apply HB'. rewrite <- H1. lia.
  - set (s1 := FREEMEM (GetMemoryChunkSpace (tuple root)) s).
    unfold mbind, M_bind, free_sort_tuple, mmod. fold s1.
    destruct (siftup_ok s1 root) as (mt & He & Hl & Hok & Hp & Ht); [done..|]. pose proof (siftup_inv s1 root mt H2 Hl Hok Hp) as HI. rewrite He.
    set (s2 := set_memtupcount (memtupcount s1 - 1) (set_memtuples mt s1)) in *.
    destruct H2 as (Hok0 & Hle0 & _). unfold memtupsize in *. simpl in *.
    destruct (insert_ok s2 x 0) as (mt' & He' & Hl' & Hok' & Hp' & Ht');
      [done|done|unfold memtupsize; simpl; lia|done|].
    assert (HI' : heap_inv (set_memtupcount (S (memtupcount s2)) (set_memtuples mt' s2))) by (eapply insert_inv; try done; unfold memtupsize; simpl; lia).
    rewrite He'. unfold s2, memtupsize, in_heap in *; simpl in *. replace (S (memtupcount s - 1)) with (memtupcount s) in * by lia.
    exists mt', (availMem s1), (root :: D). split; [done|]. split; [congruence|].
    split; simpl; try done; [|by right].
    eapply (keeps_replace k (in_heap s) (with_tupindex 0 x :: in_heap s) _ D ins x root root 0); try done.
    + unfold in_heap. simpl. rewrite Hp', Hp. by rewrite Permutation_swap.
    + by apply in_heap_top.
    + apply (cmp_total _ root x). apply (cmp_le_ge _ x root). rewrite H1, sm_reverse in E by done. lia.
    + unfold in_heap. simpl. intros z Hz. rewrite Hp' in Hz. apply elem_of_cons in Hz as [->|Hz].
      * rewrite cmp_norm_l. apply (cmp_total _ root x), (cmp_le_ge _ x root). rewrite H1, sm_reverse in E by done. lia.
      * eapply bheap_top; try done. unfold in_heap. rewrite Hp. by right.
Qed.

Lemma upd_upd a n mt a' n' mt' (s : state) : upd a' n' mt' (upd a n mt s) = upd a' n' mt' s.
Proof. done. Qed.
Lemma upd_insert n mt (s : state) : set_memtupcount n (set_memtuples mt s) = upd (availMem s) n mt s.
Proof. done. Qed.
Lemma upd_avail a (s : state) : set_availMem a s = upd a (memtupcount s) (memtuples s) s.
Proof. by destruct s. Qed.

(** One round of make_bounded_heap. *)
Lemma bounded_round k s D ins x :
  valid k -> in_domain x -> bheap k s D ins -> (0 < bound s)%Z -> memtupcount s < memtupsize s ->
  (Z.of_nat (memtupcount s) < bound s -> D = [])%Z ->
  exists mt a n D',
    (skip ← (if (bound s <=? Z.of_nat (memtupcount s))%Z
             then top ← at_idx (memtuples s) 0; c ← COMPARETUP s x top; mret (c <=? 0)%Z else mret false);
     (if skip : bool then free_sort_tuple x
      else
       tuplesort_heap_insert x 0 false;;
       s ← mget;
       if (bound s <? Z.of_nat (memtupcount s))%Z then
         top ← at_idx (memtuples s) 0; free_sort_tuple top;; tuplesort_heap_siftup false
       else mret tt)) s = Ok (tt, upd a n mt s) /\
    length mt = memtupsize s /\ bheap k (upd a n mt s) D' (ins ++ [x]) /\
    (forall j, S (memtupcount s) <= j -> mt !! j = memtuples s !! j) /\
    Z.of_nat n = Z.min (Z.of_nat (memtupcount s) + 1) (bound s) /\ (Z.of_nat n < bound s -> D' = [])%Z.
Proof.
  intros Hv Hdx HB Hb Hn HD. pose proof HB as [H1 H2 H3 H4 H5].
  destruct (bound s <=? Z.of_nat (memtupcount s))%Z eqn:E.
  - assert (Hc : Z.of_nat (memtupcount s) = bound s) by lia.
    destruct (lookup_lt_is_Some_2 (memtuples s) 0) as [root Hr]; [unfold memtupsize in *; lia|].
    unfold mbind at 1, M_bind at 1. unfold mbind at 1, M_bind at 1. unfold at_idx at 1, deref. rewrite Hr.
    rewrite (mbind_ok _ _ _ _ _ (compare_state (scanKeys s) s x root ltac:(rewrite H1; by apply sm_valid_reverse) eq_refl Hdx (heap_root_domain _ _ H2 ltac:(lia) Hr))).
    destruct (comparetup (scanKeys s) x root <=? 0)%Z eqn:Ex; cbn beta iota delta [mret M_ret].
    + exists (memtuples s), (availMem s + GetMemoryChunkSpace (tuple x))%Z, (memtupcount s), (x :: D).
      rewrite <- upd_avail. split_and!; try done; [|lia|lia].
      eapply bheap_discard; try done. rewrite <- H1. lia.
    + destruct (bheap_insert_drop k s D ins x root) as (mt & a & D' & He & Hl & Ht & HB'); try done; [lia|rewrite <- H1; lia|].
      exists mt, a, (memtupcount s), D'. split_and!; try done; lia.
  - rewrite (HD ltac:(lia)) in HB.
    destruct (bheap_insert k s ins x Hv Hdx HB Hn) as (mt & He & Hl & Ht & HB'); [lia|].
    exists mt, (availMem s), (S (memtupcount s)), []. rewrite <- upd_insert. split_and!; try done; [|simpl; lia].
    unfold mbind at 1, M_bind at 1. cbn beta iota delta [mret M_ret]. rewrite (mbind_ok _ _ _ _ _ He).
    unfold mbind, M_bind, mget. destruct (_ <? _)%Z eqn:E'; [|done]. simpl in E'. apply Z.ltb_lt in E'. exfalso. lia.
Qed.

Lemma bounded_loop_ok k kk : forall i s D l0,
  valid k -> Forall in_domain (take (i + kk) l0) -> bheap k s D (take i l0) -> (0 < bound s)%Z -> i + kk <= memtupsize s -> length l0 = memtupsize s ->
  (forall j, i <= j -> memtuples s !! j = l0 !! j) -> Z.of_nat (memtupcount s) = Z.min (Z.of_nat i) (bound s) ->
  (Z.of_nat (memtupcount s) < bound s -> D = [])%Z ->
  exists mt a n D', bounded_loop kk i s = Ok (tt, upd a n mt s) /\ length mt = memtupsize s /\
    bheap k (upd a n mt s) D' (take (i + kk) l0) /\ Z.of_nat n = Z.min (Z.of_nat (i + kk)) (bound s).
Proof.
  induction kk as [|kk IH]; intros i s D l0 Hv Hdm HB Hb Hi Hl0 Htail Hc HD; cbn [bounded_loop].
  - exists (memtuples s), (availMem s), (memtupcount s), D. rewrite Nat.add_0_r, <- upd_avail.
    replace (set_availMem (availMem s) s) with s by (by destruct s). done.
  - destruct (lookup_lt_is_Some_2 l0 i) as [x Hx]; [lia|].
    unfold mbind at 1, M_bind at 1, mget at 1. unfold mbind at 1, M_bind at 1, at_idx at 1, deref at 1.
    rewrite Htail, Hx by lia. rewrite <- mbind_assoc.
    destruct (bounded_round k s D (take i l0) x) as (mt & a & n & D' & He & Hl & HB' & Ht & Hn & HD'); [done| |done|done|lia|done|].
    { apply (Forall_lookup_1 _ _ i _ Hdm). rewrite lookup_take_lt by lia. done. }
    rewrite (mbind_ok _ _ _ _ _ He). rewrite <- (take_S_r _ _ _ Hx) in HB'.
    destruct (IH (S i) (upd a n mt s) D' l0) as (mt' & a' & n' & D'' & He' & Hl' & HB'' & Hn'); try done.
    + by rewrite Nat.add_succ_r in Hdm.
    + unfold memtupsize in *. simpl. lia.
    + unfold memtupsize in *. simpl. lia.
    + simpl. intros j Hj. rewrite Ht by lia. apply Htail. lia.
    + simpl. lia.
    + exists mt', a', n', D''. rewrite upd_upd in He'. rewrite upd_upd in HB''. unfold memtupsize in *. simpl in *.
      replace (i + S kk) with (S (i + kk)) by lia. split_and!; try done. lia.
Qed.

Lemma make_bounded_heap_ok k s ins :
  valid k -> scanKeys s = k -> status s = TSS_INITIAL -> bounded s = true -> (0 < bound s <= Z.of_nat (memtupcount s))%Z ->
  memtupcount s <= memtupsize s -> norm <$> take (memtupcount s) (memtuples s) = norm <$> ins -> Forall in_domain ins ->
  exists s' D, make_bounded_heap s = Ok (tt, s') /\ bheap k s' D ins /\ status s' = TSS_BOUNDED /\
    bounded s' = true /\ bound s' = bound s /\ Z.of_nat (memtupcount s') = bound s' /\ memtupsize s' = memtupsize s /\
    randomAccess s' = randomAccess s /\ allowedMem s' = allowedMem s.
Proof.
  intros Hv Hk Hs Hbd Hb Hn Hins Hdm. unfold make_bounded_heap.
  unfold mbind at 1, M_bind at 1, mget at 1. rewrite Hs, Hbd.
  unfold mbind at 1, M_bind at 1, Assert at 1. rewrite bool_decide_true by done.
  unfold mbind at 1, M_bind at 1, Assert at 1. cbn beta iota.
  unfold mbind at 1, M_bind at 1, Assert at 1. replace (bound s <=? Z.of_nat (memtupcount s))%Z with true by (symmetry; apply Z.leb_le; lia).
  unfold REVERSEDIRECTION. rewrite mbind_assoc, mget_ok, Hk, sm_reverse_error, mput_ok, mmod_ok by done.
  set (s0 := set_memtupcount 0 (set_scanKeys (reversedirection k) s)).
  destruct (bounded_loop_ok k (memtupcount s) 0 s0 [] (memtuples s)) as (mt & a & n & D & He & Hl & HB & Hc);
    simpl; try done; try lia.
  { apply (Forall_in_domain_norm _ ins); [by rewrite Hins|done]. }
  { split; simpl; try done; [|split; [done|set_solver]|lia|by left]. split_and!; [apply heap_ok_0|simpl; lia|constructor]. }
  rewrite (mbind_ok _ _ _ _ _ He). simpl in *.
  unfold mbind at 1, M_bind at 1, mget at 1. unfold mbind, M_bind, Assert, mput. simpl.
  replace (Z.of_nat n =? bound s)%Z with true by (symmetry; apply Z.eqb_eq; lia).
  exists (set_status TSS_BOUNDED (upd a n mt s0)), D. split; [done|]. split_and!; simpl; try done; [|lia].
  destruct HB as [B1 B2 [B3 B3'] B4 B5]. split; try done. split; [|done]. etrans; [exact B3|]. by rewrite <- Hins.
Qed.

(** sort_bounded_heap: the heap shrinks, the sorted part behind it grows. *)
Lemma unheapify_ok k kk : forall s n (l : list (SortTuple T)),
  valid k -> scanKeys s = reversedirection k -> heap_inv s -> memtupcount s <= S kk -> n <= memtupsize s ->
  memtupcount s <= n ->
  l = drop (memtupcount s) (take n (memtuples s)) -> sorted (comparetup k) l ->
  (forall x y, x ∈ in_heap s -> y ∈ l -> (comparetup k x y <= 0)%Z) ->
  exists mt c, unheapify kk s = Ok (tt, set_memtupcount c (set_memtuples mt s)) /\ c <= 1 /\ length mt = memtupsize s /\
    take n mt ≡ₚ take n (memtuples s) /\ sorted (comparetup k) (take n mt).
Proof.
  induction kk as [|kk IH]; intros s n l Hv Hk HH Hc Hn Hcn -> Hs Ho; pose proof (sm_cmp _ Hv) as HC;
    cbn [unheapify]; unfold mbind at 1, M_bind at 1, mget at 1.
  all: assert (Hdone : memtupcount s <= 1 -> sorted (comparetup k) (take n (memtuples s))).
  1,3: intros H1; rewrite <- (take_drop (memtupcount s) (take n (memtuples s))); apply (sorted_app _); [|done|];
    rewrite take_take, Nat.min_l by lia; [|done]; unfold memtupsize in *;
    destruct (memtupcount s) as [|[|?]]; [constructor| |lia]; destruct (memtuples s); simpl; repeat constructor.
  - rewrite decide_False by lia. exists (memtuples s), (memtupcount s). split; [by destruct s|]. auto with lia.
  - case_decide as H1; [|exists (memtuples s), (memtupcount s); split; [by destruct s|]; auto with lia].
    destruct (lookup_lt_is_Some_2 (memtuples s) 0) as [root Hr]; [unfold memtupsize in *; lia|].
    unfold mbind at 1, M_bind at 1, at_idx, deref. rewrite Hr.
    destruct (siftup_ok s root) as (mt & He & Hl & Hok & Hp & Ht); [rewrite Hk; by apply sm_valid_reverse|done|lia|done|].
    rewrite (mbind_ok _ _ _ _ _ He). unfold mbind at 1, M_bind at 1, mget at 1. unfold mbind at 1, M_bind at 1, upd_idx.
    simpl. unfold memtupsize in *. rewrite decide_True by lia. unfold mbind at 1, M_bind at 1, mret, M_ret, mput.
    set (c := memtupcount s) in *.
    assert (Hlast : memtuples s !! (c - 1) = mt !! (c - 1)) by (rewrite Ht; [done|lia]).
    assert (Hroot : forall x, x ∈ in_heap s -> (comparetup k x root <= 0)%Z).
    { intros x Hx. apply reversed_ge; [done|]. rewrite <- Hk. apply root_least; try done. rewrite Hk. by apply sm_valid_reverse. }
    assert (Hdrop : drop (c - 1) (take n (<[c - 1 := root]> mt)) = root :: drop c (take n (memtuples s))).
    { apply list_eq. intros [|j]; rewrite lookup_drop; [rewrite lookup_take_lt by lia; rewrite Nat.add_0_r, list_lookup_insert_eq by lia; done|].
      simpl. rewrite lookup_drop. destruct (decide (c + j < n)).
      - rewrite !lookup_take_lt by lia. rewrite list_lookup_insert_ne by lia. rewrite Ht by lia. f_equal. lia.
      - rewrite !lookup_take_ge by lia. done. }
    assert (Hheap : take (c - 1) (<[c - 1 := root]> mt) = take (c - 1) mt) by (apply take_insert_ge; lia).
    destruct (IH (set_memtuples (<[c - 1 := root]> mt) (set_memtupcount (c - 1) (set_memtuples mt s))) n
      (root :: drop c (take n (memtuples s)))) as (mt' & c' & He' & Hc' & Hl' & Hp' & Hs'); simpl; try done; try lia.
    + split_and!; [|unfold memtupsize; simpl; rewrite length_insert; lia|].
      * simpl. intros j x y Hj0 Hj. pose proof (parent_lt j Hj0). rewrite !list_lookup_insert_ne by lia. by apply Hok.
      * unfold in_heap. simpl. rewrite Hheap. destruct HH as (_ & _ & HH). rewrite Hp in HH. by apply Forall_cons in HH as [_ HH].
    + unfold memtupsize. simpl. rewrite length_insert. lia.
    + constructor; [done|]. apply Forall_forall. intros y Hy. apply Ho; [|done]. apply in_heap_top; [lia|done].
    + unfold in_heap. simpl. rewrite Hheap. intros x y Hx [->|Hy]%elem_of_cons.
      * apply Hroot. rewrite Hp. by right.
      * apply Ho; [|done]. rewrite Hp. by right.
    + exists mt', c'. simpl in *. rewrite He'. unfold memtupsize in *. simpl in *. rewrite length_insert in Hl'.
      split_and!; try done; [lia|]. rewrite Hp'.
      rewrite <- (take_drop (c - 1) (take n (<[c - 1 := root]> mt))), Hdrop, take_take, Nat.min_l, Hheap by lia.
      rewrite <- (take_drop c (take n (memtuples s))) at 2. rewrite take_take, Nat.min_l by lia.
      fold (in_heap s) in Hp. change (take c (memtuples s)) with (in_heap s). rewrite Hp. simpl. by rewrite <- Permutation_middle.
Qed.

Lemma sort_bounded_heap_ok k s D ins :
  valid k -> bheap k s D ins -> status s = TSS_BOUNDED -> bounded s = true -> Z.of_nat (memtupcount s) = bound s ->
  exists mt, sort_bounded_heap s = Ok (tt, set_boundUsed true (set_status TSS_SORTEDINMEM
      (set_scanKeys k (set_memtupcount (memtupcount s) (set_memtuples mt s))))) /\
    length mt = memtupsize s /\ sorted (comparetup k) (take (memtupcount s) mt) /\
    keeps k (take (memtupcount s) mt) D ins.
Proof.
  intros Hv [H1 H2 H3 H4 H5] Hs Hb Hc. unfold sort_bounded_heap.
  unfold mbind at 1, M_bind at 1, mget at 1. rewrite Hs, Hb.
  unfold mbind at 1, M_bind at 1, Assert at 1. rewrite bool_decide_true by done.
  unfold mbind at 1, M_bind at 1, Assert at 1. cbn beta iota.
  unfold mbind at 1, M_bind at 1, Assert at 1. rewrite Hc, Z.eqb_refl. cbn beta iota.
  destruct (unheapify_ok k (memtupcount s) s (memtupcount s) []) as (mt & c & He & Hc' & Hl & Hp & Hso); try done; try lia.
  - destruct H2 as (_ & ? & _). lia.
  - rewrite drop_ge; [done|rewrite length_take; lia].
  - constructor.
  - set_solver.
  - rewrite (mbind_ok _ _ _ _ _ He), mget_ok, mput_ok. unfold REVERSEDIRECTION. rewrite mbind_assoc, mget_ok. simpl. rewrite H1, sm_reverse_error by (by apply sm_valid_reverse).
    rewrite sm_involutive, mput_ok by done. exists mt. split; [done|]. split_and!; try done.
    eapply keeps_perm; [symmetry; exact Hp|reflexivity|done].
Qed.

End bounded.

(** ** Reading *)

(** Fetches that return the tuples of [l], from state [s] to state [s']; the answer no; both. *)
Fixpoint reads (slave : bool) (l : list (SortTuple T)) (s s' : state) : Prop :=
  match l with
  | [] => s' = s
  | x :: l => exists s1, tuplesort_gettuple_common slave true s = Ok (Some x, s1) /\ reads slave l s1 s'
  end.
Definition ends (slave : bool) (s : state) : Prop := exists s', tuplesort_gettuple_common slave true s = Ok (None, s').
Definition yields (slave : bool) (l : list (SortTuple T)) (s : state) : Prop := exists s', reads slave l s s' /\ ends slave s'.

Lemma reads_get_all slave l : forall n s s', reads slave l s s' -> n <= length l \/ ends slave s' -> exists s'', get_all slave n s = Ok (take n l, s'').
Proof.
  induction l as [|x l IH]; intros [|n] s s' Hr Hn; cbn [get_all]; [by exists s| |by exists s|].
  - cbn in Hr. subst s'. destruct Hn as [Hn|[s'' He]]; [cbn in Hn; lia|]. rewrite (mbind_ok _ _ _ _ _ He). by exists s''.
  - destruct Hr as (s1 & He & Hr). rewrite (mbind_ok _ _ _ _ _ He). destruct (IH n s1 s' Hr) as (s'' & Hg); [destruct Hn; [left; cbn in *; lia|by right]|].
    rewrite (mbind_ok _ _ _ _ _ Hg). by exists s''.
Qed.

Lemma reads_in_memory slave s : status s = TSS_SORTEDINMEM -> memtupcount s <= memtupsize s -> current s <= memtupcount s ->
  reads slave (drop (current s) (in_heap s)) s (set_current (memtupcount s) s).
Proof.
  intros Hs Hm Hc. remember (drop (current s) (in_heap s)) as l eqn:El. revert s Hs Hm Hc El. unfold in_heap, memtupsize. induction l as [|x l IH]; intros s Hs Hm Hc El.
  - apply (f_equal length) in El. rewrite length_drop, length_take in El. cbn in El. cbn. replace (memtupcount s) with (current s) by lia. by destruct s.
  - assert (Hx : take (memtupcount s) (memtuples s) !! current s = Some x) by (rewrite <- (Nat.add_0_r (current s)), <- lookup_drop, <- El; done).
    rewrite (drop_S _ _ _ Hx) in El. injection El as El. apply lookup_take_Some in Hx as [Hx Hlt]. exists (set_current (S (current s)) s). split.
    + unfold tuplesort_gettuple_common, get_inmem, mbind, M_bind, mget, Assert, at_idx, deref, mput. rewrite Hs. cbn. rewrite bool_decide_true by lia. by rewrite Hx.
    + apply (IH (set_current (S (current s)) s)); cbn; done || lia.
Qed.
Lemma ends_in_memory slave s : status s = TSS_SORTEDINMEM -> memtupcount s <= current s ->
  slave = true \/ bounded s = false \/ (Z.of_nat (current s) < bound s)%Z -> ends slave s.
Proof.
  intros Hs Hc Hb. unfold ends, tuplesort_gettuple_common, get_inmem, mbind, M_bind, mget, Assert, mput. rewrite Hs. cbn. rewrite bool_decide_false by lia.
  destruct Hb as [->|[->|Hb%Z.leb_gt]]; cbn; rewrite ?Hb, ?andb_false_r; by eexists.
Qed.

Lemma yields_in_memory slave s : status s = TSS_SORTEDINMEM -> memtupcount s <= memtupsize s -> current s <= memtupcount s -> slave = true \/ bounded s = false ->
  yields slave (drop (current s) (in_heap s)) s.
Proof. intros Hs Hm Hc Hb. exists (set_current (memtupcount s) s). split; [by apply reads_in_memory|]. apply ends_in_memory; [done|done|cbn; tauto]. Qed.

(** A whole sort: begin, an optional bound, the input, and [calls] fetches. *)
Definition sort_run (workMem : Z) (ra : bool) (keys : K) (bnd : option Z) (ts : list (SortTuple T)) (slave : bool) (calls : nat) :
    res (list (SortTuple T)) :=
  match tuplesort_begin_common junk workMem ra keys with
  | Err e => Err e
  | Ok s =>
    match ((match bnd with Some b => tuplesort_set_bound b | None => mret tt end);;
           put_all junk ts;;
           tuplesort_performsort;;
           get_all slave calls) s with
    | Ok (out, _) => Ok out
    | Err e => Err e
    end
  end.
End InMemory.

(** ** Properties *)

(** A bound that tuplesort_set_bound accepts can be doubled without overflow of the int, as
    puttuple_common does; a greater one is ignored. *)
Theorem tuplesort_set_bound_fits {T K} (b : Z) (s s' : Tuplesortstate T K) :
  (0 <= b < 2 ^ 63)%Z -> bounded s = false -> tuplesort_set_bound b s = Ok (tt, s') ->
  (bounded s' = true /\ bound s' = b /\ int32_range (bound s' * 2)) \/ (s' = s /\ (INT_MAX / 2 < b)%Z).
Proof.
  intros Hb Hs. unfold tuplesort_set_bound, mbind, M_bind, mget, Assert, mput.
  destruct (bool_decide (status s = TSS_INITIAL)); [|done]. destruct (bool_decide (memtupcount s = 0)); [|done].
  rewrite Hs. simpl. destruct (INT_MAX / 2 <? b)%Z eqn:E; intros [= <-].
  - right. split; [done|]. by apply Z.ltb_lt.
  - left. apply Z.ltb_ge in E. change (INT_MAX / 2)%Z with 1073741823%Z in E. simpl.
    rewrite wrap32_id by (unfold int32_range, INT_MIN, INT_MAX; lia). unfold int32_range, INT_MIN, INT_MAX. split_and!; [done..|lia|lia].
Qed.

(** ** Witnesses *)

Definition demo_methods : SortMethods MinimalTuple (list ScanKeyData) :=
  heap_methods demo_getattr (fun _ => 32%Z) (fun n => (24 * Z.of_nat n + 16)%Z).
Definition demo_junk : SortTuple MinimalTuple := mkSortTuple [] 0%Z true 0%Z.
Definition demo_state : Tuplesortstate MinimalTuple (list ScanKeyData) :=
  mkTuplesortstate TSS_INITIAL true false false 0 0 0 0 0 None demo_keys [] 0 0 [] [] [] [] [] 0 0 0 0 [] [] [] [] 0 (-1) 0 false 0 0 false.

Lemma tuplesort_set_bound_fits_witness :
  exists s', tuplesort_set_bound 10 demo_state = Ok (tt, s') /\ int32_range (bound s' * 2).
Proof.
  eexists. split; [reflexivity|].
  destruct (tuplesort_set_bound_fits 10 demo_state _ ltac:(lia) eq_refl eq_refl) as [(_ & _ & H)|[_ H]]; [exact H|].
  vm_compute in H. discriminate.
Defined.
