(* ===== verification/RunTapes.v ===== *)
(** * RunTapes: runs of tuples on logical tapes

    What writetup, markrunend, getlen and readtup of tuplesort.c put on a tape and get from it, in terms of the tuples.  A run is
    the sequence of its tuples, each with its length word, and a length word of zero at the end. *)

From S2P Require Import Prelude Order Compare Heap Qsort Tape LogTape Tuplesort InMemory.
From Stdlib Require Import Permutation.

(** ** Views of a tape *)

(** A tape that is read, with the bytes still to come; [all] are the bytes on it. *)
Definition reading (fz : bool) (t : tape) (all left : list byte) : Prop :=
  tp_writing t = false /\ tp_frozen t = fz /\ tp_bytes t = all /\ drop (tp_pos t) (tp_bytes t) = left.
Definition written (bs : list byte) : tape := mkTape bs (length bs) true false.

Lemma reading_next fz t all d left : reading fz t all (d ++ left) ->
  exists t', tape_next (length d) t = Some (d, t') /\ reading fz t' all left.
Proof.
  intros (Hw & Hf & Ha & Hd). unfold tape_next. rewrite Hw, Hd, take_app_length. eexists. split; [reflexivity|].
  split_and!; [done|done|done|]. cbn. rewrite <- drop_drop, Hd. apply drop_app_length.
Qed.
Lemma written_append bs d : tape_append d (written bs) = Some (written (bs ++ d)).
Proof. unfold tape_append, written. cbn. by rewrite length_app. Qed.
Lemma written_rewind bs : exists t, tape_rewind false (written bs) = Some t /\ reading false t bs bs.
Proof. eexists. split; [reflexivity|]. split_and!; cbn; done. Qed.
Lemma written_freeze bs : exists t, tape_freeze (written bs) = Some t /\ reading true t bs bs.
Proof. eexists. split; [reflexivity|]. split_and!; cbn; done. Qed.
Lemma reading_rewrite t all left : reading false t all left -> tape_rewind true t = Some (written []).
Proof. intros (Hw & Hf & _). unfold tape_rewind. by rewrite Hw, Hf. Qed.

(** The size the merge reckons with is the number of bytes. *)
Lemma tape_size_reading lts ts i lt t fz all left : rep lts ts -> lt_tapes lts !! i = Some lt -> ts !! i = Some t -> reading fz t all left ->
  tape_size lt = length all.
Proof.
  intros (owns & Ho & Hl & _ & Hrep) Hlt Ht (Hw & _ & Ha & _). pose proof (lookup_lt_Some _ _ _ Ht) as Hi.
  destruct (lookup_lt_is_Some_2 owns i) as [own Hown]; [lia|]. destruct (Hrep _ _ _ _ Hlt Ht Hown) as [(D & w & _ & _ & _ & ->)|(D & past & rest & Hc & ->)]; [done|].
  cbn in Ha. subst all. unfold tape_size. destruct (rc_number _ _ _ _ _ _ Hc) as [-> ->]. destruct D as [|c D _] using rev_ind; [done|].
  rewrite fmap_app, length_app, Nat.add_sub. change ([c].*2) with [c.2]. rewrite last_snoc. cbn [from_option].
  assert (Hch := rc_chunks _ _ _ _ _ _ Hc). rewrite fmap_app in Hch. change ([c].*2) with [c.2] in Hch. rewrite (chunked_length _ (length D) c.2 Hch).
  - rewrite drop_ge by (rewrite length_app, length_fmap; simpl; lia). simpl. lia.
  - rewrite lookup_app_r by (rewrite length_fmap; lia). by rewrite length_fmap, Nat.sub_diag.
Qed.

(** ** Operations of the state on its tapes *)

Section tapes.
Context {T K : Type} `{SM : !SortMethods T K} {Dm : Domain T} (valid : K -> Prop) `{HL : !SortMethodsLaws SM valid}.
Local Abbreviation state := (Tuplesortstate T K).

Definition on_tapes (s : state) (ts : list tape) : Prop := exists lts, tapeset s = Some lts /\ rep lts ts.
(** Only the memory account and the tapes changed. *)
Definition touched (s s' : state) : Prop := exists a l, s' = set_availMem a (set_tapeset (Some l) s).

Lemma touched_trans s s1 s2 : touched s s1 -> touched s1 s2 -> touched s s2.
Proof. intros (a & l & ->) (a' & l' & ->). by exists a', l'. Qed.
Lemma touched_tapeset s l : touched s (set_tapeset (Some l) s).
Proof. exists (availMem s), l. by destruct s. Qed.
Lemma touched_avail s a : tapeset s <> None -> touched s (set_availMem a s).
Proof. destruct (tapeset s) as [l|] eqn:E; [|done]. intros _. exists a, l. destruct s. simpl in E. by subst. Qed.

Lemma tape_op_ok s ts (f : LogicalTapeSet -> res LogicalTapeSet) ts' :
  on_tapes s ts -> (forall lts, rep lts ts -> exists lts', f lts = Ok lts' /\ rep lts' ts') ->
  exists l, tape_op f s = Ok (tt, set_tapeset (Some l) s) /\ on_tapes (set_tapeset (Some l) s) ts'.
Proof.
  intros (lts & Hs & Hr) Hf. destruct (Hf lts Hr) as (l & Hl & Hr'). exists l. split; [|by exists l].
  unfold tape_op, tapes, mbind, M_bind, mget, deref, lift_res, mmod. by rewrite Hs, Hl.
Qed.

Lemma tape_write_ok s ts i bs d : on_tapes s ts -> ts !! i = Some (written bs) ->
  exists l, tape_op (fun lts => LogicalTapeWrite lts i d) s = Ok (tt, set_tapeset (Some l) s) /\ on_tapes (set_tapeset (Some l) s) (<[i := written (bs ++ d)]> ts).
Proof. intros Hs Hi. apply (tape_op_ok s ts); [done|]. intros lts Hr. exact (write_ok lts ts i _ Hr Hi d _ (written_append bs d)). Qed.

Lemma tape_read_ok s ts i t fz all d left : on_tapes s ts -> ts !! i = Some t -> reading fz t all (d ++ left) ->
  exists l t', tape_read i (length d) s = Ok (d, set_tapeset (Some l) s) /\ on_tapes (set_tapeset (Some l) s) (<[i := t']> ts) /\ reading fz t' all left.
Proof.
  intros (lts & Hs & Hr) Hi Ht. destruct (reading_next _ _ _ _ _ Ht) as (t' & Hn & Ht'). destruct (read_ok lts ts i t Hr Hi _ _ _ Hn) as (l & Hl & Hr').
  exists l, t'. split_and!; [|by exists l|exact Ht']. unfold tape_read, tapes, mbind, M_bind, mget, deref, lift_res, mmod. by rewrite Hs, Hl.
Qed.

(** ** Tuples *)

(** What a length word and the body of a tuple look like; with random access the length word is repeated. *)
Definition length_word (x : SortTuple T) : list byte := uint32_bytes (Z.of_nat (length (tuple_body x) + SIZEOF_UINT)).
Definition enc_tuple (ra : bool) (x : SortTuple T) : list byte := length_word x ++ tuple_body x ++ if ra then length_word x else [].
Definition mark : list byte := uint32_bytes 0.
Definition enc_run (ra : bool) (r : list (SortTuple T)) : list byte := concat (enc_tuple ra <$> r) ++ mark.
Definition enc_runs (ra : bool) (rs : list (list (SortTuple T))) : list byte := concat (enc_run ra <$> rs).

(** Tuples that survive being written and read: the length fits its word, and readtup, which recomputes the leading key, gets
    the same tuple. *)
Definition good (k : K) (x : SortTuple T) : Prop :=
  (Z.of_nat (length (tuple_body x)) < 2 ^ 32 - 4)%Z /\ norm (tuple_of_body k (tuple_body x)) = norm x /\ in_domain x.

Lemma length_word_length x : length (length_word x) = SIZEOF_UINT.
Proof. done. Qed.
Lemma length_word_value k x : good k x -> bytes_uint32 (length_word x) = Z.of_nat (length (tuple_body x) + SIZEOF_UINT).
Proof. intros [H _]. apply uint32_roundtrip. unfold SIZEOF_UINT. lia. Qed.
Lemma enc_tuple_length ra x : 4 <= length (enc_tuple ra x).
Proof. unfold enc_tuple. rewrite length_app, length_word_length. unfold SIZEOF_UINT. lia. Qed.
Lemma enc_tuples_length ra r : length r <= length (concat (enc_tuple ra <$> r)).
Proof. induction r as [|x r IH]; [done|]. rewrite fmap_cons. cbn [concat length]. rewrite length_app. pose proof (enc_tuple_length ra x). lia. Qed.

Lemma getlen_mark_ok s ts i t fz all left : on_tapes s ts -> ts !! i = Some t -> reading fz t all (mark ++ left) ->
  exists l t', getlen i true s = Ok (0%Z, set_tapeset (Some l) s) /\ on_tapes (set_tapeset (Some l) s) (<[i := t']> ts) /\ reading fz t' all left.
Proof.
  intros Hs Hi Ht. destruct (tape_read_ok s ts i t fz all mark left Hs Hi Ht) as (l & t' & Hrd & Hs' & Ht'). exists l, t'. split_and!; [|done|done].
  unfold getlen. change SIZEOF_UINT with (length mark). rewrite (mbind_ok _ _ _ _ _ Hrd). by rewrite decide_True by done.
Qed.

(** A length word, then the tuple. *)
Lemma read_tuple_ok s ts i t fz all left x : good (scanKeys s) x -> on_tapes s ts -> ts !! i = Some t -> reading fz t all (enc_tuple (randomAccess s) x ++ left) ->
  exists len s1 y s' t', getlen i true s = Ok (len, s1) /\ (len =? 0)%Z = false /\ readtup i len s1 = Ok (y, s') /\ norm y = norm x /\
    touched s s' /\ on_tapes s' (<[i := t']> ts) /\ reading fz t' all left.
Proof.
  intros Hg Hs Hi Ht. unfold enc_tuple in Ht. rewrite <- !app_assoc in Ht. pose proof (lookup_lt_Some _ _ _ Hi) as Hlt.
  destruct (tape_read_ok s ts i t fz all (length_word x) _ Hs Hi Ht) as (l1 & t1 & Hr1 & Hs1 & Ht1). set (s1 := set_tapeset (Some l1) s) in *.
  assert (Hi1 : <[i := t1]> ts !! i = Some t1) by (by apply list_lookup_insert_eq).
  destruct (tape_read_ok s1 _ i t1 fz all (tuple_body x) _ Hs1 Hi1 Ht1) as (l2 & t2 & Hr2 & Hs2 & Ht2). rewrite list_insert_insert_eq in Hs2.
  set (s2 := set_tapeset (Some l2) s1) in *. assert (Hi2 : <[i := t2]> ts !! i = Some t2) by (by apply list_lookup_insert_eq).
  exists (Z.of_nat (length (tuple_body x) + SIZEOF_UINT)), s1.
  assert (Hbody : Z.to_nat (Z.of_nat (length (tuple_body x) + SIZEOF_UINT) - Z.of_nat SIZEOF_UINT) = length (tuple_body x)) by lia.
  assert (Hlast : exists s3 t3, (if randomAccess s2 then data ← tape_read i SIZEOF_UINT;
          if decide (length data = SIZEOF_UINT) then mret tt else elog "unexpected end of data" else mret tt) s2 = Ok (tt, s3) /\ touched s2 s3 /\
          on_tapes s3 (<[i := t3]> ts) /\ reading fz t3 all left).
  { change (randomAccess s2) with (randomAccess s). destruct (randomAccess s).
    - destruct (tape_read_ok s2 _ i t2 fz all (length_word x) _ Hs2 Hi2 Ht2) as (l3 & t3 & Hr3 & Hs3 & Ht3). rewrite list_insert_insert_eq in Hs3.
      exists (set_tapeset (Some l3) s2), t3. split_and!; [|apply touched_tapeset|exact Hs3|exact Ht3].
      change SIZEOF_UINT with (length (length_word x)) at 1. rewrite (mbind_ok _ _ _ _ _ Hr3). by rewrite decide_True by done.
    - exists s2, t2. split_and!; [done| |exact Hs2|exact Ht2]. exists (availMem s2), l2. done. }
  destruct Hlast as (s3 & t3 & Hr3 & Hto & Hs3 & Ht3).
  exists (tuple_of_body (scanKeys s) (tuple_body x)), (USEMEM (GetMemoryChunkSpace (tuple (tuple_of_body (scanKeys s) (tuple_body x)))) s3), t3.
  split_and!.
  - unfold getlen. change SIZEOF_UINT with (length (length_word x)) at 1. rewrite (mbind_ok _ _ _ _ _ Hr1). rewrite decide_True by done.
    rewrite (length_word_value _ _ Hg). replace (_ =? 0)%Z with false by (symmetry; apply Z.eqb_neq; unfold SIZEOF_UINT; lia). done.
  - apply Z.eqb_neq. unfold SIZEOF_UINT. lia.
  - unfold readtup. rewrite Hbody, (mbind_ok _ _ _ _ _ Hr2), decide_True by done. unfold mbind at 1, M_bind at 1, mget at 1.
    rewrite (mbind_ok _ _ _ _ _ Hr3). reflexivity.
  - apply Hg.
  - eapply touched_trans; [apply touched_tapeset|]. eapply touched_trans; [apply touched_tapeset|]. eapply touched_trans; [exact Hto|].
    apply touched_avail. by destruct Hs3 as (? & -> & _).
  - by destruct Hs3 as (l & ? & ?); exists l.
  - exact Ht3.
Qed.

Lemma writetup_ok s ts i bs x : on_tapes s ts -> ts !! i = Some (written bs) ->
  exists s', writetup i x s = Ok (tt, s') /\ touched s s' /\ on_tapes s' (<[i := written (bs ++ enc_tuple (randomAccess s) x)]> ts).
Proof.
  intros Hs Hi. pose proof (lookup_lt_Some _ _ _ Hi) as Hlt. unfold writetup.
  destruct (tape_write_ok s ts i bs (length_word x) Hs Hi) as (l1 & Hw1 & Hs1). set (s1 := set_tapeset (Some l1) s) in *.
  destruct (tape_write_ok s1 _ i _ (tuple_body x) Hs1 ltac:(by apply list_lookup_insert_eq)) as (l2 & Hw2 & Hs2). rewrite list_insert_insert_eq in Hs2.
  set (s2 := set_tapeset (Some l2) s1) in *. rewrite (mbind_ok _ _ _ _ _ Hw1), (mbind_ok _ _ _ _ _ Hw2). unfold mbind at 1, M_bind at 1, mget at 1.
  assert (Hlast : exists s3, (if randomAccess s2 then tape_op (fun lts => LogicalTapeWrite lts i (length_word x)) else mret tt) s2 = Ok (tt, s3) /\ touched s2 s3 /\
    on_tapes s3 (<[i := written (bs ++ enc_tuple (randomAccess s) x)]> ts)).
  { change (randomAccess s2) with (randomAccess s). unfold enc_tuple. destruct (randomAccess s).
    - destruct (tape_write_ok s2 _ i _ (length_word x) Hs2 ltac:(by apply list_lookup_insert_eq)) as (l3 & Hw3 & Hs3). rewrite list_insert_insert_eq in Hs3.
      rewrite <- !app_assoc in Hs3. eexists. split_and!; [exact Hw3|apply touched_tapeset|exact Hs3].
    - exists s2. rewrite app_nil_r. rewrite <- !app_assoc in Hs2. split_and!; [done| |exact Hs2]. by exists (availMem s2), l2. }
  destruct Hlast as (s3 & Hw3 & Hto & Hs3). rewrite (mbind_ok _ _ _ _ _ Hw3). eexists. split_and!; [reflexivity| |by destruct Hs3 as (l & ? & ?); exists l].
  eapply touched_trans; [apply touched_tapeset|]. eapply touched_trans; [apply touched_tapeset|]. eapply touched_trans; [exact Hto|].
  apply touched_avail. by destruct Hs3 as (? & -> & _).
Qed.

Lemma markrunend_ok s ts i bs : on_tapes s ts -> ts !! i = Some (written bs) ->
  exists l, markrunend i s = Ok (tt, set_tapeset (Some l) s) /\ on_tapes (set_tapeset (Some l) s) (<[i := written (bs ++ mark)]> ts).
Proof. apply tape_write_ok. Qed.
End tapes.
