(* ===== verification/Polyphase.v ===== *)
(** * Polyphase: how runs are distributed on the tapes

    The numbers of selectnewtape (steps D3 and D4 of Knuth's Algorithm 5.4.2D): at every level the numbers of runs
    and dummy runs on the input tapes add up to a perfect distribution, from which each pass of the merge goes down one level. *)

From S2P Require Import Prelude Order Compare Heap Qsort Tape LogTape Tuplesort InMemory.
Local Open Scope Z_scope.

(** The perfect distribution of level [L] on [P] tapes. *)
Definition next_fibs (f : list Z) : list Z := Z.add (f !!! 0%nat) <$> (tail f ++ [0]).
Fixpoint fibs (P L : nat) : list Z :=
  match L with
  | O => 1 :: replicate (P - 1) 0
  | S L => next_fibs (fibs P L)
  end.
(** As the array tp_fib[] has it, with the output tape. *)
Definition fib_array (P L : nat) : list Z := fibs P L ++ [0].

Lemma fibs_length P L : (0 < P)%nat -> length (fibs P L) = P.
Proof.
  intros HP. induction L as [|L IH]; cbn [fibs]; [cbn; rewrite length_replicate; lia|].
  unfold next_fibs. rewrite length_fmap, length_app. destruct (fibs P L); simpl in *; lia.
Qed.
Lemma fib_array_length P L : (0 < P)%nat -> length (fib_array P L) = S P.
Proof. intros HP. unfold fib_array. rewrite length_app, fibs_length by done. simpl. lia. Qed.
Lemma fib_array_end P L : (0 < P)%nat -> fib_array P L !!! P = 0.
Proof. intros HP. unfold fib_array. rewrite lookup_total_app_r by (rewrite fibs_length; lia). by rewrite fibs_length, Nat.sub_diag. Qed.
Lemma fibs_array P L i : (i < P)%nat -> fibs P L !!! i = fib_array P L !!! i.
Proof. intros Hi. unfold fib_array. by rewrite lookup_total_app_l by (rewrite fibs_length; lia). Qed.

Lemma fib_step P L i : (i < P)%nat -> fib_array P (S L) !!! i = fib_array P L !!! 0%nat + fib_array P L !!! S i.
Proof.
  intros Hi. rewrite <- (fibs_array P (S L)) by done. cbn [fibs]. unfold next_fibs.
  assert (Hlen := fibs_length P L ltac:(lia)). unfold fib_array. destruct (fibs P L) as [|a f] eqn:E; [simpl in Hlen; lia|]. cbn [tail app].
  rewrite (list_lookup_total_fmap (Z.add _) (f ++ [0]) i) by (rewrite length_app; simpl in *; lia). done.
Qed.

Lemma fib_one P i : (i < P)%nat -> fib_array P 1 !!! i = 1.
Proof.
  intros Hi. rewrite fib_step by done. assert (fib_array P 0 = 1 :: replicate P 0) as ->.
  { unfold fib_array. cbn [fibs app]. f_equal. change [0] with (replicate 1 0). rewrite <- replicate_add. f_equal. lia. }
  change ((1 :: replicate P 0) !!! S i) with (replicate P 0 !!! i). by rewrite lookup_total_replicate_2.
Qed.

(** Positive, not increasing, and concave down to the end mark. *)
Record shape (P : nat) (f : list Z) : Prop := {
  sh_pos : forall i, (i < P)%nat -> 1 <= f !!! i;
  sh_end : f !!! P = 0;
  sh_down : forall i, (i < P)%nat -> f !!! S i <= f !!! i;
  sh_concave : forall i, (S i < P)%nat -> f !!! S (S i) - f !!! S i <= f !!! S i - f !!! i }.

Lemma shape_first P f i : shape P f -> (i < P)%nat -> f !!! i <= f !!! 0%nat.
Proof. intros [_ _ Hd _]. induction i as [|i IH]; intros Hi; [lia|]. specialize (Hd i ltac:(lia)). specialize (IH ltac:(lia)). lia. Qed.

Lemma fib_array_shape P L : (2 <= P)%nat -> shape P (fib_array P (S L)).
Proof.
  intros HP. induction L as [|L IH].
  - pose proof (fib_one P) as H1.
    assert (H0 := fib_array_end P 1 ltac:(lia)). split; [intros i Hi; rewrite H1; lia|done| |].
    + intros i Hi. rewrite (H1 i) by done. destruct (decide (S i = P)) as [->|]; [lia|]. rewrite H1; lia.
    + intros i Hi. rewrite (H1 i), (H1 (S i)) by lia. destruct (decide (S (S i) = P)) as [->|]; [lia|]. rewrite H1; lia.
  - assert (H0 := fib_array_end P (S (S L)) ltac:(lia)). pose proof IH as [Hp He Hd Hc]. pose proof (Hp 0%nat ltac:(lia)). split.
    + intros i Hi. rewrite fib_step by done. destruct (decide (S i = P)) as [->|]; [lia|]. specialize (Hp (S i) ltac:(lia)). lia.
    + done.
    + intros i Hi. rewrite (fib_step _ _ i) by done. destruct (decide (S i = P)) as [->|]; [rewrite H0; lia|]. rewrite fib_step by lia. specialize (Hd (S i) ltac:(lia)). lia.
    + intros i Hi. rewrite (fib_step _ _ i), (fib_step _ _ (S i)) by lia. destruct (decide (S (S i) = P)) as [->|].
      * rewrite H0, He. pose proof (shape_first _ _ (S i) IH ltac:(lia)). lia.
      * rewrite fib_step by lia. specialize (Hc (S i) ltac:(lia)). lia.
Qed.

(** ** Runs and dummy runs *)

(** A run of tape [dest] has just ended: runs and dummies add up, and the tapes up to [dest] have had their share of this round. *)
Record numbers (P L : nat) (runs dummy : list Z) (dest : nat) : Prop := {
  nu_len : length runs = S P /\ length dummy = S P;
  nu_dest : (dest < P)%nat;
  nu_sum : forall i, (i < P)%nat -> runs !!! i + dummy !!! i = fib_array P L !!! i /\ 0 <= runs !!! i /\ 0 <= dummy !!! i;
  nu_end : runs !!! P = 0 /\ dummy !!! P = 0;
  nu_done : forall i, (i <= dest)%nat -> dummy !!! i = dummy !!! dest;
  nu_todo : forall i, (dest < i < P)%nat -> dummy !!! S i <= dummy !!! i;
  nu_next : dummy !!! S dest <= dummy !!! dest + 1 }.

(** A run of tape [dest] is being written. *)
Definition one_run (runs dummy : list Z) (dest : nat) : list Z * list Z := (<[dest := runs !!! dest + 1]> runs, <[dest := dummy !!! dest - 1]> dummy).
Definition upcoming (P L : nat) (runs dummy : list Z) (dest : nat) : Prop :=
  1 <= dummy !!! dest /\ let '(r, d) := one_run runs dummy dest in numbers P L r d dest.

Ltac at_index := repeat first [rewrite list_lookup_total_insert_eq by lia|rewrite list_lookup_total_insert_ne by lia].

Lemma numbers_bound P L runs dummy dest i : numbers P L runs dummy dest -> (dest < i <= P)%nat -> dummy !!! i <= dummy !!! S dest.
Proof.
  intros [_ _ _ _ _ Ht _] [H1 H2]. induction i as [|i IH]; [lia|]. destruct (decide (i = dest)) as [->|]; [lia|].
  specialize (Ht i ltac:(lia)). specialize (IH ltac:(lia) ltac:(lia)). lia.
Qed.

(** The three ways of selectnewtape. *)
Lemma next_tape P L runs dummy dest : numbers P L runs dummy dest -> dummy !!! dest < dummy !!! S dest -> upcoming P L runs dummy (S dest).
Proof.
  intros [[Hl1 Hl2] Hd Hs [He1 He2] H1 H2 H3] Hlt. destruct (Hs dest Hd) as (_ & _ & Hdd).
  assert (Hd' : (S dest < P)%nat) by (destruct (decide (S dest = P)) as [<-|]; lia).
  split; [lia|]. unfold one_run. split; rewrite ?length_insert; [done|done| | | | |].
  - intros i Hi. destruct (Hs i Hi) as (Ha & Hb & Hc). destruct (decide (i = S dest)) as [->|]; at_index; lia.
  - at_index. lia.
  - intros i Hi. destruct (decide (i = S dest)) as [->|]; at_index; [done|]. rewrite (H1 i) by lia. lia.
  - intros i Hi. at_index. apply H2. lia.
  - at_index. specialize (H2 (S dest) ltac:(lia)). lia.
Qed.

Lemma first_tape P L runs dummy dest : numbers P L runs dummy dest -> dummy !!! S dest <= dummy !!! dest -> dummy !!! dest <> 0 -> upcoming P L runs dummy 0.
Proof.
  intros Hn Hle Hne. pose proof (numbers_bound P L runs dummy dest) as Hb. pose proof Hn as [[Hl1 Hl2] Hd Hs [He1 He2] H1 H2 H3].
  destruct (Hs dest Hd) as (_ & _ & Hdd). pose proof (H1 0%nat ltac:(lia)) as H0.
  split; [lia|]. unfold one_run. split; rewrite ?length_insert; [done|lia| | | | |].
  - intros i Hi. destruct (Hs i Hi) as (Ha & Hb' & Hc). destruct (decide (i = 0%nat)) as [->|]; at_index; lia.
  - at_index. lia.
  - intros i Hi. by replace i with 0%nat by lia.
  - intros i Hi. at_index. destruct (decide (i < dest)%nat); [rewrite (H1 i), (H1 (S i)) by lia; lia|].
    destruct (decide (i = dest)) as [->|]; [done|]. apply H2. lia.
  - at_index. destruct (decide (dest = 0%nat)) as [->|]; [lia|]. rewrite (H1 1%nat) by lia. lia.
Qed.

(** The dummies of the next level are what it has more. *)
Lemma next_level P L runs dummy dummy' dest : (2 <= P)%nat -> (1 <= L)%nat -> numbers P L runs dummy dest -> dummy !!! S dest <= dummy !!! dest -> dummy !!! dest = 0 ->
  length dummy' = S P -> (forall i, (i < P)%nat -> dummy' !!! i = fib_array P (S L) !!! i - fib_array P L !!! i) -> dummy' !!! P = 0 ->
  upcoming P (S L) runs dummy' 0.
Proof.
  intros HP HL Hn Hle Hz Hl' Hd' He'. pose proof (numbers_bound P L runs dummy dest) as Hb. pose proof Hn as [[Hl1 Hl2] Hd Hs [He1 He2] H1 H2 H3].
  destruct L as [|L]; [lia|]. pose proof (fib_array_shape P L HP) as [Sp Se Sd Sc].
  assert (Hall : forall i, (i < P)%nat -> dummy !!! i = 0).
  { intros i Hi. destruct (Hs i Hi) as (_ & _ & Hc). destruct (decide (i <= dest)%nat); [rewrite (H1 i); lia|]. specialize (Hb i Hn ltac:(lia)). lia. }
  assert (Hnew : forall i, (i < P)%nat -> dummy' !!! i = fib_array P (S L) !!! 0%nat + fib_array P (S L) !!! S i - fib_array P (S L) !!! i).
  { intros i Hi. rewrite Hd', fib_step by done. lia. }
  assert (Hdown : forall i, (S i < P)%nat -> dummy' !!! S i <= dummy' !!! i).
  { intros i Hi. rewrite !Hnew by lia. specialize (Sc i ltac:(lia)). lia. }
  assert (Hlast : 0 <= dummy' !!! (P - 1)%nat).
  { rewrite Hnew by lia. replace (S (P - 1)) with P by lia. rewrite Se. pose proof (shape_first P (fib_array P (S L)) (P - 1) (fib_array_shape P L HP) ltac:(lia)). lia. }
  assert (Hpos : forall j, (j < P)%nat -> 0 <= dummy' !!! (P - 1 - j)%nat).
  { induction j as [|j IH]; intros Hj; [by rewrite Nat.sub_0_r|]. specialize (IH ltac:(lia)). specialize (Hdown (P - 1 - S j)%nat ltac:(lia)).
    replace (S (P - 1 - S j)) with (P - 1 - j)%nat in Hdown by lia. lia. }
  assert (H0 : 1 <= dummy' !!! 0%nat) by (rewrite Hnew by lia; specialize (Sp 1%nat ltac:(lia)); lia).
  split; [done|]. unfold one_run. split; rewrite ?length_insert; [done|lia| | | | |].
  - intros i Hi. destruct (Hs i Hi) as (Ha & Hb' & Hc). specialize (Hall i Hi). specialize (Hd' i Hi). specialize (Hpos (P - 1 - i)%nat ltac:(lia)).
    replace (P - 1 - (P - 1 - i))%nat with i in Hpos by lia. destruct (decide (i = 0%nat)) as [->|]; at_index; lia.
  - at_index. done.
  - intros i Hi. by replace i with 0%nat by lia.
  - intros i Hi. at_index. destruct (decide (S i = P)) as [E|]; [|apply Hdown; lia]. rewrite E, He'. specialize (Hpos (P - 1 - i)%nat ltac:(lia)).
    replace (P - 1 - (P - 1 - i))%nat with i in Hpos by lia. lia.
  - at_index. specialize (Hdown 0%nat ltac:(lia)). lia.
Qed.

(** ** selectnewtape *)

Lemma total_ext (l l' : list Z) : length l = length l' -> (forall i, (i < length l)%nat -> l !!! i = l' !!! i) -> l = l'.
Proof.
  intros Hl H. apply (list_eq_same_length _ _ (length l)); [done|done|]. intros i x y Hi Hx Hy.
  apply list_lookup_total_correct in Hx, Hy. rewrite <- Hx, <- Hy. by apply H.
Qed.
Lemma lookup_total_eq (l : list Z) i : (i < length l)%nat -> l !! i = Some (l !!! i).
Proof. apply list_lookup_lookup_total_lt. Qed.

Lemma increase_level_spec k : forall j a fib dummy, (j + k < length fib)%nat -> length dummy = length fib ->
  exists fib' dummy', increase_level k j a fib dummy = Some (fib', dummy') /\ length fib' = length fib /\ length dummy' = length fib /\
    forall i, fib' !!! i = (if decide (j <= i < j + k)%nat then a + fib !!! S i else fib !!! i) /\
              dummy' !!! i = (if decide (j <= i < j + k)%nat then a + fib !!! S i - fib !!! i else dummy !!! i).
Proof.
  induction k as [|k IH]; intros j a fib dummy Hj Hl.
  { exists fib, dummy. split_and!; try done. intros i. by rewrite !decide_False by lia. }
  cbn [increase_level]. rewrite (lookup_total_eq fib j), (lookup_total_eq fib (S j)) by lia. cbn [mbind option_bind].
  destruct (IH (S j) a (<[j := a + fib !!! S j]> fib) (<[j := a + fib !!! S j - fib !!! j]> dummy)) as (fib' & dummy' & He & H1 & H2 & H3); [rewrite ?length_insert; lia..|].
  rewrite length_insert in H1, H2. exists fib', dummy'. split_and!; try done. intros i. destruct (H3 i) as [-> ->].
  destruct (decide (i = j)) as [->|Hne].
  - rewrite !(decide_False (P := (S j <= j < S j + k)%nat)) by lia. rewrite !decide_True by lia. by rewrite !list_lookup_total_insert_eq by lia.
  - destruct (decide (S j <= i < S j + k)%nat) as [Hin|Hout].
    + rewrite !decide_True by lia. by rewrite !list_lookup_total_insert_ne by lia.
    + rewrite !decide_False by lia. by rewrite !list_lookup_total_insert_ne by lia.
Qed.

Section selectnewtape.
Context {T K : Type}.
Local Abbreviation state := (Tuplesortstate T K).

(** The state of the distribution; what else there is does not matter. *)
Definition moved_on (dest L : nat) (dummy : list Z) (s : state) : state :=
  set_destTape dest (set_tp_fib (fib_array (tapeRange s) L) (set_tp_dummy dummy (set_Level (Z.of_nat L) s))).

Lemma selectnewtape_ok (s : state) L : let P := tapeRange s in
  (2 <= P)%nat -> (1 <= L)%nat -> Level s = Z.of_nat L -> tp_fib s = fib_array P L -> numbers P L (tp_runs s) (tp_dummy s) (destTape s) ->
  exists dest L' dummy', selectnewtape s = Ok (tt, moved_on dest L' dummy' s) /\ (1 <= L')%nat /\ upcoming P L' (tp_runs s) dummy' dest.
Proof.
  intros P HP HL HLv Hf Hn. pose proof Hn as [[Hl1 Hl2] Hd Hs [He1 He2] H1 H2 H3]. pose proof (fib_array_length P L ltac:(lia)) as Hfl.
  assert (Hsame : forall dest, moved_on dest L (tp_dummy s) s = set_destTape dest s).
  { intros dest. unfold moved_on. fold P. rewrite <- Hf, <- HLv. by destruct s. }
  unfold selectnewtape. rewrite mget_ok. erewrite !at_idx_ok by (apply lookup_total_eq; lia).
  destruct (Z.ltb_spec (tp_dummy s !!! destTape s) (tp_dummy s !!! S (destTape s))) as [Hlt|Hge].
  { exists (S (destTape s)), L, (tp_dummy s). rewrite Hsame. split_and!; [done|done|]. by apply next_tape. }
  destruct (Z.eqb_spec (tp_dummy s !!! destTape s) 0) as [Hz|Hnz]; cbn [negb].
  2:{ exists 0%nat, L, (tp_dummy s). rewrite Hsame. split_and!; [done|done|]. by eapply first_tape. }
  rewrite Hf. erewrite at_idx_ok by (apply lookup_total_eq; lia).
  destruct (increase_level_spec P 0 (fib_array P L !!! 0%nat) (fib_array P L) (tp_dummy s)) as (fib' & dummy' & He & Hfl' & Hdl' & Hnew); [lia|lia|].
  fold P. rewrite He. unfold mbind at 1, M_bind at 1, deref at 1.
  assert (fib' = fib_array P (S L)) as ->.
  { apply total_ext; [rewrite (fib_array_length P (S L)); lia|]. intros i Hi. destruct (Hnew i) as [-> _]. case_decide; [by rewrite fib_step by lia|].
    replace i with P by lia. by rewrite !fib_array_end by lia. }
  exists 0%nat, (S L), dummy'. split_and!; [|lia|].
  - replace (Level s + 1) with (Z.of_nat (S L)) by lia. reflexivity.
  - apply (next_level P L (tp_runs s) (tp_dummy s) dummy' (destTape s)); try done; [lia| |].
    + intros i Hi. destruct (Hnew i) as [_ ->]. rewrite decide_True, fib_step by lia. done.
    + destruct (Hnew P) as [_ ->]. by rewrite decide_False by lia.
Qed.
End selectnewtape.

(** The state inittapes sets up. *)
Lemma fib_array_start P : (2 <= P)%nat -> <[P := 0]> (replicate (S P) 1) = fib_array P 1.
Proof.
  intros HP. apply total_ext; rewrite length_insert, length_replicate, ?fib_array_length by lia; [done|]. intros i Hi.
  destruct (decide (i = P)) as [->|]; [rewrite list_lookup_total_insert_eq, fib_array_end by (rewrite ?length_replicate; lia); done|].
  by rewrite list_lookup_total_insert_ne, lookup_total_replicate_2, fib_one by lia.
Qed.
Lemma upcoming_start P : (2 <= P)%nat -> upcoming P 1 (replicate (S P) 0) (fib_array P 1) 0.
Proof.
  intros HP. pose proof (fib_array_length P 1 ltac:(lia)) as Hl. pose proof (fib_array_end P 1 ltac:(lia)) as He.
  assert (Hrl : length (replicate (S P) 0) = S P) by apply length_replicate.
  assert (Hr : forall i, (i < S P)%nat -> replicate (S P) 0 !!! i = 0) by (intros; by rewrite lookup_total_replicate_2).
  pose proof (fib_one P) as H1. set (rs := replicate (S P) 0) in *. clearbody rs.
  split; [rewrite H1; lia|]. unfold one_run. split; rewrite ?length_insert; [done|lia| | | | |].
  - intros i Hi. rewrite !Hr, !H1 by lia. destruct (decide (i = 0%nat)) as [->|]; at_index; [|rewrite Hr, H1 by lia]; lia.
  - at_index. rewrite Hr by lia. done.
  - intros i Hi. by replace i with 0%nat by lia.
  - intros i Hi. at_index. rewrite (H1 i) by lia. destruct (decide (S i = P)) as [->|]; [lia|]. rewrite H1; lia.
  - at_index. rewrite !H1 by lia. lia.
Qed.

(** ** Any number of runs *)

(** dumptuples at the end of a run that is not the last: the counts change and another tape is selected. *)
Definition end_run_counts {T K} : M (Tuplesortstate T K) unit :=
  s ← mget;
  r ← at_idx (tp_runs s) (destTape s);
  d ← at_idx (tp_dummy s) (destTape s);
  mput (set_currentRun (currentRun s + 1) (set_tp_runs (<[destTape s := r + 1]> (tp_runs s)) (set_tp_dummy (<[destTape s := d - 1]> (tp_dummy s)) s))).
Fixpoint end_runs {T K} (n : nat) : M (Tuplesortstate T K) unit :=
  match n with O => mret tt | S n => end_run_counts;; selectnewtape;; end_runs n end.

Definition sum_runs (l : list Z) : Z := foldr Z.add 0 l.
Lemma sum_runs_insert l i z : (i < length l)%nat -> sum_runs (<[i := z]> l) = sum_runs l - l !!! i + z.
Proof.
  unfold sum_runs. revert i. induction l as [|x l IH]; intros [|i] Hi; simpl in *; [lia..|]. change ((x :: l) !!! S i) with (l !!! i). rewrite IH by lia. lia.
Qed.

Lemma end_runs_ok {T K} n : forall (s : Tuplesortstate T K) L, let P := tapeRange s in
  (2 <= P)%nat -> (1 <= L)%nat -> Level s = Z.of_nat L -> tp_fib s = fib_array P L -> upcoming P L (tp_runs s) (tp_dummy s) (destTape s) -> Forall (Z.le 0) (tp_runs s) ->
  exists s' L', end_runs n s = Ok (tt, s') /\ (1 <= L')%nat /\ Level s' = Z.of_nat L' /\ tp_fib s' = fib_array P L' /\
    upcoming P L' (tp_runs s') (tp_dummy s') (destTape s') /\ Forall (Z.le 0) (tp_runs s') /\ sum_runs (tp_runs s') = sum_runs (tp_runs s) + Z.of_nat n.
Proof.
  induction n as [|n IH]; intros s L P HP HL HLv Hf Hu Hpos; cbn [end_runs].
  { exists s, L. split_and!; try done. lia. }
  destruct Hu as [_ Hn]. pose proof Hn as [[Hl1 Hl2] Hd _ _ _ _ _]. rewrite length_insert in Hl1, Hl2.
  set (s1 := set_currentRun (currentRun s + 1) (set_tp_runs (<[destTape s := tp_runs s !!! destTape s + 1]> (tp_runs s)) (set_tp_dummy (<[destTape s := tp_dummy s !!! destTape s - 1]> (tp_dummy s)) s))).
  assert (H1 : end_run_counts s = Ok (tt, s1)).
  { unfold end_run_counts. rewrite mget_ok. erewrite !at_idx_ok by (apply lookup_total_eq; lia). done. }
  rewrite (mbind_ok _ _ _ _ _ H1). destruct (selectnewtape_ok s1 L HP HL HLv Hf Hn) as (dest & L' & dummy' & Hsel & HL' & Hu'). rewrite (mbind_ok _ _ _ _ _ Hsel).
  assert (Hpos' : Forall (Z.le 0) (<[destTape s := tp_runs s !!! destTape s + 1]> (tp_runs s))).
  { apply Forall_insert; [done|]. rewrite Forall_lookup in Hpos. pose proof (Hpos _ _ (lookup_total_eq (tp_runs s) (destTape s) ltac:(lia))). simpl in *. lia. }
  destruct (IH (moved_on dest L' dummy' s1) L' HP HL' eq_refl eq_refl Hu' Hpos') as (s' & L2 & Hrun & H2 & H3 & H4 & H5 & H5' & H6). exists s', L2. split_and!; try done.
  rewrite H6. change (tp_runs (moved_on dest L' dummy' s1)) with (<[destTape s := tp_runs s !!! destTape s + 1]> (tp_runs s)). rewrite sum_runs_insert by lia. lia.
Qed.

(** C27: The polyphase distribution.  From the state inittapes sets up for [P] input tapes, however many runs are written, after each
    run selectnewtape succeeds and selects an input tape; the runs and dummy runs of the input tapes always add up to the
    generalized Fibonacci numbers of the level (which is where Knuth's Algorithm D can merge with no tape running out early), neither number is ever negative, the
    output tape has none, and no run is forgotten. *)
Theorem runs_distributed_perfectly {T K} P n (s : Tuplesortstate T K) :
  (2 <= P)%nat -> tapeRange s = P -> Level s = 1 -> tp_fib s = fib_array P 1 -> tp_dummy s = fib_array P 1 -> tp_runs s = replicate (S P) 0 -> destTape s = 0%nat ->
  exists s' L, end_runs n s = Ok (tt, s') /\ (1 <= L)%nat /\ Level s' = Z.of_nat L /\ (destTape s' < P)%nat /\ sum_runs (tp_runs s') = Z.of_nat n /\
    tp_runs s' !!! P = 0 /\ tp_dummy s' !!! P = 0 /\
    forall i, (i < P)%nat -> tp_runs s' !!! i + tp_dummy s' !!! i = fibs P L !!! i /\ 0 <= tp_runs s' !!! i /\ 0 <= tp_dummy s' !!! i.
Proof.
  intros HP HR HL Hf Hd Hr H0. subst P. destruct (end_runs_ok n s 1 HP ltac:(lia) HL Hf) as (s' & L & Hrun & HL' & HLv & _ & [Hd1 Hn] & Hpos & Hsum).
  { rewrite Hr, Hd, H0. by apply upcoming_start. }
  { rewrite Hr. apply Forall_replicate. lia. }
  pose proof Hn as [[Hl1 Hl2] Hdest Hs [He1 He2] _ _ _]. rewrite length_insert in Hl1, Hl2. exists s', L. split_and!; try done.
  - rewrite Hsum, Hr. assert (E : forall m, sum_runs (replicate m 0) = 0) by (induction m as [|m IH]; [done|exact IH]). rewrite E. lia.
  - revert He1. at_index. done.
  - revert He2. at_index. done.
  - intros i Hi. destruct (Hs i Hi) as (S1 & S2 & S3). rewrite (fibs_array _ _ _ Hi), <- S1. rewrite Forall_lookup in Hpos. pose proof (Hpos _ _ (lookup_total_eq (tp_runs s') i ltac:(lia))).
    revert S2 S3. destruct (decide (i = destTape s')) as [->|]; at_index; simpl in *; lia.
Qed.

Definition demo_dist : Tuplesortstate unit unit :=
  mkTuplesortstate TSS_BUILDRUNS false false false 0 0 0 4 3 None tt [] 0 0 [] [] [] [] [] 0 0 1 0 (fib_array 3 1) (replicate 4 0) (fib_array 3 1) [] 0 (-1) 0 false 0 0 false.
Lemma runs_distributed_perfectly_witness :
  exists s', end_runs 7 demo_dist = Ok (tt, s') /\ tp_runs s' = [4; 2; 1; 0] /\ tp_dummy s' = [0; 1; 1; 0] /\ Level s' = 3 /\ sum_runs (tp_runs s') = 7.
Proof.
  destruct (runs_distributed_perfectly 3 7 demo_dist) as (s' & L & Hrun & _ & _ & _ & Hsum & _); [lia|reflexivity..|].
  exists s'. split; [exact Hrun|]. vm_compute in Hrun. injection Hrun as <-. split_and!; [reflexivity..|exact Hsum].
Defined.
