(* ===== verification/BuildRuns.v ===== *)
(** * BuildRuns: the initial runs of an external sort

    inittapes, dumptuples and puttuple_common once the input does not fit: replacement selection writes sorted runs to the tapes.
    The heap is ordered by the number of the run first; a tuple that comes too late for the current run waits for the next. *)

From S2P Require Import Prelude Order Compare Heap Qsort Tape LogTape Tuplesort InMemory RunTapes Polyphase.
From Stdlib Require Import Permutation.

(** tupindex is bookkeeping of the sort and does not go to tape. *)
Class TapeMethodsLaws {T K} (SM : SortMethods T K) : Prop := {
  sm_body : forall i x, tuple_body (with_tupindex i x) = tuple_body x }.
#[export] Instance heap_methods_tape_laws heap_getattr chunk_space space : TapeMethodsLaws (heap_methods heap_getattr chunk_space space).
Proof. by split. Qed.

Section BuildRuns.
Context {T K : Type} `{SM : !SortMethods T K} {Dm : Domain T} (valid : K -> Prop) `{HL : !SortMethodsLaws SM valid} `{HT : !TapeMethodsLaws SM}.
Local Abbreviation state := (Tuplesortstate T K).
Implicit Types s : state.

Lemma norm_norm (x : SortTuple T) : norm (norm x) = norm x.
Proof. by destruct x. Qed.
Lemma norm_map (l : list (SortTuple T)) : norm <$> (norm <$> l) = norm <$> l.
Proof. rewrite <- list_fmap_compose. apply list_fmap_ext. intros. apply norm_norm. Qed.
Lemma cmp_norm k (x y : SortTuple T) : comparetup k (norm x) (norm y) = comparetup k x y.
Proof using HL. apply (sm_tupindex (valid := valid)). Qed.
Lemma enc_norm ra (x : SortTuple T) : enc_tuple ra (norm x) = enc_tuple ra x.
Proof using HT. unfold enc_tuple, length_word. unfold norm. by rewrite !sm_body. Qed.

(** ** The heap of runs *)

(** The order of HEAPCOMPARE with checkIndex: the run number first. *)
Definition run_order (k : K) (x y : SortTuple T) : Z :=
  if negb (tupindex x =? tupindex y)%Z then (tupindex x - tupindex y)%Z else comparetup k x y.

Section heap.
Context (k : K) (Hk : valid k).
Local Abbreviation byrun := (run_order k).

#[local] Instance byrun_laws : CmpLaws byrun.
Proof using Hk HL.
  pose proof (sm_cmp k Hk) as HC.
  apply (sgn_laws (lex (fun a b => tupindex a - tupindex b)%Z (comparetup k))).
  - apply lex_laws; [split; intros; lia|exact HC].
  - intros x y. unfold run_order, lex. destruct (Z.eqb_spec (tupindex x) (tupindex y)) as [E|E]; cbn [andb negb].
    + by rewrite decide_True by lia.
    + by rewrite decide_False by lia.
Qed.

Lemma byrun_le x y : (byrun x y <= 0)%Z <-> (tupindex x < tupindex y)%Z \/ (tupindex x = tupindex y /\ (comparetup k x y <= 0)%Z).
Proof using. unfold run_order. destruct (Z.eqb_spec (tupindex x) (tupindex y)); cbn [andb negb]; lia. Qed.

Lemma insert_run_ok s x i :
  scanKeys s = k -> heap_ok byrun (memtuples s) (memtupcount s) -> memtupcount s < memtupsize s -> in_domain x -> Forall in_domain (in_heap s) ->
  exists mt, tuplesort_heap_insert x i true s = Ok (tt, set_memtupcount (S (memtupcount s)) (set_memtuples mt s)) /\ length mt = memtupsize s /\
    heap_ok byrun mt (S (memtupcount s)) /\ take (S (memtupcount s)) mt ≡ₚ with_tupindex i x :: in_heap s.
Proof using Hk HL.
  intros Hs Hok Hn Hx Hd. destruct (heap_insert_spec byrun (HEAPCOMPARE k true) in_domain (fun a b => heapcompare_ok valid k true a b Hk)
    (memtuples s) (memtupcount s) (with_tupindex i x) Hok Hn) as (mt & He & Hl & Hok' & Hp & _); [by apply (in_domain_norm valid)|done|].
  exists mt. split_and!; try done. unfold tuplesort_heap_insert, lift_res. rewrite mget_ok, Hs, He. done.
Qed.
Lemma siftup_run_ok s root :
  scanKeys s = k -> heap_ok byrun (memtuples s) (memtupcount s) -> 0 < memtupcount s -> memtupcount s <= memtupsize s -> memtuples s !! 0 = Some root ->
  Forall in_domain (in_heap s) ->
  exists mt, tuplesort_heap_siftup true s = Ok (tt, set_memtupcount (memtupcount s - 1) (set_memtuples mt s)) /\ length mt = memtupsize s /\
    heap_ok byrun mt (memtupcount s - 1) /\ in_heap s ≡ₚ root :: take (memtupcount s - 1) mt.
Proof using Hk HL.
  intros Hs Hok Hn Hle Hr Hd. destruct (heap_siftup_spec byrun (HEAPCOMPARE k true) in_domain (fun a b => heapcompare_ok valid k true a b Hk)
    (memtuples s) (memtupcount s) root Hok Hn Hle Hr Hd) as (mt & He & Hl & Hok' & Hp & _).
  exists mt. split_and!; try done. unfold tuplesort_heap_siftup, lift_res. rewrite mget_ok, Hs, He. done.
Qed.
Lemma root_run_least s root x : heap_ok byrun (memtuples s) (memtupcount s) -> memtupcount s <= memtupsize s -> memtuples s !! 0 = Some root -> x ∈ in_heap s ->
  (byrun root x <= 0)%Z.
Proof using Hk HL. intros Hok Hle Hr Hx. by eapply (heap_root_least byrun (memtuples s) (memtupcount s)). Qed.
End heap.

(** ** The state of the distribution *)

(** What does not change once the tapes are there. *)
Record env (P : nat) (k : K) (ra : bool) (s : state) : Prop := {
  e_range : 2 <= P /\ tapeRange s = P /\ maxTapes s = S P;
  e_keys : scanKeys s = k;
  e_ra : randomAccess s = ra;
  e_room : 2 * S P <= memtupsize s;
  e_arrays : length (mergeactive s) = S P /\ length (mergenext s) = S P /\ length (mergelast s) = S P /\
             length (mergeavailslots s) = S P /\ length (mergeavailmem s) = S P }.

(** The runs [rs] are on the tapes, and the tuples [cur] of a run not finished on tape [dest]. *)
Definition runs_written (ra : bool) (ts : list tape) (rs : list (list (list (SortTuple T)))) (dest : nat) (cur : list (SortTuple T)) : Prop :=
  length ts = length rs /\
  forall i r, rs !! i = Some r -> ts !! i = Some (written (enc_runs ra r ++ if decide (i = dest) then concat (enc_tuple ra <$> cur) else [])).

(** [rs] are the finished runs of each tape and [cur] the run that is being written (unless [w] is false: then a run just
    ended); what was put in is there or still in the heap. *)
Record building (w : bool) (P : nat) (k : K) (ra : bool) (s : state) (rs : list (list (list (SortTuple T)))) (cur ins : list (SortTuple T)) : Prop := {
  b_env : env P k ra s;
  b_status : status s = TSS_BUILDRUNS;
  b_tapenum : tp_tapenum s = seq 0 (S P);
  b_level : exists L, 1 <= L /\ Level s = Z.of_nat L /\ tp_fib s = fib_array P L /\
    (if w then upcoming P L (tp_runs s) (tp_dummy s) (destTape s) else numbers P L (tp_runs s) (tp_dummy s) (destTape s));
  b_runs : tp_runs s = (fun r => Z.of_nat (length r)) <$> rs;
  b_tapes : exists ts, on_tapes s ts /\ runs_written ra ts rs (destTape s) cur;
  b_sorted : Forall (Forall (sorted (comparetup k))) rs;
  b_cur : sorted (comparetup k) cur;
  b_count : currentRun s = Z.of_nat (length (concat rs));
  b_heap : heap_ok (run_order k) (memtuples s) (memtupcount s) /\ memtupcount s <= memtupsize s;
  b_index : forall x, x ∈ in_heap s -> tupindex x = currentRun s \/ tupindex x = (currentRun s + 1)%Z;
  b_late : forall x y, x ∈ cur -> y ∈ in_heap s -> tupindex y = currentRun s -> (comparetup k x y <= 0)%Z;
  b_all : concat (concat rs) ++ cur ++ (norm <$> in_heap s) ≡ₚ norm <$> ins;
  b_domain : Forall in_domain ins }.

Lemma building_domain w P k ra s rs cur ins : building w P k ra s rs cur ins -> Forall in_domain (in_heap s).
Proof using HL.
  intros H. pose proof (b_domain _ _ _ _ _ _ _ _ H) as Hd. apply Forall_forall. intros x Hx.
  assert (Hn : norm x ∈ norm <$> ins) by (rewrite <- (b_all _ _ _ _ _ _ _ _ H), !elem_of_app; right; right; by apply list_elem_of_fmap_2).
  apply list_elem_of_fmap in Hn as (y & E & Hy). rewrite Forall_forall in Hd. apply Hd in Hy.
  apply (sm_domain (valid := valid) 0). change (in_domain (norm x)). rewrite E. by apply (sm_domain (valid := valid)).
Qed.

Lemma upcoming_dest P L runs dummy dest : upcoming P L runs dummy dest -> dest < P /\ length runs = S P /\ length dummy = S P.
Proof. intros [_ [[H1 H2] H3 _ _ _ _ _]]. rewrite length_insert in H1, H2. done. Qed.

Lemma building_dest P k ra s rs cur ins : building true P k ra s rs cur ins -> destTape s < P /\ length rs = S P /\ length (tp_dummy s) = S P.
Proof.
  intros H. destruct (b_level _ _ _ _ _ _ _ _ H) as (L & _ & _ & _ & Hu). apply upcoming_dest in Hu as (? & Hl & ?).
  rewrite (b_runs _ _ _ _ _ _ _ _ H), length_fmap in Hl. done.
Qed.

(** One tuple goes from the heap to the tape. *)
Lemma dump_tuple P k ra s rs cur ins top : valid k ->
  building true P k ra s rs cur ins -> 0 < memtupcount s -> memtuples s !! 0 = Some top -> tupindex top = currentRun s ->
  exists s0 s1, writetup (destTape s) top s = Ok (tt, s0) /\ tuplesort_heap_siftup true s0 = Ok (tt, s1) /\
    building true P k ra s1 rs (cur ++ [norm top]) ins /\ memtupcount s1 = memtupcount s - 1 /\ memtupsize s1 = memtupsize s /\ destTape s1 = destTape s.
Proof using HL HT.
  intros Hv HB Hn Htop Hidx. pose proof (sm_cmp k Hv) as HC. pose proof (building_dest _ _ _ _ _ _ _ HB) as (Hd & Hrl & _). pose proof (building_domain _ _ _ _ _ _ _ _ HB) as Hdm.
  destruct HB as [[[HP2 [HP Hmx]] Hk Hra Hrm Har] Hst Htn Hlv Hru (ts & Hon & Htl & Hts) Hso Hcu Hct [Hok Hle] Hix Hla Hal].
  destruct (lookup_lt_is_Some_2 rs (destTape s)) as [r Hr]; [lia|]. pose proof (Hts _ _ Hr) as Ht. rewrite decide_True in Ht by done.
  destruct (writetup_ok s ts (destTape s) _ top Hon Ht) as (s0 & Hw & (a & l & ->) & Hon0). rewrite Hra in Hon0.
  set (s0 := set_availMem a (set_tapeset (Some l) s)) in *.
  destruct (siftup_run_ok k Hv s0 top) as (mt & Hsift & Hml & Hok' & Hp); [done..|]. eexists s0, _. split; [exact Hw|]. split; [exact Hsift|].
  change (in_heap s0) with (in_heap s) in Hp. change (memtupcount s0) with (memtupcount s) in *.
  assert (Htin : top ∈ in_heap s) by (rewrite Hp; by left).
  assert (Hsub : forall y, y ∈ take (memtupcount s - 1) mt -> y ∈ in_heap s) by (intros y Hy; rewrite Hp; by right).
  split_and!; [|done|done|done]. split; cbn; try done.
  - split; cbn; try done. unfold memtupsize in *. cbn in *. lia.
  - exists (<[destTape s := written (enc_runs ra r ++ concat (enc_tuple ra <$> cur ++ [norm top]))]> ts). split; [|split].
    + rewrite fmap_app, concat_app. cbn [fmap list_fmap concat]. rewrite app_nil_r, enc_norm, app_assoc. exact Hon0.
    + by rewrite length_insert.
    + intros i r' Hr'. destruct (decide (i = destTape s)) as [->|Hne]; [|rewrite list_lookup_insert_ne by done; specialize (Hts _ _ Hr'); by rewrite decide_False in Hts].
      rewrite list_lookup_insert_eq by (rewrite Htl; by eapply lookup_lt_Some). congruence.
  - apply (sorted_snoc (comparetup k)); [exact Hcu|]. intros y Hy. unfold norm. rewrite (cmp_norm_r valid). by apply Hla.
  - split; [done|]. unfold memtupsize. cbn. change (memtupsize s0) with (memtupsize s) in Hml. lia.
  - intros x Hx. unfold in_heap in Hx. cbn in Hx. by apply Hix, Hsub.
  - intros x y Hx Hy Ey. unfold in_heap in Hy. cbn in Hy. apply elem_of_app in Hx as [Hx| ->%list_elem_of_singleton]; [apply Hla; auto|].
    unfold norm. rewrite (cmp_norm_l valid).
    pose proof (root_run_least k Hv s top y Hok Hle Htop (Hsub _ Hy)) as Hl. apply byrun_le in Hl as [Hl|[_ Hl]]; [lia|done].
  - unfold in_heap. cbn. rewrite <- Hal, Hp. cbn. rewrite <- !app_assoc. cbn. done.
Qed.

(** The run ends: its mark is written and the counts change. *)
Definition run_ended (s : state) : state :=
  set_currentRun (currentRun s + 1)
    (set_tp_runs (<[destTape s := (tp_runs s !!! destTape s + 1)%Z]> (tp_runs s)) (set_tp_dummy (<[destTape s := (tp_dummy s !!! destTape s - 1)%Z]> (tp_dummy s)) s)).

Lemma concat_snoc_run {A} (rs : list (list (list A))) i r c : rs !! i = Some r -> concat (<[i := r ++ [c]]> rs) ≡ₚ c :: concat rs.
Proof.
  intros Hr. pose proof (lookup_lt_Some _ _ _ Hr). rewrite (concat_middle rs i r Hr), (concat_middle (<[i := r ++ [c]]> rs) i (r ++ [c])) by (by apply list_lookup_insert_eq).
  rewrite take_insert_ge, drop_insert_lt by lia. rewrite <- !app_assoc. cbn. by rewrite <- !Permutation_middle.
Qed.
Lemma concat_perm {A} (l l' : list (list A)) : l ≡ₚ l' -> concat l ≡ₚ concat l'.
Proof.
  induction 1 as [|x l l' _ IH|x y l|l1 l2 l3 _ IH1 _ IH2]; cbn; [done|by rewrite IH| |by rewrite IH1].
  rewrite !app_assoc. by rewrite (Permutation_app_comm y x).
Qed.

Lemma concat_replicate_nil {A} n : concat (replicate n (@nil A)) = [].
Proof. by induction n. Qed.

Lemma end_run P k ra s rs cur ins : building true P k ra s rs cur ins -> (forall y, y ∈ in_heap s -> tupindex y <> currentRun s) ->
  exists l r, markrunend (destTape s) s = Ok (tt, set_tapeset (Some l) s) /\ rs !! destTape s = Some r /\
    building false P k ra (run_ended (set_tapeset (Some l) s)) (<[destTape s := r ++ [cur]]> rs) [] ins.
Proof.
  intros HB Hno. pose proof (building_dest _ _ _ _ _ _ _ HB) as (Hd & Hrl & Hdl).
  destruct HB as [He Hst Htn (L & HL1 & HLv & Hf & Hup) Hru (ts & Hon & Htl & Hts) Hso Hcu Hct [Hok Hle] Hix Hla Hal].
  destruct (lookup_lt_is_Some_2 rs (destTape s)) as [r Hr]; [lia|]. pose proof (Hts _ _ Hr) as Ht. rewrite decide_True in Ht by done.
  destruct (markrunend_ok s ts (destTape s) _ Hon Ht) as (l & Hm & Hon'). exists l, r. split_and!; [exact Hm|exact Hr|].
  assert (Htot : tp_runs s !!! destTape s = Z.of_nat (length r)).
  { apply list_lookup_total_correct. by rewrite Hru, list_lookup_fmap, Hr. }
  pose proof (concat_snoc_run rs (destTape s) r cur Hr) as Hcs.
  split; cbn; try done.
  - by destruct He.
  - exists L. split_and!; try done. by destruct Hup.
  - rewrite Htot, Hru. rewrite list_fmap_insert. f_equal. rewrite length_app. cbn. lia.
  - exists (<[destTape s := written (enc_runs ra (r ++ [cur]))]> ts). split; [|split].
    + unfold enc_runs. rewrite fmap_app, concat_app. cbn [fmap list_fmap concat]. rewrite app_nil_r. unfold enc_run at 2. rewrite app_assoc. destruct Hon' as (l' & ? & ?). by exists l'.
    + by rewrite !length_insert.
    + intros i r' Hr'. destruct (decide (i = destTape s)) as [->|Hne].
      * rewrite list_lookup_insert_eq in Hr' by lia. injection Hr' as <-. rewrite list_lookup_insert_eq by lia. cbn. by rewrite app_nil_r.
      * rewrite list_lookup_insert_ne in Hr' by done. rewrite list_lookup_insert_ne by done. specialize (Hts _ _ Hr'). by rewrite decide_False in Hts.
  - apply Forall_insert; [done|]. apply Forall_app. split; [by eapply Forall_lookup_1|by repeat constructor].
  - constructor.
  - rewrite Hct, Hcs. cbn. lia.
  - intros x Hx. destruct (Hix x Hx) as [E|E]; [by destruct (Hno x Hx)|left; lia].
  - intros x y Hx. by apply elem_of_nil in Hx.
  - unfold in_heap in *. cbn. rewrite (concat_perm _ _ Hcs). cbn. rewrite <- Hal. rewrite (Permutation_app_comm cur). by rewrite <- app_assoc.
Qed.

Lemma select_tape P k ra s rs ins : building false P k ra s rs [] ins ->
  exists s', selectnewtape s = Ok (tt, s') /\ building true P k ra s' rs [] ins /\ memtupcount s' = memtupcount s /\ memtuples s' = memtuples s /\ currentRun s' = currentRun s.
Proof.
  intros [He Hst Htn (L & HL1 & HLv & Hf & Hup) Hru (ts & Hon & Htl & Hts) Hso Hcu Hct Hok Hix Hla Hal].
  pose proof He as [(HP2 & HP & Hmx) _ _ _ _]. 
  destruct (selectnewtape_ok s L) as (dest & L' & dummy' & Hsel & HL' & Hup'); rewrite ?HP; [done..|]. rewrite HP in Hup'.
  exists (moved_on dest L' dummy' s). split_and!; [exact Hsel| |done|done|done].
  split; cbn; try done.
  - by destruct He.
  - exists L'. by rewrite HP.
  - exists ts. split; [by destruct Hon as (l & ? & ?); exists l|]. split; [done|]. intros i r Hr. specialize (Hts _ _ Hr). cbn in *. by repeat case_decide.
Qed.

(** The root of the heap belongs to the current run. *)
Definition ready (s : state) : Prop := exists top, 0 < memtupcount s /\ memtuples s !! 0 = Some top /\ tupindex top = currentRun s.

Lemma seq_lookup_self n i : i < n -> seq 0 n !! i = Some i.
Proof. intros H. by apply lookup_seq. Qed.

Section dump.
Context (P : nat) (k : K) (ra : bool) (ins : list (SortTuple T)) (Hv : valid k).

(** The output of dumptuples. *)
Definition dumped (all : bool) (s' : state) : Prop :=
  if all then exists rs r, building false P k ra s' rs [] ins /\ memtupcount s' = 0 /\ rs !! destTape s' = Some r /\ r <> []
  else exists rs cur, building true P k ra s' rs cur ins /\ ready s' /\ memtupcount s' < memtupsize s'.

(** After the last tuple of a run. *)
Lemma dump_end s rs cur : building true P k ra s rs cur ins -> (forall y, y ∈ in_heap s -> tupindex y <> currentRun s) -> forall (f : state -> M state unit),
  exists s1 rs', (markrunend (destTape s);;
        s ← mget;
        r ← at_idx (tp_runs s) (destTape s);
        d ← at_idx (tp_dummy s) (destTape s);
        let s := set_currentRun (currentRun s + 1)
                 (set_tp_runs (<[destTape s := (r + 1)%Z]> (tp_runs s))
                 (set_tp_dummy (<[destTape s := (d - 1)%Z]> (tp_dummy s)) s)) in
        mput s;; f s) s = f s1 s1 /\ building false P k ra s1 rs' [] ins /\ currentRun s1 = (currentRun s + 1)%Z /\ memtuples s1 = memtuples s /\
        memtupcount s1 = memtupcount s /\ exists r, rs' !! destTape s1 = Some r /\ r <> [].
Proof using Hv.
  intros HB Hno f. destruct (building_dest _ _ _ _ _ _ _ HB) as (Hd & Hrl & Hdl). destruct (end_run _ _ _ _ _ _ _ HB Hno) as (l & r & Hm & Hr & HB').
  exists (run_ended (set_tapeset (Some l) s)), (<[destTape s := r ++ [cur]]> rs). split; [|split_and!; try done].
  - rewrite (mbind_ok _ _ _ _ _ Hm), mget_ok. cbn [set_tapeset tp_runs tp_dummy destTape].
    assert (length (tp_runs s) = S P) by (rewrite (b_runs _ _ _ _ _ _ _ _ HB), length_fmap; done).
    rewrite (at_idx_ok _ _ _ _ _ (lookup_total_eq (tp_runs s) (destTape s) ltac:(lia))), (at_idx_ok _ _ _ _ _ (lookup_total_eq (tp_dummy s) (destTape s) ltac:(lia))). reflexivity.
  - exists (r ++ [cur]). split; [cbn; apply list_lookup_insert_eq; lia|]. by destruct r.
Qed.

Lemma dumptuples_loop_ok fuel all : forall s rs cur, building true P k ra s rs cur ins -> ready s -> memtupcount s < fuel ->
  exists s', dumptuples_loop fuel all s = Ok (tt, s') /\ dumped all s'.
Proof using HL HT Hv.
  induction fuel as [|fuel IH]; intros s rs cur HB (top & Hn & Htop & Hidx) Hf; [lia|]. cbn [dumptuples_loop]. rewrite mget_ok.
  destruct (building_dest _ _ _ _ _ _ _ HB) as (Hd & Hrl & Hdl).
  destruct (all || (LACKMEM s && bool_decide (1 < memtupcount s)) || bool_decide (memtupsize s <= memtupcount s)) eqn:Ego.
  2:{ apply orb_false_iff in Ego as [[-> _]%orb_false_iff E]. apply bool_decide_eq_false in E. exists s. split; [done|]. exists rs, cur. split_and!; [done|by exists top|lia]. }
  assert (Hmore : all = true \/ 1 < memtupcount s).
  { destruct all; [by left|right]. apply orb_true_iff in Ego as [[_ E]%andb_prop|E]; apply bool_decide_eq_true in E; [done|].
    pose proof (b_env _ _ _ _ _ _ _ _ HB) as [(? & _) _ _ ? _]. lia. }
  rewrite Assert_ok by (by apply bool_decide_true). rewrite (b_tapenum _ _ _ _ _ _ _ _ HB).
  rewrite (at_idx_ok _ _ _ _ _ (seq_lookup_self (S P) (destTape s) ltac:(lia))), (at_idx_ok _ _ _ _ _ Htop).
  destruct (dump_tuple P k ra s rs cur ins top Hv HB Hn Htop Hidx) as (s0 & s1 & Hw & Hsift & HB1 & Hn1 & Hsz1 & Hd1).
  rewrite (mbind_ok _ _ _ _ _ Hw), (mbind_ok _ _ _ _ _ Hsift), mget_ok. clear s0 Hw Hsift.
  pose proof (b_env _ _ _ _ _ _ _ _ HB1) as [(HP2 & _) _ _ Hrm _]. pose proof (b_heap _ _ _ _ _ _ _ _ HB1) as [Hok1 Hle1].
  destruct (lookup_lt_is_Some_2 (memtuples s1) 0) as [top1 Htop1]; [unfold memtupsize in *; lia|]. rewrite (at_idx_ok _ _ _ _ _ Htop1).
  destruct (decide (memtupcount s1 = 0)) as [Hz|Hnz].
  - assert (all = true) as -> by (destruct Hmore; [done|lia]). rewrite bool_decide_true by done. cbn [orb]. rewrite <- Hd1.
    destruct (dump_end s1 rs _ HB1) with (f := fun s => if bool_decide (memtupcount s = 0) then mret tt else Assert (currentRun s =? tupindex top1)%Z;; selectnewtape;; dumptuples_loop fuel true)
      as (s2 & rs' & Hend & HB2 & _ & _ & Hn2 & r & Hr & Hne).
    { intros y Hy. unfold in_heap in Hy. rewrite Hz, take_0 in Hy. by apply elem_of_nil in Hy. }
    cbv beta zeta in Hend. rewrite Hend, bool_decide_true by lia. exists s2. split; [done|]. exists rs', r. split_and!; [done|lia|done|done].
  - rewrite (bool_decide_false (memtupcount s1 = 0)) by done. cbn [orb].
    assert (Hin1 : top1 ∈ in_heap s1) by (apply in_heap_top; [lia|done]).
    destruct (Z.eqb_spec (currentRun s1) (tupindex top1)) as [Heq|Hneq]; cbn [negb].
    + apply (IH s1 rs _ HB1); [exists top1; split_and!; [lia|done|done]|lia].
    + assert (Hnext : tupindex top1 = (currentRun s1 + 1)%Z) by (destruct (b_index _ _ _ _ _ _ _ _ HB1 _ Hin1); [congruence|done]).
      rewrite <- Hd1. destruct (dump_end s1 rs _ HB1) with (f := fun s => if bool_decide (memtupcount s = 0) then mret tt else Assert (currentRun s =? tupindex top1)%Z;; selectnewtape;; dumptuples_loop fuel all)
        as (s2 & rs' & Hend & HB2 & Hc2 & Hm2 & Hn2 & _).
      { intros y Hy. pose proof (root_run_least k Hv s1 top1 y Hok1 Hle1 Htop1 Hy) as Hl. apply byrun_le in Hl. lia. }
      cbv beta zeta in Hend. rewrite Hend, bool_decide_false by lia. rewrite Assert_ok by (apply Z.eqb_eq; lia).
      destruct (select_tape P k ra s2 rs' ins HB2) as (s3 & Hsel & HB3 & Hn3 & Hm3 & Hc3). rewrite (mbind_ok _ _ _ _ _ Hsel).
      apply (IH s3 rs' _ HB3); [exists top1; split_and!; [lia|congruence|congruence]|lia].
Qed.

Lemma dumptuples_ok all s rs cur : building true P k ra s rs cur ins -> ready s -> exists s', dumptuples all s = Ok (tt, s') /\ dumped all s'.
Proof using HL HT Hv. intros HB Hr. unfold dumptuples. eapply (dumptuples_loop_ok (S (memtupcount s)) all); [exact HB|exact Hr|lia]. Qed.
End dump.

(** ** Putting tuples in *)

Lemma put_buildruns_ok P k ra s rs cur ins x : valid k -> building true P k ra s rs cur ins -> ready s -> memtupcount s < memtupsize s -> in_domain x ->
  exists s', put_buildruns x s = Ok (tt, s') /\ dumped P k ra (ins ++ [x]) false s'.
Proof using HL HT.
  intros Hv HB (top & Hn & Htop & Hidx) Hroom Hdx. unfold put_buildruns. rewrite mget_ok, Assert_ok by (by apply bool_decide_true). rewrite (at_idx_ok _ _ _ _ _ Htop).
  pose proof HB as [He Hst Htn Hlv Hru (ts & Hon & Hts) Hso Hcu Hct [Hok Hle] Hix Hla Hal Hdi]. pose proof (building_domain _ _ _ _ _ _ _ _ HB) as Hdm. pose proof (e_keys _ _ _ _ He) as Hk. pose proof (sm_cmp k Hv) as HC.
  assert (Hdt : in_domain top) by (rewrite Forall_forall in Hdm; apply Hdm; by apply in_heap_top).
  rewrite (mbind_ok _ _ _ _ _ (compare_state valid k s x top Hv Hk Hdx Hdt)).
  set (i := if (0 <=? comparetup k x top)%Z then currentRun s else (currentRun s + 1)%Z).
  destruct (insert_run_ok k Hv s x i Hk Hok Hroom Hdx Hdm) as (mt & Hins & Hml & Hok' & Hp).
  assert (Hi : (if (0 <=? comparetup k x top)%Z then tuplesort_heap_insert x (currentRun s) true else tuplesort_heap_insert x (currentRun s + 1)%Z true) s =
    Ok (tt, set_memtupcount (S (memtupcount s)) (set_memtuples mt s))) by (by unfold i in Hins; destruct (0 <=? comparetup k x top)%Z).
  rewrite (mbind_ok _ _ _ _ _ Hi). set (s1 := set_memtupcount (S (memtupcount s)) (set_memtuples mt s)).
  assert (Hih : in_heap s1 ≡ₚ with_tupindex i x :: in_heap s) by exact Hp.
  assert (Hix1 : forall y, y ∈ in_heap s1 -> tupindex y = currentRun s \/ tupindex y = (currentRun s + 1)%Z).
  { intros y. rewrite Hih. intros [->|Hy]%elem_of_cons; [|by apply Hix]. unfold i. cbn. destruct (0 <=? _)%Z; auto. }
  assert (Htin : top ∈ in_heap s) by (by apply in_heap_top).
  assert (HB1 : building true P k ra s1 rs cur (ins ++ [x])).
  { split; try done.
    - destruct He as [? ? ? ? ?]. split; try done. unfold memtupsize, s1 in *. cbn. lia.
    - exists ts. split; [by destruct Hon as (l & ? & ?); exists l|done].
    - split; [done|]. unfold memtupsize, s1 in *. cbn. lia.
    - intros z y Hz Hy Ey. rewrite Hih in Hy. apply elem_of_cons in Hy as [->|Hy]; [|by apply Hla].
      rewrite (cmp_norm_r valid). cbn in Ey. unfold i in Ey. destruct (Z.leb_spec 0 (comparetup k x top)) as [Hge|]; [|lia].
      apply (cmp_trans (cmp := comparetup k) z top x); [by apply Hla|]. by apply (cmp_total (comparetup k)).
    - rewrite Hih, fmap_cons, norm_with_tupindex, fmap_app, <- Hal. perm.
    - apply Forall_app. split; [done|]. by constructor. }
  apply (dumptuples_ok P k ra (ins ++ [x]) Hv false s1 rs cur HB1).
  destruct (lookup_lt_is_Some_2 (memtuples s1) 0) as [top1 Htop1]; [unfold s1, memtupsize in *; cbn; lia|].
  exists top1. split_and!; [unfold s1; cbn; lia|done|]. assert (Hle1 : memtupcount s1 <= memtupsize s1) by (unfold memtupsize, s1 in *; cbn; lia).
  pose proof (root_run_least k Hv s1 top1 top Hok' Hle1 Htop1 ltac:(rewrite Hih; by right)) as Hl. apply byrun_le in Hl.
  destruct (Hix1 top1 ltac:(apply in_heap_top; [unfold s1; cbn; lia|done])); [done|]. lia.
Qed.

(** The loop of inittapes: the tuples become a heap, of run 0. *)
Lemma heapify_loop_ok k kk : forall j s, valid k -> scanKeys s = k -> heap_inv s -> memtupcount s = j -> j + kk <= memtupsize s ->
  Forall (fun x => tupindex x = 0%Z) (in_heap s) -> Forall in_domain (take (j + kk) (memtuples s)) ->
  exists mt, heapify_loop kk j s = Ok (tt, set_memtupcount (j + kk) (set_memtuples mt s)) /\ length mt = memtupsize s /\
    heap_ok (comparetup k) mt (j + kk) /\ norm <$> take (j + kk) mt ≡ₚ norm <$> take (j + kk) (memtuples s) /\ Forall (fun x => tupindex x = 0%Z) (take (j + kk) mt).
Proof using HL.
  induction kk as [|kk IH]; intros j s Hv Hk Hh Hj Hsz Hz Hdm; cbn [heapify_loop].
  { rewrite Nat.add_0_r. exists (memtuples s). subst j. destruct Hh as (Hh & _). rewrite Hk in Hh. split_and!; try done. by destruct s. }
  rewrite mget_ok. destruct (lookup_lt_is_Some_2 (memtuples s) j) as [x Hx]; [unfold memtupsize in Hsz; lia|]. rewrite (at_idx_ok _ _ _ _ _ Hx).
  assert (Hdx : in_domain x) by (apply (Forall_lookup_1 _ _ j _ Hdm); rewrite lookup_take_lt by lia; done).
  destruct (insert_ok valid s x 0 ltac:(by rewrite Hk) Hh ltac:(lia) Hdx) as (mt & Hins & Hml & Hok & Hp & Htl).
  pose proof (insert_inv valid s x 0 mt Hh ltac:(lia) Hdx Hml Hok Hp) as Hinv. rewrite Hk in Hok.
  rewrite (mbind_ok _ _ _ _ _ Hins). rewrite Hj in *. set (s1 := set_memtupcount (S j) (set_memtuples mt s)).
  destruct (IH (S j) s1) as (mt' & Hrun & Hml' & Hok' & Hp' & Hz'); try done.
  - unfold s1, memtupsize in *. cbn. lia.
  - unfold in_heap, s1. cbn. rewrite Hp. constructor; [done|]. unfold in_heap in *. by rewrite Hj in Hz |- *.
  - unfold s1. cbn [memtuples set_memtupcount set_memtuples]. rewrite Nat.add_succ_r in Hdm. change (S (j + kk)) with (S j + kk) in Hdm.
    destruct Hinv as (_ & _ & Hinv). unfold in_heap in Hinv. cbn in Hinv. apply Forall_lookup_2. intros i y Hy. apply lookup_take_Some in Hy as [Hy Hi].
    destruct (decide (i < S j)); [apply (Forall_lookup_1 _ _ i _ Hinv); by rewrite lookup_take_lt|]. rewrite Htl in Hy by lia. apply (Forall_lookup_1 _ _ i _ Hdm). by rewrite lookup_take_lt.
  - exists mt'. rewrite Nat.add_succ_r. split_and!; [exact Hrun|unfold s1, memtupsize in *; cbn in *; lia|done| |done].
    rewrite Hp'. unfold s1. cbn [memtuples set_memtupcount set_memtuples].
    change (S (j + kk)) with (S j + kk). rewrite <- (take_drop (S j) (take (S j + kk) mt)), <- (take_drop (S j) (take (S j + kk) (memtuples s))).
    rewrite !take_take, !Nat.min_l by lia. rewrite !fmap_app. apply Permutation_app.
    + rewrite Hp. unfold in_heap. rewrite Hj, (take_S_r _ _ _ Hx), fmap_app, fmap_cons. cbn. rewrite (Permutation_app_comm _ [norm x]). cbn. by destruct x.
    + replace (drop (S j) (take (S j + kk) mt)) with (drop (S j) (take (S j + kk) (memtuples s))); [done|]. apply list_eq. intros i. rewrite !lookup_drop. destruct (decide (S j + i < S j + kk)).
      * rewrite !lookup_take_lt by lia. symmetry. apply Htl. lia.
      * by rewrite !lookup_take_ge by lia.
Qed.

Lemma merge_order_min allowed : (6 <= tuplesort_merge_order allowed)%Z.
Proof. unfold tuplesort_merge_order, MINORDER. lia. Qed.

(** The state inittapes makes of [s], with the heap [mt]. *)
Definition with_tapes (P : nat) (a : Z) (s : state) : state :=
  set_mergeactive (replicate (S P) false) (set_mergenext (replicate (S P) 0) (set_mergelast (replicate (S P) 0)
    (set_mergeavailslots (replicate (S P) 0%Z) (set_mergeavailmem (replicate (S P) 0%Z) (set_tapeset (Some (LogicalTapeSetCreate (S P)))
    (set_availMem a (set_tapeRange P (set_maxTapes (S P) s)))))))).
Definition with_numbers (P : nat) (mt : list (SortTuple T)) (s : state) : state :=
  set_currentRun 0 (set_tp_fib (fib_array P 1) (set_tp_runs (replicate (S P) 0%Z) (set_tp_dummy (fib_array P 1) (set_tp_tapenum (seq 0 (S P))
    (set_Level 1 (set_destTape 0 (set_status TSS_BUILDRUNS (set_memtuples mt s)))))))).

Lemma init_building P a k s ins mt : scanKeys s = k -> 2 <= P -> 0 < memtupcount s -> memtupcount s <= memtupsize s -> 2 * S P <= memtupsize s ->
  length mt = memtupsize s -> heap_ok (comparetup k) mt (memtupcount s) -> norm <$> take (memtupcount s) mt ≡ₚ norm <$> ins ->
  Forall (fun x => tupindex x = 0%Z) (take (memtupcount s) mt) -> Forall in_domain ins ->
  building true P k (randomAccess s) (with_numbers P mt (with_tapes P a s)) (replicate (S P) []) [] ins /\ ready (with_numbers P mt (with_tapes P a s)).
Proof.
  intros Hk HP Hn Hle Hsz Hml Hok Hp Hz Hdm. rewrite Forall_forall in Hz. unfold memtupsize in *.
  assert (Hz' : forall i x, i < memtupcount s -> mt !! i = Some x -> tupindex x = 0%Z).
  { intros i x Hi Hx. apply Hz, (list_elem_of_lookup_2 _ i). by rewrite lookup_take_lt. }
  split.
  - split; cbn [with_numbers with_tapes]; try reflexivity.
    + split; unfold memtupsize; cbn; rewrite ?length_replicate; [done|done|done|lia|done].
    + exists 1. split_and!; [lia|reflexivity|reflexivity|]. by apply upcoming_start.
    + by rewrite fmap_replicate.
    + exists (replicate (S P) tape_create). split; [eexists; split; [reflexivity|apply rep_create]|]. split; [by rewrite !length_replicate|].
      intros i r Hr. apply lookup_replicate in Hr as [-> Hi]. rewrite lookup_replicate_2 by done. by case_decide.
    + apply Forall_replicate. constructor.
    + constructor.
    + by rewrite concat_replicate_nil.
    + split; [|unfold memtupsize; cbn; lia]. intros i x y Hi0 Hi Hx Hy. pose proof (parent_lt i Hi0). cbn in Hi, Hx, Hy. apply byrun_le. right.
      split; [|by apply (Hok i)]. by rewrite (Hz' (parent i) x), (Hz' i y) by (done || lia).
    + intros x Hx. left. by apply Hz.
    + intros x y Hx. by apply elem_of_nil in Hx.
    + rewrite concat_replicate_nil. exact Hp.
    + exact Hdm.
  - destruct (lookup_lt_is_Some_2 mt 0) as [top Htop]; [lia|]. exists top. cbn. split_and!; [lia|done|]. by apply (Hz' 0).
Qed.

Lemma inittapes_ok k s ins : valid k -> scanKeys s = k -> 0 < memtupcount s -> memtupcount s <= memtupsize s -> 14 <= memtupsize s ->
  norm <$> take (memtupcount s) (memtuples s) ≡ₚ norm <$> ins -> Forall in_domain ins ->
  exists P s' rs, inittapes s = Ok (tt, s') /\ building true P k (randomAccess s) s' rs [] ins /\ ready s'.
Proof using HL.
  intros Hv Hk Hn Hle Hsz Hp Hdm. set (n := Z.to_nat (Z.min (tuplesort_merge_order (allowedMem s) + 1) (Z.of_nat (memtupsize s) / 2))).
  pose proof (merge_order_min (allowedMem s)) as Hmo.
  assert (Hn7 : exists P, n = S P /\ 6 <= P /\ 2 * S P <= memtupsize s).
  { exists (n - 1). unfold n. assert (7 <= Z.of_nat (memtupsize s) / 2)%Z by (apply Z.div_le_lower_bound; lia). pose proof (Z.mul_div_le (Z.of_nat (memtupsize s)) 2). lia. }
  destruct Hn7 as (P & HP & HP6 & Hroom).
  assert (Hrun : exists a, inittapes s = (heapify_loop (memtupcount s) 0;; s' ← mget; Assert (bool_decide (memtupcount s' = memtupcount s));;
     mput (with_numbers P (memtuples s') s')) (set_memtupcount 0 (with_tapes P a s))).
  { unfold inittapes. rewrite mget_ok. fold n. rewrite HP. cbv zeta. replace (S P - 1) with P by lia. rewrite (fib_array_start P) by lia.
    destruct (_ <? _)%Z; [eexists; reflexivity|]. exists (availMem s). reflexivity. }
  destruct Hrun as [a Hrun]. set (s2 := set_memtupcount 0 (with_tapes P a s)) in *.
  destruct (heapify_loop_ok k (memtupcount s) 0 s2) as (mt & Hheap & Hml & Hok & Hpm & Hz);
    [done|done|split_and!; [apply heap_ok_0|cbn; lia|constructor]|reflexivity|exact Hle|exact (List.Forall_nil _)|by apply (Forall_in_domain_norm valid _ ins)|].
  rewrite (mbind_ok _ _ _ _ _ Hheap), mget_ok, Assert_ok in Hrun by (by apply bool_decide_true).
  destruct (init_building P a k s ins mt) as [HB Hr]; try done; [lia|by rewrite Hpm|].
  exists P, (with_numbers P mt (with_tapes P a s)), (replicate (S P) []). split; [|split; [exact HB|exact Hr]]. rewrite Hrun.
  unfold with_numbers, s2, with_tapes. flat_state. reflexivity.
Qed.
End BuildRuns.

(** C28: Replacement selection is well formed.  While runs are built, every tuple put in keeps the state well formed: the array is a heap
    ordered by run number first; every run on tape, the one being written included, is sorted, and nothing in the heap that belongs to
    it is smaller than what was written; the counts of runs and dummy runs fit the level; and the tuples put in so far
    are, each once, on the tapes or in the heap. *)
Theorem building_runs_wf {T K} `{SM : !SortMethods T K} {Dm : Domain T} (valid : K -> Prop) `{HL : !SortMethodsLaws SM valid} `{HT : !TapeMethodsLaws SM} P k ra s rs cur ins x :
  valid k -> in_domain x -> building true P k ra s rs cur ins -> ready s -> memtupcount s < memtupsize s ->
  exists s' rs' cur', put_buildruns x s = Ok (tt, s') /\ building true P k ra s' rs' cur' (ins ++ [x]) /\ ready s' /\ memtupcount s' < memtupsize s'.
Proof.
  intros Hv Hx HB Hr Hroom. destruct (put_buildruns_ok valid P k ra s rs cur ins x Hv HB Hr Hroom Hx) as (s' & Hput & rs' & cur' & H1 & H2 & H3). by exists s', rs', cur'.
Qed.

Definition demo_building : Tuplesortstate MinimalTuple (list ScanKeyData) :=
  set_memtupcount 2 (set_memtuples ((demo_tuple <$> [[1; 5]; [4; 9]]%Z) ++ replicate 18 demo_junk) demo_state).
Lemma building_runs_wf_witness :
  exists P s s' rs' cur', inittapes (SM := demo_methods) demo_building = Ok (tt, s) /\ put_buildruns (SM := demo_methods) (demo_tuple [2; 7]%Z) s = Ok (tt, s') /\
    building (SM := demo_methods) true P demo_keys true s' rs' cur' ((demo_tuple <$> [[1; 5]; [4; 9]]%Z) ++ [demo_tuple [2; 7]%Z]) /\ memtupcount s' = 3.
Proof.
  destruct (inittapes_ok (SM := demo_methods) sort_functions demo_keys demo_building (demo_tuple <$> [[1; 5]; [4; 9]]%Z) demo_keys_ok)
    as (P & s & rs & Hinit & HB & Hr); [reflexivity|vm_compute; lia|vm_compute; lia|vm_compute; lia|reflexivity|by repeat constructor|].
  assert (Hroom : memtupcount s < memtupsize s) by (vm_compute in Hinit; injection Hinit as <-; vm_compute; lia).
  destruct (building_runs_wf (SM := demo_methods) sort_functions P demo_keys true s rs [] _ (demo_tuple [2; 7]%Z) demo_keys_ok I HB Hr Hroom) as (s' & rs' & cur' & Hput & HB' & _).
  exists P, s, s', rs', cur'. split_and!; [exact Hinit|exact Hput|exact HB'|]. clear HB HB' Hr Hroom. vm_compute in Hinit. injection Hinit as <-. vm_compute in Hput. injection Hput as <-. reflexivity.
Defined.
