(* ===== verification/MergeRuns.v ===== *)
(** * MergeRuns: merging runs from tapes

    beginmerge, mergepreread, mergeonerun and mergeruns of tuplesort.c.  The array memtuples[] has two parts while runs are merged:
    a heap with at most one tuple of each input tape, and behind it the tuples read ahead, linked through tupindex in one list for each
    tape, and a list of free slots. *)

From S2P Require Import Prelude Order Compare Heap Qsort Tape LogTape Tuplesort InMemory RunTapes Polyphase BuildRuns.
From Stdlib Require Import Permutation.

(** ** Linked lists in memtuples[] *)

Section chains.
Context {T : Type}.
Implicit Types (mt : list (SortTuple T)) (l : list (nat * SortTuple T)).

(** The first and the last slot of a list; 0 is none. *)
Definition first_slot l : nat := from_option fst 0 (head l).
Definition last_slot l : nat := from_option fst 0 (last l).
(** The tuples of [l], with their slots, are linked in this order. *)
Fixpoint chain mt l : Prop :=
  match l with
  | [] => True
  | (i, x) :: l' => 0 < i /\ mt !! i = Some (with_tupindex (Z.of_nat (first_slot l')) x) /\ chain mt l'
  end.

Lemma slot_chain_frame mt mt' l : (forall i, i ∈ l.*1 -> mt' !! i = mt !! i) -> chain mt l -> chain mt' l.
Proof.
  induction l as [|[i x] l IH]; [done|]. intros H (Hi & Hx & Hc). cbn. split_and!; [done| |].
  - rewrite H by (left; done). exact Hx.
  - apply IH; [|exact Hc]. intros j Hj. apply H. by right.
Qed.
Lemma chain_first mt l : chain mt l -> first_slot l = 0 <-> l = [].
Proof. destruct l as [|[i x] l]; cbn; [done|]. intros (Hi & _). split; [lia|done]. Qed.
Lemma chain_last mt l : chain mt l -> last_slot l = 0 <-> l = [].
Proof.
  intros Hc. destruct l as [|p l _] using rev_ind; [done|]. unfold last_slot. rewrite last_snoc. cbn.
  split; [|intros E; by apply app_nil in E as [_ ?]]. intros E. exfalso. assert (H : forall l p, chain mt (l ++ [p]) -> 0 < p.1).
  { clear. induction l as [|[i x] l IH]; intros [j y]; cbn; [tauto|]. intros (_ & _ & Hc). by apply (IH (j, y)). }
  specialize (H l p Hc). lia.
Qed.
Lemma chain_elem mt l i x : chain mt l -> (i, x) ∈ l -> 0 < i /\ exists n, mt !! i = Some (with_tupindex n x).
Proof.
  induction l as [|[j y] l IH]; [by intros _ ?%elem_of_nil|]. intros (Hj & Hy & Hc) [[= -> ->]|Hin]%elem_of_cons; [eauto|by apply IH].
Qed.

(** A tuple is added at the end: its slot is filled and the link of the last one set. *)
Definition add_link mt (last j : nat) (x : SortTuple T) : list (SortTuple T) :=
  let mt := <[j := with_tupindex 0 x]> mt in
  if decide (last = 0) then mt
  else match mt !! last with Some prev => <[last := with_tupindex (Z.of_nat j) prev]> mt | None => mt end.

Lemma chain_add mt l j x : chain mt l -> NoDup (l.*1 ++ [j]) -> 0 < j -> j < length mt ->
  chain (add_link mt (last_slot l) j x) (l ++ [(j, x)]) /\
  length (add_link mt (last_slot l) j x) = length mt /\ (forall i, i ∉ l.*1 ++ [j] -> add_link mt (last_slot l) j x !! i = mt !! i).
Proof.
  intros Hc Hnd Hj Hlen. unfold add_link. destruct l as [|[p y] l _] using rev_ind.
  { rewrite decide_True by done. cbn [app chain]. split_and!; [done|by rewrite list_lookup_insert_eq|done|by rewrite length_insert|]. intros i Hi. apply list_lookup_insert_ne. intros ->. apply Hi. mem. }
  assert (Hls : last_slot (l ++ [(p, y)]) = p) by (unfold last_slot; by rewrite last_snoc). rewrite Hls.
  destruct (chain_elem mt _ p y Hc ltac:(mem)) as (Hp & n & Hy). rewrite decide_False by lia.
  rewrite fmap_app in Hnd. cbn in Hnd. rewrite <- app_assoc in Hnd. apply NoDup_app in Hnd as (_ & Hd & Hnd). cbn in Hd, Hnd.
  assert (Hpj : p <> j) by (apply NoDup_cons in Hnd as [Hnd _]; intros ->; apply Hnd; mem).
  rewrite list_lookup_insert_ne by done. rewrite Hy. set (mt' := <[p := _]> _).
  assert (Hfr : forall i, i <> p -> i <> j -> mt' !! i = mt !! i) by (intros i H1 H2; unfold mt'; by rewrite !list_lookup_insert_ne by done).
  assert (Hlp : p < length mt) by (by eapply lookup_lt_Some).
  assert (Hmp : mt' !! p = Some (with_tupindex (Z.of_nat j) y)) by (unfold mt'; rewrite list_lookup_insert_eq by (rewrite length_insert; done); by destruct y).
  assert (Hmj : mt' !! j = Some (with_tupindex 0 x)) by (unfold mt'; rewrite list_lookup_insert_ne by done; by apply list_lookup_insert_eq).
  split_and!; [|unfold mt'; by rewrite !length_insert|intros i Hi; apply Hfr; intros ->; apply Hi; mem].
  rewrite <- app_assoc. cbn [app]. clearbody mt'. clear Hy Hls Hlen Hnd. revert Hd Hc. induction l as [|[i z] l IH]; intros Hd Hc.
  - cbn in *. destruct Hc as (_ & _ & _). split_and!; done.
  - cbn [app chain] in Hc |- *. destruct Hc as (Hi & Hz & Hc). cbn in Hd. split_and!; [done| |apply IH; [|exact Hc]; intros q Hq; apply Hd; mem].
    rewrite Hfr by (intros ->; apply (Hd _ ltac:(left)); mem). rewrite Hz. f_equal. f_equal. f_equal. unfold first_slot. by destruct l.
Qed.
End chains.

(** ** The sources of a merge *)

(** An input tape: its tuple in the heap, the tuples read ahead with their slots, the tuples of the run still on tape, the runs
    after that, and whether the end of the run has not been read yet. *)
Record source (T : Type) := mkSrc {
  sc_top : option (SortTuple T);
  sc_pre : list (nat * SortTuple T);
  sc_pend : list (SortTuple T);
  sc_rest : list (list (SortTuple T));
  sc_act : bool }.
Arguments mkSrc {T} _ _ _ _ _.
Arguments sc_top {T} _.
Arguments sc_pre {T} _.
Arguments sc_pend {T} _.
Arguments sc_rest {T} _.
Arguments sc_act {T} _.

Section sources.
Context {T : Type}.
Implicit Types (c : source T) (cs : list (source T)).

(** What is to come from a source. *)
Definition todo c : list (SortTuple T) := option_list (sc_top c) ++ (sc_pre c).*2 ++ sc_pend c.
Definition idle c : Prop := sc_top c = None /\ sc_pre c = [] /\ sc_pend c = [] /\ sc_act c = false.

(** The heap entry of source [i]. *)
Definition tagged (i : nat) c : list (SortTuple T) := with_tupindex (Z.of_nat i) <$> option_list (sc_top c).
Fixpoint tops (i : nat) cs : list (SortTuple T) :=
  match cs with [] => [] | c :: cs => tagged i c ++ tops (S i) cs end.

Lemma tops_insert cs : forall n i c c', cs !! i = Some c -> tops n (<[i := c']> cs) ++ tagged (n + i) c ≡ₚ tops n cs ++ tagged (n + i) c'.
Proof.
  induction cs as [|d cs IH]; intros n [|i] c c'; cbn; try discriminate.
  - intros [= ->]. rewrite Nat.add_0_r. perm.
  - intros Hi. specialize (IH (S n) i c c' Hi). rewrite Nat.add_succ_r. cbn in IH. rewrite <- !app_assoc. by rewrite IH.
Qed.
Lemma tops_elem cs : forall n y, y ∈ tops n cs -> exists i c x, cs !! i = Some c /\ sc_top c = Some x /\ y = with_tupindex (Z.of_nat (n + i)) x.
Proof.
  induction cs as [|d cs IH]; intros n y; cbn; [by intros ?%elem_of_nil|]. intros [Hy|Hy]%elem_of_app.
  - unfold tagged in Hy. destruct (sc_top d) as [x|] eqn:E; cbn in Hy; [|by apply elem_of_nil in Hy]. apply list_elem_of_singleton in Hy as ->. exists 0, d, x. by rewrite Nat.add_0_r.
  - destruct (IH _ _ Hy) as (i & c & x & Hi & Hx & ->). exists (S i), c, x. by rewrite Nat.add_succ_r.
Qed.
Lemma tops_in cs : forall n i c x, cs !! i = Some c -> sc_top c = Some x -> with_tupindex (Z.of_nat (n + i)) x ∈ tops n cs.
Proof.
  induction cs as [|d cs IH]; intros n [|i] c x; cbn; try discriminate.
  - intros [= ->] Hx. apply elem_of_app. left. unfold tagged. rewrite Hx, Nat.add_0_r. by left.
  - intros Hi Hx. apply elem_of_app. right. rewrite Nat.add_succ_r. by apply (IH (S n) i c).
Qed.

(** Which tapes take part, and how many. *)
Definition taking (parts : list bool) : nat := length (filter (fun b => b = true) parts).
(** Every source that takes part has at most [per] slots, the others are idle. *)
Definition within (per : nat) (parts : list bool) cs : Prop := Forall2 (fun b c => if b : bool then length (sc_pre c) <= per else idle c) parts cs.

Definition slots_of cs : list nat := concat ((fun c => (sc_pre c).*1) <$> cs).

Lemma within_slots per parts cs : within per parts cs -> length (slots_of cs) <= taking parts * per.
Proof.
  unfold slots_of, taking. induction 1 as [|b c parts cs Hb _ IH]; [done|]. cbn [fmap list_fmap concat]. rewrite length_app, length_fmap. destruct b.
  - rewrite filter_cons_True by done. cbn [length]. lia.
  - rewrite filter_cons_False by done. destruct Hb as (_ & -> & _). exact IH.
Qed.
Lemma within_slots_room per parts cs : within per parts cs -> forall i c, cs !! i = Some c -> parts !! i = Some true -> length (sc_pre c) < per ->
  length (slots_of cs) < taking parts * per.
Proof.
  unfold slots_of, taking. induction 1 as [|b d parts cs Hb Hw IH]; intros [|i] c; cbn [lookup list_lookup]; try discriminate; cbn [fmap list_fmap concat]; rewrite length_app, length_fmap.
  - intros [= ->] [= ->] Hlt. rewrite filter_cons_True by done. cbn. pose proof (within_slots per parts cs Hw). unfold taking, slots_of in *. lia.
  - intros Hi Hp Hlt. specialize (IH i c Hi Hp Hlt). destruct b.
    + rewrite filter_cons_True by done. cbn [length]. lia.
    + rewrite filter_cons_False by done. destruct Hb as (_ & -> & _). exact IH.
Qed.
Lemma within_tops per parts cs : within per parts cs -> forall n, length (tops n cs) <= taking parts.
Proof.
  unfold taking. induction 1 as [|b c parts cs Hb _ IH]; intros n; [done|]. cbn [tops]. rewrite length_app. unfold tagged. rewrite length_fmap. specialize (IH (S n)). destruct b.
  - rewrite filter_cons_True by done. cbn [length]. destruct (sc_top c); cbn; lia.
  - rewrite filter_cons_False by done. destruct Hb as (-> & _). exact IH.
Qed.
(** There is room in the heap for a source that has nothing there. *)
Lemma within_tops_room per parts cs : within per parts cs -> forall n i c, cs !! i = Some c -> parts !! i = Some true -> sc_top c = None -> length (tops n cs) < taking parts.
Proof.
  unfold taking. induction 1 as [|b d parts cs Hb Hw IH]; intros n [|i] c; cbn [lookup list_lookup]; try discriminate; cbn [tops]; rewrite length_app; unfold tagged; rewrite length_fmap.
  - intros [= ->] [= ->] ->. rewrite filter_cons_True by done. cbn. pose proof (within_tops per parts cs Hw (S n)). unfold taking in *. lia.
  - intros Hi Hp Hc. specialize (IH (S n) i c Hi Hp Hc). destruct b.
    + rewrite filter_cons_True by done. cbn [length]. destruct (sc_top d); cbn; lia.
    + rewrite filter_cons_False by done. destruct Hb as (-> & _). exact IH.
Qed.

Lemma slots_insert cs i c c' : cs !! i = Some c -> slots_of (<[i := c']> cs) ++ (sc_pre c).*1 ≡ₚ slots_of cs ++ (sc_pre c').*1.
Proof.
  unfold slots_of. revert i. induction cs as [|d cs IH]; intros [|i]; cbn; try discriminate.
  - intros [= ->]. perm.
  - intros Hi. specialize (IH i Hi). rewrite <- !app_assoc. by rewrite IH.
Qed.
Lemma slots_elem cs i c j : cs !! i = Some c -> j ∈ (sc_pre c).*1 -> j ∈ slots_of cs.
Proof.
  intros Hi Hj. unfold slots_of. rewrite (concat_middle _ i ((sc_pre c).*1)) by (by rewrite list_lookup_fmap, Hi). mem.
Qed.
(** The lists of different sources are disjoint. *)
Lemma slots_disjoint cs i c i' c' j : NoDup (slots_of cs) -> cs !! i = Some c -> cs !! i' = Some c' -> i <> i' -> j ∈ (sc_pre c).*1 -> j ∉ (sc_pre c').*1.
Proof.
  intros Hnd Hi Hi' Hne Hj Hj'. unfold slots_of in Hnd. revert i i' Hi Hi' Hne. induction cs as [|d cs IH]; [done|]. cbn in Hnd. apply NoDup_app in Hnd as (_ & Hd & Hnd).
  specialize (IH Hnd). intros [|i] [|i'] Hi Hi' Hne; cbn in Hi, Hi'; [done| | |by eapply IH; eauto].
  - injection Hi as ->. apply (Hd j Hj). by eapply slots_elem.
  - injection Hi' as ->. apply (Hd j Hj'). by eapply slots_elem.
Qed.
End sources.

(** ** The state of a merge *)

Section Merge.
Context {T K : Type} `{SM : !SortMethods T K} {Dm : Domain T} (valid : K -> Prop) `{HL : !SortMethodsLaws SM valid} `{HT : !TapeMethodsLaws SM}.
Local Abbreviation state := (Tuplesortstate T K).
Implicit Types (s : state) (c d : source T) (cs : list (source T)).
(** The tapes that take part get [per] slots each; [dest] is the tape that is written. *)
Context (P : nat) (k : K) (ra : bool) (Hv : valid k) (parts : list bool) (per dest : nat).
Local Abbreviation A := (taking parts).

(** What the merge leaves alone. *)
Definition outer s := (status s, Level s, tp_runs s, tp_dummy s, tp_tapenum s).

Record slots_ok s (cs : list (source T)) : Prop := {
  so_env : env P k ra s;
  so_within : within per parts cs;
  so_len : length parts = S P;
  so_active : mergeactive s = sc_act <$> cs;
  so_next : mergenext s = (fun c => first_slot (sc_pre c)) <$> cs;
  so_last : mergelast s = (fun c => last_slot (sc_pre c)) <$> cs;
  so_slots : forall i c, parts !! i = Some true -> cs !! i = Some c -> mergeavailslots s !! i = Some (Z.of_nat per - Z.of_nat (length (sc_pre c)))%Z;
  so_chain : forall i c, cs !! i = Some c -> chain (memtuples s) (sc_pre c);
  so_free : exists fl, mergefreelist s = first_slot fl /\ chain (memtuples s) fl /\ slots_of cs ++ fl.*1 ≡ₚ seq A (mergefirstfree s - A) /\ A <= mergefirstfree s;
  so_room : A + A * per <= memtupsize s /\ 0 < A /\ 0 < per;
  so_heap : heap_inv s;
  so_tops : in_heap s ≡ₚ tops 0 cs;
  so_domain : Forall (fun c => Forall in_domain (sc_pre c).*2) cs }.

Lemma slots_ok_length s cs : slots_ok s cs -> length cs = S P.
Proof. intros H. pose proof (Forall2_length _ _ _ (so_within _ _ H)). pose proof (so_len _ _ H). lia. Qed.
Lemma slots_ok_touched s s' cs : touched s s' -> slots_ok s cs -> slots_ok s' cs.
Proof. intros (a & l & ->) [[] ? ? ? ? ? ? ? ? ? ? ? ?]. by split. Qed.

(** A slot that is not in use. *)
Lemma free_slot_ok s cs i c : slots_ok s cs -> cs !! i = Some c -> parts !! i = Some true -> length (sc_pre c) < per ->
  exists j fl ff, free_slot s = Ok (j, set_mergefreelist (first_slot fl) (set_mergefirstfree ff s)) /\ chain (memtuples s) fl /\
    slots_of cs ++ j :: fl.*1 ≡ₚ seq A (ff - A) /\ A <= ff /\ A <= j < memtupsize s.
Proof.
  intros H Hi Hp Hlt. destruct (so_free _ _ H) as (fl & Hfl & Hch & Hperm & Hff). destruct (so_room _ _ H) as (Hroom & HA & Hper). unfold free_slot. rewrite mget_ok, Hfl.
  destruct fl as [|[j z] fl].
  - rewrite bool_decide_false by (cbn; tauto). rewrite mput_ok.
    pose proof (within_slots_room _ _ _ (so_within _ _ H) i c Hi Hp Hlt) as Hbound. cbn in Hperm. rewrite app_nil_r in Hperm.
    assert (Hlen : length (slots_of cs) = mergefirstfree s - A) by (by rewrite Hperm, length_seq).
    assert (Hj : mergefirstfree s < memtupsize s) by lia. rewrite Assert_ok by (by apply bool_decide_true).
    exists (mergefirstfree s), [], (S (mergefirstfree s)). split_and!; [|done| |lia|lia|done].
    + unfold mret, M_ret. rewrite <- Hfl. flat_state. reflexivity.
    + rewrite Hperm. replace (S (mergefirstfree s) - A) with (mergefirstfree s - A + 1) by lia. rewrite seq_app. cbn. by replace (A + (mergefirstfree s - A)) with (mergefirstfree s) by lia.
  - destruct Hch as (Hj & Hz & Hch). cbn [first_slot head from_option fst] in *. rewrite bool_decide_true by lia. rewrite (at_idx_ok _ _ _ _ _ Hz), mput_ok.
    exists j, fl, (mergefirstfree s). split_and!; [|done|done|done| |by eapply lookup_lt_Some].
    + unfold mret, M_ret. cbn [tupindex with_tupindex]. rewrite Nat2Z.id. flat_state. reflexivity.
    + assert (Hin : j ∈ seq A (mergefirstfree s - A)) by (rewrite <- Hperm; mem). apply elem_of_seq in Hin. lia.
Qed.

(** The source with one more tuple read ahead. *)
Definition read_ahead (c : source T) (j : nat) (x : SortTuple T) (pend : list (SortTuple T)) : source T :=
  mkSrc (sc_top c) (sc_pre c ++ [(j, x)]) pend (sc_rest c) (sc_act c).

Lemma first_slot_snoc (l : list (nat * SortTuple T)) p : first_slot (l ++ [p]) = if decide (l = []) then p.1 else first_slot l.
Proof. by destruct l. Qed.
Lemma last_slot_snoc (l : list (nat * SortTuple T)) p : last_slot (l ++ [p]) = p.1.
Proof. unfold last_slot. by rewrite last_snoc. Qed.

Definition stored (i j : nat) (slots : Z) (nx : list nat) (mt : list (SortTuple T)) s : state :=
  set_mergelast (<[i := j]> (mergelast s)) (set_memtuples mt (set_mergenext nx (set_mergeavailslots (<[i := (slots - 1)%Z]> (mergeavailslots s)) s))).

Lemma store_run s i j slots y (l : list (nat * SortTuple T)) : mergelast s !! i = Some (last_slot l) -> i < length (mergeavailslots s) -> j < memtupsize s -> chain (memtuples s) l ->
  (mas ← upd_idx (mergeavailslots s) i (slots - 1)%Z;
  mt ← upd_idx (memtuples s) j (with_tupindex 0 y);
  last ← at_idx (mergelast s) i;
  let s := set_mergeavailslots mas s in
  s ← (if bool_decide (last <> 0) then
         prev ← at_idx mt last;
         mt ← upd_idx mt last (with_tupindex (Z.of_nat j) prev);
         mret (set_memtuples mt s)
       else mret (set_mergenext (<[i := j]> (mergenext s)) (set_memtuples mt s)));
  mput (set_mergelast (<[i := j]> (mergelast s)) s)) s =
  Ok (tt, stored i j slots (if decide (l = []) then <[i := j]> (mergenext s) else mergenext s) (add_link (memtuples s) (last_slot l) j y) s).
Proof.
  intros Hl Hi Hj Hch. rewrite upd_idx_ok by done. rewrite upd_idx_ok by done. rewrite (at_idx_ok _ _ _ _ _ Hl). cbv zeta. unfold add_link, stored.
  pose proof (chain_last _ _ Hch) as Hz. destruct (decide (l = [])) as [->|Hne].
  - cbn [last_slot last from_option]. rewrite bool_decide_false by (cbn; tauto). rewrite decide_True by done. rewrite mret_ok. flat_state. reflexivity.
  - rewrite bool_decide_true by tauto. rewrite decide_False by tauto.
    assert (Hprev : exists prev, <[j := with_tupindex 0 y]> (memtuples s) !! last_slot l = Some prev).
    { apply lookup_lt_is_Some_2. rewrite length_insert. destruct l as [|[a b] l _] using rev_ind; [done|]. rewrite last_slot_snoc.
      destruct (chain_elem _ _ a b Hch ltac:(mem)) as (_ & n & Hb). by eapply lookup_lt_Some. }
    destruct Hprev as [prev Hprev]. rewrite Hprev. rewrite mbind_assoc, (at_idx_ok _ _ _ _ _ Hprev).
    rewrite mbind_assoc, upd_idx_ok by (by eapply lookup_lt_Some). rewrite mret_ok. flat_state. reflexivity.
Qed.

(** *** Keeping the invariant *)

Lemma within_update cs i c' : within per parts cs -> parts !! i = Some true -> length (sc_pre c') <= per -> within per parts (<[i := c']> cs).
Proof. intros H Hp Hl. rewrite <- (list_insert_id parts i true Hp). by apply Forall2_insert. Qed.
Lemma fmap_update {B} (f : source T -> B) cs i c c' : cs !! i = Some c -> f c' = f c -> f <$> <[i := c']> cs = f <$> cs.
Proof. intros Hi E. rewrite list_fmap_insert, E. apply list_insert_id. by rewrite list_lookup_fmap, Hi. Qed.
Lemma tops_same cs i c c' : cs !! i = Some c -> sc_top c' = sc_top c -> tops 0 (<[i := c']> cs) ≡ₚ tops 0 cs.
Proof. intros Hi E. pose proof (tops_insert cs 0 i c c' Hi) as H. unfold tagged in H. rewrite E in H. by apply Permutation_app_inv_r in H. Qed.

Lemma slots_ok_count s cs : slots_ok s cs -> memtupcount s = length (tops 0 cs) /\ memtupcount s <= A.
Proof.
  intros H. destruct (so_heap _ _ H) as (_ & Hle & _). pose proof (so_tops _ _ H) as Ht. apply Permutation_length in Ht. unfold in_heap in Ht.
  rewrite length_take in Ht. unfold memtupsize in Hle. pose proof (within_tops _ _ _ (so_within _ _ H) 0). lia.
Qed.
(** Every slot in use is behind the heap. *)
Lemma slots_ok_range s cs i c j : slots_ok s cs -> cs !! i = Some c -> j ∈ (sc_pre c).*1 -> A <= j.
Proof.
  intros H Hi Hj. destruct (so_free _ _ H) as (fl & _ & _ & Hperm & _).
  assert (Hin : j ∈ seq A (mergefirstfree s - A)) by (rewrite <- Hperm; apply elem_of_app; left; by eapply slots_elem). apply elem_of_seq in Hin. lia.
Qed.
Lemma heap_same s mt (n : nat) : heap_ok (comparetup k) (memtuples s) n -> (forall i, i < n -> mt !! i = memtuples s !! i) ->
  heap_ok (comparetup k) mt n /\ take n mt = take n (memtuples s).
Proof.
  intros H Hs. split.
  - intros i x y Hi0 Hi. pose proof (parent_lt i Hi0). rewrite !Hs by lia. by apply H.
  - apply list_eq. intros i. destruct (decide (i < n)); [by rewrite !lookup_take_lt, Hs by lia|by rewrite !lookup_take_ge by lia].
Qed.

Lemma store_ok s cs i c y pend : in_domain y -> slots_ok s cs -> cs !! i = Some c -> parts !! i = Some true -> length (sc_pre c) < per ->
  exists j s', store_preread i (Z.of_nat per - Z.of_nat (length (sc_pre c))) y s = Ok (tt, s') /\ slots_ok s' (<[i := read_ahead c j (norm y) pend]> cs) /\
    outer s' = outer s /\ tapeset s' = tapeset s /\ memtupcount s' = memtupcount s.
Proof.
  intros Hdy H Hi Hp Hlt. destruct (free_slot_ok s cs i c H Hi Hp Hlt) as (j & fl & ff & Hfree & Hfl & Hperm & Hff & Hj).
  pose proof (so_env _ _ H) as [(HP2 & HP & Hmx) Hk Hra Hrm (Ha1 & Ha2 & Ha3 & Ha4 & Ha5)].
  pose proof (lookup_lt_Some _ _ _ Hi) as HiP. rewrite (slots_ok_length _ _ H) in HiP.
  set (s1 := set_mergefreelist (first_slot fl) (set_mergefirstfree ff s)) in *. pose proof (so_chain _ _ H i c Hi) as Hch.
  unfold store_preread. rewrite (mbind_ok _ _ _ _ _ Hfree), mget_ok.
  rewrite (store_run s1 i j _ y (sc_pre c)); [|cbn; rewrite (so_last _ _ H), list_lookup_fmap, Hi; done|cbn; lia|exact (proj2 Hj)|exact Hch].
  eexists j, _. split; [reflexivity|]. cbn [s1 set_mergefreelist set_mergefirstfree memtuples mergenext].
  assert (Hnd : NoDup (slots_of cs ++ j :: fl.*1)) by (rewrite Hperm; apply NoDup_seq).
  assert (Hnd1 : NoDup ((sc_pre c).*1 ++ [j])).
  { apply NoDup_app in Hnd as (Hns & Hd & _). unfold slots_of in Hns. rewrite (concat_middle _ i ((sc_pre c).*1)) in Hns by (by rewrite list_lookup_fmap, Hi).
    apply NoDup_app. split_and!; [|intros q Hq Hqj|apply NoDup_singleton].
    - apply NoDup_app in Hns as (_ & _ & Hns). by apply NoDup_app in Hns as (? & _).
    - apply list_elem_of_singleton in Hqj as ->. apply (Hd j); [by eapply slots_elem|by left]. }
  destruct (chain_add (memtuples s) (sc_pre c) j (norm y) Hch Hnd1) as (Hch' & Hml & Hfr); [destruct (so_room _ _ H); lia|apply Hj|].
  change (add_link (memtuples s) (last_slot (sc_pre c)) j y) with (add_link (memtuples s) (last_slot (sc_pre c)) j (norm y)).
  set (mt := add_link (memtuples s) (last_slot (sc_pre c)) j (norm y)) in *. set (c' := read_ahead c j (norm y) pend).
  assert (Hslots : slots_of (<[i := c']> cs) ≡ₚ slots_of cs ++ [j]).
  { pose proof (slots_insert cs i c c' Hi) as E. cbn in E. rewrite fmap_app in E. cbn in E. rewrite (Permutation_app_comm (sc_pre c).*1), app_assoc in E. by apply Permutation_app_inv_r in E. }
  pose proof (slots_ok_count _ _ H) as [_ Hn]. pose proof (so_heap _ _ H) as (Hok & Hle & Hdm). rewrite Hk in Hok.
  assert (Hout : forall q, q ∈ (sc_pre c).*1 ++ [j] -> A <= q).
  { intros q [Hq| ->%list_elem_of_singleton]%elem_of_app; [by eapply slots_ok_range|lia]. }
  destruct (heap_same s mt (memtupcount s) Hok) as [Hok' Htake]. { intros q Hq. apply Hfr. intros Hin. apply Hout in Hin. lia. }
  assert (Hcl : length (sc_pre c') = S (length (sc_pre c))) by (cbn; rewrite length_app; cbn; lia).
  split_and!; [|done|done|done]. split; cbn [stored]; try done.
  - split; unfold memtupsize; cbn; rewrite ?length_insert; try done; [unfold memtupsize in Hrm; lia|]. case_decide; rewrite ?length_insert; done.
  - apply within_update; [by apply (so_within _ _ H)|done|lia].
  - apply (so_len _ _ H).
  - cbn. rewrite (fmap_update _ _ _ _ _ Hi) by done. apply (so_active _ _ H).
  - cbn. rewrite list_fmap_insert. cbn [read_ahead sc_pre c']. rewrite first_slot_snoc, (so_next _ _ H). case_decide; [done|].
    symmetry. apply list_insert_id. by rewrite list_lookup_fmap, Hi.
  - cbn. rewrite list_fmap_insert. cbn [read_ahead sc_pre c']. by rewrite last_slot_snoc, (so_last _ _ H).
  - intros i' d Hp' Hd. cbn. destruct (decide (i' = i)) as [->|Hne].
    + rewrite list_lookup_insert_eq in Hd by (rewrite (slots_ok_length _ _ H); lia). injection Hd as <-. rewrite list_lookup_insert_eq by lia. f_equal. lia.
    + rewrite list_lookup_insert_ne in Hd by done. rewrite list_lookup_insert_ne by done. by apply (so_slots _ _ H).
  - intros i' d Hd. cbn. destruct (decide (i' = i)) as [->|Hne].
    + rewrite list_lookup_insert_eq in Hd by (rewrite (slots_ok_length _ _ H); lia). injection Hd as <-. exact Hch'.
    + rewrite list_lookup_insert_ne in Hd by done. eapply slot_chain_frame; [|by apply (so_chain _ _ H i')]. intros q Hq. apply Hfr.
      apply NoDup_app in Hnd as (Hns & Hd' & _). intros [Hqi| ->%list_elem_of_singleton]%elem_of_app; [by apply (slots_disjoint cs i' d i c q Hns Hd Hi Hne Hq)|].
      apply (Hd' j); [by eapply slots_elem|by left].
  - exists fl. cbn. split_and!; [done| |rewrite Hslots, <- app_assoc; exact Hperm|done]. eapply slot_chain_frame; [|exact Hfl]. intros q Hq. apply Hfr.
    apply NoDup_app in Hnd as (Hns & Hd' & [Hj' _]%NoDup_cons). intros [Hqi| ->%list_elem_of_singleton]%elem_of_app; [|done]. apply (Hd' q); [by eapply slots_elem|by right].
  - unfold memtupsize. cbn. rewrite Hml. apply (so_room _ _ H).
  - split_and!; cbn; [by rewrite Hk|unfold memtupsize in *; cbn; lia|unfold in_heap; cbn; by rewrite Htake].
  - unfold in_heap. cbn. rewrite Htake. rewrite (tops_same cs i c c' Hi eq_refl). apply (so_tops _ _ H).
  - apply Forall_insert; [apply (so_domain _ _ H)|]. cbn. rewrite fmap_app. apply Forall_app. split; [exact (Forall_lookup_1 _ _ _ _ (so_domain _ _ H) Hi)|].
    constructor; [by apply (in_domain_norm valid)|constructor].
Qed.

(** ** Reading ahead *)

(** The tuples of a run are as they will be read: without bookkeeping. *)
Definition clean (x : SortTuple T) : Prop := good k x /\ norm x = x.

(** What is left on the tape of a source. *)
Definition left_on c : list byte := (if sc_act c then concat (enc_tuple ra <$> sc_pend c) ++ mark else []) ++ enc_runs ra (sc_rest c).

Record tapes_ok s (bs : list byte) cs : Prop := {
  to_tapes : exists ts, on_tapes s ts /\ length ts = S P /\ ts !! dest = Some (written bs) /\
    forall i c, i <> dest -> cs !! i = Some c -> exists t all, ts !! i = Some t /\ reading false t all (left_on c);
  to_ended : forall i c, cs !! i = Some c -> sc_act c = false -> sc_pend c = [];
  to_clean : forall i c, cs !! i = Some c -> Forall clean (sc_pend c) }.

Lemma tapes_ok_same s s' bs cs : tapeset s' = tapeset s -> tapes_ok s bs cs -> tapes_ok s' bs cs.
Proof. intros E [(ts & (l & Hl & Hr) & H) H1 H2]. split; [|done|done]. exists ts. split; [|done]. exists l. by rewrite E. Qed.

(** One tape was read or otherwise changed. *)
Lemma tapes_ok_update s s' bs cs i c c' ts t all :
  tapes_ok s bs cs -> on_tapes s ts -> length ts = S P -> ts !! dest = Some (written bs) ->
  (forall i c, i <> dest -> cs !! i = Some c -> exists t all, ts !! i = Some t /\ reading false t all (left_on c)) ->
  cs !! i = Some c -> i <> dest -> on_tapes s' (<[i := t]> ts) -> reading false t all (left_on c') -> (sc_act c' = false -> sc_pend c' = []) -> Forall clean (sc_pend c') ->
  tapes_ok s' bs (<[i := c']> cs).
Proof.
  intros [_ He Hc] Hon Hl Hd Hts Hi Hid Hon' Ht' Hend' Hcl'. pose proof (lookup_lt_Some _ _ _ Hi) as Hlt.
  destruct (Hts i c Hid Hi) as (t0 & all0 & Ht0 & _). pose proof (lookup_lt_Some _ _ _ Ht0) as Hlt'. split.
  - exists (<[i := t]> ts). split_and!; [done|by rewrite length_insert|by rewrite list_lookup_insert_ne|].
    intros j d Hj Hd'. destruct (decide (j = i)) as [->|Hne].
    + rewrite list_lookup_insert_eq in Hd' by done. injection Hd' as <-. exists t, all. by rewrite list_lookup_insert_eq.
    + rewrite list_lookup_insert_ne in Hd' by done. rewrite list_lookup_insert_ne by done. by apply Hts.
  - intros j d Hd'. destruct (decide (j = i)) as [->|Hne]; [rewrite list_lookup_insert_eq in Hd' by done; by injection Hd' as <-|]. rewrite list_lookup_insert_ne in Hd' by done. by apply (He j).
  - intros j d Hd'. destruct (decide (j = i)) as [->|Hne]; [rewrite list_lookup_insert_eq in Hd' by done; by injection Hd' as <-|]. rewrite list_lookup_insert_ne in Hd' by done. by apply (Hc j).
Qed.

(** A source changed, but not what is on its tape. *)
Lemma tapes_ok_keep s bs cs i c c' : tapes_ok s bs cs -> cs !! i = Some c -> sc_pend c' = sc_pend c -> sc_rest c' = sc_rest c -> sc_act c' = sc_act c ->
  tapes_ok s bs (<[i := c']> cs).
Proof.
  intros [(ts & Hon & Htl & Htd & Hts) He Hc] Hi E1 E2 E3. pose proof (lookup_lt_Some _ _ _ Hi) as Hlt.
  assert (Hlook : forall q d, <[i := c']> cs !! q = Some d -> exists d0, cs !! q = Some d0 /\ sc_pend d = sc_pend d0 /\ sc_rest d = sc_rest d0 /\ sc_act d = sc_act d0).
  { intros q d Hd. destruct (decide (q = i)) as [->|]; [|rewrite list_lookup_insert_ne in Hd by done; by exists d].
    rewrite list_lookup_insert_eq in Hd by done. injection Hd as <-. by exists c. }
  split.
  - exists ts. split_and!; try done. intros q d Hq Hd. destruct (Hlook q d Hd) as (d0 & Hd0 & F1 & F2 & F3). unfold left_on. rewrite F1, F2, F3. by apply Hts.
  - intros q d Hd. destruct (Hlook q d Hd) as (d0 & Hd0 & -> & _ & ->). by apply (He q).
  - intros q d Hd. destruct (Hlook q d Hd) as (d0 & Hd0 & -> & _). by apply (Hc q).
Qed.

(** Nothing was lost. *)
Definition kept c c' : Prop := todo c' = todo c /\ sc_top c' = sc_top c /\ sc_rest c' = sc_rest c /\ (sc_act c = false -> sc_act c' = false).
(** More was read ahead: something is there unless the run is over. *)
Definition refilled c c' : Prop := kept c c' /\ (sc_pre c' = [] -> sc_pend c' = [] /\ sc_act c' = false).

Lemma end_active s cs i c : slots_ok s cs -> cs !! i = Some c -> parts !! i = Some true ->
  slots_ok (set_mergeactive (<[i := false]> (mergeactive s)) s) (<[i := mkSrc (sc_top c) (sc_pre c) [] (sc_rest c) false]> cs).
Proof.
  intros H Hi Hp. pose proof H as [[HP Hk Hra Hrm (Ha1 & Ha2)] Hw Hl Hac Hnx Hla Hsl Hch (fl & Hf1 & Hf2 & Hf3 & Hf4) Hro Hh Ht Hdo].
  set (c' := mkSrc _ _ _ _ _). split; cbn; try done.
  - split; cbn; rewrite ?length_insert; done.
  - apply within_update; [done|done|]. exact (Forall2_lookup_lr _ _ _ i true c Hw Hp Hi).
  - by rewrite list_fmap_insert, Hac.
  - by rewrite (fmap_update _ _ _ _ _ Hi) by done.
  - by rewrite (fmap_update _ _ _ _ _ Hi) by done.
  - intros j d Hpj Hd. destruct (decide (j = i)) as [->|]; [|rewrite list_lookup_insert_ne in Hd by done; by apply Hsl].
    rewrite list_lookup_insert_eq in Hd by (by eapply lookup_lt_Some). injection Hd as <-. exact (Hsl i c Hp Hi).
  - intros j d Hd. destruct (decide (j = i)) as [->|]; [|rewrite list_lookup_insert_ne in Hd by done; by eapply Hch].
    rewrite list_lookup_insert_eq in Hd by (by eapply lookup_lt_Some). injection Hd as <-. by apply (Hch i c).
  - exists fl. split_and!; try done. rewrite <- Hf3. pose proof (slots_insert cs i c c' Hi) as E. cbn in E. apply Permutation_app_inv_r in E. by rewrite E.
  - rewrite (tops_same cs i c c' Hi eq_refl). done.
  - apply Forall_insert; [done|]. exact (Forall_lookup_1 _ _ _ _ Hdo Hi).
Qed.

Lemma preread_loop_ok i fuel : forall s bs cs c, slots_ok s cs -> tapes_ok s bs cs -> cs !! i = Some c -> parts !! i = Some true -> i <> dest -> sc_act c = true ->
  length (sc_pend c) < fuel ->
  exists s' c', preread_loop fuel i s = Ok (tt, s') /\ slots_ok s' (<[i := c']> cs) /\ tapes_ok s' bs (<[i := c']> cs) /\ refilled c c' /\
    outer s' = outer s /\ memtupcount s' = memtupcount s.
Proof.
  induction fuel as [|fuel IH]; intros s bs cs c H Ht Hi Hp Hid Hact Hf; [lia|]. cbn [preread_loop]. rewrite mget_ok.
  rewrite (at_idx_ok _ _ _ _ _ (so_slots _ _ H i c Hp Hi)).
  assert (Hnx : mergenext s !! i = Some (first_slot (sc_pre c))) by (rewrite (so_next _ _ H), list_lookup_fmap, Hi; done). rewrite (at_idx_ok _ _ _ _ _ Hnx).
  destruct (_ || _) eqn:Ego.
  2:{ apply orb_false_iff in Ego as [_ E]. apply bool_decide_eq_false in E. exists s, c. rewrite list_insert_id by done. split_and!; try done. split; [done|]. intros E'. rewrite E' in E. done. }
  assert (Hlt : length (sc_pre c) < per).
  { apply orb_true_iff in Ego as [[E _]%andb_prop|E]; [lia|]. apply bool_decide_eq_true in E. apply (chain_first _ _ (so_chain _ _ H i c Hi)) in E. rewrite E. apply (so_room _ _ H). }
  clear Ego. pose proof Ht as [(ts & Hon & Htl & Htd & Hts) Hend Hcl]. destruct (Hts i c Hid Hi) as (t & all & Hti & Htr). unfold left_on in Htr. rewrite Hact in Htr.
  destruct (sc_pend c) as [|x pend] eqn:Epend.
  - cbn [fmap list_fmap concat app] in Htr. destruct (getlen_mark_ok s ts i t false all _ Hon Hti Htr) as (l & t' & Hget & Hon' & Htr').
    rewrite (mbind_ok _ _ _ _ _ Hget). cbn [Z.eqb]. rewrite mget_ok, upd_idx_ok by (cbn; rewrite (so_active _ _ H), length_fmap; by eapply lookup_lt_Some).
    set (c' := mkSrc (sc_top c) (sc_pre c) [] (sc_rest c) false). eexists _, c'. split; [reflexivity|].
    assert (H1 : slots_ok (set_tapeset (Some l) s) cs) by (eapply slots_ok_touched; [apply touched_tapeset|exact H]).
    split_and!; [by apply (end_active _ cs i c H1)| | |done|done].
    + eapply (tapes_ok_update s _ bs cs i c c' ts t'); done.
    + split; [split_and!|]; try done. unfold todo. by rewrite Epend.
  - pose proof (Hcl i c Hi) as Hclx. rewrite Epend in Hclx. apply Forall_cons in Hclx as [[Hg Hnorm] Hclp].
    cbn [fmap list_fmap concat] in Htr. rewrite <- !app_assoc in Htr. pose proof (so_env _ _ H) as [_ Hk Hra _ _].
    destruct (read_tuple_ok s ts i t false all (concat (enc_tuple ra <$> pend) ++ mark ++ enc_runs ra (sc_rest c)) x) as (len & s1 & y & s2 & t' & Hget & Hlen & Hrd & Hy & Hto & Hon' & Htr');
      [by rewrite Hk|done|done|by rewrite Hra|].
    rewrite (mbind_ok _ _ _ _ _ Hget), Hlen, (mbind_ok _ _ _ _ _ Hrd).
    destruct (store_ok s2 cs i c y pend) as (j & s3 & Hst & H3 & Ho3 & Hts3 & Hn3); [|by eapply slots_ok_touched|done|done|done|].
    { apply (sm_domain (valid := valid) 0). change (in_domain (norm y)). rewrite Hy. apply (in_domain_norm valid), Hg. }
    rewrite (mbind_ok _ _ _ _ _ Hst). rewrite Hy, Hnorm in H3. set (c1 := read_ahead c j x pend) in *.
    assert (Ht3 : tapes_ok s3 bs (<[i := c1]> cs)).
    { eapply (tapes_ok_update s _ bs cs i c c1 ts t'); try done.
      - destruct Hon' as (l' & ? & ?). exists l'. by rewrite Hts3.
      - unfold left_on. cbn. rewrite Hact. rewrite <- app_assoc. exact Htr'.
      - cbn. congruence. }
    destruct (IH s3 bs (<[i := c1]> cs) c1 H3 Ht3) as (s' & c' & Hrun & H' & Ht' & ((Hr1 & Hr2 & Hr3 & Hr4) & Hr5) & Ho' & Hn'); [|done|done|done|cbn in *; lia|].
    { apply list_lookup_insert_eq. by eapply lookup_lt_Some. }
    rewrite list_insert_insert_eq in H', Ht'. exists s', c'. destruct Hto as (a & l & ->). split_and!; [exact Hrun|exact H'|exact Ht'| |rewrite Ho', Ho3; done|rewrite Hn', Hn3; done].
    split; [split_and!; [|by rewrite Hr2|by rewrite Hr3|congruence]|done]. rewrite Hr1. unfold todo. cbn. rewrite Epend, fmap_app, <- !app_assoc. done.
Qed.

Context (Hdest : parts !! dest = Some false).

Lemma active_source s bs cs i c : slots_ok s cs -> tapes_ok s bs cs -> cs !! i = Some c -> sc_act c = true -> parts !! i = Some true /\ i <> dest.
Proof.
  intros H Ht Hi Hact. destruct (lookup_lt_is_Some_2 parts i) as [b Hb]; [rewrite (so_len _ _ H), <- (slots_ok_length _ _ H); by eapply lookup_lt_Some|].
  pose proof (Forall2_lookup_lr _ _ _ i b c (so_within _ _ H) Hb Hi) as Hw. destruct b; [|destruct Hw as (_ & _ & _ & ?); congruence].
  split; [done|]. intros ->. congruence.
Qed.

Lemma mergeprereadone_ok i s bs cs c : slots_ok s cs -> tapes_ok s bs cs -> cs !! i = Some c ->
  exists s' c', mergeprereadone i s = Ok (tt, s') /\ slots_ok s' (<[i := c']> cs) /\ tapes_ok s' bs (<[i := c']> cs) /\ refilled c c' /\
    outer s' = outer s /\ memtupcount s' = memtupcount s.
Proof using HL Hdest.
  intros H Ht Hi. unfold mergeprereadone. rewrite mget_ok.
  assert (Hac : mergeactive s !! i = Some (sc_act c)) by (rewrite (so_active _ _ H), list_lookup_fmap, Hi; done). rewrite (at_idx_ok _ _ _ _ _ Hac).
  destruct (sc_act c) eqn:Eact.
  2:{ exists s, c. rewrite list_insert_id by done. split_and!; try done. split; [done|]. intros _. split; [by apply (to_ended _ _ _ Ht i c)|done]. }
  destruct (active_source s bs cs i c H Ht Hi Eact) as [Hp Hid]. pose proof (so_env _ _ H) as [HP Hk Hra Hrm (Ha1 & Ha2 & Ha3 & Ha4 & Ha5)].
  assert (HiP : i < S P) by (rewrite <- (slots_ok_length _ _ H); by eapply lookup_lt_Some).
  destruct (lookup_lt_is_Some_2 (mergeavailmem s) i) as [avail Hav]; [lia|]. rewrite (at_idx_ok _ _ _ _ _ Hav), mput_ok.
  pose proof Ht as [(ts & (lts & Hlts & Hrep) & Htl & Htd & Hts) _ _]. destruct (Hts i c Hid Hi) as (t & all & Hti & Htr).
  unfold tapes. rewrite mbind_assoc, mget_ok. cbn [tapeset set_availMem]. rewrite Hlts. unfold mbind at 1, M_bind at 1, deref at 1.
  destruct (lookup_lt_is_Some_2 (lt_tapes lts) i) as [lt Hlt]; [pose proof Hrep as (owns & _ & Hl & _); lia|]. rewrite (at_idx_ok _ _ _ _ _ Hlt).
  assert (Hfuel : length (sc_pend c) < S (tape_size lt)).
  { rewrite (tape_size_reading _ _ _ _ _ _ _ _ Hrep Hlt Hti Htr). destruct Htr as (_ & _ & <- & Hd). apply (f_equal length) in Hd. rewrite length_drop in Hd. unfold left_on in Hd.
    rewrite Eact, !length_app in Hd. pose proof (enc_tuples_length ra (sc_pend c)). lia. }
  set (s1 := set_availMem avail s). assert (H1 : slots_ok s1 cs) by (eapply slots_ok_touched; [apply touched_avail; by rewrite Hlts|exact H]).
  assert (Ht1 : tapes_ok s1 bs cs) by (exact (tapes_ok_same s s1 bs cs eq_refl Ht)).
  destruct (preread_loop_ok i _ s1 bs cs c H1 Ht1 Hi Hp Hid Eact Hfuel) as (s2 & c' & Hrun & H2 & Ht2 & Href & Ho2 & Hn2).
  rewrite (mbind_ok _ _ _ _ _ Hrun), mget_ok. pose proof (so_env _ _ H2) as [_ _ _ _ (_ & _ & _ & _ & Hb5)]. rewrite upd_idx_ok by lia. unfold mput.
  eexists _, c'. split; [reflexivity|]. split_and!; [|apply (tapes_ok_same s2); [reflexivity|exact Ht2]|exact Href|exact Ho2|exact Hn2].
  destruct H2 as [[] ? ? ? ? ? ? ? ? ? ? ?]. split; try done. split; cbn; rewrite ?length_insert; done.
Qed.

(** Every source, some of which were refilled. *)
Definition each_refilled cs cs' : Prop := Forall2 refilled cs cs'.

Lemma mergepreread_loop_ok n : forall j s bs cs, slots_ok s cs -> tapes_ok s bs cs -> j + n = S P ->
  exists s' cs', for_tapes n j mergeprereadone s = Ok (tt, s') /\ slots_ok s' cs' /\ tapes_ok s' bs cs' /\ outer s' = outer s /\ memtupcount s' = memtupcount s /\
    take j cs' = take j cs /\ each_refilled (drop j cs) (drop j cs').
Proof using HL Hdest.
  induction n as [|n IH]; intros j s bs cs H Ht Hj; cbn [for_tapes].
  { exists s, cs. split_and!; try done. rewrite drop_ge by (rewrite (slots_ok_length _ _ H); lia). constructor. }
  destruct (lookup_lt_is_Some_2 cs j) as [c Hc]; [rewrite (slots_ok_length _ _ H); lia|].
  destruct (mergeprereadone_ok j s bs cs c H Ht Hc) as (s1 & c' & Hrun & H1 & Ht1 & Href & Ho & Hn). rewrite (mbind_ok _ _ _ _ _ Hrun).
  destruct (IH (S j) s1 bs _ H1 Ht1 ltac:(lia)) as (s' & cs' & Hrun' & H' & Ht' & Ho' & Hn' & Htake & Hdrop). pose proof (lookup_lt_Some _ _ _ Hc) as Hlt.
  exists s', cs'. split_and!; [exact Hrun'|exact H'|exact Ht'|by rewrite Ho'|by rewrite Hn'| |].
  - apply (f_equal (take j)) in Htake. rewrite !take_take, !Nat.min_l, take_insert_ge in Htake by lia. done.
  - assert (Hcj : cs' !! j = Some c').
    { rewrite <- (lookup_take_lt cs' (S j)) by lia. rewrite Htake, lookup_take_lt by lia. by apply list_lookup_insert_eq. }
    unfold each_refilled. rewrite (drop_S _ _ _ Hc), (drop_S _ _ _ Hcj). constructor; [exact Href|]. rewrite drop_insert_lt in Hdrop by lia. exact Hdrop.
Qed.

Lemma mergepreread_ok s bs cs : slots_ok s cs -> tapes_ok s bs cs ->
  exists s' cs', mergepreread s = Ok (tt, s') /\ slots_ok s' cs' /\ tapes_ok s' bs cs' /\ outer s' = outer s /\ memtupcount s' = memtupcount s /\ each_refilled cs cs'.
Proof using HL Hdest.
  intros H Ht. destruct (mergepreread_loop_ok (S P) 0 s bs cs H Ht ltac:(lia)) as (s' & cs' & Hrun & H' & Ht' & Ho & Hn & _ & Hr).
  exists s', cs'. rewrite !drop_0 in Hr. split_and!; try done. unfold mergepreread, gets, mbind, M_bind. pose proof (so_env _ _ H) as [(_ & _ & ->) _ _ _ _]. exact Hrun.
Qed.

(** ** Between the lists and the heap *)

(** The source after its next tuple went to the heap. *)
Definition pulled c x (pre : list (nat * SortTuple T)) : source T := mkSrc (Some x) pre (sc_pend c) (sc_rest c) (sc_act c).
Definition pull_state (i j n : nat) (nx la : list nat) (slots : Z) (mt : list (SortTuple T)) s : state :=
  set_mergeavailslots (<[i := (slots + 1)%Z]> (mergeavailslots s)) (set_mergefreelist j (set_memtuples mt
    (set_memtupcount n (set_mergelast la (set_mergenext nx s))))).

Lemma last_slot_cons j (x : SortTuple T) l : last_slot ((j, x) :: l) = if decide (l = []) then j else last_slot l.
Proof. by destruct l. Qed.

Lemma pull_ok s cs i c j x pre : slots_ok s cs -> cs !! i = Some c -> parts !! i = Some true -> sc_top c = None -> sc_pre c = (j, x) :: pre ->
  exists s', pull_preread i j s = Ok (tt, s') /\ slots_ok s' (<[i := pulled c x pre]> cs) /\ outer s' = outer s /\ tapeset s' = tapeset s.
Proof using HL Hv.
  intros H Hi Hp Htop Hpre. pose proof (so_env _ _ H) as [(HP2 & HP & Hmx) Hk Hra Hrm (Ha1 & Ha2 & Ha3 & Ha4 & Ha5)].
  assert (HiP : i < S P) by (rewrite <- (slots_ok_length _ _ H); by eapply lookup_lt_Some).
  pose proof (so_chain _ _ H i c Hi) as Hch. rewrite Hpre in Hch. destruct Hch as (Hj0 & Hj & Hch).
  assert (HAj : A <= j) by (eapply slots_ok_range; [exact H|exact Hi|]; rewrite Hpre; mem).
  pose proof (slots_ok_count _ _ H) as [Hcnt _]. pose proof (within_tops_room _ _ _ (so_within _ _ H) 0 i c Hi Hp Htop) as Hroom. rewrite <- Hcnt in Hroom.
  unfold pull_preread. rewrite mget_ok, (at_idx_ok _ _ _ _ _ Hj). cbn [tupindex with_tupindex]. rewrite Nat2Z.id. rewrite upd_idx_ok by lia.
  set (la := if decide (pre = []) then <[i := 0]> (mergelast s) else mergelast s). cbv zeta.
  set (s1 := set_mergelast la (set_mergenext (<[i := first_slot pre]> (mergenext s)) s)).
  assert (Hla : (if bool_decide (first_slot pre = 0) then upd_idx (mergelast (set_mergenext (<[i := first_slot pre]> (mergenext s)) s)) i 0
     else mret (mergelast (set_mergenext (<[i := first_slot pre]> (mergenext s)) s))) s = Ok (la, s)).
  { unfold la. pose proof (chain_first _ _ Hch) as Hf. destruct (decide (pre = [])) as [He|Hne].
    - rewrite bool_decide_true by tauto. cbn. unfold upd_idx. by rewrite decide_True by lia.
    - rewrite bool_decide_false by tauto. done. }
  rewrite (mbind_ok _ _ _ _ _ Hla), mput_ok. fold s1. clear Hla.
  assert (Hheap1 : heap_inv s1) by apply (so_heap _ _ H).
  assert (Hdx : in_domain x /\ Forall in_domain pre.*2) by (pose proof (Forall_lookup_1 _ _ _ _ (so_domain _ _ H) Hi) as Hd0; cbn beta in Hd0; rewrite Hpre, fmap_cons, Forall_cons in Hd0; exact Hd0).
  destruct (insert_ok valid s1 (with_tupindex (Z.of_nat (first_slot pre)) x) (Z.of_nat i)) as (mt & Hins & Hml & Hok & Hperm & Hfr);
    [cbn; by rewrite Hk|exact Hheap1|change (memtupsize s1) with (memtupsize s); destruct (so_room _ _ H) as (? & _); change (memtupcount s1) with (memtupcount s); lia|apply (in_domain_norm valid), Hdx|].
  change (memtupcount s1) with (memtupcount s) in *. change (memtupsize s1) with (memtupsize s) in *. change (scanKeys s1) with (scanKeys s) in *.
  change (in_heap s1) with (in_heap s) in *. change (memtuples s1) with (memtuples s) in *.
  rewrite (mbind_ok _ _ _ _ _ Hins), mget_ok. cbn [memtuples set_memtupcount set_memtuples].
  assert (Hj' : mt !! j = Some (with_tupindex (Z.of_nat (first_slot pre)) x)) by (rewrite Hfr by lia; exact Hj).
  rewrite (at_idx_ok _ _ _ _ _ Hj'), upd_idx_ok by (by eapply lookup_lt_Some).
  pose proof (so_slots _ _ H i c Hp Hi) as Hsl. cbn [mergeavailslots s1 set_memtupcount set_memtuples set_mergelast set_mergenext]. rewrite (at_idx_ok _ _ _ _ _ Hsl).
  set (slots := (Z.of_nat per - Z.of_nat (length (sc_pre c)))%Z) in *.
  set (mt' := <[j := with_tupindex (Z.of_nat (mergefreelist s)) x]> mt).
  exists (pull_state i j (S (memtupcount s)) (<[i := first_slot pre]> (mergenext s)) la slots mt' s). split_and!; [|..|done|done].
  { unfold mput, pull_state, mt'. flat_state. reflexivity. }
  assert (Hml' : length mt' = memtupsize s) by (unfold mt'; by rewrite length_insert).
  assert (Hmt' : forall q, memtupcount s < q -> q <> j -> mt' !! q = memtuples s !! q) by (intros q Hq Hqj; unfold mt'; rewrite list_lookup_insert_ne by done; apply Hfr; lia).
  destruct (so_free _ _ H) as (fl & Hf1 & Hf2 & Hf3 & Hf4). pose proof (so_within _ _ H) as Hw.
  assert (Hnd : NoDup (slots_of cs ++ fl.*1)) by (rewrite Hf3; apply NoDup_seq). apply NoDup_app in Hnd as (Hns & Hdis & _).
  assert (Hjs : j ∈ slots_of cs) by (eapply slots_elem; [exact Hi|]; rewrite Hpre; mem).
  set (c' := pulled c x pre). assert (Hslots : slots_of cs ≡ₚ j :: slots_of (<[i := c']> cs)).
  { pose proof (slots_insert cs i c c' Hi) as E. rewrite Hpre in E. cbn in E. rewrite (Permutation_app_comm _ (j :: pre.*1)) in E. cbn in E.
    rewrite (Permutation_app_comm (pre.*1)), app_comm_cons in E. apply Permutation_app_inv_r in E. by symmetry. }
  assert (Hjpre : j ∉ pre.*1).
  { unfold slots_of in Hns. rewrite (concat_middle _ i ((sc_pre c).*1)) in Hns by (by rewrite list_lookup_fmap, Hi). rewrite Hpre in Hns. cbn in Hns.
    apply NoDup_app in Hns as (_ & _ & Hns). apply NoDup_cons in Hns as [Hns _]. intros Hin. apply Hns. mem. }
  destruct (heap_same (set_memtuples mt s) mt' (S (memtupcount s))) as [Hok' Htake].
  { cbn. by rewrite Hk in Hok. } { intros q Hq. cbn. unfold mt'. apply list_lookup_insert_ne. lia. }
  split; cbn; try done.
  - split; unfold memtupsize; cbn; rewrite ?length_insert, ?Hml'; try done. unfold la. case_decide; rewrite ?length_insert; done.
  - apply within_update; [done|done|]. pose proof (Forall2_lookup_lr _ _ _ i true c Hw Hp Hi) as Hl. cbn in Hl. rewrite Hpre in Hl. cbn in Hl |- *. lia.
  - apply (so_len _ _ H).
  - rewrite (fmap_update _ _ _ _ _ Hi) by done. apply (so_active _ _ H).
  - by rewrite list_fmap_insert, (so_next _ _ H).
  - rewrite list_fmap_insert. cbn [c' pulled sc_pre]. unfold la. rewrite (so_last _ _ H). case_decide as He; [by rewrite He|].
    symmetry. apply list_insert_id. rewrite list_lookup_fmap, Hi. cbn. rewrite Hpre, last_slot_cons. by case_decide.
  - intros i' d Hp' Hd. destruct (decide (i' = i)) as [->|Hne].
    + rewrite list_lookup_insert_eq in Hd by (rewrite (slots_ok_length _ _ H); lia). injection Hd as <-. rewrite list_lookup_insert_eq by lia. unfold slots. rewrite Hpre. cbn. f_equal. lia.
    + rewrite list_lookup_insert_ne in Hd by done. rewrite list_lookup_insert_ne by done. by apply (so_slots _ _ H).
  - intros i' d Hd. destruct (decide (i' = i)) as [->|Hne].
    + rewrite list_lookup_insert_eq in Hd by (rewrite (slots_ok_length _ _ H); lia). injection Hd as <-. cbn. eapply slot_chain_frame; [|exact Hch].
      intros q Hq. apply Hmt'; [|by intros ->]. assert (A <= q); [|lia]. eapply slots_ok_range; [exact H|exact Hi|]. rewrite Hpre. cbn. by right.
    + rewrite list_lookup_insert_ne in Hd by done. eapply slot_chain_frame; [|by apply (so_chain _ _ H i')].
      intros q Hq. apply Hmt'; [pose proof (slots_ok_range _ _ _ _ _ H Hd Hq); lia|]. intros ->. apply (slots_disjoint cs i' d i c j Hns Hd Hi Hne Hq). rewrite Hpre. by left.
  - exists ((j, x) :: fl). cbn. split_and!; [done|done| | | |done].
    + unfold mt'. rewrite list_lookup_insert_eq by (by eapply lookup_lt_Some). by rewrite Hf1.
    + eapply slot_chain_frame; [|exact Hf2]. intros q Hq.
      assert (Hin : q ∈ seq A (mergefirstfree s - A)) by (rewrite <- Hf3; mem). apply elem_of_seq in Hin. apply Hmt'; [lia|]. intros ->. by apply (Hdis j).
    + rewrite <- Permutation_middle, app_comm_cons, <- Hslots. exact Hf3.
  - unfold memtupsize. cbn. rewrite Hml'. apply (so_room _ _ H).
  - split_and!; cbn; [by rewrite Hk|unfold memtupsize; cbn; rewrite Hml'; destruct (so_room _ _ H) as (? & _); lia|].
    unfold in_heap. cbn [pull_state memtupcount memtuples set_mergeavailslots set_mergefreelist set_memtuples set_memtupcount]. rewrite Htake. cbn [memtuples set_memtuples]. rewrite Hperm.
    constructor; [do 2 apply (in_domain_norm valid); apply Hdx|apply (so_heap _ _ H)].
  - unfold in_heap. cbn [pull_state memtupcount memtuples set_mergeavailslots set_mergefreelist set_memtuples set_memtupcount]. rewrite Htake. cbn [memtuples set_memtuples]. rewrite Hperm.
    rewrite (so_tops _ _ H). pose proof (tops_insert cs 0 i c c' Hi) as E. unfold tagged in E. rewrite Htop in E. cbn in E. rewrite app_nil_r in E. rewrite E.
    change (with_tupindex (Z.of_nat i) (with_tupindex (Z.of_nat (first_slot pre)) x)) with (with_tupindex (Z.of_nat i) x). perm.
  - apply Forall_insert; [apply (so_domain _ _ H)|apply Hdx].
Qed.

Definition popped c : source T := mkSrc None (sc_pre c) (sc_pend c) (sc_rest c) (sc_act c).

(** The heap gives up the least of the first tuples of all sources. *)
Lemma pop_ok s cs top : slots_ok s cs -> 0 < memtupcount s -> memtuples s !! 0 = Some top ->
  exists i c x s', top = with_tupindex (Z.of_nat i) x /\ cs !! i = Some c /\ sc_top c = Some x /\ parts !! i = Some true /\
    tuplesort_heap_siftup false s = Ok (tt, s') /\ slots_ok s' (<[i := popped c]> cs) /\ outer s' = outer s /\ tapeset s' = tapeset s /\
    (forall i' c' x', cs !! i' = Some c' -> sc_top c' = Some x' -> (comparetup k x x' <= 0)%Z).
Proof using HL Hv.
  intros H Hn Htop. pose proof (so_env _ _ H) as [(HP2 & HP & Hmx) Hk Hra Hrm Har]. pose proof (so_heap _ _ H) as Hheap.
  assert (Hin : top ∈ tops 0 cs) by (rewrite <- (so_tops _ _ H); by apply in_heap_top). destruct (tops_elem _ _ _ Hin) as (i & c & x & Hi & Hx & Htopx). cbn in Htopx.
  destruct (siftup_ok valid s top ltac:(by rewrite Hk) Hheap Hn Htop) as (mt & Hsift & Hml & Hok & Hperm & Hfr).
  assert (HiP : i < S P) by (rewrite <- (slots_ok_length _ _ H); by eapply lookup_lt_Some).
  assert (Hp : parts !! i = Some true).
  { destruct (lookup_lt_is_Some_2 parts i) as [b Hb]; [rewrite (so_len _ _ H); lia|]. pose proof (Forall2_lookup_lr _ _ _ i b c (so_within _ _ H) Hb Hi) as Hw.
    destruct b; [done|]. destruct Hw as (? & _). congruence. }
  eexists i, c, x, _. split_and!; [exact Htopx|exact Hi|exact Hx|exact Hp|exact Hsift|..|done|done|].
  2:{ intros i' c' x' Hi' Hx'. pose proof (root_least valid s top (with_tupindex (Z.of_nat i') x') ltac:(by rewrite Hk) Hheap Htop) as Hl. rewrite Hk, Htopx, (cmp_norm_l valid), (cmp_norm_r valid) in Hl.
      apply Hl. rewrite (so_tops _ _ H). by apply (tops_in cs 0 i' c'). }
  pose proof (slots_ok_count _ _ H) as [_ Hcnt]. destruct (so_free _ _ H) as (fl & Hf1 & Hf2 & Hf3 & Hf4).
  assert (Hsame : forall q, A <= q -> mt !! q = memtuples s !! q) by (intros q Hq; apply Hfr; lia).
  set (c' := popped c). assert (Hlook : forall i' d, <[i := c']> cs !! i' = Some d -> exists d0, cs !! i' = Some d0 /\ sc_pre d = sc_pre d0).
  { intros i' d Hd. destruct (decide (i' = i)) as [->|]; [|rewrite list_lookup_insert_ne in Hd by done; eauto].
    rewrite list_lookup_insert_eq in Hd by (rewrite (slots_ok_length _ _ H); lia). injection Hd as <-. by exists c. }
  split; cbn; try done.
  - split; unfold memtupsize; cbn; rewrite ?Hml; try done.
  - apply within_update; [by apply (so_within _ _ H)|done|]. exact (Forall2_lookup_lr _ _ _ i true c (so_within _ _ H) Hp Hi).
  - apply (so_len _ _ H).
  - rewrite (fmap_update _ _ _ _ _ Hi) by done. apply (so_active _ _ H).
  - rewrite (fmap_update _ _ _ _ _ Hi) by done. apply (so_next _ _ H).
  - rewrite (fmap_update _ _ _ _ _ Hi) by done. apply (so_last _ _ H).
  - intros i' d Hp' Hd. destruct (Hlook i' d Hd) as (d0 & Hd0 & ->). by apply (so_slots _ _ H).
  - intros i' d Hd. destruct (Hlook i' d Hd) as (d0 & Hd0 & ->). eapply slot_chain_frame; [|by apply (so_chain _ _ H i' d0)]. intros q Hq. apply Hsame. by eapply slots_ok_range.
  - exists fl. split_and!; [done| | |done].
    + eapply slot_chain_frame; [|exact Hf2]. intros q Hq. apply Hsame. assert (Hin' : q ∈ seq A (mergefirstfree s - A)) by (rewrite <- Hf3; mem). apply elem_of_seq in Hin'. lia.
    + pose proof (slots_insert cs i c c' Hi) as E. cbn in E. apply Permutation_app_inv_r in E. by rewrite E.
  - unfold memtupsize. cbn. rewrite Hml. apply (so_room _ _ H).
  - by eapply (siftup_inv s).
  - pose proof (tops_insert cs 0 i c c' Hi) as E. unfold tagged in E. rewrite Hx in E. cbn in E. rewrite app_nil_r, <- (so_tops _ _ H), Hperm, Htopx in E.
    rewrite (Permutation_app_comm _ [_]) in E. cbn in E. apply Permutation_cons_inv in E. symmetry. exact E.
  - apply Forall_insert; [apply (so_domain _ _ H)|]. exact (Forall_lookup_1 _ _ _ _ (so_domain _ _ H) Hi).
Qed.

(** ** One step of the merge *)

(** A source has a tuple in the heap as long as there is anything to come from it. *)
Definition spent c : Prop := todo c = [] /\ sc_act c = false.
Definition settled cs : Prop := forall i c, cs !! i = Some c -> sc_top c = None -> spent c.

Definition steady cs cs' : Prop := Forall2 kept cs cs'.
Lemma steady_maps cs cs' : steady cs cs' -> todo <$> cs' = todo <$> cs /\ sc_rest <$> cs' = sc_rest <$> cs.
Proof. induction 1 as [|c c' cs cs' (E1 & _ & E3 & _) _ (I1 & I2)]; [done|]. rewrite !fmap_cons. by rewrite E1, E3, I1, I2. Qed.
Lemma each_refilled_steady cs cs' : each_refilled cs cs' -> steady cs cs'.
Proof. intros H. eapply Forall2_impl; [exact H|]. by intros c c' [? _]. Qed.
Lemma refilled_steady cs i c c' : cs !! i = Some c -> refilled c c' -> steady cs (<[i := c']> cs).
Proof.
  intros Hi [Hk _]. rewrite <- (list_insert_id cs i c Hi) at 1. apply Forall2_insert; [|exact Hk]. apply Forall2_same_length_lookup. split; [done|].
  intros j d d' Hd Hd'. rewrite Hd in Hd'. injection Hd' as <-. done.
Qed.

(** What reading ahead does, from all tapes or from one. *)
Definition refills (i : nat) (f : M state unit) : Prop := forall s bs cs c, slots_ok s cs -> tapes_ok s bs cs -> cs !! i = Some c ->
  exists s' cs' c', f s = Ok (tt, s') /\ slots_ok s' cs' /\ tapes_ok s' bs cs' /\ outer s' = outer s /\ steady cs cs' /\ cs' !! i = Some c' /\ refilled c c'.

Lemma mergepreread_refills i : refills i mergepreread.
Proof using HL Hdest.
  intros s bs cs c H Ht Hi. destruct (mergepreread_ok s bs cs H Ht) as (s' & cs' & Hrun & H' & Ht' & Ho & _ & Hr).
  destruct (Forall2_lookup_l _ _ _ i c Hr Hi) as (c' & Hi' & Hc'). exists s', cs', c'. split_and!; try done; by apply each_refilled_steady.
Qed.
Lemma mergeprereadone_refills i : refills i (mergeprereadone i).
Proof using HL Hdest.
  intros s bs cs c H Ht Hi. destruct (mergeprereadone_ok i s bs cs c H Ht Hi) as (s' & c' & Hrun & H' & Ht' & Hr & Ho & _).
  exists s', (<[i := c']> cs), c'. split_and!; try done; [by eapply refilled_steady..|]. apply list_lookup_insert_eq. by eapply lookup_lt_Some.
Qed.


(** The source whose tuple left the heap sends the next one, after reading ahead if need be. *)
Lemma advance_ok i f {B} (g : M state B) s bs cs c : refills i f -> slots_ok s cs -> tapes_ok s bs cs -> cs !! i = Some c -> parts !! i = Some true -> sc_top c = None ->
  (forall j d, j <> i -> cs !! j = Some d -> sc_top d = None -> spent d) ->
  exists s' cs', (s ← mget; next ← at_idx (mergenext s) i; (if bool_decide (next = 0) then f else mret tt);;
      s ← mget; next ← at_idx (mergenext s) i; (if bool_decide (next = 0) then mret tt else pull_preread i next);; g) s = g s' /\
    slots_ok s' cs' /\ tapes_ok s' bs cs' /\ settled cs' /\ todo <$> cs' = todo <$> cs /\ sc_rest <$> cs' = sc_rest <$> cs /\ outer s' = outer s.
Proof using HL Hv.
  intros Hf H Ht Hi Hp Htop Hoth. rewrite mget_ok.
  assert (Hnext : forall s cs c, slots_ok s cs -> cs !! i = Some c -> mergenext s !! i = Some (first_slot (sc_pre c)) /\ (first_slot (sc_pre c) = 0 <-> sc_pre c = [])).
  { clear -i. intros s cs c H Hi. split; [by rewrite (so_next _ _ H), list_lookup_fmap, Hi|]. apply (chain_first _ _ (so_chain _ _ H i c Hi)). }
  destruct (Hnext s cs c H Hi) as [Hn Hz]. rewrite (at_idx_ok _ _ _ _ _ Hn).
  assert (Hfill : exists s1 cs1 c1, (if bool_decide (first_slot (sc_pre c) = 0) then f else mret tt) s = Ok (tt, s1) /\ slots_ok s1 cs1 /\ tapes_ok s1 bs cs1 /\ outer s1 = outer s /\
    steady cs cs1 /\ cs1 !! i = Some c1 /\ refilled c c1).
  { destruct (decide (first_slot (sc_pre c) = 0)) as [He|Hne].
    - rewrite bool_decide_true by done. apply (Hf s bs cs c H Ht Hi).
    - rewrite bool_decide_false by done. exists s, cs, c. split_and!; try done; [|split; [done|tauto]]. rewrite <- (list_insert_id cs i c Hi) at 2. apply (refilled_steady cs i c c Hi). split; [done|tauto]. }
  destruct Hfill as (s1 & cs1 & c1 & Hrun & H1 & Ht1 & Ho1 & Hst & Hi1 & [(Hr1 & Hr2 & Hr3 & Hr4) Hr5]). rewrite (mbind_ok _ _ _ _ _ Hrun), mget_ok.
  destruct (steady_maps _ _ Hst) as [Hm1 Hm2].
  assert (Hoth1 : forall j d, j <> i -> cs1 !! j = Some d -> sc_top d = None -> spent d).
  { intros j d Hj Hd Hdt. destruct (Forall2_lookup_r _ _ _ j d Hst Hd) as (d0 & Hd0 & (K1 & K2 & K3 & K4)). destruct (Hoth j d0 Hj Hd0) as [E1 E2]; [by rewrite <- K2|]. split; [by rewrite K1|by apply K4]. }
  destruct (Hnext s1 cs1 c1 H1 Hi1) as [Hn1 Hz1]. rewrite (at_idx_ok _ _ _ _ _ Hn1). destruct (sc_pre c1) as [|[j x] pre] eqn:Epre.
  - rewrite bool_decide_true by done. rewrite mret_ok. exists s1, cs1. split_and!; try done. intros j d Hd Hdt. destruct (decide (j = i)) as [->|Hne]; [|by eapply Hoth1].
    rewrite Hi1 in Hd. injection Hd as <-. destruct (Hr5 eq_refl) as [Hpend Hact]. split; [|exact Hact]. unfold todo. by rewrite Hdt, Epre, Hpend.
  - rewrite bool_decide_false by (intros E; by apply Hz1 in E). cbn [first_slot head from_option fst].
    destruct (pull_ok s1 cs1 i c1 j x pre H1 Hi1 Hp ltac:(by rewrite Hr2) Epre) as (s2 & Hpull & H2 & Ho2 & Hts2). rewrite (mbind_ok _ _ _ _ _ Hpull).
    assert (Htodo : todo (pulled c1 x pre) = todo c1) by (unfold todo; cbn; rewrite Hr2, Htop, Epre; done).
    exists s2, (<[i := pulled c1 x pre]> cs1). split_and!; [done|exact H2| | | | |by rewrite Ho2, Ho1].
    + apply (tapes_ok_same s1); [done|]. by apply (tapes_ok_keep s1 bs cs1 i c1).
    + intros q d Hd Hdt. destruct (decide (q = i)) as [->|Hne]; [rewrite list_lookup_insert_eq in Hd by (by eapply lookup_lt_Some); injection Hd as <-; discriminate Hdt|].
      rewrite list_lookup_insert_ne in Hd by done. by apply (Hoth1 q d).
    + rewrite (fmap_update todo _ _ _ _ Hi1) by done. exact Hm1.
    + rewrite (fmap_update sc_rest _ _ _ _ Hi1) by done. exact Hm2.
Qed.

(** ** The merge *)

Definition todos cs : list (SortTuple T) := concat (todo <$> cs).
Definition all_sorted cs : Prop := Forall (fun c => sorted (comparetup k) (todo c)) cs.

Lemma todos_elem cs y : y ∈ todos cs -> exists i c, cs !! i = Some c /\ y ∈ todo c.
Proof.
  unfold todos. induction cs as [|c cs IH]; cbn; [by intros ?%elem_of_nil|]. intros [Hy|Hy]%elem_of_app; [by exists 0, c|]. destruct (IH Hy) as (i & d & ? & ?). by exists (S i), d.
Qed.
Lemma todos_pop cs i c x q d : cs !! i = Some c -> todo c = x :: q -> todo d = q -> todos cs ≡ₚ x :: todos (<[i := d]> cs).
Proof.
  intros Hi Hc Hd. unfold todos. rewrite (concat_middle _ i (todo c)) by (by rewrite list_lookup_fmap, Hi).
  rewrite (concat_middle (todo <$> <[i := d]> cs) i q) by (rewrite list_lookup_fmap, list_lookup_insert_eq by (by eapply lookup_lt_Some); cbn; by rewrite Hd).
  rewrite <- !fmap_take, <- !fmap_drop, take_insert_ge, drop_insert_lt by lia. rewrite Hc. cbn. by rewrite <- !Permutation_middle.
Qed.
(** The least of the first tuples is the least of all. *)
Lemma least_first cs x : settled cs -> all_sorted cs -> (forall i c y, cs !! i = Some c -> sc_top c = Some y -> (comparetup k x y <= 0)%Z) ->
  forall y, y ∈ todos cs -> (comparetup k x y <= 0)%Z.
Proof using HL Hv.
  intros Hs Hso Hx y Hy. pose proof (sm_cmp k Hv) as HC. destruct (todos_elem cs y Hy) as (i & c & Hi & Hyc). destruct (sc_top c) as [z|] eqn:Ez.
  - apply (cmp_trans x z y); [by eapply Hx|]. unfold all_sorted in Hso. rewrite Forall_lookup in Hso. specialize (Hso i c Hi). unfold todo in Hso, Hyc. rewrite Ez in Hso, Hyc. cbn in Hso, Hyc.
    apply elem_of_cons in Hyc as [->|Hyc]; [rewrite (cmp_refl (comparetup k)); lia|]. apply (sorted_cons_inv (comparetup k)) in Hso as [_ Hso]. by apply Hso.
  - destruct (Hs i c Hi Ez) as [E _]. rewrite E in Hyc. by apply elem_of_nil in Hyc.
Qed.
Lemma all_sorted_maps cs cs' : todo <$> cs' = todo <$> cs -> all_sorted cs -> all_sorted cs'.
Proof.
  intros E H. assert (Hs : Forall (sorted (comparetup k)) (todo <$> cs)) by (apply Forall_fmap; exact H). rewrite <- E in Hs. rewrite Forall_fmap in Hs. exact Hs.
Qed.

Lemma slots_ok_mem s cs m : length m = S P -> slots_ok s cs -> slots_ok (set_mergeavailmem m s) cs.
Proof. intros Hm [[HP Hk Hra Hrm (Ha1 & Ha2 & Ha3 & Ha4 & Ha5)] ? ? ? ? ? ? ? ? ? ? ? ?]. by split. Qed.

Lemma tapes_ok_write s bs cs x : slots_ok s cs -> tapes_ok s bs cs -> exists s', writetup dest x s = Ok (tt, s') /\ touched s s' /\ tapes_ok s' (bs ++ enc_tuple ra x) cs.
Proof.
  intros H [(ts & Hon & Htl & Htd & Hts) He Hc]. destruct (writetup_ok s ts dest bs x Hon Htd) as (s' & Hw & Hto & Hon'). rewrite (e_ra _ _ _ _ (so_env _ _ H)) in Hon'.
  exists s'. split_and!; [exact Hw|exact Hto|]. split; [|exact He|exact Hc]. exists (<[dest := written (bs ++ enc_tuple ra x)]> ts). split_and!; [exact Hon'|by rewrite length_insert| |].
  - apply list_lookup_insert_eq. by eapply lookup_lt_Some.
  - intros i c Hi Hci. rewrite list_lookup_insert_ne by done. by apply Hts.
Qed.

(** The least tuple leaves the merge; [f] reads ahead. *)
Lemma merge_next s bs cs top : slots_ok s cs -> tapes_ok s bs cs -> settled cs -> all_sorted cs -> 0 < memtupcount s -> memtuples s !! 0 = Some top ->
  exists i x s1, Z.to_nat (tupindex top) = i /\ i < S P /\ norm top = norm x /\ tuplesort_heap_siftup false s = Ok (tt, s1) /\
    forall f B (g : M state B), refills i f -> exists s' cs', (s ← mget; next ← at_idx (mergenext s) i; (if bool_decide (next = 0) then f else mret tt);;
      s ← mget; next ← at_idx (mergenext s) i; (if bool_decide (next = 0) then mret tt else pull_preread i next);; g) s1 = g s' /\
      slots_ok s' cs' /\ tapes_ok s' bs cs' /\ settled cs' /\ all_sorted cs' /\ todos cs ≡ₚ x :: todos cs' /\ sc_rest <$> cs' = sc_rest <$> cs /\ outer s' = outer s /\
      (forall y, y ∈ todos cs -> (comparetup k x y <= 0)%Z).
Proof using HL Hv.
  intros H Ht Hs Hso Hn Htop. destruct (pop_ok s cs top H Hn Htop) as (i & c & x & s1 & -> & Hi & Hx & Hp & Hsift & H1 & Ho1 & Hts1 & Hmin).
  exists i, x, s1. assert (HiP : i < S P) by (rewrite <- (slots_ok_length _ _ H); by eapply lookup_lt_Some). split_and!; [cbn; lia|exact HiP|by apply norm_with_tupindex|exact Hsift|].
  intros f B g Hf. set (cs1 := <[i := popped c]> cs) in *. assert (Hi1 : cs1 !! i = Some (popped c)) by (apply list_lookup_insert_eq; by eapply lookup_lt_Some).
  assert (Htodo : todo c = x :: todo (popped c)) by (unfold todo; by rewrite Hx).
  destruct (advance_ok i f g s1 bs cs1 (popped c) Hf H1) as (s2 & cs2 & Hrun & H2 & Ht2 & Hs2 & Hm1 & Hm2 & Ho2); [|done|done|done| |].
  - apply (tapes_ok_same s); [done|]. by apply (tapes_ok_keep s bs cs i c).
  - intros j d Hj Hd Hdt. unfold cs1 in Hd. rewrite list_lookup_insert_ne in Hd by done. by apply (Hs j d).
  - exists s2, cs2. split_and!; [exact Hrun|exact H2|exact Ht2|exact Hs2| | | |by rewrite Ho2|by apply least_first].
    + apply (all_sorted_maps _ _ Hm1). unfold cs1. apply Forall_insert; [exact Hso|]. unfold all_sorted in Hso. rewrite Forall_lookup in Hso. specialize (Hso i c Hi). rewrite Htodo in Hso.
      by apply (sorted_cons_inv (comparetup k)) in Hso as [? _].
    + unfold todos at 2. rewrite Hm1. apply (todos_pop cs i c x (todo (popped c)) (popped c) Hi Htodo eq_refl).
    + rewrite Hm2. unfold cs1. apply (fmap_update sc_rest _ _ _ _ Hi). done.
Qed.

Lemma no_tops_spent s cs : slots_ok s cs -> settled cs -> memtupcount s = 0 -> Forall spent cs.
Proof.
  intros H Hs Hn. pose proof (slots_ok_count _ _ H) as [Hc _]. rewrite Hn in Hc. symmetry in Hc. apply nil_length_inv in Hc. rewrite Forall_lookup. intros i c Hi.
  apply (Hs i c Hi). destruct (sc_top c) as [x|] eqn:E; [|done]. pose proof (tops_in cs 0 i c x Hi E) as Hin. rewrite Hc in Hin. by apply elem_of_nil in Hin.
Qed.
Lemma spent_todos cs : Forall spent cs -> todos cs = [].
Proof. unfold todos. induction 1 as [|c cs [E _] _ IH]; [done|]. cbn. by rewrite E, IH. Qed.

Lemma mergeonerun_loop_ok fuel : forall s bs cs, slots_ok s cs -> tapes_ok s bs cs -> settled cs -> all_sorted cs -> length (todos cs) < fuel -> Forall clean (todos cs) ->
  exists s' cs' out, mergeonerun_loop fuel dest s = Ok (tt, s') /\ slots_ok s' cs' /\ tapes_ok s' (bs ++ concat (enc_tuple ra <$> out)) cs' /\ Forall spent cs' /\
    sc_rest <$> cs' = sc_rest <$> cs /\ outer s' = outer s /\ memtupcount s' = 0 /\ out ≡ₚ todos cs /\ sorted (comparetup k) out.
Proof using HL HT Hv Hdest.
  induction fuel as [|fuel IH]; intros s bs cs H Ht Hs Hso Hf Hcl; [lia|]. cbn [mergeonerun_loop]. rewrite mget_ok. destruct (decide (0 < memtupcount s)) as [Hn|Hn].
  2:{ rewrite bool_decide_false by done. pose proof (no_tops_spent s cs H Hs ltac:(lia)) as Hsp. exists s, cs, []. rewrite (spent_todos cs Hsp). cbn. rewrite app_nil_r. split_and!; try done; [lia|constructor]. }
  rewrite bool_decide_true by done. destruct (so_heap _ _ H) as (_ & Hle & _). destruct (lookup_lt_is_Some_2 (memtuples s) 0) as [top Htop]; [unfold memtupsize in Hle; lia|].
  rewrite (at_idx_ok _ _ _ _ _ Htop). destruct (tapes_ok_write s bs cs top H Ht) as (s1 & Hw & Hto & Ht1). rewrite (mbind_ok _ _ _ _ _ Hw), mget_ok.
  assert (H1 : slots_ok s1 cs) by (by eapply slots_ok_touched). assert (Hsame : memtuples s1 = memtuples s /\ memtupcount s1 = memtupcount s /\ outer s1 = outer s) by (by destruct Hto as (a & l & ->)).
  destruct Hsame as (Hm1 & Hn1 & Ho1). clear Hw Hto. pose proof (so_env _ _ H1) as [_ _ _ _ (_ & _ & _ & _ & Ha5)].
  assert (HiP : Z.to_nat (tupindex top) < S P).
  { destruct (pop_ok s cs top H Hn Htop) as (i & c & x & _ & -> & Hi & _). cbn. rewrite Nat2Z.id, <- (slots_ok_length _ _ H). by eapply lookup_lt_Some. }
  destruct (lookup_lt_is_Some_2 (mergeavailmem s1) (Z.to_nat (tupindex top))) as [am Ham]; [lia|]. rewrite (at_idx_ok _ _ _ _ _ Ham), mput_ok.
  set (s2 := set_mergeavailmem _ s1). assert (H2 : slots_ok s2 cs) by (apply slots_ok_mem; [by rewrite length_insert|done]).
  assert (Ht2 : tapes_ok s2 (bs ++ enc_tuple ra top) cs) by (by apply (tapes_ok_same s1)).
  destruct (merge_next s2 _ cs top H2 Ht2 Hs Hso) as (i & x & s3 & Hi & _ & Hnx & Hsift & Hgo); [cbn; lia|cbn; congruence|].
  rewrite (mbind_ok _ _ _ _ _ Hsift), Hi.
  destruct (Hgo mergepreread unit (mergeonerun_loop fuel dest) (mergepreread_refills i)) as (s4 & cs4 & -> & H4 & Ht4 & Hs4 & Hso4 & Htodo & Hrest & Ho4 & Hmin).
  assert (Hcl4 : Forall clean (x :: todos cs4)) by (by rewrite <- Htodo). apply Forall_cons in Hcl4 as [[_ Hx] Hcl4].
  destruct (IH s4 _ cs4 H4 Ht4 Hs4 Hso4) as (s5 & cs5 & out & Hrun & H5 & Ht5 & Hsp & Hrest5 & Ho5 & Hn5 & Hout & Hsort); [apply Permutation_length in Htodo; cbn in Htodo; lia|done|].
  exists s5, cs5, (x :: out). split_and!; [exact Hrun|exact H5| |exact Hsp|by rewrite Hrest5|rewrite Ho5, Ho4; exact Ho1|exact Hn5|by rewrite Hout, Htodo|].
  - cbn [fmap list_fmap concat]. rewrite app_assoc. rewrite <- (enc_norm ra top), Hnx, enc_norm in Ht5. exact Ht5.
  - constructor; [exact Hsort|]. rewrite Forall_forall. intros y Hy. apply Hmin. rewrite Htodo, <- Hout. by right.
Qed.
End Merge.
