(* ===== verification/MergePasses.v ===== *)
(** * MergePasses: the passes of the polyphase merge

    beginmerge, mergeonerun and mergeruns of tuplesort.c: each merge takes one run, real or dummy, from every input tape and
    puts one run on the output tape; each pass empties one tape and goes down one level of the distribution. *)

From S2P Require Import Prelude Order Compare Heap Qsort Tape LogTape Tuplesort InMemory RunTapes Polyphase BuildRuns MergeRuns.
From Stdlib Require Import Permutation.

(** ** Counting *)

Lemma taking_cons b (l : list bool) : taking (b :: l) = if b then S (taking l) else taking l.
Proof. unfold taking. destruct b; [by rewrite filter_cons_True by done|by rewrite filter_cons_False by done]. Qed.
Lemma taking_true (l : list bool) q : l !! q = Some false -> taking (<[q := true]> l) = S (taking l).
Proof.
  revert q. induction l as [|b l IH]; intros [|q] Hq; cbn in Hq; try discriminate Hq.
  - injection Hq as ->. change (<[0 := true]> (false :: l)) with (true :: l). by rewrite !taking_cons.
  - change (<[S q := true]> (b :: l)) with (b :: <[q := true]> l). rewrite !taking_cons, IH by done. by destruct b.
Qed.
Lemma taking_replicate n : taking (replicate n false) = 0.
Proof. induction n as [|n IH]; [done|]. cbn [replicate]. by rewrite taking_cons. Qed.
Lemma taking_le (l : list bool) : taking l <= length l.
Proof. apply length_filter. Qed.
Lemma taking_pos (l : list bool) q : l !! q = Some true -> 0 < taking l.
Proof.
  revert q. induction l as [|b l IH]; intros [|q] Hq; cbn in Hq; try discriminate Hq; rewrite taking_cons; [injection Hq as ->; lia|]. specialize (IH q Hq). destruct b; lia.
Qed.
Lemma taking_bound (l : list bool) q : l !! q = Some false -> taking l < length l.
Proof.
  revert q. induction l as [|b l IH]; intros [|q] Hq; cbn in Hq; try discriminate Hq; rewrite taking_cons; cbn [length].
  - injection Hq as ->. pose proof (taking_le l). lia.
  - specialize (IH q Hq). destruct b; lia.
Qed.

(** Things listed in the order of the tape units, in the order of the tapes. *)
Section by_tape.
Context {B : Type} (tau : list nat) (n : nat) (Htau : tau ≡ₚ seq 0 n).

Definition unit_of (q : nat) : nat := from_option fst 0 (list_find (q =.) tau).
Definition by_tape (f : nat -> B) : list B := (fun q => f (unit_of q)) <$> seq 0 n.

Lemma tau_nodup : NoDup tau.
Proof using Htau. rewrite Htau. apply NoDup_seq. Qed.
Lemma tau_range j q : tau !! j = Some q -> q < n /\ j < n.
Proof using Htau.
  intros H. assert (Hq : q ∈ seq 0 n) by (rewrite <- Htau; by eapply list_elem_of_lookup_2). apply elem_of_seq in Hq. apply lookup_lt_Some in H.
  apply Permutation_length in Htau. rewrite length_seq in Htau. lia.
Qed.
Lemma tau_length : length tau = n.
Proof using Htau. rewrite Htau. apply length_seq. Qed.
Lemma tau_onto q : q < n -> exists j, tau !! j = Some q.
Proof using Htau. intros Hq. apply list_elem_of_lookup. rewrite Htau. apply elem_of_seq. lia. Qed.
Lemma unit_of_tau j q : tau !! j = Some q -> unit_of q = j.
Proof using Htau.
  intros H. unfold unit_of. destruct (list_find (q =.) tau) as [[i x]|] eqn:E.
  - apply list_find_Some in E as (Hi & <- & _). cbn. by eapply NoDup_lookup; [apply tau_nodup|..].
  - rewrite list_find_None in E. rewrite Forall_lookup in E. by destruct (E j q H).
Qed.
Lemma by_tape_length f : length (by_tape f) = n.
Proof using. unfold by_tape. by rewrite length_fmap, length_seq. Qed.
Lemma by_tape_lookup f j q : tau !! j = Some q -> by_tape f !! q = Some (f j).
Proof using Htau.
  intros H. destruct (tau_range j q H) as [Hq _]. unfold by_tape. rewrite list_lookup_fmap, (seq_lookup_self n q Hq). cbn. by rewrite (unit_of_tau j q H).
Qed.
Lemma by_tape_inv f q x : by_tape f !! q = Some x -> exists j, tau !! j = Some q /\ x = f j.
Proof using Htau.
  intros H. pose proof (lookup_lt_Some _ _ _ H) as Hq. rewrite by_tape_length in Hq. destruct (tau_onto q Hq) as [j Hj]. exists j. split; [done|].
  rewrite (by_tape_lookup f j q Hj) in H. by injection H.
Qed.
Lemma by_tape_ext f g : (forall j, j < n -> f j = g j) -> by_tape f = by_tape g.
Proof using Htau.
  intros H. apply list_eq. intros q. destruct (decide (q < n)) as [Hq|Hq].
  - destruct (tau_onto q Hq) as [j Hj]. rewrite !(by_tape_lookup _ j q Hj). f_equal. apply H. by apply (tau_range j q).
  - rewrite !lookup_ge_None_2; [done|rewrite by_tape_length; lia..].
Qed.
Lemma by_tape_perm f : by_tape f ≡ₚ f <$> seq 0 n.
Proof using Htau.
  unfold by_tape. rewrite <- Htau at 1. replace ((fun q => f (unit_of q)) <$> tau) with (f <$> seq 0 n); [done|].
  apply list_eq. intros j. rewrite !list_lookup_fmap. destruct (tau !! j) as [q|] eqn:Ej; cbn.
  - destruct (tau_range j q Ej) as [_ Hj]. rewrite (seq_lookup_self n j Hj). cbn. by rewrite (unit_of_tau j q Ej).
  - apply lookup_ge_None in Ej. rewrite tau_length in Ej. rewrite lookup_ge_None_2; [done|]. by rewrite length_seq.
Qed.
End by_tape.
Lemma fmap_by_tape {B C} (g : B -> C) tau n (f : nat -> B) : g <$> by_tape tau n f = by_tape tau n (fun j => g (f j)).
Proof. unfold by_tape. by rewrite <- list_fmap_compose. Qed.
Lemma fmap_const {B C} (f : B -> C) x l : (forall y, y ∈ l -> f y = x) -> f <$> l = replicate (length l) x.
Proof. induction l as [|y l IH]; intros H; [done|]. cbn. rewrite H by (by left). f_equal. apply IH. intros z Hz. apply H. by right. Qed.

(** ** Between two merges *)

Section Passes.
Context {T K : Type} `{SM : !SortMethods T K} {Dm : Domain T} (valid : K -> Prop) `{HL : !SortMethodsLaws SM valid} `{HT : !TapeMethodsLaws SM}.
Context (P : nat) (k : K) (ra : bool) (Hv : valid k).
Local Abbreviation state := (Tuplesortstate T K).
Local Abbreviation run := (list (SortTuple T)).
Implicit Types (s : state) (rs : list (list run)) (ds : list nat).

(** Tape unit [j] has the runs [rs !! j] and [ds !! j] dummy runs; unit [P] is written, the others are read. *)
Record level s rs ds : Prop := {
  lv_env : env P k ra s;
  lv_tau : tp_tapenum s ≡ₚ seq 0 (S P);
  lv_len : length rs = S P /\ length ds = S P;
  lv_runs : tp_runs s = (fun r => Z.of_nat (length r)) <$> rs;
  lv_dummy : tp_dummy s = Z.of_nat <$> ds;
  lv_empty : memtupcount s = 0;
  lv_tapes : exists ts, on_tapes s ts /\ length ts = S P /\ forall j q r, tp_tapenum s !! j = Some q -> rs !! j = Some r ->
    if decide (j = P) then ts !! q = Some (written (enc_runs ra r)) else exists t all, ts !! q = Some t /\ reading false t all (enc_runs ra r);
  lv_sorted : Forall (Forall (fun r => sorted (comparetup k) r /\ Forall (clean k) r)) rs }.

(** What one merge takes from a unit. *)
Definition head_run (r : list run) (d : nat) : run := if decide (d = 0) then default [] (head r) else [].
Definition other_runs (r : list run) (d : nat) : list run := if decide (d = 0) then tail r else r.

(** From unit [j] on, the units below [P] gave up a run; the others did not change. *)
Record counted (j : nat) (tau : list nat) rs ds rs' ds' (act act' : list bool) : Prop := {
  ct_len : length rs' = length rs /\ length ds' = length ds /\ length act' = length act;
  ct_same : forall i, i < j \/ P <= i -> rs' !! i = rs !! i /\ ds' !! i = ds !! i;
  ct_taken : forall i r d, j <= i < P -> rs !! i = Some r -> ds !! i = Some d -> rs' !! i = Some (other_runs r d) /\ ds' !! i = Some (pred d);
  ct_active : forall i q d, j <= i < P -> tau !! i = Some q -> ds !! i = Some d -> act' !! q = Some (bool_decide (d = 0));
  ct_idle : forall q, (forall i, j <= i < P -> tau !! i <> Some q) -> act' !! q = act !! q }.

Definition count_state (a : nat) (act : list bool) rs ds s : state :=
  set_activeTapes a (set_mergeactive act (set_tp_runs ((fun r => Z.of_nat (length r)) <$> rs) (set_tp_dummy (Z.of_nat <$> ds) s))).

Lemma count_loop_ok n : forall j s rs ds, j + n = P -> tp_tapenum s ≡ₚ seq 0 (S P) -> length rs = S P -> length ds = S P -> length (mergeactive s) = S P ->
  tp_runs s = (fun r => Z.of_nat (length r)) <$> rs -> tp_dummy s = Z.of_nat <$> ds ->
  (forall i r, j <= i < P -> ds !! i = Some 0 -> rs !! i = Some r -> r <> []) ->
  (forall i q, j <= i < P -> tp_tapenum s !! i = Some q -> mergeactive s !! q = Some false) ->
  exists act rs' ds', for_tapes n j count_run s = Ok (tt, count_state (activeTapes s + (taking act - taking (mergeactive s))) act rs' ds' s) /\
    counted j (tp_tapenum s) rs ds rs' ds' (mergeactive s) act /\ taking (mergeactive s) <= taking act.
Proof using.
  induction n as [|n IH]; intros j s rs ds Hj Htau Hrl Hdl Hal Hr Hd Hne Hoff; cbn [for_tapes].
  { exists (mergeactive s), rs, ds. split_and!; [|split; [done|done|lia|lia|done]|done]. unfold count_state. rewrite Nat.sub_diag, Nat.add_0_r, <- Hr, <- Hd. by destruct s. }
  destruct (lookup_lt_is_Some_2 rs j) as [r Hrj]; [lia|]. destruct (lookup_lt_is_Some_2 ds j) as [d Hdj]; [lia|].
  destruct (lookup_lt_is_Some_2 (tp_tapenum s) j) as [q Hq]; [rewrite (tau_length _ _ Htau); lia|]. pose proof (tau_range _ _ Htau j q Hq) as [HqP _].
  assert (Hnd : forall i, tp_tapenum s !! i = Some q -> i = j) by (intros i Hi; by eapply NoDup_lookup; [apply (tau_nodup _ _ Htau)|..]).
  set (rs1 := <[j := other_runs r d]> rs). set (ds1 := <[j := pred d]> ds). set (act1 := <[q := bool_decide (d = 0)]> (mergeactive s)).
  set (s1 := count_state (activeTapes s + (taking act1 - taking (mergeactive s))) act1 rs1 ds1 s).
  assert (Hact1 : taking act1 = taking (mergeactive s) + (if decide (d = 0) then 1 else 0)).
  { unfold act1. pose proof (Hoff j q ltac:(lia) Hq) as E. case_decide; [rewrite bool_decide_true, taking_true by done; lia|]. rewrite bool_decide_false, list_insert_id by done. lia. }
  assert (Hone : count_run j s = Ok (tt, s1)).
  { unfold count_run. rewrite mget_ok. rewrite (at_idx_ok _ _ (Z.of_nat d)) by (rewrite Hd, list_lookup_fmap, Hdj; done). destruct (decide (d = 0)) as [->|Hd0].
    - change (0 <? Z.of_nat 0)%Z with false. cbv iota. rewrite (at_idx_ok _ _ (Z.of_nat (length r))) by (rewrite Hr, list_lookup_fmap, Hrj; done).
      pose proof (Hne j r ltac:(lia) Hdj Hrj) as Hrne. rewrite Assert_ok by (apply Z.ltb_lt; destruct r; [done|cbn; lia]).
      rewrite (at_idx_ok _ _ _ _ _ Hq), upd_idx_ok by lia. unfold mput, s1. do 2 f_equal. unfold count_state.
      assert (E1 : (fun r => Z.of_nat (length r)) <$> rs1 = <[j := (Z.of_nat (length r) - 1)%Z]> (tp_runs s)).
      { unfold rs1. rewrite list_fmap_insert, Hr. f_equal. unfold other_runs. rewrite decide_True by done. destruct r; [done|]. cbn. lia. }
      assert (E2 : Z.of_nat <$> ds1 = tp_dummy s).
      { unfold ds1. rewrite list_fmap_insert, Hd. cbn. apply list_insert_id. by rewrite list_lookup_fmap, Hdj. }
      assert (E3 : activeTapes s + (taking act1 - taking (mergeactive s)) = S (activeTapes s)) by lia.
      rewrite E1, E2, E3. unfold act1. rewrite bool_decide_true by done. flat_state. reflexivity.
    - replace (0 <? Z.of_nat d)%Z with true by (symmetry; apply Z.ltb_lt; lia). unfold mput, s1. do 2 f_equal. unfold count_state.
      assert (E1 : (fun r => Z.of_nat (length r)) <$> rs1 = tp_runs s).
      { unfold rs1, other_runs. rewrite decide_False by done. rewrite list_insert_id by done. done. }
      assert (E2 : Z.of_nat <$> ds1 = <[j := (Z.of_nat d - 1)%Z]> (tp_dummy s)) by (unfold ds1; rewrite list_fmap_insert, Hd; f_equal; lia).
      assert (E3 : activeTapes s + (taking act1 - taking (mergeactive s)) = activeTapes s) by lia.
      assert (E4 : act1 = mergeactive s) by (unfold act1; rewrite bool_decide_false by done; apply list_insert_id; apply (Hoff j q); [lia|done]).
      rewrite E1, E2, E3, E4. destruct s. flat_state. reflexivity. }
  rewrite (mbind_ok _ _ _ _ _ Hone).
  destruct (IH (S j) s1 rs1 ds1) as (act & rs' & ds' & Hrun & [C1 C2 C3 C4 C5] & Hle); try (unfold s1, rs1, ds1, act1; cbn; rewrite ?length_insert; done); [lia| | |].
  { intros i r' Hi Hdi Hri. unfold ds1 in Hdi. unfold rs1 in Hri. rewrite list_lookup_insert_ne in Hdi by lia. rewrite list_lookup_insert_ne in Hri by lia. apply (Hne i r'); [lia|done|done]. }
  { intros i q' Hi Hq'. change (tp_tapenum s1) with (tp_tapenum s) in Hq'. change (mergeactive s1) with act1. unfold act1. rewrite list_lookup_insert_ne; [apply (Hoff i); [lia|done]|].
    intros ->. apply Hnd in Hq'. lia. }
  change (mergeactive s1) with act1 in *. change (tp_tapenum s1) with (tp_tapenum s) in *. change (activeTapes s1) with (activeTapes s + (taking act1 - taking (mergeactive s))) in Hrun.
  assert (Hgrow : taking (mergeactive s) <= taking act1) by (rewrite Hact1; lia).
  exists act, rs', ds'. split_and!; [| |lia].
  - rewrite Hrun. replace (activeTapes s + (taking act1 - taking (mergeactive s)) + (taking act - taking act1)) with (activeTapes s + (taking act - taking (mergeactive s))) by lia. reflexivity.
  - split.
    + unfold rs1, ds1, act1 in C1. rewrite !length_insert in C1. exact C1.
    + intros i Hi. destruct (C2 i ltac:(lia)) as [-> ->]. unfold rs1, ds1. by rewrite !list_lookup_insert_ne by lia.
    + intros i r' d' Hi Hri Hdi. destruct (decide (i = j)) as [->|Hne'].
      * destruct (C2 j ltac:(lia)) as [-> ->]. rewrite Hrj in Hri. rewrite Hdj in Hdi. injection Hri as <-. injection Hdi as <-.
        unfold rs1, ds1. by rewrite !list_lookup_insert_eq by lia.
      * apply C3; [lia|unfold rs1; by rewrite list_lookup_insert_ne by lia|unfold ds1; by rewrite list_lookup_insert_ne by lia].
    + intros i q' d' Hi Hq' Hdi. destruct (decide (i = j)) as [->|Hne'].
      * rewrite Hq in Hq'. injection Hq' as <-. rewrite Hdj in Hdi. injection Hdi as <-. rewrite C5; [unfold act1; apply list_lookup_insert_eq; lia|].
        intros i Hi' Hiq. apply Hnd in Hiq. lia.
      * eapply C4; [|exact Hq'|]; [lia|]. unfold ds1. by rewrite list_lookup_insert_ne by lia.
    + intros q' Hq'. rewrite C5; [|intros i Hi; apply Hq'; lia]. unfold act1. apply list_lookup_insert_ne. intros <-. apply (Hq' j); [lia|done].
Qed.

Lemma share_loop_ok spt sppt n : forall j s, j + n = S P -> length (mergeactive s) = S P -> length (mergeavailslots s) = S P -> length (mergeavailmem s) = S P ->
  exists ms mm, for_tapes n j (share_space spt sppt) s = Ok (tt, set_mergeavailslots ms (set_mergeavailmem mm s)) /\ length ms = S P /\ length mm = S P /\
    (forall q, j <= q -> mergeactive s !! q = Some true -> ms !! q = Some spt) /\ (forall q, q < j -> ms !! q = mergeavailslots s !! q).
Proof using.
  induction n as [|n IH]; intros j s Hj H1 H2 H3; cbn [for_tapes].
  { exists (mergeavailslots s), (mergeavailmem s). split_and!; try done; [by destruct s|]. intros q Hq Hl. apply lookup_lt_Some in Hl. lia. }
  destruct (lookup_lt_is_Some_2 (mergeactive s) j) as [b Hb]; [lia|].
  assert (Hone : exists ms mm, share_space spt sppt j s = Ok (tt, set_mergeavailslots ms (set_mergeavailmem mm s)) /\ length ms = S P /\ length mm = S P /\
    (b = true -> ms !! j = Some spt) /\ (forall q, q <> j -> ms !! q = mergeavailslots s !! q)).
  { unfold share_space. rewrite mget_ok, (at_idx_ok _ _ _ _ _ Hb). destruct b.
    - rewrite upd_idx_ok by lia. rewrite upd_idx_ok by lia. eexists _, _. split; [reflexivity|]. rewrite !length_insert. split_and!; try done; [intros _; apply list_lookup_insert_eq; lia|].
      intros q Hq. by apply list_lookup_insert_ne.
    - exists (mergeavailslots s), (mergeavailmem s). split_and!; try done. by destruct s. }
  destruct Hone as (ms & mm & Hone & Hm1 & Hm2 & Hm3 & Hm4). rewrite (mbind_ok _ _ _ _ _ Hone).
  destruct (IH (S j) (set_mergeavailslots ms (set_mergeavailmem mm s))) as (ms' & mm' & Hrun & L1 & L2 & L3 & L4); [lia|done..|].
  exists ms', mm'. split_and!; [exact Hrun|done|done| |].
  - intros q Hq Hact. destruct (decide (q = j)) as [->|Hne]; [|apply L3; [lia|done]]. rewrite L4 by lia. cbn. apply Hm3. congruence.
  - intros q Hq. rewrite L4 by lia. cbn. apply Hm4. lia.
Qed.

Section loading.
Context (parts : list bool) (per dest : nat) (Hdest : parts !! dest = Some false).
Local Abbreviation slots_ok := (slots_ok P k ra parts per).
Local Abbreviation tapes_ok := (tapes_ok P k ra dest).

(** The loop of beginmerge that fills the heap. *)
Lemma load_loop_ok n : forall j s bs (cs : list (source T)), j + n = S P -> slots_ok s cs -> tapes_ok s bs cs ->
  (forall i c, cs !! i = Some c -> i < j -> sc_top c = None -> spent c) ->
  (forall i c, cs !! i = Some c -> j <= i -> sc_top c = None /\ (sc_pre c = [] -> spent c)) ->
  exists s' cs', for_tapes n j load_heap s = Ok (tt, s') /\ slots_ok s' cs' /\ tapes_ok s' bs cs' /\ settled cs' /\ todo <$> cs' = todo <$> cs /\ sc_rest <$> cs' = sc_rest <$> cs /\
    outer s' = outer s.
Proof using HL Hv Hdest.
  induction n as [|n IH]; intros j s bs cs Hj H Ht Hlow Hhigh; cbn [for_tapes].
  { exists s, cs. split_and!; try done. intros i c Hi. apply (Hlow i c Hi). apply lookup_lt_Some in Hi. rewrite (slots_ok_length _ _ _ _ _ _ _ H) in Hi. lia. }
  destruct (lookup_lt_is_Some_2 cs j) as [c Hc]; [rewrite (slots_ok_length _ _ _ _ _ _ _ H); lia|]. destruct (Hhigh j c Hc ltac:(lia)) as [Htop Hsp].
  assert (Hnext : mergenext s !! j = Some (first_slot (sc_pre c))) by (by rewrite (so_next _ _ _ _ _ _ _ H), list_lookup_fmap, Hc).
  pose proof (chain_first _ _ (so_chain _ _ _ _ _ _ _ H j c Hc)) as Hz.
  destruct (sc_pre c) as [|[q x] pre] eqn:Epre.
  - assert (Hone : load_heap j s = Ok (tt, s)) by (unfold load_heap; by rewrite mget_ok, (at_idx_ok _ _ _ _ _ Hnext)). rewrite (mbind_ok _ _ _ _ _ Hone).
    apply (IH (S j) s bs cs); [lia|done|done| |intros i d Hd Hi; apply (Hhigh i d Hd); lia]. intros i d Hd Hi Hdt. destruct (decide (i = j)) as [->|]; [|apply (Hlow i d); [done|lia|done]].
    rewrite Hc in Hd. injection Hd as <-. by apply Hsp.
  - assert (Hp : parts !! j = Some true).
    { destruct (lookup_lt_is_Some_2 parts j) as [b Hb]; [rewrite (so_len _ _ _ _ _ _ _ H); lia|]. pose proof (Forall2_lookup_lr _ _ _ j b c (so_within _ _ _ _ _ _ _ H) Hb Hc) as Hw.
      destruct b; [done|]. destruct Hw as (_ & E & _). congruence. }
    destruct (pull_ok valid P k ra Hv parts per s cs j c q x pre H Hc Hp Htop Epre) as (s1 & Hpull & H1 & Ho1 & Hts1).
    assert (Hone : load_heap j s = Ok (tt, s1)).
    { unfold load_heap. rewrite mget_ok, (at_idx_ok _ _ _ _ _ Hnext). rewrite bool_decide_false by (intros E; by apply Hz in E). exact Hpull. }
    rewrite (mbind_ok _ _ _ _ _ Hone). assert (Htodo : todo (pulled c x pre) = todo c) by (unfold todo; cbn; by rewrite Htop, Epre).
    pose proof (lookup_lt_Some _ _ _ Hc) as Hlt.
    destruct (IH (S j) s1 bs (<[j := pulled c x pre]> cs)) as (s' & cs' & Hrun & H' & Ht' & Hs' & Hm1 & Hm2 & Ho'); [lia|exact H1| | | |].
    + apply (tapes_ok_same P k ra dest s); [done|]. by apply (tapes_ok_keep P k ra dest s bs cs j c).
    + intros i d Hd Hi Hdt. destruct (decide (i = j)) as [->|]; [rewrite list_lookup_insert_eq in Hd by done; injection Hd as <-; discriminate Hdt|].
      rewrite list_lookup_insert_ne in Hd by done. apply (Hlow i d Hd); [lia|done].
    + intros i d Hd Hi. rewrite list_lookup_insert_ne in Hd by lia. apply (Hhigh i d Hd). lia.
    + exists s', cs'. split_and!; [exact Hrun|exact H'|exact Ht'|exact Hs'| | |by rewrite Ho'].
      * rewrite Hm1. by apply (fmap_update todo _ _ _ _ Hc).
      * rewrite Hm2. by apply (fmap_update sc_rest _ _ _ _ Hc).
Qed.
End loading.

(** ** The start of a merge *)

(** The sources, unit by unit. *)
Definition start_source rs ds (j : nat) : source T :=
  if decide (j < P) then
    let r := rs !!! j in let d := ds !!! j in
    if decide (d = 0) then mkSrc None [] (default [] (head r)) (tail r) true else mkSrc None [] [] r false
  else mkSrc None [] [] [] false.
Definition heads rs ds (j : nat) : run := if decide (j < P) then head_run (rs !!! j) (ds !!! j) else [].
Definition others rs ds (j : nat) : list run := if decide (j < P) then other_runs (rs !!! j) (ds !!! j) else [].

Lemma start_source_facts rs ds j : sc_top (start_source rs ds j) = None /\ sc_pre (start_source rs ds j) = [] /\ todo (start_source rs ds j) = heads rs ds j /\
  sc_rest (start_source rs ds j) = others rs ds j /\ (sc_act (start_source rs ds j) = false -> sc_pend (start_source rs ds j) = []).
Proof. unfold start_source, heads, others, head_run, other_runs. repeat case_decide; by split_and!. Qed.

Lemma start_slots_ok tau act per rs ds s : tau ≡ₚ seq 0 (S P) -> env P k ra s -> memtupcount s = 0 -> length act = S P -> mergeactive s = act ->
  mergenext s = replicate (S P) 0 -> mergelast s = replicate (S P) 0 -> mergefreelist s = 0 -> mergefirstfree s = taking act ->
  (forall q, act !! q = Some true -> mergeavailslots s !! q = Some (Z.of_nat per)) -> taking act + taking act * per <= memtupsize s -> 0 < taking act -> 0 < per ->
  (forall j q, tau !! j = Some q -> act !! q = Some (sc_act (start_source rs ds j))) ->
  slots_ok P k ra act per s (by_tape tau (S P) (start_source rs ds)).
Proof.
  intros Htau He Hn Hal Hact Hnx Hla Hfl Hff Hsl Hroom HA Hper Hpart. set (cs := by_tape tau (S P) (start_source rs ds)).
  assert (Hlen : length cs = S P) by apply by_tape_length.
  assert (Hcs : forall q c, cs !! q = Some c -> exists j, tau !! j = Some q /\ c = start_source rs ds j) by (intros q c; apply (by_tape_inv _ _ Htau)).
  assert (Hpre : forall c, c ∈ cs -> sc_pre c = [] /\ sc_top c = None).
  { intros c [q Hq]%list_elem_of_lookup. destruct (Hcs q c Hq) as (j & _ & ->). pose proof (start_source_facts rs ds j). tauto. }
  assert (Hslots : slots_of cs = []).
  { unfold slots_of. rewrite (fmap_const _ []) by (intros c Hc; destruct (Hpre c Hc) as [-> _]; done). apply concat_replicate_nil. }
  split; try done.
  - apply Forall2_same_length_lookup. split; [by rewrite Hlen|]. intros q b c Hb Hc. destruct (Hcs q c Hc) as (j & Hj & ->). rewrite (Hpart j q Hj) in Hb. injection Hb as <-.
    destruct (start_source_facts rs ds j) as (E1 & E2 & _ & _ & E3). destruct (sc_act _) eqn:Ea; [rewrite E2; cbn; lia|]. split_and!; try done. by apply E3.
  - rewrite Hact. apply list_eq. intros q. rewrite list_lookup_fmap. destruct (cs !! q) as [c|] eqn:Ec; cbn.
    + destruct (Hcs q c Ec) as (j & Hj & ->). by apply Hpart.
    + apply lookup_ge_None in Ec. apply lookup_ge_None_2. lia.
  - rewrite Hnx, <- Hlen. symmetry. apply fmap_const. intros c Hc. destruct (Hpre c Hc) as [-> _]. done.
  - rewrite Hla, <- Hlen. symmetry. apply fmap_const. intros c Hc. destruct (Hpre c Hc) as [-> _]. done.
  - intros q c Hq Hc. rewrite (Hsl q Hq). destruct (Hpre c ltac:(by eapply list_elem_of_lookup_2)) as [-> _]. cbn. f_equal. lia.
  - intros q c Hc. destruct (Hpre c ltac:(by eapply list_elem_of_lookup_2)) as [-> _]. done.
  - exists []. rewrite Hslots, Hff, Nat.sub_diag. split_and!; try done.
  - split_and!; [rewrite Hn; apply heap_ok_0|lia|unfold in_heap; rewrite Hn; constructor].
  - unfold in_heap. rewrite Hn, take_0. assert (Ht : forall n l, (forall c, c ∈ l -> sc_top c = None) -> tops (T := T) n l = []).
    { clear. intros n l. revert n. induction l as [|c l IH]; intros n H; [done|]. cbn. unfold tagged. rewrite (H c) by (by left). cbn. apply IH. intros d Hd. apply H. by right. }
    rewrite Ht; [done|]. intros c Hc. by apply Hpre.
  - apply Forall_forall. intros c Hc. destruct (Hpre c Hc) as [-> _]. constructor.
Qed.

Lemma level_run s rs ds j r : level s rs ds -> rs !! j = Some r -> forall x, x ∈ r -> sorted (comparetup k) x /\ Forall (clean k) x.
Proof. intros H Hr x Hx. pose proof (lv_sorted _ _ _ H) as Hs. rewrite Forall_lookup in Hs. specialize (Hs j r Hr). rewrite Forall_forall in Hs. by apply Hs. Qed.

Lemma heads_ok s rs ds j : level s rs ds -> sorted (comparetup k) (heads rs ds j) /\ Forall (clean k) (heads rs ds j).
Proof.
  intros H. unfold heads, head_run. case_decide as Hj; [|split; constructor]. case_decide; [|split; constructor].
  destruct (lookup_lt_is_Some_2 rs j) as [r Hr]; [destruct (lv_len _ _ _ H); lia|]. rewrite (list_lookup_total_correct _ _ _ Hr).
  destruct r as [|x r]; [split; constructor|]. apply (level_run s rs ds j _ H Hr x). by left.
Qed.

Lemma start_tapes_ok s s' rs ds dest : level s rs ds -> tapeset s' = tapeset s -> tp_tapenum s !! P = Some dest ->
  (forall j r, j < P -> ds !! j = Some 0 -> rs !! j = Some r -> r <> []) ->
  tapes_ok P k ra dest s' (enc_runs ra (rs !!! P)) (by_tape (tp_tapenum s) (S P) (start_source rs ds)).
Proof.
  intros H Et Hd Hne. pose proof (lv_tau _ _ _ H) as Htau. destruct (lv_len _ _ _ H) as [Hrl Hdl]. destruct (lv_tapes _ _ _ H) as (ts & Hon & Htl & Hts).
  assert (Hrs : forall j, j < S P -> rs !! j = Some (rs !!! j)) by (intros j Hj; apply list_lookup_lookup_total_lt; lia).
  split.
  - exists ts. split_and!; [by destruct Hon as (l & E & Hrep); exists l; rewrite Et|done| |].
    + specialize (Hts P dest _ Hd (Hrs P ltac:(lia))). by rewrite decide_True in Hts.
    + intros q c Hq Hc. destruct (by_tape_inv _ _ Htau _ q c Hc) as (j & Hj & ->). pose proof (tau_range _ _ Htau j q Hj) as [_ HjP].
      assert (j <> P) by (intros ->; congruence). specialize (Hts j q _ Hj (Hrs j HjP)). rewrite decide_False in Hts by done.
      destruct Hts as (t & all & Ht & Hr). exists t, all. split; [exact Ht|].
      replace (left_on ra (start_source rs ds j)) with (enc_runs ra (rs !!! j)); [exact Hr|].
      unfold start_source. rewrite decide_True by lia. case_decide as Hd0; [|done].
      assert (Hr0 : rs !!! j <> []) by (apply (Hne j _ ltac:(lia)); [rewrite <- Hd0; apply list_lookup_lookup_total_lt; lia|by apply Hrs]).
      destruct (rs !!! j) as [|h r]; [done|]. unfold left_on, enc_runs. cbn [sc_act sc_pend sc_rest default head tail from_option id fmap list_fmap concat]. reflexivity.
  - intros q c Hc. destruct (by_tape_inv _ _ Htau _ q c Hc) as (j & Hj & ->). apply start_source_facts.
  - intros q c Hc. destruct (by_tape_inv _ _ Htau _ q c Hc) as (j & Hj & ->). destruct (start_source_facts rs ds j) as (E1 & E2 & E3 & _).
    destruct (heads_ok s rs ds j H) as [_ Hcl]. rewrite <- E3 in Hcl. unfold todo in Hcl. rewrite E1, E2 in Hcl. exact Hcl.
Qed.

(** The bytes on the tapes are more than the tuples to be merged. *)
Lemma todos_bound dest lts ts bs s (cs : list (source T)) : tapeset s = Some lts -> rep lts ts -> tapes_ok P k ra dest s bs cs -> length cs = S P ->
  (forall i c, cs !! i = Some c -> sc_top c = None /\ sc_pre c = []) -> (forall c, cs !! dest = Some c -> todo c = []) -> length (todos cs) <= bytes_on_tapes s.
Proof.
  intros Hs Hrep Ht Hl Hpre Hdest. unfold bytes_on_tapes. rewrite Hs. destruct Ht as [(ts' & (lts' & Hs' & Hrep') & Htl & _ & Hts) Hend _].
  rewrite Hs in Hs'. injection Hs' as <-. pose proof Hrep' as (owns & _ & Hll & _).
  assert (Hall : Forall2 (fun c lt => length (todo c) <= tape_size lt) cs (lt_tapes lts)).
  { apply Forall2_same_length_lookup. split; [lia|]. intros q c lt Hc Hlt. destruct (decide (q = dest)) as [->|Hq]; [rewrite (Hdest c Hc); cbn; lia|].
    destruct (Hts q c Hq Hc) as (t & all & Htq & Hr). rewrite (tape_size_reading _ _ _ _ _ _ _ _ Hrep' Hlt Htq Hr). destruct (Hpre q c Hc) as [E1 E2]. unfold todo. rewrite E1, E2. cbn.
    destruct Hr as (_ & _ & <- & Hd). apply (f_equal length) in Hd. rewrite length_drop in Hd. unfold left_on in Hd. destruct (sc_act c) eqn:Ea.
    - rewrite !length_app in Hd. pose proof (enc_tuples_length ra (sc_pend c)). lia.
    - rewrite (Hend q c Hc Ea). cbn. lia. }
  clear -Hall. unfold todos. induction Hall as [|c lt cs lts' Hc _ IH]; [done|]. cbn. rewrite length_app. lia.
Qed.

Definition merge_start (act : list bool) rs ds s : state :=
  set_mergefirstfree (taking act) (set_mergefreelist 0 (set_mergelast (replicate (S P) 0) (set_mergenext (replicate (S P) 0)
    (count_state (taking act) act rs ds (set_activeTapes 0 (set_mergeactive (replicate (S P) false) s)))))).

Lemma counted_parts s rs ds rs' ds' act dest : level s rs ds -> tp_tapenum s !! P = Some dest ->
  counted 0 (tp_tapenum s) rs ds rs' ds' (replicate (S P) false) act ->
  act !! dest = Some false /\ length act = S P /\ (forall j q, tp_tapenum s !! j = Some q -> act !! q = Some (sc_act (start_source rs ds j))) /\
  ((exists j, j < P /\ ds !! j = Some 0) -> 0 < taking act).
Proof using.
  intros H Hd C. pose proof (lv_tau _ _ _ H) as Htau. destruct (lv_len _ _ _ H) as [Hrl Hdl]. pose proof (tau_range _ _ Htau P dest Hd) as [HdP _].
  assert (Hoff : act !! dest = Some false).
  { rewrite (ct_idle _ _ _ _ _ _ _ _ C); [by apply lookup_replicate_2|]. intros i Hi Hid. assert (i = P) by (by eapply NoDup_lookup; [apply (tau_nodup _ _ Htau)|..]). lia. }
  destruct (ct_len _ _ _ _ _ _ _ _ C) as (_ & _ & Hal). rewrite length_replicate in Hal. split_and!; [done|done| |].
  - intros j q Hq. pose proof (tau_range _ _ Htau j q Hq) as [_ HjP]. unfold start_source. destruct (decide (j < P)) as [Hj|Hj].
    + assert (Hdj : ds !! j = Some (ds !!! j)) by (apply list_lookup_lookup_total_lt; lia). rewrite (ct_active _ _ _ _ _ _ _ _ C j q _ ltac:(lia) Hq Hdj).
      case_decide; [by rewrite bool_decide_true|by rewrite bool_decide_false].
    + assert (j = P) as -> by lia. cbn. congruence.
  - intros (j & Hj & Hd0). destruct (lookup_lt_is_Some_2 (tp_tapenum s) j) as [q Hq]; [rewrite (tau_length _ _ Htau); lia|].
    apply (taking_pos act q). by rewrite (ct_active _ _ _ _ _ _ _ _ C j q _ ltac:(lia) Hq Hd0).
Qed.

Lemma beginmerge_ok s rs ds : level s rs ds -> (forall j r, j < P -> ds !! j = Some 0 -> rs !! j = Some r -> r <> []) -> (exists j, j < P /\ ds !! j = Some 0) ->
  exists s' parts per dest cs rs' ds', beginmerge s = Ok (tt, s') /\ tp_tapenum s !! P = Some dest /\ parts !! dest = Some false /\
    slots_ok P k ra parts per s' cs /\ tapes_ok P k ra dest s' (enc_runs ra (rs !!! P)) cs /\ settled cs /\
    todo <$> cs = by_tape (tp_tapenum s) (S P) (heads rs ds) /\ sc_rest <$> cs = by_tape (tp_tapenum s) (S P) (others rs ds) /\
    outer s' = (status s, Level s, (fun r => Z.of_nat (length r)) <$> rs', Z.of_nat <$> ds', tp_tapenum s) /\
    counted 0 (tp_tapenum s) rs ds rs' ds' (replicate (S P) false) parts /\ length (todos cs) <= bytes_on_tapes s.
Proof using HL HT Hv.
  intros H Hne Hex. pose proof (lv_env _ _ _ H) as [(HP2 & HP & Hmx) Hk Hra Hrm (Ha1 & Ha2 & Ha3 & Ha4 & Ha5)]. pose proof (lv_tau _ _ _ H) as Htau.
  destruct (lv_len _ _ _ H) as [Hrl Hdl]. destruct (lookup_lt_is_Some_2 (tp_tapenum s) P) as [dest Hd]; [rewrite (tau_length _ _ Htau); lia|].
  set (s1 := set_activeTapes 0 (set_mergeactive (replicate (S P) false) s)).
  destruct (count_loop_ok P 0 s1 rs ds) as (act & rs' & ds' & Hrun1 & C & _); [lia|exact Htau|done|done|apply length_replicate|apply (lv_runs _ _ _ H)|apply (lv_dummy _ _ _ H)| | |].
  { intros i r Hi. apply Hne. lia. }
  { intros i q Hi Hq. pose proof (tau_range _ _ Htau i q Hq) as [? _]. apply lookup_replicate_2. lia. }
  change (mergeactive s1) with (replicate (S P) false) in *. change (tp_tapenum s1) with (tp_tapenum s) in *. change (activeTapes s1) with 0 in *.
  rewrite taking_replicate, Nat.add_0_l, Nat.sub_0_r in Hrun1. destruct (counted_parts s rs ds rs' ds' act dest H Hd C) as (Hoff & Hal & Hpart & HA). specialize (HA Hex).
  pose proof (taking_bound act dest Hoff) as HAP. rewrite Hal in HAP. set (A := taking act) in *.
  set (s2 := merge_start act rs' ds' s). set (per := (memtupsize s - A) / A).
  assert (Hper : 0 < per /\ A + A * per <= memtupsize s).
  { unfold per. pose proof (Nat.Div0.mul_div_le (memtupsize s - A) A). split; [apply Nat.div_str_pos; lia|lia]. }
  assert (Hquot : Z.quot (Z.of_nat (memtupsize s) - Z.of_nat A) (Z.of_nat A) = Z.of_nat per).
  { unfold per. rewrite Nat2Z.inj_div, <- Nat2Z.inj_sub by lia. apply Z.quot_div_nonneg; lia. }
  destruct (share_loop_ok (Z.of_nat per) (Z.quot (availMem s) (Z.of_nat A)) (S P) 0 s2) as (ms & mm & Hrun2 & Hms & Hmm & Hsl & _); [lia|done|done|done|].
  set (s3 := set_mergeavailslots ms (set_mergeavailmem mm s2)).
  set (cs0 := by_tape (tp_tapenum s) (S P) (start_source rs ds)).
  assert (H3 : slots_ok P k ra act per s3 cs0).
  { apply start_slots_ok; try done; [|apply (lv_empty _ _ _ H)|intros q Hq; apply Hsl; [lia|exact Hq]|apply Hper|apply Hper]. split; cbn; rewrite ?length_replicate; done. }
  assert (Ht3 : tapes_ok P k ra dest s3 (enc_runs ra (rs !!! P)) cs0) by (by apply (start_tapes_ok s)).
  assert (Hcs0 : forall i c, cs0 !! i = Some c -> sc_top c = None /\ sc_pre c = []).
  { intros q c Hc. destruct (by_tape_inv _ _ Htau _ q c Hc) as (j & _ & ->). split; apply start_source_facts. }
  destruct (mergepreread_ok valid P k ra act per dest Hoff s3 _ cs0 H3 Ht3) as (s4 & cs1 & Hrun3 & H4 & Ht4 & Ho4 & Hn4 & Hr4).
  pose proof (each_refilled_steady _ _ Hr4) as Hst4. apply steady_maps in Hst4 as [Hm1 Hm2].
  destruct (load_loop_ok act per dest Hoff (S P) 0 s4 (enc_runs ra (rs !!! P)) cs1) as (s5 & cs & Hrun4 & H5 & Ht5 & Hs5 & Hn1 & Hn2 & Ho5); [lia|done|done|intros; lia| |].
  { intros i c Hc _. destruct (Forall2_lookup_r _ _ _ i c Hr4 Hc) as (c0 & Hc0 & (Hk1 & Hk2 & Hk3 & Hk4) & Hfull). destruct (Hcs0 i c0 Hc0) as [E1 E2].
    split; [congruence|]. intros Hpre. destruct (Hfull Hpre) as [E3 E4]. split; [|done]. unfold todo. by rewrite Hk2, E1, Hpre, E3. }
  exists s5, act, per, dest, cs, rs', ds'. split_and!; try done.
  - unfold beginmerge. rewrite mget_ok, Assert_ok by (by apply bool_decide_true, (lv_empty _ _ _ H)). rewrite mput_ok, Hmx, HP. fold s1. rewrite (mbind_ok _ _ _ _ _ Hrun1), mget_ok, mput_ok.
    change (maxTapes (count_state A act rs' ds' s1)) with (maxTapes s). rewrite Hmx. change (activeTapes (count_state A act rs' ds' s1)) with A.
    change (set_mergefirstfree A _) with s2.
    rewrite Assert_ok by (by apply bool_decide_true). change (memtupsize s2) with (memtupsize s). change (mergefirstfree s2) with A. change (activeTapes s2) with A. rewrite Hquot.
    rewrite Assert_ok by (apply Z.ltb_lt; lia). change (availMem s2) with (availMem s). change (maxTapes s2) with (maxTapes s). rewrite Hmx, (mbind_ok _ _ _ _ _ Hrun2), (mbind_ok _ _ _ _ _ Hrun3). exact Hrun4.
  - rewrite Hn1, Hm1. unfold cs0. rewrite fmap_by_tape. apply (by_tape_ext _ _ Htau). intros j _. apply start_source_facts.
  - rewrite Hn2, Hm2. unfold cs0. rewrite fmap_by_tape. apply (by_tape_ext _ _ Htau). intros j _. apply start_source_facts.
  - by rewrite Ho5, Ho4.
  - unfold todos. rewrite Hn1, Hm1. destruct (lv_tapes _ _ _ H) as (ts & (lts & Hl & Hrep) & _). change (bytes_on_tapes s) with (bytes_on_tapes s3).
    apply (todos_bound dest lts ts (enc_runs ra (rs !!! P)) s3 cs0); try done; [apply by_tape_length|].
    intros c Hc. unfold cs0 in Hc. rewrite (by_tape_lookup _ _ Htau _ P dest Hd) in Hc. injection Hc as <-. unfold start_source. by rewrite decide_False by lia.
Qed.

(** ** One merge *)

Lemma counted_lists tau R rP D dP rs' ds' act act' : length R = P -> length D = P -> counted 0 tau (R ++ [rP]) (D ++ [dP]) rs' ds' act act' ->
  rs' = zip_with other_runs R D ++ [rP] /\ ds' = (pred <$> D) ++ [dP].
Proof using.
  intros HR HD C. destruct (ct_len _ _ _ _ _ _ _ _ C) as (Hl1 & Hl2 & _). rewrite length_app in Hl1, Hl2. cbn in Hl1, Hl2.
  assert (Hz : length (zip_with other_runs R D) = P) by (rewrite length_zip_with; lia).
  split; apply list_eq; intros i; (destruct (decide (i < P)) as [Hi|Hi]; [|destruct (decide (i = P)) as [->|Hi']]).
  - destruct (lookup_lt_is_Some_2 R i) as [r Hr]; [lia|]. destruct (lookup_lt_is_Some_2 D i) as [d Hd]; [lia|].
    destruct (ct_taken _ _ _ _ _ _ _ _ C i r d) as [-> _]; [lia|by apply lookup_app_l_Some|by apply lookup_app_l_Some|].
    symmetry. apply lookup_app_l_Some. apply lookup_zip_with_Some. by exists r, d.
  - destruct (ct_same _ _ _ _ _ _ _ _ C P ltac:(lia)) as [-> _]. by rewrite !list_lookup_middle by done.
  - rewrite !lookup_ge_None_2; [done|rewrite length_app; cbn; lia|lia].
  - destruct (lookup_lt_is_Some_2 R i) as [r Hr]; [lia|]. destruct (lookup_lt_is_Some_2 D i) as [d Hd]; [lia|].
    destruct (ct_taken _ _ _ _ _ _ _ _ C i r d) as [_ ->]; [lia|by apply lookup_app_l_Some|by apply lookup_app_l_Some|].
    symmetry. apply lookup_app_l_Some. by rewrite list_lookup_fmap, Hd.
  - destruct (ct_same _ _ _ _ _ _ _ _ C P ltac:(lia)) as [_ ->]. by rewrite !list_lookup_middle by (rewrite ?length_fmap; done).
  - rewrite !lookup_ge_None_2; [done|rewrite length_app, length_fmap; cbn; lia|lia].
Qed.

Lemma heads_list R rP D dP : length R = P -> length D = P -> heads (R ++ [rP]) (D ++ [dP]) <$> seq 0 (S P) = zip_with head_run R D ++ [[]].
Proof using.
  intros HR HD. assert (Hz : length (zip_with head_run R D) = P) by (rewrite length_zip_with; lia).
  rewrite seq_S, fmap_app. cbn [fmap list_fmap Nat.add]. f_equal; [|unfold heads; by rewrite decide_False by lia].
  apply list_eq. intros i. rewrite list_lookup_fmap. destruct (decide (i < P)) as [Hi|Hi].
  - rewrite (seq_lookup_self P i Hi). cbn. destruct (lookup_lt_is_Some_2 R i) as [r Hr]; [lia|]. destruct (lookup_lt_is_Some_2 D i) as [d Hd]; [lia|].
    rewrite lookup_zip_with, Hr, Hd. cbn. unfold heads. rewrite decide_True by done. f_equal. f_equal; apply list_lookup_total_correct; by apply lookup_app_l_Some.
  - rewrite !lookup_ge_None_2; [done|lia|rewrite length_seq; lia].
Qed.

(** What a merge takes and what it leaves. *)
Lemma heads_others (R : list (list run)) D : length R = length D -> (forall j r, D !! j = Some 0 -> R !! j = Some r -> r <> []) ->
  concat (zip_with head_run R D) ++ concat (concat (zip_with other_runs R D)) ≡ₚ concat (concat R).
Proof using.
  revert D. induction R as [|r R IH]; intros [|d D] Hl Hne; try discriminate Hl; [done|]. cbn [zip_with concat]. rewrite !concat_app, <- (IH D); [|by injection Hl|by intros j; apply (Hne (S j))].
  assert (E : concat r = head_run r d ++ concat (other_runs r d)).
  { unfold head_run, other_runs. case_decide as Hd; [|done]. pose proof (Hne 0 r ltac:(by rewrite Hd) eq_refl). by destruct r. }
  rewrite E. perm.
Qed.

(** When each unit has one run, real or dummy, nothing is left. *)
Lemma others_done R D : length R = length D -> Forall (eq 1) (zip_with (fun r d => length r + d) R D) -> concat (zip_with other_runs R D) = [].
Proof using.
  revert D. induction R as [|r R IH]; intros [|d D] Hl Hone; try discriminate Hl; [done|]. cbn in Hone. apply Forall_cons in Hone as [Hrd Hone]. cbn.
  rewrite (IH D) by (by injection Hl || done). rewrite app_nil_r. unfold other_runs. case_decide; destruct r as [|? [|]]; cbn in *; done || lia.
Qed.

Lemma begun_sorted s rs ds (cs : list (source T)) : level s rs ds -> todo <$> cs = by_tape (tp_tapenum s) (S P) (heads rs ds) -> all_sorted k cs /\ Forall (clean k) (todos cs).
Proof using.
  intros H Hm. pose proof (lv_tau _ _ _ H) as Htau. assert (Hq : forall q c, cs !! q = Some c -> exists j, todo c = heads rs ds j).
  { intros q c Hc. assert (E : (todo <$> cs) !! q = Some (todo c)) by (by rewrite list_lookup_fmap, Hc). rewrite Hm in E. destruct (by_tape_inv _ _ Htau _ _ _ E) as (j & _ & Ej). by exists j. }
  split.
  - apply Forall_lookup. intros q c Hc. destruct (Hq q c Hc) as [j ->]. by apply (heads_ok s).
  - apply Forall_forall. intros y Hy. apply todos_elem in Hy as (q & c & Hc & Hy). destruct (Hq q c Hc) as [j Ej]. destruct (heads_ok s _ _ j H) as [_ Hcl]. rewrite Ej in Hy. rewrite Forall_forall in Hcl. by apply Hcl.
Qed.

Lemma enc_runs_snoc (r : list run) x : enc_runs ra (r ++ [x]) = (enc_runs ra r ++ concat (enc_tuple ra <$> x)) ++ mark.
Proof using. unfold enc_runs. rewrite fmap_app, concat_app. cbn [fmap list_fmap concat]. rewrite app_nil_r, <- app_assoc. reflexivity. Qed.

Lemma mergeonerun_ok s R rP D dP : level s (R ++ [rP]) (D ++ [dP]) -> length R = P -> length D = P ->
  (forall j r, D !! j = Some 0 -> R !! j = Some r -> r <> []) -> (exists j, D !! j = Some 0) ->
  exists s' out, mergeonerun s = Ok (tt, s') /\ level s' (zip_with other_runs R D ++ [rP ++ [out]]) ((pred <$> D) ++ [dP]) /\
    out ++ concat (concat (zip_with other_runs R D)) ≡ₚ concat (concat R) /\ status s' = status s /\ Level s' = Level s /\ tp_tapenum s' = tp_tapenum s.
Proof using HL HT Hv.
  intros H HR HD Hne [j0 Hj0]. pose proof (lv_tau _ _ _ H) as Htau.
  destruct (beginmerge_ok s _ _ H) as (s1 & parts & per & dest & cs & rs' & ds' & Hrun & Hd & Hoff & H1 & Ht1 & Hs1 & Hm1 & Hm2 & Ho1 & C & Hbound).
  { intros j r Hj Hdj Hrj. rewrite lookup_app_l in Hdj by lia. rewrite lookup_app_l in Hrj by lia. by apply (Hne j). }
  { exists j0. pose proof (lookup_lt_Some _ _ _ Hj0). split; [lia|by apply lookup_app_l_Some]. }
  destruct (counted_lists _ _ _ _ _ _ _ _ _ HR HD C) as [-> ->]. rewrite list_lookup_total_middle in Ht1 by done.
  destruct (begun_sorted s _ _ cs H Hm1) as [Hso Hcl].
  destruct (mergeonerun_loop_ok valid P k ra Hv parts per dest Hoff (S (bytes_on_tapes s)) s1 _ cs H1 Ht1 Hs1 Hso ltac:(lia) Hcl) as (s2 & cs2 & out & Hrun2 & H2 & Ht2 & Hsp & Hm3 & Ho2 & Hn2 & Hout & Hsort).
  destruct Ht2 as [(ts & Hon & Htl & Htd & Hts) _ _]. destruct (markrunend_ok s2 ts dest _ Hon Htd) as (l & Hmark & Hon3).
  assert (Hfields : status s2 = status s /\ Level s2 = Level s /\ tp_tapenum s2 = tp_tapenum s /\ tp_runs s2 = (fun r => Z.of_nat (length r)) <$> zip_with other_runs R D ++ [rP] /\ tp_dummy s2 = Z.of_nat <$> ((pred <$> D) ++ [dP])).
  { rewrite Ho1 in Ho2. injection Ho2 as E1 E2 E3 E4 E5. by split_and!. }
  destruct Hfields as (E1 & E2 & E3 & E4 & E5). pose proof (so_env _ _ _ _ _ _ _ H2) as He2. pose proof He2 as [(HP2 & HP & Hmx) Hk Hra Hrm Har].
  assert (Hz : length (zip_with other_runs R D) = P) by (rewrite length_zip_with; lia).
  exists (set_tp_runs ((fun r => Z.of_nat (length r)) <$> zip_with other_runs R D ++ [rP ++ [out]]) (set_tapeset (Some l) s2)), out. split_and!; try done.
  - unfold mergeonerun. rewrite mget_ok. rewrite (at_idx_ok _ _ dest) by (by rewrite (proj1 (proj2 (e_range _ _ _ _ (lv_env _ _ _ H))))).
    cbv zeta. rewrite (mbind_ok _ _ _ _ _ Hrun), (mbind_ok _ _ _ _ _ Hrun2), (mbind_ok _ _ _ _ _ Hmark), mget_ok. cbn [tapeRange tp_runs set_tapeset]. rewrite HP, E4, fmap_app.
    rewrite (at_idx_ok _ _ (Z.of_nat (length rP))) by (apply list_lookup_middle; by rewrite length_fmap). unfold mput. f_equal. f_equal. f_equal.
    rewrite insert_app_r_alt by (rewrite length_fmap; lia). rewrite length_fmap, Hz, Nat.sub_diag, fmap_app. cbn. rewrite length_app. cbn. do 2 f_equal. lia.
  - split; cbn; try done.
    + by rewrite E3.
    + rewrite !length_app, length_fmap. cbn. lia.
    + exists (<[dest := written (enc_runs ra (rP ++ [out]))]> ts). split_and!; [|by rewrite length_insert|].
      { rewrite enc_runs_snoc. destruct Hon3 as (l' & El & Hrep). exists l'. split; [exact El|exact Hrep]. }
      rewrite E3. intros j q r Hj Hr. destruct (decide (j = P)) as [->|HjP].
      * rewrite Hd in Hj. injection Hj as <-. rewrite list_lookup_middle in Hr by done. injection Hr as <-. apply list_lookup_insert_eq. by eapply lookup_lt_Some.
      * assert (Hqd : q <> dest) by (intros ->; apply HjP; by eapply NoDup_lookup; [apply (tau_nodup _ _ Htau)|..]). rewrite list_lookup_insert_ne by done.
        pose proof (tau_range _ _ Htau j q Hj) as [HqP HjS]. destruct (lookup_lt_is_Some_2 cs2 q) as [c Hc]; [rewrite (slots_ok_length _ _ _ _ _ _ _ H2); lia|].
        destruct (Hts q c Hqd Hc) as (t & all & Ht & Hrd). exists t, all. split; [exact Ht|]. rewrite Forall_lookup in Hsp. destruct (Hsp q c Hc) as [_ Hact].
        unfold left_on in Hrd. rewrite Hact in Hrd. replace r with (sc_rest c); [exact Hrd|].
        assert (E : (sc_rest <$> cs2) !! q = Some (sc_rest c)) by (by rewrite list_lookup_fmap, Hc). rewrite Hm3, Hm2, (by_tape_lookup _ _ Htau _ j q Hj) in E. injection E as <-.
        rewrite lookup_app_l in Hr by lia. apply lookup_zip_with_Some in Hr as (r0 & d0 & -> & Hr0 & Hd0). unfold others. rewrite decide_True by lia.
        f_equal; apply list_lookup_total_correct; by apply lookup_app_l_Some.
    + pose proof (lv_sorted _ _ _ H) as Hold. apply Forall_app in Hold as [HoR HoP]. rewrite Forall_singleton in HoP. apply Forall_app. split.
      * apply Forall_forall. intros r Hr. apply elem_of_zip_with in Hr as (r0 & d0 & -> & Hr0 & _). rewrite Forall_forall in HoR. specialize (HoR r0 Hr0).
        unfold other_runs. case_decide; [|done]. destruct r0; [done|]. by apply Forall_cons in HoR as [_ ?].
      * rewrite Forall_singleton, Forall_app, Forall_singleton. split_and!; [exact HoP|exact Hsort|by rewrite Hout].
  - rewrite Hout. unfold todos. rewrite Hm1, (by_tape_perm _ _ Htau), heads_list, concat_app by done. cbn. rewrite app_nil_r. apply heads_others; [lia|done].
Qed.

(** ** One pass *)

(** Runs and dummy runs of the input units. *)
Definition totals (R : list (list run)) (D : list nat) : list nat := zip_with (fun r d => length r + d) R D.

Lemma totals_lookup R D j r d : R !! j = Some r -> D !! j = Some d -> totals R D !! j = Some (length r + d).
Proof using. intros Hr Hd. unfold totals. by rewrite lookup_zip_with, Hr, Hd. Qed.
Lemma totals_merged R D : length R = length D -> (forall j r, D !! j = Some 0 -> R !! j = Some r -> r <> []) ->
  totals (zip_with other_runs R D) (pred <$> D) = pred <$> totals R D.
Proof using.
  revert D. induction R as [|r R IH]; intros [|d D] Hl Hne; try discriminate Hl; [done|]. cbn. f_equal.
  - unfold other_runs. case_decide as Hd; [|lia]. pose proof (Hne 0 r ltac:(by rewrite Hd) eq_refl). subst d. destruct r; [done|]. cbn. lia.
  - apply IH; [by injection Hl|]. intros j. apply (Hne (S j)).
Qed.
Lemma totals_dummies (R : list (list run)) D : length R = length D -> Forall (lt 0) D -> totals R (pred <$> D) = pred <$> totals R D.
Proof using.
  revert D. induction R as [|r R IH]; intros [|d D] Hl Hp; try discriminate Hl; [done|]. apply Forall_cons in Hp as [Hd Hp]. cbn. f_equal; [lia|]. apply IH; [by injection Hl|done].
Qed.

(** Every unit gives up a dummy run. *)
Definition pass_dummies (D : list nat) (dP : nat) s : state := set_tp_dummy (Z.of_nat <$> (pred <$> D) ++ [S dP]) s.
Lemma pass_dummies_ok s R rP D dP : level s (R ++ [rP]) (D ++ [dP]) -> level (pass_dummies D dP s) (R ++ [rP]) ((pred <$> D) ++ [S dP]).
Proof using.
  intros [[] Htau [Hl1 Hl2] Hr Hd Hn Ht Hs]. split; try done. rewrite length_app in Hl2. rewrite (length_app (pred <$> D)), length_fmap. done.
Qed.

Lemma dummies_below n R D : length R = P -> length D = P -> Forall (le n) (totals R D) -> 0 < n -> forall j r, D !! j = Some 0 -> R !! j = Some r -> r <> [].
Proof using.
  intros HR HD Hle Hn j r Hd Hr ->. rewrite Forall_lookup in Hle. specialize (Hle j _ (totals_lookup _ _ _ _ _ Hr Hd)). cbn in Hle. lia.
Qed.

Definition same_outer s s' : Prop := status s' = status s /\ Level s' = Level s /\ tp_tapenum s' = tp_tapenum s.
Lemma same_outer_trans s s1 s2 : same_outer s s1 -> same_outer s1 s2 -> same_outer s s2.
Proof using. unfold same_outer. intros (-> & -> & ->). done. Qed.

(** One round of the loop, whether there is a run to merge or not. *)
Lemma merge_round s R rP D dP n : level s (R ++ [rP]) (D ++ [dP]) -> length R = P -> length D = P -> Forall (le (S n)) (totals R D) ->
  exists s' R' rP' D' dP', (let allDummy := forallb (fun d => negb (d =? 0)%Z) (take P (tp_dummy s)) in
      if allDummy then
         dT ← at_idx (tp_dummy s) P;
         mput (set_tp_dummy (((fun d => (d - 1)%Z) <$> take P (tp_dummy s)) ++ (dT + 1)%Z :: drop (S P) (tp_dummy s)) s)
      else mergeonerun) s = Ok (tt, s') /\
    level s' (R' ++ [rP']) (D' ++ [dP']) /\ length R' = P /\ length D' = P /\ totals R' D' = pred <$> totals R D /\ length rP' + dP' = S (length rP + dP) /\
    concat (concat (R' ++ [rP'])) ≡ₚ concat (concat (R ++ [rP])) /\ (concat (R ++ [rP]) <> [] -> concat (R' ++ [rP']) <> []) /\ same_outer s s'.
Proof using HL HT Hv.
  intros H HR HD Hle. cbv zeta. pose proof (lv_dummy _ _ _ H) as Hdum. rewrite fmap_app in Hdum. cbn in Hdum.
  assert (Htake : take P (tp_dummy s) = Z.of_nat <$> D) by (rewrite Hdum; apply take_app_length'; by rewrite length_fmap).
  assert (Hdrop : drop (S P) (tp_dummy s) = []) by (apply drop_ge; rewrite Hdum, length_app, length_fmap; cbn; lia). rewrite Htake, Hdrop.
  destruct (forallb _ _) eqn:Eall.
  - assert (Hpos : Forall (lt 0) D).
    { apply Forall_forall. intros d Hd. apply forallb_forall with (x := Z.of_nat d) in Eall; [|apply list_elem_of_In, list_elem_of_fmap; by exists d].
      apply negb_true_iff, Z.eqb_neq in Eall. lia. }
    rewrite (at_idx_ok _ _ (Z.of_nat dP)) by (rewrite Hdum; apply list_lookup_middle; by rewrite length_fmap).
    exists (pass_dummies D dP s), R, rP, (pred <$> D), (S dP). split_and!; [|by apply pass_dummies_ok|done|by rewrite length_fmap|apply totals_dummies; [lia|done]|lia|done|done|done].
    unfold mput, pass_dummies. do 3 f_equal. rewrite fmap_app. cbn. f_equal; [|do 2 f_equal; lia]. rewrite <- !list_fmap_compose. apply list_fmap_ext. intros i d Hd. rewrite Forall_lookup in Hpos. specialize (Hpos i d Hd). cbn. lia.
  - assert (Hne := dummies_below (S n) R D HR HD Hle ltac:(lia)).
    assert (Hex : exists j, D !! j = Some 0).
    { destruct (decide (Exists (0 =.) D)) as [He|He]; [apply Exists_exists in He as (d & Hd & <-); by apply list_elem_of_lookup|]. exfalso. apply not_true_iff_false in Eall. apply Eall.
      apply forallb_forall. intros z Hz. apply list_elem_of_In, list_elem_of_fmap in Hz as (d & -> & Hd). apply negb_true_iff, Z.eqb_neq. intros E. apply He, Exists_exists. exists d. split; [done|lia]. }
    destruct (mergeonerun_ok s R rP D dP H HR HD Hne Hex) as (s' & out & Hrun & H' & Hperm & E1 & E2 & E3).
    exists s', (zip_with other_runs R D), (rP ++ [out]), (pred <$> D), dP. split_and!; [done|done|rewrite length_zip_with; lia|by rewrite length_fmap|apply totals_merged; [lia|done]|rewrite length_app; cbn; lia| | |done].
    2:{ intros _ E. rewrite concat_app in E. cbn in E. rewrite app_nil_r in E. by apply app_nil in E as [_ [_ ?]%app_nil]. }
    rewrite !concat_app. cbn. rewrite !app_nil_r, concat_app. cbn. rewrite app_nil_r, <- Hperm. perm.
Qed.

Lemma merge_level_ok n : forall s R rP D dP, level s (R ++ [rP]) (D ++ [dP]) -> length R = P -> length D = P -> totals R D !! (P - 1) = Some n -> Forall (le n) (totals R D) ->
  exists s' R' rP' D' dP', merge_level n s = Ok (tt, s') /\ level s' (R' ++ [rP']) (D' ++ [dP']) /\ length R' = P /\ length D' = P /\
    totals R' D' = (fun t => t - n) <$> totals R D /\ length rP' + dP' = length rP + dP + n /\
    concat (concat (R' ++ [rP'])) ≡ₚ concat (concat (R ++ [rP])) /\ (concat (R ++ [rP]) <> [] -> concat (R' ++ [rP']) <> []) /\ same_outer s s'.
Proof using HL HT Hv.
  induction n as [|n IH]; intros s R rP D dP H HR HD Hlast Hle; cbn [merge_level]; rewrite mget_ok; pose proof (lv_env _ _ _ H) as [(HP2 & HP & Hmx) _ _ _ _]; rewrite HP.
  all: destruct (lookup_lt_is_Some_2 R (P - 1)) as [r Hr]; [lia|]; destruct (lookup_lt_is_Some_2 D (P - 1)) as [d Hd]; [lia|].
  all: rewrite (totals_lookup _ _ _ _ _ Hr Hd) in Hlast; injection Hlast as Hn.
  all: rewrite (at_idx_ok _ _ (Z.of_nat (length r))) by (rewrite (lv_runs _ _ _ H), list_lookup_fmap, lookup_app_l, Hr by lia; done).
  all: rewrite (at_idx_ok _ _ (Z.of_nat d)) by (rewrite (lv_dummy _ _ _ H), list_lookup_fmap, lookup_app_l, Hd by lia; done).
  - replace (length r) with 0 by lia. replace d with 0 by lia. cbn. exists s, R, rP, D, dP. split_and!; [done|done|done|done| |lia|done|done|done].
    symmetry. rewrite <- (list_fmap_id (totals R D)) at 2. apply list_fmap_ext. intros i t _. cbn. lia.
  - replace (negb (Z.of_nat (length r) =? 0)%Z || negb (Z.of_nat d =? 0)%Z) with true by (symmetry; apply orb_true_iff; rewrite !negb_true_iff, !Z.eqb_neq; lia).
    destruct (merge_round s R rP D dP n H HR HD Hle) as (s1 & R1 & rP1 & D1 & dP1 & Hrun & H1 & HR1 & HD1 & Ht1 & Hsum & Hp1 & Hnn1 & Ho1).
    cbv zeta in Hrun. cbv zeta. rewrite (mbind_ok _ _ _ _ _ Hrun).
    destruct (IH s1 R1 rP1 D1 dP1 H1 HR1 HD1) as (s2 & R2 & rP2 & D2 & dP2 & Hrun2 & H2 & HR2 & HD2 & Ht2 & Hsum2 & Hp2 & Hnn2 & Ho2).
    + rewrite Ht1, list_lookup_fmap, (totals_lookup _ _ _ _ _ Hr Hd). cbn. f_equal. lia.
    + rewrite Ht1. apply Forall_fmap. eapply Forall_impl; [exact Hle|]. cbn. intros t Ht. lia.
    + exists s2, R2, rP2, D2, dP2. split_and!; [done|done|done|done| |lia|by rewrite Hp2|intros Hnn; by apply Hnn2, Hnn1|by eapply same_outer_trans].
      rewrite Ht2, Ht1, <- list_fmap_compose. apply list_fmap_ext. intros i t _. cbn. lia.
Qed.
End Passes.
