(* ===== verification/External.v ===== *)
(** * External: sorting with tapes

    mergeruns, the two ways of reading the result (from the tape that holds the only run, and by merging while reading) and the
    whole sort, for any amount of memory, of tuplesort.c. *)

From S2P Require Import Prelude Order Compare Heap Qsort Tape LogTape Tuplesort InMemory RunTapes Polyphase BuildRuns MergeRuns MergePasses.
From Stdlib Require Import Permutation.

Lemma fibs_nonneg P L : Forall (Z.le 0) (fibs P L).
Proof.
  induction L as [|L IH]; cbn [fibs].
  - constructor; [lia|]. apply Forall_replicate. lia.
  - unfold next_fibs. assert (H0 : (0 <= fibs P L !!! 0%nat)%Z) by (destruct IH; [|assumption]; cbn; lia).
    apply Forall_fmap. apply Forall_app. split; [|constructor; [cbn; lia|constructor]]. destruct IH as [|z l Hz Hl]; [constructor|]. eapply Forall_impl; [exact Hl|]. cbn in *. intros w Hw. lia.
Qed.

Lemma rotate_last {A} (l : list A) x n : length l = n -> rotate (l ++ [x]) n = x :: l.
Proof.
  intros <-. unfold rotate. rewrite list_lookup_middle by done. rewrite take_app_length, drop_ge by (rewrite length_app; cbn; lia). by rewrite app_nil_r.
Qed.

(** A pass takes as many runs from each tape as the last one has, and what is left is the distribution of the level below. *)
Lemma pass_numbers P L (t : list nat) : 0 < P -> Z.of_nat <$> t = fibs P (S L) ->
  exists n, t !! (P - 1) = Some n /\ Forall (le n) t /\ Z.of_nat n = fibs P L !!! 0 /\ Z.of_nat <$> ((fun x => x - n) <$> t) = tail (fibs P L) ++ [0%Z].
Proof.
  intros HP Ht. pose proof (fibs_length P L HP) as Hl. pose proof (fibs_nonneg P L) as H0. cbn [fibs] in Ht. unfold next_fibs in Ht. set (f := fibs P L) in *.
  destruct f as [|f0 f]; [cbn in Hl; lia|]. cbn [tail lookup_total list_lookup_total] in Ht |- *. apply Forall_cons in H0 as [Hf0 H0]. cbn in Hl.
  assert (Hat : forall i x, t !! i = Some x -> exists z, (f ++ [0%Z]) !! i = Some z /\ Z.of_nat x = (f0 + z)%Z /\ (0 <= z)%Z).
  { intros i x Hx. assert (E : (Z.of_nat <$> t) !! i = Some (Z.of_nat x)) by (by rewrite list_lookup_fmap, Hx). rewrite Ht, list_lookup_fmap in E.
    destruct ((f ++ [0%Z]) !! i) as [z|] eqn:Ez; [|done]. injection E as E. exists z. split_and!; [done|lia|].
    assert (Hall : Forall (Z.le 0) (f ++ [0%Z])) by (apply Forall_app; split; [done|by repeat constructor]). rewrite Forall_lookup in Hall. by apply (Hall i). }
  assert (Hlt : length t = P) by (apply (f_equal length) in Ht; rewrite !length_fmap, length_app in Ht; cbn in Ht; lia).
  destruct (lookup_lt_is_Some_2 t (P - 1)) as [n Hn]; [lia|]. destruct (Hat _ _ Hn) as (z & Hz & En & _). rewrite list_lookup_middle in Hz by lia. injection Hz as <-.
  assert (Hle : Forall (le n) t) by (apply Forall_lookup; intros i x Hx; destruct (Hat i x Hx) as (z & _ & ? & ?); lia).
  exists n. split_and!; [done|done|lia|]. rewrite <- list_fmap_compose. apply list_eq. intros i. rewrite list_lookup_fmap. destruct (t !! i) as [x|] eqn:Ex.
  - destruct (Hat i x Ex) as (z & -> & E & ?). cbn. f_equal. lia.
  - apply lookup_ge_None in Ex. cbn. symmetry. apply lookup_ge_None_2. rewrite length_app. cbn. lia.
Qed.

Section External.
Context {T K : Type} `{SM : !SortMethods T K} {Dm : Domain T} (valid : K -> Prop) `{HL : !SortMethodsLaws SM valid} `{HT : !TapeMethodsLaws SM}.
Context (P : nat) (k : K) (ra : bool) (Hv : valid k).
Local Abbreviation state := (Tuplesortstate T K).
Local Abbreviation run := (list (SortTuple T)).
Local Abbreviation level := (level P k ra).
Implicit Types (s : state) (R : list (list run)) (D : list nat).

(** ** The end of the merge *)

(** TSS_FINALMERGE: [all] is to come. *)
Definition final_merge s (all : run) : Prop := exists parts per dest bs cs, parts !! dest = Some false /\ slots_ok P k ra parts per s cs /\ tapes_ok P k ra dest s bs cs /\
  settled cs /\ all_sorted k cs /\ Forall (clean k) (todos cs) /\ todos cs ≡ₚ all.
(** TSS_SORTEDONTAPE: [past] was read from the result, [left] is to come. *)
Definition on_result s (past left : run) : Prop := env P k ra s /\ Forall (clean k) (past ++ left) /\
  exists ts q t, on_tapes s ts /\ result_tape s = Z.of_nat q /\ ts !! q = Some t /\ reading true t (enc_run ra (past ++ left)) (enc_run ra left).

Definition result s (all : run) : Prop :=
  (status s = TSS_FINALMERGE /\ ra = false /\ final_merge s all) \/
  (status s = TSS_SORTEDONTAPE /\ exists out, on_result s [] out /\ sorted (comparetup k) out /\ out ≡ₚ all).

Lemma result_perm s all all' : all ≡ₚ all' -> result s all -> result s all'.
Proof using.
  intros Hp [(E1 & E2 & (parts & per & dest & bs & cs & E3))|(E1 & out & E2 & E3 & E4)].
  - left. split_and!; [done|done|]. exists parts, per, dest, bs, cs. by rewrite <- Hp.
  - right. split; [done|]. exists out. by rewrite <- Hp.
Qed.

(** ** Tapes that change direction *)

Lemma rewind_read_ok s ts q bs : on_tapes s ts -> ts !! q = Some (written bs) ->
  exists l t, tape_op (fun lts => LogicalTapeRewind lts q false) s = Ok (tt, set_tapeset (Some l) s) /\ on_tapes (set_tapeset (Some l) s) (<[q := t]> ts) /\ reading false t bs bs.
Proof using.
  intros Hs Hq. destruct (written_rewind bs) as (t & Ht & Hr). destruct (tape_op_ok s ts (fun lts => LogicalTapeRewind lts q false) (<[q := t]> ts) Hs) as (l & Hl & Hon).
  { intros lts Hrep. exact (rewind_ok lts ts q _ Hrep Hq false t Ht). }
  by exists l, t.
Qed.
Lemma rewind_write_ok s ts q t all left : on_tapes s ts -> ts !! q = Some t -> reading false t all left ->
  exists l, tape_op (fun lts => LogicalTapeRewind lts q true) s = Ok (tt, set_tapeset (Some l) s) /\ on_tapes (set_tapeset (Some l) s) (<[q := written []]> ts).
Proof using.
  intros Hs Hq Hr. apply (tape_op_ok s ts); [done|]. intros lts Hrep. exact (rewind_ok lts ts q _ Hrep Hq true _ (reading_rewrite _ _ _ Hr)).
Qed.
Lemma freeze_tape_ok s ts q bs : on_tapes s ts -> ts !! q = Some (written bs) ->
  exists l t, tape_op (fun lts => LogicalTapeFreeze lts q) s = Ok (tt, set_tapeset (Some l) s) /\ on_tapes (set_tapeset (Some l) s) (<[q := t]> ts) /\ reading true t bs bs.
Proof using.
  intros Hs Hq. destruct (written_freeze bs) as (t & Ht & Hr). destruct (tape_op_ok s ts (fun lts => LogicalTapeFreeze lts q) (<[q := t]> ts) Hs) as (l & Hl & Hon).
  { intros lts Hrep. exact (freeze_ok lts ts q _ Hrep Hq t Ht). }
  by exists l, t.
Qed.

Lemma slots_ok_status parts per s cs st : slots_ok P k ra parts per s cs -> slots_ok P k ra parts per (set_status st s) cs.
Proof using. intros [[] ? ? ? ? ? ? ? ? ? ? ? ?]. by split. Qed.
Lemma level_tapes s l R D : level s R D -> (forall ts, on_tapes s ts -> on_tapes (set_tapeset (Some l) s) ts) -> level (set_tapeset (Some l) s) R D.
Proof using. intros [[] ? ? ? ? ? (ts & Hon & Hts) ?] H. split; try done. exists ts. split; [by apply H|exact Hts]. Qed.

(** ** Going down the levels *)

Record pass_ready (L : nat) s R D : Prop := {
  pr_level : level s (R ++ [[]]) (D ++ [0]);
  pr_len : length R = P /\ length D = P;
  pr_fibs : Z.of_nat <$> totals R D = fibs P L;
  pr_Level : Level s = Z.of_nat L;
  pr_some : concat R <> [] }.

(** The last merge happens while the result is read. *)
Lemma finish_lazily s R D L : ra = false -> pass_ready L s R D -> Forall (eq 1) (totals R D) ->
  exists s', (tape_op (fun ts => Ok (LogicalTapeSetForgetFreeSpace ts));; beginmerge;; mmod (set_status TSS_FINALMERGE)) s = Ok (tt, s') /\ result s' (concat (concat R)).
Proof using HL HT Hv.
  intros Hra [H [HR HD] _ _ Hsome] Hone. destruct (lv_tapes _ _ _ _ _ _ H) as (ts & Hon & _).
  destruct (tape_op_ok s ts (fun ts => Ok (LogicalTapeSetForgetFreeSpace ts)) ts Hon) as (l & Hl & _); [intros lts Hrep; eexists; split; [reflexivity|by apply rep_forget]|].
  assert (H1 : level (set_tapeset (Some l) s) (R ++ [[]]) (D ++ [0])).
  { apply level_tapes; [done|]. intros ts' (lts' & Hs' & Hrep'). exists l. split; [done|]. unfold tape_op, tapes, mbind, M_bind, mget, deref, lift_res, mmod in Hl. rewrite Hs' in Hl.
    injection Hl as <-. by apply rep_forget. }
  rewrite (mbind_ok _ _ _ _ _ Hl). set (s1 := set_tapeset (Some l) s) in *.
  assert (Hne : forall j r, D !! j = Some 0 -> R !! j = Some r -> r <> []).
  { apply (dummies_below P 1 R D HR HD); [|lia]. eapply Forall_impl; [exact Hone|]. intros ? <-. done. }
  destruct (beginmerge_ok valid P k ra Hv s1 _ _ H1) as (s2 & parts & per & dest & cs & rs' & ds' & Hrun & Hd & Hoff & H2 & Ht2 & Hs2 & Hm1 & Hm2 & Ho2 & C & _).
  { intros j r Hj Hdj Hrj. rewrite lookup_app_l in Hdj by lia. rewrite lookup_app_l in Hrj by lia. by apply (Hne j). }
  { destruct (concat R) as [|x l0] eqn:Ec; [done|]. assert (Hx : x ∈ concat R) by (rewrite Ec; by left). apply list_elem_of_In, in_concat in Hx as (r & Hr & Hx). apply list_elem_of_In, list_elem_of_lookup in Hr as [j Hj].
    pose proof (lookup_lt_Some _ _ _ Hj). destruct (lookup_lt_is_Some_2 D j) as [d Hdj]; [lia|]. rewrite Forall_lookup in Hone. specialize (Hone j _ (totals_lookup _ _ _ _ _ Hj Hdj)).
    exists j. split; [lia|]. apply lookup_app_l_Some. destruct r; [done|]. cbn in Hone. rewrite Hdj. f_equal. lia. }
  rewrite (mbind_ok _ _ _ _ _ Hrun). eexists. split; [reflexivity|]. left. split_and!; [done|done|].
  exists parts, per, dest, (enc_runs ra ((R ++ [[]]) !!! P)), cs.
  destruct (begun_sorted P k ra s1 _ _ cs H1 Hm1) as [Hso Hcl].
  split_and!; [done|by apply slots_ok_status|by apply (tapes_ok_same P k ra dest s2)|done|done|done|].
  unfold todos. rewrite Hm1, (by_tape_perm _ _ (lv_tau _ _ _ _ _ _ H1)), heads_list, concat_app by done. cbn. rewrite app_nil_r.
  rewrite <- (heads_others R D); [|lia|done]. rewrite <- (app_nil_r (concat (zip_with head_run R D))) at 1. f_equiv.
  by rewrite (others_done R D) by (done || lia).
Qed.

(** Step D6: the output tape is read next and the empty one written. *)
Lemma next_pass {B} (g : M state B) s R rP D dP : S (length R) = P -> length D = length R -> level s ((R ++ [[]]) ++ [rP]) ((D ++ [0]) ++ [dP]) ->
  exists s', (tT ← at_idx (tp_tapenum s) P;
        tP ← at_idx (tp_tapenum s) (P - 1);
        tape_op (fun ts => LogicalTapeRewind ts tT false);;
        tape_op (fun ts => LogicalTapeRewind ts tP true);;
        s ← mget;
        let s := set_tp_runs (<[P - 1 := 0%Z]> (tp_runs s)) s in
        mput (set_tp_tapenum (rotate (tp_tapenum s) P) (set_tp_dummy (rotate (tp_dummy s) P)
             (set_tp_runs (rotate (tp_runs s) P) s)));; g) s = g s' /\
    level s' ((rP :: R) ++ [[]]) ((dP :: D) ++ [0]) /\ Level s' = Level s.
Proof using.
  intros HR HD H. pose proof H as [He Htau [Hl1 Hl2] Hr Hd Hn (ts & Hon & Htl & Hts) Hs]. set (tau := tp_tapenum s) in *.
  assert (Hlast : exists tau0 tT, tau = tau0 ++ [tT] /\ length tau0 = P).
  { pose proof (tau_length _ _ Htau) as Ht. destruct tau as [|tT tau0 _] using rev_ind; [cbn in Ht; lia|]. rewrite length_app in Ht. cbn in Ht. exists tau0, tT. split; [done|lia]. }
  destruct Hlast as (tau0 & tT & Etau & Htau0). pose proof (tau_nodup _ _ Htau) as Hnd.
  assert (HT' : tau !! P = Some tT) by (rewrite Etau; by apply list_lookup_middle).
  destruct (lookup_lt_is_Some_2 tau (P - 1)) as [tP HP']; [rewrite Etau, length_app; cbn; lia|].
  assert (Hne : tP <> tT) by (intros ->; pose proof (NoDup_lookup _ _ _ _ Hnd HT' HP'); lia).
  assert (HtT : ts !! tT = Some (written (enc_runs ra rP))).
  { specialize (Hts P tT rP HT'). rewrite decide_True in Hts by done. apply Hts. apply list_lookup_middle. rewrite length_app. cbn. lia. }
  assert (Hx : ((R ++ [[]]) ++ [rP]) !! (P - 1) = Some []) by (rewrite lookup_app_l by (rewrite length_app; cbn; lia); apply list_lookup_middle; lia).
  apply (Hts (P - 1) tP [] HP') in Hx. rewrite decide_False in Hx by lia. destruct Hx as (t & all & HtP & Hrd).
  destruct (rewind_read_ok s ts tT _ Hon HtT) as (l1 & t1 & Hrun1 & Hon1 & Hrd1).
  destruct (rewind_write_ok (set_tapeset (Some l1) s) (<[tT := t1]> ts) tP t all _ Hon1 ltac:(by rewrite list_lookup_insert_ne) Hrd) as (l2 & Hrun2 & Hon2).
  set (s2 := set_tapeset (Some l2) (set_tapeset (Some l1) s)) in *.
  assert (Eruns : <[P - 1 := 0%Z]> (tp_runs s) = (Z.of_nat <$> (length <$> (R ++ [[]]))) ++ [Z.of_nat (length rP)]).
  { rewrite Hr, list_insert_id; [by rewrite fmap_app, <- list_fmap_compose|]. rewrite list_lookup_fmap, lookup_app_l by (rewrite length_app; cbn; lia). by rewrite list_lookup_middle by lia. }
  assert (Edummy : tp_dummy s = (Z.of_nat <$> D ++ [0]) ++ [Z.of_nat dP]) by (by rewrite Hd, fmap_app).
  set (s3 := set_tp_tapenum (tT :: tau0) (set_tp_dummy (Z.of_nat dP :: (Z.of_nat <$> D ++ [0])) (set_tp_runs (Z.of_nat (length rP) :: (Z.of_nat <$> (length <$> (R ++ [[]])))) s2))).
  exists s3. split_and!; [| |done].
  - rewrite (at_idx_ok _ _ _ _ _ HT'), (at_idx_ok _ _ _ _ _ HP'), (mbind_ok _ _ _ _ _ Hrun1), (mbind_ok _ _ _ _ _ Hrun2), mget_ok. cbv zeta. rewrite mput_ok.
    change (tp_runs s2) with (tp_runs s). rewrite Eruns. cbn [tp_tapenum tp_dummy tp_runs set_tp_runs]. change (tp_tapenum s2) with tau. change (tp_dummy s2) with (tp_dummy s). rewrite Etau, Edummy.
    rewrite !rotate_last by (rewrite ?length_fmap, ?length_app; cbn; lia). reflexivity.
  - split.
    + by destruct He.
    + cbn. rewrite <- Htau, Etau. apply Permutation_cons_append.
    + cbn. rewrite !length_app in *. cbn in *. lia.
    + cbn. by rewrite <- list_fmap_compose.
    + reflexivity.
    + exact Hn.
    + exists (<[tP := written []]> (<[tT := t1]> ts)). split; [by destruct Hon2 as (l & El & Hrep); exists l|]. split; [by rewrite !length_insert|].
      intros j q r Hj Hrj. change (tp_tapenum s3) with (tT :: tau0) in Hj. destruct j as [|j]; cbn in Hj.
      * injection Hj as <-. cbn in Hrj. injection Hrj as <-. rewrite decide_False by lia. rewrite list_lookup_insert_ne by done. exists t1, (enc_runs ra rP).
        rewrite list_lookup_insert_eq by (by eapply lookup_lt_Some). done.
      * pose proof (lookup_lt_Some _ _ _ Hj) as HjP. assert (Hj' : tau !! j = Some q) by (rewrite Etau; by apply lookup_app_l_Some). change ((R ++ [[]]) !! j = Some r) in Hrj.
        assert (HqT : q <> tT) by (intros ->; pose proof (NoDup_lookup _ _ _ _ Hnd HT' Hj'); lia).
        destruct (decide (S j = P)) as [Ej|Ej].
        -- assert (Hq : q = tP) by (replace (P - 1) with j in HP' by lia; congruence). subst q. rewrite list_lookup_middle in Hrj by lia. injection Hrj as <-.
           rewrite list_lookup_insert_eq; [done|]. rewrite length_insert. by eapply lookup_lt_Some.
        -- assert (HqP : q <> tP) by (intros ->; pose proof (NoDup_lookup _ _ _ _ Hnd HP' Hj'); lia). rewrite !list_lookup_insert_ne by done.
           specialize (Hts j q r Hj'). rewrite decide_False in Hts by lia. apply Hts. rewrite lookup_app_l in Hrj by lia. by do 2 apply lookup_app_l_Some.
    + apply Forall_app in Hs as [Hs1 Hs2]. apply Forall_app in Hs1 as [Hs1 Hs3]. cbn. rewrite Forall_singleton in Hs2. constructor; [done|]. by apply Forall_app.
Qed.

Lemma level_Level s R D z : level s R D -> level (set_Level z s) R D.
Proof using. intros [[] ? ? ? ? ? ? ?]. by split. Qed.

(** The only run there is becomes the result. *)
Lemma freeze_result s ts q out : env P k ra s -> on_tapes s ts -> ts !! q = Some (written (enc_run ra out)) -> sorted (comparetup k) out -> Forall (clean k) out ->
  exists s', (mmod (set_result_tape (Z.of_nat q));; tape_op (fun ts => LogicalTapeFreeze ts q);; mmod (set_status TSS_SORTEDONTAPE)) s = Ok (tt, s') /\ result s' out.
Proof using.
  intros He Hon Hq Hs Hc. rewrite mmod_ok. destruct (freeze_tape_ok (set_result_tape (Z.of_nat q) s) ts q _ Hon Hq) as (l & t & Hrun & Hon' & Hrd). rewrite (mbind_ok _ _ _ _ _ Hrun).
  eexists. split; [reflexivity|]. right. split; [done|]. exists out. split_and!; [|done|done]. split_and!; [by destruct He|done|].
  exists (<[q := t]> ts), q, t. split_and!; [|done|apply list_lookup_insert_eq; by eapply lookup_lt_Some|done]. destruct Hon' as (l' & El & Hrep). by exists l'.
Qed.

Lemma zero_totals R D : length R = length D -> Forall (eq 0) (totals R D) -> concat R = [] /\ Forall (eq 0) D.
Proof using.
  revert D. induction R as [|r R IH]; intros [|d D] Hl H; try discriminate Hl; [done|]. cbn in H. apply Forall_cons in H as [Hrd H]. destruct (IH D) as [E1 E2]; [by injection Hl|done|].
  destruct r; [|cbn in Hrd; lia]. cbn in *. split; [done|]. by constructor.
Qed.

(** After the pass of level 1. *)
Lemma last_level s R rP D dP all : level s (R ++ [rP]) (D ++ [dP]) -> length R = P -> length D = P -> Forall (eq 0) (totals R D) -> length rP + dP = 1 ->
  concat (R ++ [rP]) <> [] -> concat (concat (R ++ [rP])) ≡ₚ all ->
  exists s', (tT ← at_idx (tp_tapenum s) P; mmod (set_result_tape (Z.of_nat tT));; tape_op (fun ts => LogicalTapeFreeze ts tT);; mmod (set_status TSS_SORTEDONTAPE)) s = Ok (tt, s') /\ result s' all.
Proof using.
  intros H HR HD Hz Hsum Hsome Hp. destruct (zero_totals R D ltac:(lia) Hz) as [E _]. rewrite concat_app, E in Hsome. rewrite concat_app, E in Hp. cbn in Hsome, Hp. rewrite app_nil_r in Hsome, Hp.
  destruct rP as [|out [|? ?]]; [done| |cbn in Hsum; lia]. cbn in Hp. rewrite app_nil_r in Hp. pose proof (lv_tau _ _ _ _ _ _ H) as Htau.
  destruct (lookup_lt_is_Some_2 (tp_tapenum s) P) as [q Hq]; [rewrite (tau_length _ _ Htau); lia|]. rewrite (at_idx_ok _ _ _ _ _ Hq).
  destruct (lv_tapes _ _ _ _ _ _ H) as (ts & Hon & _ & Hts). specialize (Hts P q [out] Hq (list_lookup_middle _ _ _ _ (eq_sym HR))). rewrite decide_True in Hts by done.
  pose proof (lv_sorted _ _ _ _ _ _ H) as Hs. apply Forall_app in Hs as [_ Hs]. rewrite !Forall_singleton in Hs. destruct Hs as [Hs Hc].
  unfold enc_runs in Hts. cbn [fmap list_fmap concat] in Hts. rewrite app_nil_r in Hts.
  destruct (freeze_result s ts q out (lv_env _ _ _ _ _ _ H) Hon Hts Hs Hc) as (s' & Hrun & Hres). exists s'. split; [exact Hrun|]. by apply (result_perm s' out).
Qed.

Lemma all_one_run s R D L : pass_ready L s R D ->
  forallb (fun j => match tp_runs s !! j, tp_dummy s !! j with Some r, Some d => (r + d =? 1)%Z | _, _ => false end) (seq 0 P) = true -> Forall (eq 1) (totals R D).
Proof using.
  intros [H [HR HD] _ _ _] Hall. apply Forall_lookup. intros j n Hn. apply lookup_zip_with_Some in Hn as (r & d & -> & Hr & Hd). pose proof (lookup_lt_Some _ _ _ Hr) as Hj.
  rewrite forallb_forall in Hall. specialize (Hall j ltac:(apply in_seq; lia)). rewrite (lv_runs _ _ _ _ _ _ H), (lv_dummy _ _ _ _ _ _ H), !list_lookup_fmap in Hall.
  rewrite lookup_app_l in Hall by lia. rewrite (lookup_app_l D) in Hall by lia. rewrite Hr, Hd in Hall. cbn in Hall. apply Z.eqb_eq in Hall. lia.
Qed.

Lemma mergeruns_loop_ok L : forall s R D, 1 <= L -> pass_ready L s R D -> exists s', mergeruns_loop L s = Ok (tt, s') /\ result s' (concat (concat R)).
Proof using HL HT Hv.
  induction L as [|L IH]; intros s R D HL1 Hpr; [lia|]. pose proof Hpr as [H [HR HD] Hfib HLev Hsome]. pose proof (lv_env _ _ _ _ _ _ H) as [(HP2 & HP & _) _ Hra _ _].
  cbn [mergeruns_loop]. rewrite mget_ok, HP, Hra.
  assert (Hchk : (if negb ra then rT ← at_idx (tp_runs s) P; Assert (rT =? 0)%Z else mret tt) s = Ok (tt, s)).
  { destruct ra; [done|]. cbn. rewrite (at_idx_ok _ _ 0%Z); [done|]. rewrite (lv_runs _ _ _ _ _ _ H), list_lookup_fmap. by rewrite list_lookup_middle. }
  rewrite (mbind_ok _ _ _ _ _ Hchk). destruct (negb ra && _) eqn:Efin.
  { apply andb_true_iff in Efin as [Er Hone]. apply negb_true_iff in Er. by eapply finish_lazily; [|exact Hpr|eapply all_one_run]. }
  clear Efin Hchk. destruct (pass_numbers P L (totals R D) ltac:(lia) Hfib) as (n & Hn & Hle & En & Hrest).
  pose proof Hn as Hn'. apply lookup_zip_with_Some in Hn' as (r & d & Erd & Hr & Hd).
  rewrite (at_idx_ok _ _ (Z.of_nat (length r))) by (rewrite (lv_runs _ _ _ _ _ _ H), list_lookup_fmap, lookup_app_l, Hr by lia; done).
  rewrite (at_idx_ok _ _ (Z.of_nat d)) by (rewrite (lv_dummy _ _ _ _ _ _ H), list_lookup_fmap, lookup_app_l, Hd by lia; done).
  replace (Z.to_nat (Z.of_nat (length r) + Z.of_nat d)) with n by lia.
  destruct (merge_level_ok valid P k ra Hv n s R [] D 0 H HR HD Hn Hle) as (s1 & R1 & rP & D1 & dP & Hrun & H1 & HR1 & HD1 & Ht1 & Hsum & Hp & Hnn & Ho1 & Ho2 & Ho3).
  rewrite (mbind_ok _ _ _ _ _ Hrun), mget_ok, mput_ok. rewrite Ho2, HLev. replace (Z.of_nat (S L) - 1)%Z with (Z.of_nat L) by lia.
  rewrite concat_app in Hnn. cbn in Hnn. rewrite app_nil_r in Hnn. specialize (Hnn Hsome). rewrite (concat_app R) in Hp. cbn in Hp. rewrite app_nil_r in Hp. rewrite <- Ht1 in Hrest.
  set (s2 := set_Level (Z.of_nat L) s1). assert (H2 : level s2 (R1 ++ [rP]) (D1 ++ [dP])) by (by apply level_Level). change (tp_tapenum s1) with (tp_tapenum s2).
  destruct L as [|L].
  - change (Z.of_nat 0 =? 0)%Z with true. cbv iota. apply (last_level s2 R1 rP D1 dP); [done..| | |done|done].
    + cbn in Hrest. apply Forall_lookup. intros i t Hti. assert (E : (Z.of_nat <$> totals R1 D1) !! i = Some (Z.of_nat t)) by (by rewrite list_lookup_fmap, Hti). rewrite Hrest in E.
      change [0%Z] with (replicate 1 0%Z) in E. rewrite <- replicate_add in E. apply lookup_replicate in E as [E _]. lia.
    + cbn in Hsum. rewrite Hsum. cbn in En. lia.
  - replace (Z.of_nat (S L) =? 0)%Z with false by (symmetry; apply Z.eqb_neq; lia). cbv iota.
    assert (Hsplit : exists R0 D0, R1 = R0 ++ [[]] /\ D1 = D0 ++ [0] /\ S (length R0) = P /\ length D0 = length R0 /\ Z.of_nat <$> totals R0 D0 = tail (fibs P (S L))).
    { destruct R1 as [|rl R0 _] using rev_ind; [cbn in HR1; lia|]. destruct D1 as [|dl D0 _] using rev_ind; [cbn in HD1; lia|]. rewrite length_app in HR1, HD1. cbn in HR1, HD1.
      unfold totals in Hrest. rewrite zip_with_app in Hrest by lia. rewrite fmap_app in Hrest. cbn [zip_with fmap list_fmap] in Hrest. apply app_inj_tail in Hrest as [E1 E2].
      exists R0, D0. destruct rl; [|cbn in E2; lia]. cbn in E2. assert (dl = 0) as -> by lia. split_and!; try done; lia. }
    destruct Hsplit as (R0 & D0 & -> & -> & HR0 & HD0 & Hf0).
    destruct (next_pass (mergeruns_loop (S L)) s2 R0 rP D0 dP HR0 HD0 H2) as (s3 & Hgo & H3 & HL3). cbv zeta in Hgo. cbv zeta. rewrite Hgo.
    destruct (IH s3 (rP :: R0) (dP :: D0)) as (s' & Hloop & Hres); [lia| |].
    + split; [exact H3|cbn; lia| |by rewrite HL3|].
      * change (totals (rP :: R0) (dP :: D0)) with (length rP + dP :: totals R0 D0). rewrite Hsum. cbn [length Nat.add fmap list_fmap]. rewrite Hf0, En. pose proof (fibs_length P (S L) ltac:(lia)). destruct (fibs P (S L)); [cbn in *; lia|done].
      * intros E. apply Hnn. rewrite !concat_app. cbn in *. rewrite app_nil_r. apply app_nil in E as [-> ->]. done.
    + exists s'. split; [exact Hloop|]. eapply result_perm; [|exact Hres]. rewrite <- Hp, !concat_app. cbn. rewrite concat_app. cbn. rewrite !app_nil_r. apply Permutation_app_comm.
Qed.

(** ** mergeruns *)

Lemma clean_norm x : good k x -> clean k (norm x).
Proof using HL HT. intros (H1 & H2 & H3). assert (E : tuple_body (norm x) = tuple_body x) by apply sm_body. split; [|by apply norm_norm]. split_and!; rewrite ?E; [done|by rewrite norm_norm|by apply (in_domain_norm valid)]. Qed.

Lemma rewind_all_ok n : forall j s ts (b : nat -> list byte), on_tapes s ts -> (forall i, j <= i < j + n -> ts !! i = Some (written (b i))) ->
  exists l ts', for_tapes n j (fun j => tape_op (fun lts => LogicalTapeRewind lts j false)) s = Ok (tt, set_tapeset (Some l) s) /\ on_tapes (set_tapeset (Some l) s) ts' /\ length ts' = length ts /\
    (forall i, j <= i < j + n -> exists t, ts' !! i = Some t /\ reading false t (b i) (b i)) /\ (forall i, ~ (j <= i < j + n) -> ts' !! i = ts !! i).
Proof using.
  induction n as [|n IH]; intros j s ts b Hon Hts; cbn [for_tapes].
  { pose proof Hon as (lts & Hl & _). exists lts, ts. assert (E : set_tapeset (Some lts) s = s) by (destruct s; cbn in *; by subst). rewrite E. split_and!; try done. intros i Hi. lia. }
  destruct (rewind_read_ok s ts j (b j) Hon (Hts j ltac:(lia))) as (l & t & Hrun & Hon1 & Hrd). rewrite (mbind_ok _ _ _ _ _ Hrun).
  pose proof (lookup_lt_Some _ _ _ (Hts j ltac:(lia))) as Hj.
  destruct (IH (S j) (set_tapeset (Some l) s) (<[j := t]> ts) b Hon1) as (l' & ts' & Hrun' & Hon' & Hlen & Hin & Hout).
  { intros i Hi. rewrite list_lookup_insert_ne by lia. apply Hts. lia. }
  exists l', ts'. split_and!; [exact Hrun'|exact Hon'|by rewrite Hlen, length_insert| |].
  - intros i Hi. destruct (decide (i = j)) as [->|]; [|apply Hin; lia]. exists t. split; [|done]. rewrite Hout by lia. by apply list_lookup_insert_eq.
  - intros i Hi. rewrite Hout by lia. apply list_lookup_insert_ne. lia.
Qed.

Lemma one_run_only rs (r : list run) i : rs !! i = Some r -> r <> [] -> length (concat rs) = 1 -> exists out, r = [out] /\ concat rs = [out].
Proof using.
  intros Hi Hr Hl. rewrite (concat_middle rs i r Hi) in Hl |- *. rewrite !length_app in Hl. destruct r as [|out [|? ?]]; [done| |cbn in Hl; lia]. cbn in Hl. exists out. split; [done|].
  rewrite (nil_length_inv (concat (take i rs))), (nil_length_inv (concat (drop (S i) rs))) by lia. done.
Qed.

(** The tapes as the merge finds them. *)
Lemma built_ready s rs r ins l ts : building false P k ra s rs [] ins -> Forall (good k) ins -> memtupcount s = 0 -> rs !! destTape s = Some r -> r <> [] ->
  on_tapes (set_tapeset (Some l) s) ts -> length ts = S P ->
  (forall i x, i < P -> rs !! i = Some x -> exists t, ts !! i = Some t /\ reading false t (enc_runs ra x) (enc_runs ra x)) -> ts !! P = Some (written []) ->
  exists L R D, 1 <= L /\ Level s = Z.of_nat L /\ pass_ready L (set_tapeset (Some l) s) R D /\ concat (concat R) ≡ₚ norm <$> ins.
Proof using HL HT.
  intros [He Hst Htn (L & HL1 & HLev & _ & Hnu) Hru _ Hso _ Hct _ _ _ Hal] Hgood Hn Hr Hne Hon Htl Hts HtsP.
  destruct Hnu as [[Hl1 Hl2] Hdest Hsum [Hend1 Hend2] _ _ _]. pose proof (e_range _ _ _ _ He) as (HP2 & _ & _).
  assert (Hrl : length rs = S P) by (rewrite Hru, length_fmap in Hl1; lia).
  unfold in_heap in Hal. rewrite Hn, take_0 in Hal. cbn in Hal. rewrite app_nil_r in Hal.
  destruct rs as [|rl R _] using rev_ind; [cbn in Hrl; lia|]. rewrite length_app in Hrl. cbn in Hrl. assert (HR : length R = P) by lia.
  assert (rl = []) as ->.
  { rewrite (list_lookup_total_correct _ P (Z.of_nat (length rl))) in Hend1 by (rewrite Hru, list_lookup_fmap, list_lookup_middle by done; done). by destruct rl. }
  set (D := Z.to_nat <$> take P (tp_dummy s)). assert (HD : length D = P) by (unfold D; rewrite length_fmap, length_take; lia).
  assert (Hdl : tp_dummy s = Z.of_nat <$> D ++ [0]).
  { rewrite fmap_app. unfold D. rewrite <- list_fmap_compose. rewrite <- (take_drop P (tp_dummy s)) at 1. f_equal.
    - rewrite <- (list_fmap_id (take P (tp_dummy s))) at 1. apply list_fmap_ext. intros i z Hz. apply lookup_take_Some in Hz as [Hz Hi]. cbn. destruct (Hsum i Hi) as (_ & _ & Hpos).
      rewrite (list_lookup_total_correct _ _ _ Hz) in Hpos. lia.
    - rewrite (drop_S _ 0%Z P); [rewrite drop_ge by lia; done|]. rewrite <- Hend2. apply list_lookup_lookup_total_lt. lia. }
  rewrite concat_app in Hal. cbn in Hal. rewrite app_nil_r in Hal. rewrite lookup_app_l in Hr by lia.
  exists L, R, D. split_and!; [done|done| |done]. split; [|done| |done|].
  - split; try done.
    + by destruct He.
    + cbn. by rewrite Htn.
    + rewrite !length_app. cbn. lia.
    + exists ts. split_and!; [done|done|]. intros j q x Hj Hx. cbn [tp_tapenum set_tapeset] in Hj. rewrite Htn in Hj. apply lookup_seq in Hj as [-> HjP]. case_decide as E.
      * cbn. rewrite E in *. rewrite list_lookup_middle in Hx by done. injection Hx as <-. done.
      * destruct (Hts j x) as (t & Ht & Hrd); [lia|done|]. by exists t, (enc_runs ra x).
    + assert (Hclean : forall x, x ∈ concat (concat R) -> clean k x).
      { intros x. rewrite Hal. intros Hx. apply list_elem_of_fmap in Hx as (y & -> & Hy). apply clean_norm. rewrite Forall_forall in Hgood. by apply Hgood. }
      apply Forall_forall. intros rr Hrr. apply Forall_forall. intros q Hq. rewrite Forall_forall in Hso. specialize (Hso rr Hrr). rewrite Forall_forall in Hso. split; [by apply Hso|].
      apply Forall_forall. intros x Hx. apply Hclean. apply elem_of_app in Hrr as [Hrr| ->%list_elem_of_singleton]; [|by apply elem_of_nil in Hq].
      apply list_elem_of_In, in_concat. exists q. split; [|by apply list_elem_of_In]. apply in_concat. exists rr. split; by apply list_elem_of_In.
  - apply list_eq. intros i. destruct (decide (i < P)) as [Hi|Hi].
    + destruct (lookup_lt_is_Some_2 R i) as [x Hx]; [lia|]. destruct (lookup_lt_is_Some_2 D i) as [d Hd]; [lia|]. rewrite list_lookup_fmap, (totals_lookup _ _ _ _ _ Hx Hd). cbn.
      pose proof (fibs_length P L ltac:(lia)). rewrite (lookup_total_eq (fibs P L)) by lia. f_equal. rewrite (fibs_array P L i Hi). destruct (Hsum i Hi) as (<- & _).
      rewrite Hru, Hdl. rewrite (list_lookup_total_correct _ i (Z.of_nat (length x))) by (rewrite list_lookup_fmap, lookup_app_l, Hx by lia; done).
      rewrite (list_lookup_total_correct _ i (Z.of_nat d)) by (rewrite list_lookup_fmap, lookup_app_l, Hd by lia; done). lia.
    + rewrite !lookup_ge_None_2; [done|rewrite fibs_length; lia|]. rewrite length_fmap. unfold totals. rewrite length_zip_with. lia.
  - rewrite (concat_middle R (destTape s) r Hr). intros E. apply app_nil in E as [_ [E _]%app_nil]. done.
Qed.

Lemma mergeruns_ok s rs r ins : building false P k ra s rs [] ins -> Forall (good k) ins -> memtupcount s = 0 -> rs !! destTape s = Some r -> r <> [] ->
  exists s', mergeruns s = Ok (tt, s') /\ result s' (norm <$> ins).
Proof using HL HT Hv.
  intros HB Hgood Hn Hr Hne. pose proof HB as [He Hst Htn (L0 & _ & _ & _ & [[Hl1 Hl2] Hdest _ _ _ _ _]) Hru (ts & Hon & Htl & Hts) Hso _ Hct _ _ _ Hal]. pose proof (e_range _ _ _ _ He) as (HP2 & HP & _).
  unfold mergeruns. rewrite mget_ok, Assert_ok by (by apply bool_decide_true). rewrite Assert_ok by (by apply bool_decide_true). rewrite HP.
  assert (Hrl : length rs = S P) by (rewrite Hru, length_fmap in Hl1; lia).
  assert (Hts0 : forall i x, rs !! i = Some x -> ts !! i = Some (written (enc_runs ra x))) by (intros i x Hx; rewrite (Hts i x Hx); case_decide; cbn; by rewrite app_nil_r).
  destruct (Z.eqb_spec (currentRun s) 1) as [E1|E1].
  - destruct (one_run_only rs r (destTape s) Hr Hne ltac:(lia)) as (out & -> & Econc). rewrite Econc in Hal. cbn in Hal. unfold in_heap in Hal. rewrite Hn, take_0 in Hal. cbn in Hal. rewrite !app_nil_r in Hal.
    rewrite (at_idx_ok _ _ (destTape s)) by (rewrite Htn; apply seq_lookup_self; lia).
    pose proof (Hts0 _ _ Hr) as Ht. unfold enc_runs in Ht. cbn [fmap list_fmap concat] in Ht. rewrite app_nil_r in Ht.
    destruct (freeze_result s ts (destTape s) out He Hon Ht) as (s' & Hrun & Hres).
    + rewrite Forall_lookup in Hso. specialize (Hso _ _ Hr). by rewrite Forall_singleton in Hso.
    + rewrite Hal. apply Forall_fmap. eapply Forall_impl; [exact Hgood|]. intros x Hx. by apply clean_norm.
    + exists s'. split; [exact Hrun|]. by apply (result_perm s' out).
  - destruct (rewind_all_ok P 0 s ts (fun i => enc_runs ra (rs !!! i)) Hon) as (l & ts' & Hrun & Hon' & Hlen & Hin & Hout).
    { intros i Hi. apply Hts0. apply list_lookup_lookup_total_lt. lia. }
    rewrite (mbind_ok _ _ _ _ _ Hrun). destruct (built_ready s rs r ins l ts' HB Hgood Hn Hr Hne Hon') as (L & R & D & HL1 & HLev & Hpr & Hp); [lia| | |].
    + intros i x Hi Hx. destruct (Hin i ltac:(lia)) as (t & Ht & Hrd). exists t. by rewrite (list_lookup_total_correct _ _ _ Hx) in Hrd.
    + rewrite Hout by lia. assert (HrP : rs !! P = Some []); [|by rewrite (Hts0 _ _ HrP)].
      destruct HB as [_ _ _ (L & _ & _ & _ & [_ _ _ [Hend _] _ _ _]) _ _ _ _ _ _ _ _ _]. destruct (lookup_lt_is_Some_2 rs P) as [x Hx]; [lia|]. rewrite Hx.
      rewrite (list_lookup_total_correct _ P (Z.of_nat (length x))) in Hend by (by rewrite Hru, list_lookup_fmap, Hx). by destruct x.
    + rewrite HLev, Nat2Z.id. destruct (mergeruns_loop_ok L _ R D HL1 Hpr) as (s' & Hloop & Hres). exists s'. split; [exact Hloop|]. by apply (result_perm s' (concat (concat R))).
Qed.

(** ** Reading the result *)

Lemma yields_ontape slave left : forall s past, status s = TSS_SORTEDONTAPE -> eof_reached s = false -> on_result s past left ->
  exists out, yields slave out s /\ norm <$> out = left.
Proof using.
  induction left as [|x left IH]; intros s past Hst Heof (He & Hc & ts & q & t & Hon & Eq & Hq & Hrd); pose proof He as [Hrg Hk Hra Hrm Har].
  - exists []. split; [|done]. exists s. split; [done|]. unfold ends, tuplesort_gettuple_common. rewrite mget_ok, Hst. unfold get_ontape. rewrite mget_ok, Assert_ok by done.
    cbv zeta. rewrite Heof, Eq, Nat2Z.id. change (enc_run ra []) with mark in Hrd.
    destruct (getlen_mark_ok s ts q t true (enc_run ra (past ++ [])) [] Hon Hq) as (l & t' & Hlen & _ & _); [by rewrite (app_nil_r mark)|]. rewrite (mbind_ok _ _ _ _ _ Hlen). by eexists.
  - change (enc_run ra (x :: left)) with ((enc_tuple ra x ++ concat (enc_tuple ra <$> left)) ++ mark) in Hrd. rewrite <- app_assoc in Hrd. rewrite <- Hra in Hrd at 2. rewrite <- Hk in Hc.
    pose proof Hc as Hc'. apply Forall_app in Hc' as [_ Hc']. apply Forall_cons in Hc' as [[Hg Hx] _].
    destruct (read_tuple_ok s ts q t true _ _ x Hg Hon Hq Hrd) as (len & s1 & y & s2 & t' & Hlen & Hz & Hread & Hy & Hto & Hon' & Hrd').
    destruct (IH s2 (past ++ [x])) as (out & (s' & Hreads & Hends) & Hout).
    + by destruct Hto as (a & l & ->).
    + by destruct Hto as (a & l & ->).
    + split_and!; [destruct Hto as (a & l & ->); by split|rewrite <- app_assoc; by rewrite <- Hk|]. exists (<[q := t']> ts), q, t'. rewrite <- app_assoc.
      split_and!; [done|by destruct Hto as (a & l & ->)|apply list_lookup_insert_eq; by eapply lookup_lt_Some|done].
    + exists (y :: out). cbn [fmap list_fmap]. split; [|by rewrite Hout, Hy, Hx]. exists s'. split; [|done]. exists s2. split; [|done].
      unfold tuplesort_gettuple_common. rewrite mget_ok, Hst. unfold get_ontape. rewrite mget_ok, Assert_ok by done. cbv zeta. rewrite Heof, Eq, Nat2Z.id, (mbind_ok _ _ _ _ _ Hlen), Hz.
      cbn [negb]. by rewrite (mbind_ok _ _ _ _ _ Hread).
Qed.

Lemma slots_ok_freemem parts per s cs z : slots_ok P k ra parts per s cs -> slots_ok P k ra parts per (FREEMEM z s) cs.
Proof using. intros [[] ? ? ? ? ? ? ? ? ? ? ? ?]. by split. Qed.

(** One tuple of the final merge. *)
Lemma get_final_step slave s all : status s = TSS_FINALMERGE -> final_merge s all -> 
  (all = [] /\ tuplesort_gettuple_common slave true s = Ok (None, s)) \/
  (exists top x s' all', tuplesort_gettuple_common slave true s = Ok (Some top, s') /\ norm top = x /\ status s' = TSS_FINALMERGE /\ final_merge s' all' /\ all ≡ₚ x :: all' /\
    forall y, y ∈ all -> (comparetup k x y <= 0)%Z).
Proof using HL Hv.
  intros Hst (parts & per & dest & bs & cs & Hoff & H & Ht & Hs & Hso & Hcl & Hp). unfold tuplesort_gettuple_common. rewrite mget_ok, Hst. unfold get_finalmerge. rewrite mget_ok, Assert_ok by done.
  destruct (decide (0 < memtupcount s)) as [Hn|Hn].
  2:{ left. rewrite bool_decide_false by done. split; [|done]. rewrite (spent_todos cs (no_tops_spent P k ra parts per s cs H Hs ltac:(lia))) in Hp. by apply Permutation_nil in Hp. }
  right. rewrite bool_decide_true by done. destruct (so_heap _ _ _ _ _ _ _ H) as (_ & Hle & _). destruct (lookup_lt_is_Some_2 (memtuples s) 0) as [top Htop]; [unfold memtupsize in Hle; lia|].
  rewrite (at_idx_ok _ _ _ _ _ Htop). cbv zeta. pose proof (so_env _ _ _ _ _ _ _ H) as [_ _ _ _ (_ & _ & _ & _ & Ha5)].
  destruct (merge_next valid P k ra Hv parts per dest s bs cs top H Ht Hs Hso Hn Htop) as (i0 & _ & _ & Hi0 & HiP & _).
  destruct (lookup_lt_is_Some_2 (mergeavailmem s) (Z.to_nat (tupindex top))) as [am Ham]; [lia|]. rewrite (at_idx_ok _ _ _ _ _ Ham), mput_ok.
  set (s1 := FREEMEM _ _). assert (H1 : slots_ok P k ra parts per s1 cs) by (apply slots_ok_freemem, slots_ok_mem; [by rewrite length_insert|done]).
  assert (Ht1 : tapes_ok P k ra dest s1 bs cs) by (by apply (tapes_ok_same P k ra dest s)).
  destruct (merge_next valid P k ra Hv parts per dest s1 bs cs top H1 Ht1 Hs Hso Hn Htop) as (i & x & s2 & Hi & _ & Hnx & Hsift & Hgo). rewrite (mbind_ok _ _ _ _ _ Hsift), Hi.
  destruct (Hgo (mergeprereadone i) _ (mret (Some top)) (mergeprereadone_refills valid P k ra parts per dest Hoff i)) as (s3 & cs3 & -> & H3 & Ht3 & Hs3 & Hso3 & Htodo & _ & Ho3 & Hmin).
  assert (Hcl3 : Forall (clean k) (x :: todos cs3)) by (by rewrite <- Htodo). apply Forall_cons in Hcl3 as [[_ Hx] Hcl3].
  exists top, x, s3, (todos cs3). split_and!; [done|congruence| | |by rewrite <- Hp, Htodo|].
  - injection Ho3 as E _ _ _ _. by rewrite E.
  - exists parts, per, dest, bs, cs3. by split_and!.
  - intros y Hy. apply Hmin. by rewrite Hp.
Qed.

Lemma yields_final slave n : forall s all, status s = TSS_FINALMERGE -> final_merge s all -> length all = n ->
  exists out, yields slave out s /\ norm <$> out ≡ₚ all /\ sorted (comparetup k) out.
Proof using HL Hv.
  induction n as [|n IH]; intros s all Hst Hf Hn; destruct (get_final_step slave s all Hst Hf) as [[-> Hget]|(top & x & s1 & all1 & Hget & Hx & Hst1 & Hf1 & Hp & Hmin)].
  - exists []. split_and!; [|done|constructor]. exists s. split; [done|]. by exists s.
  - apply Permutation_length in Hp. cbn in Hp. lia.
  - done.
  - destruct (IH s1 all1 Hst1 Hf1) as (out & (s' & Hreads & Hends) & Hout & Hsort); [apply Permutation_length in Hp; cbn in Hp; lia|].
    exists (top :: out). split_and!; [exists s'; split; [by exists s1|done]|cbn; by rewrite Hout, Hx|]. constructor; [done|]. apply Forall_forall. intros y Hy.
    specialize (Hmin (norm y)). rewrite <- Hx in Hmin. rewrite (cmp_norm valid) in Hmin. apply Hmin. rewrite Hp, <- Hout. right. by apply list_elem_of_fmap_2.
Qed.

Lemma sorted_norm (l : run) : sorted (comparetup k) (norm <$> l) -> sorted (comparetup k) l.
Proof using HL.
  induction l as [|x l IH]; intros H; [constructor|]. cbn in H. apply (sorted_cons_inv (comparetup k)) in H as [H1 H2]. constructor; [by apply IH|].
  apply Forall_forall. intros y Hy. change (comparetup k x y <= 0)%Z. rewrite <- (cmp_norm valid). apply H2. by apply list_elem_of_fmap_2.
Qed.

(** Reading all that a sort with tapes put out. *)
Lemma yields_result slave s all : eof_reached s = false -> result s all -> exists out, yields slave out s /\ norm <$> out ≡ₚ all /\ sorted (comparetup k) out.
Proof using HL Hv.
  intros Heof [(Hst & _ & Hf)|(Hst & out & Hres & Hs & Hp)]; [by eapply yields_final|].
  destruct (yields_ontape slave out s [] Hst Heof Hres) as (o & Ho & E). exists o. split_and!; [done|by rewrite E|]. rewrite <- E in Hs. by apply sorted_norm.
Qed.
End External.
