(* ===== verification/SortRun.v ===== *)
(** * SortRun: the whole sort

    Putting tuples in, tuplesort_performsort and reading, of tuplesort.c, for any amount of memory and any bound: the sort may stay
    in memory, go over to the bounded heap or go to tapes. *)

From S2P Require Import Prelude Order Compare Heap Qsort Tape LogTape Tuplesort InMemory RunTapes Polyphase BuildRuns MergeRuns MergePasses External.
From Stdlib Require Import Permutation.

Section SortRun.
Context {T K : Type} `{SM : !SortMethods T K} {Dm : Domain T} (valid : K -> Prop) `{HL : !SortMethodsLaws SM valid} `{HT : !TapeMethodsLaws SM}.
Context (junk : SortTuple T).
(** The array costs 24 bytes a slot and a constant overhead, as the comment in grow_memtuples says. *)
Context (overhead : Z) (Hspace : forall n, array_space n = (24 * Z.of_nat n + overhead)%Z).
Local Abbreviation state := (Tuplesortstate T K).
Local Abbreviation run := (list (SortTuple T)).
Implicit Types (s : state) (ins : run).
Context (k : K) (ra : bool) (bnd : option Z) (Hv : valid k) (HR : bnd <> None -> ReverseLaws SM valid).

(** ** The states of loading *)

Definition requested s : Prop := match bnd with Some b => bounded s = true /\ bound s = b /\ (0 < b)%Z | None => bounded s = false end.

Record initial s ins : Prop := {
  in_status : status s = TSS_INITIAL;
  in_keys : scanKeys s = k;
  in_access : randomAccess s = ra;
  in_request : requested s;
  in_count : memtupcount s = length ins;
  in_room : memtupcount s < memtupsize s;
  in_size : 1024 <= memtupsize s;
  in_int : (Z.of_nat (memtupsize s) * SIZEOF_SORTTUPLE < 2 ^ 31)%Z;   (* what qsort_arg needs *)
  in_tuples : norm <$> take (memtupcount s) (memtuples s) = norm <$> ins;
  in_bound : forall b, bnd = Some b -> (Z.of_nat (memtupcount s) <= 2 * b)%Z;
  in_dom : Forall in_domain ins }.

Record in_bounded s (D ins : run) : Prop := {
  ib_status : status s = TSS_BOUNDED;
  ib_access : randomAccess s = ra;
  ib_request : requested s;
  ib_bounded : bounded s = true;
  ib_count : Z.of_nat (memtupcount s) = bound s;
  ib_heap : bheap k s D ins;
  ib_dom : Forall in_domain ins }.

Definition loaded s ins : Prop := initial s ins \/ (exists D, in_bounded s D ins) \/ exists P, dumped P k ra ins false s.

(** ** More room *)

Definition grown (a : Z) (ext : run) s : state := set_availMem a (set_memtuples (memtuples s ++ ext) s).

(** grow_memtuples stays within MaxAllocSize. *)
Lemma grow_ok s : exists b a ext, grow_memtuples junk s = Ok (b, grown a ext s) /\ (ext = [] \/ Z.of_nat (memtupsize s + length ext) * SIZEOF_SORTTUPLE < 2 ^ 31)%Z.
Proof using Hspace.
  assert (Hsame : grown (availMem s) [] s = s) by (unfold grown; rewrite app_nil_r; by destruct s). unfold grow_memtuples. rewrite mget_ok. cbv zeta.
  destruct (Z.leb_spec (availMem s) (Z.of_nat (memtupsize s) * SIZEOF_SORTTUPLE)) as [|Hav]; [exists false, (availMem s), []; rewrite Hsame; auto|].
  destruct (Z.leb_spec (MaxAllocSize / SIZEOF_SORTTUPLE) (Z.of_nat (memtupsize s) * 2)) as [|Hmax]; [exists false, (availMem s), []; rewrite Hsame; auto|]. change (MaxAllocSize / SIZEOF_SORTTUPLE)%Z with 44739242%Z in Hmax. unfold SIZEOF_SORTTUPLE in *.
  set (s1 := USEMEM _ _). assert (Hl : LACKMEM s1 = false).
  { unfold LACKMEM, s1, USEMEM, FREEMEM, memtupsize in *. cbn. rewrite !Hspace, length_app, length_replicate. apply Z.ltb_ge. lia. }
  rewrite Hl. eexists true, _, _. rewrite mput_ok. unfold mret, M_ret, s1, grown, USEMEM, FREEMEM. flat_state. split; [reflexivity|right]. rewrite length_replicate. lia.
Qed.

Lemma grown_ok a ext s ins : (ext = [] \/ Z.of_nat (memtupsize s + length ext) * SIZEOF_SORTTUPLE < 2 ^ 31)%Z -> initial s ins -> initial (grown a ext s) ins.
Proof using.
  intros Hext [H1 H2 H3 H4 H5 H6 H7 Hint H8 H9 H10]. unfold memtupsize in *. split; unfold memtupsize; cbn [memtuples grown memtupcount set_availMem set_memtuples]; rewrite ?length_app; try done; [lia|lia|destruct Hext as [->|]; [rewrite Nat.add_0_r|]; done|]. by rewrite take_app_le by lia.
Qed.

Lemma room_ok s ins : initial s ins ->
  exists s', (if bool_decide (memtupsize s - 1 <= memtupcount s) then
     grow_memtuples junk;; s ← mget; Assert (bool_decide (memtupcount s < memtupsize s)) else mret tt) s = Ok (tt, s') /\ initial s' ins.
Proof using Hspace.
  intros HI. case_bool_decide; [|by exists s]. destruct (grow_ok s) as (b & a & ext & Hg & Hext). rewrite (mbind_ok _ _ _ _ _ Hg), mget_ok.
  pose proof (grown_ok a ext s ins Hext HI) as HI'. exists (grown a ext s). split; [|done]. unfold Assert. by rewrite bool_decide_true by (apply (in_room _ _ HI')).
Qed.

(** ** One tuple more *)

Definition stored_tuple (x : SortTuple T) s : state := set_memtupcount (S (memtupcount s)) (set_memtuples (<[memtupcount s := x]> (memtuples s)) s).

Lemma stored_tuples s ins x : initial s ins -> norm <$> take (S (memtupcount s)) (<[memtupcount s := x]> (memtuples s)) = norm <$> ins ++ [x].
Proof using.
  intros [_ _ _ _ _ Hr _ _ Ht _]. rewrite (take_S_r _ _ x) by (apply list_lookup_insert_eq; done). rewrite !fmap_app, take_insert_ge by lia. by rewrite Ht.
Qed.

(** The array is full or the memory is used up: the sort goes to tapes. *)
Lemma to_tapes_ok s ins : status s = TSS_INITIAL -> scanKeys s = k -> randomAccess s = ra -> 0 < memtupcount s -> memtupcount s <= memtupsize s -> 1024 <= memtupsize s ->
  norm <$> take (memtupcount s) (memtuples s) = norm <$> ins -> Forall in_domain ins -> exists s', (inittapes;; dumptuples false) s = Ok (tt, s') /\ loaded s' ins.
Proof using HL HT Hv HR.
  intros Hst Hk Hra Hn Hle Hsz Htup Hdm. destruct (inittapes_ok valid k s ins Hv Hk Hn Hle ltac:(lia)) as (P & s1 & rs & Hinit & HB & Hready); [by rewrite Htup|done|]. rewrite Hra in HB.
  rewrite (mbind_ok _ _ _ _ _ Hinit). destruct (dumptuples_ok valid P k ra ins Hv false s1 rs [] HB Hready) as (s2 & Hdump & Hd). exists s2. split; [done|]. right. right. by exists P.
Qed.

Lemma put_initial_ok s ins x : in_domain x -> initial s ins -> exists s', put_initial junk x s = Ok (tt, s') /\ loaded s' (ins ++ [x]).
Proof using HL HT Hv HR Hspace.
  intros Hdx HI0. unfold put_initial. rewrite mget_ok. destruct (room_ok s ins HI0) as (s1 & Hr & HI). rewrite (mbind_ok _ _ _ _ _ Hr), mget_ok. clear s HI0 Hr.
  pose proof (stored_tuples s1 ins x HI) as Htup. destruct HI as [H1 H2 H3 H4 H5 H6 H7 Hint H8 H9 H10]. unfold memtupsize in H6, H7, Hint. assert (Hdm : Forall in_domain (ins ++ [x])) by (apply Forall_app; by repeat constructor). rewrite upd_idx_ok by lia. cbv zeta. rewrite mput_ok.
  change (set_memtupcount (S (memtupcount s1)) _) with (stored_tuple x s1). set (s2 := stored_tuple x s1). assert (Hl : memtupsize s2 = length (memtuples s1)) by apply length_insert.
  change (bounded s2) with (bounded s1). change (bound s2) with (bound s1). change (memtupcount s2) with (S (memtupcount s1)). destruct (bounded s1 && _) eqn:E.
  - apply andb_true_iff in E as [Eb E]. unfold requested in H4. destruct bnd as [b|] eqn:Eb'; [|congruence]. destruct H4 as (_ & Hb & Hpos). rewrite Hb in E.
    assert (b < Z.of_nat (S (memtupcount s1)))%Z by (apply orb_true_iff in E as [E|E]; [apply Z.ltb_lt in E; lia|apply andb_true_iff in E as [E _]; apply Z.ltb_lt in E; lia]).
    pose proof (HR ltac:(done)) as HR'. destruct (make_bounded_heap_ok valid k s2 (ins ++ [x])) as (s3 & D & He3 & HB & S1 & S2 & S3 & S4 & S5 & S6 & S7); try done; [cbn; rewrite Hb; lia|rewrite Hl; cbn; lia|].
    exists s3. split; [done|]. right. left. exists D. split; [done|rewrite S6; done| |done|done|done|done]. unfold requested. rewrite Eb', S3. done.
  - destruct (bool_decide (S (memtupcount s1) < memtupsize s2) && negb (LACKMEM s2)) eqn:Eroom.
    + apply andb_true_iff in Eroom as [Eroom _]. apply bool_decide_eq_true in Eroom. exists s2. split; [done|]. left.
      split; try done; [cbn; rewrite length_app, H5; cbn; lia|lia|by rewrite Hl|]. intros b Hb. cbn. unfold requested in H4. rewrite Hb in H4. destruct H4 as (Ebd & Eb & Hpos). rewrite Ebd, Eb in E.
      apply orb_false_iff in E as [E _]. apply Z.ltb_ge in E. lia.
    + apply to_tapes_ok; try done; [cbn; lia|rewrite Hl; cbn; lia|lia].
Qed.

Lemma puttuple_ok s ins x : in_domain x -> loaded s ins -> exists s', puttuple junk x s = Ok (tt, s') /\ loaded s' (ins ++ [x]).
Proof using HL HT Hv HR Hspace.
  intros Hdx. unfold puttuple. rewrite mmod_ok. unfold puttuple_common. rewrite mget_ok. set (s0 := USEMEM _ s). change (status s0) with (status s). intros [HI|[[D HI]|[P (rs & cur & HB & Hready & Hroom)]]].
  - rewrite (in_status _ _ HI). apply put_initial_ok; [done|]. destruct HI. by split.
  - pose proof HI as [I1 Ia I2 I3 I4 I5 I6]. rewrite I1. assert (HR' : ReverseLaws SM valid) by (apply HR; intros E; unfold requested in I2; rewrite E in I2; congruence).
    destruct (put_bounded_ok valid k s0 D ins x) as (mt & a & D' & Hp & Hl & HB); [done|done|by destruct I5|done| |].
    + unfold requested in I2. destruct bnd; [|congruence]. destruct I2 as (_ & E & ?). cbn. lia.
    + eexists. split; [exact Hp|]. right. left. exists D'. split; try done. apply Forall_app. by repeat constructor.
  - rewrite (b_status _ _ _ _ _ _ _ _ HB). destruct (put_buildruns_ok valid P k ra s0 rs cur ins x Hv) as (s' & Hp & Hd); [|done|done|done|].
    + destruct HB as [[] ? ? ? ? ? ? ? ? ? ? ? ? ?]. by split.
    + exists s'. split; [done|]. right. right. by exists P.
Qed.

Lemma put_all_ok ts : Forall in_domain ts -> forall s ins, loaded s ins -> exists s', put_all junk ts s = Ok (tt, s') /\ loaded s' (ins ++ ts).
Proof using HL HT Hv HR Hspace.
  induction 1 as [|x ts Hx _ IH]; intros s ins H; cbn [put_all]; [exists s; by rewrite app_nil_r|].
  destruct (puttuple_ok s ins x Hx H) as (s1 & H1 & L1). rewrite (mbind_ok _ _ _ _ _ H1). destruct (IH s1 _ L1) as (s2 & H2 & L2). exists s2. by rewrite <- app_assoc in L2.
Qed.

(** The keys the sort compares with; a bounded heap has them reversed. *)
Lemma loaded_keys s ins : loaded s ins -> scanKeys s = k \/ scanKeys s = reversedirection k.
Proof using.
  intros [HI|[[D HI]|[P (rs & cur & HB & _)]]]; [left; by destruct HI|right; apply (ib_heap _ _ _ HI)|left; apply (b_env _ _ _ _ _ _ _ _ HB)].
Qed.

(** ** Sorting *)

(** What comes out: [out] in order; [D] was discarded, and only when the bound was reached. *)
Record sorted_output (slave : bool) s (out D ins : run) : Prop := {
  so_reads : exists s', reads slave out s s' /\ (slave = true \/ (forall b, bnd = Some b -> (Z.of_nat (length out) < b)%Z) -> ends slave s');
  so_sorted : sorted (comparetup k) out;
  so_keeps : keeps k out D ins;
  so_bound : D = [] \/ exists b, bnd = Some b /\ Z.of_nat (length out) = b }.

(** The sort is over, in memory or on tapes; nothing was read yet. *)
Record sorted_memory s (out D ins : run) : Prop := {
  sm_status : status s = TSS_SORTEDINMEM;
  sm_access : randomAccess s = ra;
  sm_request : requested s;
  sm_out : take (memtupcount s) (memtuples s) = out /\ length out = memtupcount s;
  sm_start : current s = 0 /\ eof_reached s = false /\ markpos_offset s = 0 /\ markpos_eof s = false;
  sm_sorted : sorted (comparetup k) out;
  sm_keeps : keeps k out D ins;
  sm_bound : D = [] \/ exists b, bnd = Some b /\ Z.of_nat (length out) = b }.
Definition sorted_tapes s ins : Prop := exists P, result P k ra s (norm <$> ins) /\ eof_reached s = false /\ markpos_block s = 0 /\ markpos_offset s = 0 /\ markpos_eof s = false.

Lemma keeps_all out ins : norm <$> out ≡ₚ norm <$> ins -> keeps k out [] ins.
Proof using. intros Hp. split; [by rewrite app_nil_r|]. intros x y _ Hy. by apply elem_of_nil in Hy. Qed.

Lemma result_start P s all : result P k ra s all -> result P k ra (set_eof_reached false (set_markpos_block 0 (set_markpos_offset 0 (set_markpos_eof false s)))) all.
Proof using.
  intros [(E1 & E2 & (parts & per & dest & bs & cs & E3 & [[] ? ? ? ? ? ? ? ? ? ? ? ?] & E5 & E6))|(E1 & out & ([] & E3 & ts & q & t & (lts & E4 & E5) & E6) & E7)].
  - left. split_and!; [done|done|]. exists parts, per, dest, bs, cs. split_and!; [done|by split|by apply (tapes_ok_same P k ra dest s)|apply E6..].
  - right. split; [done|]. exists out. split; [|done]. split_and!; [by split|done|]. exists ts, q, t. split; [by exists lts|done].
Qed.

Lemma performsort_state s ins : loaded s ins -> Forall (good k) ins ->
  exists s', tuplesort_performsort s = Ok (tt, s') /\ ((exists out D, sorted_memory s' out D ins) \/ sorted_tapes s' ins).
Proof using HL HT Hv HR.
  intros HLd Hgood. pose proof (sm_cmp _ Hv) as HC. unfold tuplesort_performsort. rewrite mget_ok. destruct HLd as [HI|[[D HI]|[P (rs & cur & HB & Hready & _)]]].
  - pose proof HI as [H1 H2 H3 H4 H5 H6 H7 Hint H8 H9 H10]. rewrite H1, H2. unfold memtupsize in *.
    destruct (qsort_arg_sorts_on (comparetup k) (comparetup_result k) in_domain SIZEOF_SORTTUPLE (take (memtupcount s) (memtuples s))) as (l & Hq & Hp & Hs);
      [exact (fun a b => comparetup_ok valid k a b Hv)|done|rewrite length_take; unfold SIZEOF_SORTTUPLE in *; lia| |].
    { apply (Forall_in_domain_norm valid _ ins); [by rewrite H8|done]. }
    assert (Hlen : length l = memtupcount s) by (rewrite Hp, length_take; lia). case_decide as Hd.
    + unfold lift_res. unfold mbind at 2, M_bind at 1. rewrite Hq. eexists. split; [reflexivity|]. left. exists l, []. split; cbn; try done; [split; [by apply take_app_length'|done]| |by left]. apply keeps_all. by rewrite Hp, H8.
    + rewrite mret_ok. eexists. split; [reflexivity|]. left. exists (take (memtupcount s) (memtuples s)), []. split; cbn; try done; [split; [done|rewrite length_take; lia]| | |by left].
      * apply short_sorted. rewrite length_take. lia.
      * apply keeps_all. by rewrite H8.
  - pose proof HI as [H1 Ha H2 H3 H4 H5 H6]. rewrite H1. assert (HR' : ReverseLaws SM valid) by (apply HR; intros E; unfold requested in H2; rewrite E in H2; congruence).
    destruct (sort_bounded_heap_ok valid k s D ins Hv H5 H1 H3 H4) as (mt & He & Hl & Hs & Hk).
    rewrite (mbind_ok _ _ _ _ _ He). destruct H5 as [_ (_ & Hle & _) _ _ _]. unfold memtupsize in *. eexists. split; [reflexivity|]. left. exists (take (memtupcount s) mt), D.
    split; cbn; try done; [split; [done|rewrite length_take; lia]|]. right. unfold requested in H2. destruct bnd as [b|]; [|congruence]. exists b. split; [done|].
    rewrite length_take. destruct H2 as (_ & <- & _). rewrite <- H4. f_equal. lia.
  - rewrite (b_status _ _ _ _ _ _ _ _ HB). destruct (dumptuples_ok valid P k ra ins Hv true s rs cur HB Hready) as (s1 & Hdump & rs1 & r & HB1 & Hn1 & Hr & Hne). rewrite (mbind_ok _ _ _ _ _ Hdump).
    destruct (mergeruns_ok valid P k ra Hv s1 rs1 r ins HB1 Hgood Hn1 Hr Hne) as (s2 & Hmerge & Hres). rewrite (mbind_ok _ _ _ _ _ Hmerge).
    eexists. split; [reflexivity|]. right. exists P. split; [by apply result_start|done].
Qed.

(** Both can be read from the start. *)
Lemma sorted_memory_output slave s out D ins : sorted_memory s out D ins -> sorted_output slave s out D ins.
Proof using.
  clear HR. intros [M1 M2 M3 [M4 M5] (M6 & _) M7 M8 M9]. split; [|done..]. assert (Hm : memtupcount s <= memtupsize s) by (unfold memtupsize; rewrite <- M4, length_take in M5; lia).
  exists (set_current (memtupcount s) s). split.
  - rewrite <- M4. change (take (memtupcount s) (memtuples s)) with (drop 0 (in_heap s)). rewrite <- M6. apply reads_in_memory; [done|done|lia].
  - intros H. apply ends_in_memory; [done|cbn; lia|]. unfold requested in M3. destruct H as [->|E]; [by left|right]. cbn. destruct bnd as [b|]; [|by left]. right. destruct M3 as (_ & -> & _). rewrite <- M5. by apply E.
Qed.
Lemma sorted_tapes_output slave s ins : sorted_tapes s ins -> exists out, sorted_output slave s out [] ins.
Proof using HL HT Hv.
  intros (P & Hres & Heof & _). pose proof (sm_cmp _ Hv) as HC. destruct (yields_result valid P k ra Hv slave s _ Heof Hres) as (out & (s1 & Hreads & Hends) & Hp & Hs). exists out.
  split; [|done|by apply keeps_all|by left]. exists s1. split; [done|]. by intros _.
Qed.

Lemma performsort_ok slave s ins : loaded s ins -> Forall (good k) ins -> exists s' out D, tuplesort_performsort s = Ok (tt, s') /\ sorted_output slave s' out D ins.
Proof using HL HT Hv HR.
  intros HLd Hgood. destruct (performsort_state s ins HLd Hgood) as (s' & Hrun & [(out & D & HM)|HTp]).
  - exists s', out, D. split; [done|]. by apply sorted_memory_output.
  - destruct (sorted_tapes_output slave s' ins HTp) as (out & Ho). by exists s', out, [].
Qed.

(** ** The beginning *)

Lemma begin_ok workMem : (array_space 1024 <= workMem * 1024)%Z -> (forall b, bnd = Some b -> (1 <= b <= INT_MAX / 2)%Z) ->
  exists s s', tuplesort_begin_common junk workMem ra k = Ok s /\ (match bnd with Some b => tuplesort_set_bound b | None => mret tt end) s = Ok (tt, s') /\ initial s' [].
Proof using.
  clear HR. intros Hmem Hb. unfold tuplesort_begin_common. replace (_ <? 0)%Z with false by (symmetry; apply Z.ltb_ge; lia). eexists.
  assert (Hinit : forall s', status s' = TSS_INITIAL -> scanKeys s' = k -> randomAccess s' = ra -> requested s' -> memtupcount s' = 0 -> memtuples s' = replicate 1024 junk -> initial s' []).
  { intros s' E1 E2 E3 E4 E5 E6. split; unfold memtupsize; rewrite ?E5, ?E6, ?length_replicate; try done; [lia|]. intros b E. destruct (Hb b E). lia. }
  unfold requested in Hinit. destruct bnd as [b|].
  - destruct (Hb b eq_refl) as [Hb1 Hb2]. unfold tuplesort_set_bound, mbind, M_bind, mget, Assert, mput. cbn -[replicate].
    replace (INT_MAX / 2 <? b)%Z with false by (symmetry; apply Z.ltb_ge; lia). eexists. split; [reflexivity|]. split; [reflexivity|].
    apply Hinit; try done. assert (Hw : wrap32 b = b) by (apply wrap32_id; change (INT_MAX / 2)%Z with 1073741823%Z in Hb2; unfold int32_range, INT_MIN, INT_MAX; lia).
    cbn -[replicate]. rewrite Hw. split_and!; [done|done|lia].
  - eexists. split; [reflexivity|]. split; [reflexivity|]. by apply Hinit.
Qed.

Lemma sort_run_ok workMem ts slave calls :
  (array_space 1024 <= workMem * 1024)%Z -> (forall b, bnd = Some b -> (1 <= b <= INT_MAX / 2)%Z) -> Forall (good k) ts ->
  exists s out D, sort_run junk workMem ra k bnd ts slave calls = match get_all slave calls s with Ok (o, _) => Ok o | Err e => Err e end /\ sorted_output slave s out D ts.
Proof using HL HT Hv HR Hspace.
  intros Hmem Hb Hgood. destruct (begin_ok workMem Hmem Hb) as (s & s1 & Hbeg & Hset & HI). destruct (put_all_ok ts ltac:(eapply Forall_impl; [exact Hgood|]; by intros ? (_ & _ & ?)) s1 [] (or_introl HI)) as (s2 & Hput & HLd).
  destruct (performsort_ok slave s2 ts HLd Hgood) as (s3 & out & D & Hsort & Hout). exists s3, out, D. split; [|done].
  unfold sort_run. by rewrite Hbeg, (mbind_ok _ _ _ _ _ Hset), (mbind_ok _ _ _ _ _ Hput), (mbind_ok _ _ _ _ _ Hsort).
Qed.
End SortRun.

(** A sort without a bound, read to its end. *)
Lemma sort_run_all {T K} `{SM : !SortMethods T K} {Dm : Domain T} (valid : K -> Prop) `{HL : !SortMethodsLaws SM valid} `{HT : !TapeMethodsLaws SM}
    junk overhead workMem ra k ts slave :
  (forall n, array_space n = (24 * Z.of_nat n + overhead)%Z) -> valid k -> (array_space 1024 <= workMem * 1024)%Z -> Forall (good k) ts ->
  exists out, sort_run junk workMem ra k None ts slave (S (length ts)) = Ok out /\ norm <$> out ≡ₚ norm <$> ts /\ sorted (comparetup k) out.
Proof.
  intros Hspace Hv Hm Hg.
  destruct (sort_run_ok valid junk overhead Hspace k ra None Hv ltac:(done) workMem ts slave (S (length ts)) Hm) as (s & out & D & -> & [(s' & Hreads & Hends) Hs [Hp _] Hd]); [done|done|].
  assert (D = []) as -> by (by destruct Hd as [|(b & ? & _)]). rewrite app_nil_r in Hp. exists out.
  assert (Hl : length out = length ts) by (apply Permutation_length in Hp; by rewrite !length_fmap in Hp).
  destruct (reads_get_all slave out (S (length ts)) s s' Hreads) as (s'' & ->); [right; apply Hends; right; by intros b|]. by rewrite take_ge by lia.
Qed.

(** ** Sorts of heap tuples *)

Section heap.
Context (heap_getattr : MinimalTuple -> Z -> Datum * bool) (chunk_space : MinimalTuple -> Z) (overhead : Z) (junk : SortTuple MinimalTuple).
Local Instance SM : SortMethods MinimalTuple (list ScanKeyData) := heap_methods heap_getattr chunk_space (fun n => (24 * Z.of_nat n + overhead)%Z).

(** The length of a row fits its length word; any tuple PostgreSQL can hold in memory does. *)
Definition row_fits (row : MinimalTuple) : Prop := (Z.of_nat (length row) < 2 ^ 32 - 4)%Z.
(** The room tuplesort_begin_common needs for the first array. *)
Definition memory_ok (workMem : Z) : Prop := (24 * 1024 + overhead <= workMem * 1024)%Z.
(** The tuple copytup_heap makes of a row. *)
Definition heap_tuple (keys : list ScanKeyData) (row : MinimalTuple) : SortTuple MinimalTuple := computeDatum1 heap_getattr keys row 0.

Lemma computeDatum1_tuple keys row i : tuple (computeDatum1 heap_getattr keys row i) = row.
Proof. destruct keys as [|key keys]; [done|]. unfold computeDatum1. by destruct (heap_getattr row (sk_attno key)). Qed.
Lemma computeDatum1_norm keys row i : norm (computeDatum1 heap_getattr keys row i) = computeDatum1 heap_getattr keys row 0.
Proof. destruct keys as [|key keys]; [done|]. unfold computeDatum1. by destruct (heap_getattr row (sk_attno key)). Qed.

Lemma good_row keys row i : row_fits row -> good keys (computeDatum1 heap_getattr keys row i).
Proof. intros H. split; cbn; rewrite computeDatum1_tuple; [done|]. by rewrite !computeDatum1_norm. Qed.
Lemma good_rows keys rows : Forall row_fits rows -> Forall (good keys) (heap_tuple keys <$> rows).
Proof. intros H. apply Forall_fmap. eapply Forall_impl; [exact H|]. intros row. apply good_row. Qed.

Lemma norm_rows keys rows (l : list (SortTuple MinimalTuple)) : norm <$> l ≡ₚ norm <$> (heap_tuple keys <$> rows) -> (fun t => tuple t) <$> l ≡ₚ rows.
Proof.
  intros Hp. apply (fmap_Permutation (fun t => tuple t)) in Hp. rewrite <- !list_fmap_compose in Hp.
  assert (E : (fun t => tuple t) ∘ norm <$> l = (fun t => tuple t) <$> l) by (apply list_fmap_ext; by intros i [] _). rewrite E in Hp. rewrite Hp. apply Permutation_refl'.
  rewrite <- (list_fmap_id rows) at 2. apply list_fmap_ext. intros i row _. cbn. apply computeDatum1_tuple.
Qed.

(** ** Rows in order *)

(** The order of the sort on rows. *)
Definition row_cmp (keys : list ScanKeyData) (a b : MinimalTuple) : Z :=
  comparetup_heap heap_getattr keys (heap_tuple keys a) (heap_tuple keys b).

Lemma row_cmp_laws keys : sort_functions keys -> CmpLaws (row_cmp keys).
Proof. intros Hk. apply (proj_laws (heap_tuple keys)). exact (sm_cmp (SM := SM) keys Hk). Qed.

(** A tuple whose first key is cached as computeDatum1 does it. *)
Definition cached (keys : list ScanKeyData) (x : SortTuple MinimalTuple) : Prop := norm x = heap_tuple keys (tuple x).

Lemma cmp_cached keys x y : cached keys x -> cached keys y -> comparetup_heap heap_getattr keys x y = row_cmp keys (tuple x) (tuple y).
Proof. intros Hx Hy. unfold row_cmp. rewrite <- Hx, <- Hy. unfold norm. symmetry. exact (sm_tupindex (SM := SM) keys x y 0 0). Qed.
Lemma sorted_cached keys l : Forall (cached keys) l ->
  sorted (comparetup_heap heap_getattr keys) l -> sorted (row_cmp keys) ((fun t => tuple t) <$> l).
Proof.
  intros Hc Hs. induction Hs as [|x l Hs IH Hx]; [constructor|]. apply Forall_cons in Hc as [Hcx Hc].
  constructor; [by apply IH|]. apply Forall_fmap. apply Forall_forall. intros y Hy.
  rewrite Forall_forall in Hx, Hc. unfold compose, cmp_le. rewrite <- cmp_cached by eauto. by apply Hx.
Qed.

(** The first tuples of [rows] in order, and the discarded ones. *)
Definition keeps_rows (keys : list ScanKeyData) (out D rows : list MinimalTuple) : Prop :=
  out ++ D ≡ₚ rows /\ sorted (row_cmp keys) out /\ forall x y, x ∈ out -> y ∈ D -> (row_cmp keys x y <= 0)%Z.

Lemma tuple_norm (x : SortTuple MinimalTuple) : tuple (norm x) = tuple x.
Proof. by destruct x. Qed.
Lemma keeps_to_rows keys i out D rows :
  keeps (SM := SM) keys out D ((fun t => computeDatum1 heap_getattr keys t i) <$> rows) -> sorted (comparetup_heap heap_getattr keys) out ->
  keeps_rows keys ((fun t => tuple t) <$> out) ((fun t => tuple t) <$> D) rows.
Proof.
  intros [Hp Ho] Hs.
  assert (Hc : Forall (cached keys) (out ++ D)).
  { apply Forall_forall. intros x Hx. assert (Hn : norm x ∈ norm <$> ((fun t => computeDatum1 heap_getattr keys t i) <$> rows)).
    { rewrite <- Hp, <- fmap_app. by apply list_elem_of_fmap_2. }
    apply list_elem_of_fmap in Hn as (y & Hy & (t & -> & _)%list_elem_of_fmap). unfold cached. by rewrite <- (tuple_norm x), Hy, tuple_norm, computeDatum1_tuple, computeDatum1_norm. }
  apply Forall_app in Hc as [HcO HcD]. split_and!.
  - apply (fmap_Permutation (fun t => tuple t)) in Hp. rewrite fmap_app, <- !list_fmap_compose in Hp. unfold compose in Hp.
    assert (He : forall l : list (SortTuple MinimalTuple), (fun x => tuple (norm x)) <$> l = (fun t => tuple t) <$> l).
    { intros l. apply list_fmap_ext. intros j x _. apply tuple_norm. }
    rewrite !He in Hp. rewrite Hp. apply Permutation_refl'. rewrite <- (list_fmap_id rows) at 2. apply list_fmap_ext.
    intros j x _. rewrite tuple_norm. apply computeDatum1_tuple.
  - by apply sorted_cached.
  - intros x y (x' & -> & Hx)%list_elem_of_fmap (y' & -> & Hy)%list_elem_of_fmap. rewrite Forall_forall in HcO, HcD.
    rewrite <- cmp_cached by eauto. by apply Ho.
Qed.
End heap.

(** C2: Sorting, with any amount of memory.  For any list of scan keys, any rows and any work_mem that has room for the first array
    of tuples, the sort of heap tuples returns: begin, put all rows, performsort and reading to the end yields
    the rows in order, none lost and none twice, without any error.  The sort may stay in memory with the quicksort, or write runs by
    replacement selection to tapes and merge them, in polyphase passes and, without random access, a last merge while reading. *)
Theorem tuplesort_sorts heap_getattr chunk_space overhead junk workMem ra keys rows slave :
  let SM := heap_methods heap_getattr chunk_space (fun n => (24 * Z.of_nat n + overhead)%Z) in
  sort_functions keys -> memory_ok overhead workMem -> Forall row_fits rows ->
  exists out, sort_run (SM := SM) junk workMem ra keys None (heap_tuple heap_getattr keys <$> rows) slave (S (length rows)) = Ok out /\
    (fun t => tuple t) <$> out ≡ₚ rows /\ sorted (comparetup_heap heap_getattr keys) out.
Proof.
  intros M Hk Hm Hr. pose proof (good_rows heap_getattr chunk_space overhead keys rows Hr) as Hg.
  destruct (sort_run_all (SM := M) sort_functions junk overhead workMem ra keys (heap_tuple heap_getattr keys <$> rows) slave) as (out & He & Hp & Hs); [done..|].
  rewrite length_fmap in He. exists out. split_and!; [done|by apply (norm_rows heap_getattr keys)|done].
Qed.

(** C11: Bounded sorts (LIMIT), with any amount of memory.  With a bound [b], as many fetches as there are rows up to [b] return
    the [b] smallest rows in order, whether the sort stayed with the quicksort, went over to the bounded heap, which throws tuples
    away, or went to tapes before the bound was reached: no row left out is smaller than one returned. *)
Theorem tuplesort_bounded_smallest heap_getattr chunk_space overhead junk workMem ra keys b rows :
  let SM := heap_methods heap_getattr chunk_space (fun n => (24 * Z.of_nat n + overhead)%Z) in
  sort_functions keys -> memory_ok overhead workMem -> Forall row_fits rows -> (1 <= b <= INT_MAX / 2)%Z ->
  exists out rest, sort_run (SM := SM) junk workMem ra keys (Some b) (heap_tuple heap_getattr keys <$> rows) false (Nat.min (Z.to_nat b) (length rows)) = Ok out /\
    length out = Nat.min (Z.to_nat b) (length rows) /\ sorted (comparetup_heap heap_getattr keys) out /\
    (fun t => tuple t) <$> out ++ rest ≡ₚ rows /\ (forall x y, x ∈ out -> y ∈ rest -> (comparetup_heap heap_getattr keys x y <= 0)%Z).
Proof.
  intros M Hk Hm Hr Hb. set (m := Nat.min (Z.to_nat b) (length rows)). pose proof (sm_cmp (SM := M) keys Hk) as HC.
  destruct (sort_run_ok (SM := M) sort_functions junk overhead (fun _ => eq_refl) keys ra (Some b) Hk (fun _ => _) workMem (heap_tuple heap_getattr keys <$> rows) false m Hm)
    as (s & out & D & -> & [(s' & Hreads & _) Hs [Hp Hk'] Hd]); [by intros ? [= <-]|by apply good_rows|].
  assert (Hl : length out + length D = length rows) by (apply Permutation_length in Hp; by rewrite length_app, !length_fmap in Hp).
  assert (Hle : m <= length out) by (unfold m; destruct Hd as [->|(b' & [= <-] & ?)]; [cbn in Hl|]; lia).
  destruct (reads_get_all (SM := M) false out m s s' Hreads) as (s'' & ->); [by left|].
  exists (take m out), (drop m out ++ D). rewrite <- (take_drop m out) in Hs. destruct (sorted_app_inv (comparetup_heap heap_getattr keys) _ _ Hs) as (Q1 & Q2 & Q3).
  split_and!; [done|rewrite length_take; lia|done| |].
  - rewrite app_assoc, take_drop. apply (norm_rows heap_getattr keys). by rewrite fmap_app.
  - intros x y Hx [Hy|Hy]%elem_of_app; [by apply Q3|]. apply Hk'; [|done]. rewrite <- (take_drop m out). apply elem_of_app. by left.
Qed.

(** ** Witnesses *)

Definition demo_table : list MinimalTuple := [[1; 5]; [4; 9]; [3; 5]; [2; 7]; [9; 9]]%Z.
(** Tuples so large that a few of them fill the memory. *)
Definition demo_space (row : MinimalTuple) : Z := 400.

(** With 25 kB the sort goes to tapes. *)
Lemma tuplesort_sorts_witness :
  exists out, sort_run (SM := heap_methods demo_getattr demo_space (fun n => (24 * Z.of_nat n + 16)%Z)) demo_junk 25 false demo_keys None
      (heap_tuple demo_getattr demo_keys <$> demo_table) false 6 = Ok out /\ map (fun t => tuple t) out = [[4; 9]; [9; 9]; [2; 7]; [1; 5]; [3; 5]]%Z.
Proof.
  destruct (tuplesort_sorts demo_getattr demo_space 16 demo_junk 25 false demo_keys demo_table false)
    as (out & He & _ & Hs); [exact demo_keys_ok|vm_compute; discriminate|by repeat constructor|].
  exists out. split; [exact He|]. vm_compute in He. injection He as <-. reflexivity.
Defined.

Lemma tuplesort_bounded_smallest_witness :
  exists out, sort_run (SM := heap_methods demo_getattr (fun _ => 32%Z) (fun n => (24 * Z.of_nat n + 16)%Z)) demo_junk 200 false demo_keys (Some 2%Z)
      (heap_tuple demo_getattr demo_keys <$> demo_table) false 2 = Ok out /\ map (fun t => tuple t) out = [[4; 9]; [9; 9]]%Z.
Proof.
  destruct (tuplesort_bounded_smallest demo_getattr (fun _ => 32%Z) 16 demo_junk 200 false demo_keys 2 demo_table)
    as (out & rest & He & _); [exact demo_keys_ok|vm_compute; discriminate|by repeat constructor|vm_compute; split; discriminate|].
  exists out. split; [exact He|]. vm_compute in He. injection He as <-. reflexivity.
Defined.
