(* ===== verification/Cursor.v ===== *)
(** * Cursor: positions in the result of a sort

    tuplesort_gettuple_common in both directions, tuplesort_rescan, tuplesort_markpos and tuplesort_restorepos of tuplesort.c, on a
    result in memory and on a result on tape.  Both are refinements of one cursor over the sorted tuples. *)

From S2P Require Import Prelude Order Compare Heap Qsort Tape LogTape Tuplesort InMemory RunTapes Polyphase BuildRuns MergeRuns MergePasses External SortRun.
From Stdlib Require Import Permutation.
From stdpp Require Import sorting.

(** ** The cursor *)

Inductive scan_op := OpNext | OpPrior | OpRescan | OpMark | OpRestore.

(** How many tuples were read, whether the end was reached, and the same of the mark. *)
Record cursor := mkCursor { cu_pos : nat; cu_eof : bool; cu_mark : nat; cu_mark_eof : bool }.
Definition cursor_start : cursor := mkCursor 0 false 0 false.

(** Reading backward returns the tuple before the one read last; after the end, the last one. *)
Definition cursor_step {A} (out : list A) (op : scan_op) (c : cursor) : option A * cursor :=
  let '(mkCursor pos eof mark meof) := c in
  match op with
  | OpNext =>
    if eof then (None, c)
    else match out !! pos with Some x => (Some x, mkCursor (S pos) false mark meof) | None => (None, mkCursor pos true mark meof) end
  | OpPrior =>
    match pos with
    | O => (None, c)
    | S i => if eof then (out !! i, mkCursor pos false mark meof)
             else match i with O => (None, mkCursor 0 false mark meof) | S j => (out !! j, mkCursor i false mark meof) end
    end
  | OpRescan => (None, cursor_start)
  | OpMark => (None, mkCursor pos eof pos eof)
  | OpRestore => (None, mkCursor mark meof mark meof)
  end.
Fixpoint cursor_scan {A} (out : list A) (ops : list scan_op) (c : cursor) : list (option A) :=
  match ops with [] => [] | op :: ops => let '(r, c') := cursor_step out op c in r :: cursor_scan out ops c' end.

Definition cursor_ok (n : nat) (c : cursor) : Prop :=
  cu_pos c <= n /\ (cu_eof c = true -> cu_pos c = n) /\ cu_mark c <= n /\ (cu_mark_eof c = true -> cu_mark c = n).
Lemma cursor_step_ok {A} (out : list A) op c : cursor_ok (length out) c -> cursor_ok (length out) (cursor_step out op c).2.
Proof.
  destruct c as [pos eof mark meof]. intros (H1 & H2 & H3 & H4). cbn in *. destruct op; cbn; try (split_and!; cbn; done || lia).
  - destruct eof; [by split_and!|]. destruct (out !! pos) eqn:E; [apply lookup_lt_Some in E|apply lookup_ge_None in E]; split_and!; cbn; done || lia.
  - destruct pos as [|i]; [by split_and!|]. destruct eof; [split_and!; cbn; done || lia|]. destruct i; split_and!; cbn; done || lia.
Qed.
Lemma cursor_step_fmap {A B} (f : A -> B) (out : list A) op c :
  cursor_step (f <$> out) op c = let '(r, c') := cursor_step out op c in (option_map f r, c').
Proof.
  destruct c as [pos eof mark meof], op; cbn; try done.
  - destruct eof; [done|]. rewrite list_lookup_fmap. by destruct (out !! pos).
  - destruct pos as [|[|j]]; [done| |]; destruct eof; cbn; rewrite ?list_lookup_fmap; done.
Qed.
Lemma cursor_scan_fmap {A B} (f : A -> B) (out : list A) ops : forall c, cursor_scan (f <$> out) ops c = (option_map f) <$> cursor_scan out ops c.
Proof.
  induction ops as [|op ops IH]; intros c; [done|]. cbn [cursor_scan]. rewrite cursor_step_fmap. destruct (cursor_step out op c) as [r c']. rewrite fmap_cons. cbn. by rewrite IH.
Qed.

Section Cursor.
Context {T K : Type} `{SM : !SortMethods T K} {Dm : Domain T}.
Local Abbreviation state := (Tuplesortstate T K).
Local Abbreviation run := (list (SortTuple T)).
Implicit Types (s : state) (out : run) (c : cursor).

(** The calls of the sort. *)
Definition scan_step (slave : bool) (op : scan_op) : M state (option (SortTuple T)) :=
  match op with
  | OpNext => tuplesort_gettuple_common slave true
  | OpPrior => tuplesort_gettuple_common slave false
  | OpRescan => tuplesort_rescan;; mret None
  | OpMark => tuplesort_markpos;; mret None
  | OpRestore => tuplesort_restorepos;; mret None
  end.
Fixpoint scan (slave : bool) (ops : list scan_op) : M state (list (option (SortTuple T))) :=
  match ops with [] => mret [] | op :: ops => r ← scan_step slave op; rs ← scan slave ops; mret (r :: rs) end.

(** ** A result in memory *)

Record memory_at s out c : Prop := {
  ma_status : status s = TSS_SORTEDINMEM;
  ma_access : randomAccess s = true;
  ma_out : memtupcount s = length out /\ memtupcount s <= memtupsize s /\ in_heap s = out;
  ma_here : current s = cu_pos c /\ eof_reached s = cu_eof c;
  ma_mark : markpos_offset s = cu_mark c /\ markpos_eof s = cu_mark_eof c;
  ma_ok : cursor_ok (length out) c }.

Lemma memory_lookup s out c i : memory_at s out c -> i < length out -> memtuples s !! i = out !! i.
Proof. intros [_ _ (H1 & H2 & <-) _ _ _] Hi. unfold in_heap. by rewrite lookup_take_lt by lia. Qed.

(** Which fields a step of the cursor changes. *)
Definition moved_to (c : cursor) s : state :=
  set_current (cu_pos c) (set_eof_reached (cu_eof c) (set_markpos_offset (cu_mark c) (set_markpos_eof (cu_mark_eof c) s))).
Lemma moved_to_ok s out c c' : memory_at s out c -> cursor_ok (length out) c' -> memory_at (moved_to c' s) out c'.
Proof. intros [H1 H2 H3 _ _ _] Hc. by split. Qed.
Lemma moved_to_same s out c : memory_at s out c -> moved_to c s = s.
Proof. unfold moved_to. intros [_ _ _ [<- <-] [<- <-] _]. by destruct s. Qed.

(** Fetching after the end of a bounded sort is an error, except in a worker, when the bound was reached. *)
Definition may_end (slave : bool) s out : Prop := slave = true \/ bounded s = false \/ (Z.of_nat (length out) < bound s)%Z.

Lemma memory_step slave s out c op : memory_at s out c -> (op = OpNext -> cu_pos c = length out -> may_end slave s out) ->
  scan_step slave op s = Ok ((cursor_step out op c).1, moved_to (cursor_step out op c).2 s) /\ memory_at (moved_to (cursor_step out op c).2 s) out (cursor_step out op c).2.
Proof.
  intros H Hb. split; [|by eapply moved_to_ok; [exact H|apply cursor_step_ok, H]].
  pose proof (fun i => memory_lookup s out c i H) as Hlook. pose proof (moved_to_same s out c H) as Hsame.
  destruct H as [Hst Hra (Hn & _ & _) [Hc He] [Hm Hme] (K1 & K2 & K3 & K4)]. destruct c as [pos eof mark meof]. cbn [cu_pos cu_eof cu_mark cu_mark_eof] in *.
  destruct op; cbn [scan_step].
  - unfold tuplesort_gettuple_common. rewrite mget_ok, Hst. unfold get_inmem. rewrite mget_ok, Assert_ok by done. rewrite Hc. cbn [cursor_step]. destruct (decide (pos < length out)) as [Hlt|Hge].
    + destruct eof; [specialize (K2 eq_refl); lia|]. rewrite bool_decide_true by lia. destruct (lookup_lt_is_Some_2 out pos Hlt) as [x Hx]. rewrite Hx. rewrite (at_idx_ok _ _ x) by (by rewrite Hlook).
      rewrite mput_ok. unfold mret, M_ret. rewrite <- Hsame at 1. reflexivity.
    + rewrite bool_decide_false by lia. rewrite mput_ok. rewrite lookup_ge_None_2 by lia.
      replace (bounded s && _ && _) with false by (symmetry; destruct (Hb eq_refl ltac:(lia)) as [->|[->|E]]; [apply andb_false_r|done|rewrite (proj2 (Z.leb_gt _ _)) by lia; by rewrite andb_false_r]).
      unfold mret, M_ret. rewrite <- Hsame at 1. by destruct eof.
  - unfold tuplesort_gettuple_common. rewrite mget_ok, Hst. unfold get_inmem. rewrite mget_ok, Assert_ok by (by rewrite Hra). rewrite Hc, He. cbn [cursor_step]. destruct pos as [|i].
    + cbn [fst snd]. rewrite Hsame. done.
    + rewrite bool_decide_false by done. replace (S i - 1) with i by lia. destruct eof.
      * rewrite mput_ok. destruct (lookup_lt_is_Some_2 out i) as [x Hx]; [lia|]. rewrite Hx, (at_idx_ok _ _ x) by (by rewrite Hlook by lia). unfold mret, M_ret. rewrite <- Hsame at 1. reflexivity.
      * rewrite mput_ok. destruct i as [|j]; [rewrite bool_decide_true by done; unfold mret, M_ret; rewrite <- Hsame at 1; reflexivity|]. rewrite bool_decide_false by done. replace (S j - 1) with j by lia.
        destruct (lookup_lt_is_Some_2 out j) as [x Hx]; [lia|]. rewrite Hx, (at_idx_ok _ _ x) by (by rewrite Hlook by lia). unfold mret, M_ret. rewrite <- Hsame at 1. reflexivity.
  - unfold tuplesort_rescan. rewrite mbind_assoc, mget_ok, mbind_assoc, Assert_ok by done. rewrite Hst, mput_ok. unfold mret, M_ret. rewrite <- Hsame at 1. reflexivity.
  - unfold tuplesort_markpos. rewrite mbind_assoc, mget_ok, mbind_assoc, Assert_ok by done. rewrite Hst, mput_ok, Hc, He. unfold mret, M_ret. rewrite <- Hsame at 1. reflexivity.
  - unfold tuplesort_restorepos. rewrite mbind_assoc, mget_ok, mbind_assoc, Assert_ok by done. rewrite Hst, mput_ok, Hm, Hme. unfold mret, M_ret. rewrite <- Hsame at 1. reflexivity.
Qed.

(** ** A frozen tape *)

Definition tape_at (q : nat) (all : list byte) (p : nat) s : Prop := exists ts, on_tapes s ts /\ ts !! q = Some (mkTape all p false true).

Lemma read_at q all p s d left : tape_at q all p s -> drop p all = d ++ left ->
  exists s', tape_read q (length d) s = Ok (d, s') /\ touched s s' /\ tape_at q all (p + length d) s'.
Proof.
  intros (ts & (lts & Hs & Hr) & Hq) Hd. destruct (read_ok lts ts q _ Hr Hq (length d) d (mkTape all (p + length d) false true)) as (l & Hl & Hr').
  { unfold tape_next. cbn. by rewrite Hd, take_app_length. }
  exists (set_tapeset (Some l) s). split_and!; [|apply touched_tapeset|].
  - unfold tape_read, tapes, mbind, M_bind, mget, deref, lift_res, mmod. by rewrite Hs, Hl.
  - exists (<[q := mkTape all (p + length d) false true]> ts). split; [by exists l|]. apply list_lookup_insert_eq. by eapply lookup_lt_Some.
Qed.
Lemma back_at q all p s n : tape_at q all p s ->
  exists s', tape_backspace q n s = Ok (bool_decide (n <= p), s') /\ touched s s' /\ tape_at q all (if decide (n <= p) then p - n else p) s'.
Proof.
  intros (ts & (lts & Hs & Hr) & Hq). set (t' := mkTape all (if decide (n <= p) then p - n else p) false true).
  destruct (backspace_ok lts ts q _ Hr Hq n (bool_decide (n <= p)) t') as (l & Hl & Hr').
  { unfold tape_back, t'. cbn. case_decide; [by rewrite bool_decide_true|by rewrite bool_decide_false]. }
  exists (set_tapeset (Some l) s). split_and!; [|apply touched_tapeset|].
  - unfold tape_backspace, tapes, mbind, M_bind, mget, deref, lift_res, mmod. by rewrite Hs, Hl.
  - exists (<[q := t']> ts). split; [by exists l|]. apply list_lookup_insert_eq. by eapply lookup_lt_Some.
Qed.
Lemma back_at_ok q all p s n : tape_at q all p s -> n <= p -> exists s', tape_backspace q n s = Ok (true, s') /\ touched s s' /\ tape_at q all (p - n) s'.
Proof. intros H Hn. destruct (back_at q all p s n H) as (s' & Hb & Hto & Hat). rewrite decide_True in Hat by done. rewrite bool_decide_true in Hb by done. by exists s'. Qed.
Lemma back_at_no q all p s n : tape_at q all p s -> p < n -> exists s', tape_backspace q n s = Ok (false, s') /\ touched s s' /\ tape_at q all p s'.
Proof. intros H Hn. destruct (back_at q all p s n H) as (s' & Hb & Hto & Hat). rewrite decide_False in Hat by lia. rewrite bool_decide_false in Hb by lia. by exists s'. Qed.

(** *** Tuples *)

Definition word_of (x : SortTuple T) : Z := Z.of_nat (length (tuple_body x) + SIZEOF_UINT).

Lemma word_at q all p s x b left : tape_at q all p s -> good (scanKeys s) x -> drop p all = length_word x ++ left ->
  exists s', getlen q b s = Ok (word_of x, s') /\ touched s s' /\ tape_at q all (p + 4) s'.
Proof.
  intros H Hg Hd. destruct (read_at q all p s (length_word x) left H Hd) as (s' & Hrun & Hto & Hat). exists s'. split_and!; [|done|exact Hat].
  unfold getlen. change SIZEOF_UINT with (length (length_word x)) at 1. rewrite (mbind_ok _ _ _ _ _ Hrun), decide_True by done. rewrite (length_word_value _ _ Hg). cbv zeta. fold (word_of x).
  replace (word_of x =? 0)%Z with false by (symmetry; apply Z.eqb_neq; unfold word_of, SIZEOF_UINT; lia). done.
Qed.
Lemma mark_at q all p s left : tape_at q all p s -> drop p all = mark ++ left -> exists s', getlen q true s = Ok (0%Z, s') /\ touched s s' /\ tape_at q all (p + 4) s'.
Proof.
  intros H Hd. destruct (read_at q all p s mark left H Hd) as (s' & Hrun & Hto & Hat). exists s'. split_and!; [|done|exact Hat].
  unfold getlen. change SIZEOF_UINT with (length mark). rewrite (mbind_ok _ _ _ _ _ Hrun). by rewrite decide_True by done.
Qed.
Lemma body_at q all p s x left : tape_at q all p s -> good (scanKeys s) x -> randomAccess s = true -> drop p all = tuple_body x ++ length_word x ++ left ->
  exists y s', readtup q (word_of x) s = Ok (y, s') /\ norm y = norm x /\ touched s s' /\ tape_at q all (p + length (tuple_body x) + 4) s'.
Proof.
  intros H Hg Hra Hd. destruct (read_at q all p s (tuple_body x) (length_word x ++ left) H Hd) as (s1 & Hrun & Hto & Hat).
  assert (Hra1 : randomAccess s1 = true) by (by destruct Hto as (a & l & ->)). assert (Hk1 : scanKeys s1 = scanKeys s) by (by destruct Hto as (a & l & ->)).
  destruct (read_at q all _ s1 (length_word x) left Hat) as (s2 & Hrun2 & Hto2 & Hat2); [by rewrite <- drop_drop, Hd, drop_app_length|].
  exists (tuple_of_body (scanKeys s) (tuple_body x)), (USEMEM (GetMemoryChunkSpace (tuple (tuple_of_body (scanKeys s) (tuple_body x)))) s2).
  split_and!.
  - unfold readtup, word_of. replace (Z.to_nat _) with (length (tuple_body x)) by lia. rewrite (mbind_ok _ _ _ _ _ Hrun), decide_True by done. rewrite mget_ok, Hra1.
    rewrite mbind_assoc. change SIZEOF_UINT with (length (length_word x)) at 1. rewrite (mbind_ok _ _ _ _ _ Hrun2), decide_True by done. rewrite Hk1. reflexivity.
  - apply Hg.
  - eapply touched_trans; [exact Hto|]. eapply touched_trans; [exact Hto2|]. apply touched_avail. by destruct Hat2 as (ts & (l & -> & _) & _).
  - destruct Hat2 as (ts & (l & Hl & Hr) & Hq). exists ts. split; [by exists l|exact Hq].
Qed.

(** *** Where the tuples are *)

Definition byte_pos out (p : nat) (eof : bool) : nat := length (concat (enc_tuple true <$> take p out)) + if eof then 4 else 0.

Lemma bytes_around out i y : out !! i = Some y ->
  exists rest, enc_run true out = concat (enc_tuple true <$> take i out) ++ length_word y ++ tuple_body y ++ length_word y ++ rest /\
    byte_pos out (S i) false = byte_pos out i false + 4 + length (tuple_body y) + 4.
Proof.
  intros Hi. exists (enc_run true (drop (S i) out)). split.
  - rewrite <- (take_drop_middle _ _ _ Hi) at 1. unfold enc_run. rewrite fmap_app, fmap_cons, concat_app. cbn [concat]. unfold enc_tuple at 2. by rewrite <- !app_assoc.
  - unfold byte_pos. rewrite (take_S_r _ _ _ Hi), fmap_app, concat_app, length_app. cbn. rewrite app_nil_r, !length_app. cbn. lia.
Qed.
Lemma drop_at {A} (a b l : list A) n : l = a ++ b -> n = length a -> drop n l = b.
Proof. intros -> ->. apply drop_app_length. Qed.
(** The bytes before, inside and after a tuple. *)
Lemma drops_around out i y : out !! i = Some y -> exists rest,
  drop (byte_pos out i false) (enc_run true out) = length_word y ++ tuple_body y ++ length_word y ++ rest /\
  drop (byte_pos out i false + 4) (enc_run true out) = tuple_body y ++ length_word y ++ rest /\
  drop (byte_pos out i false + 4 + length (tuple_body y)) (enc_run true out) = length_word y ++ rest.
Proof.
  intros Hi. destruct (bytes_around out i y Hi) as (rest & E & _). exists rest. unfold byte_pos. rewrite Nat.add_0_r. split_and!.
  - by apply (drop_at _ _ _ _ E).
  - apply (drop_at (concat (enc_tuple true <$> take i out) ++ length_word y)); [by rewrite E, <- app_assoc|by rewrite length_app].
  - apply (drop_at (concat (enc_tuple true <$> take i out) ++ length_word y ++ tuple_body y)); [by rewrite E, <- !app_assoc|rewrite !length_app, length_word_length; unfold SIZEOF_UINT; lia].
Qed.
Lemma byte_pos_zero out : byte_pos out 0 false = 0.
Proof. done. Qed.
Lemma drop_end out : drop (byte_pos out (length out) false) (enc_run true out) = mark /\ length (enc_run true out) = byte_pos out (length out) true.
Proof.
  unfold byte_pos. rewrite take_ge by done. rewrite Nat.add_0_r. unfold enc_run. split; [apply drop_app_length|by rewrite length_app].
Qed.
Lemma byte_pos_le out p eof : p <= length out -> byte_pos out p eof <= length (enc_run true out).
Proof.
  intros Hp. destruct (drop_end out) as [_ ->]. unfold byte_pos. rewrite (take_ge _ (length out)) by done. rewrite <- (take_drop p out) at 2. rewrite fmap_app, concat_app, length_app. destruct eof; lia.
Qed.

(** ** A result on tape *)

Section ontape.
Context (k : K) (q : nat).

Record tape_scan s out c : Prop := {
  sc_status : status s = TSS_SORTEDONTAPE;
  sc_keys : scanKeys s = k;
  sc_access : randomAccess s = true;
  sc_result : result_tape s = Z.of_nat q;
  sc_clean : Forall (clean k) out;
  sc_eof : eof_reached s = cu_eof c;
  sc_mark : position (length (enc_run true out)) (markpos_block s) (markpos_offset s) /\
    markpos_block s * BLCKSZ + markpos_offset s = byte_pos out (cu_mark c) (cu_mark_eof c) /\ markpos_eof s = cu_mark_eof c;
  sc_ok : cursor_ok (length out) c }.
Definition ontape_at s out c : Prop := tape_scan s out c /\ tape_at q (enc_run true out) (byte_pos out (cu_pos c) (cu_eof c)) s.

Lemma tape_scan_touched s s' out c : touched s s' -> tape_scan s out c -> tape_scan s' out c.
Proof. intros (a & l & ->) []. by split. Qed.
Lemma tape_scan_here s out pos eof pos' mark meof : tape_scan s out (mkCursor pos eof mark meof) -> cursor_ok (length out) (mkCursor pos' eof mark meof) ->
  tape_scan s out (mkCursor pos' eof mark meof).
Proof. intros [] H. by split. Qed.

(** The tuple that ends at the length word ahead. *)
Lemma read_before s out c i y : tape_scan s out c -> out !! i = Some y -> tape_at q (enc_run true out) (byte_pos out (S i) false - 4) s ->
  exists y' s', (tuplen ← getlen q false; ok ← tape_backspace q (Z.to_nat tuplen); if ok : bool then t ← readtup q tuplen; mret (Some t) else elog "bogus tuple length in backward scan") s = Ok (Some y', s') /\
    norm y' = y /\ touched s s' /\ tape_at q (enc_run true out) (byte_pos out (S i) false) s'.
Proof.
  intros [_ Hk Hra _ Hcl _ _ _] Hi Hat. destruct (bytes_around out i y Hi) as (_ & _ & Hpos). destruct (drops_around out i y Hi) as (rest & D1 & D2 & D3).
  rewrite Forall_lookup in Hcl. destruct (Hcl i y Hi) as [Hg Hn]. rewrite <- Hk in Hg. replace (byte_pos out (S i) false - 4) with (byte_pos out i false + 4 + length (tuple_body y)) in Hat by lia.
  destruct (word_at q _ _ s y false rest Hat Hg D3) as (s1 & Hrun1 & Hto1 & Hat1). rewrite (mbind_ok _ _ _ _ _ Hrun1).
  destruct (back_at_ok q _ _ s1 (Z.to_nat (word_of y)) Hat1) as (s2 & Hrun2 & Hto2 & Hat2); [unfold word_of, SIZEOF_UINT; lia|]. rewrite (mbind_ok _ _ _ _ _ Hrun2).
  pose proof (touched_trans _ _ _ Hto1 Hto2) as Hto.
  destruct (body_at q (enc_run true out) (byte_pos out i false + 4) s2 y rest) as (y' & s3 & Hrun3 & Hy & Hto3 & Hat3); [|by destruct Hto as (a & l & ->)..|exact D2|].
  - replace (byte_pos out i false + 4) with (byte_pos out i false + 4 + length (tuple_body y) + 4 - Z.to_nat (word_of y)) by (unfold word_of, SIZEOF_UINT; lia). exact Hat2.
  - rewrite (mbind_ok _ _ _ _ _ Hrun3). exists y', s3. split_and!; [done|congruence|by eapply touched_trans|]. rewrite Hpos. exact Hat3.
Qed.

Lemma ontape_next slave s out pos eof mark meof : let c := mkCursor pos eof mark meof in ontape_at s out c ->
  exists r s', tuplesort_gettuple_common slave true s = Ok (r, s') /\ option_map norm r = (cursor_step out OpNext c).1 /\ ontape_at s' out (cursor_step out OpNext c).2.
Proof.
  intros c [H Hat]. pose proof (cursor_step_ok out OpNext c (sc_ok _ _ _ H)) as Hok. pose proof H as [Hst Hk Hra Hq Hcl He Hm (K1 & K2 & K3 & K4)]. cbn in He, K1, K2, K3, K4. change (tape_at q (enc_run true out) (byte_pos out pos eof) s) in Hat.
  unfold tuplesort_gettuple_common. rewrite mget_ok, Hst. unfold get_ontape. rewrite mget_ok, Assert_ok by done. rewrite He, Hq, Nat2Z.id. cbv zeta. destruct eof.
  { exists None, s. split_and!; [done|done|]. by split. }
  cbn [cursor_step c] in Hok |- *. destruct (out !! pos) as [x|] eqn:Ex.
  - destruct (drops_around out pos x Ex) as (rest & D1 & D2 & _). destruct (bytes_around out pos x Ex) as (_ & _ & Hpos). rewrite Forall_lookup in Hcl. destruct (Hcl pos x Ex) as [Hg Hn]. rewrite <- Hk in Hg.
    destruct (word_at q _ _ s x true _ Hat Hg D1) as (s1 & Hrun1 & Hto1 & Hat1). rewrite (mbind_ok _ _ _ _ _ Hrun1).
    replace (negb (word_of x =? 0)%Z) with true by (symmetry; apply negb_true_iff, Z.eqb_neq; unfold word_of, SIZEOF_UINT; lia).
    destruct (body_at q _ _ s1 x rest Hat1) as (y & s2 & Hrun2 & Hy & Hto2 & Hat2); [by destruct Hto1 as (a & l & ->)..|exact D2|]. rewrite (mbind_ok _ _ _ _ _ Hrun2).
    pose proof (touched_trans _ _ _ Hto1 Hto2) as Hto. exists (Some y), s2. split_and!; [done|cbn; congruence|]. split.
    + apply (tape_scan_touched s); [done|]. by apply (tape_scan_here s out pos).
    + cbn [cu_pos cu_eof snd]. rewrite Hpos. exact Hat2.
  - apply lookup_ge_None in Ex. assert (pos = length out) as -> by lia. destruct (drop_end out) as [D _]. rewrite <- (app_nil_r RunTapes.mark) in D.
    destruct (mark_at q _ _ s _ Hat D) as (s1 & Hrun1 & Hto1 & Hat1). rewrite (mbind_ok _ _ _ _ _ Hrun1). cbn [negb Z.eqb]. rewrite mmod_ok. exists None, (set_eof_reached true s1). split_and!; [done|done|]. split.
    + apply (tape_scan_touched s s1 out _ Hto1) in H. destruct H. by split.
    + destruct Hat1 as (ts & (l & E & Hr) & Ht). exists ts. split; [by exists l|]. cbn [cu_pos cu_eof snd]. unfold byte_pos in *. by rewrite Nat.add_0_r in Ht.
Qed.

Lemma byte_pos_S out i y : out !! i = Some y -> 8 <= byte_pos out (S i) false.
Proof. intros Hi. destruct (bytes_around out i y Hi) as (_ & _ & ->). lia. Qed.

(** get_ontape in backward direction, up to the decision whether there is a tuple. *)
Definition go_back (tape : nat) (eof : bool) : M state bool :=
  if eof then
    ok ← tape_backspace tape (2 * SIZEOF_UINT);
    if ok : bool then mmod (set_eof_reached false);; mret true else mret false
  else
    ok ← tape_backspace tape SIZEOF_UINT;
    if ok : bool then
      tuplen ← getlen tape false;
      ok ← tape_backspace tape (Z.to_nat tuplen + 2 * SIZEOF_UINT);
      if ok : bool then mret true
      else
        ok ← tape_backspace tape (Z.to_nat tuplen + SIZEOF_UINT);
        if ok : bool then mret false else elog "bogus tuple length in backward scan"
    else mret false.

Lemma go_back_ok s out pos eof mark meof : let c := mkCursor pos eof mark meof in ontape_at s out c ->
  exists s', go_back q eof s = Ok (match pos with O => false | S O => eof | S (S _) => true end, s') /\ tape_scan s' out (cursor_step out OpPrior c).2 /\
    tape_at q (enc_run true out) (match pos with O => byte_pos out 0 eof | S i => if eof then byte_pos out pos false - 4 else match i with O => 0 | S _ => byte_pos out i false - 4 end end) s'.
Proof.
  intros c [H Hat]. pose proof (cursor_step_ok out OpPrior c (sc_ok _ _ _ H)) as Hok. pose proof H as [Hst Hk Hra Hq Hcl He Hm (K1 & K2 & K3 & K4)]. cbn in He, K1, K2, K3, K4. change (tape_at q (enc_run true out) (byte_pos out pos eof) s) in Hat.
  cbn [cursor_step c] in Hok |- *. unfold go_back, SIZEOF_UINT. destruct pos as [|i].
  - destruct eof.
    + destruct (back_at_no q _ _ s (2 * 4) Hat) as (s1 & Hrun & Hto & Hat1); [change (byte_pos out 0 true) with 4; lia|]. rewrite (mbind_ok _ _ _ _ _ Hrun). exists s1. split_and!; [done|by apply (tape_scan_touched s)|exact Hat1].
    + destruct (back_at_no q _ _ s 4 Hat) as (s1 & Hrun & Hto & Hat1); [rewrite byte_pos_zero; lia|]. rewrite (mbind_ok _ _ _ _ _ Hrun). exists s1. split_and!; [done|by apply (tape_scan_touched s)|exact Hat1].
  - destruct (lookup_lt_is_Some_2 out i) as [y Hy]; [lia|]. pose proof (byte_pos_S out i y Hy) as H8. destruct eof.
    + assert (Hb : byte_pos out (S i) true = byte_pos out (S i) false + 4) by (unfold byte_pos; lia). rewrite Hb in Hat.
      destruct (back_at_ok q _ _ s (2 * 4) Hat) as (s1 & Hrun & Hto & Hat1); [lia|]. rewrite (mbind_ok _ _ _ _ _ Hrun), mmod_ok. exists (set_eof_reached false s1). split_and!.
      * by destruct i.
      * apply (tape_scan_touched s s1 out _ Hto) in H. destruct H. by split.
      * replace (byte_pos out (S i) false + 4 - 2 * 4) with (byte_pos out (S i) false - 4) in Hat1 by lia. destruct Hat1 as (ts & (l & E & Hr) & Ht). exists ts. split; [by exists l|done].
    + destruct (bytes_around out i y Hy) as (_ & _ & Hpos). destruct (drops_around out i y Hy) as (rest & _ & _ & D3). rewrite Forall_lookup in Hcl. destruct (Hcl i y Hy) as [Hg Hn]. rewrite <- Hk in Hg.
      destruct (back_at_ok q _ _ s 4 Hat) as (s1 & Hrun1 & Hto1 & Hat1); [lia|]. rewrite (mbind_ok _ _ _ _ _ Hrun1).
      replace (byte_pos out (S i) false - 4) with (byte_pos out i false + 4 + length (tuple_body y)) in Hat1 by lia.
      destruct (word_at q _ _ s1 y false rest Hat1) as (s2 & Hrun2 & Hto2 & Hat2); [by destruct Hto1 as (a & l & ->)|exact D3|]. rewrite (mbind_ok _ _ _ _ _ Hrun2).
      replace (byte_pos out i false + 4 + length (tuple_body y) + 4) with (byte_pos out (S i) false) in Hat2 by lia. pose proof (touched_trans _ _ _ Hto1 Hto2) as Hto.
      assert (Hw : Z.to_nat (word_of y) = length (tuple_body y) + 4) by (unfold word_of, SIZEOF_UINT; lia). rewrite Hw. destruct i as [|j].
      * destruct (back_at_no q _ _ s2 (length (tuple_body y) + 4 + 2 * 4) Hat2) as (s3 & Hrun3 & Hto3 & Hat3); [rewrite Hpos, byte_pos_zero; lia|]. rewrite (mbind_ok _ _ _ _ _ Hrun3).
        destruct (back_at_ok q _ _ s3 (length (tuple_body y) + 4 + 4) Hat3) as (s4 & Hrun4 & Hto4 & Hat4); [lia|]. rewrite (mbind_ok _ _ _ _ _ Hrun4).
        exists s4. split_and!; [done| |]. { apply (tape_scan_touched s); [exact (touched_trans _ _ _ Hto (touched_trans _ _ _ Hto3 Hto4))|]. by apply (tape_scan_here s out 1). }
        replace (byte_pos out 1 false - (length (tuple_body y) + 4 + 4)) with 0 in Hat4 by (rewrite Hpos, byte_pos_zero; lia). exact Hat4.
      * destruct (lookup_lt_is_Some_2 out j) as [z Hz]; [lia|]. pose proof (byte_pos_S out j z Hz) as H8'.
        destruct (back_at_ok q _ _ s2 (length (tuple_body y) + 4 + 2 * 4) Hat2) as (s3 & Hrun3 & Hto3 & Hat3); [lia|]. rewrite (mbind_ok _ _ _ _ _ Hrun3).
        exists s3. split_and!; [done| |]. { apply (tape_scan_touched s); [exact (touched_trans _ _ _ Hto Hto3)|]. by apply (tape_scan_here s out (S (S j))). }
        replace (byte_pos out (S (S j)) false - (length (tuple_body y) + 4 + 2 * 4)) with (byte_pos out (S j) false - 4) in Hat3 by lia. exact Hat3.
Qed.

Lemma ontape_prior slave s out pos eof mark meof : let c := mkCursor pos eof mark meof in ontape_at s out c ->
  exists r s', tuplesort_gettuple_common slave false s = Ok (r, s') /\ option_map norm r = (cursor_step out OpPrior c).1 /\ ontape_at s' out (cursor_step out OpPrior c).2.
Proof.
  intros c Hc. destruct (go_back_ok s out pos eof mark meof Hc) as (s1 & Hback & H1 & Hat1). destruct Hc as [H _]. pose proof H as [Hst Hk Hra Hq Hcl He Hm (K1 & K2 & K3 & K4)]. cbn in He, K1, K2, K3, K4.
  unfold tuplesort_gettuple_common. rewrite mget_ok, Hst. unfold get_ontape. rewrite mget_ok, Assert_ok by (by rewrite Hra). rewrite He, Hq, Nat2Z.id. cbv zeta.
  change (∃ r s', (found ← go_back q eof; if found : bool then tuplen ← getlen q false; ok ← tape_backspace q (Z.to_nat tuplen); (if ok : bool then t ← readtup q tuplen; mret (Some t) else elog "bogus tuple length in backward scan") else mret None) s = Ok (r, s') ∧ option_map norm r = (cursor_step out OpPrior c).1 ∧ ontape_at s' out (cursor_step out OpPrior c).2).
  rewrite (mbind_ok _ _ _ _ _ Hback). cbn [cursor_step c] in H1 |- *.
  assert (Hgo : forall i c' y, tape_scan s1 out c' -> out !! i = Some y -> cu_pos c' = S i -> cu_eof c' = false -> tape_at q (enc_run true out) (byte_pos out (S i) false - 4) s1 ->
    exists r s', (tuplen ← getlen q false; ok ← tape_backspace q (Z.to_nat tuplen); if ok : bool then t ← readtup q tuplen; mret (Some t) else elog "bogus tuple length in backward scan") s1 = Ok (r, s') /\
      option_map norm r = Some y /\ ontape_at s' out c').
  { intros i c' y Hs' Hi Ep Ee Ha. destruct (read_before s1 out c' i y Hs' Hi Ha) as (y' & s2 & Hrun & Hy & Hto & Hat2). exists (Some y'), s2. split_and!; [done|cbn; congruence|].
    split; [by apply (tape_scan_touched s1)|]. by rewrite Ep, Ee. }
  destruct pos as [|i]; [exists None, s1; by split_and!|]. destruct (lookup_lt_is_Some_2 out i) as [y Hy]; [lia|]. destruct eof.
  - rewrite Hy. destruct i; by eapply Hgo.
  - destruct i as [|j]; [exists None, s1; by split_and!|]. destruct (lookup_lt_is_Some_2 out j) as [z Hz]; [lia|]. rewrite Hz. by eapply Hgo.
Qed.

Lemma ontape_rescan s out c : ontape_at s out c -> exists s', tuplesort_rescan s = Ok (tt, s') /\ ontape_at s' out cursor_start.
Proof.
  intros [H (ts & Hon & Ht)]. pose proof H as [Hst Hk Hra Hq Hcl He Hm Hok]. unfold tuplesort_rescan. rewrite mget_ok, Assert_ok by done. rewrite Hst, Hq, Nat2Z.id.
  destruct (tape_op_ok s ts (fun lts => LogicalTapeRewind lts q false) (<[q := mkTape (enc_run true out) 0 false true]> ts) Hon) as (l & Hl & Hon').
  { intros lts Hrep. exact (rewind_ok lts ts q _ Hrep Ht false _ eq_refl). }
  rewrite (mbind_ok _ _ _ _ _ Hl). eexists. split; [reflexivity|]. split.
  - split; try done; cbn.
    + split_and!; [|done|done]. split; [apply Nat.le_0_l|by left].
    + split_and!; cbn; done || lia.
  - exists (<[q := mkTape (enc_run true out) 0 false true]> ts). split; [by destruct Hon' as (l' & E & Hr); exists l'|]. apply list_lookup_insert_eq. by eapply lookup_lt_Some.
Qed.

Lemma ontape_mark s out pos eof mark meof : ontape_at s out (mkCursor pos eof mark meof) -> exists s', tuplesort_markpos s = Ok (tt, s') /\ ontape_at s' out (mkCursor pos eof pos eof).
Proof.
  intros [H (ts & (lts & Hl & Hr) & Ht)]. pose proof H as [Hst Hk Hra Hq Hcl He Hm (K1 & K2 & K3 & K4)]. cbn [cu_pos cu_eof cu_mark cu_mark_eof] in *.
  destruct (tell_spec lts ts q _ Hr Ht) as (b & o & Htell & Hp & Hpos). cbn [tp_pos tp_bytes] in Hp, Hpos.
  unfold tuplesort_markpos. rewrite mget_ok, Assert_ok by done. rewrite Hst, Hq, Nat2Z.id. unfold tapes, mbind, M_bind, mget, deref, lift_res. rewrite Hl, Htell. unfold mput.
  eexists. split; [reflexivity|]. split; [by split|]. exists ts. split; [by exists lts|done].
Qed.

Lemma ontape_restore s out pos eof mark meof : ontape_at s out (mkCursor pos eof mark meof) -> exists s', tuplesort_restorepos s = Ok (tt, s') /\ ontape_at s' out (mkCursor mark meof mark meof).
Proof.
  intros [H (ts & (lts & Hl & Hr) & Ht)]. pose proof H as [Hst Hk Hra Hq Hcl He (Hm1 & Hm2 & Hm3) (K1 & K2 & K3 & K4)]. cbn [cu_pos cu_eof cu_mark cu_mark_eof] in *.
  set (t' := mkTape (enc_run true out) (byte_pos out mark meof) false true).
  destruct (seek_ok lts ts q _ Hr Ht (markpos_block s) (markpos_offset s) true t') as (l & Hseek & Hr'); [done| |].
  { unfold tape_seek. cbn. rewrite Hm2. by rewrite decide_True by (by apply byte_pos_le). }
  unfold tuplesort_restorepos. rewrite mget_ok, Assert_ok by done. rewrite Hst, Hq, Nat2Z.id. unfold tapes, mbind, M_bind, mget, deref, lift_res. rewrite Hl, Hseek. unfold mput.
  eexists. split; [reflexivity|]. split; [by split|]. exists (<[q := t']> ts). split; [by exists l|]. apply list_lookup_insert_eq. by eapply lookup_lt_Some.
Qed.

Lemma ontape_step slave s out c op : ontape_at s out c ->
  exists r s', scan_step slave op s = Ok (r, s') /\ option_map norm r = (cursor_step out op c).1 /\ ontape_at s' out (cursor_step out op c).2.
Proof.
  destruct c as [pos eof mark meof]. intros H. destruct op; cbn [scan_step].
  - by apply ontape_next.
  - by apply ontape_prior.
  - destruct (ontape_rescan s out _ H) as (s' & Hrun & H'). rewrite (mbind_ok _ _ _ _ _ Hrun). by exists None, s'.
  - destruct (ontape_mark s out _ _ _ _ H) as (s' & Hrun & H'). rewrite (mbind_ok _ _ _ _ _ Hrun). by exists None, s'.
  - destruct (ontape_restore s out _ _ _ _ H) as (s' & Hrun & H'). rewrite (mbind_ok _ _ _ _ _ Hrun). by exists None, s'.
Qed.

End ontape.
End Cursor.

(** ** A sort with random access and what is done with its result *)

Section whole.
Context {T K : Type} `{SM : !SortMethods T K} {Dm : Domain T} (valid : K -> Prop) `{HL : !SortMethodsLaws SM valid} `{HT : !TapeMethodsLaws SM}.
Context (junk : SortTuple T).
Local Abbreviation state := (Tuplesortstate T K).

Definition sort_and_scan (workMem : Z) (keys : K) (ts : list (SortTuple T)) (slave : bool) (ops : list scan_op) : res (list (option (SortTuple T))) :=
  match tuplesort_begin_common junk workMem true keys with
  | Err e => Err e
  | Ok s =>
    match (put_all junk ts;; tuplesort_performsort;; scan slave ops) s with
    | Ok (rs, _) => Ok rs
    | Err e => Err e
    end
  end.

Lemma result_ontape P k (s : state) out : status s = TSS_SORTEDONTAPE -> on_result P k true s [] out ->
  eof_reached s = false -> markpos_block s = 0 -> markpos_offset s = 0 -> markpos_eof s = false -> exists q, ontape_at k q s out cursor_start.
Proof using.
  intros Hst ([_ Hk Hra _ _] & Hc & ts & q & t & Hon & Hq & Ht & Hw & Hf & Hb & Hd) He M1 M2 M3. exists q. split.
  - split; try done; [|split_and!; cbn; done || lia]. rewrite M1, M2, M3. split_and!; [|done|done]. split; [apply Nat.le_0_l|by left].
  - exists ts. split; [done|]. rewrite Ht. f_equal. destruct t as [bs p w f]. cbn [tp_writing tp_frozen tp_bytes tp_pos app] in Hw, Hf, Hb, Hd. subst. f_equal. change (p = 0). apply (f_equal length) in Hd. rewrite length_drop in Hd.
    assert (4 <= length (enc_run true out)) by (unfold enc_run; rewrite length_app; change (length mark) with 4; lia). lia.
Qed.

(** ** Either way *)

(** The result [out] of a sort with bound [bnd], in memory or on tape, with the cursor at [c]. *)
Definition positioned (k : K) (bnd : option Z) (s : state) (out : list (SortTuple T)) (c : cursor) : Prop :=
  (memory_at s out c /\ requested bnd s) \/ exists q, ontape_at k q s out c.
(** Whether reading may go beyond the end. *)
Definition end_ok (slave : bool) (bnd : option Z) (out : list (SortTuple T)) : Prop := slave = true \/ forall b, bnd = Some b -> (Z.of_nat (length out) < b)%Z.

Lemma positioned_step k bnd slave s out c op : positioned k bnd s out c -> (op = OpNext -> cu_pos c = length out -> end_ok slave bnd out) ->
  exists r s', scan_step slave op s = Ok (r, s') /\ option_map norm r = option_map norm (cursor_step out op c).1 /\ positioned k bnd s' out (cursor_step out op c).2.
Proof using.
  intros [[Hm Hr]|[q Ht]] Hend.
  - destruct (memory_step slave s out c op Hm) as [Hs Hm'].
    { intros E1 E2. unfold may_end. unfold requested in Hr. destruct (Hend E1 E2) as [->|Hb]; [by left|right]. destruct bnd as [b|]; [|by left]. right. destruct Hr as (_ & -> & _). by apply Hb. }
    eexists _, _. split; [exact Hs|]. split; [done|]. left. split; [exact Hm'|]. unfold requested in *. by destruct bnd.
  - destruct (ontape_step k q slave s out c op Ht) as (r & s' & Hs & Hn & Ht'). exists r, s'. split; [done|]. split; [|right; by exists q].
    rewrite <- Hn. destruct r as [[]|]; done.
Qed.

Lemma positioned_scan k bnd slave out ops : end_ok slave bnd out -> forall s c, positioned k bnd s out c ->
  exists rs s', scan slave ops s = Ok (rs, s') /\ option_map norm <$> rs = cursor_scan (norm <$> out) ops c.
Proof using.
  intros Hend. induction ops as [|op ops IH]; intros s c H; cbn [scan cursor_scan]; [by exists [], s|].
  destruct (positioned_step k bnd slave s out c op H (fun _ _ => Hend)) as (r & s1 & Hrun & Hr & H1). rewrite (mbind_ok _ _ _ _ _ Hrun).
  destruct (IH _ _ H1) as (rs & s' & Hs & Hrs). rewrite (mbind_ok _ _ _ _ _ Hs). exists (r :: rs), s'. split; [done|].
  rewrite cursor_step_fmap. destruct (cursor_step out op c) as [r0 c']. rewrite fmap_cons. cbn [fst snd] in *. by rewrite Hr, <- Hrs.
Qed.

(** A sort with random access ends at the start of its result. *)
Lemma sorted_positioned k bnd s ins : (exists out D, sorted_memory k true bnd s out D ins) \/ sorted_tapes k true s ins ->
  exists out D, positioned k bnd s out cursor_start /\ sorted (comparetup k) out /\ keeps k out D ins /\ (D = [] \/ exists b, bnd = Some b /\ Z.of_nat (length out) = b).
Proof using.
  intros [(out & D & [M1 M2 M3 [M4 M5] (E1 & E2 & E3 & E4) M7 M8 M9])|(P & Hres & He & E1 & E2 & E3)].
  - exists out, D. split_and!; try done. left. split; [|done]. split; try done; [split_and!; [done|unfold memtupsize; rewrite <- M4, length_take in M5; lia|done]|split_and!; cbn; done || lia].
  - destruct Hres as [(_ & ? & _)|(Hst & out & Hon & Hs & Hp)]; [done|]. destruct (result_ontape P k s out Hst Hon He E1 E2 E3) as (q & Hat).
    exists out, []. split_and!; [right; by exists q|done| |by left]. apply keeps_all. rewrite <- Hp. destruct Hat as [[_ _ _ _ Hcl _ _ _] _]. apply Permutation_refl'.
    rewrite <- (list_fmap_id out) at 2. apply list_fmap_ext. intros i x Hx. rewrite Forall_lookup in Hcl. by destruct (Hcl i x Hx).
Qed.

(** The answers are those of the cursor over the sorted tuples. *)
Lemma sort_and_scan_ok overhead workMem k ts slave ops : (forall n, array_space n = (24 * Z.of_nat n + overhead)%Z) -> valid k ->
  (array_space 1024 <= workMem * 1024)%Z -> Forall (good k) ts ->
  exists out rs, sort_and_scan workMem k ts slave ops = Ok rs /\ norm <$> out ≡ₚ norm <$> ts /\ sorted (comparetup k) out /\
    option_map norm <$> rs = cursor_scan (norm <$> out) ops cursor_start.
Proof using HL HT.
  intros Hspace Hv Hmem Hgood. destruct (begin_ok junk k true None workMem Hmem) as (s & s1 & Hbeg & Hset & HI); [done|]. injection Hset as <-.
  destruct (put_all_ok valid junk overhead Hspace k true None Hv ltac:(done) ts ltac:(eapply Forall_impl; [exact Hgood|]; by intros ? (_ & _ & ?)) s [] (or_introl HI)) as (s2 & Hput & HLd).
  destruct (performsort_state valid k true None Hv ltac:(done) s2 ts HLd Hgood) as (s3 & Hsort & Hres).
  destruct (sorted_positioned k None s3 ts Hres) as (out & D & Hpos & Hs & [Hp _] & Hd). assert (D = []) as -> by (by destruct Hd as [|(b & ? & _)]). rewrite app_nil_r in Hp.
  destruct (positioned_scan k None slave out ops ltac:(right; by intros b) s3 cursor_start Hpos) as (rs & s' & Hscan & Hrs).
  exists out, rs. split_and!; try done. unfold sort_and_scan. by rewrite Hbeg, (mbind_ok _ _ _ _ _ Hput), (mbind_ok _ _ _ _ _ Hsort), Hscan.
Qed.
End whole.

(** ** Properties *)

(** The rows of the answers. *)
Definition answered (rs : list (option (SortTuple MinimalTuple))) : list (option MinimalTuple) := option_map (fun t => tuple t) <$> rs.

Lemma answered_norm (rs : list (option (SortTuple MinimalTuple))) : answered (option_map norm <$> rs) = answered rs.
Proof. unfold answered. rewrite <- list_fmap_compose. apply list_fmap_ext. by intros i [[]|] _. Qed.

Lemma heap_sort_and_scan heap_getattr chunk_space overhead junk workMem keys rows slave ops :
  let SM := heap_methods heap_getattr chunk_space (fun n => (24 * Z.of_nat n + overhead)%Z) in
  sort_functions keys -> memory_ok overhead workMem -> Forall row_fits rows ->
  exists out rs, sort_and_scan (SM := SM) junk workMem keys (heap_tuple heap_getattr keys <$> rows) slave ops = Ok rs /\
    (fun t => tuple t) <$> out ≡ₚ rows /\ sorted (comparetup_heap heap_getattr keys) out /\ norm <$> out ≡ₚ norm <$> (heap_tuple heap_getattr keys <$> rows) /\
    answered rs = cursor_scan ((fun t => tuple t) <$> out) ops cursor_start.
Proof.
  intros M Hk Hm Hr. destruct (sort_and_scan_ok (SM := M) sort_functions junk overhead workMem keys (heap_tuple heap_getattr keys <$> rows) slave ops (fun _ => eq_refl) Hk Hm) as (out & rs & Hrun & Hp & Hs & Hrs);
    [by apply good_rows|]. exists out, rs. split_and!; [done|by apply (norm_rows heap_getattr keys)|done|done|].
  rewrite <- answered_norm, Hrs. unfold answered. rewrite <- cursor_scan_fmap, <- list_fmap_compose. done.
Qed.

(** Without ties the order of the rows is determined. *)
Lemma sorted_rows_unique heap_getattr chunk_space overhead keys rows (out out' : list (SortTuple MinimalTuple)) :
  let SM := heap_methods heap_getattr chunk_space (fun n => (24 * Z.of_nat n + overhead)%Z) in
  sort_functions keys ->
  (forall a b, a ∈ rows -> b ∈ rows -> comparetup_heap heap_getattr keys (heap_tuple heap_getattr keys a) (heap_tuple heap_getattr keys b) = 0%Z -> a = b) ->
  norm <$> out ≡ₚ norm <$> (heap_tuple heap_getattr keys <$> rows) -> norm <$> out' ≡ₚ norm <$> (heap_tuple heap_getattr keys <$> rows) ->
  sorted (comparetup_heap heap_getattr keys) out -> sorted (comparetup_heap heap_getattr keys) out' -> (fun t => tuple t) <$> out = (fun t => tuple t) <$> out'.
Proof.
  intros M Hk Hinj Hp Hp' Hs Hs'. pose proof (sm_cmp (SM := M) keys Hk) as HC.
  assert (Hrow : forall l x, norm <$> l ≡ₚ norm <$> (heap_tuple heap_getattr keys <$> rows) -> x ∈ norm <$> l -> exists a, a ∈ rows /\ x = heap_tuple heap_getattr keys a).
  { intros l x Hl. rewrite Hl, <- list_fmap_compose. intros Hx. apply list_elem_of_fmap in Hx as (a & -> & Ha). exists a. split; [done|]. apply computeDatum1_norm. }
  assert (Hsn : forall l, sorted (comparetup_heap heap_getattr keys) l -> sorted (comparetup_heap heap_getattr keys) (norm <$> l)).
  { induction 1 as [|x l Hl IH Hx]; [constructor|]. constructor; [done|]. apply Forall_fmap. eapply Forall_impl; [exact Hx|]. intros y Hy.
    change (comparetup (SortMethods := M) keys (norm x) (norm y) <= 0)%Z. rewrite (cmp_norm (SM := M) sort_functions). exact Hy. }
  assert (E : norm <$> out = norm <$> out').
  { apply (StronglySorted_unique_strong (cmp_le (comparetup_heap heap_getattr keys))); [|by apply Hsn..|by rewrite Hp, Hp']. intros x1 x2 H1 H2 L1 L2.
    destruct (Hrow out x1 Hp H1) as (a & Ha & ->). destruct (Hrow out' x2 Hp' H2) as (b & Hb & ->). f_equal. apply Hinj; [done|done|]. unfold cmp_le in L1, L2.
    pose proof (cmp_sgn (cmp := comparetup_heap heap_getattr keys) (heap_tuple heap_getattr keys a) (heap_tuple heap_getattr keys b)). lia. }
  apply (f_equal (fmap (fun t : SortTuple MinimalTuple => tuple t))) in E. rewrite <- !list_fmap_compose in E.
  assert (En : forall l : list (SortTuple MinimalTuple), (fun t => tuple t) ∘ norm <$> l = (fun t => tuple t) <$> l) by (intros l; apply list_fmap_ext; by intros i [] _). by rewrite !En in E.
Qed.

(** C8: Random access.  After a sort with random access, in memory or on tape, any sequence of fetches forward and backward,
    rescans, marks and restores succeeds, and the answers are those of a cursor over the rows in order: going forward returns
    the next row and, at the end, none; going backward returns the row before the last one returned, or the last row after the end; a rescan
    goes back to the start and a restore to the mark. *)
Theorem random_access_scan heap_getattr chunk_space overhead junk workMem keys rows slave ops :
  let SM := heap_methods heap_getattr chunk_space (fun n => (24 * Z.of_nat n + overhead)%Z) in
  sort_functions keys -> memory_ok overhead workMem -> Forall row_fits rows ->
  exists out rs, sort_and_scan (SM := SM) junk workMem keys (heap_tuple heap_getattr keys <$> rows) slave ops = Ok rs /\
    (fun t => tuple t) <$> out ≡ₚ rows /\ sorted (comparetup_heap heap_getattr keys) out /\
    answered rs = cursor_scan ((fun t => tuple t) <$> out) ops cursor_start.
Proof.
  intros M Hk Hm Hr. destruct (heap_sort_and_scan heap_getattr chunk_space overhead junk workMem keys rows slave ops Hk Hm Hr) as (out & rs & H1 & H2 & H3 & _ & H4). by exists out, rs.
Qed.

(** C29: Memory cannot be seen.  When no two different rows are equal in the order of the sort, two sorts of the same rows with
    different amounts of memory and different costs of a tuple, one in memory and the other on tape, say, answer any sequence of fetches in
    both directions, rescans, marks and restores alike. *)
Theorem memory_not_observable heap_getattr chunk_space chunk_space' overhead junk junk' workMem workMem' keys rows slave ops :
  let SM := heap_methods heap_getattr chunk_space (fun n => (24 * Z.of_nat n + overhead)%Z) in
  let SM' := heap_methods heap_getattr chunk_space' (fun n => (24 * Z.of_nat n + overhead)%Z) in
  sort_functions keys -> memory_ok overhead workMem -> memory_ok overhead workMem' -> Forall row_fits rows ->
  (forall a b, a ∈ rows -> b ∈ rows -> comparetup_heap heap_getattr keys (heap_tuple heap_getattr keys a) (heap_tuple heap_getattr keys b) = 0%Z -> a = b) ->
  exists rs rs', sort_and_scan (SM := SM) junk workMem keys (heap_tuple heap_getattr keys <$> rows) slave ops = Ok rs /\
    sort_and_scan (SM := SM') junk' workMem' keys (heap_tuple heap_getattr keys <$> rows) slave ops = Ok rs' /\ answered rs = answered rs'.
Proof.
  intros M M' Hk Hm Hm' Hr Hinj.
  destruct (heap_sort_and_scan heap_getattr chunk_space overhead junk workMem keys rows slave ops Hk Hm Hr) as (out & rs & H1 & H2 & H3 & H4 & H5).
  destruct (heap_sort_and_scan heap_getattr chunk_space' overhead junk' workMem' keys rows slave ops Hk Hm' Hr) as (out' & rs' & H1' & H2' & H3' & H4' & H5').
  exists rs, rs'. split_and!; [done|done|]. rewrite H5, H5'. f_equal. by apply (sorted_rows_unique heap_getattr chunk_space overhead keys rows).
Qed.

(** ** Witnesses *)

Definition demo_ops : list scan_op := [OpNext; OpNext; OpMark; OpNext; OpPrior; OpPrior; OpPrior; OpNext; OpRestore; OpNext; OpNext; OpNext; OpNext; OpPrior; OpRescan; OpNext].
Definition demo_answers : list (option MinimalTuple) :=
  [Some [4; 9]; Some [9; 9]; None; Some [2; 7]; Some [9; 9]; Some [4; 9]; None; Some [4; 9]; None; Some [2; 7]; Some [1; 5]; Some [3; 5]; None; Some [3; 5]; None; Some [4; 9]]%Z.

Lemma random_access_scan_witness :
  exists rs, sort_and_scan (SM := heap_methods demo_getattr demo_space (fun n => (24 * Z.of_nat n + 16)%Z)) demo_junk 25 demo_keys (heap_tuple demo_getattr demo_keys <$> demo_table) false demo_ops = Ok rs /\
    answered rs = demo_answers.
Proof.
  destruct (random_access_scan demo_getattr demo_space 16 demo_junk 25 demo_keys demo_table false demo_ops) as (out & rs & He & _); [exact demo_keys_ok|vm_compute; discriminate|by repeat constructor|].
  exists rs. split; [exact He|]. vm_compute in He. injection He as <-. reflexivity.
Defined.

(** On tape with 25 kB, in memory with 200 kB. *)
Lemma memory_not_observable_witness :
  exists rs rs', sort_and_scan (SM := heap_methods demo_getattr demo_space (fun n => (24 * Z.of_nat n + 16)%Z)) demo_junk 25 demo_keys (heap_tuple demo_getattr demo_keys <$> demo_table) false demo_ops = Ok rs /\
    sort_and_scan (SM := heap_methods demo_getattr demo_space (fun n => (24 * Z.of_nat n + 16)%Z)) demo_junk 200 demo_keys (heap_tuple demo_getattr demo_keys <$> demo_table) false demo_ops = Ok rs' /\
    answered rs = answered rs'.
Proof.
  apply (memory_not_observable demo_getattr demo_space demo_space 16 demo_junk demo_junk 25 200 demo_keys demo_table false demo_ops);
    [exact demo_keys_ok|vm_compute; discriminate|vm_compute; discriminate|by repeat constructor|].
  intros a b Ha Hb. unfold demo_table in Ha, Hb. apply list_elem_of_In in Ha, Hb. cbn [In] in Ha, Hb. intuition (subst; vm_compute; congruence || discriminate).
Defined.
