(* ===== verification/SortNode.v ===== *)
(** * SortNode: the sort node of the executor (src/backend/executor/nodeSort.c)

    ExecInitSort, ExecSort, ExecSortMarkPos, ExecSortRestrPos, ExecReScanSort and ExecEndSort when no workers are used: prl_sort is off, or the
    node runs in a worker.  The subplan is a class; the limit node above (src/backend/executor/nodeLimit.c) tells the node how many rows it
    needs.  ParallelSort and Workers have the other branch of ExecSort and ExecEndSort. *)

From S2P Require Import Prelude Order Compare Heap Qsort Tape LogTape Tuplesort InMemory RunTapes Polyphase BuildRuns MergeRuns MergePasses External SortRun Cursor.
From Stdlib Require Import Permutation.

(** ** The subplan *)

Class OuterPlan (P : Type) := {
  ExecProcNode : P -> option MinimalTuple * P;
  ExecReScan : P -> P;
  ExecEndNode : P -> P;
  chgParam : P -> bool }.    (* parameters have changed since the last scan *)

(** [p] returns [rows] and then no more. *)
Fixpoint delivers `{!OuterPlan P} (rows : list MinimalTuple) (p p' : P) : Prop :=
  match rows with
  | [] => ExecProcNode p = (None, p')
  | row :: rows => exists p1, ExecProcNode p = (Some row, p1) /\ delivers rows p1 p'
  end.

(** What is relied on of a subplan: a scan from the start returns its rows and ends; a rescan goes back to the start; a plan whose parameters
    were changed, to [v], starts over by itself, with the rows for [v]. *)
Class OuterPlanLaws (P V : Type) `{!OuterPlan P} := {
  plan_rows : P -> list MinimalTuple;
  at_start : P -> Prop;
  set_params : V -> P -> P;
  query : V -> list MinimalTuple;
  plan_scan : forall p, at_start p -> exists p', delivers (plan_rows p) p p' /\ plan_rows p' = plan_rows p /\ chgParam p' = false;
  plan_rescan : forall p, at_start (ExecReScan p) /\ plan_rows (ExecReScan p) = plan_rows p;
  plan_params : forall v p, at_start (set_params v p) /\ plan_rows (set_params v p) = query v /\ chgParam (set_params v p) = true }.

(** ** The node *)

Record SortState (P : Type) := mkSortState {
  ss_randomAccess : bool;
  ss_bounded : bool;
  ss_bound : Z;
  sort_Done : bool;
  bounded_Done : bool;
  bound_Done : Z;
  tuplesortstate : option (Tuplesortstate MinimalTuple (list ScanKeyData));
  outerPlan : P }.
Arguments mkSortState {P} ss_randomAccess ss_bounded ss_bound sort_Done bounded_Done bound_Done tuplesortstate outerPlan.
Arguments ss_randomAccess {P} s.
Arguments ss_bounded {P} s.
Arguments ss_bound {P} s.
Arguments sort_Done {P} s.
Arguments bounded_Done {P} s.
Arguments bound_Done {P} s.
Arguments tuplesortstate {P} s.
Arguments outerPlan {P} s.

Section setters.
Context {P : Type}.
Implicit Type n : SortState P.
Definition set_tuplesortstate ts n : SortState P :=
  mkSortState (ss_randomAccess n) (ss_bounded n) (ss_bound n) (sort_Done n) (bounded_Done n) (bound_Done n) ts (outerPlan n).
Definition set_outerPlan p n : SortState P :=
  mkSortState (ss_randomAccess n) (ss_bounded n) (ss_bound n) (sort_Done n) (bounded_Done n) (bound_Done n) (tuplesortstate n) p.
Definition set_sort_Done d n : SortState P :=
  mkSortState (ss_randomAccess n) (ss_bounded n) (ss_bound n) d (bounded_Done n) (bound_Done n) (tuplesortstate n) (outerPlan n).
Definition set_done_with n : SortState P :=
  mkSortState (ss_randomAccess n) (ss_bounded n) (ss_bound n) true (ss_bounded n) (ss_bound n) (tuplesortstate n) (outerPlan n).
(** [None]: all rows are needed; the bound keeps its value. *)
Definition set_needed (b : option Z) n : SortState P :=
  match b with
  | Some b => mkSortState (ss_randomAccess n) true b (sort_Done n) (bounded_Done n) (bound_Done n) (tuplesortstate n) (outerPlan n)
  | None => mkSortState (ss_randomAccess n) false (ss_bound n) (sort_Done n) (bounded_Done n) (bound_Done n) (tuplesortstate n) (outerPlan n)
  end.
End setters.

Definition wrap64 (z : Z) : Z := ((z + 2 ^ 63) mod 2 ^ 64 - 2 ^ 63)%Z.
(** How many rows the limit node will fetch at most, as recompute_limits tells the sort node. *)
Definition tuples_needed (noCount : bool) (count offset : Z) : option Z :=
  let needed := wrap64 (count + offset) in
  if noCount || (needed <? 0)%Z then None else Some needed.
Definition recompute_limits {P} (noCount : bool) (count offset : Z) : SortState P -> SortState P := set_needed (tuples_needed noCount count offset).

Section node.
Context {P : Type} `{!OuterPlan P}.
Context (ExecInitNode : Z -> P).
Context (heap_getattr : MinimalTuple -> Z -> Datum * bool) (chunk_space : MinimalTuple -> Z) (space : nat -> Z) (junk : SortTuple MinimalTuple).
Context (work_mem : Z) (keys : list ScanKeyData) (slave : bool).
Local Abbreviation node_t := (SortState P).
Local Abbreviation NM := (M node_t).
Local Abbreviation tss := (Tuplesortstate MinimalTuple (list ScanKeyData)).
#[local] Instance node_methods : SortMethods MinimalTuple (list ScanKeyData) := heap_methods heap_getattr chunk_space space.

Definition ExecInitSort (eflags : Z) : node_t :=
  let flags := Z.lor EXEC_FLAG_REWIND (Z.lor EXEC_FLAG_BACKWARD EXEC_FLAG_MARK) in
  mkSortState (negb (Z.land eflags flags =? 0)%Z) false 0 false false 0 None (ExecInitNode (Z.ldiff eflags flags)).

(** An operation on the tuplesort state of the node. *)
Definition on_sort {A} (m : M tss A) : NM A := fun n =>
  match tuplesortstate n with
  | None => Err EUndef
  | Some s => match m s with Ok (a, s') => Ok (a, set_tuplesortstate (Some s') n) | Err e => Err e end
  end.

(** Reading the subplan; a plan that does not end would keep the node in this loop. *)
Fixpoint load_tuples (fuel : nat) : NM unit :=
  match fuel with
  | O => mfail EDiverge
  | S fuel' =>
    n ← mget;
    let '(slot, p) := ExecProcNode (outerPlan n) in
    mput (set_outerPlan p n);;
    match slot with
    | None => mret tt
    | Some row => on_sort (puttuple junk (heap_tuple heap_getattr keys row));; load_tuples fuel'
    end
  end.

Definition sort_outer (fuel : nat) : NM unit :=
  n ← mget;
  match tuplesort_begin_common junk work_mem (ss_randomAccess n) keys with
  | Err e => mfail e
  | Ok s =>
    mput (set_tuplesortstate (Some s) n);;
    (if ss_bounded n then on_sort (tuplesort_set_bound (ss_bound n)) else mret tt);;
    load_tuples fuel;;
    on_sort tuplesort_performsort;;
    mmod set_done_with
  end.

Definition ExecSort (fuel : nat) (forward : bool) : NM (option MinimalTuple) :=
  n ← mget;
  (if sort_Done n then mret tt else sort_outer fuel);;
  o ← on_sort (tuplesort_gettuple_common slave forward);
  mret (option_map (fun t => tuple t) o).

Definition ExecSortMarkPos : NM unit :=
  n ← mget; if sort_Done n then on_sort tuplesort_markpos else mret tt.
Definition ExecSortRestrPos : NM unit :=
  n ← mget; if sort_Done n then on_sort tuplesort_restorepos else mret tt.

Definition ExecReScanSort : NM unit :=
  n ← mget;
  if sort_Done n then
    if chgParam (outerPlan n) || negb (eqb (ss_bounded n) (bounded_Done n)) || negb (ss_bound n =? bound_Done n)%Z || negb (ss_randomAccess n) then
      let n := set_tuplesortstate None (set_sort_Done false n) in
      mput (if chgParam (outerPlan n) then n else set_outerPlan (ExecReScan (outerPlan n)) n)
    else on_sort tuplesort_rescan
  else mret tt.

Definition ExecEndSort : NM unit := mmod (fun n => set_outerPlan (ExecEndNode (outerPlan n)) (set_tuplesortstate None n)).

(** ** Scans of the node *)

Definition node_step (fuel : nat) (op : scan_op) : NM (option MinimalTuple) :=
  match op with
  | OpNext => ExecSort fuel true
  | OpPrior => ExecSort fuel false
  | OpRescan => ExecReScanSort;; mret None
  | OpMark => ExecSortMarkPos;; mret None
  | OpRestore => ExecSortRestrPos;; mret None
  end.
Fixpoint node_scan (fuel : nat) (ops : list scan_op) : NM (list (option MinimalTuple)) :=
  match ops with [] => mret [] | op :: ops => r ← node_step fuel op; rs ← node_scan fuel ops; mret (r :: rs) end.

(** A scan under a limit node: the parameters may change, the limits are set, the node is rescanned and rows are fetched. *)
Record round (V : Type) := mkRound { rd_params : option V; rd_noCount : bool; rd_count : Z; rd_offset : Z; rd_fetches : nat }.
Arguments rd_params {V} r.
Arguments rd_noCount {V} r.
Arguments rd_count {V} r.
Arguments rd_offset {V} r.
Arguments rd_fetches {V} r.

Context {V : Type} `{HP : !OuterPlanLaws P V}.
Definition run_round (fuel : nat) (r : round V) : NM (list (option MinimalTuple)) :=
  mmod (fun n => match rd_params r with Some v => set_outerPlan (set_params v (outerPlan n)) n | None => n end);;
  mmod (recompute_limits (rd_noCount r) (rd_count r) (rd_offset r));;
  ExecReScanSort;;
  node_scan fuel (replicate (rd_fetches r) OpNext).
Fixpoint run_rounds (fuel : nat) (rs : list (round V)) : NM (list (list (option MinimalTuple))) :=
  match rs with [] => mret [] | r :: rs => a ← run_round fuel r; l ← run_rounds fuel rs; mret (a :: l) end.
End node.
Arguments mkRound {V} rd_params rd_noCount rd_count rd_offset rd_fetches.
Arguments rd_params {V} r.
Arguments rd_noCount {V} r.
Arguments rd_count {V} r.
Arguments rd_offset {V} r.
Arguments rd_fetches {V} r.

(** ** Sorting the rows of the subplan *)

Section proofs.
Context {P V : Type} `{!OuterPlan P} `{HP : !OuterPlanLaws P V}.
Context (heap_getattr : MinimalTuple -> Z -> Datum * bool) (chunk_space : MinimalTuple -> Z) (overhead : Z) (junk : SortTuple MinimalTuple).
Context (work_mem : Z) (keys : list ScanKeyData) (slave : bool) (Hk : sort_functions keys) (Hm : memory_ok overhead work_mem).
Local Abbreviation space := (fun n => (24 * Z.of_nat n + overhead)%Z).
Local Abbreviation tss := (Tuplesortstate MinimalTuple (list ScanKeyData)).
#[local] Instance methods : SortMethods MinimalTuple (list ScanKeyData) := heap_methods heap_getattr chunk_space space.
Local Abbreviation load := (load_tuples heap_getattr chunk_space space junk keys).
Local Abbreviation sort_plan := (sort_outer heap_getattr chunk_space space junk work_mem keys).
Local Abbreviation exec := (ExecSort heap_getattr chunk_space space junk work_mem keys slave).
Local Abbreviation scan_node := (node_scan heap_getattr chunk_space space junk work_mem keys slave).
Implicit Types (n : SortState P) (s : tss) (rows : list MinimalTuple).

Lemma load_ok rows : forall fuel n s p', delivers rows (outerPlan n) p' -> length rows < fuel -> tuplesortstate n = Some s ->
  load fuel n = match put_all junk (heap_tuple heap_getattr keys <$> rows) s with Ok (_, s') => Ok (tt, set_tuplesortstate (Some s') (set_outerPlan p' n)) | Err e => Err e end.
Proof.
  induction rows as [|row rows IH]; intros fuel n s p' Hd Hf Hs; (destruct fuel as [|fuel]; [cbn in Hf; lia|]); cbn [load_tuples fmap list_fmap put_all]; unfold mbind, M_bind, mget.
  - cbn in Hd. rewrite Hd. cbn. destruct n. cbn in *. by subst.
  - destruct Hd as (p1 & Hp & Hd). rewrite Hp. unfold mput, on_sort. cbn [tuplesortstate set_outerPlan]. rewrite Hs.
    destruct (puttuple junk _ s) as [[[] s1]|e]; [|done]. cbn in Hf. by rewrite (IH fuel _ s1 p') by (done || lia).
Qed.

(** The bound that reaches the sort; one that is too large is ignored. *)
Definition sort_bound (b : bool) (z : Z) : option Z := if b then (if (INT_MAX / 2 <? z)%Z then None else Some z) else None.
Definition needed n : option Z := sort_bound (ss_bounded n) (ss_bound n).

Lemma begin_node ra (b : bool) z : (b = true -> (1 <= z)%Z) ->
  exists s s', tuplesort_begin_common junk work_mem ra keys = Ok s /\ (if b then tuplesort_set_bound z else mret tt) s = Ok (tt, s') /\ initial keys ra (sort_bound b z) s' [].
Proof using Hk Hm.
  intros Hb. unfold sort_bound. destruct b; [destruct (Z.ltb_spec (INT_MAX / 2) z) as [Hz|Hz]|].
  - destruct (begin_ok (SM := methods) junk keys ra None work_mem Hm ltac:(done)) as (s & s' & Hs & [= <-] & HI). exists s, s. split_and!; [done| |done].
    unfold tuplesort_set_bound, mbind, M_bind, mget, Assert. destruct HI as [H1 _ _ H2 H3 _ _ _ _ _]. rewrite !bool_decide_true by done. rewrite (H2 : bounded s = false). cbn [negb].
    by rewrite (proj2 (Z.ltb_lt _ _)).
  - destruct (begin_ok (SM := methods) junk keys ra (Some z) work_mem Hm) as (s & s' & H); [intros ? [= <-]; split; [by apply Hb|done]|by exists s, s'].
  - destruct (begin_ok (SM := methods) junk keys ra None work_mem Hm ltac:(done)) as (s & s' & H). by exists s, s'.
Qed.

(** The state right after the sort of [rows]. *)
Definition just_sorted (ra : bool) (bnd : option Z) rows s : Prop :=
  (exists out D, sorted_memory keys ra bnd s out D (heap_tuple heap_getattr keys <$> rows)) \/ sorted_tapes keys ra s (heap_tuple heap_getattr keys <$> rows).

Lemma sort_outer_ok fuel n : at_start (outerPlan n) -> Forall row_fits (plan_rows (outerPlan n)) -> length (plan_rows (outerPlan n)) < fuel ->
  (ss_bounded n = true -> (1 <= ss_bound n)%Z) ->
  exists s p, sort_plan fuel n = Ok (tt, set_done_with (set_tuplesortstate (Some s) (set_outerPlan p n))) /\ plan_rows p = plan_rows (outerPlan n) /\ chgParam p = false /\
    just_sorted (ss_randomAccess n) (needed n) (plan_rows (outerPlan n)) s.
Proof using Hk Hm.
  intros Hst Hr Hf Hb. destruct (plan_scan _ Hst) as (p & Hd & Hp & Hc). destruct (begin_node (ss_randomAccess n) (ss_bounded n) (ss_bound n) Hb) as (s & s1 & Hbeg & Hset & HI).
  pose proof (good_rows heap_getattr chunk_space overhead keys _ Hr) as Hg.
  assert (HR : needed n <> None -> ReverseLaws methods sort_functions) by (intros _; apply _).
  destruct (put_all_ok (SM := methods) sort_functions junk overhead (fun _ => eq_refl) keys (ss_randomAccess n) (needed n) Hk HR _ ltac:(eapply Forall_impl; [exact Hg|]; by intros ? (_ & _ & ?)) s1 [] (or_introl HI)) as (s2 & Hput & HLd).
  destruct (performsort_state (SM := methods) sort_functions keys (ss_randomAccess n) (needed n) Hk HR s2 _ HLd Hg) as (s3 & Hsort & Hres).
  exists s3, p. split_and!; [|done|done|done]. unfold sort_outer. rewrite mget_ok. change (node_methods heap_getattr chunk_space space) with methods. rewrite Hbeg, mput_ok.
  assert (Hset' : (if ss_bounded n then on_sort (tuplesort_set_bound (ss_bound n)) else mret tt) (set_tuplesortstate (Some s) n) = Ok (tt, set_tuplesortstate (Some s1) n)).
  { destruct (ss_bounded n); [unfold on_sort; cbn; by rewrite Hset|]. by injection Hset as <-. }
  rewrite (mbind_ok _ _ _ _ _ Hset').
  assert (Hload : load fuel (set_tuplesortstate (Some s1) n) = Ok (tt, set_tuplesortstate (Some s2) (set_outerPlan p n))) by (rewrite (load_ok _ fuel (set_tuplesortstate (Some s1) n) s1 p Hd Hf eq_refl); by rewrite Hput).
  rewrite (mbind_ok _ _ _ _ _ Hload).
  assert (Hps : on_sort tuplesort_performsort (set_tuplesortstate (Some s2) (set_outerPlan p n)) = Ok (tt, set_tuplesortstate (Some s3) (set_outerPlan p n))) by (unfold on_sort; cbn; by rewrite Hsort).
  by rewrite (mbind_ok _ _ _ _ _ Hps).
Qed.

(** ** Fetching from a sorted node *)

Lemma exec_done fuel fwd n s : sort_Done n = true -> tuplesortstate n = Some s ->
  exec fuel fwd n = match tuplesort_gettuple_common slave fwd s with Ok (o, s') => Ok (option_map (fun t => tuple t) o, set_tuplesortstate (Some s') n) | Err e => Err e end.
Proof.
  intros Hd Hs. unfold ExecSort. rewrite mget_ok, Hd, mret_ok. unfold mbind, M_bind, on_sort. rewrite Hs. change (node_methods heap_getattr chunk_space space) with methods.
  by destruct (tuplesort_gettuple_common slave fwd s) as [[o s']|e].
Qed.
(** The first fetch sorts. *)
Lemma exec_sorts fuel fwd n n' : sort_Done n = false -> sort_plan fuel n = Ok (tt, n') -> sort_Done n' = true -> exec fuel fwd n = exec fuel fwd n'.
Proof. intros Hd Hs Hd'. unfold ExecSort. rewrite !mget_ok, Hd, Hd', mret_ok. by rewrite (mbind_ok _ _ _ _ _ Hs). Qed.

Local Abbreviation row_of := (fun t : SortTuple MinimalTuple => tuple t).
Local Abbreviation rows_of out := (row_of <$> out).

Lemma row_of_norm (o o' : option (SortTuple MinimalTuple)) : option_map norm o = option_map norm o' -> option_map row_of o = option_map row_of o'.
Proof. destruct o as [[]|], o' as [[]|]; [|done..]. by intros [= -> _ _]. Qed.

(** One operation on a sorted node whose parameters have not changed. *)
Definition same_request n : Prop := sort_Done n = true /\ chgParam (outerPlan n) = false /\ ss_bounded n = bounded_Done n /\ ss_bound n = bound_Done n /\ ss_randomAccess n = true.

Lemma node_step_ok fuel n s out c op bnd : same_request n -> tuplesortstate n = Some s -> positioned keys bnd s out c -> (op = OpNext -> cu_pos c = length out -> end_ok slave bnd out) ->
  exists s', node_step heap_getattr chunk_space space junk work_mem keys slave fuel op n = Ok ((cursor_step (rows_of out) op c).1, set_tuplesortstate (Some s') n) /\
    positioned keys bnd s' out (cursor_step (rows_of out) op c).2.
Proof.
  intros (Hd & Hc & Hb1 & Hb2 & Hra) Hs Hpos Hend. destruct (positioned_step keys bnd slave s out c op Hpos Hend) as (r & s' & Hstep & Hr & Hpos'). apply row_of_norm in Hr.
  rewrite cursor_step_fmap. destruct (cursor_step out op c) as [r0 c'] eqn:Ec. cbn [fst snd] in *. exists s'. split; [|done].
  assert (Hlift : forall m : M tss unit, (m;; mret None) s = Ok (r, s') -> on_sort m n = Ok (tt, set_tuplesortstate (Some s') n)).
  { intros m H. unfold on_sort. rewrite Hs. unfold mbind, M_bind in H. destruct (m s) as [[[] s1]|e]; [|done]. by injection H as _ <-. }
  assert (Hnone : op <> OpNext -> op <> OpPrior -> option_map row_of r0 = None) by (intros; rewrite <- Hr; destruct c, op; try done; cbn in Ec; by injection Ec as <- _).
  destruct op; cbn [node_step scan_step] in *.
  - rewrite (exec_done fuel true n s Hd Hs), Hstep. by rewrite Hr.
  - rewrite (exec_done fuel false n s Hd Hs), Hstep. by rewrite Hr.
  - unfold ExecReScanSort. rewrite mbind_assoc, mget_ok, Hd, Hc, Hb1, Hb2, Hra, eqb_reflx, Z.eqb_refl. cbn [negb orb]. by rewrite (mbind_ok _ _ _ _ _ (Hlift _ Hstep)), Hnone.
  - unfold ExecSortMarkPos. rewrite mbind_assoc, mget_ok, Hd. by rewrite (mbind_ok _ _ _ _ _ (Hlift _ Hstep)), Hnone.
  - unfold ExecSortRestrPos. rewrite mbind_assoc, mget_ok, Hd. by rewrite (mbind_ok _ _ _ _ _ (Hlift _ Hstep)), Hnone.
Qed.

Lemma node_scan_ok fuel ops out bnd : end_ok slave bnd out -> forall n s c, same_request n -> tuplesortstate n = Some s -> positioned keys bnd s out c ->
  exists n', scan_node fuel ops n = Ok (cursor_scan (rows_of out) ops c, n').
Proof.
  intros Hend. induction ops as [|op ops IH]; intros n s c Hn Hs Hpos; cbn [node_scan cursor_scan]; [by exists n|].
  destruct (node_step_ok fuel n s out c op bnd Hn Hs Hpos (fun _ _ => Hend)) as (s' & Hstep & Hpos'). rewrite (mbind_ok _ _ _ _ _ Hstep).
  destruct (cursor_step (rows_of out) op c) as [r c']. cbn [fst snd] in *. destruct (IH (set_tuplesortstate (Some s') n) s' c' Hn eq_refl Hpos') as (n' & Hscan).
  rewrite (mbind_ok _ _ _ _ _ Hscan). by exists n'.
Qed.

(** Up to the first fetch nothing happens. *)
Lemma node_scan_start fuel ops out bnd n n' s : sort_Done n = false -> sort_plan fuel n = Ok (tt, n') -> same_request n' -> tuplesortstate n' = Some s ->
  end_ok slave bnd out -> positioned keys bnd s out cursor_start -> exists n'', scan_node fuel ops n = Ok (cursor_scan (rows_of out) ops cursor_start, n'').
Proof.
  intros Hd Hsort Hn' Hs Hend Hpos. induction ops as [|op ops (n'' & IH)]; [by exists n|].
  assert (Hfetch : forall fwd, op = (if fwd : bool then OpNext else OpPrior) -> exists n'', scan_node fuel (op :: ops) n = Ok (cursor_scan (rows_of out) (op :: ops) cursor_start, n'')).
  { intros fwd ->. destruct (node_scan_ok fuel ((if fwd then OpNext else OpPrior) :: ops) out bnd Hend n' s cursor_start Hn' Hs Hpos) as (m & Hm'). exists m. rewrite <- Hm'. cbn [node_scan].
    destruct Hn' as [Hd' _]. destruct fwd; cbn [node_step]; unfold mbind at 1 3, M_bind at 1 3; by rewrite (exec_sorts fuel _ n n' Hd Hsort Hd'). }
  destruct op; [by apply (Hfetch true)|by apply (Hfetch false)|..]; exists n''; cbn [node_scan node_step]; unfold ExecReScanSort, ExecSortMarkPos, ExecSortRestrPos; rewrite !mbind_assoc, mget_ok, Hd;
    by rewrite !mret_ok, (mbind_ok _ _ _ _ _ IH).
Qed.

(** ** Rounds under a limit *)

(** The result of sorting [rows] for the request [bnd]. *)
Definition sort_result (bnd : option Z) rows (out : list (SortTuple MinimalTuple)) : Prop :=
  exists D, keeps_rows heap_getattr keys (rows_of out) D rows /\ (D = [] \/ bnd = Some (Z.of_nat (length out))).

Lemma just_sorted_positioned bnd rows s : just_sorted true bnd rows s -> exists out, sort_result bnd rows out /\ positioned keys bnd s out cursor_start.
Proof.
  intros H. destruct (sorted_positioned keys bnd s _ H) as (out & D & Hpos & Hs & Hkeep & Hd). exists out. split; [|done]. exists (rows_of D). split.
  - by apply (keeps_to_rows heap_getattr chunk_space overhead keys 0).
  - destruct Hd as [->|(b & -> & <-)]; [by left|by right].
Qed.
Lemma just_sorted_reads ra bnd rows s : just_sorted ra bnd rows s ->
  exists out s', sort_result bnd rows out /\ reads slave out s s' /\ (end_ok slave bnd out -> ends slave s').
Proof using Hk.
  intros H. assert (Ho : exists out D, sorted_output keys bnd slave s out D (heap_tuple heap_getattr keys <$> rows)).
  { destruct H as [(out & D & H)|H]; [exists out, D; by apply (sorted_memory_output keys ra)|].
    destruct (sorted_tapes_output (SM := methods) sort_functions keys ra bnd Hk slave s _ H) as (out & Ho). by exists out, []. }
  destruct Ho as (out & D & [(s' & Hr & He) Hs Hkeep Hd]). exists out, s'. split_and!; [|done|done]. exists (rows_of D). split.
  - by apply (keeps_to_rows heap_getattr chunk_space overhead keys 0).
  - destruct Hd as [->|(b & -> & <-)]; [by left|by right].
Qed.

(** Fetching [j] rows forward, with random access and without. *)
Lemma fetch_positioned fuel bnd out j : forall n s c, same_request n -> tuplesortstate n = Some s -> positioned keys bnd s out c -> cu_pos c + j <= length out \/ end_ok slave bnd out ->
  exists s' c', scan_node fuel (replicate j OpNext) n = Ok (cursor_scan (rows_of out) (replicate j OpNext) c, set_tuplesortstate (Some s') n) /\ positioned keys bnd s' out c'.
Proof.
  induction j as [|j IH]; intros n s c Hn Hs Hpos Hj; cbn [replicate node_scan cursor_scan].
  { exists s, c. split; [|done]. destruct n. cbn in *. by subst. }
  destruct (node_step_ok fuel n s out c OpNext bnd Hn Hs Hpos) as (s1 & Hstep & Hpos1); [intros _ E; destruct Hj; [lia|done]|]. rewrite (mbind_ok _ _ _ _ _ Hstep).
  assert (Hj' : cu_pos (cursor_step (rows_of out) OpNext c).2 + j <= length out \/ end_ok slave bnd out).
  { destruct Hj as [Hj|]; [|by right]. left. destruct c as [pos eof mark meof]. cbn in *. destruct eof; [cbn; lia|]. destruct (rows_of out !! pos); cbn; lia. }
  destruct (IH (set_tuplesortstate (Some s1) n) s1 _ Hn eq_refl Hpos1 Hj') as (s' & c' & Hscan & Hpos'). rewrite (mbind_ok _ _ _ _ _ Hscan). exists s', c'. split; [|done].
  by destruct (cursor_step (rows_of out) OpNext c) as [r c1].
Qed.
Lemma fetch_reads fuel out : forall pre n s s', sort_Done n = true -> tuplesortstate n = Some s -> reads slave out s s' -> forall j, j <= length out \/ (j <= S (length out) /\ ends slave s') ->
  exists s1, scan_node fuel (replicate j OpNext) n = Ok (cursor_scan (rows_of (pre ++ out)) (replicate j OpNext) (mkCursor (length pre) false 0 false), set_tuplesortstate (Some s1) n).
Proof.
  induction out as [|x out IH]; intros pre n s s' Hd Hs Hr [|j] Hj; cbn [replicate node_scan cursor_scan node_step]; try (exists s; destruct n; cbn in *; by subst).
  - cbn in Hr. subst s'. destruct Hj as [Hj|[Hj (s1 & He)]]; [cbn in Hj; lia|]. cbn in Hj. assert (j = 0) as -> by lia. exists s1. unfold mbind at 1, M_bind at 1. rewrite (exec_done fuel true n s Hd Hs), He. cbn.
    rewrite app_nil_r, list_lookup_fmap, lookup_ge_None_2 by done. done.
  - destruct Hr as (s1 & He & Hr). unfold mbind at 1, M_bind at 1. rewrite (exec_done fuel true n s Hd Hs), He.
    destruct (IH (pre ++ [x]) (set_tuplesortstate (Some s1) n) s1 s' Hd eq_refl Hr j) as (s2 & Hscan); [cbn in Hj; destruct Hj as [|[? ?]]; [left; lia|right; split; [lia|done]]|].
    rewrite (mbind_ok _ _ _ _ _ Hscan). exists s2. rewrite <- app_assoc. cbn [app cursor_step]. rewrite list_lookup_fmap, list_lookup_middle by done. cbn. by rewrite length_app, Nat.add_comm.
Qed.

(** Between the rounds: the node is unsorted and the plan at its start, or sorted, and with random access it can be rewound. *)
Definition between n rows : Prop :=
  plan_rows (outerPlan n) = rows /\
  (sort_Done n = false -> at_start (outerPlan n)) /\
  (sort_Done n = true -> chgParam (outerPlan n) = false /\
    (ss_randomAccess n = true -> exists s out c, tuplesortstate n = Some s /\ sort_result (sort_bound (bounded_Done n) (bound_Done n)) rows out /\ positioned keys (sort_bound (bounded_Done n) (bound_Done n)) s out c)).
(** Before the fetches of a round. *)
Definition ready n rows : Prop :=
  plan_rows (outerPlan n) = rows /\
  ((sort_Done n = false /\ at_start (outerPlan n)) \/
   (same_request n /\ exists s out, tuplesortstate n = Some s /\ sort_result (needed n) rows out /\ positioned keys (needed n) s out cursor_start)).

Lemma rescan_resorts n : sort_Done n = true -> chgParam (outerPlan n) = false -> ~ same_request n -> ExecReScanSort n = Ok (tt, set_outerPlan (ExecReScan (outerPlan n)) (set_tuplesortstate None (set_sort_Done false n))).
Proof.
  intros Hd Hc Hn. unfold ExecReScanSort. rewrite mget_ok, Hd, Hc. cbn [orb]. destruct (_ || _) eqn:E; [cbn; by rewrite Hc|]. exfalso. apply Hn.
  apply orb_false_iff in E as [[E1 E2]%orb_false_iff E3]. apply negb_false_iff in E1, E2, E3. by apply eqb_prop in E1; apply Z.eqb_eq in E2.
Qed.

Lemma rescan_ready n rows : between n rows -> exists n', ExecReScanSort n = Ok (tt, n') /\ ready n' rows /\ ss_bounded n' = ss_bounded n /\ ss_bound n' = ss_bound n.
Proof.
  intros (Hrows & Hnot & Hdone). destruct (sort_Done n) eqn:Hd; [|exists n; split_and!; [unfold ExecReScanSort; by rewrite mget_ok, Hd|split; [done|left; split; [done|by apply Hnot]]|done|done]].
  destruct (Hdone eq_refl) as [Hc Hra]. destruct (decide (ss_bounded n = bounded_Done n /\ ss_bound n = bound_Done n /\ ss_randomAccess n = true)) as [(E1 & E2 & E3)|Hno].
  - destruct (Hra E3) as (s & out & c & Hs & Hres & Hpos). assert (Hn : same_request n) by done.
    destruct (node_step_ok 0 n s out c OpRescan (needed n) Hn Hs) as (s' & Hstep & Hpos'); [unfold needed; by rewrite E1, E2|done|].
    exists (set_tuplesortstate (Some s') n). destruct c as [pos eof mark meof]. cbn [node_step cursor_step fst snd] in Hstep, Hpos'. unfold mbind, M_bind in Hstep. destruct (ExecReScanSort n) as [[[] n']|e]; [|done]. injection Hstep as ->.
    split; [done|]. split; [|done]. split; [done|]. right. split; [done|]. exists s', out. split_and!; [done| |]; [unfold needed; cbn; by rewrite E1, E2|]. exact Hpos'.
  - rewrite rescan_resorts; [|done|done|intros (_ & _ & ? & ? & ?); by apply Hno]. eexists. split; [reflexivity|]. destruct (plan_rescan (outerPlan n)) as [Hst Hpr].
    split; [|done]. split; [by rewrite <- Hrows|]. by left.
Qed.
Lemma rescan_changed n : chgParam (outerPlan n) = true -> at_start (outerPlan n) ->
  exists n', ExecReScanSort n = Ok (tt, n') /\ ready n' (plan_rows (outerPlan n)) /\ ss_bounded n' = ss_bounded n /\ ss_bound n' = ss_bound n.
Proof.
  intros Hc Hst. unfold ExecReScanSort. rewrite mget_ok, Hc. destruct (sort_Done n) eqn:Hd; cbn [orb]; [cbn; rewrite Hc|]; eexists; (split; [reflexivity|]); (split; [|done]); split; [done|by left|done|by left].
Qed.

Lemma fetch_round fuel n rows j : ready n rows -> Forall row_fits rows -> length rows < fuel -> 1 <= j <= S (length rows) ->
  (ss_bounded n = true -> (1 <= ss_bound n)%Z /\ (Z.of_nat j <= ss_bound n)%Z) ->
  exists n' out, scan_node fuel (replicate j OpNext) n = Ok (cursor_scan (rows_of out) (replicate j OpNext) cursor_start, n') /\ sort_result (needed n) rows out /\ between n' rows.
Proof using Hk Hm.
  intros (Hrows & Hn) Hfit Hf Hj Hb.
  assert (Hend : forall out, sort_result (needed n) rows out -> j <= length out \/ (j <= S (length out) /\ end_ok slave (needed n) out)).
  { intros out (D & (Hp & _) & Hd). destruct (decide (j <= length out)) as [|Hgt]; [by left|right]. apply Permutation_length in Hp. rewrite length_app, length_fmap in Hp. split.
    - destruct Hd as [->|Hd]; [cbn in Hp; lia|]. unfold needed, sort_bound in Hd. destruct (ss_bounded n) eqn:Eb; [|done]. destruct (_ <? _)%Z; [done|]. injection Hd as Hd. destruct (Hb eq_refl). lia.
    - right. intros b E. unfold needed, sort_bound in E. destruct (ss_bounded n); [|done]. destruct (_ <? _)%Z; [done|]. injection E as <-. destruct (Hb eq_refl). lia. }
  assert (Hpos : forall n s out, same_request n -> plan_rows (outerPlan n) = rows -> tuplesortstate n = Some s -> sort_result (needed n) rows out -> positioned keys (needed n) s out cursor_start ->
    j <= length out \/ end_ok slave (needed n) out ->
    exists n', scan_node fuel (replicate j OpNext) n = Ok (cursor_scan (rows_of out) (replicate j OpNext) cursor_start, n') /\ between n' rows).
  { intros m s out Hm' Hr Hs Hres Hpos Hj'. destruct (fetch_positioned fuel (needed m) out j m s cursor_start Hm' Hs Hpos Hj') as (s' & c' & Hscan & Hpos'). eexists. split; [exact Hscan|].
    destruct Hm' as (Hd & Hc & E1 & E2 & E3). split; [done|]. split; [cbn; congruence|]. intros _. split; [done|]. intros _. exists s', out, c'. cbn. rewrite <- E1, <- E2. done. }
  destruct Hn as [[Hd Hst]|(Hsame & s & out & Hs & Hres & Hp)].
  - rewrite <- Hrows in Hfit, Hf. destruct (sort_outer_ok fuel n Hst Hfit Hf ltac:(intros E; by destruct (Hb E))) as (s & p & Hsort & Hpr & Hc & Hjs). rewrite Hrows in Hpr, Hjs.
    set (n1 := set_done_with (set_tuplesortstate (Some s) (set_outerPlan p n))) in *.
    assert (Hfirst : scan_node fuel (replicate j OpNext) n = scan_node fuel (replicate j OpNext) n1).
    { destruct j as [|j]; [lia|]. cbn [replicate node_scan node_step]. unfold mbind at 1 3, M_bind at 1 3. by rewrite (exec_sorts fuel _ n n1 Hd Hsort eq_refl). }
    rewrite Hfirst. destruct (ss_randomAccess n) eqn:Era.
    + destruct (just_sorted_positioned (needed n) rows s Hjs) as (out & Hres & Hp). destruct (Hpos n1 s out) as (n' & Hscan & Hbt); try done; [destruct (Hend out Hres) as [|[_ ?]]; [by left|by right]|]. by exists n', out.
    + destruct (just_sorted_reads false (needed n) rows s Hjs) as (out & s' & Hres & Hr & He). 
      destruct (fetch_reads fuel out [] n1 s s' eq_refl eq_refl Hr j) as (s1 & Hscan); [destruct (Hend out Hres) as [|[? ?]]; [by left|right; split; [done|by apply He]]|].
      exists (set_tuplesortstate (Some s1) n1), out. split; [exact Hscan|]. split; [done|]. split; [done|]. split; [done|]. intros _. split; [done|]. cbn. congruence.
  - destruct (Hpos n s out) as (n' & Hscan & Hbt); try done; [destruct (Hend out Hres) as [|[_ ?]]; [by left|by right]|]. by exists n', out.
Qed.

(** The rows in force in a round, what the round may ask for, and what it gets. *)
Definition round_rows rows (r : round V) : list MinimalTuple := match rd_params r with Some v => query v | None => rows end.
Local Abbreviation round_needs r := (tuples_needed (rd_noCount r) (rd_count r) (rd_offset r)).
Definition round_ok rows (r : round V) : Prop :=
  rd_fetches r <= S (length rows) /\ match round_needs r with Some b => rd_fetches r = 0 \/ (1 <= b /\ Z.of_nat (rd_fetches r) <= b)%Z | None => True end.
Definition round_answer rows (r : round V) (a : list (option MinimalTuple)) : Prop :=
  (rd_fetches r = 0 /\ a = []) \/
  exists out rest, keeps_rows heap_getattr keys out rest rows /\ (rest = [] \/ round_needs r = Some (Z.of_nat (length out))) /\
    a = cursor_scan out (replicate (rd_fetches r) OpNext) cursor_start.

Lemma run_round_ok fuel n rows r : between n rows -> Forall row_fits (round_rows rows r) -> length (round_rows rows r) < fuel -> round_ok (round_rows rows r) r ->
  exists a n', run_round heap_getattr chunk_space space junk work_mem keys slave fuel r n = Ok (a, n') /\ round_answer (round_rows rows r) r a /\ between n' (round_rows rows r).
Proof using Hk Hm.
  intros Hn Hfit Hf (Hj & Hb). unfold run_round. rewrite !mmod_ok. set (n1 := match rd_params r with Some _ => _ | None => _ end). set (n2 := recompute_limits _ _ _ n1).
  assert (Hre : exists n3, ExecReScanSort n2 = Ok (tt, n3) /\ ready n3 (round_rows rows r) /\ ss_bounded n3 = ss_bounded n2 /\ ss_bound n3 = ss_bound n2).
  { assert (Ep : outerPlan n2 = outerPlan n1) by (unfold n2, recompute_limits, set_needed; by destruct (tuples_needed _ _ _)). unfold round_rows, n1 in *. destruct (rd_params r) as [v|].
    - destruct (plan_params v (outerPlan n)) as (Q1 & Q2 & Q3). rewrite <- Q2. cbn in Ep. rewrite <- Ep in Q1, Q3. destruct (rescan_changed n2 Q3 Q1) as (n3 & E). exists n3. by rewrite <- Ep.
    - apply rescan_ready. destruct Hn as (R1 & R2 & R3). unfold n2, recompute_limits, set_needed. by destruct (tuples_needed _ _ _). }
  destruct Hre as (n3 & Hrun & Hready & Eb1 & Eb2). rewrite (mbind_ok _ _ _ _ _ Hrun).
  assert (Hneed : (ss_bounded n3 = false /\ round_needs r = None) \/ (ss_bounded n3 = true /\ round_needs r = Some (ss_bound n3))).
  { rewrite Eb1, Eb2. unfold n2, recompute_limits, set_needed. destruct (tuples_needed _ _ _); [by right|by left]. }
  destruct (decide (rd_fetches r = 0)) as [E0|E0].
  - rewrite E0. exists [], n3. split; [done|]. split; [by left|]. destruct Hready as (R1 & [[R2 R3]|((R2 & R3 & R4 & R5 & R6) & s & out & R7 & R8 & R9)]).
    + split; [done|]. split; [done|]. congruence.
    + split; [done|]. split; [congruence|]. intros _. split; [done|]. intros _. exists s, out, cursor_start. unfold needed in R8, R9. by rewrite R4, R5 in R8, R9.
  - destruct (fetch_round fuel n3 (round_rows rows r) (rd_fetches r) Hready Hfit Hf ltac:(lia)) as (n' & out & Hscan & (D & Hkeep & Hd) & Hbt).
    { intros E. destruct Hneed as [[E' _]|[_ E']]; [congruence|]. rewrite E' in Hb. destruct Hb as [|Hb]; [done|lia]. }
    eexists _, n'. split; [exact Hscan|]. split; [|done]. right. exists (rows_of out), D. split_and!; [done| |done]. rewrite length_fmap. destruct Hd as [|Hd]; [by left|right]. rewrite <- Hd.
    unfold needed, sort_bound in *. destruct Hneed as [[E ->]|[E ->]]; rewrite E in *; [done|]. by destruct (_ <? _)%Z.
Qed.

Fixpoint rounds_ok (fuel : nat) rows (rs : list (round V)) : Prop :=
  match rs with
  | [] => True
  | r :: rs => let rows := round_rows rows r in Forall row_fits rows /\ length rows < fuel /\ round_ok rows r /\ rounds_ok fuel rows rs
  end.
Fixpoint rounds_answer rows (rs : list (round V)) (answers : list (list (option MinimalTuple))) : Prop :=
  match rs, answers with
  | [], [] => True
  | r :: rs, a :: answers => let rows := round_rows rows r in round_answer rows r a /\ rounds_answer rows rs answers
  | _, _ => False
  end.

Lemma run_rounds_ok fuel rs : forall n rows, between n rows -> rounds_ok fuel rows rs ->
  exists answers n', run_rounds heap_getattr chunk_space space junk work_mem keys slave fuel rs n = Ok (answers, n') /\ rounds_answer rows rs answers.
Proof using Hk Hm.
  induction rs as [|r rs IH]; intros n rows Hn Hok; cbn [run_rounds]; [by exists [], n|]. destruct Hok as (H1 & H2 & H3 & H4).
  destruct (run_round_ok fuel n rows r Hn H1 H2 H3) as (a & n1 & Hrun & Ha & Hn1). rewrite (mbind_ok _ _ _ _ _ Hrun).
  destruct (IH n1 _ Hn1 H4) as (l & n2 & Hrest & Hl). rewrite (mbind_ok _ _ _ _ _ Hrest). by exists (a :: l), n2.
Qed.

(** ** A node with random access as a cursor *)

Lemma node_cursor fuel ops n : sort_Done n = false -> at_start (outerPlan n) -> ss_bounded n = false -> ss_randomAccess n = true ->
  Forall row_fits (plan_rows (outerPlan n)) -> length (plan_rows (outerPlan n)) < fuel ->
  exists out n', scan_node fuel ops n = Ok (cursor_scan out ops cursor_start, n') /\ out ≡ₚ plan_rows (outerPlan n) /\ sorted (row_cmp heap_getattr keys) out.
Proof using Hk Hm.
  intros Hd Hst Hb Hra Hfit Hf. destruct (sort_outer_ok fuel n Hst Hfit Hf ltac:(congruence)) as (s & p & Hsort & Hpr & Hc & Hjs). rewrite Hra in Hjs.
  destruct (just_sorted_positioned _ _ _ Hjs) as (out & (D & (Hp & Hs & _) & HD) & Hpos). assert (Hneed : needed n = None) by (unfold needed, sort_bound; by rewrite Hb). rewrite Hneed in *.
  destruct HD as [->|]; [|done]. rewrite app_nil_r in Hp.
  destruct (node_scan_start fuel ops out None n _ s Hd Hsort) as (n' & Hscan); [by split_and!|done|right; by intros b|done|]. by exists (rows_of out), n'.
Qed.
End proofs.

(** ** Properties *)

(** C15: A sort node without workers and with random access is a cursor.  Initialised for rewinding, scanning backward or marking, and without a limit, any sequence of
    fetches in both directions, marks, restores and rescans answers as a cursor over the rows of the subplan in order does; calls before the
    first fetch, which sorts, do nothing. *)
Theorem sort_node_cursor {P V} `{!OuterPlan P} `{!OuterPlanLaws P V} ExecInitNode heap_getattr chunk_space overhead junk work_mem keys slave eflags ops fuel :
  let n := ExecInitSort (P := P) ExecInitNode eflags in
  let rows := plan_rows (outerPlan n) in
  sort_functions keys -> memory_ok overhead work_mem -> Forall row_fits rows -> length rows < fuel -> at_start (outerPlan n) ->
  Z.land eflags (Z.lor EXEC_FLAG_REWIND (Z.lor EXEC_FLAG_BACKWARD EXEC_FLAG_MARK)) <> 0%Z ->
  exists out n', node_scan heap_getattr chunk_space (fun n => (24 * Z.of_nat n + overhead)%Z) junk work_mem keys slave fuel ops n = Ok (cursor_scan out ops cursor_start, n') /\
    out ≡ₚ rows /\ sorted (row_cmp heap_getattr keys) out.
Proof.
  intros n rows Hk Hm Hr Hf Hst Hra. apply (node_cursor heap_getattr chunk_space overhead junk work_mem keys slave Hk Hm); try done. cbn. by apply negb_true_iff, Z.eqb_neq.
Qed.

(** C14: Scanning a sort node without workers again.  Before each scan the parameters of the subplan may change and the limit node may ask for another number of
    rows, count plus offset, or for all of them, also when that sum overflows; then the node is rescanned and rows are fetched, at most
    as many as were asked for.  Each scan returns the rows of the subplan for the parameters in force then in order from the first on; of those it did not
    keep, none comes before one it returned.  This holds with random access, where an unchanged request rewinds the result of the last
    scan, and without, where the rows are sorted again. *)
Theorem sort_node_rescans {P V} `{!OuterPlan P} `{!OuterPlanLaws P V} ExecInitNode heap_getattr chunk_space overhead junk work_mem keys slave eflags fuel rounds :
  let n := ExecInitSort (P := P) ExecInitNode eflags in
  let rows := plan_rows (outerPlan n) in
  sort_functions keys -> memory_ok overhead work_mem -> at_start (outerPlan n) -> rounds_ok fuel rows rounds ->
  exists answers n', run_rounds heap_getattr chunk_space (fun n => (24 * Z.of_nat n + overhead)%Z) junk work_mem keys slave fuel rounds n = Ok (answers, n') /\
    rounds_answer heap_getattr keys rows rounds answers.
Proof. intros n rows Hk Hm Hst Hok. by apply (run_rounds_ok heap_getattr chunk_space overhead junk work_mem keys slave Hk Hm). Qed.

(** ** Witnesses *)

(** A subplan that returns the rows of a list, and new rows as its parameter. *)
Record list_plan := mkListPlan { lp_all : list MinimalTuple; lp_left : list MinimalTuple; lp_changed : bool }.
#[export] Instance list_outer : OuterPlan list_plan := {|
  ExecProcNode p := match (if lp_changed p then lp_all p else lp_left p) with [] => (None, mkListPlan (lp_all p) [] false) | row :: rows => (Some row, mkListPlan (lp_all p) rows false) end;
  ExecReScan p := mkListPlan (lp_all p) (lp_all p) false;
  ExecEndNode p := mkListPlan (lp_all p) [] false;
  chgParam := lp_changed |}.
Lemma list_plan_delivers all rows : forall p, (if lp_changed p then lp_all p else lp_left p) = rows -> lp_all p = all -> delivers rows p (mkListPlan all [] false).
Proof.
  induction rows as [|row rows IH]; intros p E Ea; cbn; rewrite E, Ea; [done|]. eexists. split; [reflexivity|]. by apply IH.
Qed.
Definition list_plan_start (p : list_plan) : Prop := lp_changed p = true \/ lp_left p = lp_all p.
Definition list_plan_params (v : list MinimalTuple) (p : list_plan) : list_plan := mkListPlan v [] true.
Lemma list_plan_scan p : list_plan_start p -> exists p', delivers (lp_all p) p p' /\ lp_all p' = lp_all p /\ chgParam p' = false.
Proof.
  intros Hp. exists (mkListPlan (lp_all p) [] false). split; [|done]. apply list_plan_delivers; [|done]. by destruct Hp as [->| ->]; [|destruct (lp_changed p)].
Qed.
Lemma list_plan_rescan p : list_plan_start (ExecReScan p) /\ lp_all (ExecReScan p) = lp_all p.
Proof. split; [by right|done]. Qed.
Lemma list_plan_changed v p : list_plan_start (list_plan_params v p) /\ lp_all (list_plan_params v p) = v /\ chgParam (list_plan_params v p) = true.
Proof. split_and!; [by left|done|done]. Qed.
#[export] Instance list_outer_laws : OuterPlanLaws list_plan (list MinimalTuple) := {|
  plan_rows := lp_all; at_start := list_plan_start; set_params := list_plan_params; query v := v;
  plan_scan := list_plan_scan; plan_rescan := list_plan_rescan; plan_params := list_plan_changed |}.

Definition demo_init (eflags : Z) : list_plan := mkListPlan demo_table demo_table false.

Lemma sort_node_cursor_witness :
  exists n', node_scan demo_getattr demo_space (fun n => (24 * Z.of_nat n + 16)%Z) demo_junk 25 demo_keys false 20 (OpMark :: OpRescan :: demo_ops) (ExecInitSort demo_init EXEC_FLAG_BACKWARD) =
    Ok (None :: None :: demo_answers, n').
Proof.
  destruct (sort_node_cursor (V := list MinimalTuple) demo_init demo_getattr demo_space 16 demo_junk 25 demo_keys false EXEC_FLAG_BACKWARD (OpMark :: OpRescan :: demo_ops) 20 demo_keys_ok)
    as (out & n' & He & _); [vm_compute; discriminate|by repeat constructor|cbn; lia|by right|done|].
  exists n'. rewrite He. f_equal. f_equal. apply (f_equal (fun r => match r with Ok (l, _) => l | Err _ => [] end)) in He. rewrite <- He. vm_compute. reflexivity.
Defined.

Definition demo_rounds : list (round (list MinimalTuple)) :=
  [mkRound None false 2 1 3; mkRound None false 2 1 2; mkRound (Some [[8; 8]; [9; 9]]%Z) true 0 0 3; mkRound None false (2 ^ 63 - 1) 1 1].

Lemma sort_node_rescans_witness :
  exists answers n', run_rounds demo_getattr demo_space (fun n => (24 * Z.of_nat n + 16)%Z) demo_junk 25 demo_keys false 20 demo_rounds (ExecInitSort demo_init 0) = Ok (answers, n') /\
    answers = [[Some [4; 9]; Some [9; 9]; Some [2; 7]]; [Some [4; 9]; Some [9; 9]]; [Some [9; 9]; Some [8; 8]; None]; [Some [9; 9]]]%Z.
Proof.
  destruct (sort_node_rescans demo_init demo_getattr demo_space 16 demo_junk 25 demo_keys false 0 20 demo_rounds demo_keys_ok) as (answers & n' & He & _);
    [vm_compute; discriminate|by right| |].
  { unfold demo_rounds. cbn [rounds_ok]. repeat (split; [by repeat constructor|split; [cbn; lia|split; [split; [cbn; lia|]|]]]); [..|exact I];
      first [exact I|right; split; vm_compute; discriminate]. }
  exists answers, n'. split; [exact He|]. apply (f_equal (fun r => match r with Ok (l, _) => l | Err _ => [] end)) in He. rewrite <- He. vm_compute. reflexivity.
Defined.
