(* ===== verification/Agreement.v ===== *)
(** * Agreement: sorts whose comparison may raise an error

    A sort whose comparison raises errors does what the sort with a comparison that never does would do, as long as the two
    comparisons answer the same, up to the first error: it then ends with that error.  This holds of every routine of
    tuplesort.c that compares, from the heap and the quicksort to the whole sort. *)

From S2P Require Import Prelude Order Compare Heap Qsort Tape LogTape Tuplesort InMemory.

(** ** The relation *)

Section agreement.
(** The errors in question. *)
Context (raises : error -> Prop).

(** The first outcome is the second, or an error. *)
Definition agree {A} (r1 r2 : res A) : Prop := r1 = r2 \/ exists e, r1 = Err e /\ raises e.
Definition magree {S A} (m1 m2 : M S A) : Prop := forall s, agree (m1 s) (m2 s).

Lemma agree_refl {A} (r : res A) : agree r r.
Proof. by left. Qed.
Lemma magree_refl {S A} (m : M S A) : magree m m.
Proof. intros s. apply agree_refl. Qed.
Lemma agree_bind {A B} (r1 r2 : res A) (f1 f2 : A -> res B) : agree r1 r2 -> (forall a, agree (f1 a) (f2 a)) -> agree (r1 ≫= f1) (r2 ≫= f2).
Proof. intros [->|(e & -> & He)] Hf; [|right; by exists e]. destruct r2 as [a|e]; [apply Hf|apply agree_refl]. Qed.
Lemma magree_bind {S A B} (m1 m2 : M S A) (f1 f2 : A -> M S B) : magree m1 m2 -> (forall a, magree (f1 a) (f2 a)) -> magree (m1 ≫= f1) (m2 ≫= f2).
Proof.
  intros Hm Hf s. unfold mbind, M_bind. destruct (Hm s) as [->|(e & -> & He)]; [|right; by exists e].
  destruct (m2 s) as [[a s']|e]; [apply Hf|apply agree_refl].
Qed.
Lemma magree_lift {T K A} (r1 r2 : res A) : agree r1 r2 -> magree (lift_res (T := T) (K := K) r1) (lift_res r2).
Proof. intros [->|(e & -> & He)] s; [apply agree_refl|]. right. by exists e. Qed.
End agreement.

(** One step through two computations of the same form. *)
Ltac agree_step :=
  lazymatch goal with
  | |- forall _, _ => intros ?
  | |- magree _ (match ?x with _ => _ end) _ => destruct x
  | |- agree _ (match ?x with _ => _ end) _ => destruct x
  | |- magree _ (?f ≫= ?g) _ => first [solve [auto with agree] | apply magree_bind]
  | |- agree _ (?f ≫= ?g) _ => first [solve [auto with agree] | apply agree_bind]
  | |- _ => first [solve [auto with agree] | apply magree_refl | apply agree_refl]
  end.
Ltac agreement := repeat agree_step.
Create HintDb agree.
#[export] Hint Resolve magree_lift : agree.

(** ** Heap and quicksort *)

Section algorithms.
Context (raises : error -> Prop) {A : Type} (cmp1 cmp2 : A -> A -> res Z) (Hcmp : forall x y, agree raises (cmp1 x y) (cmp2 x y)).
Local Hint Resolve Hcmp : agree.

Lemma insert_loop_agree fuel : forall l j t, agree raises (insert_loop cmp1 fuel l j t) (insert_loop cmp2 fuel l j t).
Proof using Hcmp. induction fuel as [|f IH]; intros l [|j] t; cbn [insert_loop]; agreement. Qed.
Local Hint Resolve insert_loop_agree : agree.
Lemma heap_insert_agree l n t : agree raises (heap_insert cmp1 l n t) (heap_insert cmp2 l n t).
Proof using Hcmp. unfold heap_insert. agreement. Qed.
Lemma siftup_loop_agree fuel : forall l n i t, agree raises (siftup_loop cmp1 fuel l n i t) (siftup_loop cmp2 fuel l n i t).
Proof using Hcmp. induction fuel as [|f IH]; intros l n i t; cbn [siftup_loop]; agreement. Qed.
Local Hint Resolve siftup_loop_agree : agree.
Lemma heap_siftup_agree l n : agree raises (heap_siftup cmp1 l n) (heap_siftup cmp2 l n).
Proof using Hcmp. unfold heap_siftup. agreement. Qed.

Lemma cmp_at_agree l i j : agree raises (cmp_at cmp1 l i j) (cmp_at cmp2 l i j).
Proof using Hcmp. unfold cmp_at. agreement. Qed.
Local Hint Resolve cmp_at_agree : agree.
Lemma med3_agree l a b c : agree raises (med3 cmp1 l a b c) (med3 cmp2 l a b c).
Proof using Hcmp. unfold med3. agreement. Qed.
Local Hint Resolve med3_agree : agree.
Lemma insertion_inner_agree pl : forall l, agree raises (insertion_inner cmp1 l pl) (insertion_inner cmp2 l pl).
Proof using Hcmp. induction pl as [|pl IH]; intros l; cbn [insertion_inner]; agreement. Qed.
Local Hint Resolve insertion_inner_agree : agree.
Lemma insertion_outer_agree k : forall l pm, agree raises (insertion_outer cmp1 k l pm) (insertion_outer cmp2 k l pm).
Proof using Hcmp. induction k as [|k IH]; intros l pm; cbn [insertion_outer]; agreement. Qed.
Lemma presorted_agree k : forall l pm, agree raises (presorted_from cmp1 k l pm) (presorted_from cmp2 k l pm).
Proof using Hcmp. induction k as [|k IH]; intros l pm; cbn [presorted_from]; agreement. Qed.
Lemma choose_pivot_agree ih l n : agree raises (choose_pivot cmp1 ih l n) (choose_pivot cmp2 ih l n).
Proof using Hcmp. unfold choose_pivot. cbv zeta. agreement. Qed.
Lemma scan_left_agree fuel : forall l pa pb pc, agree raises (scan_left cmp1 fuel l pa pb pc) (scan_left cmp2 fuel l pa pb pc).
Proof using Hcmp. induction fuel as [|f IH]; intros l pa pb pc; cbn [scan_left]; agreement. Qed.
Lemma scan_right_agree fuel : forall l pb pc pd, agree raises (scan_right cmp1 fuel l pb pc pd) (scan_right cmp2 fuel l pb pc pd).
Proof using Hcmp. induction fuel as [|f IH]; intros l pb pc pd; cbn [scan_right]; agreement. Qed.
Local Hint Resolve insertion_outer_agree presorted_agree choose_pivot_agree scan_left_agree scan_right_agree : agree.
Lemma partition_loop_agree fuel : forall l pa pb pc pd, agree raises (partition_loop cmp1 fuel l pa pb pc pd) (partition_loop cmp2 fuel l pa pb pc pd).
Proof using Hcmp. induction fuel as [|f IH]; intros l pa pb pc pd; cbn [partition_loop]; agreement. Qed.
Local Hint Resolve partition_loop_agree : agree.
Lemma partition_agree ih l : agree raises (partition cmp1 ih l) (partition cmp2 ih l).
Proof using Hcmp. unfold partition. cbv zeta. agreement. Qed.
Local Hint Resolve partition_agree : agree.
Lemma qsort_fuel_agree ih fuel : forall l, agree raises (qsort_fuel cmp1 ih fuel l) (qsort_fuel cmp2 ih fuel l).
Proof using Hcmp. induction fuel as [|f IH]; intros l; cbn [qsort_fuel]; cbv zeta; agreement. Qed.
Lemma qsort_arg_agree es l : agree raises (qsort_arg es cmp1 l) (qsort_arg es cmp2 l).
Proof using Hcmp. apply qsort_fuel_agree. Qed.
End algorithms.

(** ** The routines of a sort *)

Section sorts.
Context {T K : Type} (SM : SortMethods T K) (order : K -> SortTuple T -> SortTuple T -> Z) (err : K -> SortTuple T -> SortTuple T -> option error).

(** The same sort with another comparison. *)
Definition with_order : SortMethods T K := {|
  comparetup := order;
  comparetup_error := err;
  reversedirection := reversedirection;
  reversedirection_error := reversedirection_error;
  GetMemoryChunkSpace := GetMemoryChunkSpace;
  tuple_body := tuple_body;
  tuple_of_body := tuple_of_body;
  array_space := array_space |}.

(** The two comparisons answer the same, unless the first raises one of the errors [raises]. *)
Context (raises : error -> Prop) (Hcmp : forall k a b, agree raises (comparetup_result (SM := SM) k a b) (comparetup_result (SM := with_order) k a b)).
Context (junk : SortTuple T).
Local Notation "m1 ~ m2" := (magree raises m1 m2) (at level 70).
Local Abbreviation S1 := SM.
Local Abbreviation S2 := with_order.
Local Hint Resolve Hcmp : agree.

Lemma heapcompare_agree k ci a b : agree raises (HEAPCOMPARE (SM := S1) k ci a b) (HEAPCOMPARE (SM := S2) k ci a b).
Proof using Hcmp. unfold HEAPCOMPARE. agreement. Qed.
Lemma COMPARETUP_agree s a b : COMPARETUP (SM := S1) s a b ~ COMPARETUP (SM := S2) s a b.
Proof using Hcmp. unfold COMPARETUP. agreement. Qed.
Lemma heap_insert_state_agree t i ci : tuplesort_heap_insert (SM := S1) t i ci ~ tuplesort_heap_insert (SM := S2) t i ci.
Proof using Hcmp.
  unfold tuplesort_heap_insert. pose proof heapcompare_agree as Hc. agreement. apply magree_lift, heap_insert_agree. intros. apply Hc.
Qed.
Lemma heap_siftup_state_agree ci : tuplesort_heap_siftup (SM := S1) ci ~ tuplesort_heap_siftup (SM := S2) ci.
Proof using Hcmp.
  unfold tuplesort_heap_siftup. agreement. apply magree_lift, heap_siftup_agree. intros. apply heapcompare_agree.
Qed.
Local Hint Resolve COMPARETUP_agree heap_insert_state_agree heap_siftup_state_agree : agree.

Lemma bounded_loop_agree k : forall i, bounded_loop (SM := S1) k i ~ bounded_loop (SM := S2) k i.
Proof using Hcmp. induction k as [|k IH]; intros i; cbn [bounded_loop]; agreement. Qed.
Lemma unheapify_agree k : unheapify (SM := S1) k ~ unheapify (SM := S2) k.
Proof using Hcmp. induction k as [|k IH]; cbn [unheapify]; agreement. Qed.
Local Hint Resolve bounded_loop_agree unheapify_agree : agree.
Lemma make_bounded_heap_agree : make_bounded_heap (SM := S1) ~ make_bounded_heap (SM := S2).
Proof using Hcmp. unfold make_bounded_heap. cbv zeta. agreement. Qed.
Lemma sort_bounded_heap_agree : sort_bounded_heap (SM := S1) ~ sort_bounded_heap (SM := S2).
Proof using Hcmp. unfold sort_bounded_heap. cbv zeta. agreement. Qed.

Lemma heapify_loop_agree k : forall j, heapify_loop (SM := S1) k j ~ heapify_loop (SM := S2) k j.
Proof using Hcmp. induction k as [|k IH]; intros j; cbn [heapify_loop]; agreement. Qed.
Local Hint Resolve make_bounded_heap_agree sort_bounded_heap_agree heapify_loop_agree : agree.
Lemma inittapes_agree : inittapes (SM := S1) ~ inittapes (SM := S2).
Proof using Hcmp. unfold inittapes. cbv zeta. agreement. Qed.
Lemma dumptuples_loop_agree fuel all : dumptuples_loop (SM := S1) fuel all ~ dumptuples_loop (SM := S2) fuel all.
Proof using Hcmp. induction fuel as [|fuel IH]; cbn [dumptuples_loop]; cbv zeta; agreement. Qed.
Local Hint Resolve dumptuples_loop_agree : agree.
Lemma dumptuples_agree all : dumptuples (SM := S1) all ~ dumptuples (SM := S2) all.
Proof using Hcmp. unfold dumptuples. agreement. Qed.

Lemma for_tapes_agree (b1 b2 : nat -> M (Tuplesortstate T K) unit) k : (forall j, b1 j ~ b2 j) -> forall j, for_tapes k j b1 ~ for_tapes k j b2.
Proof using. intros Hb. induction k as [|k IH]; intros j; cbn [for_tapes]; agreement. Qed.
Lemma pull_preread_agree i j : pull_preread (SM := S1) i j ~ pull_preread (SM := S2) i j.
Proof using Hcmp. unfold pull_preread. cbv zeta. agreement. Qed.
Local Hint Resolve inittapes_agree dumptuples_agree for_tapes_agree pull_preread_agree : agree.
Lemma load_heap_agree i : load_heap (SM := S1) i ~ load_heap (SM := S2) i.
Proof using Hcmp. unfold load_heap. agreement. Qed.
Local Hint Resolve load_heap_agree : agree.
Lemma beginmerge_agree : beginmerge (SM := S1) ~ beginmerge (SM := S2).
Proof using Hcmp. unfold beginmerge. cbv zeta. agreement. Qed.
Lemma mergeonerun_loop_agree fuel dest : mergeonerun_loop (SM := S1) fuel dest ~ mergeonerun_loop (SM := S2) fuel dest.
Proof using Hcmp. induction fuel as [|fuel IH]; cbn [mergeonerun_loop]; cbv zeta; agreement. Qed.
Local Hint Resolve beginmerge_agree mergeonerun_loop_agree : agree.
Lemma mergeonerun_agree : mergeonerun (SM := S1) ~ mergeonerun (SM := S2).
Proof using Hcmp. unfold mergeonerun. cbv zeta. agreement. Qed.
Local Hint Resolve mergeonerun_agree : agree.
Lemma merge_level_agree fuel : merge_level (SM := S1) fuel ~ merge_level (SM := S2) fuel.
Proof using Hcmp. induction fuel as [|fuel IH]; cbn [merge_level]; cbv zeta; agreement. Qed.
Local Hint Resolve merge_level_agree : agree.
Lemma mergeruns_loop_agree fuel : mergeruns_loop (SM := S1) fuel ~ mergeruns_loop (SM := S2) fuel.
Proof using Hcmp. induction fuel as [|fuel IH]; cbn [mergeruns_loop]; cbv zeta; agreement. Qed.
Local Hint Resolve mergeruns_loop_agree : agree.
Lemma mergeruns_agree : mergeruns (SM := S1) ~ mergeruns (SM := S2).
Proof using Hcmp. unfold mergeruns. agreement. Qed.

Lemma puttuple_agree x : puttuple (SM := S1) junk x ~ puttuple (SM := S2) junk x.
Proof using Hcmp. unfold puttuple, puttuple_common, put_initial, put_bounded, put_buildruns. cbv zeta. agreement. Qed.
Local Hint Resolve mergeruns_agree puttuple_agree : agree.
Lemma put_all_agree ts : put_all (SM := S1) junk ts ~ put_all (SM := S2) junk ts.
Proof using Hcmp. induction ts as [|x ts IH]; cbn [put_all]; agreement. Qed.
Lemma performsort_agree : tuplesort_performsort (SM := S1) ~ tuplesort_performsort (SM := S2).
Proof using Hcmp. unfold tuplesort_performsort. agreement. apply magree_lift, qsort_arg_agree. apply Hcmp. Qed.
Lemma gettuple_agree slave fwd : tuplesort_gettuple_common (SM := S1) slave fwd ~ tuplesort_gettuple_common (SM := S2) slave fwd.
Proof using Hcmp. unfold tuplesort_gettuple_common, get_finalmerge. cbv zeta. agreement. Qed.
Local Hint Resolve put_all_agree performsort_agree gettuple_agree : agree.
Lemma get_all_agree slave n : get_all (SM := S1) slave n ~ get_all (SM := S2) slave n.
Proof using Hcmp. induction n as [|n IH]; cbn [get_all]; agreement. Qed.
Local Hint Resolve get_all_agree : agree.

(** The whole sort ends as the sort without errors, or with an error of the comparison. *)
Lemma sort_run_agree workMem ra keys bnd ts slave calls :
  agree raises (sort_run (SM := S1) junk workMem ra keys bnd ts slave calls) (sort_run (SM := S2) junk workMem ra keys bnd ts slave calls).
Proof using Hcmp.
  unfold sort_run. change (tuplesort_begin_common (SM := S2)) with (tuplesort_begin_common (SM := S1)).
  destruct (tuplesort_begin_common junk workMem ra keys) as [s|e]; [|apply agree_refl].
  assert (H : ((match bnd with Some b => tuplesort_set_bound b | None => mret tt end);; put_all (SM := S1) junk ts;; tuplesort_performsort (SM := S1);; get_all (SM := S1) slave calls) ~
    ((match bnd with Some b => tuplesort_set_bound b | None => mret tt end);; put_all (SM := S2) junk ts;; tuplesort_performsort (SM := S2);; get_all (SM := S2) slave calls)) by agreement.
  destruct (H s) as [->|(e & -> & He)]; [apply agree_refl|]. right. by exists e.
Qed.
End sorts.
