(* ===== verification/IndexSort.v ===== *)
(** * IndexSort: sorts of index tuples (src/backend/utils/sort/tuplesort.c)

    The methods of a sort that builds a btree or a hash index: copytup_index, writetup_index and readtup_index with the comparisons of
    Compare, and what follows for such sorts from SortRun.  A btree sort may have to enforce uniqueness, and does so in the comparison;
    that no duplicate slips through, whatever the way the sort takes, follows from Agreement. *)

From S2P Require Import Prelude Order Compare Heap Qsort Tape LogTape Tuplesort InMemory RunTapes Polyphase BuildRuns MergeRuns MergePasses External SortRun Agreement.
From Stdlib Require Import Permutation.

(** ** The methods *)

Section methods.
Variable index_getattr : IndexTuple -> Z -> Datum * bool.
Variable chunk_space : IndexTuple -> Z.
Variable space : nat -> Z.

(** What copytup_index makes of a tuple; readtup_index ends the same way. *)
Definition copytup_index (t : IndexTuple) : SortTuple IndexTuple :=
  let newtuple := take (IndexTupleSize t) t in
  let '(d, n) := index_getattr newtuple 1 in mkSortTuple newtuple d n 0.
(** The bytes writetup_index writes between the length words. *)
Definition writetup_index (stup : SortTuple IndexTuple) : list byte := take (IndexTupleSize (tuple stup)) (tuple stup).
Definition readtup_index (body : list byte) : SortTuple IndexTuple :=
  let '(d, n) := index_getattr body 1 in mkSortTuple body d n 0.

(** The order comparetup_index_btree sorts by: the key columns, then the heap item. *)
Definition btree_order (keys : list ScanKeyData) (a b : SortTuple IndexTuple) : Z :=
  let compare := fst (compare_index_keys index_getattr keys a b) in
  if decide (compare = 0%Z) then tid_order (tuple a) (tuple b) else compare.
Definition error_of {A} (r : res A) : option error := match r with Ok _ => None | Err e => Some e end.

(** What tuplesort_begin_index_btree installs. *)
Definition btree_methods (enforceUnique : bool) : SortMethods IndexTuple (list ScanKeyData) := {|
  comparetup := btree_order;
  comparetup_error keys a b := error_of (comparetup_index_btree index_getattr enforceUnique keys a b);
  reversedirection := reversedirection_index_btree;
  reversedirection_error _ := None;
  GetMemoryChunkSpace := chunk_space;
  tuple_body := writetup_index;
  tuple_of_body _ := readtup_index;
  array_space := space |}.

(** The order of comparetup_index_hash: the masked hash value, then the heap item. *)
Definition hash_key (hash_mask : Z) (a : SortTuple IndexTuple) : Z := Z.land (DatumGetUInt32 (datum1 a)) hash_mask.
Definition hash_order (hash_mask : Z) (a b : SortTuple IndexTuple) : Z :=
  if (hash_key hash_mask b <? hash_key hash_mask a)%Z then 1
  else if (hash_key hash_mask a <? hash_key hash_mask b)%Z then -1 else tid_order (tuple a) (tuple b).

(** What tuplesort_begin_index_hash installs; the description of the key is the mask. *)
Definition hash_methods : SortMethods IndexTuple Z := {|
  comparetup := hash_order;
  comparetup_error hash_mask a b := error_of (comparetup_index_hash hash_mask a b);
  reversedirection hash_mask := hash_mask;
  reversedirection_error _ := error_of reversedirection_index_hash;
  GetMemoryChunkSpace := chunk_space;
  tuple_body := writetup_index;
  tuple_of_body _ := readtup_index;
  array_space := space |}.
End methods.

(** ** Putting index tuples in and getting them out *)

Section api.
Context {K : Type} (SM : SortMethods IndexTuple K) (index_getattr : IndexTuple -> Z -> Datum * bool) (junk : SortTuple IndexTuple).
Local Abbreviation TM := (M (Tuplesortstate IndexTuple K)).

Definition tuplesort_putindextuple (t : IndexTuple) : TM unit := puttuple (SM := SM) junk (copytup_index index_getattr t).
Definition tuplesort_getindextuple (slave forward : bool) : TM (option IndexTuple) :=
  o ← tuplesort_gettuple_common (SM := SM) slave forward; mret (option_map (fun stup => tuple stup) o).

Fixpoint put_tuples (ts : list IndexTuple) : TM unit :=
  match ts with [] => mret tt | t :: ts' => tuplesort_putindextuple t;; put_tuples ts' end.
Fixpoint get_tuples (slave : bool) (n : nat) : TM (list IndexTuple) :=
  match n with
  | O => mret []
  | S n' => o ← tuplesort_getindextuple slave true; match o with None => mret [] | Some t => l ← get_tuples slave n'; mret (t :: l) end
  end.
(** The sort of an index build: begin, put, perform, and up to [calls] fetches. *)
Definition index_sort (workMem : Z) (ra : bool) (keys : K) (ts : list IndexTuple) (slave : bool) (calls : nat) : res (list IndexTuple) :=
  match tuplesort_begin_common (SM := SM) junk workMem ra keys with
  | Err e => Err e
  | Ok s => match (put_tuples ts;; tuplesort_performsort (SM := SM);; get_tuples slave calls) s with Ok (out, _) => Ok out | Err e => Err e end
  end.

Lemma put_tuples_all ts : put_tuples ts = put_all (SM := SM) junk (copytup_index index_getattr <$> ts).
Proof. induction ts as [|t ts IH]; [done|]. cbn [put_tuples]. by rewrite IH. Qed.
Lemma get_tuples_all slave n : forall s, get_tuples slave n s =
  match get_all (SM := SM) slave n s with Ok (out, s') => Ok ((fun stup => tuple stup) <$> out, s') | Err e => Err e end.
Proof.
  induction n as [|n IH]; intros s; [done|]. cbn [get_tuples get_all]. unfold tuplesort_getindextuple. rewrite mbind_assoc. unfold mbind, M_bind.
  destruct (tuplesort_gettuple_common slave true s) as [[[x|] s1]|e]; [|done|done]. cbn. unfold mbind, M_bind. rewrite IH.
  by destruct (get_all slave n s1) as [[out s2]|e].
Qed.
Lemma index_sort_run workMem ra keys ts slave calls : index_sort workMem ra keys ts slave calls =
  match sort_run (SM := SM) junk workMem ra keys None (copytup_index index_getattr <$> ts) slave calls with Ok out => Ok ((fun stup => tuple stup) <$> out) | Err e => Err e end.
Proof.
  unfold index_sort, sort_run. destruct (tuplesort_begin_common junk workMem ra keys) as [s|e]; [|done]. rewrite put_tuples_all. unfold mbind, M_bind, mret, M_ret.
  destruct (put_all junk _ s) as [[[] s1]|e]; [|done]. destruct (tuplesort_performsort s1) as [[[] s2]|e]; [|done]. rewrite get_tuples_all. by destruct (get_all slave calls s2) as [[out s3]|e].
Qed.
End api.

(** Calling the comparison through the methods is calling the routine. *)
Lemma btree_methods_compare index_getattr chunk_space space u keys a b :
  comparetup_result (SM := btree_methods index_getattr chunk_space space u) keys a b = comparetup_index_btree index_getattr u keys a b.
Proof.
  unfold comparetup_result. cbn. unfold comparetup_index_btree, btree_order.
  destruct (compare_index_keys index_getattr keys a b) as [c hn]. cbn [fst]. case_decide; [|done].
  destruct (u && negb hn && _); [done|]. unfold compare_tid. by destruct (_ || _).
Qed.
Lemma hash_methods_compare index_getattr chunk_space space mask a b :
  comparetup_result (SM := hash_methods index_getattr chunk_space space) mask a b = comparetup_index_hash mask a b.
Proof.
  unfold comparetup_result. cbn. unfold comparetup_index_hash, hash_order, hash_key. destruct (isnull1 a); [done|]. destruct (isnull1 b); [done|].
  destruct (_ <? _)%Z; [done|]. destruct (_ <? _)%Z; [done|]. unfold compare_tid. by destruct (_ || _).
Qed.

(** ** Laws *)

(** A tuple in memory: its size is that in its header, and it points to a heap item. *)
Definition index_tuple_ok (t : IndexTuple) : Prop := length t = IndexTupleSize t /\ it_pos t <> 0%Z.

Section laws.
Context (index_getattr : IndexTuple -> Z -> Datum * bool) (chunk_space : IndexTuple -> Z) (space : nat -> Z).
Local Abbreviation sorttuple := (SortTuple IndexTuple).

Lemma rest_laws keys : sort_functions keys -> forall nkey,
  CmpLaws (fun a b : IndexTuple => compare_values keys (rest_values index_getattr nkey (length keys) a) (rest_values index_getattr nkey (length keys) b)).
Proof.
  induction 1 as [|k keys Hk _ IH]; intros nkey; [exact const_laws|].
  apply (sgn_laws (lex (fun a b => apply_key k (index_getattr a nkey) (index_getattr b nkey))
    (fun a b => compare_values keys (rest_values index_getattr (nkey + 1) (length keys) a) (rest_values index_getattr (nkey + 1) (length keys) b)))).
  - apply lex_laws; [apply (proj_laws (fun a => index_getattr a nkey) (apply_key k))|apply IH].
  - intros a b. cbn [length]. rewrite !rest_values_S. cbn [compare_values]. done.
Qed.
Lemma keys_laws keys : sort_functions keys -> CmpLaws (fun a b : sorttuple => fst (compare_index_keys index_getattr keys a b)).
Proof.
  intros Hk. apply (sgn_laws (fun a b => compare_values keys (key_values index_getattr (length keys) a) (key_values index_getattr (length keys) b))).
  - destruct Hk as [|k keys Hk Hks]; [exact const_laws|].
    apply (@lex_laws _ (fun a b => apply_key k (datum1 a, isnull1 a) (datum1 b, isnull1 b))
      (fun a b : sorttuple => compare_values keys (rest_values index_getattr 2 (length keys) (tuple a)) (rest_values index_getattr 2 (length keys) (tuple b)))).
    + apply (proj_laws (fun a : sorttuple => (datum1 a, isnull1 a)) (apply_key k)).
    + apply (proj_laws (fun a : sorttuple => tuple a) _ (CmpLaws0 := rest_laws keys Hks 2)).
  - intros a b. by destruct (compare_index_keys_spec index_getattr keys a b) as [-> _].
Qed.
Lemma btree_order_laws keys : sort_functions keys -> CmpLaws (btree_order index_getattr keys).
Proof.
  intros Hk. apply (@lex_laws _ (fun a b => fst (compare_index_keys index_getattr keys a b)) (fun a b : sorttuple => tid_order (tuple a) (tuple b))).
  - by apply keys_laws.
  - apply (proj_laws (fun a : sorttuple => tuple a) tid_order (CmpLaws0 := tid_order_laws)).
Qed.
Lemma hash_order_laws mask : CmpLaws (hash_order mask).
Proof.
  apply (sgn_laws (lex (fun a b => hash_key mask a - hash_key mask b)%Z (fun a b : sorttuple => tid_order (tuple a) (tuple b)))).
  - apply lex_laws; [split; intros; lia|]. apply (proj_laws (fun a : sorttuple => tuple a) tid_order (CmpLaws0 := tid_order_laws)).
  - intros a b. unfold hash_order, lex. repeat case_match; lia.
Qed.
End laws.

(** The key columns of a tuple. *)
Definition index_values (index_getattr : IndexTuple -> Z -> Datum * bool) (keys : list ScanKeyData) (t : IndexTuple) : list (Datum * bool) :=
  rest_values index_getattr 1 (length keys) t.
(** Two tuples that a unique index cannot have both: equal keys without NULL. *)
Definition same_key (index_getattr : IndexTuple -> Z -> Datum * bool) (keys : list ScanKeyData) (a b : IndexTuple) : Prop :=
  compare_values keys (index_values index_getattr keys a) (index_values index_getattr keys b) = 0%Z /\ existsb snd (index_values index_getattr keys a) = false.

(** The sort tuples of [ts]. *)
Definition index_domain (index_getattr : IndexTuple -> Z -> Datum * bool) (ts : list IndexTuple) : Domain IndexTuple := fun x =>
  tuple x ∈ ts /\ (datum1 x, isnull1 x) = index_getattr (tuple x) 1%Z.

Section sorts.
Context (index_getattr : IndexTuple -> Z -> Datum * bool) (chunk_space : IndexTuple -> Z) (overhead : Z).
Context (ts : list IndexTuple) (Hts : Forall index_tuple_ok ts).
Local Abbreviation space := (fun n => (24 * Z.of_nat n + overhead)%Z).
Local Abbreviation sorttuple := (SortTuple IndexTuple).
#[local] Instance domain : Domain IndexTuple := index_domain index_getattr ts.
Local Abbreviation methods := (btree_methods index_getattr chunk_space space).

Lemma domain_ok x : in_domain x -> index_tuple_ok (tuple x).
Proof using Hts. intros [H _]. rewrite Forall_forall in Hts. by apply Hts. Qed.
Lemma domain_tid a b : in_domain a -> in_domain b -> compare_tid (tuple a) (tuple b) = Ok (tid_order (tuple a) (tuple b)).
Proof using Hts.
  intros Ha%domain_ok Hb%domain_ok. unfold compare_tid. destruct Ha as [_ Ha], Hb as [_ Hb]. apply Z.eqb_neq in Ha, Hb. by rewrite Ha, Hb.
Qed.
Lemma domain_values keys x : in_domain x -> key_values index_getattr (length keys) x = index_values index_getattr keys (tuple x).
Proof. intros [_ E]. unfold index_values. destruct keys as [|k keys]; [done|]. cbn [length key_values]. by rewrite rest_values_S, <- E. Qed.

(** Equal key columns have the same NULLs. *)
Lemma equal_nulls keys xs : forall ys, length xs = length keys -> length ys = length keys -> compare_values keys xs ys = 0%Z -> existsb snd xs = existsb snd ys.
Proof.
  revert xs. induction keys as [|k keys IH]; intros [|[x nx] xs] [|[y ny] ys] Hx Hy H; try done. cbn [compare_values] in H. cbn [existsb].
  destruct (decide _) as [E|E]; [|done]. f_equal; [|by apply IH; [injection Hx|injection Hy|]]. revert E. unfold apply_key, inlineApplySortFunction. cbn.
  destruct nx, ny; repeat case_match; done.
Qed.

(** The order with ties between keys without NULL broken the other way round. *)
Definition flipped_order (keys : list ScanKeyData) (a b : sorttuple) : Z :=
  let compare := fst (compare_index_keys index_getattr keys a b) in
  if decide (compare = 0%Z) then
    let na := existsb snd (key_values index_getattr (length keys) a) in
    let nb := existsb snd (key_values index_getattr (length keys) b) in
    if negb (eqb na nb) then (if na then 1%Z else (-1)%Z)
    else if negb na then tid_order (tuple b) (tuple a) else tid_order (tuple a) (tuple b)
  else compare.

Lemma flipped_order_laws keys : sort_functions keys -> CmpLaws (flipped_order keys).
Proof.
  intros Hk. pose proof tid_order_laws as HT. pose proof (keys_laws index_getattr keys Hk) as HK.
  set (tie := fun a b : sorttuple => 
    let na := existsb snd (key_values index_getattr (length keys) a) in
    let nb := existsb snd (key_values index_getattr (length keys) b) in
    if negb (eqb na nb) then (if na then 1%Z else (-1)%Z)
    else if negb na then tid_order (tuple b) (tuple a) else tid_order (tuple a) (tuple b)).
  apply (@lex_laws _ (fun a b => fst (compare_index_keys index_getattr keys a b)) tie HK). unfold tie. split.
  - intros a b. cbv zeta. pose proof (cmp_sgn (cmp := tid_order) (tuple a) (tuple b)). pose proof (cmp_sgn (cmp := tid_order) (tuple b) (tuple a)).
    destruct (existsb _ _), (existsb _ _); cbn; lia.
  - intros a b c. cbv zeta. pose proof (cmp_trans (cmp := tid_order) (tuple a) (tuple b) (tuple c)). pose proof (cmp_trans (cmp := tid_order) (tuple c) (tuple b) (tuple a)).
    destruct (existsb _ _), (existsb _ _), (existsb _ _); cbn; try lia; auto.
Qed.

(** ** The sorts obey the laws of SortRun *)

Definition unique_keys (keys : list ScanKeyData) : Prop := forall a b, a ∈ ts -> b ∈ ts -> a <> b -> ~ same_key index_getattr keys a b.
Definition keys_ok (u : bool) (keys : list ScanKeyData) : Prop := sort_functions keys /\ (u = true -> unique_keys keys).

Lemma btree_no_error u keys a b : keys_ok u keys -> in_domain a -> in_domain b -> exists c, comparetup_index_btree index_getattr u keys a b = Ok c.
Proof using Hts.
  intros [_ Hu] Ha Hb. rewrite comparetup_index_btree_cases. rewrite !domain_values by done. cbv zeta. case_decide as E; [|by eexists].
  rewrite (domain_tid a b Ha Hb). destruct u; [|by eexists]. cbn [andb]. destruct (existsb snd _) eqn:En; [by eexists|]. cbn [negb andb].
  case_bool_decide as Et; [by eexists|]. exfalso. destruct Ha as [Ha _], Hb as [Hb _]. by apply (Hu eq_refl _ _ Ha Hb Et).
Qed.

#[local] Instance btree_laws u : SortMethodsLaws (methods u) (keys_ok u).
Proof using Hts.
  split; cbn.
  - intros k [Hk _]. by apply btree_order_laws.
  - intros k a b Hk Ha Hb. destruct (btree_no_error u k a b Hk Ha Hb) as [c ->]. done.
  - by intros i [].
  - intros [|k keys] a b i j; done.
Qed.
#[local] Instance flipped_laws : SortMethodsLaws (with_order (methods true) flipped_order (fun keys a b => error_of (comparetup_index_btree index_getattr false keys a b))) sort_functions.
Proof using Hts.
  split; cbn.
  - intros k Hk. by apply flipped_order_laws.
  - intros k a b Hk Ha Hb. destruct (btree_no_error false k a b) as [c ->]; [by split|done|done|done].
  - by intros i [].
  - intros [|k keys] a b i j; done.
Qed.
Lemma index_tape_laws {K} (SM : SortMethods IndexTuple K) : tuple_body = writetup_index -> TapeMethodsLaws SM.
Proof. intros E. split. rewrite E. done. Qed.

Lemma copytup_index_ok t : index_tuple_ok t -> copytup_index index_getattr t = readtup_index index_getattr t.
Proof. intros [H _]. unfold copytup_index. by rewrite <- H, firstn_all. Qed.
Lemma readtup_index_tuple t : tuple (readtup_index index_getattr t) = t.
Proof. unfold readtup_index. by destruct (index_getattr t 1). Qed.

(** What was copied can be written to tape and read back. *)
Lemma good_index {K} (SM : SortMethods IndexTuple K) k : tuple_body = writetup_index -> tuple_of_body k = readtup_index index_getattr ->
  Forall (good (SM := SM) k) (copytup_index index_getattr <$> ts).
Proof using Hts.
  intros E1 E2. apply Forall_fmap, Forall_forall. intros t Ht. rewrite Forall_forall in Hts. pose proof (Hts t Ht) as Hok. unfold compose. rewrite copytup_index_ok by done.
  assert (Eb : tuple_body (readtup_index index_getattr t) = t).
  { rewrite E1. unfold writetup_index. rewrite readtup_index_tuple. destruct Hok as [H _]. by rewrite <- H, firstn_all. }
  assert (Hn : norm (readtup_index index_getattr t) = readtup_index index_getattr t) by (unfold readtup_index; by destruct (index_getattr t 1)).
  split_and!; [|by rewrite Eb, E2|].
  - rewrite Eb. destruct Hok as [-> _]. unfold IndexTupleSize, INDEX_SIZE_MASK. change 0x1FFF%Z with (Z.ones 13). rewrite Z.land_ones by lia.
    pose proof (Z.mod_pos_bound (uint16_at t 6) (2 ^ 13)). lia.
  - split; [by rewrite readtup_index_tuple|]. unfold readtup_index. destruct (index_getattr t 1) as [d n] eqn:E. cbn. by rewrite E.
Qed.

Lemma index_rows (l : list sorttuple) : norm <$> l ≡ₚ norm <$> (copytup_index index_getattr <$> ts) -> (fun t => tuple t) <$> l ≡ₚ ts.
Proof using Hts.
  intros Hp. apply (fmap_Permutation (fun t => tuple t)) in Hp. rewrite <- !list_fmap_compose in Hp.
  assert (E : (fun t => tuple t) ∘ norm <$> l = (fun t => tuple t) <$> l) by (apply list_fmap_ext; by intros i [] _). rewrite E in Hp. rewrite Hp. apply Permutation_refl'.
  rewrite <- (list_fmap_id ts) at 2. apply list_fmap_ext. intros i t Ht. cbn. rewrite Forall_lookup in Hts. rewrite copytup_index_ok by (by eapply Hts). apply readtup_index_tuple.
Qed.

Context (junk : sorttuple) (workMem : Z) (ra slave : bool) (keys : list ScanKeyData) (Hk : sort_functions keys) (Hm : memory_ok overhead workMem).
Local Abbreviation run SM := (sort_run (SM := SM) junk workMem ra keys None (copytup_index index_getattr <$> ts) slave (S (length ts))).

(** A sort of index tuples returns them in order, as long as no comparison raises an error. *)
Lemma index_run (SM : SortMethods IndexTuple (list ScanKeyData)) valid `{HL : !SortMethodsLaws SM valid} :
  tuple_body = writetup_index -> tuple_of_body keys = readtup_index index_getattr -> (forall n, array_space n = space n) -> valid keys ->
  exists out, run SM = Ok out /\ (fun t => tuple t) <$> out ≡ₚ ts /\ sorted (comparetup keys) out /\ Forall in_domain out.
Proof using Hts Hm.
  intros E1 E2 E3 Hv. pose proof (index_tape_laws SM E1) as HT. pose proof (good_index SM keys E1 E2) as Hg.
  destruct (sort_run_all valid junk overhead workMem ra keys (copytup_index index_getattr <$> ts) slave E3 Hv) as (out & He & Hp & Hs);
    [by rewrite E3|done|]. rewrite length_fmap in He. exists out. split_and!; [done|by apply index_rows|done|].
  apply (Forall_in_domain_norm valid _ _ Hp). eapply Forall_impl; [exact Hg|]. by intros x (_ & _ & ?).
Qed.

Lemma btree_run u : keys_ok u keys -> exists out, run (methods u) = Ok out /\ (fun t => tuple t) <$> out ≡ₚ ts /\ sorted (btree_order index_getattr keys) out /\ Forall in_domain out.
Proof using Hts Hm. intros Hv. by apply (index_run (methods u) (keys_ok u)). Qed.

(** ** Duplicates *)

Definition violation : error := EElog "could not create unique index".
Local Abbreviation flipped := (with_order (methods true) flipped_order (fun keys a b => error_of (comparetup_index_btree index_getattr false keys a b))).

Lemma unique_agrees k a b : agree (eq violation) (comparetup_result (SM := methods true) k a b) (comparetup_result (SM := methods false) k a b).
Proof.
  rewrite !btree_methods_compare, !comparetup_index_btree_cases. cbv zeta. case_decide; [|by left]. cbn [andb].
  destruct (_ && _); [right; by eexists|by left].
Qed.
Lemma flipped_agrees k a b : agree (eq violation) (comparetup_result (SM := methods true) k a b) (comparetup_result (SM := flipped) k a b).
Proof.
  rewrite btree_methods_compare. unfold comparetup_result at 1. cbn. rewrite !comparetup_index_btree_cases. cbv zeta.
  unfold flipped_order. destruct (compare_index_keys_spec index_getattr k a b) as [-> _]. case_decide as E; [|by left]. cbn [andb].
  assert (En : existsb snd (key_values index_getattr (length k) a) = existsb snd (key_values index_getattr (length k) b)).
  { apply (equal_nulls k); [..|done]; unfold key_values, rest_values; destruct k; cbn; by rewrite ?length_fmap, ?length_seq. }
  rewrite <- En, eqb_reflx. cbn [negb]. unfold compare_tid. destruct (existsb snd _); cbn [negb andb].
  - destruct (_ || _); by left.
  - case_bool_decide as Et; cbn [negb]; [|right; by eexists]. rewrite Et. destruct (_ || _); by left.
Qed.

(** Equal keys without NULL are in order for both comparisons only when the heap items are the same. *)
Lemma ties_equal x y : fst (compare_index_keys index_getattr keys x y) = 0%Z -> existsb snd (key_values index_getattr (length keys) x) = false ->
  (btree_order index_getattr keys x y <= 0)%Z -> (flipped_order keys x y <= 0)%Z -> tid_order (tuple x) (tuple y) = 0%Z.
Proof.
  intros Hc Hn. unfold btree_order, flipped_order. rewrite decide_True by done. cbv zeta. rewrite decide_True by done. destruct (compare_index_keys_spec index_getattr keys x y) as [E _].
  rewrite <- (equal_nulls keys (key_values index_getattr (length keys) x) (key_values index_getattr (length keys) y));
    [|unfold key_values, rest_values; destruct keys; cbn; by rewrite ?length_fmap, ?length_seq..|by rewrite <- E]. rewrite Hn. cbn.
  pose proof tid_order_laws as HT. pose proof (cmp_sgn (cmp := tid_order) (tuple x) (tuple y)). lia.
Qed.

(** Two tuples with the same key end the sort with an error. *)
Lemma duplicate_run a b : NoDup ((fun t => (it_blk t, it_pos t)) <$> ts) -> a ∈ ts -> b ∈ ts -> a <> b -> same_key index_getattr keys a b ->
  run (methods true) = Err violation.
Proof using Hts Hk Hm.
  intros Hnd Ha Hb Hab [Hc Hnull].
  destruct (sort_run_agree (methods true) _ _ (eq violation) unique_agrees junk workMem ra keys None (copytup_index index_getattr <$> ts) slave (S (length ts))) as [E1|(e & -> & <-)]; [|done].
  destruct (sort_run_agree (methods true) _ _ (eq violation) flipped_agrees junk workMem ra keys None (copytup_index index_getattr <$> ts) slave (S (length ts))) as [E2|(e & -> & <-)]; [|done].
  exfalso. destruct (btree_run false ltac:(by split)) as (out & R1 & Hp & S1 & Hd).
  destruct (index_run flipped sort_functions eq_refl eq_refl (fun _ => eq_refl) Hk) as (out' & R2 & _ & S2 & _).
  assert (out' = out) as -> by (rewrite E1 in E2; change (run (methods false) = run flipped) in E2; congruence). clear E1 E2 R1 R2.
  assert (Hin : forall t, t ∈ ts -> exists i x, out !! i = Some x /\ tuple x = t).
  { intros t Ht. rewrite <- Hp in Ht. apply list_elem_of_fmap in Ht as (x & -> & Hx). apply list_elem_of_lookup in Hx as [i Hi]. by exists i, x. }
  destruct (Hin a Ha) as (i & x & Hi & Ex), (Hin b Hb) as (j & y & Hj & Ey). pose proof (Forall_lookup_1 _ _ _ _ Hd Hi) as Dx. pose proof (Forall_lookup_1 _ _ _ _ Hd Hj) as Dy.
  assert (Kxy : fst (compare_index_keys index_getattr keys x y) = 0%Z).
  { destruct (compare_index_keys_spec index_getattr keys x y) as [-> _]. rewrite !domain_values by done. by rewrite Ex, Ey. }
  assert (Nx : existsb snd (key_values index_getattr (length keys) x) = false) by (rewrite domain_values by done; by rewrite Ex).
  assert (Htid : tid_order a b = 0%Z).
  { pose proof (btree_order_laws index_getattr keys Hk) as L1. pose proof (flipped_order_laws keys Hk) as L2. rewrite <- Ex, <- Ey.
    assert (i <> j) by (intros ->; congruence). destruct (decide (i < j)) as [Hlt|Hge].
    - apply ties_equal; [done|done|by apply (sorted_lookup _ out i j)|by apply (sorted_lookup _ out i j)].
    - pose proof (keys_laws index_getattr keys Hk) as LK. pose proof (cmp_sgn (cmp := fun a b => fst (compare_index_keys index_getattr keys a b)) x y) as Hsg. cbn in Hsg. rewrite Kxy in Hsg.
      pose proof tid_order_laws as LT. pose proof (cmp_sgn (cmp := tid_order) (tuple x) (tuple y)) as Hs2.
      assert (tid_order (tuple y) (tuple x) = 0%Z); [|lia]. apply ties_equal; [lia| |apply (sorted_lookup _ out j i); try done; lia|apply (sorted_lookup _ out j i); try done; lia].
      rewrite <- Nx. symmetry. apply (equal_nulls keys); [unfold key_values, rest_values; destruct keys; cbn; by rewrite ?length_fmap, ?length_seq..|].
      destruct (compare_index_keys_spec index_getattr keys x y) as [<- _]. done. }
  apply tid_order_zero in Htid as [T1 T2]. apply list_elem_of_lookup in Ha as [p Hp1], Hb as [q Hq1].
  assert (p = q); [|congruence]. eapply (NoDup_lookup _ p q (it_blk a, it_pos a) Hnd); rewrite list_lookup_fmap; [by rewrite Hp1|]. rewrite Hq1. cbn. congruence.
Qed.
End sorts.

(** ** Hash indexes *)

Section hash.
Context (index_getattr : IndexTuple -> Z -> Datum * bool) (chunk_space : IndexTuple -> Z) (overhead : Z) (ts : list IndexTuple).
Context (Hts : Forall index_tuple_ok ts) (Hnull : Forall (fun t => snd (index_getattr t 1) = false) ts).
#[local] Instance hash_domain : Domain IndexTuple := index_domain index_getattr ts.
Local Abbreviation methods := (hash_methods index_getattr chunk_space (fun n => (24 * Z.of_nat n + overhead)%Z)).

#[local] Instance hash_laws : SortMethodsLaws methods (fun _ => True).
Proof using Hts Hnull.
  split; cbn.
  - intros k _. apply hash_order_laws.
  - intros k a b _ Ha Hb. assert (Hn : forall x : SortTuple IndexTuple, in_domain x -> isnull1 x = false).
    { intros x [Hx E]. rewrite Forall_forall in Hnull. specialize (Hnull _ Hx). by rewrite <- E in Hnull. }
    unfold comparetup_index_hash. rewrite (Hn a Ha), (Hn b Hb), (domain_tid index_getattr ts Hts a b Ha Hb). by repeat case_match.
  - by intros i [].
  - done.
Qed.
Lemma hash_run junk workMem ra slave mask : memory_ok overhead workMem ->
  exists out, sort_run (SM := methods) junk workMem ra mask None (copytup_index index_getattr <$> ts) slave (S (length ts)) = Ok out /\
    (fun t => tuple t) <$> out ≡ₚ ts /\ sorted (hash_order mask) out /\ Forall in_domain out.
Proof using Hts Hnull.
  intros Hm. pose proof (index_tape_laws methods eq_refl) as HT. pose proof (good_index index_getattr ts Hts methods mask eq_refl eq_refl) as Hg.
  destruct (sort_run_all (SM := methods) (fun _ => True) junk overhead workMem ra mask (copytup_index index_getattr <$> ts) slave (fun _ => eq_refl) I Hm Hg) as (out & He & Hp & Hs).
  rewrite length_fmap in He. exists out. split_and!; [done|by apply (index_rows index_getattr ts Hts)|done|].
  apply (Forall_in_domain_norm (SM := methods) (fun _ => True) _ _ Hp). eapply Forall_impl; [exact Hg|]. by intros x (_ & _ & ?).
Qed.
End hash.

(** ** Properties *)

(** The order on the tuples themselves. *)
Definition btree_index_order (index_getattr : IndexTuple -> Z -> Datum * bool) (keys : list ScanKeyData) (a b : IndexTuple) : Z :=
  btree_order index_getattr keys (copytup_index index_getattr a) (copytup_index index_getattr b).
Definition hash_index_order (index_getattr : IndexTuple -> Z -> Datum * bool) (mask : Z) (a b : IndexTuple) : Z :=
  hash_order mask (copytup_index index_getattr a) (copytup_index index_getattr b).

(** What is in order as sort tuples is in order as tuples. *)
Lemma sorted_tuples index_getattr ts (order : SortTuple IndexTuple -> SortTuple IndexTuple -> Z) `{!CmpLaws order} (out : list (SortTuple IndexTuple)) :
  Forall index_tuple_ok ts -> (forall i j x y, order (with_tupindex i x) (with_tupindex j y) = order x y) ->
  Forall (index_domain index_getattr ts) out -> sorted order out ->
  sorted (fun a b => order (copytup_index index_getattr a) (copytup_index index_getattr b)) ((fun t => tuple t) <$> out).
Proof.
  intros Hts Hi Hd Hs. apply (@sorted_adjacent _ _ (proj_laws (copytup_index index_getattr) order)). intros i a b Ha Hb. rewrite list_lookup_fmap in Ha, Hb.
  destruct (out !! i) as [x|] eqn:Ex; [|done]. destruct (out !! S i) as [y|] eqn:Ey; [|done]. injection Ha as <-. injection Hb as <-.
  assert (Hc : forall n z, out !! n = Some z -> copytup_index index_getattr (tuple z) = with_tupindex 0 z).
  { intros n z Hz. destruct (Forall_lookup_1 _ _ _ _ Hd Hz) as [Hin E]. rewrite Forall_forall in Hts. rewrite (copytup_index_ok index_getattr) by (by apply Hts).
    unfold readtup_index. rewrite <- E. by destruct z. }
  rewrite (Hc _ _ Ex), (Hc _ _ Ey), Hi. apply (sorted_lookup order out i (S i) x y Hs); [lia|done|done].
Qed.

(** C12: Building a unique index.  If no two tuples have equal keys without a NULL, the sort returns the tuples in the order of the
    keys and then of the heap items.  If two do, the sort ends with the error of a unique violation: the check is only in the
    comparison, but two equal tuples are compared sooner or later, whether the sort stays in memory or goes through
    runs and merges, as the comment in comparetup_index_btree claims. *)
Theorem unique_index_sort index_getattr chunk_space overhead junk workMem ra keys ts slave :
  let build := index_sort (btree_methods index_getattr chunk_space (fun n => (24 * Z.of_nat n + overhead)%Z) true) index_getattr junk workMem ra keys ts slave (S (length ts)) in
  sort_functions keys -> memory_ok overhead workMem -> Forall index_tuple_ok ts -> NoDup ((fun t => (it_blk t, it_pos t)) <$> ts) ->
  ((forall a b, a ∈ ts -> b ∈ ts -> a <> b -> ~ same_key index_getattr keys a b) ->
    exists out, build = Ok out /\ out ≡ₚ ts /\ sorted (btree_index_order index_getattr keys) out) /\
  (forall a b, a ∈ ts -> b ∈ ts -> a <> b -> same_key index_getattr keys a b -> build = Err (EElog "could not create unique index")).
Proof.
  intros build Hk Hm Hts Hnd. unfold build. rewrite index_sort_run. split.
  - intros Hu. destruct (btree_run index_getattr chunk_space overhead ts Hts junk workMem ra slave keys Hm true ltac:(by split)) as (out & -> & Hp & Hs & Hd).
    eexists. split; [reflexivity|]. split; [done|]. pose proof (btree_order_laws index_getattr keys Hk) as HL. apply (sorted_tuples index_getattr ts); try done.
  - intros a b Ha Hb Hab Hs. by rewrite (duplicate_run index_getattr chunk_space overhead ts Hts junk workMem ra slave keys Hk Hm a b).
Qed.

(** C11: Building a hash index.  For keys that are not NULL, the sort returns the tuples in the order of the bits of the hash value that
    the mask selects, so that those of one bucket come together, and of the heap items within a bucket. *)
Theorem hash_index_sort index_getattr chunk_space overhead junk workMem ra mask ts slave :
  memory_ok overhead workMem -> Forall index_tuple_ok ts -> Forall (fun t => snd (index_getattr t 1%Z) = false) ts ->
  exists out, index_sort (hash_methods index_getattr chunk_space (fun n => (24 * Z.of_nat n + overhead)%Z)) index_getattr junk workMem ra mask ts slave (S (length ts)) = Ok out /\
    out ≡ₚ ts /\ sorted (hash_index_order index_getattr mask) out.
Proof.
  intros Hm Hts Hn. rewrite index_sort_run. destruct (hash_run index_getattr chunk_space overhead ts Hts Hn junk workMem ra slave mask Hm) as (out & -> & Hp & Hs & Hd).
  eexists. split; [reflexivity|]. split; [done|]. pose proof (hash_order_laws mask) as HL. by apply (sorted_tuples index_getattr ts).
Qed.

(** ** Witnesses *)

(** Index tuples of nine bytes, with a key of one byte after the header. *)
Definition demo_entry (blk pos key : Z) : IndexTuple := [0; 0; blk; 0; pos; 0; 9; 0; key]%Z.
Definition demo_attr (t : IndexTuple) (attno : Z) : Datum * bool := (nth 8 t 0%Z, false).
Definition demo_index_keys : list ScanKeyData := [mkKey 0 1 cmp_int].
Lemma demo_index_keys_ok : sort_functions demo_index_keys.
Proof. repeat constructor; [apply (Forall_inv demo_keys_ok)..]. Qed.
Definition demo_entries : list IndexTuple := [demo_entry 1 1 7; demo_entry 1 2 3; demo_entry 2 1 9; demo_entry 2 2 5].
(** Tuples so large that a few of them fill the memory. *)
Definition demo_entry_space (t : IndexTuple) : Z := 400.
Definition demo_index_junk : SortTuple IndexTuple := mkSortTuple [] 0%Z true 0%Z.

Lemma unique_index_sort_witness :
  (exists out, index_sort (btree_methods demo_attr demo_entry_space (fun n => (24 * Z.of_nat n + 16)%Z) true) demo_attr demo_index_junk 25 false demo_index_keys demo_entries false 5 = Ok out /\
    out = [demo_entry 1 2 3; demo_entry 2 2 5; demo_entry 1 1 7; demo_entry 2 1 9]) /\
  index_sort (btree_methods demo_attr demo_entry_space (fun n => (24 * Z.of_nat n + 16)%Z) true) demo_attr demo_index_junk 25 false demo_index_keys (demo_entries ++ [demo_entry 3 1 9]) false 6 =
    Err (EElog "could not create unique index").
Proof.
  split.
  - destruct (unique_index_sort demo_attr demo_entry_space 16 demo_index_junk 25 false demo_index_keys demo_entries false demo_index_keys_ok) as [H _];
      [vm_compute; discriminate|by repeat constructor|vm_compute; by repeat constructor; set_solver|].
    destruct H as (out & He & _).
    { intros a b Ha Hb Hab [E _]. repeat (apply elem_of_cons in Ha as [->|Ha]); try (by apply elem_of_nil in Ha);
        repeat (apply elem_of_cons in Hb as [->|Hb]); try (by apply elem_of_nil in Hb); done. }
    exists out. split; [exact He|]. vm_compute in He. injection He as <-. reflexivity.
  - destruct (unique_index_sort demo_attr demo_entry_space 16 demo_index_junk 25 false demo_index_keys (demo_entries ++ [demo_entry 3 1 9]) false demo_index_keys_ok) as [_ H];
      [vm_compute; discriminate|by repeat constructor|vm_compute; by repeat constructor; set_solver|].
    apply (H (demo_entry 2 1 9) (demo_entry 3 1 9)); [set_solver|set_solver|done|]. split; reflexivity.
Defined.

Lemma hash_index_sort_witness :
  exists out, index_sort (hash_methods demo_attr demo_entry_space (fun n => (24 * Z.of_nat n + 16)%Z)) demo_attr demo_index_junk 25 false 3%Z demo_entries false 5 = Ok out /\
    out = [demo_entry 2 1 9; demo_entry 2 2 5; demo_entry 1 1 7; demo_entry 1 2 3].
Proof.
  destruct (hash_index_sort demo_attr demo_entry_space 16 demo_index_junk 25 false 3 demo_entries false) as (out & He & _);
    [vm_compute; discriminate|by repeat constructor|by repeat constructor|].
  exists out. split; [exact He|]. vm_compute in He. injection He as <-. reflexivity.
Defined.
