(* ===== verification/DatumSort.v ===== *)
(** * DatumSort: sorts of single values (src/backend/utils/sort/tuplesort.c, src/backend/utils/adt/datum.c)

    The sorts of aggregates over distinct or ordered values: tuplesort_begin_datum, tuplesort_putdatum, tuplesort_getdatum, the way
    values go to a tape and come back, and datumGetSize and datumCopy for the values that are passed by reference, with the
    headers of variable-length values (src/include/postgres.h, little-endian).  A value by reference is a Datum that stands for what
    it points to; how is a parameter. *)

From S2P Require Import Prelude Order Compare Heap Qsort Tape LogTape Tuplesort InMemory RunTapes Polyphase BuildRuns MergeRuns MergePasses External SortRun.
From Stdlib Require Import Permutation.

(** ** Values in memory *)

Definition VARATT_IS_1B_E (header : byte) : bool := (header =? 1)%Z.
Definition VARATT_IS_1B (header : byte) : bool := (Z.land header 1 =? 1)%Z.
Definition VARSIZE_1B (header : byte) : Z := Z.land (Z.shiftr header 1) 0x7F.
Definition VARSIZE_1B_E (p : list byte) : res Z := idx p 1.
Definition VARSIZE_4B (p : list byte) : res Z :=
  if decide (4 <= length p) then Ok (Z.land (Z.shiftr (bytes_uint32 (take 4 p)) 2) 0x3FFFFFFF) else Err EUndef.
Definition VARSIZE_ANY (p : list byte) : res Z :=
  match idx p 0 with
  | Err e => Err e
  | Ok header =>
    if VARATT_IS_1B_E header then VARSIZE_1B_E p
    else if VARATT_IS_1B header then Ok (VARSIZE_1B header)
    else VARSIZE_4B p
  end.

Fixpoint strlen (p : list byte) : res nat :=
  match p with
  | [] => Err EUndef
  | c :: p' => if decide (c = 0%Z) then Ok 0 else match strlen p' with Ok n => Ok (S n) | Err e => Err e end
  end.

(** A type: its length (-1 for a varlena, -2 for a C string) and whether its values are passed by value. *)
Record datum_type := mkType { typLen : Z; typByVal : bool }.
Definition SIZEOF_DATUM : nat := 8.
Definition datum_bytes (d : Datum) : list byte := uint32_bytes (d mod 2 ^ 32) ++ uint32_bytes (d / 2 ^ 32).
Definition bytes_datum (bs : list byte) : Datum := (bytes_uint32 (take 4 bs) + 2 ^ 32 * bytes_uint32 (drop 4 bs))%Z.

Section pointers.
(** The bytes at the address that a Datum is, from there to the end of their chunk of memory; None for a NULL pointer.  And the address of
    a new chunk. *)
Variable DatumGetPointer : Datum -> option (list byte).
Variable PointerGetDatum : list byte -> Datum.

Definition datumGetSize (value : Datum) (byVal : bool) (len : Z) : res nat :=
  if byVal then (if ((0 <? len) && (len <=? Z.of_nat SIZEOF_DATUM))%Z then Ok (Z.to_nat len) else Err EAssert)
  else if (0 <? len)%Z then Ok (Z.to_nat len)
  else if (len =? -1)%Z then
    match DatumGetPointer value with
    | None => Err (EElog "invalid Datum pointer")
    | Some s => match VARSIZE_ANY s with Ok n => Ok (Z.to_nat n) | Err e => Err e end
    end
  else if (len =? -2)%Z then
    match DatumGetPointer value with
    | None => Err (EElog "invalid Datum pointer")
    | Some s => match strlen s with Ok n => Ok (n + 1) | Err e => Err e end
    end
  else Err (EElog "invalid typLen").

(** memcpy reads as many bytes as the value is long. *)
Definition datumCopy (value : Datum) (byVal : bool) (len : Z) : res Datum :=
  if byVal then Ok value
  else match DatumGetPointer value with
  | None => Ok value
  | Some s =>
    match datumGetSize value byVal len with
    | Err e => Err e
    | Ok realSize => if decide (realSize <= length s) then Ok (PointerGetDatum (take realSize s)) else Err EUndef
    end
  end.

(** ** The methods *)

(** sortFnFlags and sortOpFn *)
Record DatumKey := mkDatumKey { sortFnFlags : Z; sortOpFn : Datum -> Datum -> Z }.

Variable ty : datum_type.
Variable chunk_space : list byte -> Z.
Variable space : nat -> Z.
Local Abbreviation DatumTuple := (option (list byte)).

(** The bytes writetup_datum puts between the length words; tuplesort_putdatum has called datumGetSize for the value before. *)
Definition writetup_datum (stup : SortTuple DatumTuple) : list byte :=
  if isnull1 stup then []
  else if typByVal ty then datum_bytes (datum1 stup)
  else match DatumGetPointer (datum1 stup), datumGetSize (datum1 stup) false (typLen ty) with Some s, Ok n => take n s | _, _ => [] end.
Definition readtup_datum (body : list byte) : SortTuple DatumTuple :=
  match body with
  | [] => mkSortTuple None 0%Z true 0%Z
  | _ =>
    if typByVal ty then mkSortTuple None (bytes_datum body) false 0%Z
    else mkSortTuple (Some body) (PointerGetDatum body) false 0%Z
  end.

Definition datum_methods : SortMethods DatumTuple DatumKey := {|
  comparetup k := comparetup_datum (sortOpFn k) (sortFnFlags k);
  comparetup_error _ _ _ := None;
  reversedirection k := mkDatumKey (reversedirection_datum (sortFnFlags k)) (sortOpFn k);
  reversedirection_error _ := None;
  GetMemoryChunkSpace t := from_option chunk_space 0%Z t;
  tuple_body := writetup_datum;
  tuple_of_body _ := readtup_datum;
  array_space := space |}.

(** ** The entry points *)

(** get_compare_function_for_ordering_op: the function of a sort operator, and whether the operator is the reverse of it. *)
Variable get_compare_function_for_ordering_op : Z -> option ((Datum -> Datum -> Z) * bool).
Variable junk : SortTuple DatumTuple.
Local Abbreviation TM := (M (Tuplesortstate DatumTuple DatumKey)).
#[local] Existing Instance datum_methods.

Definition tuplesort_begin_datum (sortOperator : Z) (nullsFirstFlag : bool) (workMem : Z) (randomAccess : bool) : res (Tuplesortstate DatumTuple DatumKey) :=
  match get_compare_function_for_ordering_op sortOperator with
  | Some (sortFunction, reverse) =>
    let flags := if (reverse : bool) then SK_BT_DESC else 0%Z in
    let flags := if nullsFirstFlag then Z.lor flags SK_BT_NULLS_FIRST else flags in
    tuplesort_begin_common junk workMem randomAccess (mkDatumKey flags sortFunction)
  | None =>
    match tuplesort_begin_common junk workMem randomAccess (mkDatumKey 0 (fun _ _ => 0%Z)) with
    | Ok _ => Err (EElog "operator is not a valid ordering operator")
    | Err e => Err e
    end
  end.

Definition tuplesort_putdatum (val : Datum) (isNull : bool) : TM unit :=
  if isNull || typByVal ty then puttuple_common junk (mkSortTuple None val isNull 0%Z)
  else
    datum1 ← lift_res (datumCopy val false (typLen ty));
    match DatumGetPointer datum1 with
    | Some p => mmod (USEMEM (chunk_space p));; puttuple_common junk (mkSortTuple (Some p) datum1 false 0%Z)
    | None => mfail EUndef
    end.

(** Whether tuplesort_gettuple_common hands over the memory of what it returns. *)
Definition should_free (s : Tuplesortstate DatumTuple DatumKey) : bool := negb (bool_decide (status s = TSS_SORTEDINMEM)).
Definition tuplesort_getdatum (slave forward : bool) : TM (option (Datum * bool)) :=
  s ← mget;
  o ← tuplesort_gettuple_common slave forward;
  match o with
  | None => mret None
  | Some stup =>
    if isnull1 stup || typByVal ty then mret (Some (datum1 stup, isnull1 stup))
    else if should_free s then mret (Some (datum1 stup, false))
    else val ← lift_res (datumCopy (datum1 stup) false (typLen ty)); mret (Some (val, false))
  end.

Fixpoint put_datums (vals : list (Datum * bool)) : TM unit :=
  match vals with [] => mret tt | (v, n) :: vals' => tuplesort_putdatum v n;; put_datums vals' end.
Fixpoint get_datums (slave : bool) (n : nat) : TM (list (Datum * bool)) :=
  match n with
  | O => mret []
  | S n' => o ← tuplesort_getdatum slave true; match o with None => mret [] | Some v => l ← get_datums slave n'; mret (v :: l) end
  end.
Definition datum_sort (sortOperator : Z) (nullsFirstFlag : bool) (workMem : Z) (ra : bool) (vals : list (Datum * bool)) (slave : bool) (calls : nat) : res (list (Datum * bool)) :=
  match tuplesort_begin_datum sortOperator nullsFirstFlag workMem ra with
  | Err e => Err e
  | Ok s => match (put_datums vals;; tuplesort_performsort;; get_datums slave calls) s with Ok (out, _) => Ok out | Err e => Err e end
  end.
End pointers.

(** ** Values that survive a copy *)

Lemma datum_bytes_length d : length (datum_bytes d) = SIZEOF_DATUM.
Proof. done. Qed.
Lemma datum_roundtrip d : (0 <= d < 2 ^ 64)%Z -> bytes_datum (datum_bytes d) = d.
Proof.
  intros Hd. unfold bytes_datum, datum_bytes. rewrite take_app_length', drop_app_length' by done. pose proof (Z.mod_pos_bound d (2 ^ 32)).
  rewrite !uint32_roundtrip; [|split; [apply Z.div_pos|apply Z.div_lt_upper_bound]; lia|lia]. pose proof (Z.div_mod d (2 ^ 32)). lia.
Qed.

(** How many bytes the header of a varlena takes. *)
Definition header_size (p : list byte) : nat :=
  match p with [] => 1 | h :: _ => if VARATT_IS_1B_E h then 2 else if VARATT_IS_1B h then 1 else 4 end.

Lemma VARSIZE_ANY_take p n : VARSIZE_ANY p = Ok (Z.of_nat n) -> header_size p <= n -> n <= length p -> VARSIZE_ANY (take n p) = Ok (Z.of_nat n).
Proof.
  unfold VARSIZE_ANY, header_size. destruct p as [|h p]; [done|]. cbn [idx lookup list_lookup]. intros E Hh Hn. destruct n as [|n]; [repeat case_match; lia|].
  cbn [take]. unfold idx in *. cbn [lookup list_lookup] in *. destruct (VARATT_IS_1B_E h).
  - unfold VARSIZE_1B_E, idx in *. cbn in *. destruct n as [|n]; [lia|]. by destruct p.
  - destruct (VARATT_IS_1B h); [done|]. unfold VARSIZE_4B in *. cbn [length] in *. rewrite length_take. rewrite decide_True in E by lia. rewrite decide_True by lia.
    change (h :: take n p) with (take (S n) (h :: p)). by rewrite take_take, Nat.min_l by lia.
Qed.
Lemma strlen_take p n : strlen p = Ok n -> strlen (take (n + 1) p) = Ok n.
Proof.
  revert n. induction p as [|c p IH]; intros n; [done|]. cbn [strlen]. case_decide as Hc.
  - intros [= <-]. cbn. by rewrite decide_True.
  - destruct (strlen p) as [m|e]; [|done]. intros [= <-]. cbn. rewrite decide_False by done. by rewrite IH.
Qed.

Section copies.
Context (DatumGetPointer : Datum -> option (list byte)) (PointerGetDatum : list byte -> Datum).
(** A pointer to a new chunk points to what was put there. *)
Hypothesis pointers : forall p, DatumGetPointer (PointerGetDatum p) = Some p.
Context (ty : datum_type) (chunk_space : list byte -> Z) (overhead : Z).
Local Abbreviation DatumTuple := (option (list byte)).
Local Abbreviation space := (fun n => (24 * Z.of_nat n + overhead)%Z).
#[local] Instance methods : SortMethods DatumTuple DatumKey := datum_methods DatumGetPointer PointerGetDatum ty chunk_space space.

(** [n] bytes of [s] are a value of a type of length [len] by reference: there are that many, and they include the header. *)
Definition ref_value (len : Z) (value : Datum) (s : list byte) (n : nat) : Prop :=
  DatumGetPointer value = Some s /\ datumGetSize DatumGetPointer value false len = Ok n /\ 1 <= n <= length s /\ (Z.of_nat n < 2 ^ 32 - 4)%Z /\
  (len = (-1)%Z -> header_size s <= n).

Lemma ref_value_copy len value s n : ref_value len value s n -> ref_value len (PointerGetDatum (take n s)) (take n s) n.
Proof using pointers.
  intros (Hp & Hs & Hn & Hb & Hh).
  assert (Hh' : len = (-1)%Z -> header_size (take n s) <= n) by (intros E; specialize (Hh E); destruct s, n; cbn in *; lia).
  split_and!; [apply pointers| |lia|rewrite length_take; lia|done|done]. unfold datumGetSize in *. rewrite pointers. rewrite Hp in Hs.
  destruct (0 <? len)%Z; [done|]. destruct (len =? -1)%Z eqn:E1.
  - apply Z.eqb_eq in E1. specialize (Hh E1). destruct (VARSIZE_ANY s) as [z|e] eqn:Ez; [|done]. injection Hs as Hz.
    assert (z = Z.of_nat n) as -> by lia. rewrite (VARSIZE_ANY_take s n) by (done || lia). by rewrite Nat2Z.id.
  - destruct (len =? -2)%Z; [|done]. destruct (strlen s) as [m|e] eqn:Em; [|done]. injection Hs as <-. by rewrite strlen_take.
Qed.
Lemma ref_value_datumCopy len value s n : ref_value len value s n -> datumCopy DatumGetPointer PointerGetDatum value false len = Ok (PointerGetDatum (take n s)).
Proof. intros (Hp & Hs & Hn & _). unfold datumCopy. rewrite Hp, Hs. by rewrite decide_True by lia. Qed.
(** A copy of a copy is the copy. *)
Lemma copy_datumCopy len value s n : ref_value len value s n ->
  datumCopy DatumGetPointer PointerGetDatum (PointerGetDatum (take n s)) false len = Ok (PointerGetDatum (take n s)).
Proof using pointers.
  intros H. rewrite (ref_value_datumCopy _ _ _ _ (ref_value_copy _ _ _ _ H)). by rewrite take_take, Nat.min_id.
Qed.

(** The values callers put into a sort: a NULL comes with the Datum 0. *)
Definition datum_ok (v : Datum * bool) : Prop :=
  if snd v then fst v = 0%Z
  else if typByVal ty then (0 <= fst v < 2 ^ 64)%Z
  else exists s n, ref_value (typLen ty) (fst v) s n.
(** What the sort keeps of a value. *)
Definition stored (v : Datum * bool) : Datum * bool :=
  if snd v || typByVal ty then v
  else match datumCopy DatumGetPointer PointerGetDatum (fst v) false (typLen ty) with Ok d => (d, false) | Err _ => v end.
Definition datum_tuple (v : Datum * bool) : SortTuple DatumTuple :=
  if snd v || typByVal ty then mkSortTuple None (fst v) (snd v) 0%Z
  else mkSortTuple (DatumGetPointer (fst (stored v))) (fst (stored v)) false 0%Z.

Lemma datum_tuple_value v : datum_ok v -> (datum1 (datum_tuple v), isnull1 (datum_tuple v)) = stored v.
Proof using pointers.
  destruct v as [d n]. unfold datum_ok, datum_tuple, stored. cbn [fst snd]. destruct n; [done|]. destruct (typByVal ty); [done|]. intros (s & m & H). cbn [orb]. by rewrite (ref_value_datumCopy _ _ _ _ H).
Qed.

Lemma put_datums_all junk vals : Forall datum_ok vals -> forall s,
  put_datums DatumGetPointer PointerGetDatum ty chunk_space space junk vals s = put_all junk (datum_tuple <$> vals) s.
Proof using pointers.
  induction 1 as [|[v n] vals Hv _ IH]; intros s; [done|]. cbn [put_datums fmap list_fmap put_all]. unfold tuplesort_putdatum, puttuple, datum_tuple, stored. cbn [fst snd].
  unfold datum_ok in Hv. cbn [fst snd] in Hv. destruct (n || typByVal ty) eqn:E.
  - cbn. unfold mbind, M_bind, mmod, USEMEM. rewrite Z.sub_0_r. replace (set_availMem (availMem s) s) with s by (by destruct s).
    destruct (puttuple_common _ _ s) as [[[] s1]|e]; [apply IH|done].
  - apply orb_false_iff in E as [-> E]. rewrite E in Hv. destruct Hv as (p & m & Hv). rewrite (ref_value_datumCopy _ _ _ _ Hv). cbn [fst]. rewrite pointers.
    unfold mbind, M_bind, mmod, lift_res. rewrite pointers. cbn. destruct (puttuple_common _ _ _) as [[[] s1]|e]; [apply IH|done].
Qed.

(** What can be fetched: a copy is left as it is. *)
Definition fetchable (x : SortTuple DatumTuple) : Prop :=
  (isnull1 x || typByVal ty = false) -> datumCopy DatumGetPointer PointerGetDatum (datum1 x) false (typLen ty) = Ok (datum1 x).
Lemma get_datums_all slave n : forall s out s', get_all slave n s = Ok (out, s') -> Forall fetchable out ->
  get_datums DatumGetPointer PointerGetDatum ty chunk_space space slave n s = Ok ((fun x => (datum1 x, isnull1 x)) <$> out, s').
Proof.
  induction n as [|n IH]; intros s out s' H Hf; [by injection H as <- <-|]. cbn [get_datums get_all] in *. unfold tuplesort_getdatum. rewrite mbind_assoc, mget_ok, mbind_assoc.
  unfold mbind, M_bind in *. destruct (tuplesort_gettuple_common slave true s) as [[[x|] s1]|e]; [|by injection H as <- <-|done].
  destruct (get_all slave n s1) as [[l s2]|e] eqn:El; [|done]. injection H as <- <-. apply Forall_cons in Hf as [Hx Hl].
  destruct (isnull1 x || typByVal ty) eqn:E; [cbn; by rewrite (IH _ _ _ El)|]. unfold fetchable in Hx. rewrite (Hx E). apply orb_false_iff in E as [Ex E]. rewrite fmap_cons, Ex.
  destruct (should_free s); cbn; by rewrite (IH _ _ _ El).
Qed.
End copies.

(** ** Properties *)

Section runs.
Context (DatumGetPointer : Datum -> option (list byte)) (PointerGetDatum : list byte -> Datum).
Hypothesis pointers : forall p, DatumGetPointer (PointerGetDatum p) = Some p.
Context (ty : datum_type) (chunk_space : list byte -> Z) (overhead : Z).
Local Abbreviation DatumTuple := (option (list byte)).
Local Abbreviation space := (fun n => (24 * Z.of_nat n + overhead)%Z).
#[local] Instance sort_methods : SortMethods DatumTuple DatumKey := datum_methods DatumGetPointer PointerGetDatum ty chunk_space space.
Local Abbreviation ok := (datum_ok DatumGetPointer ty).
Local Abbreviation kept := (stored DatumGetPointer PointerGetDatum ty).
Local Abbreviation tup := (datum_tuple DatumGetPointer PointerGetDatum ty).

#[local] Instance datum_laws : SortMethodsLaws sort_methods (fun k => SortFunction (sortOpFn k)).
Proof.
  split; cbn; [|done..]. intros k Hk. apply (proj_laws (fun a : SortTuple DatumTuple => (datum1 a, isnull1 a)) (apply_key (mkKey (sortFnFlags k) 1 (sortOpFn k)))).
Qed.
#[local] Instance datum_tape_laws : TapeMethodsLaws sort_methods.
Proof. by split. Qed.

(** What was put in can be written to tape and read back. *)
Lemma datum_tuple_good k v : ok v -> good k (tup v).
Proof using pointers.
  destruct v as [d n]. unfold datum_ok, good, datum_tuple, stored. cbn [fst snd]. destruct n.
  - intros ->. done.
  - destruct (typByVal ty) eqn:Et.
    + intros Hd. cbn [orb]. cbn. unfold writetup_datum. cbn -[datum_bytes]. rewrite Et. split_and!; [done| |done]. unfold readtup_datum. rewrite Et.
      change (norm (mkSortTuple None (bytes_datum (datum_bytes d)) false 0%Z) = norm (mkSortTuple (T := DatumTuple) None d false 0%Z)). by rewrite datum_roundtrip.
    + intros (s & n & H). cbn [orb]. rewrite (ref_value_datumCopy _ _ _ _ _ _ H). cbn [fst].
      destruct (ref_value_copy _ _ pointers _ _ _ _ H) as (Hp & Hs & Hn & Hb & _).
      assert (E : writetup_datum DatumGetPointer ty (mkSortTuple (Some (take n s)) (PointerGetDatum (take n s)) false 0%Z) = take n s).
      { unfold writetup_datum. cbn [isnull1 datum1]. rewrite Et, Hp, Hs. by rewrite take_take, Nat.min_id. }
      rewrite pointers. change tuple_body with (writetup_datum DatumGetPointer ty). change (tuple_of_body k) with (readtup_datum PointerGetDatum ty). rewrite E. split_and!; [rewrite length_take; lia| |done]. unfold readtup_datum. rewrite Et. destruct (take n s) eqn:Es; [cbn in Hn; lia|done].
Qed.
Lemma datum_tuple_fetchable v : ok v -> fetchable DatumGetPointer PointerGetDatum ty (tup v).
Proof using pointers.
  destruct v as [d n]. unfold datum_ok, fetchable, datum_tuple, stored. cbn [fst snd]. intros Hok. destruct (n || typByVal ty) eqn:E; cbn [isnull1 datum1].
  - congruence.
  - intros _. apply orb_false_iff in E as [-> E]. rewrite E in Hok. destruct Hok as (s & n & H). rewrite (ref_value_datumCopy _ _ _ _ _ _ H). cbn [fst]. by eapply copy_datumCopy.
Qed.
Lemma fetchable_norm (x y : SortTuple DatumTuple) : norm x = norm y -> fetchable DatumGetPointer PointerGetDatum ty x -> fetchable DatumGetPointer PointerGetDatum ty y.
Proof. destruct x, y. by intros [= -> -> ->]. Qed.

Context (get_compare_function_for_ordering_op : Z -> option ((Datum -> Datum -> Z) * bool)) (junk : SortTuple DatumTuple).
Local Abbreviation run := (datum_sort DatumGetPointer PointerGetDatum ty chunk_space space get_compare_function_for_ordering_op junk).
(** The order of the values: that of the sort operator, NULLs at the end the caller asked for. *)
Definition datum_order (fn : Datum -> Datum -> Z) (reverse nullsFirst : bool) : Datum * bool -> Datum * bool -> Z :=
  apply_key (mkKey (Z.lor (if reverse then SK_BT_DESC else 0) (if nullsFirst then SK_BT_NULLS_FIRST else 0)) 1 fn).

Lemma datum_run op fn reverse nullsFirst workMem ra vals slave :
  get_compare_function_for_ordering_op op = Some (fn, reverse) -> SortFunction fn -> memory_ok overhead workMem -> Forall ok vals ->
  exists out, run op nullsFirst workMem ra vals slave (S (length vals)) = Ok out /\ out ≡ₚ kept <$> vals /\ sorted (datum_order fn reverse nullsFirst) out.
Proof using pointers.
  intros Hop Hfn Hm Hok. unfold datum_sort, tuplesort_begin_datum. rewrite Hop.
  set (k := mkDatumKey _ fn). replace k with (mkDatumKey (Z.lor (if reverse then SK_BT_DESC else 0) (if nullsFirst then SK_BT_NULLS_FIRST else 0)) fn) by (by destruct reverse, nullsFirst). clear k.
  set (k := mkDatumKey _ fn).
  destruct (sort_run_all (fun k => SortFunction (sortOpFn k)) junk overhead workMem ra k (tup <$> vals) slave ltac:(done) Hfn Hm) as (out & He & Hp & Hs).
  { apply Forall_fmap. eapply Forall_impl; [exact Hok|]. intros v. apply datum_tuple_good. }
  unfold sort_run in He. change (datum_methods DatumGetPointer PointerGetDatum ty chunk_space space) with sort_methods. destruct (tuplesort_begin_common junk workMem ra k) as [s|e]; [|done].
  unfold mbind, M_bind, mret, M_ret in *. rewrite put_datums_all by done. change (methods DatumGetPointer PointerGetDatum ty chunk_space overhead) with sort_methods.
  destruct (put_all junk _ s) as [[[] s1]|e]; [|done]. destruct (tuplesort_performsort s1) as [[[] s2]|e]; [|done].
  rewrite length_fmap in He. destruct (get_all slave _ s2) as [[out' s3]|e] eqn:Eg; [|done]. injection He as ->.
  erewrite get_datums_all; [|exact Eg|].
  - eexists. split; [reflexivity|]. split.
    + apply (fmap_Permutation (fun x => (datum1 x, isnull1 x))) in Hp. rewrite <- !list_fmap_compose in Hp.
      assert (E1 : (fun x => (datum1 x, isnull1 x)) ∘ norm <$> out = (fun x => (datum1 x, isnull1 x)) <$> out) by (apply list_fmap_ext; by intros ? [] _).
      rewrite E1 in Hp. rewrite Hp. apply Permutation_refl'. apply list_fmap_ext. intros i v Hv. cbn. apply datum_tuple_value; [done|]. by eapply Forall_lookup_1.
    + by apply (sorted_fmap _ (datum_order fn reverse nullsFirst)).
  - apply Forall_forall. intros x Hx.
    assert (Hx' : norm x ∈ norm <$> (tup <$> vals)) by (rewrite <- Hp; by apply list_elem_of_fmap_2).
    apply list_elem_of_fmap in Hx' as (y & E & (v & -> & Hv)%list_elem_of_fmap). apply (fetchable_norm (tup v) x); [done|]. apply datum_tuple_fetchable. rewrite Forall_forall in Hok. by apply Hok.
Qed.
End runs.

(** [w] is the value [v], or for a type by reference a copy of as many bytes as it is long. *)
Definition same_datum (DatumGetPointer : Datum -> option (list byte)) (ty : datum_type) (v w : Datum * bool) : Prop :=
  snd w = snd v /\
  (if snd v || typByVal ty then fst w = fst v
   else exists s n, DatumGetPointer (fst v) = Some s /\ datumGetSize DatumGetPointer (fst v) false (typLen ty) = Ok n /\ DatumGetPointer (fst w) = Some (take n s)).

Lemma stored_same DatumGetPointer PointerGetDatum ty v : (forall p, DatumGetPointer (PointerGetDatum p) = Some p) -> datum_ok DatumGetPointer ty v ->
  same_datum DatumGetPointer ty v (stored DatumGetPointer PointerGetDatum ty v).
Proof.
  intros Hp. unfold datum_ok, same_datum, stored. destruct v as [d n]. cbn [fst snd]. destruct n; [done|]. destruct (typByVal ty); [done|]. intros (s & n & H). cbn [orb].
  rewrite (ref_value_datumCopy _ _ _ _ _ _ H). cbn [fst snd]. split; [done|]. destruct H as (H1 & H2 & _). by exists s, n.
Qed.

(** C13: A sort of single values.  An operator that has no comparison function is refused.  Otherwise the values come back in the order
    of the operator, with the NULLs where the caller wants them: the very values for a type by value, and for a type by reference
    copies of their bytes, of the length that the type or the header of the value gives, whether they stayed in memory or went over tapes. *)
Theorem datum_sort_correct DatumGetPointer PointerGetDatum ty chunk_space overhead get_compare_function junk op nullsFirst workMem ra vals slave :
  let sorting := datum_sort DatumGetPointer PointerGetDatum ty chunk_space (fun n => (24 * Z.of_nat n + overhead)%Z) get_compare_function junk op nullsFirst workMem ra vals slave (S (length vals)) in
  (forall p, DatumGetPointer (PointerGetDatum p) = Some p) -> memory_ok overhead workMem ->
  match get_compare_function op with
  | None => sorting = Err (EElog "operator is not a valid ordering operator")
  | Some (fn, reverse) =>
    SortFunction fn -> Forall (datum_ok DatumGetPointer ty) vals ->
    exists out ws, sorting = Ok out /\ Forall2 (same_datum DatumGetPointer ty) vals ws /\ out ≡ₚ ws /\ sorted (datum_order fn reverse nullsFirst) out
  end.
Proof.
  intros sorting Hp Hm. unfold sorting. destruct (get_compare_function op) as [[fn reverse]|] eqn:E.
  - intros Hfn Hok. destruct (datum_run DatumGetPointer PointerGetDatum Hp ty chunk_space overhead get_compare_function junk op fn reverse nullsFirst workMem ra vals slave E Hfn Hm Hok) as (out & He & Hpm & Hs).
    exists out, (stored DatumGetPointer PointerGetDatum ty <$> vals). split_and!; [done| |done|done]. apply Forall2_fmap_r, Forall_Forall2_diag.
    eapply Forall_impl; [exact Hok|]. intros v. by apply stored_same.
  - unfold datum_sort, tuplesort_begin_datum. rewrite E. unfold tuplesort_begin_common. unfold memory_ok in Hm. cbn [array_space datum_methods].
    rewrite (proj2 (Z.ltb_ge _ _)) by lia. done.
Qed.

(** ** Witnesses *)

(** Pointers as encoded sequences of bytes. *)
Definition demo_pointer (p : list byte) : Datum := Z.pos (encode p).
Definition demo_deref (d : Datum) : option (list byte) := match d with Z.pos e => decode e | _ => None end.
Lemma demo_pointers p : demo_deref (demo_pointer p) = Some p.
Proof. apply decode_encode. Qed.
(** Text with a short header, ordered by the byte after it. *)
Definition demo_text : datum_type := mkType (-1) false.
Definition demo_char (d : Datum) : Z := match demo_deref d with Some (_ :: c :: _) => c | _ => 0%Z end.
Definition demo_text_cmp (a b : Datum) : Z := cmp_int (demo_char a) (demo_char b).
Lemma demo_text_cmp_ok : SortFunction demo_text_cmp.
Proof.
  split.
  - apply (proj_laws demo_char (fun x y => DatumGetInt32 (cmp_int x y))).
  - intros x y. apply (Forall_inv demo_keys_ok).
Qed.
Definition demo_lookup (op : Z) : option ((Datum -> Datum -> Z) * bool) := if (op =? 664)%Z then Some (demo_text_cmp, true) else None.
(** The bytes behind the value are not part of it. *)
Definition demo_values : list (Datum * bool) := [(demo_pointer [5; 98; 0; 7]%Z, false); (0%Z, true); (demo_pointer [5; 100]%Z, false); (demo_pointer [7; 97; 97]%Z, false)].
Definition demo_datum_junk : SortTuple (option (list byte)) := mkSortTuple None 0%Z true 0%Z.

Lemma datum_sort_correct_witness :
  (exists out, datum_sort demo_deref demo_pointer demo_text (fun _ => 400%Z) (fun n => (24 * Z.of_nat n + 16)%Z) demo_lookup demo_datum_junk 664 true 25 false demo_values false 5 = Ok out /\
    out = [(0%Z, true); (demo_pointer [5; 100]%Z, false); (demo_pointer [5; 98]%Z, false); (demo_pointer [7; 97; 97]%Z, false)]) /\
  datum_sort demo_deref demo_pointer demo_text (fun _ => 400%Z) (fun n => (24 * Z.of_nat n + 16)%Z) demo_lookup demo_datum_junk 97 true 25 false demo_values false 5 =
    Err (EElog "operator is not a valid ordering operator").
Proof.
  split.
  - destruct (datum_sort_correct demo_deref demo_pointer demo_text (fun _ => 400%Z) 16 demo_lookup demo_datum_junk 664 true 25 false demo_values false demo_pointers) as (out & ws & He & _).
    + vm_compute; discriminate.
    + exact demo_text_cmp_ok.
    + repeat apply Forall_cons_2; [..|apply Forall_nil_2]; [|reflexivity|..]; (eexists _, _; split; [apply demo_pointers|split; [vm_compute; reflexivity|split_and!; [lia|cbn; lia|lia|intros _; vm_compute; lia]]]).
    + exists out. split; [exact He|]. vm_compute in He. injection He as <-. reflexivity.
  - apply (datum_sort_correct demo_deref demo_pointer demo_text (fun _ => 400%Z) 16 demo_lookup demo_datum_junk 97 true 25 false demo_values false demo_pointers). vm_compute; discriminate.
Defined.
