(* ===== verification/PgList.v ===== *)
(** * PgList: the linked list package (src/backend/nodes/list.c, pg_list.h)

    Cells and list headers live in a store, as palloc'd objects do, so that the
    destructive operations, the sharing [list_concat] introduces and the use of
    freed cells are all visible.  [list_rep] relates a list pointer to the
    sequence of its cells; each operation is shown to implement its operation
    on sequences and to leave the rest of the store alone. *)

From S2P Require Import Prelude.

(** ** Data (pg_list.h) *)

Inductive NodeTag := T_List | T_IntList | T_OidList.
#[export] Instance NodeTag_eq_dec : EqDecision NodeTag.
Proof. solve_decision. Defined.

(** The union [data] of a ListCell, with the member that was written last. *)
Inductive ListData :=
| ptr_value (p : ptr)
| int_value (z : Z)
| oid_value (o : Z).
#[export] Instance ListData_eq_dec : EqDecision ListData.
Proof. solve_decision. Defined.

Record ListCell := mkCell { c_data : option ListData; c_next : ptr }.
Record List := mkList { l_type : NodeTag; l_length : Z; l_head : ptr; l_tail : ptr }.

(** palloc'd memory: cells, list headers and other objects, by address.
    [brk] is the next address palloc hands out. *)
Record store := mkStore {
  cells : gmap addr ListCell;
  lists : gmap addr List;
  objs : gset addr;
  brk : addr }.

Definition NIL : ptr := None.

Abbreviation LM := (M store).

Definition set_cells (f : gmap addr ListCell -> gmap addr ListCell) (s : store) : store :=
  mkStore (f (cells s)) (lists s) (objs s) (brk s).
Definition set_lists (f : gmap addr List -> gmap addr List) (s : store) : store :=
  mkStore (cells s) (f (lists s)) (objs s) (brk s).

(** *** Memory primitives *)

Definition palloc_cell (c : ListCell) : LM addr := fun s =>
  Ok (brk s, mkStore (<[brk s := c]> (cells s)) (lists s) (objs s) (Pos.succ (brk s))).
Definition palloc_list (l : List) : LM addr := fun s =>
  Ok (brk s, mkStore (cells s) (<[brk s := l]> (lists s)) (objs s) (Pos.succ (brk s))).
Definition pfree_cell (p : addr) : LM unit := fun s =>
  match cells s !! p with
  | Some _ => Ok (tt, set_cells (delete p) s)
  | None => Err EUndef
  end.
Definition pfree_list (p : addr) : LM unit := fun s =>
  match lists s !! p with
  | Some _ => Ok (tt, set_lists (delete p) s)
  | None => Err EUndef
  end.
Definition pfree_obj (p : ptr) : LM unit := fun s =>
  match p with
  | Some a => if decide (a ∈ objs s)
              then Ok (tt, mkStore (cells s) (lists s) (objs s ∖ {[a]}) (brk s))
              else Err EUndef
  | None => Err EUndef
  end.

(** [c->f] for a cell and a list pointer; NULL and freed objects are undefined. *)
Definition get_cell (p : ptr) : LM ListCell := fun s =>
  match p ≫= (fun a => cells s !! a) with Some c => Ok (c, s) | None => Err EUndef end.
Definition get_list (l : ptr) : LM List := fun s =>
  match l ≫= (fun a => lists s !! a) with Some c => Ok (c, s) | None => Err EUndef end.
Definition upd_cell (p : ptr) (f : ListCell -> ListCell) : LM unit := fun s =>
  match p with
  | Some a => match cells s !! a with
              | Some c => Ok (tt, set_cells (<[a := f c]>) s)
              | None => Err EUndef
              end
  | None => Err EUndef
  end.
Definition upd_list (l : ptr) (f : List -> List) : LM unit := fun s =>
  match l with
  | Some a => match lists s !! a with
              | Some c => Ok (tt, set_lists (<[a := f c]>) s)
              | None => Err EUndef
              end
  | None => Err EUndef
  end.

Definition set_next (n : ptr) (c : ListCell) : ListCell := mkCell (c_data c) n.
Definition set_data (d : ListData) (c : ListCell) : ListCell := mkCell (Some d) (c_next c).
Definition set_length (f : Z -> Z) (l : List) : List := mkList (l_type l) (f (l_length l)) (l_head l) (l_tail l).
Definition set_head (h : ptr) (l : List) : List := mkList (l_type l) (l_length l) h (l_tail l).
Definition set_tail (t : ptr) (l : List) : List := mkList (l_type l) (l_length l) (l_head l) t.

Definition lnext (p : ptr) : LM ptr := c ← get_cell p; mret (c_next c).

(** [lfirst], [lfirst_int], [lfirst_oid]: reading another member of the union
    than the one written, or a cell whose data was never set, is undefined. *)
Definition lfirst_data (p : ptr) : LM ListData := c ← get_cell p; deref (c_data c).
Definition lfirst (p : ptr) : LM ptr :=
  d ← lfirst_data p; match d with ptr_value v => mret v | _ => mfail EUndef end.
Definition lfirst_int (p : ptr) : LM Z :=
  d ← lfirst_data p; match d with int_value v => mret v | _ => mfail EUndef end.
Definition lfirst_oid (p : ptr) : LM Z :=
  d ← lfirst_data p; match d with oid_value v => mret v | _ => mfail EUndef end.

Definition list_head (l : ptr) : LM ptr :=
  match l with Some _ => lh ← get_list l; mret (l_head lh) | None => mret None end.
Definition list_tail (l : ptr) : LM ptr :=
  match l with Some _ => lh ← get_list l; mret (l_tail lh) | None => mret None end.
Definition list_length (l : ptr) : LM Z :=
  match l with Some _ => lh ← get_list l; mret (l_length lh) | None => mret 0%Z end.

(** [foreach(cell, list) body]: the body returns [Some r] to leave the enclosing
    function with [r].  The walk is bounded by the number of cells in the store:
    a chain that is longer visits a cell twice and the C loop does not end. *)
Fixpoint for_each_cell {A B} (fuel : nat) (cell : ptr) (acc : A)
    (body : ptr -> A -> LM (A + B)) : LM (A + B) :=
  match cell with
  | None => mret (inl acc)
  | Some _ =>
    match fuel with
    | O => mfail EDiverge
    | S fuel' =>
      r ← body cell acc;
      match r with
      | inr b => mret (inr b)
      | inl acc' => n ← lnext cell; for_each_cell fuel' n acc' body
      end
    end
  end.

Definition foreach {A B} (l : ptr) (acc : A) (body : ptr -> A -> LM (A + B)) : LM (A + B) :=
  h ← list_head l; s ← mget; for_each_cell (size (cells s)) h acc body.

(** ** Operations (list.c) *)

Definition is_type (t : NodeTag) (l : ptr) : LM bool :=
  match l with Some _ => lh ← get_list l; mret (bool_decide (l_type lh = t)) | None => mret true end.
Definition IsPointerList : ptr -> LM bool := is_type T_List.
Definition IsIntegerList : ptr -> LM bool := is_type T_IntList.
Definition IsOidList : ptr -> LM bool := is_type T_OidList.

Definition AssertM (m : LM bool) : LM unit := b ← m; Assert b.

Definition check_list_invariants (l : ptr) : LM unit :=
  match l with
  | None => mret tt
  | Some _ =>
    lh ← get_list l;
    Assert (bool_decide (0 < l_length lh)%Z);;
    Assert (bool_decide (l_head lh ≠ None));;
    Assert (bool_decide (l_tail lh ≠ None));;
    Assert (bool_decide (l_type lh = T_List ∨ l_type lh = T_IntList ∨ l_type lh = T_OidList));;
    (if decide (l_length lh = 1%Z)
     then Assert (bool_decide (l_head lh = l_tail lh)) else mret tt);;
    (if decide (l_length lh = 2%Z)
     then n ← lnext (l_head lh); Assert (bool_decide (n = l_tail lh)) else mret tt);;
    n ← lnext (l_tail lh);
    Assert (bool_decide (n = None))
  end.

Definition new_list (ty : NodeTag) : LM ptr :=
  new_head ← palloc_cell (mkCell None None);
  new_list ← palloc_list (mkList ty 1 (Some new_head) (Some new_head));
  mret (Some new_list).

Definition new_head_cell (l : ptr) : LM unit :=
  lh ← get_list l;
  new_head ← palloc_cell (mkCell None (l_head lh));
  upd_list l (set_head (Some new_head));;
  upd_list l (set_length (Z.add 1)).

Definition new_tail_cell (l : ptr) : LM unit :=
  new_tail ← palloc_cell (mkCell None None);
  lh ← get_list l;
  upd_cell (l_tail lh) (set_next (Some new_tail));;
  upd_list l (set_tail (Some new_tail));;
  upd_list l (set_length (Z.add 1)).

(** The three typed variants of an operation differ in the node tag they assert
    and create and in the union member they write. *)
Definition lappend_as (ty : NodeTag) (l : ptr) (d : ListData) : LM ptr :=
  AssertM (is_type ty l);;
  l' ← (match l with
        | None => new_list ty
        | Some _ => new_tail_cell l;; mret l
        end);
  lh ← get_list l';
  upd_cell (l_tail lh) (set_data d);;
  check_list_invariants l';;
  mret l'.
Definition lappend (l : ptr) (datum : ptr) : LM ptr := lappend_as T_List l (ptr_value datum).
Definition lappend_int (l : ptr) (datum : Z) : LM ptr := lappend_as T_IntList l (int_value datum).
Definition lappend_oid (l : ptr) (datum : Z) : LM ptr := lappend_as T_OidList l (oid_value datum).

Definition add_new_cell (l : ptr) (prev_cell : ptr) : LM ptr :=
  pc ← get_cell prev_cell;
  new_cell ← palloc_cell (mkCell None (c_next pc));
  upd_cell prev_cell (set_next (Some new_cell));;
  lh ← get_list l;
  (if decide (l_tail lh = prev_cell) then upd_list l (set_tail (Some new_cell)) else mret tt);;
  upd_list l (set_length (Z.add 1));;
  mret (Some new_cell).

Definition lappend_cell_as (ty : NodeTag) (l prev : ptr) (d : ListData) : LM ptr :=
  AssertM (is_type ty l);;
  new_cell ← add_new_cell l prev;
  upd_cell new_cell (set_data d);;
  check_list_invariants l;;
  mret new_cell.
Definition lappend_cell (l prev datum : ptr) : LM ptr := lappend_cell_as T_List l prev (ptr_value datum).
Definition lappend_cell_int (l prev : ptr) (datum : Z) : LM ptr :=
  lappend_cell_as T_IntList l prev (int_value datum).
Definition lappend_cell_oid (l prev : ptr) (datum : Z) : LM ptr :=
  lappend_cell_as T_OidList l prev (oid_value datum).

Definition lcons_as (ty : NodeTag) (d : ListData) (l : ptr) : LM ptr :=
  AssertM (is_type ty l);;
  l' ← (match l with
        | None => new_list ty
        | Some _ => new_head_cell l;; mret l
        end);
  lh ← get_list l';
  upd_cell (l_head lh) (set_data d);;
  check_list_invariants l';;
  mret l'.
Definition lcons (datum : ptr) (l : ptr) : LM ptr := lcons_as T_List (ptr_value datum) l.
Definition lcons_int (datum : Z) (l : ptr) : LM ptr := lcons_as T_IntList (int_value datum) l.
Definition lcons_oid (datum : Z) (l : ptr) : LM ptr := lcons_as T_OidList (oid_value datum) l.

Definition list_concat (list1 list2 : ptr) : LM ptr :=
  match list1, list2 with
  | None, _ => mret list2
  | _, None => mret list1
  | Some _, Some _ =>
    if decide (list1 = list2) then mfail (EElog "cannot list_concat() a list to itself") else
    l1 ← get_list list1;
    l2 ← get_list list2;
    Assert (bool_decide (l_type l1 = l_type l2));;
    upd_list list1 (set_length (Z.add (l_length l2)));;
    upd_cell (l_tail l1) (set_next (l_head l2));;
    upd_list list1 (set_tail (l_tail l2));;
    check_list_invariants list1;;
    mret list1
  end.

Definition list_truncate (l : ptr) (new_size : Z) : LM ptr :=
  if decide (new_size ≤ 0)%Z then mret NIL else
  len ← list_length l;
  if decide (len ≤ new_size)%Z then mret l else
  r ← foreach l 1%Z (fun cell n =>
        if decide (n = new_size) then
          upd_cell cell (set_next None);;
          upd_list l (set_tail cell);;
          upd_list l (set_length (fun _ => new_size));;
          check_list_invariants l;;
          mret (inr l)
        else mret (inl (n + 1)%Z));
  match r with
  | inr l' => mret l'
  | inl _ => Assert false;; mret l
  end.

(** [for (match = list->head; n-- > 0; match = match->next);] *)
Fixpoint skip_cells (n : nat) (p : ptr) : LM ptr :=
  match n with O => mret p | S n' => p' ← lnext p; skip_cells n' p' end.

Definition list_nth_cell (l : ptr) (n : Z) : LM ptr :=
  Assert (bool_decide (l ≠ NIL));;
  Assert (bool_decide (0 ≤ n)%Z);;
  lh ← get_list l;
  Assert (bool_decide (n < l_length lh)%Z);;
  check_list_invariants l;;
  if decide (n = l_length lh - 1)%Z then mret (l_tail lh)
  else skip_cells (Z.to_nat n) (l_head lh).

Definition list_nth (l : ptr) (n : Z) : LM ptr :=
  AssertM (IsPointerList l);; c ← list_nth_cell l n; lfirst c.
Definition list_nth_int (l : ptr) (n : Z) : LM Z :=
  AssertM (IsIntegerList l);; c ← list_nth_cell l n; lfirst_int c.
Definition list_nth_oid (l : ptr) (n : Z) : LM Z :=
  AssertM (IsOidList l);; c ← list_nth_cell l n; lfirst_oid c.

(** The loop shared by the [list_member] variants; [test] reads the cell. *)
Definition list_member_by (ty : NodeTag) (test : ptr -> LM bool) (l : ptr) : LM bool :=
  AssertM (is_type ty l);;
  check_list_invariants l;;
  r ← foreach l tt (fun cell _ => b ← test cell; mret (if (b : bool) then inr true else inl tt));
  mret (match r with inr b => b | inl _ => false end).

Definition test_ptr (datum : ptr) (cell : ptr) : LM bool :=
  v ← lfirst cell; mret (bool_decide (v = datum)).
Definition test_int (datum : Z) (cell : ptr) : LM bool :=
  v ← lfirst_int cell; mret (bool_decide (v = datum)).
Definition test_oid (datum : Z) (cell : ptr) : LM bool :=
  v ← lfirst_oid cell; mret (bool_decide (v = datum)).

Definition list_member_ptr (l datum : ptr) : LM bool := list_member_by T_List (test_ptr datum) l.
Definition list_member_int (l : ptr) (datum : Z) : LM bool := list_member_by T_IntList (test_int datum) l.
Definition list_member_oid (l : ptr) (datum : Z) : LM bool := list_member_by T_OidList (test_oid datum) l.

(** [list_free_private(list, deep)]: the loop frees each cell after reading its
    successor, then the header. *)
Fixpoint free_cells (fuel : nat) (deep : bool) (cell : ptr) : LM unit :=
  match cell with
  | None => mret tt
  | Some tmp =>
    match fuel with
    | O => mfail EDiverge
    | S fuel' =>
      n ← lnext cell;
      (if deep then v ← lfirst (Some tmp); pfree_obj v else mret tt);;
      pfree_cell tmp;;
      free_cells fuel' deep n
    end
  end.

Definition list_free_private (l : ptr) (deep : bool) : LM unit :=
  check_list_invariants l;;
  cell ← list_head l;
  s ← mget;
  free_cells (size (cells s)) deep cell;;
  match l with Some a => pfree_list a | None => mret tt end.

Definition list_free (l : ptr) : LM unit := list_free_private l false.
Definition list_free_deep (l : ptr) : LM unit :=
  AssertM (IsPointerList l);; list_free_private l true.

Definition list_delete_cell (l cell prev : ptr) : LM ptr :=
  check_list_invariants l;;
  AssertM (match prev with
           | Some _ => n ← lnext prev; mret (bool_decide (n = cell))
           | None => h ← list_head l; mret (bool_decide (h = cell))
           end);;
  lh ← get_list l;
  if decide (l_length lh = 1%Z) then list_free l;; mret NIL else
  upd_list l (set_length (fun n => n - 1)%Z);;
  c ← get_cell cell;
  match prev with
  | Some _ => upd_cell prev (set_next (c_next c))
  | None => upd_list l (set_head (c_next c))
  end;;
  (if decide (l_tail lh = cell) then upd_list l (set_tail prev) else mret tt);;
  a ← deref cell;
  pfree_cell a;;
  mret l.

(** The loop shared by the [list_delete] variants. *)
Definition list_delete_by (ty : NodeTag) (test : ptr -> LM bool) (l : ptr) : LM ptr :=
  AssertM (is_type ty l);;
  check_list_invariants l;;
  r ← foreach l None (fun cell prev =>
        b ← test cell;
        if (b : bool) then l' ← list_delete_cell l cell prev; mret (inr l')
        else mret (inl cell));
  mret (match r with inr l' => l' | inl _ => l end).

Definition list_delete_ptr (l datum : ptr) : LM ptr := list_delete_by T_List (test_ptr datum) l.
Definition list_delete_int (l : ptr) (datum : Z) : LM ptr := list_delete_by T_IntList (test_int datum) l.
Definition list_delete_oid (l : ptr) (datum : Z) : LM ptr := list_delete_by T_OidList (test_oid datum) l.

Definition list_delete_first (l : ptr) : LM ptr :=
  check_list_invariants l;;
  match l with
  | None => mret NIL
  | Some _ => h ← list_head l; list_delete_cell l h None
  end.

(** The copying loop shared by [list_copy] and [list_copy_tail]; it returns the
    last cell of the copy. *)
Fixpoint copy_cells (fuel : nat) (oldlist_cur newlist_prev : ptr) : LM ptr :=
  match oldlist_cur with
  | None => mret newlist_prev
  | Some _ =>
    match fuel with
    | O => mfail EDiverge
    | S fuel' =>
      oc ← get_cell oldlist_cur;
      newlist_cur ← palloc_cell (mkCell (c_data oc) None);
      upd_cell newlist_prev (set_next (Some newlist_cur));;
      copy_cells fuel' (c_next oc) (Some newlist_cur)
    end
  end.

(** From the cell [cur] on, copy into the one-cell list [newlist]. *)
Definition copy_from (cur newlist : ptr) : LM ptr :=
  c ← get_cell cur;
  nl ← get_list newlist;
  upd_cell (l_head nl) (fun h => mkCell (c_data c) (c_next h));;
  s ← mget;
  newlist_prev ← copy_cells (size (cells s)) (c_next c) (l_head nl);
  upd_cell newlist_prev (set_next None);;
  upd_list newlist (set_tail newlist_prev);;
  check_list_invariants newlist;;
  mret newlist.

Definition list_copy (oldlist : ptr) : LM ptr :=
  match oldlist with
  | None => mret NIL
  | Some _ =>
    ol ← get_list oldlist;
    newlist ← new_list (l_type ol);
    upd_list newlist (set_length (fun _ => l_length ol));;
    copy_from (l_head ol) newlist
  end.

Definition list_copy_tail (oldlist : ptr) (nskip : Z) : LM ptr :=
  let nskip := if decide (nskip < 0)%Z then 0%Z else nskip in
  match oldlist with
  | None => mret NIL
  | Some _ =>
    ol ← get_list oldlist;
    if decide (l_length ol ≤ nskip)%Z then mret NIL else
    newlist ← new_list (l_type ol);
    upd_list newlist (set_length (fun _ => l_length ol - nskip)%Z);;
    oldlist_cur ← skip_cells (Z.to_nat nskip) (l_head ol);
    copy_from oldlist_cur newlist
  end.

(** The loops of the set operations.  [append_if keep src result] walks [src] and
    appends to [result] each datum [d] for which [keep result d] holds, as the
    loops of list_union, list_intersection, list_difference and
    list_concat_unique do. *)
Definition append_if (ty : NodeTag) (keep : ptr -> ListData -> LM bool) (src result : ptr) : LM ptr :=
  r ← foreach (B:=ptr) src result (fun cell result =>
        d ← lfirst_data cell;
        b ← keep result d;
        if (b : bool) then result' ← lappend_as ty result d; mret (inl result')
        else mret (inl result));
  mret (match r with inl l => l | inr l => l end).

Definition member_as_ptr (l : ptr) (d : ListData) : LM bool :=
  match d with ptr_value v => list_member_ptr l v | _ => mfail EUndef end.
Definition member_as_int (l : ptr) (d : ListData) : LM bool :=
  match d with int_value v => list_member_int l v | _ => mfail EUndef end.
Definition member_as_oid (l : ptr) (d : ListData) : LM bool :=
  match d with oid_value v => list_member_oid l v | _ => mfail EUndef end.

Definition not_member (mem : ptr -> ListData -> LM bool) (l : ptr) (d : ListData) : LM bool :=
  b ← mem l d; mret (negb b).

Definition list_union_by (ty : NodeTag) (mem : ptr -> ListData -> LM bool) (list1 list2 : ptr) : LM ptr :=
  AssertM (is_type ty list1);;
  AssertM (is_type ty list2);;
  result ← list_copy list1;
  result' ← append_if ty (not_member mem) list2 result;
  check_list_invariants result';;
  mret result'.

Definition list_difference_by (ty : NodeTag) (mem : ptr -> ListData -> LM bool) (list1 list2 : ptr) : LM ptr :=
  AssertM (is_type ty list1);;
  AssertM (is_type ty list2);;
  match list2 with
  | None => list_copy list1
  | Some _ =>
    result ← append_if ty (fun _ d => not_member mem list2 d) list1 NIL;
    check_list_invariants result;;
    mret result
  end.

Definition list_append_unique_by (ty : NodeTag) (mem : ptr -> ListData -> LM bool) (l : ptr) (d : ListData) : LM ptr :=
  b ← mem l d;
  if (b : bool) then mret l else lappend_as ty l d.

Definition list_concat_unique_by (ty : NodeTag) (mem : ptr -> ListData -> LM bool) (list1 list2 : ptr) : LM ptr :=
  AssertM (is_type ty list1);;
  AssertM (is_type ty list2);;
  list1' ← append_if ty (not_member mem) list2 list1;
  check_list_invariants list1';;
  mret list1'.

Definition list_union_ptr : ptr -> ptr -> LM ptr := list_union_by T_List member_as_ptr.
Definition list_union_int : ptr -> ptr -> LM ptr := list_union_by T_IntList member_as_int.
Definition list_union_oid : ptr -> ptr -> LM ptr := list_union_by T_OidList member_as_oid.
Definition list_difference_ptr : ptr -> ptr -> LM ptr := list_difference_by T_List member_as_ptr.
Definition list_difference_int : ptr -> ptr -> LM ptr := list_difference_by T_IntList member_as_int.
Definition list_difference_oid : ptr -> ptr -> LM ptr := list_difference_by T_OidList member_as_oid.
Definition list_append_unique_ptr (l datum : ptr) : LM ptr :=
  list_append_unique_by T_List member_as_ptr l (ptr_value datum).
Definition list_append_unique_int (l : ptr) (datum : Z) : LM ptr :=
  list_append_unique_by T_IntList member_as_int l (int_value datum).
Definition list_append_unique_oid (l : ptr) (datum : Z) : LM ptr :=
  list_append_unique_by T_OidList member_as_oid l (oid_value datum).
Definition list_concat_unique_ptr : ptr -> ptr -> LM ptr := list_concat_unique_by T_List member_as_ptr.
Definition list_concat_unique_int : ptr -> ptr -> LM ptr := list_concat_unique_by T_IntList member_as_int.
Definition list_concat_unique_oid : ptr -> ptr -> LM ptr := list_concat_unique_by T_OidList member_as_oid.

(** *** The variants on nodes compare with [equal()]

    [equal] stands for equalfuncs.c: any comparison of the nodes two pointers
    lead to; the theorems hold for every such function. *)
Section NodeLists.
Variable equal : ptr -> ptr -> bool.

Definition test_equal (datum : ptr) (cell : ptr) : LM bool :=
  v ← lfirst cell; mret (equal v datum).
Definition list_member (l datum : ptr) : LM bool := list_member_by T_List (test_equal datum) l.
Definition list_delete (l datum : ptr) : LM ptr := list_delete_by T_List (test_equal datum) l.
Definition member_as_node (l : ptr) (d : ListData) : LM bool :=
  match d with ptr_value v => list_member l v | _ => mfail EUndef end.
Definition list_union : ptr -> ptr -> LM ptr := list_union_by T_List member_as_node.
Definition list_intersection (list1 list2 : ptr) : LM ptr :=
  match list1, list2 with
  | None, _ | _, None => mret NIL
  | Some _, Some _ =>
    AssertM (IsPointerList list1);;
    AssertM (IsPointerList list2);;
    result ← append_if T_List (fun _ d => member_as_node list2 d) list1 NIL;
    check_list_invariants result;;
    mret result
  end.
Definition list_difference : ptr -> ptr -> LM ptr := list_difference_by T_List member_as_node.
Definition list_append_unique (l datum : ptr) : LM ptr :=
  list_append_unique_by T_List member_as_node l (ptr_value datum).
Definition list_concat_unique : ptr -> ptr -> LM ptr := list_concat_unique_by T_List member_as_node.
End NodeLists.

(** ** Representation *)

(** [lseg cs h pl t]: from [h], the cells [pl] (address and datum, in order) lead
    to the pointer [t]. *)
Fixpoint lseg (cs : gmap addr ListCell) (h : ptr) (pl : list (addr * ListData)) (t : ptr) : Prop :=
  match pl with
  | [] => h = t
  | (p, d) :: pl' => h = Some p /\ exists n, cs !! p = Some (mkCell (Some d) n) /\ lseg cs n pl' t
  end.

Definition list_rep (s : store) (l : ptr) (ty : NodeTag) (pl : list (addr * ListData)) : Prop :=
  match l with
  | None => pl = []
  | Some a => exists h q,
      lists s !! a = Some (mkList ty (Z.of_nat (base.length pl)) h (Some q)) /\
      last pl.*1 = Some q /\ NoDup pl.*1 /\ lseg (cells s) h pl None
  end.

(** Nothing is allocated at or above the break. *)
Definition wf (s : store) : Prop :=
  forall a, (brk s <= a)%positive -> cells s !! a = None /\ lists s !! a = None.

(** Everything that was allocated outside the list [l] with cells [pl] is as it was. *)
Definition frame (l : ptr) (pl : list (addr * ListData)) (s s' : store) : Prop :=
  (brk s <= brk s')%positive /\
  (forall a, (a < brk s)%positive -> a ∉ pl.*1 -> cells s' !! a = cells s !! a) /\
  (forall a, (a < brk s)%positive -> Some a <> l -> lists s' !! a = lists s !! a).

(** The new list is made of the old one's cells and of fresh ones. *)
Definition owns (b : addr) (l : ptr) (pl : list (addr * ListData)) (l' : ptr) (pl' : list (addr * ListData)) : Prop :=
  (forall a, l' = Some a -> l = Some a \/ (b <= a)%positive) /\
  (forall a, a ∈ pl'.*1 -> a ∈ pl.*1 \/ (b <= a)%positive).

Record refines (s s' : store) (l l' : ptr) (ty : NodeTag) (pl pl' : list (addr * ListData)) : Prop := {
  rf_wf : wf s';
  rf_rep : list_rep s' l' ty pl';
  rf_frame : frame l pl s s';
  rf_own : owns (brk s) l pl l' pl' }.

(** Two lists with no cell and no header in common. *)
Definition disjoint_lists (l1 : ptr) (pl1 : list (addr * ListData)) (l2 : ptr) (pl2 : list (addr * ListData)) : Prop :=
  (forall a, l1 = Some a -> l2 <> Some a) /\ (forall a, a ∈ pl1.*1 -> a ∉ pl2.*1).

(** ** Lemmas on chains of cells *)

Lemma lseg_app cs h pl1 pl2 t :
  lseg cs h (pl1 ++ pl2) t <-> exists m, lseg cs h pl1 m /\ lseg cs m pl2 t.
Proof.
  revert h. induction pl1 as [|[p d] pl1 IH]; intros h; simpl; [naive_solver|].
  setoid_rewrite IH. naive_solver.
Qed.

(** Chains only depend on the cells they go through. *)
Lemma lseg_ext cs cs' h pl t :
  (forall a, a ∈ pl.*1 -> cs' !! a = cs !! a) -> lseg cs h pl t -> lseg cs' h pl t.
Proof.
  revert h. induction pl as [|[p d] pl IH]; intros h Hext; simpl; [done|].
  intros [-> (n & Hp & Hl)]. split; [done|]. exists n. split.
  - rewrite Hext; [done|]. simpl. set_solver.
  - apply IH; [|done]. intros a Ha. apply Hext. simpl. set_solver.
Qed.

Lemma lseg_insert cs h pl t a c :
  a ∉ pl.*1 -> lseg cs h pl t -> lseg (<[a := c]> cs) h pl t.
Proof. intros Ha. apply lseg_ext. intros b Hb. rewrite lookup_insert_ne; [done|]. set_solver. Qed.

Lemma lseg_delete cs h pl t a :
  a ∉ pl.*1 -> lseg cs h pl t -> lseg (delete a cs) h pl t.
Proof. intros Ha. apply lseg_ext. intros b Hb. rewrite lookup_delete_ne; [done|]. set_solver. Qed.

Lemma lseg_in cs h pl t a :
  lseg cs h pl t -> a ∈ pl.*1 -> is_Some (cs !! a).
Proof.
  revert h. induction pl as [|[p d] pl IH]; intros h; simpl; [set_solver|].
  intros [-> (n & Hp & Hl)] [->|Ha]%elem_of_cons; eauto.
Qed.

Lemma lseg_size cs h pl t :
  lseg cs h pl t -> NoDup pl.*1 -> base.length pl <= size cs.
Proof.
  intros Hl Hnd. rewrite <- (length_fmap fst pl), <- (size_list_to_set (C:=gset addr)) by done.
  rewrite <- size_dom. apply subseteq_size. intros a Ha.
  apply elem_of_list_to_set in Ha. apply elem_of_dom. by eapply lseg_in.
Qed.

Lemma lseg_snoc cs h pl p d t :
  lseg cs h (pl ++ [(p, d)]) t <->
  exists m, lseg cs h pl m /\ m = Some p /\ cs !! p = Some (mkCell (Some d) t).
Proof. rewrite lseg_app. simpl. naive_solver. Qed.

Lemma snoc_of_last (pl : list (addr * ListData)) q :
  last pl.*1 = Some q -> exists pl0 d, pl = pl0 ++ [(q, d)].
Proof.
  destruct pl as [|[p d] pl0 _] using rev_ind; [done|].
  rewrite fmap_app. simpl. rewrite last_snoc. intros [= ->]. eauto.
Qed.

Lemma NoDup_snoc_fst (pl : list (addr * ListData)) p d :
  NoDup (pl ++ [(p, d)]).*1 <-> p ∉ pl.*1 /\ NoDup pl.*1.
Proof.
  rewrite fmap_app. simpl. rewrite NoDup_app. split.
  - intros (H1 & H2 & _). set_solver.
  - intros [H1 H2]. split_and!; [done|set_solver|apply NoDup_singleton].
Qed.

(** The chain with the address and value of its last cell split off. *)
Lemma list_rep_split s a ty pl :
  list_rep s (Some a) ty pl ->
  exists pl0 q d h,
    pl = pl0 ++ [(q, d)] /\ q ∉ pl0.*1 /\ NoDup pl0.*1 /\
    lists s !! a = Some (mkList ty (Z.of_nat (base.length pl)) h (Some q)) /\
    lseg (cells s) h pl0 (Some q) /\ cells s !! q = Some (mkCell (Some d) None).
Proof.
  intros (h & q & Hl & Hlast & Hnd & Hseg).
  destruct (snoc_of_last _ _ Hlast) as (pl0 & d & ->).
  apply NoDup_snoc_fst in Hnd as [Hq Hnd]. apply lseg_snoc in Hseg as (m & Hs & -> & Hc).
  exists pl0, q, d, h. done.
Qed.

Lemma list_rep_join s a ty pl0 q d h :
  q ∉ pl0.*1 -> NoDup pl0.*1 ->
  lists s !! a = Some (mkList ty (Z.of_nat (base.length (pl0 ++ [(q, d)]))) h (Some q)) ->
  lseg (cells s) h pl0 (Some q) -> cells s !! q = Some (mkCell (Some d) None) ->
  list_rep s (Some a) ty (pl0 ++ [(q, d)]).
Proof.
  intros Hq Hnd Hl Hseg Hc. exists h, q. rewrite fmap_app. simpl. rewrite last_snoc. split_and!; [done|done| |].
  - change [q] with ([(q, d)].*1). rewrite <- fmap_app. by apply NoDup_snoc_fst.
  - apply lseg_snoc. eauto.
Qed.

Lemma list_rep_wf_fresh s l ty pl a :
  wf s -> list_rep s l ty pl -> (brk s <= a)%positive -> a ∉ pl.*1 /\ l <> Some a.
Proof.
  intros Hwf Hr Ha. destruct (Hwf a Ha) as [Hc Hl]. destruct l as [b|]; simpl in Hr.
  - destruct Hr as (h & q & Hb & _ & _ & Hseg). split; [|congruence].
    intros Hin. destruct (lseg_in _ _ _ _ _ Hseg Hin) as [? ?]. congruence.
  - subst. set_solver.
Qed.

(** A list that shares nothing with the one operated on survives the operation. *)
Lemma list_rep_frame s s' l pl l2 ty2 pl2 :
  wf s -> frame l pl s s' -> disjoint_lists l pl l2 pl2 ->
  list_rep s l2 ty2 pl2 -> list_rep s' l2 ty2 pl2.
Proof.
  intros Hwf (Hb & Hc & Hl) [Hd1 Hd2] Hr. destruct l2 as [b|]; [|done].
  pose proof Hr as (h & q & Hlb & Hlast & Hnd & Hseg).
  exists h, q. split_and!; [|done|done|].
  - rewrite Hl; [done| |intros Heq; by apply (Hd1 b)].
    apply Pos.lt_nle. intros Hge. by destruct (list_rep_wf_fresh _ _ _ _ b Hwf Hr Hge).
  - eapply lseg_ext; [|done]. intros a Ha. apply Hc.
    + apply Pos.lt_nle. intros Hge. by destruct (list_rep_wf_fresh _ _ _ _ a Hwf Hr Hge).
    + intros Hin. by apply (Hd2 a).
Qed.

Lemma frame_refl l pl s : frame l pl s s.
Proof. split; [lia|]. done. Qed.

Lemma refines_refl s l ty pl : wf s -> list_rep s l ty pl -> refines s s l l ty pl pl.
Proof. split; [done|done|apply frame_refl|split; auto]. Qed.

Lemma refines_trans s1 s2 s3 l1 l2 l3 ty pl1 pl2 pl3 :
  refines s1 s2 l1 l2 ty pl1 pl2 -> refines s2 s3 l2 l3 ty pl2 pl3 ->
  refines s1 s3 l1 l3 ty pl1 pl3.
Proof.
  intros [W1 R1 (B1 & C1 & L1) [O1 P1]] [W2 R2 (B2 & C2 & L2) [O2 P2]].
  split; [done|done| |].
  - split; [lia|]. split.
    + intros a Ha Hn. rewrite C2, C1; [done|done|done|lia|]. intros [?|?]%P1; [done|lia].
    + intros a Ha Hn. rewrite L2, L1; [done|done|done|lia|].
      intros Heq. symmetry in Heq. destruct (O1 a Heq); [congruence|lia].
  - split.
    + intros a Ha. destruct (O2 a Ha) as [?|?]; [auto|right; lia].
    + intros a Ha. destruct (P2 a Ha) as [?|?]; [auto|right; lia].
Qed.

(** Disjointness is kept by operations on either side. *)
Lemma refines_disjoint s s' l l' ty pl pl' l2 ty2 pl2 :
  wf s -> refines s s' l l' ty pl pl' -> list_rep s l2 ty2 pl2 ->
  disjoint_lists l pl l2 pl2 -> disjoint_lists l' pl' l2 pl2.
Proof.
  intros Hwf [_ _ _ [O P]] Hr [D1 D2]. split.
  - intros a Ha. destruct (O a Ha) as [?|Hge]; [by apply D1|].
    by destruct (list_rep_wf_fresh _ _ _ _ a Hwf Hr Hge).
  - intros a Ha. destruct (P a Ha) as [?|Hge]; [by apply D2|].
    by destruct (list_rep_wf_fresh _ _ _ _ a Hwf Hr Hge).
Qed.

(** ** Symbolic execution *)

Lemma get_cell_ok s a c : cells s !! a = Some c -> get_cell (Some a) s = Ok (c, s).
Proof. intros H. unfold get_cell. simpl. by rewrite H. Qed.
Lemma get_list_ok s a l : lists s !! a = Some l -> get_list (Some a) s = Ok (l, s).
Proof. intros H. unfold get_list. simpl. by rewrite H. Qed.
Lemma upd_cell_ok s a c f :
  cells s !! a = Some c -> upd_cell (Some a) f s = Ok (tt, set_cells (<[a := f c]>) s).
Proof. intros H. unfold upd_cell. by rewrite H. Qed.
Lemma upd_list_ok s a l f :
  lists s !! a = Some l -> upd_list (Some a) f s = Ok (tt, set_lists (<[a := f l]>) s).
Proof. intros H. unfold upd_list. by rewrite H. Qed.
Lemma pfree_cell_ok s a c : cells s !! a = Some c -> pfree_cell a s = Ok (tt, set_cells (delete a) s).
Proof. intros H. unfold pfree_cell. by rewrite H. Qed.
Lemma pfree_list_ok s a c : lists s !! a = Some c -> pfree_list a s = Ok (tt, set_lists (delete a) s).
Proof. intros H. unfold pfree_list. by rewrite H. Qed.
Lemma lnext_ok s a c : cells s !! a = Some c -> lnext (Some a) s = Ok (c_next c, s).
Proof. intros H. unfold lnext. by rewrite (mbind_ok _ _ _ _ _ (get_cell_ok _ _ _ H)). Qed.
Lemma lfirst_data_ok s a d n :
  cells s !! a = Some (mkCell (Some d) n) -> lfirst_data (Some a) s = Ok (d, s).
Proof. intros H. unfold lfirst_data. by rewrite (mbind_ok _ _ _ _ _ (get_cell_ok _ _ _ H)). Qed.
Lemma Assert_run {S} (b : bool) (s : S) : b = true -> Assert b s = Ok (tt, s).
Proof. by intros ->. Qed.
Lemma AssertM_ok m (s : store) : m s = Ok (true, s) -> AssertM m s = Ok (tt, s).
Proof. intros H. unfold AssertM. by rewrite (mbind_ok _ _ _ _ _ H). Qed.

Lemma is_type_ok s l ty pl : list_rep s l ty pl -> is_type ty l s = Ok (true, s).
Proof.
  destruct l as [a|]; [|done]. intros (h & q & Hl & _). unfold is_type.
  rewrite (mbind_ok _ _ _ _ _ (get_list_ok _ _ _ Hl)). simpl. by rewrite bool_decide_eq_true_2.
Qed.

Lemma AssertM_type_ok s l ty pl : list_rep s l ty pl -> AssertM (is_type ty l) s = Ok (tt, s).
Proof. intros H. eapply AssertM_ok, is_type_ok, H. Qed.

Lemma list_head_ok s l ty pl :
  list_rep s l ty pl -> list_head l s = Ok (head (pl.*1), s).
Proof.
  destruct l as [a|]; [|by intros ->]. intros (h & q & Hl & Hlast & _ & Hs). unfold list_head.
  rewrite (mbind_ok _ _ _ _ _ (get_list_ok _ _ _ Hl)). destruct pl as [|[p d] pl]; [done|].
  destruct Hs as [-> _]. done.
Qed.

(** What check_list_invariants asserts holds of every represented list. *)
Lemma check_ok s l ty pl : list_rep s l ty pl -> check_list_invariants l s = Ok (tt, s).
Proof.
  destruct l as [a|]; [|done]. intros Hr.
  destruct (list_rep_split _ _ _ _ Hr) as (pl0 & q & d & h & -> & Hq & Hnd & Hl & Hseg & Hc).
  unfold check_list_invariants.
  rewrite (mbind_ok _ _ _ _ _ (get_list_ok _ _ _ Hl)). simpl.
  rewrite length_app in *. simpl in *.
  assert (Hh : h <> None) by (destruct pl0 as [|[] ?]; simpl in Hseg; naive_solver).
  repeat (erewrite mbind_ok; [|apply Assert_run; first [reflexivity
    |apply bool_decide_eq_true_2; first [done|lia|destruct ty; tauto]]]).
  rewrite (mbind_ok _ _ s tt s);
    [rewrite (mbind_ok _ _ s tt s); [by rewrite (mbind_ok _ _ _ _ _ (lnext_ok _ _ _ Hc))|]|];
    case_decide; try done.
  - destruct pl0 as [|[p e] [|]]; simpl in *; [lia| |lia].
    destruct Hseg as [-> (n & Hp & ->)].
    rewrite (mbind_ok _ _ _ _ _ (lnext_ok _ _ _ Hp)). by apply Assert_run, bool_decide_eq_true_2.
  - destruct pl0; simpl in *; [|lia]. by apply Assert_run, bool_decide_eq_true_2.
Qed.

(** Look a cell or header up through the updates made so far. *)
Ltac lkp :=
  first [eassumption|
  simpl;
  repeat first [rewrite lookup_insert_eq|rewrite lookup_insert_ne by congruence
               |rewrite lookup_delete_ne by congruence];
  first [eassumption|reflexivity]].

(** Run the next statement with the facts at hand. *)
Ltac run_step :=
  lazymatch goal with
  | |- context [((_ ≫= _) ≫= _) _] => rewrite mbind_assoc
  | |- context [(AssertM _ ≫= _) _] => erewrite mbind_ok; [|solve [eapply AssertM_type_ok; eassumption]]
  | |- context [(check_list_invariants _ ≫= _) _] => erewrite mbind_ok; [|solve [eapply check_ok; eassumption]]
  | |- context [(get_list _ ≫= _) _] => erewrite mbind_ok; [|solve [eapply get_list_ok; lkp]]
  | |- context [(get_cell _ ≫= _) _] => erewrite mbind_ok; [|solve [eapply get_cell_ok; lkp]]
  | |- context [(lnext _ ≫= _) _] => erewrite mbind_ok; [|solve [eapply lnext_ok; lkp]]
  | |- context [(lfirst_data _ ≫= _) _] => erewrite mbind_ok; [|solve [eapply lfirst_data_ok; lkp]]
  | |- context [(list_head _ ≫= _) _] => erewrite mbind_ok; [|solve [eapply list_head_ok; eassumption]]
  | |- context [(upd_cell _ _ ≫= _) _] => erewrite mbind_ok; [|solve [eapply upd_cell_ok; lkp]]
  | |- context [(upd_list _ _ ≫= _) _] => erewrite mbind_ok; [|solve [eapply upd_list_ok; lkp]]
  | |- context [(pfree_cell _ ≫= _) _] => erewrite mbind_ok; [|solve [eapply pfree_cell_ok; lkp]]
  | |- context [(pfree_list _ ≫= _) _] => erewrite mbind_ok; [|solve [eapply pfree_list_ok; lkp]]
  | |- context [(palloc_cell _ ≫= _) _] => erewrite mbind_ok; [|reflexivity]
  | |- context [(palloc_list _ ≫= _) _] => erewrite mbind_ok; [|reflexivity]
  | |- context [(mret _ ≫= _) _] => erewrite mbind_ok; [|reflexivity]
  end.
Ltac run := repeat (run_step; cbn [c_next c_data l_type l_length l_head l_tail]).

(** ** Well-formedness, frames and ownership through the updates *)

Lemma wf_brk s : wf s -> cells s !! brk s = None /\ lists s !! brk s = None.
Proof. intros H. apply H. lia. Qed.
Lemma wf_cell_lt s a c : wf s -> cells s !! a = Some c -> (a < brk s)%positive.
Proof. intros H Ha. apply Pos.lt_nle. intros Hge. destruct (H a Hge). congruence. Qed.
Lemma wf_list_lt s a c : wf s -> lists s !! a = Some c -> (a < brk s)%positive.
Proof. intros H Ha. apply Pos.lt_nle. intros Hge. destruct (H a Hge). congruence. Qed.

Lemma wf_palloc_cell s c :
  wf s -> wf (mkStore (<[brk s := c]> (cells s)) (lists s) (objs s) (Pos.succ (brk s))).
Proof. intros H a Ha. simpl in *. rewrite lookup_insert_ne by lia. apply H. lia. Qed.
Lemma wf_palloc_list s c :
  wf s -> wf (mkStore (cells s) (<[brk s := c]> (lists s)) (objs s) (Pos.succ (brk s))).
Proof. intros H a Ha. simpl in *. rewrite lookup_insert_ne by lia. apply H. lia. Qed.
Lemma wf_cells_insert s a c : (a < brk s)%positive -> wf s -> wf (set_cells (<[a := c]>) s).
Proof. intros Hlt H b Hb. simpl in *. rewrite lookup_insert_ne by lia. by apply H. Qed.
Lemma wf_lists_insert s a c : (a < brk s)%positive -> wf s -> wf (set_lists (<[a := c]>) s).
Proof. intros Hlt H b Hb. simpl in *. rewrite lookup_insert_ne by lia. by apply H. Qed.
Lemma wf_cells_delete s a : wf s -> wf (set_cells (delete a) s).
Proof. intros H b Hb. simpl in *. rewrite lookup_delete. case_decide; [split; [done|]|]; by apply H. Qed.
Lemma wf_lists_delete s a : wf s -> wf (set_lists (delete a) s).
Proof. intros H b Hb. simpl in *. rewrite lookup_delete. case_decide; [split; [|done]|]; by apply H. Qed.

Lemma frame_palloc_cell l pl s s' c :
  frame l pl s s' ->
  frame l pl s (mkStore (<[brk s' := c]> (cells s')) (lists s') (objs s') (Pos.succ (brk s'))).
Proof.
  intros (Hb & Hc & Hl). split; [simpl; lia|]. split; [|done].
  intros a Ha Hn. simpl. rewrite lookup_insert_ne by lia. auto.
Qed.
Lemma frame_palloc_list l pl s s' c :
  frame l pl s s' ->
  frame l pl s (mkStore (cells s') (<[brk s' := c]> (lists s')) (objs s') (Pos.succ (brk s'))).
Proof.
  intros (Hb & Hc & Hl). split; [simpl; lia|]. split; [done|].
  intros a Ha Hn. simpl. rewrite lookup_insert_ne by lia. auto.
Qed.
Lemma frame_cells_insert l pl s s' b c :
  b ∈ pl.*1 \/ (brk s <= b)%positive -> frame l pl s s' -> frame l pl s (set_cells (<[b := c]>) s').
Proof.
  intros Hin (Hb & Hc & Hl). split; [done|]. split; [|done].
  intros a Ha Hn. simpl. rewrite lookup_insert_ne; [auto|]. intros ->. destruct Hin; [done|lia].
Qed.
Lemma frame_cells_delete l pl s s' b :
  b ∈ pl.*1 \/ (brk s <= b)%positive -> frame l pl s s' -> frame l pl s (set_cells (delete b) s').
Proof.
  intros Hin (Hb & Hc & Hl). split; [done|]. split; [|done].
  intros a Ha Hn. simpl. rewrite lookup_delete_ne; [auto|]. intros ->. destruct Hin; [done|lia].
Qed.
Lemma frame_lists_insert l pl s s' b c :
  l = Some b \/ (brk s <= b)%positive -> frame l pl s s' -> frame l pl s (set_lists (<[b := c]>) s').
Proof.
  intros Hin (Hb & Hc & Hl). split; [done|]. split; [done|].
  intros a Ha Hn. simpl. rewrite lookup_insert_ne; [auto|]. intros ->. destruct Hin; [congruence|lia].
Qed.
Lemma frame_lists_delete l pl s s' b :
  l = Some b \/ (brk s <= b)%positive -> frame l pl s s' -> frame l pl s (set_lists (delete b) s').
Proof.
  intros Hin (Hb & Hc & Hl). split; [done|]. split; [done|].
  intros a Ha Hn. simpl. rewrite lookup_delete_ne; [auto|]. intros ->. destruct Hin; [congruence|lia].
Qed.

Lemma snoc_in (pl : list (addr * ListData)) q d : q ∈ (pl ++ [(q, d)]).*1.
Proof. rewrite fmap_app. apply elem_of_app. right. by left. Qed.

Create HintDb pglist.
#[export] Hint Resolve wf_palloc_cell wf_palloc_list wf_cells_insert wf_lists_insert
  wf_cells_delete wf_lists_delete frame_palloc_cell frame_palloc_list frame_cells_insert
  frame_cells_delete frame_lists_insert frame_lists_delete frame_refl snoc_in : pglist.
#[export] Hint Extern 1 (_ < _)%positive => simpl; lia : pglist.
#[export] Hint Extern 1 (_ <= _)%positive => simpl; lia : pglist.

(** The header after a cell was added. *)
Lemma length_snoc_Z {A} (l : list A) x : Z.of_nat (base.length (l ++ [x])) = (1 + Z.of_nat (base.length l))%Z.
Proof. rewrite length_app. simpl. lia. Qed.

Lemma owns_snoc b l pl l' p d :
  (forall a, l' = Some a -> l = Some a \/ (b <= a)%positive) -> (b <= p)%positive ->
  owns b l pl l' (pl ++ [(p, d)]).
Proof.
  intros Hl Hp. split; [done|]. intros a. rewrite fmap_app, elem_of_app. simpl.
  intros [?|Ha%list_elem_of_singleton]; subst; auto.
Qed.
Lemma owns_cons b l pl l' p d :
  (forall a, l' = Some a -> l = Some a \/ (b <= a)%positive) -> (b <= p)%positive ->
  owns b l pl l' ((p, d) :: pl).
Proof. intros Hl Hp. split; [done|]. intros a. simpl. intros [->|?]%elem_of_cons; auto. Qed.

(** ** Specifications of the operations *)

(** Close a run that ends in [check_list_invariants(l); return l]. *)
Ltac by_check HR :=
  eexists _, _, _; split; [|exact HR];
  erewrite mbind_ok; [reflexivity|eapply check_ok, (rf_rep _ _ _ _ _ _ _ HR)].

Lemma lappend_as_spec s l ty pl d :
  wf s -> list_rep s l ty pl ->
  exists s' l' p, lappend_as ty l d s = Ok (l', s') /\ refines s s' l l' ty pl (pl ++ [(p, d)]).
Proof.
  intros Hwf Hr. destruct (wf_brk _ Hwf) as [Hb1 Hb2].
  unfold lappend_as. destruct l as [a|].
  - destruct (list_rep_split _ _ _ _ Hr) as (pl0 & q & d0 & h & -> & Hq & Hnd & Hl & Hseg & Hc).
    destruct (list_rep_wf_fresh _ _ _ _ (brk s) Hwf Hr) as [Hbp Hba]; [lia|].
    assert (Hqb : q <> brk s) by congruence.
    pose proof (wf_cell_lt _ _ _ Hwf Hc). pose proof (wf_list_lt _ _ _ Hwf Hl).
    unfold new_tail_cell. run.
    match goal with |- context [(check_list_invariants ?l' ≫= _) ?S] =>
      assert (HR : refines s S (Some a) l' ty (pl0 ++ [(q, d0)]) ((pl0 ++ [(q, d0)]) ++ [(brk s, d)])) end.
    { split; [eauto 12 with pglist| |eauto 12 with pglist|apply owns_snoc; [auto|lia]].
      eapply list_rep_join; [done|by apply NoDup_snoc_fst| | |lkp].
      + simpl. rewrite lookup_insert_eq. unfold set_length, set_tail. simpl. by rewrite !length_snoc_Z.
      + apply lseg_snoc. exists (Some q). split_and!; [|done|lkp].
        rewrite fmap_app in Hbp.
        repeat (apply lseg_insert; [first [done|contradict Hbp; apply elem_of_app; by left]|]). done. }
    by_check HR.
  - assert (pl = []) as -> by exact Hr. run. unfold new_list. run.
    match goal with |- context [(check_list_invariants ?l' ≫= _) ?S] =>
      assert (HR : refines s S None l' ty [] ([] ++ [(brk s, d)])) end.
    { split; [eauto 12 with pglist| |eauto 12 with pglist|apply owns_snoc; [intros ? [= <-]; right|]; simpl; lia].
      eapply list_rep_join; [apply not_elem_of_nil|constructor| |done|lkp]; lkp. }
    by_check HR.
Qed.

Lemma lcons_as_spec s l ty pl d :
  wf s -> list_rep s l ty pl ->
  exists s' l' p, lcons_as ty d l s = Ok (l', s') /\ refines s s' l l' ty pl ((p, d) :: pl).
Proof.
  intros Hwf Hr. destruct (wf_brk _ Hwf) as [Hb1 Hb2].
  unfold lcons_as. destruct l as [a|].
  - destruct (list_rep_wf_fresh _ _ _ _ (brk s) Hwf Hr) as [Hbp Hba]; [lia|].
    pose proof Hr as (h & q & Hl & Hlast & Hnd & Hseg). pose proof (wf_list_lt _ _ _ Hwf Hl).
    unfold new_head_cell. run.
    match goal with |- context [(check_list_invariants ?l' ≫= _) ?S] =>
      assert (HR : refines s S (Some a) l' ty pl ((brk s, d) :: pl)) end.
    { split; [eauto 12 with pglist| |eauto 12 with pglist|apply owns_cons; [auto|lia]].
      exists (Some (brk s)), q. split_and!.
      + simpl. rewrite lookup_insert_eq. unfold set_length, set_head. simpl. repeat f_equal. lia.
      + rewrite fmap_cons, last_cons. by rewrite Hlast.
      + simpl. by constructor.
      + simpl. split; [done|]. eexists. split; [lkp|].
        repeat (apply lseg_insert; [done|]). done. }
    by_check HR.
  - assert (pl = []) as -> by exact Hr. run. unfold new_list. run.
    match goal with |- context [(check_list_invariants ?l' ≫= _) ?S] =>
      assert (HR : refines s S None l' ty [] [(brk s, d)]) end.
    { split; [eauto 12 with pglist| |eauto 12 with pglist|apply owns_cons; [intros ? [= <-]; right|]; simpl; lia].
      eapply (list_rep_join _ _ _ []); [apply not_elem_of_nil|constructor| |done|lkp]; lkp. }
    by_check HR.
Qed.

(** A list split at one of its cells. *)
Lemma list_rep_at s a ty pl1 p d pl2 :
  list_rep s (Some a) ty (pl1 ++ (p, d) :: pl2) ->
  exists h q n,
    lists s !! a = Some (mkList ty (Z.of_nat (base.length (pl1 ++ (p, d) :: pl2))) h (Some q)) /\
    lseg (cells s) h pl1 (Some p) /\ cells s !! p = Some (mkCell (Some d) n) /\
    lseg (cells s) n pl2 None /\ NoDup pl1.*1 /\ NoDup pl2.*1 /\ p ∉ pl1.*1 /\ p ∉ pl2.*1 /\
    (forall x, x ∈ pl1.*1 -> x ∉ pl2.*1) /\
    (pl2 = [] /\ q = p \/ q <> p /\ last pl2.*1 = Some q).
Proof.
  intros (h & q & Hl & Hlast & Hnd & Hseg).
  apply lseg_app in Hseg as (m & Hseg1 & -> & n & Hp & Hseg2).
  rewrite fmap_app, fmap_cons in Hnd, Hlast. cbn [fst] in Hnd, Hlast.
  apply NoDup_app in Hnd as (Hnd1 & Hnd12 & [Hnp Hnd2]%NoDup_cons).
  exists h, q, n. split_and!; try done.
  - intros Hin. apply (Hnd12 p Hin). by left.
  - intros x Hx Hx2. apply (Hnd12 x Hx). by right.
  - rewrite last_app, last_cons in Hlast. destruct (last pl2.*1) as [r|] eqn:Hr.
    + right. simplify_eq/=. split; [|done]. intros ->.
      apply Hnp. eapply last_Some_elem_of. done.
    + left. simplify_eq/=. split; [|done].
      apply last_None in Hr. by apply fmap_nil_inv in Hr.
Qed.

Lemma lseg_replace_next cs h pl1 p d n n' :
  p ∉ pl1.*1 -> lseg cs h pl1 (Some p) -> cs !! p = Some (mkCell (Some d) n) ->
  lseg (<[p := mkCell (Some d) n']> cs) h (pl1 ++ [(p, d)]) n'.
Proof.
  intros Hp Hs Hc. apply lseg_snoc. exists (Some p). split_and!; [by apply lseg_insert|done|].
  by rewrite lookup_insert_eq.
Qed.

Lemma last_mid (pl1 pl2 : list (addr * ListData)) p d q :
  (pl2 = [] /\ q = p \/ last pl2.*1 = Some q) -> last (pl1 ++ (p, d) :: pl2).*1 = Some q.
Proof.
  intros H. rewrite fmap_app, fmap_cons, last_app, last_cons.
  destruct H as [[-> ->]|H]; [done|]. by rewrite H.
Qed.

Lemma NoDup_mid (pl1 pl2 : list (addr * ListData)) :
  NoDup pl1.*1 -> NoDup pl2.*1 -> (forall x, x ∈ pl1.*1 -> x ∉ pl2.*1) -> NoDup (pl1 ++ pl2).*1.
Proof. intros. rewrite fmap_app. by apply NoDup_app. Qed.

Lemma lseg_splice cs cs' h pl1 p d0 pl2 n b d :
  lseg cs h pl1 (Some p) -> lseg cs n pl2 None ->
  p ∉ pl1.*1 -> p ∉ pl2.*1 -> b ∉ pl1.*1 -> b ∉ pl2.*1 ->
  cs' !! p = Some (mkCell (Some d0) (Some b)) -> cs' !! b = Some (mkCell (Some d) n) ->
  (forall x, x <> p -> x <> b -> cs' !! x = cs !! x) ->
  lseg cs' h ((pl1 ++ [(p, d0)]) ++ (b, d) :: pl2) None.
Proof.
  intros H1 H2 Hp1 Hp2 Hb1 Hb2 Hp Hb Hx. apply lseg_app. exists (Some b). split.
  - apply lseg_snoc. exists (Some p). split_and!; [|done|done].
    eapply lseg_ext; [|done]. intros x Hin. apply Hx; congruence.
  - split; [done|]. exists n. split; [done|].
    eapply lseg_ext; [|done]. intros x Hin. apply Hx; congruence.
Qed.

Lemma lappend_cell_as_spec s a ty pl1 p d0 pl2 d :
  wf s -> list_rep s (Some a) ty (pl1 ++ (p, d0) :: pl2) ->
  exists s' c n, lappend_cell_as ty (Some a) (Some p) d s = Ok (c, s') /\ c = Some n /\
    refines s s' (Some a) (Some a) ty (pl1 ++ (p, d0) :: pl2) ((pl1 ++ [(p, d0)]) ++ (n, d) :: pl2).
Proof.
  intros Hwf Hr. destruct (list_rep_wf_fresh _ _ _ _ (brk s) Hwf Hr) as [Hbp Hba]; [lia|].
  destruct (list_rep_at _ _ _ _ _ _ _ Hr)
    as (h & q & n & Hl & Hs1 & Hp & Hs2 & Hn1 & Hn2 & Hp1 & Hp2 & Hd & Hq).
  pose proof (wf_list_lt _ _ _ Hwf Hl). pose proof (wf_cell_lt _ _ _ Hwf Hp).
  assert (Hpb : p <> brk s) by lia.
  rewrite fmap_app in Hbp. apply not_elem_of_app in Hbp as [Hb1 [_ Hb2]%not_elem_of_cons].
  assert (Hin : p ∈ (pl1 ++ (p, d0) :: pl2).*1).
  { rewrite fmap_app. apply elem_of_app. right. by left. }
  set (pl' := (pl1 ++ [(p, d0)]) ++ (brk s, d) :: pl2).
  assert (Hown : owns (brk s) (Some a) (pl1 ++ (p, d0) :: pl2) (Some a) pl').
  { split; [auto|]. intros x. unfold pl'. rewrite !fmap_app. simpl.
    rewrite !elem_of_app, !elem_of_cons, elem_of_nil. intros [[?|[?|[]]]|[->|?]]; auto. right; lia. }
  assert (Hnd : NoDup pl'.*1).
  { apply NoDup_mid; [by apply NoDup_snoc_fst|by constructor|]. intros x. rewrite fmap_app. simpl.
    rewrite elem_of_app, list_elem_of_singleton, not_elem_of_cons. intros [?| ->]; (split; [congruence|auto]). }
  assert (Hlen : (1 + Z.of_nat (base.length (pl1 ++ (p, d0) :: pl2)))%Z = Z.of_nat (base.length pl')).
  { unfold pl'. rewrite !length_app. simpl. lia. }
  unfold lappend_cell_as, add_new_cell. run. cbn [l_tail].
  assert (Hchain : forall cs', cs' !! p = Some (mkCell (Some d0) (Some (brk s))) ->
     cs' !! brk s = Some (mkCell (Some d) n) ->
     (forall x, x <> p -> x <> brk s -> cs' !! x = cells s !! x) -> lseg cs' h pl' None).
  { intros cs'. by apply lseg_splice. }
  destruct Hq as [[-> ->]|[Hqp Hlast]]; [rewrite decide_True by done|rewrite decide_False by congruence]; run.
  - match goal with |- context [(check_list_invariants ?l' ≫= _) ?S] =>
      assert (HR : refines s S (Some a) l' ty (pl1 ++ [(p, d0)]) pl') end.
    { split; [eauto 12 with pglist| |eauto 12 with pglist|done].
      exists h, (brk s). split_and!; [|by apply last_mid; left|done|].
      - simpl. rewrite lookup_insert_eq. unfold set_length. simpl. by rewrite <- Hlen.
      - apply Hchain; [lkp|lkp|]. intros x Hx1 Hx2. lkp. }
    eexists _, _, _. split; [|split; [|exact HR]];
      [erewrite mbind_ok; [reflexivity|eapply check_ok, (rf_rep _ _ _ _ _ _ _ HR)]|done].
  - match goal with |- context [(check_list_invariants ?l' ≫= _) ?S] =>
      assert (HR : refines s S (Some a) l' ty (pl1 ++ (p, d0) :: pl2) pl') end.
    { split; [eauto 12 with pglist| |eauto 12 with pglist|done].
      exists h, q. split_and!; [|by apply last_mid; right|done|].
      - simpl. rewrite lookup_insert_eq. unfold set_length. simpl. by rewrite <- Hlen.
      - apply Hchain; [lkp|lkp|]. intros x Hx1 Hx2. lkp. }
    eexists _, _, _. split; [|split; [|exact HR]];
      [erewrite mbind_ok; [reflexivity|eapply check_ok, (rf_rep _ _ _ _ _ _ _ HR)]|done].
Qed.

(** [list_concat] puts the cells of the second list, themselves, at the end of
    the first; both pointers are usable afterwards and share those cells. *)
Lemma list_concat_spec s a1 a2 ty pl1 pl2 :
  wf s -> list_rep s (Some a1) ty pl1 -> list_rep s (Some a2) ty pl2 ->
  disjoint_lists (Some a1) pl1 (Some a2) pl2 ->
  exists s', list_concat (Some a1) (Some a2) s = Ok (Some a1, s') /\
    wf s' /\ list_rep s' (Some a1) ty (pl1 ++ pl2) /\ list_rep s' (Some a2) ty pl2 /\
    frame (Some a1) pl1 s s'.
Proof.
  intros Hwf Hr1 Hr2 [Hd1 Hd2]. assert (Ha : a1 <> a2) by (intros ->; by apply (Hd1 a2)).
  destruct (list_rep_split _ _ _ _ Hr1) as (pl0 & q & d & h & -> & Hq & Hnd & Hl & Hseg & Hc).
  pose proof Hr2 as (h2 & q2 & Hl2 & Hlast2 & Hnd2 & Hseg2).
  pose proof (wf_list_lt _ _ _ Hwf Hl). pose proof (wf_cell_lt _ _ _ Hwf Hc).
  assert (Hq2 : q ∉ pl2.*1) by (apply Hd2, snoc_in).
  unfold list_concat. rewrite decide_False by congruence. run.
  erewrite mbind_ok; [|apply Assert_run; by apply bool_decide_eq_true_2]. run.
  match goal with |- context [(check_list_invariants ?l' ≫= _) ?S] =>
    assert (HR : wf S /\ list_rep S l' ty ((pl0 ++ [(q, d)]) ++ pl2) /\ list_rep S (Some a2) ty pl2 /\
                 frame (Some a1) (pl0 ++ [(q, d)]) s S) end.
  { split_and!; [eauto 12 with pglist| | |eauto 12 with pglist].
    - exists h, q2. split_and!.
      + simpl. rewrite lookup_insert_eq. unfold set_tail, set_length. simpl.
        rewrite !length_app. repeat f_equal. lia.
      + rewrite fmap_app, last_app, Hlast2. done.
      + apply NoDup_mid; [by apply NoDup_snoc_fst|done|done].
      + apply lseg_app. exists h2. split; [by eapply lseg_replace_next|by apply lseg_insert].
    - exists h2, q2. split_and!; [lkp|done|done|]. by apply lseg_insert. }
  destruct HR as (H1 & H2 & H3 & H4). eexists. split; [|done].
  erewrite mbind_ok; [reflexivity|eapply check_ok, H2].
Qed.

(** A walk over the first cells of a chain. *)
Lemma skip_cells_ok s h pl1 pl2 t :
  lseg (cells s) h (pl1 ++ pl2) t ->
  exists m, skip_cells (base.length pl1) h s = Ok (m, s) /\ lseg (cells s) m pl2 t.
Proof.
  revert h. induction pl1 as [|[p d] pl1 IH]; intros h; simpl; [eauto|].
  intros [-> (n & Hp & Hs)]. rewrite (mbind_ok _ _ _ _ _ (lnext_ok _ _ _ Hp)). by apply IH.
Qed.

Lemma list_nth_cell_spec s l ty pl i p d :
  list_rep s l ty pl -> pl !! i = Some (p, d) ->
  list_nth_cell l (Z.of_nat i) s = Ok (Some p, s) /\ cells s !! p ≫= c_data = Some d.
Proof.
  intros Hr Hi. destruct l as [a|]; [|by rewrite Hr in Hi].
  rewrite <- (take_drop_middle _ _ _ Hi) in Hr.
  destruct (list_rep_at _ _ _ _ _ _ _ Hr)
    as (h & q & n & Hl & Hs1 & Hp & Hs2 & _ & _ & _ & _ & _ & Hq).
  split; [|by rewrite Hp].
  pose proof (lookup_lt_Some _ _ _ Hi) as Hlt.
  assert (Hlen1 : base.length (take i pl) = i) by (rewrite length_take; lia).
  unfold list_nth_cell. repeat (erewrite mbind_ok; [|by apply Assert_run, bool_decide_eq_true_2; lia || done]).
  run. erewrite mbind_ok; [|apply Assert_run, bool_decide_eq_true_2; simpl; rewrite length_app; simpl; lia].
  run. simpl. rewrite length_app. simpl. rewrite Hlen1.
  destruct Hq as [[Hnil ->]|[Hqp Hlast]].
  - rewrite Hnil. simpl. rewrite decide_True by lia. done.
  - assert (drop (S i) pl <> []) by (intros Hn; by rewrite Hn in Hlast).
    destruct (drop (S i) pl) as [|x dl] eqn:Hd; [done|]. simpl. rewrite decide_False by lia.
    rewrite Nat2Z.id. rewrite <- Hlen1 at 1.
    destruct (skip_cells_ok s h (take i pl) [(p, d)] n) as (m & -> & [-> _]); [|done].
    apply lseg_app. exists (Some p). split; [done|]. simpl. eauto.
Qed.

(** A search loop over a chain whose cells it only reads: either no datum
    satisfies [P], or the exit is taken at the first one that does, with the
    accumulator the previous cell left. *)
Lemma search_loop {B} (test : ptr -> LM bool) (exit : ptr -> ptr -> LM (ptr + B)) (P : ListData -> bool) s pl :
  (forall p d n, (p, d) ∈ pl -> cells s !! p = Some (mkCell (Some d) n) -> test (Some p) s = Ok (P d, s)) ->
  forall h prev fuel, lseg (cells s) h pl None -> base.length pl <= fuel ->
  let loop := for_each_cell fuel h prev
    (fun cell prev => b ← test cell; if (b : bool) then exit cell prev else mret (inl cell)) in
  (Forall (fun d => P d = false) pl.*2 /\
     loop s = Ok (inl (match last pl.*1 with Some q => Some q | None => prev end), s)) \/
  (exists pl1 p d pl2, pl = pl1 ++ (p, d) :: pl2 /\ Forall (fun d => P d = false) pl1.*2 /\ P d = true /\
     forall r s', exit (Some p) (match last pl1.*1 with Some q => Some q | None => prev end) s = Ok (inr r, s') ->
       loop s = Ok (inr r, s')).
Proof.
  induction pl as [|[p d] pl IH]; intros Htest h prev fuel Hs Hf; simpl in Hs.
  - left. subst h. split; [constructor|]. by destruct fuel.
  - destruct Hs as [-> (n & Hp & Hs)]. destruct fuel as [|fuel]; simpl in Hf; [lia|].
    cbv zeta. cbn [for_each_cell].
    assert (Ht : test (Some p) s = Ok (P d, s)) by (eapply Htest; [left|done]).
    destruct (P d) eqn:HP.
    + right. exists [], p, d, pl. split_and!; [done|constructor|done|].
      intros r s' He. rewrite mbind_assoc, (mbind_ok _ _ _ _ _ Ht), (mbind_ok _ _ _ _ _ He). done.
    + destruct (fun H => IH H n (Some p) fuel Hs)
        as [[Hall Hloop]|(pl1 & p' & d' & pl2 & -> & Hall & HP' & Hloop)];
        [intros; eapply Htest; [by right|done]|lia| |].
      * left. split; [by constructor|].
        rewrite mbind_assoc, (mbind_ok _ _ _ _ _ Ht). run. rewrite Hloop, fmap_cons, last_cons.
        by destruct (last pl.*1).
      * right. exists ((p, d) :: pl1), p', d', pl2. split_and!; [done|by constructor|done|].
        intros r s' He. rewrite mbind_assoc, (mbind_ok _ _ _ _ _ Ht). run. apply Hloop.
        rewrite fmap_cons, last_cons in He. by destruct (last pl1.*1).
Qed.

(** The union member each kind of list stores. *)
Definition typed (ty : NodeTag) (d : ListData) : Prop :=
  match ty, d with
  | T_List, ptr_value _ | T_IntList, int_value _ | T_OidList, oid_value _ => True
  | _, _ => False
  end.

(** A test that reads a cell of a list of type [ty] and decides [P] on its datum. *)
Definition reads (ty : NodeTag) (test : ptr -> LM bool) (P : ListData -> bool) : Prop :=
  forall s p d n, typed ty d -> cells s !! p = Some (mkCell (Some d) n) -> test (Some p) s = Ok (P d, s).

Lemma lfirst_ok s p v n : cells s !! p = Some (mkCell (Some (ptr_value v)) n) -> lfirst (Some p) s = Ok (v, s).
Proof. intros H. unfold lfirst. by rewrite (mbind_ok _ _ _ _ _ (lfirst_data_ok _ _ _ _ H)). Qed.
Lemma lfirst_int_ok s p v n : cells s !! p = Some (mkCell (Some (int_value v)) n) -> lfirst_int (Some p) s = Ok (v, s).
Proof. intros H. unfold lfirst_int. by rewrite (mbind_ok _ _ _ _ _ (lfirst_data_ok _ _ _ _ H)). Qed.
Lemma lfirst_oid_ok s p v n : cells s !! p = Some (mkCell (Some (oid_value v)) n) -> lfirst_oid (Some p) s = Ok (v, s).
Proof. intros H. unfold lfirst_oid. by rewrite (mbind_ok _ _ _ _ _ (lfirst_data_ok _ _ _ _ H)). Qed.

Lemma reads_ptr v : reads T_List (test_ptr v) (fun d => bool_decide (d = ptr_value v)).
Proof.
  intros s p [w|?|?] n []. intros H. unfold test_ptr. rewrite (mbind_ok _ _ _ _ _ (lfirst_ok _ _ _ _ H)).
  unfold mret, M_ret. do 2 f_equal. apply bool_decide_ext. naive_solver.
Qed.
Lemma reads_int v : reads T_IntList (test_int v) (fun d => bool_decide (d = int_value v)).
Proof.
  intros s p [?|w|?] n []. intros H. unfold test_int. rewrite (mbind_ok _ _ _ _ _ (lfirst_int_ok _ _ _ _ H)).
  unfold mret, M_ret. do 2 f_equal. apply bool_decide_ext. naive_solver.
Qed.
Lemma reads_oid v : reads T_OidList (test_oid v) (fun d => bool_decide (d = oid_value v)).
Proof.
  intros s p [?|?|w] n []. intros H. unfold test_oid. rewrite (mbind_ok _ _ _ _ _ (lfirst_oid_ok _ _ _ _ H)).
  unfold mret, M_ret. do 2 f_equal. apply bool_decide_ext. naive_solver.
Qed.
Definition equal_to (equal : ptr -> ptr -> bool) (v : ptr) (d : ListData) : bool :=
  match d with ptr_value w => equal w v | _ => false end.
Lemma reads_equal equal v : reads T_List (test_equal equal v) (equal_to equal v).
Proof.
  intros s p [w|?|?] n []. intros H. unfold test_equal. by rewrite (mbind_ok _ _ _ _ _ (lfirst_ok _ _ _ _ H)).
Qed.

(** The chain of a represented list and enough fuel to walk it. *)
Lemma list_rep_chain s l ty pl :
  list_rep s l ty pl -> lseg (cells s) (head pl.*1) pl None /\ base.length pl <= size (cells s).
Proof.
  destruct l as [a|]; [|intros ->; split; [done|simpl; lia]].
  intros (h & q & Hl & Hlast & Hnd & Hs). split; [|by eapply lseg_size].
  destruct pl as [|[p d] pl]; [done|]. destruct Hs as [-> Hs]. by split.
Qed.

Lemma list_member_by_spec s l ty pl test P :
  list_rep s l ty pl -> Forall (typed ty) pl.*2 -> reads ty test P ->
  list_member_by ty test l s = Ok (existsb P pl.*2, s).
Proof.
  intros Hr Hty Htest. unfold list_member_by, foreach. run.
  destruct (list_rep_chain _ _ _ _ Hr) as [Hs Hf]. erewrite mbind_ok; [|reflexivity].
  enough (Hloop : forall fuel h, lseg (cells s) h pl None -> base.length pl <= fuel ->
    for_each_cell fuel h tt (fun cell _ => b ← test cell; mret (if (b : bool) then inr true else inl tt)) s
    = Ok (if existsb P pl.*2 then inr true else inl tt, s)).
  { rewrite (mbind_ok _ _ _ _ _ (Hloop _ _ Hs Hf)). by destruct (existsb P pl.*2). }
  clear Hr Hs Hf. induction pl as [|[p d] pl IH]; intros fuel h; simpl.
  - intros -> _. by destruct fuel.
  - intros [-> (n & Hp & Hs)] Hf. destruct fuel as [|fuel]; [lia|]. cbn [for_each_cell].
    rewrite fmap_cons in Hty. apply Forall_cons in Hty as [Hd Hty].
    rewrite mbind_assoc, (mbind_ok _ _ _ _ _ (Htest _ _ _ _ Hd Hp)). run.
    cbn [snd]. destruct (P d); [done|]. run. apply IH; [done|done|lia].
Qed.

(** *** Freeing *)

Lemma free_cells_spec pl : forall s h fuel,
  lseg (cells s) h pl None -> NoDup pl.*1 -> base.length pl <= fuel ->
  exists s', free_cells fuel false h s = Ok (tt, s') /\ lists s' = lists s /\ objs s' = objs s /\ brk s' = brk s /\
    forall a, cells s' !! a = if decide (a ∈ pl.*1) then None else cells s !! a.
Proof.
  induction pl as [|[p d] pl IH]; intros s h fuel Hs Hnd Hf.
  - simpl in Hs. subst h. exists s. by destruct fuel.
  - destruct Hs as [-> (n & Hp & Hs)]. rewrite fmap_cons in Hnd. apply NoDup_cons in Hnd as [Hnp Hnd].
    simpl in Hf. destruct fuel as [|fuel]; [lia|]. cbn [free_cells]. run.
    destruct (IH (set_cells (delete p) s) n fuel) as (s' & Hrun & E1 & E2 & E3 & Hc);
      [by apply lseg_delete|done|lia|].
    exists s'. split_and!; [done|done|done|done|]. intros a. rewrite Hc, fmap_cons. cbn [cells set_cells fst].
    rewrite lookup_delete. case_decide as H1; [rewrite decide_True; [done|by right]|].
    case_decide as H2; [subst; by rewrite decide_True by left|].
    rewrite decide_False; [done|]. by intros [->|?]%elem_of_cons.
Qed.

Lemma list_free_spec s a ty pl :
  list_rep s (Some a) ty pl ->
  exists s', list_free (Some a) s = Ok (tt, s') /\ brk s' = brk s /\ objs s' = objs s /\
    (forall x, cells s' !! x = if decide (x ∈ pl.*1) then None else cells s !! x) /\
    lists s' = delete a (lists s).
Proof.
  intros Hr. pose proof Hr as (h & q & Hl & Hlast & Hnd & Hs).
  destruct (list_rep_chain _ _ _ _ Hr) as [Hseg Hf].
  unfold list_free, list_free_private. run. erewrite mbind_ok; [|reflexivity].
  destruct (free_cells_spec pl s _ _ Hseg Hnd Hf) as (s' & Hrun & E1 & E2 & E3 & Hc).
  rewrite (mbind_ok _ _ _ _ _ Hrun). rewrite <- E1 in Hl.
  exists (set_lists (delete a) s'). rewrite (pfree_list_ok _ _ _ Hl). split_and!; try done. simpl. by rewrite E1.
Qed.

Lemma wf_shrink s s' :
  wf s -> brk s' = brk s -> (forall x, cells s' !! x = cells s !! x \/ cells s' !! x = None) ->
  (forall x, lists s' !! x = lists s !! x \/ lists s' !! x = None) -> wf s'.
Proof.
  intros Hwf Hb Hc Hl a Ha. rewrite Hb in Ha. destruct (Hwf a Ha) as [H1 H2].
  destruct (Hc a) as [-> | ->], (Hl a) as [-> | ->]; done.
Qed.

Lemma last_fst_snoc (pl : list (addr * ListData)) r e : last (pl ++ [(r, e)]).*1 = Some r.
Proof. by rewrite fmap_app, last_app. Qed.

Lemma owns_remove b a (pl1 pl2 : list (addr * ListData)) p d l' :
  (l' = Some a \/ l' = None) -> owns b (Some a) (pl1 ++ (p, d) :: pl2) l' (pl1 ++ pl2).
Proof.
  intros Hl. split; [intros x Hx; left; destruct Hl; congruence|].
  intros x. rewrite !fmap_app, fmap_cons, !elem_of_app, elem_of_cons. tauto.
Qed.

Lemma list_delete_only s a ty p d :
  wf s -> list_rep s (Some a) ty [(p, d)] ->
  exists s', list_free (Some a) s = Ok (tt, s') /\ refines s s' (Some a) None ty [(p, d)] [] /\ cells s' !! p = None.
Proof.
  intros Hwf Hr. destruct (list_free_spec _ _ _ _ Hr) as (s' & Hrun & E1 & E2 & Hc & El).
  exists s'. split; [done|]. split.
  - split; [| done | | split; [done|intros x Hx; by apply elem_of_nil in Hx]].
    + apply (wf_shrink s); [done|done| |]; intros x.
      * rewrite Hc. case_decide; auto.
      * rewrite El, lookup_delete. case_decide; auto.
    + split; [lia|]. split; intros x Hx Hn.
      * by rewrite Hc, decide_False.
      * rewrite El, lookup_delete_ne; [done|congruence].
  - rewrite Hc, decide_True; [done|by left].
Qed.

Lemma list_delete_cell_spec s a ty pl1 p d pl2 :
  wf s -> list_rep s (Some a) ty (pl1 ++ (p, d) :: pl2) ->
  exists s' l', list_delete_cell (Some a) (Some p) (last pl1.*1) s = Ok (l', s') /\
    refines s s' (Some a) l' ty (pl1 ++ (p, d) :: pl2) (pl1 ++ pl2) /\ cells s' !! p = None.
Proof.
  intros Hwf Hr.
  destruct (list_rep_at _ _ _ _ _ _ _ Hr)
    as (h & q & n & Hl & Hs1 & Hp & Hs2 & Hn1 & Hn2 & Hp1 & Hp2 & Hd & Hq).
  pose proof (wf_list_lt _ _ _ Hwf Hl). pose proof (wf_cell_lt _ _ _ Hwf Hp).
  assert (Hin : p ∈ (pl1 ++ (p, d) :: pl2).*1).
  { rewrite fmap_app. apply elem_of_app. right. by left. }
  unfold list_delete_cell. run.
  destruct pl1 as [|[r e] pl0 _] using rev_ind.
  - simpl in Hs1. subst h. change (last (@nil (addr * ListData)).*1) with (@None addr).
    erewrite mbind_ok; [|apply AssertM_ok; run; by rewrite bool_decide_eq_true_2]. run.
    destruct Hq as [[-> ->]|[Hqp Hlast]].
    + rewrite decide_True by done.
      destruct (list_delete_only _ _ _ _ _ Hwf Hr) as (s' & Hrun & HR & Hc).
      rewrite (mbind_ok _ _ _ _ _ Hrun). eauto.
    + destruct pl2 as [|[p2 d2] pl2]; [done|].
      rewrite decide_False by (simpl; lia). run. rewrite decide_False by congruence. run.
      erewrite mbind_ok; [|reflexivity]. run.
      eexists _, _. split; [reflexivity|]. split; [|simpl; by rewrite lookup_delete_eq].
      split; [eauto 12 with pglist| |eauto 12 with pglist|by apply (owns_remove _ _ []); left].
      exists n, q. split_and!; [|done|done|by apply lseg_delete].
      simpl. rewrite lookup_insert_eq. unfold set_head, set_length. simpl. repeat f_equal. lia.
  - apply lseg_snoc in Hs1 as (m & Hs0 & -> & Hre). apply NoDup_snoc_fst in Hn1 as [Hr0 Hn0].
    rewrite fmap_app in Hp1, Hd. apply not_elem_of_app in Hp1 as [Hp0 [Hpr _]%not_elem_of_cons].
    cbn [fst] in Hpr. rewrite last_fst_snoc.
    assert (Hr2 : r ∉ pl2.*1) by (apply Hd, elem_of_app; right; by left).
    assert (Hinr : r ∈ ((pl0 ++ [(r, e)]) ++ (p, d) :: pl2).*1).
    { rewrite fmap_app. apply elem_of_app. left. apply snoc_in. }
    pose proof (wf_cell_lt _ _ _ Hwf Hre).
    erewrite mbind_ok; [|apply AssertM_ok; run; by rewrite bool_decide_eq_true_2]. run.
    rewrite decide_False by (rewrite !length_app; simpl; lia). run.
    assert (Hseg : forall c, c = n -> lseg (delete p (<[r := mkCell (Some e) c]> (cells s))) h ((pl0 ++ [(r, e)]) ++ pl2) None).
    { intros c ->. apply lseg_delete; [rewrite !fmap_app, !not_elem_of_app; split_and!; [done| |done];
        apply not_elem_of_cons; split; [done|apply not_elem_of_nil]|].
      apply lseg_app. exists n. split; [by eapply lseg_replace_next|by apply lseg_insert]. }
    destruct Hq as [[-> ->]|[Hqp Hlast]]; [rewrite decide_True by done|rewrite decide_False by congruence]; run;
      (erewrite mbind_ok; [|reflexivity]); run; eexists _, _; (split; [reflexivity|]);
      (split; [|simpl; by rewrite lookup_delete_eq]);
      (split; [eauto 12 with pglist| |eauto 12 with pglist|by apply owns_remove; left]).
    + exists h, r. split_and!; [|by rewrite app_nil_r, last_fst_snoc| |by apply Hseg].
      * simpl. rewrite lookup_insert_eq. unfold set_tail, set_length. simpl.
        rewrite !length_app. simpl. repeat f_equal. lia.
      * rewrite app_nil_r. by apply NoDup_snoc_fst.
    + exists h, q. split_and!; [|by rewrite fmap_app, last_app, Hlast| |by apply Hseg].
      * simpl. rewrite lookup_insert_eq. unfold set_length. simpl.
        rewrite !length_app. simpl. repeat f_equal. lia.
      * apply NoDup_mid; [by apply NoDup_snoc_fst|done|]. rewrite fmap_app. done.
Qed.

(** Deleting the first element that satisfies [P], as a function on sequences. *)
Fixpoint remove_first {A} (P : A -> bool) (xs : list A) : list A :=
  match xs with
  | [] => []
  | x :: xs' => if P x then xs' else x :: remove_first P xs'
  end.

Lemma remove_first_none {A} (P : A -> bool) xs : Forall (fun x => P x = false) xs -> remove_first P xs = xs.
Proof. induction 1 as [|x xs Hx _ IH]; simpl; [done|]. by rewrite Hx, IH. Qed.
Lemma remove_first_at {A} (P : A -> bool) xs1 x xs2 :
  Forall (fun x => P x = false) xs1 -> P x = true -> remove_first P (xs1 ++ x :: xs2) = xs1 ++ xs2.
Proof. intros H Hx. induction H as [|y ys Hy _ IH]; simpl; [by rewrite Hx|]. by rewrite Hy, IH. Qed.

Lemma list_delete_by_spec s l ty pl test P :
  wf s -> list_rep s l ty pl -> Forall (typed ty) pl.*2 -> reads ty test P ->
  exists s' l' pl', list_delete_by ty test l s = Ok (l', s') /\ refines s s' l l' ty pl pl' /\
    pl'.*2 = remove_first P pl.*2 /\
    (forall p, p ∈ pl.*1 -> p ∉ pl'.*1 -> cells s' !! p = None).
Proof.
  intros Hwf Hr Hty Htest. unfold list_delete_by, foreach. run.
  destruct (list_rep_chain _ _ _ _ Hr) as [Hs Hf]. erewrite mbind_ok; [|reflexivity].
  destruct (search_loop test (fun cell prev => l' ← list_delete_cell l cell prev; mret (inr l')) P s pl)
    with (h := head pl.*1) (prev := @None addr) (fuel := size (cells s))
    as [[Hall Hloop]|(pl1 & p & d & pl2 & -> & Hall & HP & Hloop)]; [|done|done| |].
  - intros p d n Hin. apply Htest. rewrite Forall_fmap, Forall_forall in Hty. exact (Hty _ Hin).
  - rewrite (mbind_ok _ _ _ _ _ Hloop). exists s, l, pl. split_and!; [done|by apply refines_refl| |].
    + by rewrite remove_first_none.
    + intros p Hp Hn. done.
  - destruct l as [a|]; [|by destruct pl1].
    destruct (list_delete_cell_spec _ _ _ _ _ _ _ Hwf Hr) as (s' & l' & Hrun & HR & Hfree).
    erewrite mbind_ok; [|apply Hloop; erewrite mbind_ok; [reflexivity|]; destruct (last pl1.*1) eqn:E; exact Hrun].
    exists s', l', (pl1 ++ pl2). split_and!; [done|done| |].
    + by rewrite !fmap_app, fmap_cons, remove_first_at.
    + intros x. rewrite !fmap_app, fmap_cons, elem_of_app, not_elem_of_app, elem_of_cons.
      intros [?|[->|?]]; [tauto|done|tauto].
Qed.

Lemma list_delete_first_spec s a ty p d pl :
  wf s -> list_rep s (Some a) ty ((p, d) :: pl) ->
  exists s' l', list_delete_first (Some a) s = Ok (l', s') /\
    refines s s' (Some a) l' ty ((p, d) :: pl) pl /\ cells s' !! p = None.
Proof.
  intros Hwf Hr. unfold list_delete_first. run. by apply (list_delete_cell_spec _ _ _ []).
Qed.

(** *** Truncation *)

Lemma truncate_loop s new_size pl1 p d pl2 : forall h n fuel,
  lseg (cells s) h (pl1 ++ (p, d) :: pl2) None -> base.length (pl1 ++ (p, d) :: pl2) <= fuel ->
  (n + Z.of_nat (base.length pl1))%Z = new_size ->
  forall (hit : ptr -> LM (Z + ptr)) r s', hit (Some p) s = Ok (inr r, s') ->
  for_each_cell fuel h n (fun cell n => if decide (n = new_size) then hit cell else mret (inl (n + 1)%Z)) s
  = Ok (inr r, s').
Proof.
  induction pl1 as [|[p1 d1] pl1 IH]; intros h n fuel Hs Hf Hn hit r s' Hhit; simpl in Hs, Hf, Hn;
    destruct Hs as [-> (m & Hp & Hs)]; (destruct fuel as [|fuel]; [lia|]); cbn [for_each_cell].
  - rewrite decide_True by lia. by rewrite (mbind_ok _ _ _ _ _ Hhit).
  - rewrite decide_False by lia. run. apply IH; [done|lia|lia|done].
Qed.

Lemma list_truncate_spec s l ty pl k :
  wf s -> list_rep s l ty pl ->
  exists s' l', list_truncate l k s = Ok (l', s') /\ refines s s' l l' ty pl (take (Z.to_nat k) pl).
Proof.
  intros Hwf Hr. unfold list_truncate. case_decide as Hk.
  { exists s, None. split; [done|]. replace (Z.to_nat k) with 0 by lia.
    split; [done|done|apply frame_refl|]. split; [done|]. intros a Ha. by apply elem_of_nil in Ha. }
  destruct l as [a|]; simpl list_length; cycle 1.
  { assert (pl = []) as -> by exact Hr. run. rewrite decide_True by lia. exists s, None.
    rewrite take_nil. split; [done|by apply refines_refl]. }
  pose proof Hr as (h & q & Hl & Hlast & Hnd & Hs). run.
  case_decide as Hlen.
  { exists s, (Some a). rewrite take_ge by lia. split; [done|by apply refines_refl]. }
  destruct (lookup_lt_is_Some_2 pl (Z.to_nat k - 1)) as [[p d] Hp]; [lia|].
  pose proof (take_drop_middle _ _ _ Hp) as Hsplit. set (pl1 := take (Z.to_nat k - 1) pl) in *.
  set (pl2 := drop (S (Z.to_nat k - 1)) pl) in *.
  assert (Htake : take (Z.to_nat k) pl = pl1 ++ [(p, d)]).
  { replace (Z.to_nat k) with (S (Z.to_nat k - 1)) by lia. by apply take_S_r. }
  assert (Hlen1 : base.length pl1 = Z.to_nat k - 1) by (unfold pl1; rewrite length_take; lia).
  rewrite <- Hsplit in Hr, Hs, Hl |- *. rewrite Hsplit, Htake.
  destruct (list_rep_at _ _ _ _ _ _ _ Hr)
    as (h' & q' & n & Hl' & Hs1 & Hc & Hs2 & Hn1 & Hn2 & Hp1 & Hp2 & Hd & _).
  rewrite Hl in Hl'. injection Hl' as <- <-.
  pose proof (wf_list_lt _ _ _ Hwf Hl). pose proof (wf_cell_lt _ _ _ Hwf Hc).
  destruct (list_rep_chain _ _ _ _ Hr) as [Hseg Hfuel].
  assert (HR : forall S, S = set_lists (<[a := mkList ty k h (Some p)]>)
       (set_lists (<[a := set_tail (Some p) (mkList ty (Z.of_nat (base.length (pl1 ++ (p, d) :: pl2))) h (Some q))]>)
          (set_cells (<[p := mkCell (Some d) None]>) s)) ->
     refines s S (Some a) (Some a) ty (pl1 ++ (p, d) :: pl2) (pl1 ++ [(p, d)])).
  { intros S ->. assert (p ∈ (pl1 ++ (p, d) :: pl2).*1) by (rewrite fmap_app; apply elem_of_app; right; by left).
    split; [eauto 12 with pglist| |eauto 12 with pglist|].
    - eapply list_rep_join; [done|done| |by apply lseg_insert|lkp].
      cbn [lists set_lists]. rewrite lookup_insert_eq, length_snoc_Z, Hlen1. repeat f_equal. lia.
    - split; [auto|]. intros x. rewrite !fmap_app, !fmap_cons, fmap_nil, !elem_of_app, !elem_of_cons, elem_of_nil. tauto. }
  unfold foreach. run. erewrite mbind_ok; [|reflexivity].
  erewrite mbind_ok; cycle 1.
  { eapply truncate_loop; [exact Hseg|exact Hfuel|lia|]. run.
    erewrite mbind_ok; [|eapply check_ok, rf_rep, HR; reflexivity]. reflexivity. }
  rewrite Hsplit in HR. eexists _, _. split; [reflexivity|]. apply HR. by rewrite Hsplit.
Qed.

(** *** Copying *)

Lemma copy_cells_spec pl : forall s cur prev e fuel,
  wf s -> lseg (cells s) cur pl None -> base.length pl <= fuel ->
  cells s !! prev = Some (mkCell (Some e) None) -> prev ∉ pl.*1 ->
  exists s' cl lst, copy_cells fuel cur (Some prev) s = Ok (Some lst, s') /\ wf s' /\
    lists s' = lists s /\ objs s' = objs s /\ (brk s <= brk s')%positive /\
    cl.*2 = pl.*2 /\ NoDup cl.*1 /\ (forall a, a ∈ cl.*1 -> (brk s <= a)%positive) /\
    last ((prev, e) :: cl).*1 = Some lst /\ lseg (cells s') (Some prev) ((prev, e) :: cl) None /\
    (forall a, (a < brk s)%positive -> a <> prev -> cells s' !! a = cells s !! a).
Proof.
  induction pl as [|[p d] pl IH]; intros s cur prev e fuel Hwf Hs Hf Hprev Hnp.
  - simpl in Hs. subst cur. exists s, [], prev.
    split_and!; try done; [by destruct fuel|constructor|by intros ? ?%elem_of_nil|split; [done|by exists None]].
  - destruct Hs as [-> (n & Hp & Hs)]. simpl in Hf. destruct fuel as [|fuel]; [lia|]. cbn [copy_cells].
    rewrite fmap_cons in Hnp. apply not_elem_of_cons in Hnp as [Hpp Hnp]. cbn [fst] in Hpp.
    pose proof (wf_cell_lt _ _ _ Hwf Hprev). pose proof (wf_cell_lt _ _ _ Hwf Hp).
    assert (Hne : prev <> brk s) by lia. run.
    match goal with |- context [copy_cells fuel n (Some (brk s)) ?S] => set (s1 := S) end.
    assert (Hb : brk s ∉ pl.*1).
    { intros Hin. destruct (lseg_in _ _ _ _ _ Hs Hin) as [c Hc]. pose proof (wf_cell_lt _ _ _ Hwf Hc). lia. }
    destruct (IH s1 n (brk s) d fuel) as (s' & cl & lst & Hrun & W & E1 & E2 & E3 & E4 & E5 & E6 & E7 & E8 & E9).
    + unfold s1. eauto 12 with pglist.
    + unfold s1. simpl. apply lseg_insert; [done|]. by apply lseg_insert.
    + lia.
    + unfold s1. lkp.
    + done.
    + exists s', ((brk s, d) :: cl), lst. split_and!; [done|done|by rewrite E1|by rewrite E2| | | | | | |].
      * unfold s1 in E3. simpl in E3. lia.
      * by rewrite !fmap_cons, E4.
      * rewrite fmap_cons. constructor; [|done]. intros Hin. specialize (E6 _ Hin). unfold s1 in E6. simpl in E6. lia.
      * intros a. rewrite fmap_cons, elem_of_cons. intros [->|Hin]; [simpl; lia|].
        specialize (E6 _ Hin). unfold s1 in E6. simpl in E6. lia.
      * rewrite fmap_cons, last_cons, E7. done.
      * split; [done|]. exists (Some (brk s)). split; [|done].
        rewrite E9; [unfold s1; lkp|unfold s1; simpl; lia|done].
      * intros a Ha Hne'. rewrite E9; [unfold s1; simpl|unfold s1; simpl; lia|lia].
        by rewrite !lookup_insert_ne by lia.
Qed.

(** The store after [new_list(ty)] and the assignment of the length. *)
Definition fresh_list (ty : NodeTag) (len : Z) (s : store) : store :=
  mkStore (<[brk s := mkCell None None]> (cells s))
          (<[Pos.succ (brk s) := mkList ty len (Some (brk s)) (Some (brk s))]> (lists s))
          (objs s) (Pos.succ (Pos.succ (brk s))).

Lemma new_list_length_ok ty f len s :
  f 1%Z = len ->
  forall A (k : ptr -> LM A),
  (newlist ← new_list ty; upd_list newlist (set_length f);; k newlist) s
  = k (Some (Pos.succ (brk s))) (fresh_list ty len s).
Proof.
  intros <- A k. unfold new_list. run. unfold set_lists. simpl. unfold fresh_list, set_length. simpl.
  by rewrite insert_insert_eq.
Qed.

Lemma fresh_list_chain ty len s h pl t :
  wf s -> lseg (cells s) h pl t -> lseg (cells (fresh_list ty len s)) h pl t.
Proof.
  intros Hwf Hs. apply lseg_insert; [|done]. intros Hin.
  destruct (lseg_in _ _ _ _ _ Hs Hin) as [c Hc]. pose proof (wf_cell_lt _ _ _ Hwf Hc). lia.
Qed.

Lemma copy_from_spec s ty p d pl :
  wf s -> lseg (cells s) (Some p) ((p, d) :: pl) None -> NoDup ((p, d) :: pl).*1 ->
  exists s' pl', copy_from (Some p) (Some (Pos.succ (brk s))) (fresh_list ty (Z.of_nat (S (base.length pl))) s)
      = Ok (Some (Pos.succ (brk s)), s') /\
    refines s s' None (Some (Pos.succ (brk s))) ty [] pl' /\ pl'.*2 = d :: pl.*2.
Proof.
  intros Hwf Hseg Hnd. set (s0 := fresh_list _ _ _).
  assert (Hwf0 : wf s0).
  { intros a Ha. unfold s0, fresh_list in *. simpl in *. rewrite !lookup_insert_ne by lia. apply Hwf. lia. }
  pose proof (fresh_list_chain ty (Z.of_nat (S (base.length pl))) _ _ _ _ Hwf Hseg) as Hseg0. fold s0 in Hseg0.
  destruct Hseg0 as [_ (n & Hp & Hs)].
  assert (Hlt : forall x, x ∈ ((p, d) :: pl).*1 -> (x < brk s)%positive).
  { intros x Hx. destruct (lseg_in _ _ _ _ _ Hseg Hx) as [c Hc]. by eapply wf_cell_lt. }
  assert (Hl0 : lists s0 !! Pos.succ (brk s) =
     Some (mkList ty (Z.of_nat (S (base.length pl))) (Some (brk s)) (Some (brk s)))) by (unfold s0; lkp).
  assert (Hc0 : cells s0 !! brk s = Some (mkCell None None)) by (unfold s0; lkp).
  unfold copy_from. run. cbn [l_head].
  match goal with |- context [(mget ≫= _) ?S] => set (s1 := S) end.
  erewrite mbind_ok; [|reflexivity].
  assert (Hb : brk s ∉ pl.*1).
  { intros Hin. assert (brk s < brk s)%positive by (apply Hlt; by right). lia. }
  rewrite fmap_cons in Hnd. apply NoDup_cons in Hnd as [_ Hnd].
  assert (Hs1 : lseg (cells s1) n pl None) by (unfold s1; simpl; by apply lseg_insert).
  assert (Hwf1 : wf s1) by (unfold s1; apply wf_cells_insert; [simpl; lia|done]).
  destruct (copy_cells_spec pl s1 n (brk s) d (size (cells s1)))
    as (s' & cl & lst & Hrun & W & E1 & E2 & E3 & E4 & E5 & E6 & E7 & E8 & E9); [done|done| | |done|].
  { by eapply lseg_size. }
  { unfold s1. lkp. }
  rewrite (mbind_ok _ _ _ _ _ Hrun).
  destruct (snoc_of_last _ _ E7) as (cl0 & e & Hcl). rewrite Hcl in E8.
  apply lseg_snoc in E8 as (m & Hs8 & -> & Hlst).
  assert (Hl' : lists s' !! Pos.succ (brk s) =
     Some (mkList ty (Z.of_nat (S (base.length pl))) (Some (brk s)) (Some (brk s)))) by (by rewrite E1).
  run.
  match goal with |- context [(check_list_invariants ?l' ≫= _) ?S] =>
    assert (HR : refines s S None l' ty [] (cl0 ++ [(lst, e)])) end.
  { assert (Hnd' : NoDup (cl0 ++ [(lst, e)]).*1).
    { rewrite <- Hcl, fmap_cons. constructor; [|done]. intros Hin. specialize (E6 _ Hin). simpl in E6. lia. }
    assert (Hge : forall a, a ∈ (cl0 ++ [(lst, e)]).*1 -> (brk s <= a)%positive).
    { rewrite <- Hcl. intros a. rewrite fmap_cons, elem_of_cons. intros [->|Hin]; [simpl; lia|].
      specialize (E6 _ Hin). simpl in E6. lia. }
    assert (Hlst' : (brk s <= lst)%positive) by apply Hge, snoc_in.
    split.
    - apply wf_lists_insert; [simpl; simpl in E3; lia|]. apply wf_cells_insert; [|done]. by eapply wf_cell_lt.
    - apply NoDup_snoc_fst in Hnd' as [Hnl Hnd']. eapply list_rep_join; [done|done| | |lkp].
      + simpl. rewrite lookup_insert_eq. unfold set_tail. simpl. rewrite <- Hcl. simpl.
        do 3 f_equal. rewrite <- (length_fmap snd pl), <- E4, length_fmap. done.
      + simpl. by apply lseg_insert.
    - apply frame_lists_insert; [right; lia|]. apply frame_cells_insert; [auto|].
      split; [simpl in E3; lia|]. split.
      + intros a Ha _. rewrite E9; [|simpl; lia|lia]. unfold s1, s0. simpl. by rewrite !lookup_insert_ne by lia.
      + intros a Ha _. rewrite E1. unfold s1, s0. simpl. by rewrite lookup_insert_ne by lia.
    - split; [intros a [= <-]; right; lia|]. intros a Ha. right. by apply Hge. }
  eexists _, _. split; [|split; [exact HR|by rewrite <- Hcl, fmap_cons, E4]].
  erewrite mbind_ok; [reflexivity|eapply check_ok, (rf_rep _ _ _ _ _ _ _ HR)].
Qed.

Lemma list_copy_spec s l ty pl :
  wf s -> list_rep s l ty pl ->
  exists s' l' pl', list_copy l s = Ok (l', s') /\ refines s s' None l' ty [] pl' /\ pl'.*2 = pl.*2.
Proof.
  intros Hwf Hr. destruct l as [a|]; unfold list_copy; cycle 1.
  { assert (pl = []) as -> by exact Hr. exists s, None, []. split; [done|]. split; [by apply refines_refl|done]. }
  pose proof Hr as (h & q & Hl & Hlast & Hnd & Hs). run.
  erewrite new_list_length_ok; [|reflexivity].
  destruct pl as [|[p d] pl]; [done|]. pose proof Hs as [-> _].
  destruct (copy_from_spec s ty p d pl Hwf Hs Hnd) as (s' & pl' & Hrun & HR & Hd).
  simpl base.length. eauto 10.
Qed.

Lemma list_copy_tail_spec s l ty pl k :
  wf s -> list_rep s l ty pl ->
  exists s' l' pl', list_copy_tail l k s = Ok (l', s') /\ refines s s' None l' ty [] pl' /\
    pl'.*2 = drop (Z.to_nat k) pl.*2.
Proof.
  intros Hwf Hr. unfold list_copy_tail.
  set (k' := if decide (k < 0)%Z then 0%Z else k).
  assert (Hk : Z.to_nat k = Z.to_nat k' /\ (0 <= k')%Z) by (unfold k'; case_decide; lia).
  destruct Hk as [-> Hk]. cbv zeta. destruct l as [a|]; cycle 1.
  { assert (pl = []) as -> by exact Hr. exists s, None, []. split; [done|].
    split; [by apply refines_refl|]. by destruct (Z.to_nat k'). }
  pose proof Hr as (h & q & Hl & Hlast & Hnd & Hs). run.
  case_decide as Hge.
  { exists s, None, []. split; [done|]. split; [by apply refines_refl|].
    rewrite drop_ge; [done|]. rewrite length_fmap. lia. }
  erewrite new_list_length_ok; [|reflexivity].
  rewrite <- (take_drop (Z.to_nat k') pl) in Hs, Hnd.
  assert (Hlen1 : base.length (take (Z.to_nat k') pl) = Z.to_nat k') by (rewrite length_take; lia).
  assert (Hlen2 : base.length (drop (Z.to_nat k') pl) = base.length pl - Z.to_nat k') by apply length_drop.
  destruct (drop (Z.to_nat k') pl) as [|[p d] pl2] eqn:Hdrop; [simpl in Hlen2; lia|].
  rewrite fmap_app in Hnd. apply NoDup_app in Hnd as (_ & _ & Hnd).
  assert (Hpl2 : lseg (cells s) (Some p) ((p, d) :: pl2) None).
  { apply lseg_app in Hs as (m & _ & -> & Hs). by split. }
  pose proof (fresh_list_chain ty (Z.of_nat (base.length pl) - k') _ _ _ _ Hwf Hs) as Hs'.
  destruct (skip_cells_ok _ _ _ _ _ Hs') as (m & Hskip & [-> _]). rewrite Hlen1 in Hskip.
  rewrite (mbind_ok _ _ _ _ _ Hskip).
  replace (Z.of_nat (base.length pl) - k')%Z with (Z.of_nat (S (base.length pl2))) by (simpl in Hlen2; lia).
  destruct (copy_from_spec s ty p d pl2 Hwf Hpl2 Hnd) as (s' & pl' & Hrun & HR & Hd).
  exists s', (Some (Pos.succ (brk s))), pl'. split_and!; [done|done|].
  by rewrite <- fmap_drop, Hdrop.
Qed.

(** *** The set operations *)

(** What [append_if] computes, on sequences. *)
Fixpoint append_seq {A} (keep : list A -> A -> bool) (xs acc : list A) : list A :=
  match xs with
  | [] => acc
  | x :: xs' => append_seq keep xs' (if keep acc x then acc ++ [x] else acc)
  end.

Lemma append_seq_filter {A} (keep : A -> bool) xs acc :
  append_seq (fun _ => keep) xs acc = acc ++ List.filter keep xs.
Proof.
  revert acc. induction xs as [|x xs IH]; intros acc; simpl; [by rewrite app_nil_r|].
  rewrite IH. destruct (keep x); [by rewrite <- app_assoc|done].
Qed.

Section AppendIf.
Context (ty : NodeTag) (keep : ptr -> ListData -> LM bool) (K : list ListData -> ListData -> bool).
(** Another list the test may look at; it is not modified. *)
Context (lc : ptr) (plc : list (addr * ListData)).
Hypothesis keep_ok : forall s r plr d,
  list_rep s r ty plr -> Forall (typed ty) plr.*2 -> typed ty d -> list_rep s lc ty plc ->
  keep r d s = Ok (K plr.*2 d, s).

Lemma append_if_loop pl2 : forall s cell r plr fuel,
  wf s -> list_rep s r ty plr -> Forall (typed ty) plr.*2 ->
  lseg (cells s) cell pl2 None -> Forall (typed ty) pl2.*2 -> base.length pl2 <= fuel ->
  (forall a, a ∈ pl2.*1 -> a ∉ plr.*1) ->
  list_rep s lc ty plc -> disjoint_lists r plr lc plc ->
  exists s' r' plr',
    for_each_cell (B:=ptr) fuel cell r (fun cell result =>
        d ← lfirst_data cell;
        b ← keep result d;
        if (b : bool) then result' ← lappend_as ty result d; mret (inl result')
        else mret (inl result)) s = Ok (inl r', s') /\
    refines s s' r r' ty plr plr' /\ plr'.*2 = append_seq K pl2.*2 plr.*2 /\ Forall (typed ty) plr'.*2.
Proof.
  induction pl2 as [|[p d] pl2 IH]; intros s cell r plr fuel Hwf Hr Hty Hs Hty2 Hf Hdj Hc Hdc.
  { simpl in Hs. subst cell. exists s, r, plr. split; [by destruct fuel|]. split; [by apply refines_refl|done]. }
  pose proof Hs as Hs0. destruct Hs as [-> (n & Hp & Hs)]. simpl in Hf. destruct fuel as [|fuel]; [lia|].
  rewrite fmap_cons in Hty2. apply Forall_cons in Hty2 as [Hd Hty2]. cbn [for_each_cell snd] in *.
  assert (Hdj' : forall a, a ∈ pl2.*1 -> a ∉ plr.*1) by (intros a Ha; apply Hdj; by right).
  run. rewrite (mbind_ok _ _ _ _ _ (keep_ok _ _ _ _ Hr Hty Hd Hc)).
  rewrite fmap_cons. cbn [append_seq snd]. destruct (K plr.*2 d).
  - rewrite mbind_assoc. destruct (lappend_as_spec _ _ _ _ d Hwf Hr) as (s1 & r1 & p1 & Hrun & HR).
    rewrite (mbind_ok _ _ _ _ _ Hrun).
    assert (Hsame : forall a, a ∈ ((p, d) :: pl2).*1 -> cells s1 !! a = cells s !! a).
    { intros a Ha. apply HR; [|by apply Hdj].
      destruct (lseg_in _ _ _ _ _ Hs0 Ha) as [c Hca]. by eapply wf_cell_lt. }
    assert (Hp1 : cells s1 !! p = Some (mkCell (Some d) n)) by (rewrite Hsame; [done|by left]).
    run. replace (plr.*2 ++ [d]) with (plr ++ [(p1, d)]).*2 by (by rewrite fmap_app).
    destruct (IH s1 n r1 (plr ++ [(p1, d)]) fuel) as (s' & r' & plr' & Hrun' & HR' & Hspec & Hty').
    + apply HR.
    + apply HR.
    + rewrite fmap_app. apply Forall_app. split; [done|by constructor].
    + eapply lseg_ext; [|done]. intros a Ha. apply Hsame. by right.
    + done.
    + lia.
    + intros a Ha. rewrite fmap_app, not_elem_of_app. split; [by apply Hdj'|].
      rewrite fmap_cons, fmap_nil, list_elem_of_singleton. cbn [fst]. intros ->.
      destruct HR as [_ HR1 _ [_ Hown]]. destruct (Hown p1 (snoc_in _ _ _)) as [Hin|Hge].
      * by apply (Hdj' p1).
      * destruct (lseg_in _ _ _ _ _ Hs Ha) as [c Hca]. pose proof (wf_cell_lt _ _ _ Hwf Hca). lia.
    + eapply list_rep_frame; [exact Hwf|apply HR|exact Hdc|done].
    + eapply refines_disjoint; [exact Hwf|exact HR|exact Hc|done].
    + exists s', r', plr'. split; [done|]. split; [by eapply refines_trans|done].
  - run. destruct (IH s n r plr fuel) as (s' & r' & plr' & Hrun & HR & Hspec & Hty');
      [done..|lia|done|done|done|]. eauto 10.
Qed.

Lemma append_if_spec s src pls r plr :
  wf s -> list_rep s src ty pls -> Forall (typed ty) pls.*2 ->
  list_rep s r ty plr -> Forall (typed ty) plr.*2 -> disjoint_lists r plr src pls ->
  list_rep s lc ty plc -> disjoint_lists r plr lc plc ->
  exists s' r' plr', append_if ty keep src r s = Ok (r', s') /\ refines s s' r r' ty plr plr' /\
    plr'.*2 = append_seq K pls.*2 plr.*2 /\ Forall (typed ty) plr'.*2.
Proof.
  intros Hwf Hsrc Htys Hr Hty [_ Hdj] Hc Hdc. unfold append_if, foreach. run.
  erewrite mbind_ok; [|reflexivity]. destruct (list_rep_chain _ _ _ _ Hsrc) as [Hseg Hf].
  destruct (append_if_loop pls s (head pls.*1) r plr (size (cells s)))
    as (s' & r' & plr' & Hrun & HR & Hspec & Hty'); try done.
  { intros a Ha Hb. by apply (Hdj a). }
  rewrite (mbind_ok _ _ _ _ _ Hrun). eauto 10.
Qed.
End AppendIf.

(** A membership test of one of the four kinds: [E x d] is its equality. *)
Class MemberTest (ty : NodeTag) (mem : ptr -> ListData -> LM bool) (E : ListData -> ListData -> bool) : Prop :=
  member_test : forall s l pl d,
    list_rep s l ty pl -> Forall (typed ty) pl.*2 -> typed ty d ->
    mem l d s = Ok (existsb (fun x => E x d) pl.*2, s).

Definition same_data (x d : ListData) : bool := bool_decide (x = d).
Definition same_node (equal : ptr -> ptr -> bool) (x d : ListData) : bool :=
  match d with ptr_value v => equal_to equal v x | _ => false end.

#[export] Instance member_ptr : MemberTest T_List member_as_ptr same_data.
Proof. intros s l pl [v|?|?] Hr Hty []. by apply list_member_by_spec, reads_ptr. Qed.
#[export] Instance member_int : MemberTest T_IntList member_as_int same_data.
Proof. intros s l pl [?|v|?] Hr Hty []. by apply list_member_by_spec, reads_int. Qed.
#[export] Instance member_oid : MemberTest T_OidList member_as_oid same_data.
Proof. intros s l pl [?|?|v] Hr Hty []. by apply list_member_by_spec, reads_oid. Qed.
#[export] Instance member_node equal : MemberTest T_List (member_as_node equal) (same_node equal).
Proof. intros s l pl [v|?|?] Hr Hty []. by apply list_member_by_spec, reads_equal. Qed.

(** On sequences: append the elements of [ys] that are not in the result yet. *)
Definition union_seq {A} (E : A -> A -> bool) (xs ys : list A) : list A :=
  append_seq (fun acc y => negb (existsb (fun x => E x y) acc)) ys xs.
Definition in_seq {A} (E : A -> A -> bool) (ys : list A) (x : A) : bool := existsb (fun y => E y x) ys.

Section SetOperations.
Context (ty : NodeTag) (mem : ptr -> ListData -> LM bool) (E : ListData -> ListData -> bool).
Context `{Hmem : !MemberTest ty mem E}.

Lemma not_member_ok s l pl d :
  list_rep s l ty pl -> Forall (typed ty) pl.*2 -> typed ty d ->
  not_member mem l d s = Ok (negb (existsb (fun x => E x d) pl.*2), s).
Proof. intros. unfold not_member. by rewrite (mbind_ok _ _ _ _ _ (member_test _ _ _ _ H H0 H1)). Qed.

Lemma disjoint_nil l pl : disjoint_lists None [] l pl.
Proof. split; [done|]. intros a Ha. by apply elem_of_nil in Ha. Qed.

Lemma disjoint_nil_r l pl : disjoint_lists l pl None [].
Proof. split; [done|]. intros a _. apply not_elem_of_nil. Qed.

Lemma append_unique_spec s l pl d :
  wf s -> list_rep s l ty pl -> Forall (typed ty) pl.*2 -> typed ty d ->
  exists s' l' pl', list_append_unique_by ty mem l d s = Ok (l', s') /\ refines s s' l l' ty pl pl' /\
    pl'.*2 = union_seq E pl.*2 [d].
Proof.
  intros Hwf Hr Hty Hd. unfold list_append_unique_by, union_seq, append_seq.
  rewrite (mbind_ok _ _ _ _ _ (member_test _ _ _ _ Hr Hty Hd)).
  destruct (existsb _ _); simpl.
  - exists s, l, pl. split; [done|]. split; [by apply refines_refl|done].
  - destruct (lappend_as_spec _ _ _ _ d Hwf Hr) as (s' & l' & p & Hrun & HR).
    exists s', l', (pl ++ [(p, d)]). split; [done|]. split; [done|]. by rewrite fmap_app.
Qed.

Lemma concat_unique_spec s l1 pl1 l2 pl2 :
  wf s -> list_rep s l1 ty pl1 -> Forall (typed ty) pl1.*2 -> list_rep s l2 ty pl2 -> Forall (typed ty) pl2.*2 ->
  disjoint_lists l1 pl1 l2 pl2 ->
  exists s' l' pl', list_concat_unique_by ty mem l1 l2 s = Ok (l', s') /\ refines s s' l1 l' ty pl1 pl' /\
    pl'.*2 = union_seq E pl1.*2 pl2.*2.
Proof.
  intros Hwf Hr1 Hty1 Hr2 Hty2 Hdj. unfold list_concat_unique_by. run.
  destruct (append_if_spec ty (not_member mem) (fun acc y => negb (existsb (fun x => E x y) acc)) None []
              (fun s r plr d Hr Hty Hd _ => not_member_ok s r plr d Hr Hty Hd) s l2 pl2 l1 pl1)
    as (s' & l' & pl' & Hrun & HR & Hspec & _); try done; try apply disjoint_nil_r.
  rewrite (mbind_ok _ _ _ _ _ Hrun).
  erewrite mbind_ok; [|eapply check_ok, HR]. eauto 10.
Qed.

Lemma union_spec s l1 pl1 l2 pl2 :
  wf s -> list_rep s l1 ty pl1 -> Forall (typed ty) pl1.*2 -> list_rep s l2 ty pl2 -> Forall (typed ty) pl2.*2 ->
  exists s' l' pl', list_union_by ty mem l1 l2 s = Ok (l', s') /\ refines s s' None l' ty [] pl' /\
    pl'.*2 = union_seq E pl1.*2 pl2.*2.
Proof.
  intros Hwf Hr1 Hty1 Hr2 Hty2. unfold list_union_by. run.
  destruct (list_copy_spec _ _ _ _ Hwf Hr1) as (s1 & lc & plc & Hrun1 & HR1 & Hc).
  rewrite (mbind_ok _ _ _ _ _ Hrun1).
  pose proof (refines_disjoint _ _ _ _ _ _ _ _ _ _ Hwf HR1 Hr2 (disjoint_nil _ _)) as Hdj.
  assert (Hr2' : list_rep s1 l2 ty pl2) by (eapply list_rep_frame; [exact Hwf|apply HR1|apply disjoint_nil|done]).
  destruct (append_if_spec ty (not_member mem) (fun acc y => negb (existsb (fun x => E x y) acc)) None []
              (fun s r plr d Hr Hty Hd _ => not_member_ok s r plr d Hr Hty Hd) s1 l2 pl2 lc plc)
    as (s' & l' & pl' & Hrun & HR & Hspec & _); try done; try apply HR1; try apply disjoint_nil_r; [by rewrite Hc|].
  rewrite (mbind_ok _ _ _ _ _ Hrun). erewrite mbind_ok; [|eapply check_ok, HR].
  exists s', l', pl'. split; [done|]. split; [by eapply refines_trans|]. by rewrite Hspec, Hc.
Qed.

Lemma difference_spec s l1 pl1 l2 pl2 :
  wf s -> list_rep s l1 ty pl1 -> Forall (typed ty) pl1.*2 -> list_rep s l2 ty pl2 -> Forall (typed ty) pl2.*2 ->
  exists s' l' pl', list_difference_by ty mem l1 l2 s = Ok (l', s') /\ refines s s' None l' ty [] pl' /\
    pl'.*2 = List.filter (fun x => negb (in_seq E pl2.*2 x)) pl1.*2.
Proof.
  intros Hwf Hr1 Hty1 Hr2 Hty2. unfold list_difference_by. run. destruct l2 as [a2|].
  - destruct (append_if_spec ty (fun _ d => not_member mem (Some a2) d) (fun _ x => negb (in_seq E pl2.*2 x)) (Some a2) pl2
              (fun s r plr d _ _ Hd Hc => not_member_ok s (Some a2) pl2 d Hc Hty2 Hd) s l1 pl1 None [])
      as (s' & l' & pl' & Hrun & HR & Hspec & _); try done; try apply disjoint_nil.
    rewrite (mbind_ok _ _ _ _ _ Hrun). erewrite mbind_ok; [|eapply check_ok, HR].
    exists s', l', pl'. split; [done|]. split; [done|]. by rewrite Hspec, append_seq_filter.
  - assert (pl2 = []) as -> by exact Hr2.
    destruct (list_copy_spec _ _ _ _ Hwf Hr1) as (s' & l' & pl' & Hrun & HR & Hc).
    exists s', l', pl'. split; [done|]. split; [done|]. rewrite Hc.
    clear. induction (pl1.*2) as [|x xs IH]; [done|]. simpl. f_equal. exact IH.
Qed.
End SetOperations.

Lemma intersection_spec equal s l1 pl1 l2 pl2 :
  wf s -> list_rep s l1 T_List pl1 -> Forall (typed T_List) pl1.*2 ->
  list_rep s l2 T_List pl2 -> Forall (typed T_List) pl2.*2 ->
  exists s' l' pl', list_intersection equal l1 l2 s = Ok (l', s') /\ refines s s' None l' T_List [] pl' /\
    pl'.*2 = List.filter (in_seq (same_node equal) pl2.*2) pl1.*2.
Proof.
  intros Hwf Hr1 Hty1 Hr2 Hty2. unfold list_intersection.
  destruct l1 as [a1|]; [destruct l2 as [a2|]|]; cycle 1.
  { assert (pl2 = []) as -> by exact Hr2. exists s, None, []. split; [done|]. split; [by apply refines_refl|].
    clear. induction (pl1.*2) as [|x xs IH]; [done|exact IH]. }
  { assert (pl1 = []) as -> by exact Hr1. exists s, None, []. split; [done|]. split; [by apply refines_refl|done]. }
  unfold IsPointerList. run.
  destruct (append_if_spec T_List (fun _ d => member_as_node equal (Some a2) d)
              (fun _ x => in_seq (same_node equal) pl2.*2 x) (Some a2) pl2
              (fun s r plr d _ _ Hd Hc => member_node equal s (Some a2) pl2 d Hc Hty2 Hd) s (Some a1) pl1 None [])
    as (s' & l' & pl' & Hrun & HR & Hspec & _); try done; try apply disjoint_nil.
  rewrite (mbind_ok _ _ _ _ _ Hrun). erewrite mbind_ok; [|eapply check_ok, HR].
  exists s', l', pl'. split; [done|]. split; [done|]. by rewrite Hspec, append_seq_filter.
Qed.

(** Iterating with [foreach] while the body deletes the cell it is on: the loop
    reads the [next] field of the freed cell. *)
Lemma foreach_delete_current {A B} (l : addr) s ty p d pl (acc acc' : A) (body : ptr -> A -> LM (A + B)) s' :
  list_rep s (Some l) ty ((p, d) :: pl) ->
  body (Some p) acc s = Ok (inl acc', s') -> cells s' !! p = None ->
  foreach (Some l) acc body s = Err EUndef.
Proof.
  intros (h & q & Hl & Hq & Hnd & (-> & n & Hp & Hseg)) Hb Hp'. unfold foreach.
  assert (Hh : list_head (Some l) s = Ok (Some p, s)).
  { unfold list_head, get_list, deref. simpl. unfold mbind, M_bind, mget. simpl. by rewrite Hl. }
  rewrite (mbind_ok _ _ _ _ _ Hh). unfold mbind at 1, M_bind at 1, mget; simpl.
  destruct (size (cells s)) as [|f] eqn:Hsz.
  { apply map_size_empty_inv in Hsz. rewrite Hsz in Hp. by rewrite lookup_empty in Hp. }
  simpl. rewrite (mbind_ok _ _ _ _ _ Hb). apply mbind_err.
  unfold lnext. apply mbind_err. unfold get_cell, deref, mbind, M_bind, mget; simpl. by rewrite Hp'.
Qed.

(** ** Properties *)

(** Lappend, lappend_int and lappend_oid add one fresh cell at the end of any well-formed
    list, lcons, lcons_int and lcons_oid one at its front; length, head and tail
    stay consistent, and no cell or list outside the argument changes. *)
Lemma list_append_cons_refine s l ty pl (d : ListData) :
  wf s -> list_rep s l ty pl -> typed ty d ->
  (exists s' l' p,
    match d with ptr_value v => lappend l v s | int_value v => lappend_int l v s | oid_value v => lappend_oid l v s end
      = Ok (l', s') /\ refines s s' l l' ty pl (pl ++ [(p, d)])) /\
  (exists s' l' p,
    match d with ptr_value v => lcons v l s | int_value v => lcons_int v l s | oid_value v => lcons_oid v l s end
      = Ok (l', s') /\ refines s s' l l' ty pl ((p, d) :: pl)).
Proof.
  intros Hwf Hr Hty. split;
    [destruct (lappend_as_spec s l ty pl d Hwf Hr) as (s' & l' & p & He & Hf)
    |destruct (lcons_as_spec s l ty pl d Hwf Hr) as (s' & l' & p & He & Hf)];
    exists s', l', p; split; try done; by destruct ty, d.
Qed.

(** C31: list_delete_ptr, list_delete_int, list_delete_oid and list_delete (for any comparison
    [equal]) remove the first matching cell and no other, return NIL when
    none is left, free the removed cell and leave all else alone. *)
Theorem list_delete_refines (equal : ptr -> ptr -> bool) s l ty pl (d : ListData) (use_equal : bool) :
  wf s -> list_rep s l ty pl -> Forall (typed ty) pl.*2 -> typed ty d ->
  exists s' l' pl',
    match d with
    | ptr_value v => if use_equal then list_delete equal l v s else list_delete_ptr l v s
    | int_value v => list_delete_int l v s
    | oid_value v => list_delete_oid l v s
    end = Ok (l', s') /\
    refines s s' l l' ty pl pl' /\
    pl'.*2 = remove_first (fun x => match d with ptr_value v => if use_equal then equal_to equal v x else same_data x d
                                     | _ => same_data x d end) pl.*2 /\
    (forall p, p ∈ pl.*1 -> p ∉ pl'.*1 -> cells s' !! p = None).
Proof.
  intros Hwf Hr Ht Hd. destruct ty, d; try done; try destruct use_equal;
    (apply (list_delete_by_spec s l _ pl); [done..|]); auto using reads_ptr, reads_int, reads_oid, reads_equal.
Qed.

(** C28: list_concat shares: afterwards the first list is the concatenation, and the second list,
    still reachable from its own header, is made of the same cells. *)
Theorem list_concat_shares s a1 a2 ty pl1 pl2 :
  wf s -> list_rep s (Some a1) ty pl1 -> list_rep s (Some a2) ty pl2 ->
  disjoint_lists (Some a1) pl1 (Some a2) pl2 ->
  exists s', list_concat (Some a1) (Some a2) s = Ok (Some a1, s') /\
    wf s' /\ list_rep s' (Some a1) ty (pl1 ++ pl2) /\ list_rep s' (Some a2) ty pl2 /\ frame (Some a1) pl1 s s'.
Proof. apply list_concat_spec. Qed.

(** The set operations compute on data what their names say: list_union_int appends the
    elements of the second list that are not present yet, in order; list_difference_int keeps
    those of the first that are not in the second; list_intersection (for any comparison
    [equal]) those that are; the arguments are untouched. *)
Lemma list_set_operations (equal : ptr -> ptr -> bool) s l1 pl1 l2 pl2 m1 ql1 m2 ql2 :
  wf s ->
  list_rep s l1 T_IntList pl1 -> Forall (typed T_IntList) pl1.*2 -> list_rep s l2 T_IntList pl2 -> Forall (typed T_IntList) pl2.*2 ->
  list_rep s m1 T_List ql1 -> Forall (typed T_List) ql1.*2 -> list_rep s m2 T_List ql2 -> Forall (typed T_List) ql2.*2 ->
  (exists s' l' pl', list_union_int l1 l2 s = Ok (l', s') /\ refines s s' None l' T_IntList [] pl' /\
     pl'.*2 = union_seq same_data pl1.*2 pl2.*2) /\
  (exists s' l' pl', list_difference_int l1 l2 s = Ok (l', s') /\ refines s s' None l' T_IntList [] pl' /\
     pl'.*2 = List.filter (fun x => negb (in_seq same_data pl2.*2 x)) pl1.*2) /\
  (exists s' l' pl', list_intersection equal m1 m2 s = Ok (l', s') /\ refines s s' None l' T_List [] pl' /\
     pl'.*2 = List.filter (in_seq (same_node equal) ql2.*2) ql1.*2).
Proof.
  intros. split_and!.
  - by apply (union_spec T_IntList member_as_int same_data).
  - by apply (difference_spec T_IntList member_as_int same_data).
  - by apply intersection_spec.
Qed.

(** C25: list_copy makes a list of fresh cells with the same data, list_copy_tail one without the
    first [k] data, and list_truncate cuts a list to its first [k] cells. *)
Theorem list_copy_truncate s l ty pl k :
  wf s -> list_rep s l ty pl ->
  (exists s' l' pl', list_copy l s = Ok (l', s') /\ refines s s' None l' ty [] pl' /\ pl'.*2 = pl.*2) /\
  (exists s' l' pl', list_copy_tail l k s = Ok (l', s') /\ refines s s' None l' ty [] pl' /\
     pl'.*2 = drop (Z.to_nat k) pl.*2) /\
  (exists s' l', list_truncate l k s = Ok (l', s') /\ refines s s' l l' ty pl (take (Z.to_nat k) pl)).
Proof. intros. split_and!; [by apply list_copy_spec|by apply list_copy_tail_spec|by apply list_truncate_spec]. Qed.

(** list_free frees the header and exactly the cells of the list, each once. *)
Theorem list_free_exact s a ty pl :
  list_rep s (Some a) ty pl ->
  exists s', list_free (Some a) s = Ok (tt, s') /\ lists s' = delete a (lists s) /\
    forall x, cells s' !! x = if decide (x ∈ pl.*1) then None else cells s !! x.
Proof. intros Hr. destruct (list_free_spec s a ty pl Hr) as (s' & He & _ & _ & Hc & Hl). eauto. Qed.

(** ** Witnesses *)

Definition empty_store : store := mkStore ∅ ∅ ∅ 1.
Lemma empty_wf : wf empty_store.
Proof. intros a _. done. Qed.

(** The list (10, 20, 10) of integers, and a store with a second one, (20, 30). *)
Definition demo_store : store :=
  match (l ← lappend_int NIL 10; l ← lappend_int l 20; l ← lappend_int l 10;
         r ← lappend_int NIL 20; r ← lappend_int r 30; mret (l, r)) empty_store with
  | Ok (_, s) => s
  | Err _ => empty_store
  end.
Definition demo_l1 : list (addr * ListData) := [(1, int_value 10); (3, int_value 20); (4, int_value 10)]%positive.
Definition demo_l2 : list (addr * ListData) := [(5, int_value 20); (7, int_value 30)]%positive.

Lemma demo_wf : wf demo_store.
Proof.
  intros a Ha. change (brk demo_store) with 8%positive in Ha.
  assert (Hc : dom (cells demo_store) = {[1; 3; 4; 5; 7]}%positive) by (vm_compute; reflexivity).
  assert (Hl : dom (lists demo_store) = {[2; 6]}%positive) by (vm_compute; reflexivity).
  split; apply not_elem_of_dom; rewrite ?Hc, ?Hl, ?not_elem_of_union, !not_elem_of_singleton; repeat split; lia.
Qed.
Ltac demo_rep := eexists _, _; split; [reflexivity|]; split; [reflexivity|]; split;
  [apply (bool_decide_unpack _); vm_compute; exact I|repeat (split; [reflexivity|]; eexists; split; [reflexivity|]); reflexivity].
Lemma demo_rep1 : list_rep demo_store (Some 2%positive) T_IntList demo_l1.
Proof. demo_rep. Qed.
Lemma demo_rep2 : list_rep demo_store (Some 6%positive) T_IntList demo_l2.
Proof. demo_rep. Qed.
Lemma demo_disjoint : disjoint_lists (Some 2%positive) demo_l1 (Some 6%positive) demo_l2.
Proof. split; [intros a [= <-]; done|]. intros a. unfold demo_l1, demo_l2. simpl. rewrite !elem_of_cons. set_solver. Qed.
Lemma demo_typed1 : Forall (typed T_IntList) demo_l1.*2.
Proof. repeat constructor. Qed.
Lemma demo_typed2 : Forall (typed T_IntList) demo_l2.*2.
Proof. repeat constructor. Qed.

Lemma list_append_cons_refine_witness :
  exists s' l' p, lappend_int (Some 2%positive) 5 demo_store = Ok (l', s') /\
    refines demo_store s' (Some 2%positive) l' T_IntList demo_l1 (demo_l1 ++ [(p, int_value 5)]).
Proof. exact (proj1 (list_append_cons_refine demo_store _ T_IntList _ (int_value 5) demo_wf demo_rep1 I)). Defined.

Lemma list_delete_refines_witness :
  exists s' l' pl', list_delete_int (Some 2%positive) 10 demo_store = Ok (l', s') /\
    refines demo_store s' (Some 2%positive) l' T_IntList demo_l1 pl' /\ pl'.*2 = [int_value 20; int_value 10].
Proof.
  destruct (list_delete_refines (fun _ _ => true) demo_store _ T_IntList _ (int_value 10) false demo_wf demo_rep1 demo_typed1 I)
    as (s' & l' & pl' & He & Hr & Hd & _).
  exists s', l', pl'. split; [exact He|]. split; [exact Hr|exact Hd].
Defined.

Lemma list_concat_shares_witness :
  exists s', list_concat (Some 2%positive) (Some 6%positive) demo_store = Ok (Some 2%positive, s') /\
    list_rep s' (Some 2%positive) T_IntList (demo_l1 ++ demo_l2).
Proof.
  destruct (list_concat_shares demo_store 2 6 T_IntList _ _ demo_wf demo_rep1 demo_rep2 demo_disjoint)
    as (s' & He & _ & Hr & _).
  exists s'. split; [exact He|exact Hr].
Defined.

Lemma list_set_operations_witness :
  exists s' l' (pl' : list (addr * ListData)), list_union_int (Some 2%positive) (Some 6%positive) demo_store = Ok (l', s') /\
    pl'.*2 = [int_value 10; int_value 20; int_value 10; int_value 30].
Proof.
  destruct (list_set_operations (fun _ _ => true) demo_store _ _ _ _ None [] None [] demo_wf demo_rep1 demo_typed1
    demo_rep2 demo_typed2 eq_refl (Forall_nil_2 _) eq_refl (Forall_nil_2 _)) as ((s' & l' & pl' & He & _ & Hd) & _).
  exists s', l', pl'. split; [exact He|exact Hd].
Defined.

Lemma list_copy_truncate_witness :
  exists s' l', list_truncate (Some 2%positive) 2 demo_store = Ok (l', s') /\
    refines demo_store s' (Some 2%positive) l' T_IntList demo_l1 [(1, int_value 10); (3, int_value 20)]%positive.
Proof. exact (proj2 (proj2 (list_copy_truncate demo_store _ _ _ 2 demo_wf demo_rep1))). Defined.

Lemma list_free_exact_witness :
  exists s', list_free (Some 2%positive) demo_store = Ok (tt, s') /\ lists s' = delete 2%positive (lists demo_store).
Proof.
  destruct (list_free_exact demo_store 2 _ _ demo_rep1) as (s' & He & Hl & _). exists s'. split; [exact He|exact Hl].
Defined.
