(* ===== verification/SharedLists.v ===== *)
(** * SharedLists: the lists of jobs and workers

    The SharedList operations of src/backend/storage/lmgr/parallel.c, cancelWorkers and cleanup, and the postmaster's side of
    them, StartParallelWorkers and CancelParallelWorkers of src/backend/postmaster/postmaster.c.  The lists are those of
    PgList, in its store.  Spinlocks are left out except in StartParallelWorkers, where they matter. *)

From S2P Require Import Prelude PgList.

(** ** SharedList *)

Definition createShList : LM ptr := mret NIL.
Definition shListAppend (l object : ptr) : LM ptr := lappend l object.
Definition shListRemove (l object : ptr) : LM ptr := list_delete_ptr l object.
Definition shListRemoveNoLock (l object : ptr) : LM ptr := list_delete_ptr l object.
Definition shListAppendInt (l : ptr) (value : Z) : LM ptr := lappend_int l value.

(** A loop without a return in its body *)
Definition loop_result {A} (r : A + Empty_set) : A := match r with inl a => a | inr e => match e with end end.

(** ** Cancelling *)

(** [workerPid] reads the field of a worker; the answer is the list of workers to cancel. *)
Definition cancelWorkers (workerPid : ptr -> Z) (workers toCancel : ptr) : LM ptr :=
  r ← foreach (B := Empty_set) workers toCancel (fun lc acc => w ← lfirst lc; l ← shListAppendInt acc (workerPid w); mret (inl l));
  mret (loop_result r).

(** The pids that get a SIGINT; the list is freed. *)
Definition CancelParallelWorkers (toCancel : ptr) : LM (list Z * ptr) :=
  r ← foreach (B := Empty_set) toCancel [] (fun lc acc => pid ← lfirst_int lc; mret (inl (acc ++ [pid])));
  list_free toCancel;; mret (loop_result r, NIL).

(** ** cleanup *)

(** [release] stands for what the body does to the worker's queue and to the list of jobs.  [workers] is
    workersList->list, which the last call of the body sets. *)
Definition cleanup (release : ptr -> LM unit) (workers : ptr) : LM ptr :=
  r ← foreach (B := Empty_set) workers workers (fun lc l => w ← lfirst lc; release w;; l' ← shListRemove l w; mret (inl l'));
  mret (loop_result r).

(** ** Starting workers *)

(** What the postmaster does, in order; [Visit] is the look at the cell of a job. *)
Inductive event := Acquire | Release | Visit (job : nat) | ForkSlave (job : nat).

(** One pass over the jobs (their number and their [new] flag): the events, the jobs afterwards, [found].  The jobs are those
    that the pass comes by; what others do to the lock meanwhile is in [lock_after]. *)
Fixpoint start_pass (jobs : list (nat * bool)) : list event * list (nat * bool) * bool :=
  match jobs with
  | [] => ([], [], false)
  | (j, is_new) :: jobs' =>
    let '(es, js, found) := start_pass jobs' in
    if is_new then (Visit j :: Release :: ForkSlave j :: es, (j, false) :: js, true) else (Visit j :: es, (j, false) :: js, found)
  end.

Fixpoint StartParallelWorkers (fuel : nat) (jobs : list (nat * bool)) : option (list event * list (nat * bool)) :=
  match fuel with
  | O => None
  | S fuel' =>
    let '(es, jobs', found) := start_pass jobs in
    let es := Acquire :: es ++ [Release] in
    if found then match StartParallelWorkers fuel' jobs' with Some (es', jobs'') => Some (es ++ es', jobs'') | None => None end
    else Some (es, jobs')
  end.

Definition forked (es : list event) : list nat := omap (fun e => match e with ForkSlave j => Some j | _ => None end) es.
Definition visited (es : list event) : list nat := omap (fun e => match e with Visit j => Some j | _ => None end) es.
Definition new_jobs (jobs : list (nat * bool)) : list nat := omap (fun '(j, n) => if n : bool then Some j else None) jobs.

(** *** The spinlock *)

(** Who may take the lock of the list. *)
Inductive process := Postmaster | Backend.
#[export] Instance process_eq_dec : EqDecision process.
Proof. solve_decision. Defined.

(** Who took the lock last and has not lost it, after events of several processes; None when one of them has to wait.
    SpinLockAcquire waits for a lock that is free; SpinLockRelease frees it, whoever has it. *)
Fixpoint lock_after (l : option process) (es : list (process * event)) : option (option process) :=
  match es with
  | [] => Some l
  | (p, Acquire) :: es' => if l is None then lock_after (Some p) es' else None
  | (_, Release) :: es' => lock_after None es'
  | _ :: es' => lock_after l es'
  end.
Definition by_postmaster (es : list event) : list (process * event) := pair Postmaster <$> es.

(** ** Proofs *)

(** A cell in the middle of a chain. *)
Lemma lseg_mid cs h pl1 p d pl2 : lseg cs h (pl1 ++ (p, d) :: pl2) None -> cs !! p = Some (mkCell (Some d) (head pl2.*1)).
Proof.
  intros Hs. apply lseg_app in Hs as (t & _ & -> & n & Hp & Hs). destruct pl2 as [|[q e] pl2]; simpl in Hs; [by subst|].
  by destruct Hs as [-> _].
Qed.

(** A loop over a list that its body leaves alone. *)
Lemma foreach_stable {A} (body : ptr -> A -> LM (A + Empty_set)) (Inv : list (addr * ListData) -> A -> store -> Prop) h0 PL :
  (forall don acc s, Inv don acc s -> lseg (cells s) h0 PL None) ->
  (forall don p d n acc s, Inv don acc s -> cells s !! p = Some (mkCell (Some d) n) -> (p, d) ∈ PL -> exists acc' s', body (Some p) acc s = Ok (inl acc', s') /\ Inv (don ++ [(p, d)]) acc' s') ->
  forall rest don acc s fuel, Inv don acc s -> PL = don ++ rest -> base.length rest <= fuel ->
  exists acc' s', for_each_cell fuel (head rest.*1) acc body s = Ok (inl acc', s') /\ Inv PL acc' s'.
Proof.
  intros Hlist Hbody. induction rest as [|[p d] rest IH]; intros don acc s fuel HI HPL Hf.
  - exists acc, s. rewrite app_nil_r in HPL. subst don. by destruct fuel.
  - destruct fuel as [|fuel]; [simpl in Hf; lia|]. rewrite fmap_cons. cbn [for_each_cell head fst].
    pose proof (Hlist _ _ _ HI) as Hs. rewrite HPL in Hs. apply lseg_mid in Hs.
    destruct (Hbody don p d _ acc s HI Hs) as (acc1 & s1 & Hb & HI1); [rewrite HPL; set_solver|].
    rewrite (mbind_ok _ _ _ _ _ Hb). pose proof (Hlist _ _ _ HI1) as Hs1. rewrite HPL in Hs1. apply lseg_mid in Hs1.
    rewrite (mbind_ok _ _ _ _ _ (lnext_ok _ _ _ Hs1)). apply (IH (don ++ [(p, d)])); [done|by rewrite <- app_assoc|simpl in Hf; lia].
Qed.

Lemma start_pass_ok jobs : let '(es, jobs', found) := start_pass jobs in
  forked es = new_jobs jobs /\ new_jobs jobs' = [] /\ (found = false <-> new_jobs jobs = []) /\ jobs'.*1 = jobs.*1.
Proof.
  induction jobs as [|[j n] jobs IH]; [done|]. simpl. destruct (start_pass jobs) as [[es js] f]. destruct IH as (H1 & H2 & H3 & H4).
  destruct n; (split_and!; [simpl; congruence|done| |change (j :: js.*1 = j :: jobs.*1); by rewrite H4]).
  - by split.
  - done.
Qed.

Lemma start_quiet jobs : new_jobs jobs = [] -> start_pass jobs = (Visit <$> jobs.*1, jobs, false).
Proof.
  induction jobs as [|[j [|]] jobs IH]; simpl; [done|done|]. intros H. by rewrite IH by done.
Qed.

Lemma forked_app es es' : forked (es ++ es') = forked es ++ forked es'.
Proof. unfold forked. apply omap_app. Qed.
Lemma forked_visits js : forked (Visit <$> js) = [].
Proof. by induction js. Qed.

Lemma StartParallelWorkers_ok fuel jobs : 2 <= fuel ->
  exists es jobs', StartParallelWorkers fuel jobs = Some (es, jobs') /\ forked es = new_jobs jobs /\ new_jobs jobs' = [] /\
    jobs'.*1 = jobs.*1.
Proof.
  intros Hf. destruct fuel as [|[|fuel]]; [lia|lia|]. pose proof (start_pass_ok jobs) as H. cbn [StartParallelWorkers].
  destruct (start_pass jobs) as [[es js] found] eqn:E. destruct H as (H1 & H2 & H3 & H4). destruct found.
  - rewrite (start_quiet js H2). eexists _, js. split; [reflexivity|]. split_and!; [|done|done].
    change (Acquire :: es ++ [Release]) with ([Acquire] ++ es ++ [Release]).
    change (Acquire :: (Visit <$> js.*1) ++ [Release]) with ([Acquire] ++ (Visit <$> js.*1) ++ [Release]).
    rewrite !forked_app, forked_visits. simpl. by rewrite !app_nil_r.
  - eexists _, js. split; [reflexivity|]. split_and!; [|done|done].
    change (Acquire :: es ++ [Release]) with ([Acquire] ++ es ++ [Release]). rewrite !forked_app. simpl. by rewrite app_nil_r.
Qed.

(** A pass looks at every job and takes no lock. *)
Lemma start_pass_walk jobs : let '(es, _, _) := start_pass jobs in visited es = jobs.*1 /\ Acquire ∉ es.
Proof.
  induction jobs as [|[j n] jobs IH]; [simpl; split; [done|set_solver]|]. simpl. destruct (start_pass jobs) as [[es js] f].
  destruct IH as [H1 H2]. destruct n; simpl; (split; [change (j :: visited es = j :: jobs.*1); by rewrite H1|set_solver]).
Qed.

(** The pass with the jobs up to the first new one apart. *)
Lemma start_pass_new jobs1 j jobs2 : new_jobs jobs1 = [] ->
  start_pass (jobs1 ++ (j, true) :: jobs2) =
    ((Visit <$> jobs1.*1) ++ [Visit j; Release; ForkSlave j] ++ (start_pass jobs2).1.1, jobs1 ++ (j, false) :: (start_pass jobs2).1.2, true).
Proof.
  induction jobs1 as [|[k [|]] jobs1 IH]; simpl; [intros _; by destruct (start_pass jobs2) as [[es js] f]|done|].
  intros H. by rewrite (IH H).
Qed.

Lemma lock_after_app l es es' l' : lock_after l es = Some l' -> lock_after l (es ++ es') = lock_after l' es'.
Proof.
  revert l. induction es as [|[p e] es IH]; intros l; simpl; [by intros [= ->]|]. destruct e; simpl; auto. destruct l; [done|]. auto.
Qed.

(** Without an acquire a free lock stays free, and nobody waits. *)
Lemma lock_after_free es : Acquire ∉ es -> lock_after None (by_postmaster es) = Some None.
Proof. unfold by_postmaster. induction es as [|e es IH]; [done|]. intros H. destruct e; simpl; [set_solver|apply IH; set_solver..]. Qed.
Lemma lock_after_release l es : Acquire ∉ es -> lock_after l (by_postmaster (es ++ [Release])) = Some None.
Proof.
  unfold by_postmaster. revert l. induction es as [|e es IH]; [done|]. intros l H. destruct e; simpl; [set_solver|apply IH; set_solver..].
Qed.

(** The fork of the first new job leaves the lock free. *)
Lemma lock_after_fork (vs : list nat) j : lock_after None (by_postmaster (Acquire :: (Visit <$> vs) ++ [Visit j; Release; ForkSlave j])) = Some None.
Proof.
  simpl. generalize (Some Postmaster). induction vs as [|v vs IH]; intros l; [done|]. apply IH.
Qed.

Lemma Acquire_not_prefix es n : Acquire ∉ es -> Acquire ∉ take n es.
Proof. intros H Hin. apply H. rewrite <- (take_drop n es). set_solver. Qed.

(** *** Lists in the store *)

Lemma delete_first s a p w pl :
  wf s -> list_rep s (Some a) T_List ((p, ptr_value w) :: pl) ->
  exists s' l', list_delete_ptr (Some a) w s = Ok (l', s') /\ refines s s' (Some a) l' T_List ((p, ptr_value w) :: pl) pl /\ cells s' !! p = None.
Proof.
  intros Hwf Hr. destruct (list_delete_cell_spec s a T_List [] p (ptr_value w) pl Hwf Hr) as (s' & l' & Hd & HR & Hc).
  exists s', l'. split; [|done]. unfold list_delete_ptr, list_delete_by, foreach. run.
  destruct (list_rep_chain _ _ _ _ Hr) as [Hs Hf]. erewrite mbind_ok; [|reflexivity].
  pose proof Hs as [_ (n & Hp & _)]. destruct (size (cells s)) as [|f] eqn:Hsz; [simpl in Hf; lia|].
  assert (Ht : test_ptr w (Some p) s = Ok (true, s)).
  { unfold test_ptr. rewrite (mbind_ok _ _ _ _ _ (lfirst_ok _ _ _ _ Hp)). unfold mret, M_ret. by rewrite bool_decide_true. }
  rewrite (mbind_ok _ _ _ (inr l') s'); [done|]. rewrite fmap_cons. cbn [for_each_cell head fst]. rewrite (mbind_ok _ _ _ (inr l') s'); [done|].
  rewrite (mbind_ok _ _ _ _ _ Ht). simpl in Hd. by rewrite (mbind_ok _ _ _ _ _ Hd).
Qed.

(** The first round of cleanup frees the cell that the loop is on. *)
Lemma cleanup_undefined release s a p w pl :
  wf s -> list_rep s (Some a) T_List ((p, ptr_value w) :: pl) ->
  (exists s1, release w s = Ok (tt, s1) /\ wf s1 /\ list_rep s1 (Some a) T_List ((p, ptr_value w) :: pl)) ->
  cleanup release (Some a) s = Err EUndef.
Proof.
  intros Hwf Hr (s1 & Hrel & Hwf1 & Hr1). destruct (delete_first s1 a p w pl Hwf1 Hr1) as (s2 & l' & Hd & _ & Hc).
  unfold cleanup. apply mbind_err. eapply foreach_delete_current; [exact Hr| |exact Hc].
  destruct (list_rep_chain _ _ _ _ Hr) as [[_ (n & Hp & _)] _].
  rewrite (mbind_ok _ _ _ _ _ (lfirst_ok _ _ _ _ Hp)), (mbind_ok _ _ _ _ _ Hrel). unfold shListRemove. by rewrite (mbind_ok _ _ _ _ _ Hd).
Qed.

(** The workers and the list of pids collected so far. *)
Definition collected (pid : ptr -> Z) (workers : ptr) (pl ints0 : list (addr * ListData)) (don : list (addr * ListData)) (acc : ptr) (s : store) : Prop :=
  exists ints, wf s /\ list_rep s workers T_List pl /\ list_rep s acc T_IntList ints /\ disjoint_lists acc ints workers pl /\
    ints.*2 = ints0.*2 ++ ((fun d => int_value (match d with ptr_value w => pid w | _ => 0%Z end)) <$> don.*2).

Lemma lseg_of_rep s l ty pl : list_rep s l ty pl -> lseg (cells s) (head pl.*1) pl None.
Proof. intros Hr. by destruct (list_rep_chain _ _ _ _ Hr). Qed.

Lemma elem_typed ty (pl : list (addr * ListData)) p d : Forall (typed ty) pl.*2 -> (p, d) ∈ pl -> typed ty d.
Proof. rewrite Forall_fmap, Forall_forall. intros H Hin. exact (H _ Hin). Qed.

(** The loop in its entirety. *)
Lemma foreach_whole {A} (l : ptr) (acc : A) (body : ptr -> A -> LM (A + Empty_set)) s ty pl (Inv : list (addr * ListData) -> A -> store -> Prop) :
  list_rep s l ty pl -> Inv [] acc s -> (forall don acc s, Inv don acc s -> lseg (cells s) (head pl.*1) pl None) ->
  (forall don p d n acc s, Inv don acc s -> cells s !! p = Some (mkCell (Some d) n) -> (p, d) ∈ pl ->
     exists acc' s', body (Some p) acc s = Ok (inl acc', s') /\ Inv (don ++ [(p, d)]) acc' s') ->
  exists acc' s', foreach l acc body s = Ok (inl acc', s') /\ Inv pl acc' s'.
Proof.
  intros Hr HI Hlist Hbody. destruct (list_rep_chain _ _ _ _ Hr) as [Hs Hf]. unfold foreach.
  rewrite (mbind_ok _ _ _ _ _ (list_head_ok _ _ _ _ Hr)). unfold mbind, M_bind, mget.
  by apply (foreach_stable body Inv (head pl.*1) pl Hlist Hbody pl [] acc s (size (cells s)) HI).
Qed.

Lemma cancelWorkers_ok pid s workers pl toCancel ints :
  wf s -> list_rep s workers T_List pl -> Forall (typed T_List) pl.*2 -> list_rep s toCancel T_IntList ints -> disjoint_lists toCancel ints workers pl ->
  exists l s', cancelWorkers pid workers toCancel s = Ok (l, s') /\ collected pid workers pl ints pl l s'.
Proof.
  intros Hwf Hr Hty Hi Hd. unfold cancelWorkers.
  edestruct (foreach_whole workers toCancel (fun lc acc => w ← lfirst lc; l ← shListAppendInt acc (pid w); mret (inl l))) with (Inv := collected pid workers pl ints) as (l & s' & He & HI); [exact Hr| | | |].
  - exists ints. split_and!; try done. simpl. by rewrite app_nil_r.
  - intros don acc s1 (ints1 & _ & Hr1 & _). by eapply lseg_of_rep.
  - intros don p d n acc s1 (ints1 & Hwf1 & Hr1 & Hi1 & Hd1 & Hv1) Hp Hin. pose proof (elem_typed _ _ _ _ Hty Hin) as Ht.
    destruct d as [w|z|o]; [|done|done]. rewrite (mbind_ok _ _ _ _ _ (lfirst_ok _ _ _ _ Hp)).
    destruct (lappend_as_spec s1 acc T_IntList ints1 (int_value (pid w)) Hwf1 Hi1) as (s2 & l2 & q & Ha & HR).
    unfold shListAppendInt, lappend_int. rewrite (mbind_ok _ _ _ _ _ Ha). eexists l2, s2. split; [reflexivity|].
    exists (ints1 ++ [(q, int_value (pid w))]). destruct HR as [W2 R2 F2 O2]. split_and!; [done| |done| |].
    + exact (list_rep_frame _ _ _ _ _ _ _ Hwf1 F2 Hd1 Hr1).
    + eapply (refines_disjoint s1 s2 acc l2 T_IntList ints1); [done|by split|exact Hr1|done].
    + rewrite !fmap_app, Hv1. simpl. by rewrite <- app_assoc.
  - rewrite (mbind_ok _ _ _ _ _ He). by exists l, s'.
Qed.

Lemma list_free_nil s : list_free NIL s = Ok (tt, s).
Proof. unfold list_free, list_free_private, mbind, M_bind. simpl. by destruct (size (cells s)). Qed.

Definition pid_of (d : ListData) : Z := match d with int_value z => z | _ => 0%Z end.

Lemma CancelParallelWorkers_ok s toCancel ints :
  list_rep s toCancel T_IntList ints -> Forall (typed T_IntList) ints.*2 ->
  exists s', CancelParallelWorkers toCancel s = Ok ((pid_of <$> ints.*2, NIL), s') /\
    (forall x, cells s' !! x = if decide (x ∈ ints.*1) then None else cells s !! x) /\
    (forall a, Some a <> toCancel -> lists s' !! a = lists s !! a).
Proof.
  intros Hi Hty. unfold CancelParallelWorkers.
  edestruct (foreach_whole toCancel (@nil Z) (fun lc acc => pid ← lfirst_int lc; mret (inl (acc ++ [pid])))) with (Inv := fun (don : list (addr * ListData)) acc s1 => acc = pid_of <$> don.*2 /\ s1 = s) as (pids & s1 & He & Hp & ->);
    [exact Hi|done| | |].
  - intros don acc s1 [_ ->]. by eapply lseg_of_rep.
  - intros don p d n acc s1 [-> ->] Hp Hin. pose proof (elem_typed _ _ _ _ Hty Hin) as Ht. destruct d as [w|z|o]; [done| |done].
    rewrite (mbind_ok _ _ _ _ _ (lfirst_int_ok _ _ _ _ Hp)). eexists _, _. split; [reflexivity|]. split; [|done]. by rewrite !fmap_app.
  - rewrite (mbind_ok _ _ _ _ _ He). destruct toCancel as [a|].
    + destruct (list_free_spec s a _ ints Hi) as (s' & Hfree & _ & _ & Hc & Hl). rewrite (mbind_ok _ _ _ _ _ Hfree). exists s'.
      split_and!; [by rewrite Hp|done|]. intros b Hb. rewrite Hl, lookup_delete_ne by congruence. done.
    + simpl in Hi. subst ints. rewrite (mbind_ok _ _ _ _ _ (list_free_nil s)). exists s. split_and!; [by subst pids| |done]. intros x. by rewrite decide_False by (simpl; set_solver).
Qed.

(** ** Properties *)

(** Cancelling reaches every worker.  cancelWorkers adds the pid of each worker of the leader's list to the shared list of
    workers to cancel; CancelParallelWorkers then sends SIGINT to exactly these and to those that were there before, in
    order, and frees the list.  The list of workers is not touched. *)
Lemma cancel_signals_all_workers pid s workers pl toCancel ints :
  wf s -> list_rep s workers T_List pl -> Forall (typed T_List) pl.*2 ->
  list_rep s toCancel T_IntList ints -> Forall (typed T_IntList) ints.*2 -> disjoint_lists toCancel ints workers pl ->
  exists s', (l ← cancelWorkers pid workers toCancel; CancelParallelWorkers l) s =
      Ok (((pid_of <$> ints.*2) ++ ((fun d => match d with ptr_value w => pid w | _ => 0%Z end) <$> pl.*2), NIL), s') /\
    list_rep s' workers T_List pl.
Proof.
  intros Hwf Hr Hty Hi Hti Hd. destruct (cancelWorkers_ok pid s workers pl toCancel ints Hwf Hr Hty Hi Hd) as (l & s1 & He & ints1 & Hwf1 & Hr1 & Hi1 & Hd1 & Hv1).
  rewrite (mbind_ok _ _ _ _ _ He). destruct (CancelParallelWorkers_ok s1 l ints1 Hi1) as (s2 & He2 & Hc & Hl).
  { rewrite Hv1. apply Forall_app. split; [done|]. apply Forall_fmap, Forall_forall. done. }
  exists s2. split; [rewrite He2, Hv1, fmap_app; rewrite <- (list_fmap_compose (fun d => int_value (match d with ptr_value w => pid w | _ => 0%Z end)) pid_of pl.*2); done|].
  destruct Hd1 as [Hd1 Hd2]. destruct workers as [a|]; [|done]. destruct Hr1 as (h & q & Hla & Hlast & Hnd & Hseg). exists h, q.
  split_and!; [rewrite Hl; [done|intros E; by apply (Hd1 a)]|done|done|]. eapply lseg_ext; [|exact Hseg].
  intros x Hx. rewrite Hc, decide_False; [done|]. intros Hin. by apply (Hd2 x).
Qed.

(** C37: cleanup uses freed memory.  Its loop over the list of workers removes the worker it is at from that list, which frees
    the list cell, and goes on to read the next pointer from it: with any worker in the list the behaviour is undefined, after
    whatever [release] does in the rest of the body. *)
Theorem cleanup_reads_freed_cell release s a p w pl :
  wf s -> list_rep s (Some a) T_List ((p, ptr_value w) :: pl) ->
  (exists s1, release w s = Ok (tt, s1) /\ wf s1 /\ list_rep s1 (Some a) T_List ((p, ptr_value w) :: pl)) ->
  cleanup release (Some a) s = Err EUndef.
Proof. apply cleanup_undefined. Qed.

(** StartParallelWorkers starts every new job exactly once, in the order of the list, and leaves no job marked as
    new; two rounds are enough. *)
Theorem every_job_started_once jobs :
  exists es jobs', StartParallelWorkers 2 jobs = Some (es, jobs') /\ forked es = new_jobs jobs /\ new_jobs jobs' = [] /\ jobs'.*1 = jobs.*1.
Proof. by apply StartParallelWorkers_ok. Qed.

(** C38: StartParallelWorkers releases the lock of the job list twice.  Without a new job it takes the lock, looks at every
    job and releases it.  With one it releases the lock for the fork, looks at all jobs behind the first new one without taking
    it again (the lock is free at every point of that walk), and releases it once more at the end of the round.  If a backend
    takes the lock after the fork, as it may, that round takes it away: it is free at the end of the round although the backend
    has not released it. *)
Theorem job_lock_released_twice jobs :
  exists es jobs', StartParallelWorkers 2 jobs = Some (es, jobs') /\
    (new_jobs jobs = [] -> es = Acquire :: (Visit <$> jobs.*1) ++ [Release]) /\
    (forall jobs1 j jobs2, jobs = jobs1 ++ (j, true) :: jobs2 -> new_jobs jobs1 = [] ->
      exists before walk rest, es = before ++ walk ++ Release :: rest /\
        before = Acquire :: (Visit <$> jobs1.*1) ++ [Visit j; Release; ForkSlave j] /\
        visited walk = jobs2.*1 /\ Acquire ∉ walk /\
        (forall n, lock_after None (by_postmaster (before ++ take n walk)) = Some None) /\
        lock_after None (by_postmaster before ++ [(Backend, Acquire)]) = Some (Some Backend) /\
        lock_after None (by_postmaster before ++ [(Backend, Acquire)] ++ by_postmaster (walk ++ [Release])) = Some None).
Proof.
  destruct (decide (new_jobs jobs = [])) as [H0|H0].
  - eexists _, jobs. split; [cbn [StartParallelWorkers]; rewrite (start_quiet _ H0); reflexivity|]. split; [done|].
    intros jobs1 j jobs2 -> _. unfold new_jobs in H0. rewrite omap_app in H0. simpl in H0. by apply app_eq_nil in H0 as [_ ?].
  - pose proof (start_pass_ok jobs) as Hok. cbn [StartParallelWorkers]. destruct (start_pass jobs) as [[es1 js] found] eqn:E.
    destruct Hok as (_ & H2 & H3 & _). destruct found; [|by destruct H0; apply H3]. rewrite (start_quiet js H2).
    eexists _, js. split; [reflexivity|]. split; [done|]. intros jobs1 j jobs2 -> Hq. rewrite (start_pass_new _ _ _ Hq) in E. injection E as <- _.
    pose proof (start_pass_walk jobs2) as Hw. destruct (start_pass jobs2) as [[walk js2] f2]. destruct Hw as [Hv Ha]. eexists _, walk, _.
    pose proof (lock_after_fork jobs1.*1 j) as Hf. split_and!; [|reflexivity|done|done|intros n| |].
    + simpl. rewrite <- !app_assoc. simpl. by rewrite <- ?app_assoc.
    + unfold by_postmaster in *. rewrite fmap_app, (lock_after_app _ _ _ _ Hf). by apply lock_after_free, Acquire_not_prefix.
    + by rewrite (lock_after_app _ _ _ _ Hf).
    + rewrite (lock_after_app _ _ _ _ Hf). by apply lock_after_release.
Qed.

(** ** Witnesses *)

(** Two workers (at 100 and 101) in the leader's list, and a list with one pid. *)
Definition demo_workers : store :=
  match (l ← shListAppend NIL (Some 100%positive); l ← shListAppend l (Some 101%positive); c ← shListAppendInt NIL 7; mret (l, c)) empty_store with
  | Ok (_, s) => s
  | Err _ => empty_store
  end.
Definition demo_wl : list (addr * ListData) := [(1, ptr_value (Some 100)); (3, ptr_value (Some 101))]%positive.
Definition demo_cl : list (addr * ListData) := [(4%positive, int_value 7)].
Definition demo_pid (w : ptr) : Z := match w with Some p => Zpos p | None => 0 end.

Lemma demo_workers_wf : wf demo_workers.
Proof.
  intros a Ha. change (brk demo_workers) with 6%positive in Ha.
  assert (Hc : dom (cells demo_workers) = {[1; 3; 4]}%positive) by (vm_compute; reflexivity).
  assert (Hl : dom (lists demo_workers) = {[2; 5]}%positive) by (vm_compute; reflexivity).
  split; apply not_elem_of_dom; rewrite ?Hc, ?Hl, ?not_elem_of_union, !not_elem_of_singleton; repeat split; lia.
Qed.
Lemma demo_workers_rep : list_rep demo_workers (Some 2%positive) T_List demo_wl.
Proof. eexists _, _. split; [vm_compute; reflexivity|]. split; [reflexivity|]. split; [vm_compute; repeat constructor; set_solver|]. repeat eexists. Qed.
Lemma demo_cancel_rep : list_rep demo_workers (Some 5%positive) T_IntList demo_cl.
Proof. eexists _, _. split; [vm_compute; reflexivity|]. split; [reflexivity|]. split; [vm_compute; repeat constructor; set_solver|]. repeat eexists. Qed.
Lemma demo_lists_disjoint : disjoint_lists (Some 5%positive) demo_cl (Some 2%positive) demo_wl.
Proof. split; [intros a [= <-]; done|]. intros a Ha Hb. simpl in *. set_solver. Qed.

Lemma cancel_signals_all_workers_witness :
  exists s', (l ← cancelWorkers demo_pid (Some 2%positive) (Some 5%positive); CancelParallelWorkers l) demo_workers =
    Ok (([7; 100; 101]%Z, NIL), s').
Proof.
  destruct (cancel_signals_all_workers demo_pid demo_workers (Some 2%positive) demo_wl (Some 5%positive) demo_cl demo_workers_wf demo_workers_rep
    ltac:(repeat constructor) demo_cancel_rep ltac:(repeat constructor) demo_lists_disjoint) as (s' & He & _).
  exists s'. exact He.
Defined.

Lemma cleanup_reads_freed_cell_witness : cleanup (fun _ => mret tt) (Some 2%positive) demo_workers = Err EUndef.
Proof.
  apply (cleanup_reads_freed_cell _ demo_workers 2%positive 1%positive (Some 100%positive) [(3%positive, ptr_value (Some 101%positive))] demo_workers_wf demo_workers_rep).
  exists demo_workers. split; [reflexivity|]. split; [exact demo_workers_wf|exact demo_workers_rep].
Defined.

(** Three jobs, the second of them new: the third is looked at without the lock. *)
Lemma job_lock_released_twice_witness :
  exists es jobs' rest, StartParallelWorkers 2 [(1, false); (2, true); (3, false)] = Some (es, jobs') /\
    es = [Acquire; Visit 1; Visit 2; Release; ForkSlave 2; Visit 3; Release] ++ rest /\
    lock_after None (by_postmaster (take 5 es)) = Some None.
Proof.
  destruct (job_lock_released_twice [(1, false); (2, true); (3, false)]) as (es & jobs' & Hr & _ & H).
  destruct (H [(1, false)] 2 [(3, false)] eq_refl eq_refl) as (before & walk & rest & He & -> & _ & _ & Hl & _).
  exists es, jobs', [Acquire; Visit 1; Visit 2; Visit 3; Release]. split; [exact Hr|]. vm_compute in Hr. injection Hr as <- _.
  split; [reflexivity|]. exact (Hl 0).
Defined.
