(* ===== verification/BufferQueue.v ===== *)
(** * BufferQueue: the bounded queue between master and workers

    Models createBufferQueue, destroyBufferQueue, bufferQueueAdd, bufferQueueGet,
    bufferQueueGetNoSem, bufferQueueSetStop and InitPrlSemas of
    src/backend/storage/lmgr/parallel.c, with the counting semaphores of
    src/backend/port/sysv_sema.c.

    The cells are linked through their [next] pointers in shared memory.  The
    operations that wait are modelled as processes with a program counter; one
    step is one semaphore operation or one critical section, and any number of
    processes interleave.  A process that waits in PGSemaphoreLock may be thrown
    out by a query cancel, before or just after it got the semaphore. *)

From S2P Require Import Prelude.

(** ** Data (parallel.h) *)

Record BufferQueueCell := mkBqc { bqc_ptr_value : Z; bqc_next : ptr; bqc_last : bool }.

Record BufferQueue := mkBq {
  bq_head : ptr; bq_tail : ptr;
  items : addr; spaces : addr; mutex : addr;   (* the SEM_BOXes *)
  init_size : Z; bq_size : Z; stop : bool }.

(** A SEM_BOX: the link of the free list and the count of the semaphore. *)
Record SEM_BOX := mkBox { links : ptr; sem : nat }.

(** Shared memory, as far as the queues use it. *)
Record shm := mkShm {
  qcells : gmap addr BufferQueueCell;
  queues : gmap addr BufferQueue;
  boxes : gmap addr SEM_BOX;
  freeSems : ptr;
  PrlSemLock : bool;          (* spinlock held *)
  shm_brk : addr }.

Definition set_qcells f (m : shm) := mkShm (f (qcells m)) (queues m) (boxes m) (freeSems m) (PrlSemLock m) (shm_brk m).
Definition set_queues f (m : shm) := mkShm (qcells m) (f (queues m)) (boxes m) (freeSems m) (PrlSemLock m) (shm_brk m).
Definition set_boxes f (m : shm) := mkShm (qcells m) (queues m) (f (boxes m)) (freeSems m) (PrlSemLock m) (shm_brk m).
Definition set_freeSems p (m : shm) := mkShm (qcells m) (queues m) (boxes m) p (PrlSemLock m) (shm_brk m).
Definition set_lock b (m : shm) := mkShm (qcells m) (queues m) (boxes m) (freeSems m) b (shm_brk m).

Definition with_ends (h t : ptr) (q : BufferQueue) : BufferQueue :=
  mkBq h t (items q) (spaces q) (mutex q) (init_size q) (bq_size q) (stop q).
Definition with_size (n : Z) (q : BufferQueue) : BufferQueue :=
  mkBq (bq_head q) (bq_tail q) (items q) (spaces q) (mutex q) (init_size q) n (stop q).
Definition with_stop (b : bool) (q : BufferQueue) : BufferQueue :=
  mkBq (bq_head q) (bq_tail q) (items q) (spaces q) (mutex q) (init_size q) (bq_size q) b.

(** ** Semaphores (sysv_sema.c) *)

Definition box_sem (b : SEM_BOX) (n : nat) : SEM_BOX := mkBox (links b) n.
Definition PGSemaphoreReset (a : addr) (m : shm) : option shm :=
  b ← boxes m !! a; Some (set_boxes (<[a := box_sem b 0]>) m).

(** What a process does next: go on, wait, touch memory it must not, or end with elog(FATAL). *)
Inductive outcome (A : Type) := Next (a : A) | Blocked | Fault | Fatal.
Arguments Next {A} a.
Arguments Blocked {A}.
Arguments Fault {A}.
Arguments Fatal {A}.

(** The largest count of a System V semaphore, on Linux: semop fails with ERANGE when the count would go beyond it.  The
    semaphores exist as long as the server runs, so that semop has no other reason to fail than a signal, which is retried. *)
Definition SEMVMX : Z := 32767.

Definition PGSemaphoreUnlock (a : addr) (m : shm) : outcome shm :=
  match boxes m !! a with
  | None => Fault
  | Some b => if (Z.of_nat (sem b) <? SEMVMX)%Z then Next (set_boxes (<[a := box_sem b (S (sem b))]>) m) else Fatal
  end.

Definition PGSemaphoreLock (a : addr) (m : shm) : outcome shm :=
  match boxes m !! a with
  | None => Fault
  | Some b => match sem b with
              | O => Blocked
              | S n => Next (set_boxes (<[a := box_sem b n]>) m)
              end
  end.

(** ** The critical sections *)

(** [cell->next = n] for a cell in shared memory. *)
Definition set_cell_next (c : addr) (n : ptr) (m : shm) : option shm :=
  cell ← qcells m !! c;
  Some (set_qcells (<[c := mkBqc (bqc_ptr_value cell) n (bqc_last cell)]>) m).

(** bufferQueueAdd between the mutex lock and its unlock; returns [result]. *)
Definition add_critical (bq cell : addr) (stopOnLast : bool) (m : shm) : option (bool * shm) :=
  q ← queues m !! bq;
  let q := with_size (bq_size q + 1) q in
  m ← (match bq_tail q with
       | None =>
         m ← set_cell_next cell None m;
         Some (set_queues (<[bq := with_ends (Some cell) (Some cell) q]>) m)
       | Some t =>
         if decide (bq_head q = bq_tail q) then
           h ← bq_head q;
           m ← set_cell_next h (Some cell) m;
           m ← set_cell_next cell None m;
           Some (set_queues (<[bq := with_ends (bq_head q) (Some cell) q]>) m)
         else
           m ← set_cell_next t (Some cell) m;
           m ← set_cell_next cell None m;
           Some (set_queues (<[bq := with_ends (bq_head q) (Some cell) q]>) m)
       end);
  c ← qcells m !! cell;
  q ← queues m !! bq;
  if stopOnLast && bqc_last c
  then Some (true, set_queues (<[bq := with_stop true q]>) m)
  else Some (stop q, m).

(** bufferQueueGet between the second mutex lock and its unlock; [None] is the
    return of NULL taken when the queue has no head. *)
Definition get_critical (bq : addr) (m : shm) : option (option addr * shm) :=
  q ← queues m !! bq;
  match bq_head q with
  | None => Some (None, m)
  | Some c =>
    cell ← qcells m !! c;
    let q' := with_ends (bqc_next cell) (if decide (bqc_next cell = None) then None else bq_tail q) q in
    Some (Some c, set_queues (<[bq := with_size (bq_size q - 1) q']>) m)
  end.

(** bufferQueueGetNoSem: for cleaning up, without semaphores; it leaves [tail]
    and [size] alone. *)
Definition bufferQueueGetNoSem (bq : addr) (m : shm) : option (ptr * shm) :=
  q ← queues m !! bq;
  match bq_head q with
  | None => Some (None, m)
  | Some c =>
    cell ← qcells m !! c;
    Some (Some c, set_queues (<[bq := with_ends (bqc_next cell) (bq_tail q) q]>) m)
  end.

(** ** Processes *)

Inductive retval :=
| RBool (b : bool)      (* bufferQueueAdd, bufferQueueSetStop *)
| RCell (c : ptr).      (* bufferQueueGet *)

(** What a cancelled process took and did not give back. *)
Inductive held := HNothing | HSpace | HItem | HMutex | HSpaceMutex | HItemMutex.

Inductive pc :=
(* bufferQueueAdd *)
| AddSpaces (c : addr) (sol : bool)   (* at PGSemaphoreLock(spaces) *)
| AddMutex (c : addr) (sol : bool)    (* at PGSemaphoreLock(mutex) *)
| AddCrit (c : addr) (sol : bool)     (* holds mutex *)
| AddUnlock (r : bool)                (* at PGSemaphoreUnlock(mutex) *)
| AddItems (r : bool)                 (* at PGSemaphoreUnlock(items) *)
(* bufferQueueGet *)
| GetStart (wait : bool)
| GetSize                             (* !wait: holds mutex, at the test of size *)
| GetEmpty                            (* !wait: size == 0, at the unlock *)
| GetFull                             (* !wait: size <> 0, at the unlock *)
| GetItems                            (* at PGSemaphoreLock(items) *)
| GetMutex                            (* at PGSemaphoreLock(mutex) *)
| GetCrit                             (* holds mutex *)
| GetUnlock (c : addr)                (* at PGSemaphoreUnlock(mutex) *)
| GetSpaces (c : addr)                (* at PGSemaphoreUnlock(spaces) *)
| GetStuck                            (* returned NULL without unlocking *)
(* bufferQueueSetStop *)
| StopMutex (b : bool) | StopCrit (b : bool) | StopUnlock (old : bool)
| Returned (v : retval)
| Cancelled (h : held).

Definition lock_then (a : addr) (m : shm) (k : pc) : outcome (pc * shm) :=
  match PGSemaphoreLock a m with Next m' => Next (k, m') | Blocked => Blocked | Fault => Fault | Fatal => Fatal end.
Definition unlock_then (a : addr) (m : shm) (k : pc) : outcome (pc * shm) :=
  match PGSemaphoreUnlock a m with Next m' => Next (k, m') | Blocked => Blocked | Fault => Fault | Fatal => Fatal end.

(** The next step of a process in an operation on the queue [bq]. *)
Definition bq_step (bq : addr) (p : pc) (m : shm) : outcome (pc * shm) :=
  match queues m !! bq with
  | None => match p with Returned _ | Cancelled _ | GetStuck => Blocked | _ => Fault end
  | Some q =>
    match p with
    | AddSpaces c sol => lock_then (spaces q) m (AddMutex c sol)
    | AddMutex c sol => lock_then (mutex q) m (AddCrit c sol)
    | AddCrit c sol =>
      match add_critical bq c sol m with Some (r, m') => Next (AddUnlock r, m') | None => Fault end
    | AddUnlock r => unlock_then (mutex q) m (AddItems r)
    | AddItems r => unlock_then (items q) m (Returned (RBool r))
    | GetStart true => Next (GetItems, m)
    | GetStart false => lock_then (mutex q) m GetSize
    | GetSize => Next (if decide (bq_size q = 0%Z) then GetEmpty else GetFull, m)
    | GetEmpty => unlock_then (mutex q) m (Returned (RCell None))
    | GetFull => unlock_then (mutex q) m GetItems
    | GetItems => lock_then (items q) m GetMutex
    | GetMutex => lock_then (mutex q) m GetCrit
    | GetCrit =>
      match get_critical bq m with
      | Some (Some c, m') => Next (GetUnlock c, m')
      | Some (None, m') => Next (GetStuck, m')
      | None => Fault
      end
    | GetUnlock c => unlock_then (mutex q) m (GetSpaces c)
    | GetSpaces c => unlock_then (spaces q) m (Returned (RCell (Some c)))
    | StopMutex b => lock_then (mutex q) m (StopCrit b)
    | StopCrit b => Next (StopUnlock (stop q), set_queues (<[bq := with_stop b q]>) m)
    | StopUnlock old => unlock_then (mutex q) m (Returned (RBool old))
    | GetStuck | Returned _ | Cancelled _ => Blocked
    end
  end.

(** A query cancel arrives while the process waits in PGSemaphoreLock(sem, true):
    it loses control before the decrement, or right after it. *)
Definition cancel_waiting (p : pc) : option held :=
  match p with
  | AddSpaces _ _ | GetStart false | GetItems | StopMutex _ => Some HNothing
  | AddMutex _ _ => Some HSpace
  | GetMutex => Some HItem
  | _ => None
  end.
Definition cancel_acquired (p : pc) : option held :=
  match p with
  | AddMutex _ _ => Some HSpace          (* just got spaces *)
  | AddCrit _ _ => Some HSpaceMutex      (* just got mutex *)
  | GetSize => Some HMutex
  | GetMutex => Some HItem
  | GetCrit => Some HItemMutex
  | StopCrit _ => Some HMutex
  | _ => None
  end.

(** Calls. *)
Definition bufferQueueAdd (c : addr) (stopOnLast : bool) : pc := AddSpaces c stopOnLast.
Definition bufferQueueGet (wait : bool) : pc := GetStart wait.
Definition bufferQueueSetStop (newStop : bool) : pc := StopMutex newStop.

(** ** Systems of processes

    [hist_in] and [hist_out] record the cells linked into and unlinked from the
    queue, in order. *)
Record sys := mkSys { procs : list pc; mem : shm; hist_in : list addr; hist_out : list addr }.

(** The cells a process owns: those it is about to link, and the one it got. *)
Definition owned (p : pc) : list addr :=
  match p with
  | AddSpaces c _ | AddMutex c _ | AddCrit c _ => [c]
  | GetUnlock c | GetSpaces c | Returned (RCell (Some c)) => [c]
  | _ => []
  end.

Fixpoint owned_by (ps : list pc) : list addr :=
  match ps with [] => [] | p :: ps' => owned p ++ owned_by ps' end.

(** What a step adds to the histories. *)
Definition linked (p : pc) : list addr := match p with AddCrit c _ => [c] | _ => [] end.
Definition unlinked (p' : pc) : list addr := match p' with GetUnlock c => [c] | _ => [] end.

Inductive sys_step (bq : addr) : sys -> sys -> Prop :=
| step_run i p p' m' s :
    procs s !! i = Some p -> bq_step bq p (mem s) = Next (p', m') ->
    sys_step bq s (mkSys (<[i := p']> (procs s)) m' (hist_in s ++ linked p) (hist_out s ++ unlinked p'))
| step_cancel i p h s :
    procs s !! i = Some p -> cancel_waiting p = Some h \/ cancel_acquired p = Some h ->
    sys_step bq s (mkSys (<[i := Cancelled h]> (procs s)) (mem s) (hist_in s) (hist_out s))
| step_call i v p s :
    procs s !! i = Some (Returned v) ->
    (exists wait, p = bufferQueueGet wait) \/ (exists b, p = bufferQueueSetStop b) ->
    sys_step bq s (mkSys (<[i := p]> (procs s)) (mem s) (hist_in s) (hist_out s))
| step_call_add i v c cell sol s :
    procs s !! i = Some (Returned v) ->
    qcells (mem s) !! c = None ->                (* the cell was just palloc'd *)
    sys_step bq s (mkSys (<[i := bufferQueueAdd c sol]> (procs s)) (set_qcells (<[c := cell]>) (mem s))
                     (hist_in s) (hist_out s))
| step_free i c s :
    procs s !! i = Some (Returned (RCell (Some c))) ->  (* pfree of the cell received *)
    sys_step bq s (mkSys (<[i := Returned (RCell None)]> (procs s)) (set_qcells (delete c) (mem s))
                     (hist_in s) (hist_out s)).

(** ** The invariant *)

(** The chain of cells from [h], ending with NULL. *)
Fixpoint chain (cs : gmap addr BufferQueueCell) (h : ptr) (xs : list addr) : Prop :=
  match xs with
  | [] => h = None
  | x :: xs' => h = Some x /\ exists c, cs !! x = Some c /\ chain cs (bqc_next c) xs'
  end.

Record queue_rep (cs : gmap addr BufferQueueCell) (q : BufferQueue) (xs : list addr) : Prop := {
  qr_chain : chain cs (bq_head q) xs;
  qr_tail : bq_tail q = last xs;
  qr_nodup : NoDup xs;
  qr_size : bq_size q = Z.of_nat (length xs) }.

Definition b2n (b : bool) : nat := if b then 1 else 0.

(** Processes that hold the mutex, a space or an item, or have yet to give one. *)
Definition has_mutex (p : pc) : nat :=
  match p with
  | AddCrit _ _ | AddUnlock _ | GetSize | GetEmpty | GetFull | GetCrit | GetUnlock _
  | StopCrit _ | StopUnlock _ | GetStuck | Cancelled (HMutex | HSpaceMutex | HItemMutex) => 1
  | _ => 0
  end.
Definition has_space (p : pc) : nat :=
  match p with
  | AddMutex _ _ | AddCrit _ _ | GetUnlock _ | GetSpaces _ | Cancelled (HSpace | HSpaceMutex) => 1
  | _ => 0
  end.
Definition has_item (p : pc) : nat :=
  match p with
  | GetMutex | GetCrit | AddUnlock _ | AddItems _ | Cancelled (HItem | HItemMutex) => 1
  | _ => 0
  end.
Definition total (f : pc -> nat) (ps : list pc) : nat := sum_list_with f ps.

Definition sem_of (m : shm) (a : addr) : nat := match boxes m !! a with Some b => sem b | None => 0 end.

(** [q] is the queue's record, [xs] the cells now linked, [N] its capacity, which a semaphore can count. *)
Record queue_inv (bq : addr) (N : nat) (s : sys) (q : BufferQueue) (xs : list addr) : Prop := {
  qi_queue : queues (mem s) !! bq = Some q;
  qi_rep : queue_rep (qcells (mem s)) q xs;
  qi_boxes : is_Some (boxes (mem s) !! mutex q) /\ is_Some (boxes (mem s) !! spaces q) /\
             is_Some (boxes (mem s) !! items q);
  qi_distinct : mutex q <> spaces q /\ mutex q <> items q /\ spaces q <> items q;
  qi_mutex : sem_of (mem s) (mutex q) + total has_mutex (procs s) = 1;
  qi_spaces : sem_of (mem s) (spaces q) + total has_space (procs s) + length xs = N;
  qi_items : sem_of (mem s) (items q) + total has_item (procs s) = length xs;
  qi_fifo : hist_in s = hist_out s ++ xs;
  qi_own : NoDup (owned_by (procs s) ++ xs);
  qi_alloc : forall c, c ∈ owned_by (procs s) -> is_Some (qcells (mem s) !! c);
  qi_stuck : GetStuck ∉ procs s;
  qi_capacity : (Z.of_nat N <= SEMVMX)%Z }.

Definition Inv (bq : addr) (N : nat) (s : sys) : Prop := exists q xs, queue_inv bq N s q xs.

(** ** Creating and destroying queues *)

Definition MaxPrlSems : nat := 100.

(** SpinLockAcquire(PrlSemLock) *)
Definition acquire_PrlSemLock (m : shm) : outcome shm :=
  if PrlSemLock m then Blocked else Next (set_lock true m).

(** Takes the first free SEM_BOX; [None] when there is none. *)
Definition take_sem (m : shm) : outcome (ptr * shm) :=
  match freeSems m with
  | None => Next (None, m)
  | Some a => match boxes m !! a with
              | Some b => Next (Some a, set_freeSems (links b) m)
              | None => Fault
              end
  end.

#[export] Instance outcome_bind : MBind outcome := fun A B f r =>
  match r with Next a => f a | Blocked => Blocked | Fault => Fault | Fatal => Fatal end.

Definition or_fault {A} (o : option A) : outcome A := match o with Some a => Next a | None => Fault end.

(** The loop that sets the count of a semaphore; false when the elog(FATAL) of PGSemaphoreUnlock ends it, with shared
    memory as it is then. *)
Fixpoint unlock_times (n : nat) (a : addr) (m : shm) : outcome (bool * shm) :=
  match n with
  | O => Next (true, m)
  | S n' => match PGSemaphoreUnlock a m with
            | Next m' => unlock_times n' a m'
            | Fatal => Next (false, m)
            | Blocked => Blocked
            | Fault => Fault
            end
  end.

(** createBufferQueue; the result [None] is the ereport(FATAL) when no semaphore
    is left, with shared memory as it is then: the SpinLockRelease that follows the
    ereport is not reached; or the elog(FATAL) of PGSemaphoreUnlock when [spaces] cannot
    be counted up to buffer_size.  palloc'd memory is taken to be available. *)
Definition createBufferQueue (buffer_size : Z) (m : shm) : outcome (option addr * shm) :=
  let bq := shm_brk m in
  let m := mkShm (qcells m) (queues m) (boxes m) (freeSems m) (PrlSemLock m) (Pos.succ bq) in
  m ← acquire_PrlSemLock m;
  '(sp, m) ← take_sem m;
  match sp with None => Next (None, m) | Some sp =>
  '(it, m) ← take_sem m;
  match it with None => Next (None, m) | Some it =>
  '(mu, m) ← take_sem m;
  match mu with None => Next (None, m) | Some mu =>
  let m := set_lock false m in
  '(counted, m) ← unlock_times (Z.to_nat (buffer_size - 1)) sp m;
  if counted : bool then
    m ← PGSemaphoreLock it m;
    Next (Some bq, set_queues (<[bq := mkBq None None it sp mu buffer_size 0 false]>) m)
  else Next (None, m)
  end end end.

(** One SEM_BOX: count reset to one. *)
Definition reset_to_one (a : addr) (m : shm) : outcome shm :=
  m ← or_fault (PGSemaphoreReset a m); PGSemaphoreUnlock a m.

(** [a->links.next = freeSems; freeSems = a] *)
Definition give_sem (a : addr) (m : shm) : outcome shm :=
  b ← or_fault (boxes m !! a);
  Next (set_freeSems (Some a) (set_boxes (<[a := mkBox (freeSems m) (sem b)]>) m)).

(** destroyBufferQueue; a queue that is not empty only draws a WARNING. *)
Definition destroyBufferQueue (bq : addr) (m : shm) : outcome shm :=
  q ← or_fault (queues m !! bq);
  m ← reset_to_one (items q) m;
  m ← reset_to_one (mutex q) m;
  m ← reset_to_one (spaces q) m;
  m ← acquire_PrlSemLock m;
  m ← give_sem (items q) m;
  m ← give_sem (mutex q) m;
  m ← give_sem (spaces q) m;
  let m := set_lock false m in
  Next (set_queues (delete bq) m).

(** InitPrlSemas: the boxes are an array at [base]; box [i] has the address
    [base + i].  PGSemaphoreCreate makes a semaphore with count one. *)
Definition box_at (base : addr) (i : nat) : addr := Pos.of_nat (Pos.to_nat base + i).
Fixpoint init_boxes (n i : nat) (base : addr) (m : shm) : shm :=
  match n with
  | O => m
  | S n' => init_boxes n' (S i) base
              (set_freeSems (Some (box_at base i))
                 (set_boxes (<[box_at base i := mkBox (freeSems m) 1]>) m))
  end.
Definition InitPrlSemas (base : addr) (m : shm) : shm :=
  set_lock false (init_boxes MaxPrlSems 0 base (set_freeSems None m)).
Definition PrlGlobalSemas : nat := MaxPrlSems.

(** ** Lemmas *)

Lemma sem_of_update m a b n a' :
  sem_of (set_boxes (<[a := box_sem b n]>) m) a' = if decide (a = a') then n else sem_of m a'.
Proof.
  unfold sem_of, set_boxes; simpl. destruct (decide (a = a')) as [->|].
  - by rewrite lookup_insert_eq.
  - by rewrite lookup_insert_ne.
Qed.

Lemma boxes_update m a b n a' :
  is_Some (boxes m !! a') -> is_Some (boxes (set_boxes (<[a := box_sem b n]>) m) !! a').
Proof. simpl. intros ?. destruct (decide (a = a')) as [->|]; simplify_map_eq; eauto. Qed.

Lemma PGSemaphoreLock_inv a m m' :
  PGSemaphoreLock a m = Next m' ->
  exists b n, boxes m !! a = Some b /\ sem_of m a = S n /\ m' = set_boxes (<[a := box_sem b n]>) m.
Proof.
  unfold PGSemaphoreLock, sem_of. destruct (boxes m !! a) as [b|] eqn:E; [|done].
  destruct (sem b) as [|n] eqn:En; [done|]. intros [= <-]. eauto.
Qed.

Lemma lock_then_inv a m k p' m' :
  lock_then a m k = Next (p', m') ->
  p' = k /\ exists b n, boxes m !! a = Some b /\ sem_of m a = S n /\ m' = set_boxes (<[a := box_sem b n]>) m.
Proof.
  unfold lock_then. destruct (PGSemaphoreLock a m) eqn:E; intros [= <- <-].
  split; [done|]. by apply PGSemaphoreLock_inv.
Qed.

Lemma unlock_then_inv a m k p' m' :
  unlock_then a m k = Next (p', m') ->
  p' = k /\ exists b, boxes m !! a = Some b /\ m' = set_boxes (<[a := box_sem b (S (sem_of m a))]>) m.
Proof.
  unfold unlock_then, PGSemaphoreUnlock, sem_of. destruct (boxes m !! a) as [b|] eqn:E; simpl; [|done].
  destruct (_ <? _)%Z; [|done]. intros [= <- <-]. eauto.
Qed.

(** Chains of cells. *)
Lemma chain_frame cs cs' h xs :
  (forall x, x ∈ xs -> cs' !! x = cs !! x) -> chain cs h xs -> chain cs' h xs.
Proof.
  revert h. induction xs as [|x xs IH]; intros h Hf; simpl; [done|].
  intros (-> & c & Hc & Hch). split; [done|]. exists c. split.
  - rewrite Hf; [done|set_solver].
  - apply IH; set_solver.
Qed.

Lemma chain_alloc cs h xs x : chain cs h xs -> x ∈ xs -> is_Some (cs !! x).
Proof.
  revert h. induction xs as [|y xs IH]; intros h; simpl; [set_solver|].
  intros (-> & c & Hc & Hch) [->|Hin]%elem_of_cons; eauto.
Qed.

Lemma chain_head cs h xs : chain cs h xs -> h = head xs.
Proof. destruct xs; simpl; [done|]. by intros [-> _]. Qed.

(** Linking a cell behind the last one. *)
Lemma chain_snoc cs h xs t ct c cc :
  chain cs h (xs ++ [t]) -> NoDup (xs ++ [t]) -> c ∉ xs ++ [t] ->
  cs !! t = Some ct ->
  chain (<[c := mkBqc (bqc_ptr_value cc) None (bqc_last cc)]>
          (<[t := mkBqc (bqc_ptr_value ct) (Some c) (bqc_last ct)]> cs)) h ((xs ++ [t]) ++ [c]).
Proof.
  intros Hch Hnd Hc Ht. revert h Hch. induction xs as [|x xs IH]; intros h; simpl.
  - intros (-> & c0 & Hc0 & _). split; [done|].
    assert (c <> t) by set_solver. eexists; split; [by simplify_map_eq|]. simpl.
    split; [done|]. eexists; split; [by simplify_map_eq|done].
  - simpl in *. intros (-> & c0 & Hc0 & Hch). apply NoDup_cons in Hnd as [Hx Hnd].
    split; [done|]. exists c0. split; [|apply IH; set_solver].
    rewrite !lookup_insert_ne; [done|set_solver|set_solver].
Qed.

#[export] Instance owned_by_perm : Proper ((≡ₚ) ==> (≡ₚ)) owned_by.
Proof.
  intros ps ps' Hp. induction Hp as [|p ps ps' Hp IH|p p' ps|]; simpl; [done|by rewrite IH| |by etrans].
  rewrite !app_assoc. by rewrite (Permutation_app_comm (owned p')).
Qed.

(** The state of the processes matters up to order only, so that the process that
    moves can be taken to the front. *)
Lemma queue_inv_perm bq N ps ps' m hi ho q xs :
  ps ≡ₚ ps' -> queue_inv bq N (mkSys ps m hi ho) q xs -> queue_inv bq N (mkSys ps' m hi ho) q xs.
Proof.
  intros Hp [? ? ? ? Hm Hs Hi ? Ho Ha Hst Hcap]; simpl in *.
  assert (Hb : owned_by ps ≡ₚ owned_by ps') by (by rewrite Hp).
  split; simpl; try done; unfold total in *.
  - rewrite <- Hm. f_equal. by rewrite Hp.
  - rewrite <- Hs. f_equal. f_equal. by rewrite Hp.
  - rewrite <- Hi. f_equal. by rewrite Hp.
  - by rewrite <- Hb.
  - intros c. rewrite <- Hb. apply Ha.
  - by rewrite <- Hp.
Qed.

Lemma insert_front {A} (l : list A) i p p' :
  l !! i = Some p -> l ≡ₚ p :: delete i l /\ <[i := p']> l ≡ₚ p' :: delete i l.
Proof.
  intros H. split; [by apply delete_Permutation|].
  rewrite insert_take_drop, delete_take_drop by (eapply lookup_lt_Some; eauto).
  by rewrite Permutation_middle.
Qed.

(** A step that touches the semaphores only. *)
Lemma inv_move bq N p p' R m m' hi ho q xs :
  queue_inv bq N (mkSys (p :: R) m hi ho) q xs ->
  queues m' = queues m -> qcells m' = qcells m ->
  (forall a, is_Some (boxes m !! a) -> is_Some (boxes m' !! a)) ->
  sem_of m' (mutex q) + has_mutex p' = sem_of m (mutex q) + has_mutex p ->
  sem_of m' (spaces q) + has_space p' = sem_of m (spaces q) + has_space p ->
  sem_of m' (items q) + has_item p' = sem_of m (items q) + has_item p ->
  owned p' = owned p \/ owned p' = [] -> p' <> GetStuck ->
  queue_inv bq N (mkSys (p' :: R) m' hi ho) q xs.
Proof.
  intros [? ? (?&?&?) ? Hm Hs Hi ? Ho Ha Hst Hcap] Hq Hc Hb E1 E2 E3 Hown Hp'; simpl in *.
  split; simpl; rewrite ?Hq, ?Hc; eauto; unfold total in *; simpl in *; try lia.
  - repeat split; eauto.
  - destruct Hown as [->| ->]; [done|]. simpl. rewrite <- app_assoc in Ho.
    by apply NoDup_app in Ho as (_&_&Ho).
  - intros c Hin. apply Ha. destruct Hown as [Hown|Hown]; rewrite Hown in Hin; set_solver.
  - set_solver.
Qed.

(** ** The abstract queue

    A bounded first-in first-out queue of cells. *)
Inductive fifo_step (N : nat) : list addr -> list addr -> Prop :=
| fifo_stay xs : fifo_step N xs xs
| fifo_enqueue c xs : length xs < N -> c ∉ xs -> fifo_step N xs (xs ++ [c])
| fifo_dequeue c xs : fifo_step N (c :: xs) xs.

Definition refines_step (bq : addr) (N : nat) (s' : sys) (xs : list addr) : Prop :=
  exists q' xs', queue_inv bq N s' q' xs' /\ fifo_step N xs xs'.

Lemma refines_move bq N s' q xs : queue_inv bq N s' q xs -> refines_step bq N s' xs.
Proof. exists q, xs. split; [done|constructor]. Qed.

(** The critical section of bufferQueueAdd links the cell behind the last one. *)
Lemma add_critical_spec bq c sol m q xs cc :
  queues m !! bq = Some q -> queue_rep (qcells m) q xs -> c ∉ xs -> qcells m !! c = Some cc ->
  exists m' q',
    add_critical bq c sol m = Some (stop q', m') /\
    stop q' = stop q || (sol && bqc_last cc) /\
    queues m' !! bq = Some q' /\ boxes m' = boxes m /\
    mutex q' = mutex q /\ spaces q' = spaces q /\ items q' = items q /\
    (forall d, is_Some (qcells m !! d) -> is_Some (qcells m' !! d)) /\
    queue_rep (qcells m') q' (xs ++ [c]).
Proof.
  intros Hq [Hch Ht Hnd Hsz] Hc Hcc. unfold add_critical. rewrite Hq. simpl. rewrite Ht.
  set (cs' := <[c := mkBqc (bqc_ptr_value cc) None (bqc_last cc)]>
    (match last xs with
     | Some t => match qcells m !! t with
                 | Some ct => <[t := mkBqc (bqc_ptr_value ct) (Some c) (bqc_last ct)]> (qcells m)
                 | None => qcells m end
     | None => qcells m end)).
  set (q' := with_ends (if decide (xs = []) then Some c else bq_head q) (Some c) (with_size (bq_size q + 1) q)).
  assert (Hcs : forall d, is_Some (qcells m !! d) -> is_Some (cs' !! d)).
  { intros d Hd. unfold cs'. rewrite lookup_insert_is_Some'. right.
    destruct (last xs) as [t|]; [|done]. destruct (qcells m !! t); [|done].
    rewrite lookup_insert_is_Some'. by right. }
  assert (Hrep : chain cs' (bq_head q') (xs ++ [c])).
  { unfold cs', q'. destruct xs as [|t xs0 _] using rev_ind; simpl.
    - split; [done|]. eexists. by rewrite lookup_insert_eq.
    - rewrite last_snoc, decide_False by (by destruct xs0).
      destruct (chain_alloc _ _ _ t Hch) as [ct Hct]; [set_solver|]. rewrite Hct.
      by apply chain_snoc. }
  assert (Hlink : forall b, queue_rep cs' (with_stop b q') (xs ++ [c])).
  { intros b. split; simpl; [done|by rewrite last_snoc|by apply NoDup_app; split_and!; [done|set_solver|apply NoDup_singleton]|].
    rewrite length_app; simpl; lia. }
  exists (set_queues (<[bq := with_stop (stop q || (sol && bqc_last cc)) q']>) (set_qcells (fun _ => cs') m)),
    (with_stop (stop q || (sol && bqc_last cc)) q').
  split; [|split_and!; simpl; try done; by rewrite lookup_insert_eq].
  destruct xs as [|t xs0 _] using rev_ind; simpl.
  - unfold set_cell_next. rewrite Hcc. simpl. rewrite !lookup_insert_eq. simpl.
    destruct (sol && bqc_last cc); rewrite ?orb_true_r, ?orb_false_r; [|done].
    unfold set_queues; simpl. by rewrite insert_insert_eq.
  - destruct (chain_alloc _ _ _ t Hch) as [ct Hct]; [clear; set_solver|].
    assert (t <> c) by (clear - Hc; set_solver). subst cs' q'.
    rewrite !last_snoc, (decide_False (P := xs0 ++ [t] = [])), Hct by (by destruct xs0).
    unfold set_cell_next. destruct (decide (bq_head q = Some t)) as [->|]; simpl;
      rewrite Hct; simpl; rewrite lookup_insert_ne by done; rewrite Hcc; simpl; rewrite !lookup_insert_eq; simpl;
      destruct (sol && bqc_last cc); rewrite ?orb_true_r, ?orb_false_r; try done;
      unfold set_queues; simpl; by rewrite insert_insert_eq.
Qed.

Lemma add_critical_inv bq N c sol R m hi ho q xs :
  queue_inv bq N (mkSys (AddCrit c sol :: R) m hi ho) q xs ->
  exists cc m' q',
    qcells m !! c = Some cc /\
    add_critical bq c sol m = Some (stop q', m') /\
    stop q' = stop q || (sol && bqc_last cc) /\
    queue_inv bq N (mkSys (AddUnlock (stop q') :: R) m' (hi ++ [c]) ho) q' (xs ++ [c]) /\
    c ∉ xs /\ length xs < N.
Proof.
  intros [Hq Hr Hb Hd Hm Hs Hi Hf Ho Ha Hst Hcap]; unfold total, sem_of in *; simpl in *.
  destruct (Ha c) as [cc Hcc]; [set_solver|].
  assert (Hc : c ∉ xs) by (apply NoDup_cons in Ho as [Ho _]; set_solver).
  destruct (add_critical_spec bq c sol m q xs cc) as (m' & q' & He & Hst' & Hq' & Hbx & E1 & E2 & E3 & Hal & Hr');
    [done..|].
  exists cc, m', q'. split_and!; try done; [|lia].
  split; unfold total, sem_of; simpl; rewrite ?Hbx, ?E1, ?E2, ?E3, ?length_app; simpl; try done; try lia.
  - by rewrite Hf, app_assoc.
  - rewrite app_assoc. by rewrite (Permutation_app_comm _ [c]).
  - intros d Hin. apply Hal, Ha. set_solver.
  - set_solver.
Qed.

(** The critical section of bufferQueueGet: the queue has a head. *)
Lemma get_critical_inv bq N R m hi ho q xs :
  queue_inv bq N (mkSys (GetCrit :: R) m hi ho) q xs ->
  exists c xs' m' q',
    xs = c :: xs' /\ get_critical bq m = Some (Some c, m') /\
    queue_inv bq N (mkSys (GetUnlock c :: R) m' hi (ho ++ [c])) q' xs'.
Proof.
  intros [Hq [Hch Ht Hnd Hsz] Hb Hd Hm Hs Hi Hf Ho Ha Hst Hcap]; unfold total in *; simpl in *.
  destruct xs as [|c xs]; simpl in *; [lia|]. destruct Hch as (Hh & cc & Hcc & Hch).
  exists c, xs. eexists _, (with_size (bq_size q - 1) (with_ends (bqc_next cc) _ q)).
  split; [done|]. unfold get_critical. rewrite Hq; simpl. rewrite Hh, Hcc; simpl. split; [reflexivity|].
  apply NoDup_cons in Hnd as [Hc Hnd].
  split; unfold total, sem_of in *; simpl; try done; try lia.
  - by rewrite lookup_insert_eq.
  - split; simpl; try done; try lia. rewrite (chain_head _ _ _ Hch), Ht.
    by destruct xs.
  - by rewrite Hf, <- app_assoc.
  - by rewrite <- Permutation_middle in Ho.
  - intros d [->|Hin]%elem_of_cons; eauto.
  - set_solver.
Qed.

(** The critical section of bufferQueueSetStop. *)
Lemma stop_critical_inv bq N b R m hi ho q xs :
  queue_inv bq N (mkSys (StopCrit b :: R) m hi ho) q xs ->
  queue_inv bq N (mkSys (StopUnlock (stop q) :: R) (set_queues (<[bq := with_stop b q]>) m) hi ho)
            (with_stop b q) xs.
Proof.
  intros [Hq [Hch Ht Hnd Hsz] Hb Hd Hm Hs Hi Hf Ho Ha Hst Hcap]; unfold total in *; simpl in *.
  split; simpl; try done.
  - by rewrite lookup_insert_eq.
  - set_solver.
Qed.

(** One step of the process in front. *)
Ltac move_tac :=
  eapply inv_move; [eassumption|done|done|intros; by apply boxes_update|..];
  simpl; rewrite ?sem_of_update; repeat case_decide; naive_solver lia.

Lemma bq_step_refines bq N p p' R m m' hi ho q xs :
  queue_inv bq N (mkSys (p :: R) m hi ho) q xs -> bq_step bq p m = Next (p', m') ->
  refines_step bq N (mkSys (p' :: R) m' (hi ++ linked p) (ho ++ unlinked p')) xs.
Proof.
  intros HI Hs. pose proof (qi_distinct _ _ _ _ _ HI) as Hd. pose proof (qi_queue _ _ _ _ _ HI) as Hq.
  simpl in Hq. unfold bq_step in Hs. rewrite Hq in Hs.
  destruct p; try discriminate Hs;
    try (apply lock_then_inv in Hs as (-> & b0 & n & Hb & Hn & ->); simpl; rewrite !app_nil_r;
         apply refines_move with q; move_tac);
    try (apply unlock_then_inv in Hs as (-> & b0 & Hb & ->); simpl; rewrite !app_nil_r;
         apply refines_move with q; move_tac).
  - destruct (add_critical_inv _ _ _ _ _ _ _ _ _ _ HI) as (cc & m1 & q' & _ & He & _ & HI' & Hc & HN).
    rewrite He in Hs. injection Hs as <- <-. simpl. rewrite app_nil_r.
    exists q', (xs ++ [c]). split; [done|]. by constructor.
  - destruct wait.
    + injection Hs as <- <-. simpl. rewrite !app_nil_r. apply refines_move with q.
      eapply inv_move; [eassumption|done..|by left|done].
    + apply lock_then_inv in Hs as (-> & b0 & n & Hb & Hn & ->). simpl. rewrite !app_nil_r.
      apply refines_move with q. move_tac.
  - injection Hs as <- <-. apply refines_move with q.
    case_decide; simpl; rewrite !app_nil_r; (eapply inv_move; [eassumption|done..|by left|done]).
  - destruct (get_critical_inv _ _ _ _ _ _ _ _ HI) as (c & xs' & m1 & q' & -> & He & HI').
    rewrite He in Hs. injection Hs as <- <-. simpl. rewrite app_nil_r.
    exists q', xs'. split; [done|]. constructor.
  - injection Hs as <- <-. simpl. rewrite !app_nil_r. apply refines_move with (with_stop b q).
    by apply stop_critical_inv.
Qed.

(** Steps other than those of the operations. *)
Lemma cancel_inv bq N p h R m hi ho q xs :
  queue_inv bq N (mkSys (p :: R) m hi ho) q xs ->
  cancel_waiting p = Some h \/ cancel_acquired p = Some h ->
  queue_inv bq N (mkSys (Cancelled h :: R) m hi ho) q xs.
Proof.
  intros HI Hc. eapply inv_move; [exact HI|done..| | | | |done].
  all: destruct Hc as [Hc|Hc]; destruct p; try discriminate Hc; try destruct wait; simplify_eq/=; auto.
Qed.

Lemma call_inv bq N v p R m hi ho q xs :
  queue_inv bq N (mkSys (Returned v :: R) m hi ho) q xs ->
  (exists wait, p = bufferQueueGet wait) \/ (exists b, p = bufferQueueSetStop b) ->
  queue_inv bq N (mkSys (p :: R) m hi ho) q xs.
Proof.
  intros HI [[? ->]|[? ->]]; (eapply inv_move; [exact HI|done..|by right|done]).
Qed.

Lemma call_add_inv bq N v c cell sol R m hi ho q xs :
  queue_inv bq N (mkSys (Returned v :: R) m hi ho) q xs -> qcells m !! c = None ->
  queue_inv bq N (mkSys (bufferQueueAdd c sol :: R) (set_qcells (<[c := cell]>) m) hi ho) q xs.
Proof.
  intros [Hq [Hch Ht Hnd Hsz] Hb Hd Hm Hs Hi Hf Ho Ha Hst Hcap] Hc; unfold total, sem_of in *; simpl in *.
  assert (Hx : c ∉ xs).
  { intros Hin. destruct (chain_alloc _ _ _ _ Hch Hin). congruence. }
  assert (Hown : c ∉ owned_by R).
  { intros Hin. destruct (Ha c); [set_solver|congruence]. }
  split; unfold total, sem_of; simpl; try done.
  - split; try done. eapply chain_frame; [|done]. intros x Hin. rewrite lookup_insert_ne; [done|set_solver].
  - rewrite <- app_assoc in Ho. apply NoDup_app in Ho as (_&_&Ho). apply NoDup_cons. set_solver.
  - intros d [->|Hin]%elem_of_cons; rewrite lookup_insert_is_Some'; [by left|right; apply Ha; set_solver].
  - set_solver.
Qed.

Lemma free_inv bq N c R m hi ho q xs :
  queue_inv bq N (mkSys (Returned (RCell (Some c)) :: R) m hi ho) q xs ->
  queue_inv bq N (mkSys (Returned (RCell None) :: R) (set_qcells (delete c) m) hi ho) q xs.
Proof.
  intros [Hq [Hch Ht Hnd Hsz] Hb Hd Hm Hs Hi Hf Ho Ha Hst Hcap]; unfold total, sem_of in *; simpl in *.
  apply NoDup_cons in Ho as [Hc Ho].
  split; unfold total, sem_of; simpl; try done.
  - split; try done. eapply chain_frame; [|done]. intros x Hin. rewrite lookup_delete_ne; [done|set_solver].
  - intros d Hin. rewrite lookup_delete_ne by set_solver. apply Ha. set_solver.
  - set_solver.
Qed.

(** Every step of the system refines the abstract queue. *)
Lemma sys_step_refines bq N s s' q xs :
  queue_inv bq N s q xs -> sys_step bq s s' -> refines_step bq N s' xs.
Proof.
  intros HI Hs. destruct Hs as [i p p' m' s Hi Hb|i p h s Hi Hc|i v p s Hi Hc|i v c cell sol s Hi Hc|i c s Hi];
    destruct s as [ps m hi ho]; simpl in *;
    match goal with |- refines_step _ _ (mkSys (<[_ := ?x]> _) _ _ _) _ =>
      destruct (insert_front _ _ _ x Hi) as [Hp Hp'] end;
    pose proof (queue_inv_perm _ _ _ _ _ _ _ _ _ Hp HI) as HI'.
  - destruct (bq_step_refines _ _ _ _ _ _ _ _ _ _ _ HI' Hb) as (q' & xs' & HI2 & Hf).
    exists q', xs'. split; [|done]. by eapply queue_inv_perm.
  - apply refines_move with q. symmetry in Hp'. eapply queue_inv_perm; [exact Hp'|]. by eapply cancel_inv.
  - apply refines_move with q. symmetry in Hp'. eapply queue_inv_perm; [exact Hp'|]. by eapply call_inv.
  - apply refines_move with q. symmetry in Hp'. eapply queue_inv_perm; [exact Hp'|]. by eapply call_add_inv.
  - apply refines_move with q. symmetry in Hp'. eapply queue_inv_perm; [exact Hp'|]. by apply free_inv.
Qed.

(** ** Reachable states *)

(** A queue of capacity [N] that nobody uses yet. *)
Definition fresh_queue (bq : addr) (N : nat) (s : sys) : Prop :=
  exists q, queue_inv bq N s q [] /\ hist_in s = [].

Lemma reach_refines bq N s s' q xs :
  queue_inv bq N s q xs -> rtc (sys_step bq) s s' ->
  exists q' xs', queue_inv bq N s' q' xs' /\ rtc (fifo_step N) xs xs'.
Proof.
  intros HI Hr. revert q xs HI. induction Hr as [s|s s1 s2 Hs Hr IH]; intros q xs HI.
  - exists q, xs. split; [done|constructor].
  - destruct (sys_step_refines _ _ _ _ _ _ HI Hs) as (q1 & xs1 & HI1 & Hf).
    destruct (IH _ _ HI1) as (q2 & xs2 & HI2 & Hf2). exists q2, xs2. split; [done|].
    eapply rtc_l; eauto.
Qed.

Lemma reach_inv bq N s s' : fresh_queue bq N s -> rtc (sys_step bq) s s' -> Inv bq N s'.
Proof. intros (q & HI & _) Hr. destruct (reach_refines _ _ _ _ _ _ HI Hr) as (q' & xs' & ? & _). by exists q', xs'. Qed.

Lemma total_lookup f ps i p : ps !! i = Some p -> total f ps = f p + total f (delete i ps).
Proof. intros H. unfold total. by rewrite (delete_Permutation ps i p H) at 1. Qed.

Lemma total_two f ps i j p p' :
  ps !! i = Some p -> ps !! j = Some p' -> i <> j -> f p + f p' <= total f ps.
Proof.
  intros Hi Hj Hij. rewrite (total_lookup f ps i p Hi).
  assert (p' ∈ delete i ps) as [k Hk]%list_elem_of_lookup.
  { destruct (decide (j < i)).
    - apply list_elem_of_lookup. exists j. by rewrite list_lookup_delete_lt.
    - apply list_elem_of_lookup. exists (pred j). rewrite list_lookup_delete_ge by lia.
      by replace (S (pred j)) with j by lia. }
  rewrite (total_lookup f _ k p' Hk). lia.
Qed.

Lemma total_zero f ps : (forall p, p ∈ ps -> f p = 0) -> total f ps = 0.
Proof.
  induction ps as [|p ps IH]; intros H; unfold total in *; simpl; [done|].
  rewrite H, IH; [done| |]; set_solver.
Qed.

(** A process that is not finished and not waiting for a semaphore can step. *)
Definition waits_for (q : BufferQueue) (p : pc) : ptr :=
  match p with
  | AddSpaces _ _ => Some (spaces q)
  | AddMutex _ _ | GetMutex | StopMutex _ | GetStart false => Some (mutex q)
  | GetItems => Some (items q)
  | _ => None
  end.
Definition finished (p : pc) : bool := match p with Returned _ | Cancelled _ | GetStuck => true | _ => false end.

(** A process that has the mutex, a space or an item can give it back: the count stays below the largest one. *)
Lemma room_to_unlock bq N p R m hi ho q xs :
  queue_inv bq N (mkSys (p :: R) m hi ho) q xs ->
  (has_mutex p = 1 -> (Z.of_nat (sem_of m (mutex q)) < SEMVMX)%Z) /\
  (has_space p = 1 -> (Z.of_nat (sem_of m (spaces q)) < SEMVMX)%Z) /\
  (has_item p = 1 -> (Z.of_nat (sem_of m (items q)) < SEMVMX)%Z).
Proof.
  intros [? ? ? ? Hm Hs Hi ? ? ? ? Hcap]; unfold total, SEMVMX in *; simpl in *. lia.
Qed.

Lemma unlock_front m a k : is_Some (boxes m !! a) -> (Z.of_nat (sem_of m a) < SEMVMX)%Z -> exists m', unlock_then a m k = Next (k, m').
Proof.
  intros [b Hb] Hn. unfold unlock_then, PGSemaphoreUnlock, sem_of in *. rewrite Hb in *. apply Z.ltb_lt in Hn. rewrite Hn. eauto.
Qed.

Lemma step_cases bq N p R m hi ho q xs :
  queue_inv bq N (mkSys (p :: R) m hi ho) q xs ->
  match waits_for q p with
  | Some a => match sem_of m a with O => bq_step bq p m = Blocked | S _ => exists r, bq_step bq p m = Next r end
  | None => if finished p then bq_step bq p m = Blocked else exists r, bq_step bq p m = Next r
  end.
Proof.
  intros HI. pose proof (qi_queue _ _ _ _ _ HI) as Hq. simpl in Hq.
  destruct (qi_boxes _ _ _ _ _ HI) as ([b1 Hb1] & [b2 Hb2] & [b3 Hb3]). simpl in *.
  destruct (room_to_unlock _ _ _ _ _ _ _ _ _ HI) as (Rm & Rs & Ri).
  unfold bq_step. rewrite Hq. destruct p; simpl; try destruct wait; simpl in *;
    try (edestruct unlock_front as [? ->]; [by rewrite ?Hb1, ?Hb2, ?Hb3; eauto|by auto|by eauto]);
    unfold lock_then, PGSemaphoreLock, sem_of;
    rewrite ?Hb1, ?Hb2, ?Hb3; simpl; eauto;
    try (match goal with |- context [sem ?b] => destruct (sem b); eauto end).
  - destruct (add_critical_inv _ _ _ _ _ _ _ _ _ _ HI) as (cc & m1 & q' & _ & He & _). rewrite He. eauto.
  - destruct (get_critical_inv _ _ _ _ _ _ _ _ HI) as (c & xs' & m1 & q' & _ & He & _). rewrite He. eauto.
Qed.

Lemma step_cases_at bq N s p q xs :
  queue_inv bq N s q xs -> p ∈ procs s ->
  match waits_for q p with
  | Some a => match sem_of (mem s) a with O => bq_step bq p (mem s) = Blocked | S _ => exists r, bq_step bq p (mem s) = Next r end
  | None => if finished p then bq_step bq p (mem s) = Blocked else exists r, bq_step bq p (mem s) = Next r
  end.
Proof.
  intros HI [i Hi]%list_elem_of_lookup. destruct s as [ps m hi ho]. simpl in *.
  eapply step_cases. eapply queue_inv_perm; [by apply delete_Permutation|done].
Qed.

(** Once a process that was cancelled keeps the mutex, no critical section is
    entered again. *)
Definition keeps_mutex (p : pc) : bool :=
  match p with Cancelled (HMutex | HSpaceMutex | HItemMutex) => true | _ => false end.

Lemma wedged_step bq N s s' i p q xs :
  queue_inv bq N s q xs -> procs s !! i = Some p -> keeps_mutex p = true -> sys_step bq s s' ->
  procs s' !! i = Some p /\ hist_in s' = hist_in s /\ hist_out s' = hist_out s.
Proof.
  intros HI Hi Hk Hs.
  assert (Hone : forall j p', procs s !! j = Some p' -> has_mutex p' = 1 -> j = i).
  { intros j p' Hj Hm. destruct (decide (j = i)) as [|Hne]; [done|].
    pose proof (total_two has_mutex _ _ _ _ _ Hj Hi Hne). pose proof (qi_mutex _ _ _ _ _ HI).
    destruct p as [| | | | | | | | | | | | | | | | | | |[]]; try discriminate Hk; simpl in *; lia. }
  assert (Hz : sem_of (mem s) (mutex q) = 0).
  { pose proof (qi_mutex _ _ _ _ _ HI) as Hm. rewrite (total_lookup _ _ _ _ Hi) in Hm.
    destruct p as [| | | | | | | | | | | | | | | | | | |[]]; try discriminate Hk; simpl in *; lia. }
  destruct Hs as [j p1 p' m' s Hj Hb|j p1 h s Hj Hc|j v p1 s Hj Hc|j v c cell sol s Hj Hc|j c s Hj]; simpl in *;
    (assert (j <> i) as Hji by (intros ->; rewrite Hi in Hj; injection Hj as ->;
       first [by destruct p1; simpl in Hk; try discriminate Hk; unfold bq_step in Hb;
                rewrite (qi_queue _ _ _ _ _ HI) in Hb
             |by destruct p1; simpl in Hk; try discriminate Hk; destruct Hc | discriminate Hk]);
     rewrite list_lookup_insert_ne by done; split; [done|]); try done.
  assert (Hp1 : has_mutex p1 = 0) by (destruct p1 as [| | | | | | | | | | | | | | | | | | |[]]; try done; exfalso; by eapply Hji, Hone).
  unfold bq_step in Hb. rewrite (qi_queue _ _ _ _ _ HI) in Hb.
  destruct p1; try discriminate Hp1; try discriminate Hb; simpl; try destruct wait;
    try (apply lock_then_inv in Hb as (-> & b0 & n & Hb & Hn & ->); simpl; by rewrite !app_nil_r);
    try (apply unlock_then_inv in Hb as (-> & b0 & Hb & ->); simpl; by rewrite !app_nil_r);
    injection Hb as <- <-; simpl; by rewrite !app_nil_r.
Qed.

Lemma wedged_reach bq N s s' i p :
  Inv bq N s -> procs s !! i = Some p -> keeps_mutex p = true -> rtc (sys_step bq) s s' ->
  procs s' !! i = Some p /\ hist_in s' = hist_in s /\ hist_out s' = hist_out s.
Proof.
  intros HI Hi Hk Hr. revert HI Hi. induction Hr as [s|s s1 s2 Hs Hr IH]; intros (q & xs & HI) Hi; [done|].
  destruct (wedged_step _ _ _ _ _ _ _ _ HI Hi Hk Hs) as (Hi1 & E1 & E2).
  destruct (sys_step_refines _ _ _ _ _ _ HI Hs) as (q1 & xs1 & HI1 & _).
  destruct IH as (? & -> & ->); [by exists q1, xs1|done|done].
Qed.

(** ** Lemmas on the free semaphores *)

(** The free list: distinct boxes, each with count one. *)
Fixpoint free_chain (bs : gmap addr SEM_BOX) (h : ptr) (l : list addr) : Prop :=
  match l with
  | [] => h = None
  | a :: l' => h = Some a /\ exists p, bs !! a = Some (mkBox p 1) /\ free_chain bs p l'
  end.
Definition free_sems (m : shm) (l : list addr) : Prop :=
  NoDup l /\ free_chain (boxes m) (freeSems m) l /\ PrlSemLock m = false.

Lemma free_chain_frame bs bs' h l :
  (forall a, a ∈ l -> bs' !! a = bs !! a) -> free_chain bs h l -> free_chain bs' h l.
Proof.
  revert h. induction l as [|a l IH]; intros h Hf; simpl; [done|].
  intros (-> & p & Ha & Hc). split; [done|]. exists p. rewrite Hf by set_solver.
  split; [done|]. apply IH; set_solver.
Qed.

Lemma unlock_times_spec n a m b :
  boxes m !! a = Some b -> (Z.of_nat (sem b + n) <= SEMVMX)%Z ->
  unlock_times n a m = Next (true, set_boxes (<[a := box_sem b (sem b + n)]>) m).
Proof.
  revert m b. induction n as [|n IH]; intros m b Hb Hn; simpl.
  - rewrite Nat.add_0_r. destruct m, b; unfold set_boxes, box_sem; simpl in *.
    by rewrite insert_id.
  - unfold PGSemaphoreUnlock. rewrite Hb. replace (Z.of_nat (sem b) <? SEMVMX)%Z with true by (symmetry; lia).
    rewrite (IH _ (box_sem b (S (sem b)))) by (simpl; first [by rewrite lookup_insert_eq|lia]).
    unfold set_boxes, box_sem; simpl. rewrite insert_insert_eq. do 5 f_equal. lia.
Qed.

(** Beyond the largest count the loop ends in the FATAL error. *)
Lemma unlock_times_fatal n a m b :
  boxes m !! a = Some b -> (SEMVMX < Z.of_nat (sem b + n))%Z -> (Z.of_nat (sem b) <= SEMVMX)%Z ->
  exists k, unlock_times n a m = Next (false, set_boxes (<[a := box_sem b k]>) m).
Proof.
  revert m b. induction n as [|n IH]; intros m b Hb Hn Hs; simpl; [lia|].
  unfold PGSemaphoreUnlock. rewrite Hb. destruct (Z.ltb_spec (Z.of_nat (sem b)) SEMVMX) as [Hlt|Hge].
  - destruct (IH (set_boxes (<[a := box_sem b (S (sem b))]>) m) (box_sem b (S (sem b)))) as [k Hk];
      [simpl; by rewrite lookup_insert_eq|simpl; lia|simpl; lia|].
    exists k. rewrite Hk. unfold set_boxes, box_sem; simpl. by rewrite insert_insert_eq.
  - exists (sem b). destruct m, b; unfold set_boxes, box_sem; simpl in *. by rewrite insert_id.
Qed.

(** createBufferQueue takes three boxes and sets their counts. *)
Lemma createBufferQueue_spec n m a b c l :
  free_sems m (a :: b :: c :: l) -> (n <= SEMVMX)%Z ->
  exists m' q, createBufferQueue n m = Next (Some (shm_brk m), m') /\
    queues m' = <[shm_brk m := q]> (queues m) /\ qcells m' = qcells m /\
    q = mkBq None None b a c n 0 false /\
    sem_of m' a = Z.to_nat (Z.max 1 n) /\ sem_of m' b = 0 /\ sem_of m' c = 1 /\
    is_Some (boxes m' !! a) /\ is_Some (boxes m' !! b) /\ is_Some (boxes m' !! c) /\
    free_sems m' l /\ (forall x, x <> a -> x <> b -> boxes m' !! x = boxes m !! x).
Proof.
  intros (Hnd & Hc & Hl) Hn. destruct m as [cs qs bs fs lk brk]. simpl in *. subst lk.
  destruct Hc as (-> & pa & Ha & -> & pb & Hb & -> & pc & Hc & Hrest).
  apply NoDup_cons in Hnd as [Ha' Hnd]. apply NoDup_cons in Hnd as [Hb' Hnd]. apply NoDup_cons in Hnd as [Hc' Hnd].
  assert (a <> b /\ a <> c /\ b <> c) as (Hab & Hac & Hbc) by set_solver.
  unfold createBufferQueue, acquire_PrlSemLock, take_sem; simpl. rewrite Ha; simpl. rewrite Hb; simpl. rewrite Hc; simpl.
  rewrite (unlock_times_spec _ a _ (mkBox (Some b) 1)) by (simpl; first [done|unfold SEMVMX in *; lia]); simpl.
  unfold PGSemaphoreLock; simpl. rewrite lookup_insert_ne, Hb by done. simpl.
  eexists _, _. split; [reflexivity|].
  split_and!; try done; unfold sem_of; simpl; rewrite ?lookup_insert_eq; eauto.
  - rewrite lookup_insert_ne, lookup_insert_eq by done. simpl. lia.
  - by rewrite !lookup_insert_ne, Hc by done.
  - rewrite lookup_insert_ne, lookup_insert_eq by done. eauto.
  - rewrite !lookup_insert_ne, Hc by done. eauto.
  - split; [done|]. split; [|done]. simpl. eapply free_chain_frame; [|done].
    intros x Hx. rewrite !lookup_insert_ne; [done|set_solver|set_solver].
  - intros x ? ?. by rewrite !lookup_insert_ne.
Qed.

(** A size that no semaphore can count: the FATAL error comes when the three boxes are off the free list, the spinlock is
    free again and the queue has not been returned to anybody. *)
Lemma createBufferQueue_too_big n m a b c l :
  free_sems m (a :: b :: c :: l) -> (SEMVMX < n)%Z ->
  exists m', createBufferQueue n m = Next (None, m') /\ queues m' = queues m /\ free_sems m' l.
Proof.
  intros (Hnd & Hc & Hl) Hn. destruct m as [cs qs bs fs lk brk]. simpl in *. subst lk.
  destruct Hc as (-> & pa & Ha & -> & pb & Hb & -> & pc & Hc & Hrest).
  apply NoDup_cons in Hnd as [Ha' Hnd]. apply NoDup_cons in Hnd as [Hb' Hnd]. apply NoDup_cons in Hnd as [Hc' Hnd].
  unfold createBufferQueue, acquire_PrlSemLock, take_sem; simpl. rewrite Ha; simpl. rewrite Hb; simpl. rewrite Hc; simpl.
  match goal with |- context [unlock_times ?k a ?m0] => destruct (unlock_times_fatal k a m0 (mkBox (Some b) 1)) as [k' ->] end;
    [done|unfold SEMVMX in *; simpl; lia|done|]. simpl. eexists. split; [reflexivity|]. split; [done|].
  split; [done|]. split; [|done]. simpl. eapply free_chain_frame; [|done]. intros x Hx. rewrite lookup_insert_ne; [done|set_solver].
Qed.


Lemma reset_to_one_eq a m b :
  boxes m !! a = Some b -> reset_to_one a m = Next (set_boxes (<[a := mkBox (links b) 1]>) m).
Proof.
  intros Hb. unfold reset_to_one, PGSemaphoreReset, PGSemaphoreUnlock. rewrite Hb; simpl.
  rewrite lookup_insert_eq; simpl. unfold set_boxes; simpl. by rewrite insert_insert_eq.
Qed.

(** destroyBufferQueue gives the three boxes back with count one. *)
Lemma destroyBufferQueue_spec bq q m l :
  queues m !! bq = Some q -> free_sems m l ->
  is_Some (boxes m !! mutex q) -> is_Some (boxes m !! spaces q) -> is_Some (boxes m !! items q) ->
  NoDup (spaces q :: mutex q :: items q :: l) ->
  exists m', destroyBufferQueue bq m = Next m' /\ queues m' = delete bq (queues m) /\ qcells m' = qcells m /\
    free_sems m' (spaces q :: mutex q :: items q :: l).
Proof.
  intros Hq (Hnl & Hc & Hl) [bm Hm] [bs Hs] [bi Hi] Hnd.
  assert (spaces q <> mutex q /\ spaces q <> items q /\ mutex q <> items q) as (H1 & H2 & H3).
  { apply NoDup_cons in Hnd as [? Hnd]. apply NoDup_cons in Hnd as [? Hnd]. set_solver. }
  unfold destroyBufferQueue. rewrite Hq; simpl.
  rewrite (reset_to_one_eq _ _ bi Hi); simpl.
  rewrite (reset_to_one_eq _ _ bm) by (simpl; by rewrite lookup_insert_ne); simpl.
  rewrite (reset_to_one_eq _ _ bs) by (simpl; by rewrite !lookup_insert_ne); simpl.
  unfold acquire_PrlSemLock; simpl. rewrite Hl; simpl.
  unfold give_sem; simpl.
  rewrite !lookup_insert_ne, lookup_insert_eq by done; simpl.
  rewrite !lookup_insert_ne, lookup_insert_eq by done; simpl.
  rewrite !(lookup_insert_ne _ _ (spaces q)), lookup_insert_eq by done; simpl.
  eexists. split; [reflexivity|]. split_and!; [done..|]. split; [done|]. split; [|done]. simpl.
  split; [done|]. eexists. rewrite lookup_insert_eq. split; [done|].
  split; [done|]. eexists. rewrite lookup_insert_ne, lookup_insert_eq by done. split; [done|].
  split; [done|]. eexists. rewrite !lookup_insert_ne, lookup_insert_eq by done. split; [done|].
  eapply free_chain_frame; [|done]. intros x Hx. rewrite !lookup_insert_ne; [done|..].
  all: apply NoDup_cons in Hnd as [? Hnd]; apply NoDup_cons in Hnd as [? Hnd]; apply NoDup_cons in Hnd as [? Hnd]; set_solver.
Qed.

Lemma box_at_inj base i j : box_at base i = box_at base j -> i = j.
Proof. unfold box_at. intros H. apply (f_equal Pos.to_nat) in H. rewrite !Nat2Pos.id in H by lia. lia. Qed.

Lemma init_boxes_spec n i base m l :
  NoDup l -> free_chain (boxes m) (freeSems m) l -> (forall a, a ∈ l -> exists j, j < i /\ a = box_at base j) ->
  exists l', length l' = n + length l /\ NoDup l' /\
    free_chain (boxes (init_boxes n i base m)) (freeSems (init_boxes n i base m)) l' /\
    queues (init_boxes n i base m) = queues m /\ shm_brk (init_boxes n i base m) = shm_brk m.
Proof.
  revert i m l. induction n as [|n IH]; intros i m l Hnd Hc Hl; simpl; [by exists l|].
  assert (Hi : box_at base i ∉ l) by (intros (j & Hj & E%box_at_inj)%Hl; lia).
  destruct (IH (S i) (set_freeSems (Some (box_at base i))
    (set_boxes (<[box_at base i := mkBox (freeSems m) 1]>) m)) (box_at base i :: l)) as (l' & Hlen & Hl').
  - by apply NoDup_cons.
  - simpl. split; [done|]. eexists. rewrite lookup_insert_eq. split; [done|].
    eapply free_chain_frame; [|done]. intros a Ha. rewrite lookup_insert_ne; [done|set_solver].
  - intros a [->|Ha]%elem_of_cons; [exists i; split; [lia|done]|].
    destruct (Hl a Ha) as (j & Hj & ->). exists j. split; [lia|done].
  - exists l'. split; [simpl in Hlen; lia|]. exact Hl'.
Qed.

Lemma init_sems_spec n base m :
  exists l, length l = n /\ free_sems (set_lock false (init_boxes n 0 base (set_freeSems None m))) l.
Proof.
  destruct (init_boxes_spec n 0 base (set_freeSems None m) []) as (l & Hlen & Hnd & Hc & _);
    [apply NoDup_nil_2|done|set_solver|].
  exists l. rewrite Hlen, Nat.add_0_r. split; [done|]. split; [done|]. split; [|done]. exact Hc.
Qed.

Lemma InitPrlSemas_spec base m :
  exists l, length l = MaxPrlSems /\ free_sems (InitPrlSemas base m) l.
Proof. apply init_sems_spec. Qed.

(** The processes of a system that has not started. *)
Definition idle (k : nat) : list pc := replicate k (Returned (RBool false)).

Lemma total_idle f k : f (Returned (RBool false)) = 0 -> total f (idle k) = 0.
Proof. intros H. apply total_zero. intros p Hp. apply elem_of_replicate in Hp as [-> _]. done. Qed.
Lemma owned_idle k : owned_by (idle k) = [].
Proof. induction k; simpl; auto. Qed.

Lemma created_fresh n m a b c l k :
  free_sems m (a :: b :: c :: l) -> (n <= SEMVMX)%Z ->
  exists m' q, createBufferQueue n m = Next (Some (shm_brk m), m') /\ free_sems m' l /\
    q = mkBq None None b a c n 0 false /\
    queue_inv (shm_brk m) (Z.to_nat (Z.max 1 n)) (mkSys (idle k) m' [] []) q [].
Proof.
  intros Hf Hn. assert (Hd : a <> b /\ a <> c /\ b <> c).
  { destruct Hf as [Hnd _]. apply NoDup_cons in Hnd as [? Hnd]. apply NoDup_cons in Hnd as [? Hnd]. set_solver. }
  destruct (createBufferQueue_spec n m a b c l Hf Hn)
    as (m' & q & He & Hq & Hc & -> & Ha & Hb & Hcc & Ia & Ib & Ic & Hf' & _).
  eexists m', _. split; [done|]. split; [done|]. split; [reflexivity|].
  split; simpl; rewrite ?owned_idle, ?total_idle by done; simpl; try naive_solver lia.
  - by rewrite Hq, lookup_insert_eq.
  - split; simpl; try done. apply NoDup_nil_2.
  - apply NoDup_nil_2.
  - set_solver.
  - intros Hin. apply elem_of_replicate in Hin as [? _]. done.
  - unfold SEMVMX in *. lia.
Qed.

(** What a run on the queue [bq] leaves alone. *)
Record same_rest (bq : addr) (q : BufferQueue) (m m' : shm) : Prop := {
  sr_free : freeSems m' = freeSems m;
  sr_lock : PrlSemLock m' = PrlSemLock m;
  sr_boxes : forall a, a <> mutex q -> a <> spaces q -> a <> items q -> boxes m' !! a = boxes m !! a;
  sr_queues : forall a, a <> bq -> queues m' !! a = queues m !! a;
  sr_sems : exists q', queues m' !! bq = Some q' /\ mutex q' = mutex q /\ spaces q' = spaces q /\ items q' = items q }.

Lemma same_rest_refl bq q m : queues m !! bq = Some q -> same_rest bq q m m.
Proof. split; eauto. Qed.

Lemma same_rest_trans bq q q' m m' m'' :
  queues m' !! bq = Some q' -> same_rest bq q m m' -> same_rest bq q' m' m'' -> same_rest bq q m m''.
Proof.
  intros Hq [A1 A2 A3 A4 (qa & Ha & A5 & A6 & A7)] [B1 B2 B3 B4 (qb & Hb & B5 & B6 & B7)].
  simplify_eq. split; try congruence.
  - intros a ? ? ?. rewrite B3 by congruence. by apply A3.
  - intros a Ha'. rewrite B4 by done. by apply A4.
  - exists qb. split_and!; congruence.
Qed.

Lemma set_cell_next_spec c n m m' :
  set_cell_next c n m = Some m' ->
  queues m' = queues m /\ boxes m' = boxes m /\ freeSems m' = freeSems m /\ PrlSemLock m' = PrlSemLock m.
Proof. unfold set_cell_next. destruct (qcells m !! c); simpl; [|done]. by intros [= <-]. Qed.

Lemma same_rest_queue bq q q1 m m1 :
  queues m !! bq = Some q -> queues m1 = queues m -> boxes m1 = boxes m -> freeSems m1 = freeSems m ->
  PrlSemLock m1 = PrlSemLock m -> mutex q1 = mutex q -> spaces q1 = spaces q -> items q1 = items q ->
  same_rest bq q m (set_queues (<[bq := q1]>) m1).
Proof.
  intros Hq E1 E2 E3 E4 F1 F2 F3. split; simpl; try done.
  - intros. by rewrite E2.
  - intros a Ha. by rewrite E1, lookup_insert_ne.
  - exists q1. by rewrite lookup_insert_eq.
Qed.

Lemma same_rest_sem bq q m a b n :
  queues m !! bq = Some q -> a = mutex q \/ a = spaces q \/ a = items q ->
  same_rest bq q m (set_boxes (<[a := box_sem b n]>) m).
Proof.
  intros Hq Ha. split; simpl; eauto. intros a' ? ? ?. rewrite lookup_insert_ne; [done|].
  by destruct Ha as [->|[->| ->]].
Qed.

Lemma add_critical_rest bq c sol m q r m' :
  queues m !! bq = Some q -> add_critical bq c sol m = Some (r, m') -> same_rest bq q m m'.
Proof.
  intros Hq. unfold add_critical. rewrite Hq. simpl.
  intros (m1 & Hm1 & Hx)%bind_Some.
  assert (exists m0 h t, m1 = set_queues (<[bq := with_ends h t (with_size (bq_size q + 1) q)]>) m0 /\
    queues m0 = queues m /\ boxes m0 = boxes m /\ freeSems m0 = freeSems m /\ PrlSemLock m0 = PrlSemLock m)
    as (m0 & h & t & -> & E1 & E2 & E3 & E4).
  { destruct (bq_tail q) as [t|]; [destruct (decide (bq_head q = Some t))|];
      repeat match goal with
      | H : _ ≫= _ = Some _ |- _ => apply bind_Some in H as (? & ? & ?)
      | H : set_cell_next _ _ _ = Some _ |- _ => apply set_cell_next_spec in H as (? & ? & ? & ?)
      end; simplify_eq; eexists _, _, _; (split; [reflexivity|split_and!; congruence]). }
  apply bind_Some in Hx as (c0 & _ & Hx). simpl in Hx. rewrite lookup_insert_eq in Hx. simpl in Hx.
  destruct (sol && bqc_last c0); simplify_eq.
  - unfold set_queues at 1. simpl. rewrite insert_insert_eq.
    apply (same_rest_queue bq q _ m m0); done.
  - by apply same_rest_queue.
Qed.

Lemma bq_step_rest bq p m q p' m' :
  queues m !! bq = Some q -> bq_step bq p m = Next (p', m') -> same_rest bq q m m'.
Proof.
  intros Hq Hs. unfold bq_step in Hs. rewrite Hq in Hs.
  destruct p; try discriminate Hs; try destruct wait;
    try (apply lock_then_inv in Hs as (-> & b0 & n & Hb & Hn & ->); apply same_rest_sem; auto; fail);
    try (apply unlock_then_inv in Hs as (-> & b0 & Hb & ->); apply same_rest_sem; auto; fail).
  - destruct (add_critical bq c sol m) as [[r m1]|] eqn:E; simplify_eq. by eapply add_critical_rest.
  - simplify_eq. by apply same_rest_refl.
  - simplify_eq. by apply same_rest_refl.
  - destruct (get_critical bq m) as [[[c|] m1]|] eqn:E; simplify_eq; unfold get_critical in E; rewrite Hq in E;
      simpl in E; destruct (bq_head q) as [h|]; try discriminate E; try destruct (qcells m !! h);
      simplify_eq/=; [by apply same_rest_queue|by apply same_rest_refl].
  - simplify_eq. by apply same_rest_queue.
Qed.

Lemma reach_rest bq N s s' q xs :
  queue_inv bq N s q xs -> rtc (sys_step bq) s s' -> same_rest bq q (mem s) (mem s').
Proof.
  intros HI Hr. revert q xs HI. induction Hr as [s|s s1 s2 Hs Hr IH]; intros q xs HI.
  - apply same_rest_refl, (qi_queue _ _ _ _ _ HI).
  - destruct (sys_step_refines _ _ _ _ _ _ HI Hs) as (q1 & xs1 & HI1 & _).
    eapply same_rest_trans; [apply (qi_queue _ _ _ _ _ HI1)| |by eapply IH].
    pose proof (qi_queue _ _ _ _ _ HI) as Hq.
    destruct Hs; simpl in *; try (by apply same_rest_refl); [by eapply bq_step_rest| |]; split; simpl; eauto.
Qed.

(** A process that runs alone until its operation returns. *)
Fixpoint run_alone (fuel : nat) (bq : addr) (p : pc) (m : shm) : outcome (pc * shm) :=
  match p with
  | Returned _ => Next (p, m)
  | _ => match fuel with
         | O => Blocked
         | S f => match bq_step bq p m with Next (p', m') => run_alone f bq p' m' | Blocked => Blocked | Fault => Fault | Fatal => Fatal end
         end
  end.

Lemma run_alone_step fuel bq p m p' m' :
  bq_step bq p m = Next (p', m') -> run_alone (S fuel) bq p m = run_alone fuel bq p' m'.
Proof.
  intros H. simpl. rewrite H. destruct p; try done. exfalso. revert H. unfold bq_step.
  by destruct (queues m !! bq).
Qed.

(** A step of the process in front on a semaphore that is free. *)
Lemma lock_front m a k :
  is_Some (boxes m !! a) -> sem_of m a <> 0 -> exists m', lock_then a m k = Next (k, m').
Proof.
  intros [b Hb] Hn. unfold lock_then, PGSemaphoreLock, sem_of in *. rewrite Hb in *.
  destruct (sem b); [done|]. eauto.
Qed.

(** Sequential behaviour: nobody else is inside, so the operation returns. *)
Ltac step_alone HI :=
  let Hq := fresh "Hq" in pose proof (qi_queue _ _ _ _ _ HI) as Hq; cbn [mem] in Hq;
  let B := fresh "B" in pose proof (qi_boxes _ _ _ _ _ HI) as B; cbn [mem] in B;
  let D := fresh "D" in pose proof (qi_distinct _ _ _ _ _ HI) as D;
  let M := fresh "M" in pose proof (qi_mutex _ _ _ _ _ HI) as M; unfold total in M; cbn [mem procs has_mutex sum_list_with] in M;
  let I := fresh "I" in pose proof (qi_items _ _ _ _ _ HI) as I; unfold total in I; cbn [mem procs has_item sum_list_with] in I;
  let K := fresh "K" in pose proof (qi_capacity _ _ _ _ _ HI) as K;
  let S := fresh "S" in pose proof (qi_spaces _ _ _ _ _ HI) as S; unfold total in S; cbn [mem procs has_space sum_list_with] in S;
  match type of HI with queue_inv ?bq _ (mkSys (?p :: _) ?m _ _) ?q _ =>
    let m1 := fresh "m1" in let E := fresh "E" in
    let st := fresh "E" in
    assert (exists p' m1, bq_step bq p m = Next (p', m1)) as (? & m1 & E);
    [unfold bq_step; rewrite Hq;
     first [edestruct lock_front as [? ->]; [by destruct B as (?&?&?)|lia|by eauto]
           |edestruct unlock_front as [? ->]; [by destruct B as (?&?&?)|unfold SEMVMX in *; lia|by eauto]]
    |rewrite (run_alone_step _ _ _ _ _ _ E); unfold bq_step in E; rewrite Hq in E;
     first [apply lock_then_inv in E as (-> & ? & ? & ? & ? & ->)|apply unlock_then_inv in E as (-> & ? & ? & ->)]]
  end.

Lemma add_runs bq N c sol R m hi ho q xs :
  queue_inv bq N (mkSys (bufferQueueAdd c sol :: R) m hi ho) q xs ->
  total has_mutex R = 0 -> sem_of m (spaces q) <> 0 ->
  exists cc m' q', qcells m !! c = Some cc /\
    run_alone 5 bq (bufferQueueAdd c sol) m = Next (Returned (RBool (stop q')), m') /\
    stop q' = stop q || (sol && bqc_last cc) /\
    queue_inv bq N (mkSys (Returned (RBool (stop q')) :: R) m' (hi ++ [c]) ho) q' (xs ++ [c]).
Proof.
  unfold bufferQueueAdd, total. intros HI HR Hsp.
  step_alone HI.
  assert (HI1 : queue_inv bq N (mkSys (AddMutex c sol :: R) (set_boxes (<[spaces q := box_sem x x0]>) m) hi ho) q xs)
    by move_tac.
  step_alone HI1.
  match type of HI1 with queue_inv _ _ (mkSys _ ?m1 _ _) _ _ =>
    assert (HI2 : queue_inv bq N (mkSys (AddCrit c sol :: R) (set_boxes (<[mutex q := box_sem x1 x2]>) m1) hi ho) q xs)
      by move_tac end.
  destruct (add_critical_inv _ _ _ _ _ _ _ _ _ _ HI2) as (cc & m2 & q' & Hcc & He & Hst & HI3 & _).
  exists cc. simpl in Hcc.
  erewrite run_alone_step by (unfold bq_step; simpl; rewrite Hq, He; reflexivity).
  step_alone HI3.
  match goal with |- context [run_alone 1 _ (AddItems _) ?m3] =>
    assert (HI4 : queue_inv bq N (mkSys (AddItems (stop q') :: R) m3 (hi ++ [c]) ho) q' (xs ++ [c])) by move_tac end.
  step_alone HI4. eexists _, q'. split_and!; [done|reflexivity|done|]. move_tac.
Qed.

Lemma get_runs bq N R m hi ho q c xs :
  queue_inv bq N (mkSys (bufferQueueGet true :: R) m hi ho) q (c :: xs) ->
  total has_mutex R = 0 -> sem_of m (items q) <> 0 ->
  exists m' q', run_alone 6 bq (bufferQueueGet true) m = Next (Returned (RCell (Some c)), m') /\
    queue_inv bq N (mkSys (Returned (RCell (Some c)) :: R) m' hi (ho ++ [c])) q' xs.
Proof.
  unfold bufferQueueGet, total. intros HI HR Hsp.
  assert (HI0 : queue_inv bq N (mkSys (GetItems :: R) m hi ho) q (c :: xs))
    by (eapply inv_move; [exact HI|done..|by left|done]).
  pose proof (qi_queue _ _ _ _ _ HI) as Hq0. cbn [mem] in Hq0.
  erewrite run_alone_step by (unfold bq_step; by rewrite Hq0).
  step_alone HI0.
  assert (HI1 : queue_inv bq N (mkSys (GetMutex :: R) (set_boxes (<[items q := box_sem x x0]>) m) hi ho) q (c :: xs))
    by move_tac.
  step_alone HI1.
  match type of HI1 with queue_inv _ _ (mkSys _ ?m1 _ _) _ _ =>
    assert (HI2 : queue_inv bq N (mkSys (GetCrit :: R) (set_boxes (<[mutex q := box_sem x1 x2]>) m1) hi ho) q (c :: xs))
      by move_tac end.
  destruct (get_critical_inv _ _ _ _ _ _ _ _ HI2) as (c' & xs' & m2 & q' & [= <- <-] & He & HI3).
  erewrite run_alone_step by (unfold bq_step; simpl; rewrite Hq, He; reflexivity).
  step_alone HI3.
  match goal with |- context [run_alone 1 _ (GetSpaces _) ?m3] =>
    assert (HI4 : queue_inv bq N (mkSys (GetSpaces c :: R) m3 hi (ho ++ [c])) q' xs) by move_tac end.
  step_alone HI4. eexists _, q'. split; [reflexivity|]. move_tac.
Qed.







(** A small shared memory, for examples: the semaphores of InitPrlSemas, and a queue of
    capacity two with two idle processes. *)
Definition demo_mem : shm := InitPrlSemas 1 (mkShm ∅ ∅ ∅ None false 1000).
Definition demo_queue : shm :=
  match createBufferQueue 2 demo_mem with Next (_, m) => m | _ => demo_mem end.
Definition demo_sys : sys := mkSys (idle 2) demo_queue [] [].

Lemma demo_free : exists a b c l, free_sems demo_mem (a :: b :: c :: l).
Proof.
  destruct (InitPrlSemas_spec 1 (mkShm ∅ ∅ ∅ None false 1000)) as (l & Hlen & Hf).
  destruct l as [|a [|b [|c l]]]; try discriminate Hlen. by exists a, b, c, l.
Qed.

Lemma demo_inv : exists q, queue_inv 1000 2 demo_sys q [].
Proof.
  destruct demo_free as (a & b & c & l & Hf).
  destruct (created_fresh 2 demo_mem a b c l 2 Hf ltac:(done)) as (m' & q & He & _ & _ & HI).
  change (shm_brk demo_mem) with 1000%positive in *.
  exists q. unfold demo_sys, demo_queue. rewrite He. exact HI.
Qed.

Lemma demo_fresh : fresh_queue 1000 2 demo_sys.
Proof. destruct demo_inv as [q HI]. by exists q. Qed.

(** ** Properties *)

(** C4: Refinement.  A queue that starts empty behaves as a bounded first-in first-out queue
    of capacity [N], for any number of processes in bufferQueueAdd, bufferQueueGet and
    bufferQueueSetStop and any interleaving of their steps, query cancels included: the
    cells linked are the cells unlinked, in the same order, followed by at most [N] cells. *)
Theorem queue_refines_fifo bq N s s' :
  fresh_queue bq N s -> rtc (sys_step bq) s s' ->
  exists xs, rtc (fifo_step N) [] xs /\ hist_in s' = hist_out s' ++ xs /\ length xs <= N.
Proof.
  intros (q & HI & _) Hr. destruct (reach_refines _ _ _ _ _ _ HI Hr) as (q' & xs & HI' & Hf).
  exists xs. split; [done|]. split; [apply (qi_fifo _ _ _ _ _ HI')|].
  pose proof (qi_spaces _ _ _ _ _ HI'). lia.
Qed.

(** Mutual exclusion.  At most one process is between the lock and the unlock of the
    queue's mutex. *)
Lemma queue_mutual_exclusion bq N s s' i j p p' :
  fresh_queue bq N s -> rtc (sys_step bq) s s' ->
  procs s' !! i = Some p -> procs s' !! j = Some p' -> has_mutex p = 1 -> has_mutex p' = 1 -> i = j.
Proof.
  intros Hs Hr Hi Hj Hp Hp'. destruct (reach_inv _ _ _ _ Hs Hr) as (q & xs & HI).
  destruct (decide (i = j)) as [|Hij]; [done|].
  pose proof (total_two has_mutex _ _ _ _ _ Hi Hj Hij). pose proof (qi_mutex _ _ _ _ _ HI). lia.
Qed.

(** C25: Memory safety.  No process ever follows a NULL or freed pointer or ends in the elog(FATAL) of a semaphore that cannot
    be counted up, the return of NULL with
    the mutex held in bufferQueueGet is never taken, and no cell is in two hands: the cells
    about to be added, the cells received and the cells in the queue are all distinct. *)
Theorem queue_memory_safe bq N s s' :
  fresh_queue bq N s -> rtc (sys_step bq) s s' ->
  (forall p, p ∈ procs s' -> bq_step bq p (mem s') <> Fault /\ bq_step bq p (mem s') <> Fatal) /\ GetStuck ∉ procs s' /\
  exists xs, hist_in s' = hist_out s' ++ xs /\ NoDup (owned_by (procs s') ++ xs).
Proof.
  intros Hs Hr. destruct (reach_inv _ _ _ _ Hs Hr) as (q & xs & HI). split_and!.
  - intros p Hp. pose proof (step_cases_at _ _ _ _ _ _ HI Hp) as H.
    destruct (waits_for q p); [destruct (sem_of _ _)|destruct (finished p)]; first [by rewrite H|destruct H as [r H]; by rewrite H].
  - apply (qi_stuck _ _ _ _ _ HI).
  - exists xs. split; [apply (qi_fifo _ _ _ _ _ HI)|apply (qi_own _ _ _ _ _ HI)].
Qed.

(** C26: Progress.  As long as no process was cancelled, when no process can step then each one
    has returned, or waits to add to a full queue, or waits to get from an empty one. *)
Theorem queue_progress bq N s s' :
  fresh_queue bq N s -> rtc (sys_step bq) s s' ->
  (forall h, Cancelled h ∉ procs s') ->
  (forall p, p ∈ procs s' -> bq_step bq p (mem s') = Blocked) ->
  exists xs, hist_in s' = hist_out s' ++ xs /\
  forall p, p ∈ procs s' ->
    (exists v, p = Returned v) \/ (exists c sol, p = AddSpaces c sol /\ length xs = N) \/ (p = GetItems /\ xs = []).
Proof.
  intros Hs Hr Hnc Hb. destruct (reach_inv _ _ _ _ Hs Hr) as (q & xs & HI).
  exists xs. split; [apply (qi_fifo _ _ _ _ _ HI)|].
  assert (Hw : forall p, p ∈ procs s' -> (exists v, p = Returned v) \/
     exists a, waits_for q p = Some a /\ sem_of (mem s') a = 0).
  { intros p Hp. pose proof (step_cases_at _ _ _ _ _ _ HI Hp) as H. rewrite (Hb p Hp) in H.
    destruct (waits_for q p) as [a|] eqn:E.
    - right. exists a. split; [done|]. destruct (sem_of _ _); naive_solver.
    - destruct p; simpl in *; try naive_solver. by destruct (qi_stuck _ _ _ _ _ HI). }
  assert (Hm : total has_mutex (procs s') = 0).
  { apply total_zero. intros p Hp. destruct (Hw p Hp) as [[v ->]|(a & Ha & _)]; [done|]. by destruct p. }
  pose proof (qi_mutex _ _ _ _ _ HI) as HM.
  assert (Hw' : forall p, p ∈ procs s' -> (exists v, p = Returned v) \/
     (exists c sol, p = AddSpaces c sol /\ sem_of (mem s') (spaces q) = 0) \/
     (p = GetItems /\ sem_of (mem s') (items q) = 0)).
  { intros p Hp. destruct (Hw p Hp) as [|(a & Ha & H0)]; [by left|right].
    destruct p; simpl in Ha; try destruct wait; simplify_eq; eauto; lia. }
  assert (total has_space (procs s') = 0 /\ total has_item (procs s') = 0) as [Hsp Hit].
  { split; apply total_zero; intros p Hp;
      destruct (Hw' p Hp) as [[v ->]|[(c & sol & -> & _)|[-> _]]]; done. }
  pose proof (qi_spaces _ _ _ _ _ HI). pose proof (qi_items _ _ _ _ _ HI) as Hit'.
  intros p Hp. destruct (Hw' p Hp) as [|[(c & sol & -> & H0)|[-> H0]]]; [by left|right; left|right; right].
  - exists c, sol. split; [done|lia].
  - split; [done|]. apply nil_length_inv. lia.
Qed.

(** C36: A query cancel that takes effect right after PGSemaphoreLock got the mutex (which
    interruptOK permits) blocks the queue for ever: whatever the other processes do, no cell
    is linked or unlinked again. *)
Theorem cancelled_holder_wedges_queue bq N s0 s s' i h :
  fresh_queue bq N s0 -> rtc (sys_step bq) s0 s ->
  procs s !! i = Some (Cancelled h) -> keeps_mutex (Cancelled h) = true ->
  rtc (sys_step bq) s s' ->
  procs s' !! i = Some (Cancelled h) /\ hist_in s' = hist_in s /\ hist_out s' = hist_out s.
Proof. intros Hs Hr Hi Hk Hr'. eapply wedged_reach; eauto. by eapply reach_inv. Qed.

(** C32: createBufferQueue on a free list with three boxes yields an empty queue of capacity
    max(1, buffer_size), for every size that a semaphore can count (and for which buffer_size - 1 is an int); after any run of any number of processes on it,
    destroyBufferQueue succeeds and puts exactly these three boxes back in front of the
    free list, each with count one.  For a larger size (the setting parallel_shared_queue_size allows it) the process ends in
    the FATAL error of PGSemaphoreUnlock: there is no queue, and the three boxes are lost to the free list. *)
Theorem create_destroy_roundtrip n m a b c l k :
  free_sems m (a :: b :: c :: l) ->
  ((- 2 ^ 31 < n <= SEMVMX)%Z ->
    exists m', createBufferQueue n m = Next (Some (shm_brk m), m') /\
      fresh_queue (shm_brk m) (Z.to_nat (Z.max 1 n)) (mkSys (idle k) m' [] []) /\ free_sems m' l /\
      forall s, rtc (sys_step (shm_brk m)) (mkSys (idle k) m' [] []) s ->
        exists m'', destroyBufferQueue (shm_brk m) (mem s) = Next m'' /\
          queues m'' !! shm_brk m = None /\ free_sems m'' (a :: c :: b :: l)) /\
  ((SEMVMX < n)%Z ->
    exists m', createBufferQueue n m = Next (None, m') /\ queues m' = queues m /\ free_sems m' l).
Proof.
  intros Hf. split; [|by apply (createBufferQueue_too_big n m a b c l)]. intros [_ Hn].
  destruct (created_fresh n m a b c l k Hf Hn) as (m' & q & He & Hf' & Eq & HI).
  exists m'. split; [done|]. split; [by exists q|]. split; [done|]. intros s Hr.
  destruct Hf as [Hnd _].
  destruct (reach_refines _ _ _ _ _ _ HI Hr) as (q' & xs & HI' & _).
  pose proof (qi_queue _ _ _ _ _ HI') as Hq'. destruct (qi_boxes _ _ _ _ _ HI') as (? & ? & ?).
  destruct (reach_rest _ _ _ _ _ _ HI Hr) as [E1 E2 E3 _ (q2 & Hq2 & F1 & F2 & F3)].
  rewrite Hq' in Hq2. injection Hq2 as <-. subst q. simpl in E1, E2, E3, F1, F2, F3.
  destruct (destroyBufferQueue_spec (shm_brk m) q' (mem s) l) as (m'' & Hd & Hqs & _ & Hfree); try done.
  - destruct Hf' as (Hnl & Hch & Hlk). split; [done|]. rewrite E1, E2. split; [|done].
    eapply free_chain_frame; [|done]. intros x Hx.
    apply NoDup_cons in Hnd as [? Hnd]. apply NoDup_cons in Hnd as [? Hnd]. apply NoDup_cons in Hnd as [? Hnd].
    apply E3; set_solver.
  - rewrite F1, F2, F3. eapply NoDup_Permutation_proper; [|exact Hnd]. apply Permutation_cons; [done|constructor].
  - exists m''. split; [done|]. rewrite Hqs, F1, F2, F3 in *. by rewrite lookup_delete_eq.
Qed.

(** Sequential behaviour.  When there is a free space and nobody else is inside,
    bufferQueueAdd returns after five steps, and its result is the stop flag, set if the cell is
    the last one and stopOnLast was asked for; a bufferQueueGet that follows returns the
    oldest cell of the queue. *)
Theorem add_get_sequential bq N c sol R m hi ho q xs :
  queue_inv bq N (mkSys (bufferQueueAdd c sol :: R) m hi ho) q xs ->
  total has_mutex R = 0 -> total has_item R = 0 -> sem_of m (spaces q) <> 0 ->
  exists cc m1 m2, qcells m !! c = Some cc /\
    run_alone 5 bq (bufferQueueAdd c sol) m = Next (Returned (RBool (stop q || (sol && bqc_last cc))), m1) /\
    run_alone 6 bq (bufferQueueGet true) m1 = Next (Returned (RCell (head (xs ++ [c]))), m2).
Proof.
  intros HI HR Hit Hsp. destruct (add_runs _ _ _ _ _ _ _ _ _ _ HI HR Hsp) as (cc & m1 & q1 & Hc & Ha & Est & HI1).
  destruct (xs ++ [c]) as [|h ys] eqn:E; [by destruct xs|].
  assert (HG : queue_inv bq N (mkSys (bufferQueueGet true :: R) m1 (hi ++ [c]) ho) q1 (h :: ys))
    by (eapply call_inv; [exact HI1|eauto]).
  destruct (get_runs _ _ _ _ _ _ _ _ _ HG HR) as (m2 & q2 & Hg & _).
  - pose proof (qi_items _ _ _ _ _ HG) as Hi. cbn [mem procs bufferQueueGet] in Hi.
    unfold total in Hi, Hit. cbn [sum_list_with has_item length bufferQueueGet] in Hi. clear - Hi Hit. lia.
  - exists cc, m1, m2. rewrite <- Est. done.
Qed.


(** ** Witnesses *)

(** A run of the demo system in which process 0 adds a cell; [n] of its steps. *)
Definition demo_call : sys :=
  mkSys (<[0 := bufferQueueAdd 7 false]> (procs demo_sys))
    (set_qcells (<[7%positive := mkBqc 42 None false]>) (mem demo_sys)) (hist_in demo_sys) (hist_out demo_sys).

Lemma demo_call_step : sys_step 1000 demo_sys demo_call.
Proof. apply (step_call_add 1000 0 (RBool false) 7 (mkBqc 42 None false) false demo_sys); vm_compute; reflexivity. Qed.

Definition step_proc (bq : addr) (i : nat) (s : sys) : sys :=
  match procs s !! i with
  | Some p => match bq_step bq p (mem s) with
              | Next (p', m') => mkSys (<[i := p']> (procs s)) m' (hist_in s ++ linked p) (hist_out s ++ unlinked p')
              | _ => s
              end
  | None => s
  end.
Lemma step_proc_reach bq i s : rtc (sys_step bq) s (step_proc bq i s).
Proof.
  unfold step_proc. destruct (procs s !! i) as [p|] eqn:Hp; [|constructor].
  destruct (bq_step bq p (mem s)) as [[p' m']| | |] eqn:E; [|constructor..].
  apply rtc_once. by apply step_run.
Qed.

Definition demo_crit : sys := step_proc 1000 0 (step_proc 1000 0 demo_call).
Definition demo_done : sys := step_proc 1000 0 (step_proc 1000 0 (step_proc 1000 0 demo_crit)).
Lemma demo_crit_reach : rtc (sys_step 1000) demo_sys demo_crit.
Proof.
  eapply rtc_l; [apply demo_call_step|]. unfold demo_crit.
  etrans; [apply (step_proc_reach _ 0)|apply (step_proc_reach _ 0)].
Qed.
Lemma demo_done_reach : rtc (sys_step 1000) demo_sys demo_done.
Proof.
  etrans; [apply demo_crit_reach|]. unfold demo_done.
  etrans; [apply (step_proc_reach _ 0)|]. etrans; [apply (step_proc_reach _ 0)|apply (step_proc_reach _ 0)].
Qed.
Lemma demo_done_result : procs demo_done = [Returned (RBool false); Returned (RBool false)] /\ hist_in demo_done = [7%positive].
Proof. vm_compute. done. Qed.

Lemma queue_refines_fifo_witness :
  exists xs, rtc (fifo_step 2) [] xs /\ hist_in demo_done = hist_out demo_done ++ xs /\ length xs <= 2.
Proof. exact (queue_refines_fifo 1000 2 demo_sys demo_done demo_fresh demo_done_reach). Defined.

Lemma queue_mutual_exclusion_witness : procs demo_crit !! 0 = Some (AddCrit 7 false) /\ 0 = 0.
Proof.
  assert (H : procs demo_crit !! 0 = Some (AddCrit 7 false)) by (vm_compute; reflexivity).
  split; [exact H|].
  exact (queue_mutual_exclusion 1000 2 demo_sys demo_crit 0 0 _ _ demo_fresh demo_crit_reach H H eq_refl eq_refl).
Defined.

Lemma queue_memory_safe_witness : GetStuck ∉ procs demo_done.
Proof. exact (proj1 (proj2 (queue_memory_safe 1000 2 demo_sys demo_done demo_fresh demo_done_reach))). Defined.

Lemma queue_progress_witness :
  exists xs, hist_in demo_done = hist_out demo_done ++ xs /\
  forall p, p ∈ procs demo_done ->
    (exists v, p = Returned v) \/ (exists c sol, p = AddSpaces c sol /\ length xs = 2) \/ (p = GetItems /\ xs = []).
Proof.
  apply (queue_progress 1000 2 demo_sys demo_done demo_fresh demo_done_reach).
  - intros h. rewrite (proj1 demo_done_result). set_solver.
  - intros p Hp. rewrite (proj1 demo_done_result) in Hp. assert (p = Returned (RBool false)) as -> by set_solver.
    vm_compute. reflexivity.
Defined.

(** Process 0 is cancelled just after it got the mutex. *)
Definition demo_cancel : sys :=
  mkSys (<[0 := Cancelled HSpaceMutex]> (procs demo_crit)) (mem demo_crit) (hist_in demo_crit) (hist_out demo_crit).
Lemma demo_cancel_reach : rtc (sys_step 1000) demo_sys demo_cancel.
Proof.
  eapply rtc_r; [apply demo_crit_reach|].
  exact (step_cancel 1000 0 (AddCrit 7 false) HSpaceMutex demo_crit ltac:(vm_compute; reflexivity) (or_intror eq_refl)).
Qed.
Lemma cancelled_holder_wedges_queue_witness : hist_in demo_cancel = [] /\
  (procs demo_cancel !! 0 = Some (Cancelled HSpaceMutex) /\ hist_in demo_cancel = hist_in demo_cancel /\
   hist_out demo_cancel = hist_out demo_cancel).
Proof.
  split; [vm_compute; reflexivity|].
  apply (cancelled_holder_wedges_queue 1000 2 demo_sys demo_cancel demo_cancel 0 HSpaceMutex demo_fresh demo_cancel_reach);
    [vm_compute; reflexivity|reflexivity|constructor].
Defined.

Lemma create_destroy_roundtrip_witness :
  exists a b c l, free_sems demo_mem (a :: b :: c :: l) /\
  (exists m', createBufferQueue 2 demo_mem = Next (Some (shm_brk demo_mem), m') /\ free_sems m' l) /\
  exists m', createBufferQueue 40000 demo_mem = Next (None, m') /\ free_sems m' l.
Proof.
  destruct demo_free as (a & b & c & l & Hf). exists a, b, c, l. split; [exact Hf|]. split.
  - destruct (proj1 (create_destroy_roundtrip 2 demo_mem a b c l 2 Hf) ltac:(done)) as (m' & He & _ & Hf' & _).
    exists m'. split; assumption.
  - destruct (proj2 (create_destroy_roundtrip 40000 demo_mem a b c l 2 Hf) ltac:(done)) as (m' & He & _ & Hf').
    exists m'. split; assumption.
Defined.

Lemma demo_call_inv : exists q, queue_inv 1000 2 demo_call q [].
Proof.
  destruct demo_inv as [q HI]. exists q.
  apply (call_add_inv 1000 2 (RBool false) 7 (mkBqc 42 None false) false [Returned (RBool false)] demo_queue [] [] q [] HI).
  vm_compute. reflexivity.
Qed.
Lemma add_get_sequential_witness :
  exists cc m1 m2, qcells (mem demo_call) !! 7%positive = Some cc /\
    run_alone 5 1000 (bufferQueueAdd 7 false) (mem demo_call) = Next (Returned (RBool false), m1) /\
    run_alone 6 1000 (bufferQueueGet true) m1 = Next (Returned (RCell (Some 7%positive)), m2).
Proof.
  destruct demo_call_inv as [q HI].
  assert (Hq : q = mkBq None None 99 100 98 2 0 false).
  { pose proof (qi_queue _ _ _ _ _ HI) as Hq. vm_compute in Hq. injection Hq as <-. reflexivity. }
  destruct (add_get_sequential 1000 2 7 false [Returned (RBool false)] (mem demo_call) [] [] q [] HI eq_refl eq_refl)
    as (cc & m1 & m2 & Hc & Ha & Hg).
  - rewrite Hq. vm_compute. discriminate.
  - exists cc, m1, m2. split; [exact Hc|]. rewrite Hq in Ha. split; [exact Ha|exact Hg].
Defined.

