(* ===== verification/PrlMerge.v ===== *)
(** * PrlMerge: merging the streams of the workers on the fly (src/backend/utils/sort/tuplesort.c)

    prepareForMerge and tuplesort_gettupleslot_from_worker merge what the workers send; the pair
    preForMergeMultiLTS and tuplesort_gettupleslot_from_multiple_lts merge sorts of the same
    process.  Both keep a heap with one tuple per stream in memtuples[], and differ only in where
    the next tuple of a stream comes from.  The merge is written once, over a [fetch] that
    stands for that part, and its theorems are proved against the interface [MergeSource]. *)

From S2P Require Import Prelude Order Compare Heap Qsort Tape Tuplesort InMemory.
From Stdlib Require Import Permutation.

(** The fields of the Tuplesortstate that the parallel code adds; [sub] has the other ones, and
    [src] is what is behind state->workers or state->worker_states. *)
Record PrlState (T K Src : Type) := mkPrl {
  sub : Tuplesortstate T K;
  workersCnt : nat;
  lastWorker : Z;
  workersFinished : list bool;
  isParallelEnded : bool;
  src : Src }.
Arguments mkPrl {T K Src} _ _ _ _ _ _.
Arguments sub {T K Src} _.
Arguments workersCnt {T K Src} _.
Arguments lastWorker {T K Src} _.
Arguments workersFinished {T K Src} _.
Arguments isParallelEnded {T K Src} _.
Arguments src {T K Src} _.

Section Ops.
Context {T K Src : Type} `{SM : !SortMethods T K}.
Local Abbreviation state := (PrlState T K Src).

Definition set_sub (v : Tuplesortstate T K) (s : state) : state :=
  mkPrl v (workersCnt s) (lastWorker s) (workersFinished s) (isParallelEnded s) (src s).
Definition set_lastWorker (v : Z) (s : state) : state :=
  mkPrl (sub s) (workersCnt s) v (workersFinished s) (isParallelEnded s) (src s).
Definition set_workersFinished (v : list bool) (s : state) : state :=
  mkPrl (sub s) (workersCnt s) (lastWorker s) v (isParallelEnded s) (src s).
Definition set_isParallelEnded (v : bool) (s : state) : state :=
  mkPrl (sub s) (workersCnt s) (lastWorker s) (workersFinished s) v (src s).
Definition set_src (v : Src) (s : state) : state :=
  mkPrl (sub s) (workersCnt s) (lastWorker s) (workersFinished s) (isParallelEnded s) v.

Definition on_sub {A} (m : M (Tuplesortstate T K) A) : M state A := fun s =>
  match m (sub s) with Ok (a, v) => Ok (a, set_sub v s) | Err e => Err e end.
Definition on_src {A} (m : M Src A) : M state A := fun s =>
  match m (src s) with Ok (a, v) => Ok (a, set_src v s) | Err e => Err e end.

(** state->workersFinished[w] = true *)
Definition set_finished (w : nat) : M state unit :=
  s ← mget;
  if decide (w < length (workersFinished s)) then mput (set_workersFinished (<[w := true]> (workersFinished s)) s)
  else mfail EUndef.

(** if (state->memtupcount == 0) state->isParallelEnded = true; *)
Definition end_if_empty : M state unit :=
  s ← mget;
  if bool_decide (memtupcount (sub s) = 0) then mput (set_isParallelEnded true s) else mret tt.

(** The next tuple of stream [w], for the sort keys. *)
Variable fetch : K -> nat -> M Src (option (SortTuple T)).

(** The loop of prepareForMerge and of preForMergeMultiLTS, [k] streams from [cw] on. *)
Fixpoint fetch_first (k cw : nat) : M state unit :=
  match k with
  | O => mret tt
  | S k' =>
    s ← mget;
    o ← on_src (fetch (scanKeys (sub s)) cw);
    (match o with
     | None => set_finished cw
     | Some stup => on_sub (tuplesort_heap_insert stup (Z.of_nat cw) false)
     end);;
    fetch_first k' (S cw)
  end.

Definition merge_prepare : M state unit :=
  s ← mget;
  fetch_first (workersCnt s) 0;;
  end_if_empty.

(** The answer is the tuple put in the slot, or nothing when the slot was cleared. *)
Definition merge_next : M state (option T) :=
  s ← mget;
  if isParallelEnded s then mret None
  else
    stup ← deref (memtuples (sub s) !! 0);
    on_sub (tuplesort_heap_siftup false);;
    let w := Z.to_nat (tupindex stup) in
    finished ← deref (workersFinished s !! w);
    (if finished : bool then mret tt
     else
       s ← mget;
       o ← on_src (fetch (scanKeys (sub s)) w);
       match o with
       | None => set_finished w;; end_if_empty
       | Some new_stup => on_sub (tuplesort_heap_insert new_stup (tupindex stup) false)
       end);;
    mret (Some (tuple stup)).

(** Up to [n] calls, until there is no more tuple. *)
Fixpoint get_slots (n : nat) : M state (list T) :=
  match n with
  | O => mret []
  | S n' =>
    o ← merge_next;
    match o with
    | Some t => rest ← get_slots n'; mret (t :: rest)
    | None => mret []
    end
  end.
End Ops.

(** What the merge relies on: [feeds s w l] says that stream [w] has the tuples [l] left. *)
Class MergeSource {T K Src : Type} (fetch : K -> nat -> M Src (option (SortTuple T)))
    (feeds : K -> Src -> nat -> list (SortTuple T) -> Prop) : Prop := {
  fetch_end k s w : feeds k s w [] ->
    exists s', fetch k w s = Ok (None, s') /\ forall w' l, w' <> w -> feeds k s w' l -> feeds k s' w' l;
  fetch_more k s w x l : feeds k s w (x :: l) ->
    exists x' s', fetch k w s = Ok (Some x', s') /\ norm x' = norm x /\ feeds k s' w l /\
      forall w' l', w' <> w -> feeds k s w' l' -> feeds k s' w' l' }.

(** ** One entry per stream *)

Section Heads.
Context {T : Type}.
Implicit Types (rem : list (list (SortTuple T))).

Definition entry (w : nat) (x : SortTuple T) : SortTuple T := with_tupindex (Z.of_nat w) x.
Definition head_of (w : nat) (r : list (SortTuple T)) : list (SortTuple T) :=
  match r with [] => [] | x :: _ => [entry w x] end.
(** The first tuples of the streams, numbered from [i]. *)
Fixpoint heads (i : nat) rem : list (SortTuple T) :=
  match rem with [] => [] | r :: rem' => head_of i r ++ heads (S i) rem' end.

Lemma heads_app i rem rem' : heads i (rem ++ rem') = heads i rem ++ heads (i + length rem) rem'.
Proof.
  revert i. induction rem as [|r rem IH]; intros i; simpl; [by rewrite Nat.add_0_r|].
  rewrite IH, <- app_assoc. do 3 f_equal. lia.
Qed.

Lemma heads_update i rem w r :
  w < length rem -> heads i (<[w := r]> rem) ≡ₚ head_of (i + w) r ++ heads i (<[w := []]> rem).
Proof.
  revert i w. induction rem as [|r0 rem IH]; intros i [|w] Hw; simpl in *; try lia.
  - by rewrite Nat.add_0_r.
  - rewrite (IH (S i) w) by lia. replace (i + S w) with (S i + w) by lia. rewrite !app_assoc.
    by rewrite (Permutation_app_comm (head_of i r0)).
Qed.

Lemma heads_lookup i rem w r : rem !! w = Some r -> heads i rem ≡ₚ head_of (i + w) r ++ heads i (<[w := []]> rem).
Proof.
  intros Hw. rewrite <- (list_insert_id rem w r Hw) at 1. apply heads_update. by eapply lookup_lt_Some.
Qed.

Lemma elem_of_heads i rem x : x ∈ heads i rem -> exists w y l, rem !! w = Some (y :: l) /\ x = entry (i + w) y.
Proof.
  revert i. induction rem as [|r rem IH]; intros i; simpl; [by intros ?%elem_of_nil|].
  intros [Hx|Hx]%elem_of_app.
  - destruct r as [|y l]; simpl in Hx; [by apply elem_of_nil in Hx|]. apply list_elem_of_singleton in Hx as ->.
    exists 0, y, l. by rewrite Nat.add_0_r.
  - destruct (IH _ Hx) as (w & y & l & Hw & ->). exists (S w), y, l. split; [done|]. f_equal. lia.
Qed.

Lemma heads_length i rem : length (heads i rem) <= length rem.
Proof. revert i. induction rem as [|[|x r] rem IH]; intros i; simpl; [lia| |]; specialize (IH (S i)); lia. Qed.

Lemma heads_nil i rem : heads i rem = [] -> concat rem = [].
Proof.
  revert i. induction rem as [|[|x r] rem IH]; intros i; simpl; [done|apply IH|done].
Qed.

Lemma elem_of_concat {A} (z : A) (rem : list (list A)) : z ∈ concat rem <-> exists r, z ∈ r /\ r ∈ rem.
Proof.
  induction rem as [|r rem IH]; simpl; [set_solver|]. rewrite elem_of_app, IH. set_solver.
Qed.

Lemma concat_update {A} (rem : list (list A)) w x r :
  rem !! w = Some (x :: r) -> concat rem ≡ₚ x :: concat (<[w := r]> rem).
Proof.
  revert w. induction rem as [|r0 rem IH]; intros [|w] Hw; simplify_eq/=; [done|].
  rewrite (IH _ Hw). by rewrite Permutation_middle.
Qed.
End Heads.

(** ** Invariant of the merge *)

Section Merge.
Context {T K Src : Type} `{SM : !SortMethods T K} (valid : K -> Prop) `{HL : !SortMethodsLaws SM valid}.
Context (fetch : K -> nat -> M Src (option (SortTuple T))) (feeds : K -> Src -> nat -> list (SortTuple T) -> Prop).
Context `{HF : !MergeSource fetch feeds}.
Local Abbreviation state := (PrlState T K Src).
Implicit Types (st : state) (rem : list (list (SortTuple T))).

(** Stream [w] has the tuples [r] left to deliver, of which the first is in the heap if the
    stream was already asked. *)
Definition stream_ok (k : K) st (asked : bool) (w : nat) (r : list (SortTuple T)) : Prop :=
  match asked, r with
  | true, [] => workersFinished st !! w = Some true
  | true, _ :: r' => workersFinished st !! w = Some false /\ feeds k (src st) w r'
  | false, _ => workersFinished st !! w = Some false /\ feeds k (src st) w r
  end.

(** The first [cw] streams have been asked. *)
Record merge_inv (k : K) (cw : nat) st rem : Prop := {
  mi_keys : scanKeys (sub st) = k;
  mi_heap : heap_inv (sub st);
  mi_size : length rem <= memtupsize (sub st);
  mi_entries : in_heap (sub st) ≡ₚ heads 0 (take cw rem);
  mi_streams : forall w r, rem !! w = Some r -> stream_ok k st (bool_decide (w < cw)) w r }.

Lemma in_heap_length (s : Tuplesortstate T K) : heap_inv s -> length (in_heap s) = memtupcount s.
Proof. intros (_ & Hle & _). unfold in_heap. rewrite length_take. unfold memtupsize in Hle. lia. Qed.

Lemma mi_count k cw st rem : merge_inv k cw st rem -> memtupcount (sub st) = length (heads 0 (take cw rem)).
Proof. intros HI. rewrite <- (in_heap_length _ (mi_heap _ _ _ _ HI)). by rewrite (mi_entries _ _ _ _ HI). Qed.

Lemma entry_norm w (x x' : SortTuple T) : norm x' = norm x -> with_tupindex (Z.of_nat w) x' = entry w x.
Proof. destruct x, x'. unfold norm, entry, with_tupindex. simpl. congruence. Qed.

Lemma fetch_end_on k st w :
  feeds k (src st) w [] -> exists v, on_src (fetch k w) st = Ok (None, set_src v st) /\
    forall w' l, w' <> w -> feeds k (src st) w' l -> feeds k v w' l.
Proof. intros Hf. destruct (fetch_end k _ _ Hf) as (v & He & Hv). exists v. unfold on_src. by rewrite He. Qed.

Lemma fetch_more_on k st w x l :
  feeds k (src st) w (x :: l) -> exists x' v, on_src (fetch k w) st = Ok (Some x', set_src v st) /\
    norm x' = norm x /\ feeds k v w l /\ forall w' l, w' <> w -> feeds k (src st) w' l -> feeds k v w' l.
Proof. intros Hf. destruct (fetch_more k _ _ _ _ Hf) as (x' & v & He & Hv). exists x', v. unfold on_src. by rewrite He. Qed.

Lemma insert_entry k st w x x' :
  valid k -> scanKeys (sub st) = k -> heap_inv (sub st) -> memtupcount (sub st) < memtupsize (sub st) -> norm x' = norm x ->
  exists s', on_sub (tuplesort_heap_insert x' (Z.of_nat w) false) st = Ok (tt, set_sub s' st) /\
    scanKeys s' = k /\ heap_inv s' /\ memtupsize s' = memtupsize (sub st) /\ in_heap s' ≡ₚ entry w x :: in_heap (sub st).
Proof.
  intros Hv Hk Hh Hn Hx. rewrite <- Hk in Hv.
  destruct (insert_ok valid (sub st) x' (Z.of_nat w) Hv Hh Hn I) as (mt & He & Hl & Hok & Hp & _).
  pose proof (insert_inv valid _ _ _ _ Hh Hn I Hl Hok Hp) as HI.
  eexists. unfold on_sub. rewrite He. split; [reflexivity|]. split_and!; [done|exact HI|done|]. unfold in_heap at 1. simpl. by rewrite <- (entry_norm w _ _ Hx).
Qed.

Lemma set_finished_ok st w :
  w < length (workersFinished st) -> set_finished w st = Ok (tt, set_workersFinished (<[w := true]> (workersFinished st)) st).
Proof. intros Hw. unfold set_finished, mbind, M_bind, mget, mput. by rewrite decide_True. Qed.

(** A stream other than [w] does not notice what happens to [w]. *)
Lemma stream_other k st st' asked w w' r :
  w' <> w -> stream_ok k st asked w' r -> workersFinished st' !! w' = workersFinished st !! w' ->
  (forall l, feeds k (src st) w' l -> feeds k (src st') w' l) -> stream_ok k st' asked w' r.
Proof. intros Hne Hs Hf Hw. destruct asked, r; simpl in *; rewrite ?Hf; naive_solver. Qed.

Lemma finished_lt k st asked w r : stream_ok k st asked w r -> w < length (workersFinished st).
Proof. destruct asked, r; simpl; intros; destruct_and?; by eapply lookup_lt_Some. Qed.

(** ** Starting the merge *)

Lemma take_S_lookup {A} (l : list A) n x : l !! n = Some x -> take (S n) l = take n l ++ [x].
Proof. apply take_S_r. Qed.

Lemma heads_take_S rem cw r : rem !! cw = Some r -> heads 0 (take (S cw) rem) ≡ₚ head_of cw r ++ heads 0 (take cw rem).
Proof.
  intros Hr. rewrite (take_S_r _ _ _ Hr), heads_app. simpl. rewrite app_nil_r, length_take, Nat.min_l by (apply lookup_lt_Some in Hr; lia).
  apply Permutation_app_comm.
Qed.

Lemma asked_S cw w : w <> cw -> bool_decide (w < S cw) = bool_decide (w < cw).
Proof. intros Hne. apply bool_decide_ext. lia. Qed.

(** One round of the loop. *)
Lemma fetch_first_round k cw st rem r :
  valid k -> merge_inv k cw st rem -> rem !! cw = Some r ->
  exists o st1 st', on_src (fetch k cw) st = Ok (o, st1) /\
    (match o with None => set_finished cw | Some x => on_sub (tuplesort_heap_insert x (Z.of_nat cw) false) end) st1 = Ok (tt, st') /\
    merge_inv k (S cw) st' rem /\ workersCnt st' = workersCnt st /\ isParallelEnded st' = isParallelEnded st.
Proof.
  intros Hv HI Hr. pose proof HI as [H1 H2 H3 H4 H5].
  pose proof (H5 _ _ Hr) as Hs. rewrite bool_decide_false in Hs by lia. destruct Hs as [Hfin Hf].
  assert (Hcw : cw < length (workersFinished st)) by (by eapply lookup_lt_Some).
  destruct r as [|x l].
  - destruct (fetch_end_on k st cw Hf) as (v & He & Ho). eexists _, _, _. split; [exact He|]. cbv beta iota.
    rewrite set_finished_ok by done. split; [reflexivity|]. split; [|done]. split; simpl; try done.
    + rewrite H4. by rewrite (heads_take_S _ _ _ Hr).
    + intros w r Hw. destruct (decide (w = cw)) as [->|Hne].
      * rewrite Hr in Hw. injection Hw as <-. rewrite bool_decide_true by lia. simpl. by rewrite list_lookup_insert_eq.
      * rewrite asked_S by done. apply (stream_other k st _ _ cw); try done; [by apply H5|simpl; by rewrite list_lookup_insert_ne|]. simpl. eauto.
  - destruct (fetch_more_on k st cw x l Hf) as (x' & v & He & Hn & Hl & Ho).
    destruct (insert_entry k (set_src v st) cw x x') as (s' & Hi & Hk' & Hh' & Hm' & Hp'); try done.
    { simpl. rewrite (mi_count _ _ _ _ HI). pose proof (heads_length 0 (take cw rem)). rewrite length_take in *.
      apply lookup_lt_Some in Hr. lia. }
    eexists _, _, _. split; [exact He|]. split; [exact Hi|]. split; [|done]. split; simpl; try done.
    + by rewrite Hm'.
    + rewrite Hp'. simpl. rewrite H4. by rewrite (heads_take_S _ _ _ Hr).
    + intros w r Hw. destruct (decide (w = cw)) as [->|Hne].
      * rewrite Hr in Hw. injection Hw as <-. rewrite bool_decide_true by lia. done.
      * rewrite asked_S by done. apply (stream_other k st _ _ cw); try done; [by apply H5|]. simpl. eauto.
Qed.

Lemma fetch_first_ok k n : forall cw st rem,
  valid k -> merge_inv k cw st rem -> cw + n = length rem ->
  exists st', fetch_first fetch n cw st = Ok (tt, st') /\ merge_inv k (length rem) st' rem /\
    workersCnt st' = workersCnt st /\ isParallelEnded st' = isParallelEnded st.
Proof.
  induction n as [|n IH]; intros cw st rem Hv HI Hn; cbn [fetch_first].
  - replace cw with (length rem) in HI by lia. by exists st.
  - destruct (lookup_lt_is_Some_2 rem cw) as [r Hr]; [lia|].
    destruct (fetch_first_round k cw st rem r Hv HI Hr) as (o & st1 & st2 & He & Hd & HI2 & Hc2 & Hp2).
    unfold mbind at 1, M_bind at 1, mget. rewrite (mi_keys _ _ _ _ HI), (mbind_ok _ _ _ _ _ He), (mbind_ok _ _ _ _ _ Hd).
    destruct (IH (S cw) st2 rem) as (st' & Hf & HI' & Hc' & Hp'); [done|done|lia|].
    exists st'. rewrite Hf. split_and!; congruence || done.
Qed.

(** All streams have been asked. *)
Definition merging (k : K) st rem : Prop :=
  merge_inv k (length rem) st rem /\ isParallelEnded st = bool_decide (memtupcount (sub st) = 0).

Lemma end_if_empty_ok st : isParallelEnded st = false ->
  exists st', end_if_empty st = Ok (tt, st') /\ st' = set_isParallelEnded (bool_decide (memtupcount (sub st) = 0)) st.
Proof.
  intros He. unfold end_if_empty, mbind, M_bind, mget, mput. case_bool_decide; (eexists; split; [reflexivity|]).
  - done.
  - destruct st. simpl in He. by subst.
Qed.

Lemma merge_prepare_ok k st rem :
  valid k -> merge_inv k 0 st rem -> workersCnt st = length rem -> isParallelEnded st = false ->
  exists st', merge_prepare fetch st = Ok (tt, st') /\ merging k st' rem /\ workersCnt st' = workersCnt st.
Proof.
  intros Hv HI Hc Hp. unfold merge_prepare. unfold mbind at 1, M_bind at 1, mget. rewrite Hc.
  destruct (fetch_first_ok k (length rem) 0 st rem Hv HI eq_refl) as (st1 & Hf & HI1 & Hc1 & Hp1).
  rewrite (mbind_ok _ _ _ _ _ Hf). destruct (end_if_empty_ok st1) as (st2 & He & ->); [congruence|].
  rewrite He. eexists. split; [reflexivity|]. split; [|by rewrite <- Hc]. split; [|done]. destruct HI1. by split.
Qed.

(** ** The next tuple *)

Lemma merging_end k st rem :
  merging k st rem -> memtupcount (sub st) = 0 -> concat rem = [] /\ merge_next fetch st = Ok (None, st).
Proof.
  intros [HI He] H0. split.
  - apply (heads_nil 0). pose proof (mi_count _ _ _ _ HI) as Hc. rewrite take_ge in Hc by done. apply nil_length_inv. lia.
  - unfold merge_next, mbind, M_bind, mget. by rewrite He, bool_decide_true.
Qed.

(** The top of the heap is the first tuple of some stream, and none is smaller. *)
Lemma merging_top k st rem :
  valid k -> merging k st rem -> memtupcount (sub st) <> 0 ->
  exists w x l, memtuples (sub st) !! 0 = Some (entry w x) /\ rem !! w = Some (x :: l) /\
    (Forall (sorted (comparetup k)) rem -> forall z, z ∈ concat rem -> (comparetup k x z <= 0)%Z).
Proof.
  intros Hv [HI _] H0. pose proof HI as [H1 H2 H3 H4 H5]. rewrite take_ge in H4 by done.
  destruct (lookup_lt_is_Some_2 (memtuples (sub st)) 0) as [root Hr]; [destruct H2 as [_ ?]; unfold memtupsize in *; lia|].
  pose proof (in_heap_top (sub st) root ltac:(lia) Hr) as Hin. rewrite H4 in Hin.
  apply elem_of_heads in Hin as (w & x & l & Hw & ->). exists w, x, l. split_and!; [done|done|].
  intros Hs z (r & Hz & Hin)%elem_of_concat.
  apply list_elem_of_lookup in Hin as [w' Hw']. destruct r as [|y r]; [by apply elem_of_nil in Hz|].
  assert (Hy : (comparetup k x y <= 0)%Z).
  { pose proof (root_least valid (sub st) _ (entry w' y) ltac:(by rewrite H1) H2 Hr) as Hle.
    rewrite H1 in Hle. unfold entry in Hle. rewrite (sm_tupindex k) in Hle. apply Hle. rewrite H4.
    rewrite (heads_lookup 0 _ _ _ Hw'). apply elem_of_app. left. apply list_elem_of_singleton. done. }
  apply elem_of_cons in Hz as [->|Hz]; [done|]. pose proof (sm_cmp _ Hv) as HC.
  eapply Forall_lookup_1 in Hs; [|exact Hw']. apply (sorted_cons_inv (comparetup k)) in Hs as [_ Hs].
  apply (cmp_trans x y z); [done|by apply Hs].
Qed.

(** Taking the top off leaves the heap of the other streams. *)
Lemma merging_siftup k st rem w x l :
  valid k -> merging k st rem -> memtupcount (sub st) <> 0 -> memtuples (sub st) !! 0 = Some (entry w x) -> rem !! w = Some (x :: l) ->
  exists s', on_sub (tuplesort_heap_siftup false) st = Ok (tt, set_sub s' st) /\ scanKeys s' = k /\ heap_inv s' /\
    memtupsize s' = memtupsize (sub st) /\ memtupcount s' = memtupcount (sub st) - 1 /\ in_heap s' ≡ₚ heads 0 (<[w := []]> rem).
Proof.
  intros Hv [HI _] H0 Hr Hw. pose proof HI as [H1 H2 H3 H4 H5]. rewrite take_ge in H4 by done. rewrite <- H1 in Hv.
  destruct (siftup_ok valid (sub st) _ Hv H2 ltac:(lia) Hr) as (mt & He & Hl & Hok & Hp & _).
  pose proof (siftup_inv _ _ _ H2 Hl Hok Hp) as HI'.
  eexists. unfold on_sub. rewrite He. split; [reflexivity|]. split_and!; [done|exact HI'|done|done|]. unfold in_heap at 1. simpl. apply (Permutation_cons_inv (a := entry w x)). rewrite <- Hp, H4.
  by rewrite (heads_lookup 0 _ _ _ Hw).
Qed.

Lemma next_stream k st st' rem w x r :
  merging k st rem -> rem !! w = Some (x :: r) ->
  stream_ok k st' true w r ->
  (forall w', w' <> w -> workersFinished st' !! w' = workersFinished st !! w') ->
  (forall w' l, w' <> w -> feeds k (src st) w' l -> feeds k (src st') w' l) ->
  forall w' r', <[w := r]> rem !! w' = Some r' -> stream_ok k st' (bool_decide (w' < length (<[w := r]> rem))) w' r'.
Proof.
  intros [[H1 H2 H3 H4 H5] _] Hw Hs Hfin Hfe w' r' Hw'. rewrite bool_decide_true by (by eapply lookup_lt_Some).
  destruct (decide (w' = w)) as [->|Hne].
  - rewrite list_lookup_insert_eq in Hw' by (by eapply lookup_lt_Some). by injection Hw' as <-.
  - rewrite list_lookup_insert_ne in Hw' by done. specialize (H5 _ _ Hw').
    rewrite bool_decide_true in H5 by (by eapply lookup_lt_Some).
    by apply (stream_other k st _ _ w); eauto.
Qed.

Lemma merge_next_ok k st rem :
  valid k -> merging k st rem -> memtupcount (sub st) <> 0 ->
  exists w x l st', merge_next fetch st = Ok (Some (tuple x), st') /\ rem !! w = Some (x :: l) /\ merging k st' (<[w := l]> rem) /\
    (Forall (sorted (comparetup k)) rem -> forall z, z ∈ concat rem -> (comparetup k x z <= 0)%Z).
Proof.
  intros Hv HM H0. destruct (merging_top k st rem Hv HM H0) as (w & x & l & Hr & Hw & Hmin).
  destruct (merging_siftup k st rem w x l Hv HM H0 Hr Hw) as (s1 & Hs1 & Hk1 & Hh1 & Hm1 & Hc1 & Hp1).
  pose proof HM as [[H1 H2 H3 H4 H5] HE]. rewrite bool_decide_false in HE by done.
  pose proof (H5 _ _ Hw) as Hst. rewrite bool_decide_true in Hst by (by eapply lookup_lt_Some). destruct Hst as [Hfin Hf].
  assert (Hlt : w < length rem) by (by eapply lookup_lt_Some).
  assert (Hwl : w < length (workersFinished st)) by (by eapply lookup_lt_Some).
  exists w, x, l. unfold merge_next. unfold mbind at 1, M_bind at 1, mget at 1. rewrite HE.
  unfold mbind at 1, M_bind at 1, deref at 1. rewrite Hr, (mbind_ok _ _ _ _ _ Hs1). simpl tupindex. rewrite Nat2Z.id.
  unfold mbind at 1, M_bind at 1, deref. rewrite Hfin. cbv zeta beta iota. rewrite mbind_assoc. unfold mbind at 1, M_bind at 1, mget at 1.
  simpl scanKeys. rewrite Hk1, mbind_assoc. destruct l as [|y l].
  - destruct (fetch_end_on k (set_sub s1 st) w Hf) as (v & He & Ho). rewrite (mbind_ok _ _ _ _ _ He), mbind_assoc.
    rewrite (mbind_ok _ _ _ _ _ (set_finished_ok (set_src v (set_sub s1 st)) w Hwl)).
    edestruct end_if_empty_ok as (st2 & He2 & ->); [|rewrite (mbind_ok _ _ _ _ _ He2)]; [done|].
    eexists. split; [reflexivity|]. split; [done|]. split; [|done]. split; [|done]. split; simpl; try done.
    + by rewrite length_insert, Hm1.
    + by rewrite take_ge by done.
    + apply (next_stream k st _ rem w x); simpl; try done; [by rewrite list_lookup_insert_eq|].
      intros w' Hne. by rewrite list_lookup_insert_ne.
  - destruct (fetch_more_on k (set_sub s1 st) w y l Hf) as (y' & v & He & Hn & Hl & Ho). rewrite (mbind_ok _ _ _ _ _ He).
    destruct (insert_entry k (set_src v (set_sub s1 st)) w y y') as (s2 & Hi & Hk2 & Hh2 & Hm2 & Hp2); try done.
    { simpl. rewrite Hm1, Hc1. destruct H2 as (_ & ? & _). lia. }
    rewrite (mbind_ok _ _ _ _ _ Hi). eexists. split; [reflexivity|]. split; [done|]. split; [|done]. split.
    + split; simpl; try done; [by rewrite length_insert, Hm2; simpl; rewrite Hm1| |].
      * rewrite take_ge by done. rewrite Hp2. simpl. rewrite Hp1. by rewrite (heads_update 0 rem w (y :: l) Hlt).
      * by apply (next_stream k st _ rem w x).
    + simpl. rewrite HE. symmetry. apply bool_decide_false. intros Hz.
      pose proof (in_heap_length _ Hh2) as Hlen. rewrite Hp2 in Hlen. simpl in Hlen. lia.
Qed.

(** ** Reading to the end *)

Lemma Forall_sorted_tail {A} (P : list A -> Prop) (rem : list (list A)) w x l :
  (forall y r, P (y :: r) -> P r) -> Forall P rem -> rem !! w = Some (x :: l) -> Forall P (<[w := l]> rem).
Proof. intros Ht Hs Hw. apply Forall_insert; [done|]. eapply Ht. by eapply Forall_lookup_1 in Hs. Qed.

Lemma get_slots_ok k n : forall st rem,
  valid k -> merging k st rem -> Forall (sorted (comparetup k)) rem ->
  exists outs rem' st', get_slots fetch n st = Ok ((fun t => tuple t) <$> outs, st') /\ merging k st' rem' /\
    concat rem ≡ₚ outs ++ concat rem' /\ length outs = Nat.min n (length (concat rem)) /\
    sorted (comparetup k) outs /\ (forall x y, x ∈ outs -> y ∈ concat rem' -> (comparetup k x y <= 0)%Z).
Proof.
  induction n as [|n IH]; intros st rem Hv HM Hs; cbn [get_slots].
  { exists [], rem, st. split_and!; try done; [constructor|set_solver]. }
  destruct (decide (memtupcount (sub st) = 0)) as [H0|H0].
  - destruct (merging_end k st rem HM H0) as [Hc He]. exists [], rem, st. rewrite (mbind_ok _ _ _ _ _ He).
    split_and!; try done; [by rewrite Hc|constructor|set_solver].
  - destruct (merge_next_ok k st rem Hv HM H0) as (w & x & l & st1 & He & Hw & HM1 & Hmin). specialize (Hmin Hs).
    rewrite (mbind_ok _ _ _ _ _ He). pose proof (concat_update rem w x l Hw) as Hp.
    destruct (IH st1 (<[w := l]> rem)) as (outs & rem' & st2 & Hg & HM2 & Hp2 & Hl2 & Hs2 & Ho2); [done|done| |].
    { apply (Forall_sorted_tail _ _ _ x); [|done|done]. intros y r Hy. by apply (sorted_cons_inv (comparetup k)) in Hy as [? _]. }
    rewrite (mbind_ok _ _ _ _ _ Hg). exists (x :: outs), rem', st2. split_and!; [done|done| | | |].
    + rewrite Hp, Hp2. done.
    + rewrite Hp. simpl. by rewrite Hl2.
    + constructor; [done|]. apply Forall_forall. intros y Hy. apply Hmin. rewrite Hp. right. rewrite Hp2. apply elem_of_app. by left.
    + intros z y [->|Hz]%elem_of_cons Hy; [|by apply Ho2]. apply Hmin. rewrite Hp. right. rewrite Hp2. apply elem_of_app. by right.
Qed.
End Merge.

(** ** Merging sorts of the same process *)

Section MultiLTS.
Context {T K : Type} `{SM : !SortMethods T K}.
Local Abbreviation tss := (Tuplesortstate T K).
Local Abbreviation state := (PrlState T K (list (option (Tuplesortstate T K)))).

(** state->worker_states is not initialised; an entry nobody registered is [None]. *)
Definition prepare_for_multiLTS (cnt : nat) : M state unit :=
  mmod (fun s => mkPrl (sub s) cnt (lastWorker s) (replicate cnt false) (isParallelEnded s) (replicate cnt None)).

Definition register_tuplesort_state (worker_state : tss) (position : Z) : M state unit :=
  s ← mget;
  if (0 <=? position)%Z && (position <? Z.of_nat (workersCnt s))%Z
  then mput (set_src (<[Z.to_nat position := Some worker_state]> (src s)) s)
  else mfail (EElog "Master - register tuplesort state - wrong position index").

(** tuplesort_gettuple_common(state->worker_states[w], forward, ...) *)
Definition fetch_lts (slave forward : bool) (_ : K) (w : nat) : M (list (option tss)) (option (SortTuple T)) := fun states =>
  match states !! w with
  | Some (Some s) =>
    match tuplesort_gettuple_common slave forward s with
    | Ok (o, s') => Ok (o, <[w := Some s']> states)
    | Err e => Err e
    end
  | _ => Err EUndef
  end.

Definition preForMergeMultiLTS (slave forward : bool) : M state unit := merge_prepare (fetch_lts slave forward).
Definition tuplesort_gettupleslot_from_multiple_lts (slave forward : bool) : M state (option T) :=
  merge_next (fetch_lts slave forward).

(** A sort that has finished, wherever its tuples are. *)
Definition feeds_lts (slave : bool) (_ : K) (states : list (option tss)) (w : nat) (l : list (SortTuple T)) : Prop :=
  exists s, states !! w = Some (Some s) /\ yields slave l s.

#[export] Instance lts_source slave : MergeSource (fetch_lts slave true) (feeds_lts slave).
Proof.
  split.
  - intros k states w (s & Hw & s1 & Hr & Hends). cbn in Hr. subst s1. destruct Hends as [s' He].
    eexists. unfold fetch_lts. rewrite Hw, He. split; [reflexivity|].
    intros w' l Hne (s0 & ? & ?). exists s0. by rewrite list_lookup_insert_ne.
  - intros k states w x l (s & Hw & s1 & (s' & He & Hr) & Hends).
    eexists _, _. unfold fetch_lts. rewrite Hw, He. split; [reflexivity|]. split; [done|]. split.
    + exists s'. rewrite list_lookup_insert_eq; [|by eapply lookup_lt_Some]. split; [done|]. by exists s1.
    + intros w' l' Hne (s0 & ? & ?). exists s0. by rewrite list_lookup_insert_ne.
Qed.
End MultiLTS.
