(* ===== verification/ParallelSort.v ===== *)
(** * ParallelSort: the data path of a parallel sort

    The leader deals its input out to the workers (distributeToWorker), each worker sorts what it
    gets and sends it back (doSort of src/backend/postmaster/slaveworker.c), and the leader merges
    what the workers send (prepareForMerge, tuplesort_gettupleslot_from_worker).  The queue between
    the leader and a worker is its list of cells and its stop flag; that the shared-memory queue
    behaves like this whatever the interleaving is shown in BufferQueue.  As neither side looks at anything
    but its queues, the order in which the processes run does not matter, and the whole sort is written
    as a function: dealing, the workers one by one, merging. *)

From S2P Require Import Prelude Order Compare Heap Qsort Tape Tuplesort InMemory RunTapes BuildRuns SortRun PrlMerge.
From Stdlib Require Import Permutation.

(** PrlSortTuple has the same fields as SortTuple. *)
Abbreviation PrlSortTuple := (SortTuple MinimalTuple) (only parsing).
(** PrlCell: [last] or a pointer to a PrlSortTuple *)
Inductive PrlCell := CTuple (p : PrlSortTuple) | CLast.
Record Queue := mkQueue { q_cells : list PrlCell; q_stop : bool }.

Definition queue_add (c : PrlCell) (stopOnLast : bool) (q : Queue) : bool * Queue :=
  let stop := match c with CLast => q_stop q || stopOnLast | CTuple _ => q_stop q end in
  (stop, mkQueue (q_cells q ++ [c]) stop).
(** A get on an empty queue waits; [None] is the wait. *)
Definition queue_get (q : Queue) : option (PrlCell * Queue) :=
  match q_cells q with [] => None | c :: cs => Some (c, mkQueue cs (q_stop q)) end.
Definition queue_set_stop (v : bool) (q : Queue) : Queue := mkQueue (q_cells q) v.

Section Parallel.
Context (heap_getattr : MinimalTuple -> Z -> Datum * bool) (chunk_space : MinimalTuple -> Z) (overhead : Z).
(** The contents of memory nobody has written to. *)
Context (junk : SortTuple MinimalTuple).
Local Abbreviation keys_t := (list ScanKeyData).
Local Instance SM : SortMethods MinimalTuple keys_t :=
  heap_methods heap_getattr chunk_space (fun n => (24 * Z.of_nat n + overhead)%Z).
Local Abbreviation tss := (Tuplesortstate MinimalTuple keys_t).
Local Abbreviation state := (PrlState MinimalTuple keys_t (list Queue)).
Local Abbreviation row_cmp := (row_cmp heap_getattr).
Local Abbreviation cached := (cached heap_getattr).
Local Abbreviation keeps_rows := (keeps_rows heap_getattr).

(** A tuple copied out of a cell; its tupindex is whatever was there. *)
Definition prl_tuple (keys : keys_t) (t : MinimalTuple) : SortTuple MinimalTuple :=
  computeDatum1 heap_getattr keys t (tupindex junk).

(** ** The leader sends *)

(** copytup_heap and tuplesort_prl_puttupleslot: palloc0 has cleared tupindex. *)
Definition tuplesort_prl_puttupleslot (slot : MinimalTuple) : M tss PrlSortTuple :=
  s ← mget;
  mput (USEMEM (chunk_space slot) s);;
  mret (computeDatum1 heap_getattr (scanKeys s) slot 0).

(** bufferQueueAdd(state->workers[w]->work->workParams->bufferQueue, c, stopOnLast) *)
Definition bufferQueueAdd_to (w : nat) (c : PrlCell) (stopOnLast : bool) : M (list Queue) bool := fun qs =>
  match qs !! w with
  | Some q => let '(r, q') := queue_add c stopOnLast q in Ok (r, <[w := q']> qs)
  | None => Err EUndef
  end.

(** [k] workers from [i] on *)
Fixpoint send_last (k i : nat) : M (list Queue) unit :=
  match k with
  | O => mret tt
  | S k' => bufferQueueAdd_to i CLast false;; send_last k' (S i)
  end.

(** [None] is the call with last == true. *)
Definition distributeToWorker (slot : option MinimalTuple) : M state unit :=
  s ← mget;
  match slot with
  | None => on_src (send_last (workersCnt s) 0)
  | Some slot =>
    if decide (workersCnt s = 0) then mfail EUndef
    else
      let now := Z.rem (lastWorker s + 1) (Z.of_nat (workersCnt s)) in
      stup ← on_sub (tuplesort_prl_puttupleslot slot);
      on_src (bufferQueueAdd_to (Z.to_nat now) (CTuple stup) false);;
      mmod (set_lastWorker now)
  end.

(** ExecSort: the loop over the subplan *)
Fixpoint distribute_all (rows : list MinimalTuple) : M state unit :=
  match rows with
  | [] => distributeToWorker None
  | t :: rows' => distributeToWorker (Some t);; distribute_all rows'
  end.

(** ** A worker *)

Definition tuplesort_puttupleslot_prl (p : PrlSortTuple) : M tss unit :=
  mmod (USEMEM (chunk_space (tuple p)));;
  s ← mget;
  puttuple_common junk (prl_tuple (scanKeys s) (tuple p)).

(** The first loop of doSort; a worker waits for ever on an empty queue nobody adds to. *)
Fixpoint receive (cells : list PrlCell) : M tss (list PrlCell) :=
  match cells with
  | [] => mfail EDiverge
  | CLast :: cells' => mret cells'
  | CTuple p :: cells' => tuplesort_puttupleslot_prl p;; receive cells'
  end.

(** isSlaveWorker() is true here; datum1 and tupindex of the copy are not set. *)
Definition prl_tuplesort_getsorttuple (forward : bool) : M tss (option PrlSortTuple) :=
  o ← tuplesort_gettuple_common true forward;
  mret (match o with
        | Some stup => Some (mkSortTuple (tuple stup) (datum1 junk) (isnull1 stup) (tupindex junk))
        | None => None
        end).

(** The second loop of doSort.  [stopped i] says that the leader has called
    bufferQueueSetStop(.., true) before the [i]th add. *)
Fixpoint send_back (fuel : nat) (forward : bool) (stopped : nat -> bool) (i : nat) (q : Queue) : M tss Queue :=
  match fuel with
  | O => mfail EDiverge
  | S fuel' =>
    o ← prl_tuplesort_getsorttuple forward;
    let q := if stopped i then queue_set_stop true q else q in
    match o with
    | Some pstup =>
      let '(stop, q') := queue_add (CTuple pstup) true q in
      if stop then mret q' else send_back fuel' forward stopped (S i) q'
    | None => mret (snd (queue_add CLast true q))
    end
  end.

(** [sp_bound] stands for [bounded] and [bound], [sp_work_mem] for the variable work_mem, and
    [sp_keys] for the columns, operators and directions. *)
Record SortParams := mkSortParams {
  sp_keys : keys_t;
  sp_work_mem : Z;
  sp_randomAccess : bool;
  sp_forward : bool;
  sp_bound : option Z }.

Definition begin_sort (pars : SortParams) : res tss :=
  match tuplesort_begin_common junk (sp_work_mem pars) (sp_randomAccess pars) (sp_keys pars) with
  | Err e => Err e
  | Ok s =>
    match (match sp_bound pars with Some b => tuplesort_set_bound b | None => mret tt end) s with
    | Ok (_, s') => Ok s'
    | Err e => Err e
    end
  end.

Definition doSort (pars : SortParams) (stopped : nat -> bool) (fuel : nat) (q : Queue) : res Queue :=
  match begin_sort pars with
  | Err e => Err e
  | Ok s =>
    match (rest ← receive (q_cells q);
           tuplesort_performsort;;
           send_back fuel (sp_forward pars) stopped 0 (mkQueue rest (q_stop q))) s with
    | Ok (q', _) => Ok q'
    | Err e => Err e
    end
  end.

(** ** The leader merges *)

(** bufferQueueGet(.., true), and the tuple copied out of the cell *)
Definition fetch_from_worker (keys : keys_t) (w : nat) : M (list Queue) (option (SortTuple MinimalTuple)) := fun qs =>
  match qs !! w with
  | Some q =>
    match queue_get q with
    | Some (CLast, q') => Ok (None, <[w := q']> qs)
    | Some (CTuple p, q') => Ok (Some (prl_tuple keys (tuple p)), <[w := q']> qs)
    | None => Err EDiverge
    end
  | None => Err EUndef
  end.

Definition prepareForMerge : M state unit := merge_prepare fetch_from_worker.
Definition tuplesort_gettupleslot_from_worker : M state (option MinimalTuple) := merge_next fetch_from_worker.

(** ** The whole sort *)

(** What registerWorkers leaves for [n] registered workers with fresh queues. *)
Definition with_workers (n : nat) (s : tss) : state :=
  mkPrl s n (-1) (replicate n false) false (replicate n (mkQueue [] false)).

(** The workers, one after the other. *)
Fixpoint run_workers (pars : SortParams) (fuel : nat) (qs : list Queue) : res (list Queue) :=
  match qs with
  | [] => Ok []
  | q :: qs' =>
    match doSort pars (fun _ => false) fuel q with
    | Ok q' => match run_workers pars fuel qs' with Ok qs'' => Ok (q' :: qs'') | Err e => Err e end
    | Err e => Err e
    end
  end.

(** ExecSort with prl_sort on, and [calls] fetches. *)
Definition parallel_sort (n : nat) (pars : SortParams) (rows : list MinimalTuple) (calls : nat) : res (list MinimalTuple) :=
  match begin_sort pars with
  | Err e => Err e
  | Ok s =>
    match (distribute_all rows;;
           st ← mget;
           qs ← (fun st => match run_workers pars (S (length rows)) (src st) with Ok qs => Ok (qs, st) | Err e => Err e end);
           mput (set_src qs st);;
           prepareForMerge;;
           get_slots fetch_from_worker calls) (with_workers n s) with
    | Ok (out, _) => Ok out
    | Err e => Err e
    end
  end.

(** ** Dealing out *)

(** The rows worker [w] of [n] gets when the first row is number [i]. *)
Fixpoint share {A} (n w i : nat) (rows : list A) : list A :=
  match rows with
  | [] => []
  | t :: rows' => if decide (i mod n = w) then t :: share n w (S i) rows' else share n w (S i) rows'
  end.

Lemma share_snoc {A} n w (rows : list A) t : forall i,
  share n w i (rows ++ [t]) = share n w i rows ++ (if decide ((i + length rows) mod n = w) then [t] else []).
Proof.
  induction rows as [|x rows IH]; intros i; simpl; [by rewrite Nat.add_0_r|].
  rewrite IH, Nat.add_succ_r. by case_decide.
Qed.

Lemma share_length {A} n w (rows : list A) : w < n -> length (share n w 0 rows) = (length rows + (n - 1 - w)) / n.
Proof.
  intros Hw. induction rows as [|t rows IH] using rev_ind.
  - simpl. symmetry. apply Nat.div_small. lia.
  - rewrite share_snoc, !length_app, IH. simpl. set (m := length rows).
    pose proof (Nat.div_mod_eq m n) as Hm. pose proof (Nat.mod_upper_bound m n ltac:(lia)) as Hb.
    set (a := m / n) in *. set (b := m mod n) in *.
    assert (Hd : forall c, c < n -> (n * a + c) / n = a) by (intros c Hc; symmetry; by apply (Nat.div_unique _ _ _ c)).
    assert (Hd1 : forall c, c < n -> (n * S a + c) / n = S a) by (intros c Hc; symmetry; by apply (Nat.div_unique _ _ _ c)).
    case_decide as Hbw; simpl.
    + replace (m + (n - 1 - w)) with (n * a + (n - 1)) by lia. rewrite Hd by lia.
      replace (m + 1 + (n - 1 - w)) with (n * S a + 0) by lia. rewrite Hd1 by lia. lia.
    + destruct (decide (b < w)).
      * replace (m + (n - 1 - w)) with (n * a + (b + (n - 1 - w))) by lia. rewrite Hd by lia.
        replace (m + 1 + (n - 1 - w)) with (n * a + (b + 1 + (n - 1 - w))) by lia. rewrite Hd by lia. lia.
      * replace (m + (n - 1 - w)) with (n * S a + (b - 1 - w)) by lia. rewrite Hd1 by lia.
        replace (m + 1 + (n - 1 - w)) with (n * S a + (b - w)) by lia. rewrite Hd1 by lia. lia.
Qed.

Lemma share_le {A} n w i (rows : list A) : length (share n w i rows) <= length rows.
Proof. revert i. induction rows as [|t rows IH]; intros i; simpl; [lia|]. case_decide; simpl; specialize (IH (S i)); lia. Qed.

Lemma share_Forall {A} (Q : A -> Prop) n w i (rows : list A) : Forall Q rows -> Forall Q (share n w i rows).
Proof. intros H. revert i. induction H as [|t rows Ht _ IH]; intros i; simpl; [constructor|]. case_decide; [constructor|]; auto. Qed.

Lemma shares_perm {A} n (rows : list A) : n <> 0 -> forall i,
  concat ((fun w => share n w i rows) <$> seq 0 n) ≡ₚ rows.
Proof.
  intros Hn. induction rows as [|t rows IH]; intros i.
  - induction (seq 0 n) as [|w ws IHw]; [done|]. exact IHw.
  - pose proof (Nat.mod_upper_bound i n Hn) as Hb.
    rewrite (concat_update _ (i mod n) t (share n (i mod n) (S i) rows)).
    + apply Permutation_cons; [done|]. rewrite <- (IH (S i)) at 2. apply Permutation_refl'. f_equal.
      apply list_eq. intros w. destruct (decide (w = i mod n)) as [->|Hne].
      * rewrite list_lookup_insert_eq by (by rewrite length_fmap, length_seq). rewrite list_lookup_fmap, lookup_seq_lt by done. done.
      * rewrite list_lookup_insert_ne, !list_lookup_fmap by done. destruct (seq 0 n !! w) as [v|] eqn:E; simpl; [|done].
        apply lookup_seq in E as [-> _]. simpl. by rewrite decide_False.
    + rewrite list_lookup_fmap, lookup_seq_lt by done. simpl. by rewrite decide_True.
Qed.

(** The cells made of rows. *)
Definition cell_of (keys : keys_t) (t : MinimalTuple) : PrlCell := CTuple (computeDatum1 heap_getattr keys t 0).

Lemma send_last_ok k : forall i qs, i + k = length qs ->
  exists qs', send_last k i qs = Ok (tt, qs') /\ length qs' = length qs /\
    forall w q, qs !! w = Some q -> qs' !! w = Some (if decide (i <= w) then mkQueue (q_cells q ++ [CLast]) (q_stop q) else q).
Proof.
  induction k as [|k IH]; intros i qs Hk; cbn [send_last].
  - exists qs. split_and!; try done. intros w q Hw. rewrite decide_False; [done|]. apply lookup_lt_Some in Hw. lia.
  - destruct (lookup_lt_is_Some_2 qs i) as [q Hq]; [lia|].
    assert (He : bufferQueueAdd_to i CLast false qs = Ok (q_stop q, <[i := mkQueue (q_cells q ++ [CLast]) (q_stop q)]> qs)).
    { unfold bufferQueueAdd_to. rewrite Hq. simpl. by rewrite orb_false_r. }
    rewrite (mbind_ok _ _ _ _ _ He). destruct (IH (S i) (<[i := mkQueue (q_cells q ++ [CLast]) (q_stop q)]> qs)) as (qs' & Hs & Hl & Hw).
    { rewrite length_insert. lia. }
    exists qs'. rewrite length_insert in Hl. split_and!; [done|done|]. intros w q' Hw'. destruct (decide (w = i)) as [->|Hne].
    + rewrite (Hw i (mkQueue (q_cells q ++ [CLast]) (q_stop q))) by (apply list_lookup_insert_eq; by eapply lookup_lt_Some).
      rewrite decide_False, decide_True by lia. congruence.
    + rewrite (Hw w q') by (by rewrite list_lookup_insert_ne). do 2 case_decide; done || lia.
Qed.

Lemma distribute_row n (st : state) i t q :
  n <> 0 -> workersCnt st = n -> (0 <= lastWorker st + 1)%Z -> Z.rem (lastWorker st + 1) (Z.of_nat n) = Z.of_nat (i mod n) ->
  src st !! (i mod n) = Some q ->
  distributeToWorker (Some t) st = Ok (tt, mkPrl (USEMEM (chunk_space t) (sub st)) n (Z.of_nat (i mod n)) (workersFinished st) (isParallelEnded st)
    (<[i mod n := mkQueue (q_cells q ++ [cell_of (scanKeys (sub st)) t]) (q_stop q)]> (src st))).
Proof.
  intros Hn Hc Hp Hr Hq. unfold distributeToWorker, mbind, M_bind, mget. rewrite Hc, decide_False by done.
  unfold on_sub, tuplesort_prl_puttupleslot, mbind, M_bind, mget, mput, mret, M_ret. simpl.
  unfold on_src, bufferQueueAdd_to. simpl. rewrite Hr, Nat2Z.id, Hq. simpl. unfold mmod, set_lastWorker, set_src, set_sub. simpl. by rewrite Hc.
Qed.

Lemma next_worker n i : n <> 0 -> Z.rem (Z.of_nat (i mod n) + 1) (Z.of_nat n) = Z.of_nat (S i mod n).
Proof.
  intros Hn. rewrite Z.rem_mod_nonneg by lia. replace (Z.of_nat (i mod n) + 1)%Z with (Z.of_nat (i mod n + 1)) by lia.
  rewrite <- Nat2Z.inj_mod. f_equal. rewrite Nat.Div0.add_mod_idemp_l. f_equal. lia.
Qed.

Lemma distribute_all_ok n rows : forall i (st : state),
  n <> 0 -> workersCnt st = n -> length (src st) = n -> (0 <= lastWorker st + 1)%Z ->
  Z.rem (lastWorker st + 1) (Z.of_nat n) = Z.of_nat (i mod n) ->
  exists a lw qs, distribute_all rows st = Ok (tt, mkPrl (set_availMem a (sub st)) n lw (workersFinished st) (isParallelEnded st) qs) /\
    length qs = n /\ forall w q, src st !! w = Some q ->
      qs !! w = Some (mkQueue (q_cells q ++ (cell_of (scanKeys (sub st)) <$> share n w i rows) ++ [CLast]) (q_stop q)).
Proof.
  induction rows as [|t rows IH]; intros i st Hn Hc Hl Hp Hr; cbn [distribute_all].
  - destruct (send_last_ok n 0 (src st)) as (qs & He & Hlq & Hqs); [lia|].
    exists (availMem (sub st)), (lastWorker st), qs. unfold distributeToWorker, mbind, M_bind, mget, on_src. rewrite Hc, He.
    split; [|split; [lia|done]]. unfold set_src. rewrite Hc. by destruct (sub st).
  - pose proof (Nat.mod_upper_bound i n Hn) as Hb. destruct (lookup_lt_is_Some_2 (src st) (i mod n)) as [q Hq]; [lia|].
    rewrite (mbind_ok _ _ _ _ _ (distribute_row n st i t q Hn Hc Hp Hr Hq)). set (st1 := mkPrl _ _ _ _ _ _).
    destruct (IH (S i) st1) as (a & lw & qs & He & Hlq & Hqs); [done|reflexivity|simpl; by rewrite length_insert|simpl; lia|simpl; by apply next_worker|].
    exists a, lw, qs. split; [exact He|]. split; [done|]. simpl in Hqs. intros w q' Hw. destruct (decide (i mod n = w)) as [<-|Hne].
    + erewrite Hqs by (apply list_lookup_insert_eq; lia). simpl. rewrite decide_True by done. simpl.
      rewrite Hq in Hw. injection Hw as ->. by rewrite <- !app_assoc.
    + rewrite (Hqs w q') by (by rewrite list_lookup_insert_ne). simpl. by rewrite decide_False.
Qed.

(** ** A worker's sort *)

Section worker.
Context (keys : keys_t) (ra : bool) (bnd : option Z) (Hk : sort_functions keys).
Local Abbreviation loaded_with := (loaded (SM := SM) keys ra bnd).

Lemma prl_tuple_reversed t : prl_tuple (reversedirection_heap keys) t = prl_tuple keys t.
Proof using. clear Hk. by destruct keys. Qed.
Lemma prl_tuple_loaded s ins t : loaded_with s ins -> prl_tuple (scanKeys s) t = prl_tuple keys t.
Proof using. intros [-> | ->]%loaded_keys; [done|apply prl_tuple_reversed]. Qed.

Lemma receive_ok ps rest : forall s ins, loaded_with s ins ->
  forall cells, Forall2 (fun c t => exists p, c = CTuple p /\ tuple p = t) cells ps ->
  exists s', receive (cells ++ CLast :: rest) s = Ok (rest, s') /\ loaded_with s' (ins ++ (prl_tuple keys <$> ps)).
Proof using Hk.
  induction ps as [|t ps IH]; intros s ins HLd cells Hc.
  - apply Forall2_nil_inv_r in Hc as ->. exists s. by rewrite app_nil_r.
  - apply Forall2_cons_inv_r in Hc as (c & cells' & (p & -> & Hp) & Hc & ->). simpl app. cbn [receive].
    assert (Heq : tuplesort_puttupleslot_prl p s = puttuple (SM := SM) junk (prl_tuple keys t) s).
    { unfold tuplesort_puttupleslot_prl, puttuple, mbind, M_bind, mmod, mget. simpl. rewrite Hp, (prl_tuple_loaded _ _ _ HLd).
      by unfold prl_tuple; rewrite computeDatum1_tuple. }
    destruct (puttuple_ok (SM := SM) sort_functions junk overhead (fun _ => eq_refl) keys ra bnd Hk (fun _ => _) s ins (prl_tuple keys t) I HLd) as (s1 & H1 & L1).
    rewrite <- Heq in H1. rewrite (mbind_ok _ _ _ _ _ H1).
    destruct (IH s1 (ins ++ [prl_tuple keys t]) L1 cells' Hc) as (s2 & H2 & L2). exists s2. by rewrite <- app_assoc in L2.
Qed.
End worker.

(** What a worker sends: all that is left to read and the last cell, or less when it is told to stop. *)
Lemma send_back_ok fuel stopped : forall i q (s : tss) l,
  yields true l s -> length l < fuel ->
  exists sent fin q' s', send_back fuel true stopped i q s = Ok (q', s') /\ q_cells q' = q_cells q ++ (CTuple <$> sent) ++ fin /\
    (fun t => tuple t) <$> sent `prefix_of` (fun t => tuple t) <$> l /\
    ((fin = [CLast] /\ (fun t => tuple t) <$> sent = (fun t => tuple t) <$> l) \/
     (fin = [] /\ q_stop q' = true /\ (q_stop q = true \/ exists j, stopped j = true))).
Proof.
  induction fuel as [|fuel IH]; intros i q s l (s0 & Hreads & Hends) Hf; [lia|]. cbn [send_back].
  unfold prl_tuplesort_getsorttuple. rewrite mbind_assoc.
  destruct l as [|x l].
  - cbn in Hreads. subst s0. destruct Hends as (s' & He). rewrite (mbind_ok _ _ _ _ _ He).
    eexists [], [CLast], _, s'. split; [reflexivity|]. split; [by destruct (stopped i)|]. split; [done|]. by left.
  - destruct Hreads as (s1 & He & Hreads). rewrite (mbind_ok _ _ _ _ _ He).
    unfold mbind at 1, M_bind at 1, mret at 1, M_ret at 1. set (p := mkSortTuple _ _ _ _).
    destruct (stopped i) eqn:Est; [|destruct (q_stop q) eqn:Eq]; simpl.
    + eexists [p], [], _, s1. split; [reflexivity|]. split_and!; [done|by apply prefix_cons, prefix_nil|right; eauto].
    + rewrite Eq. eexists [p], [], _, s1. split; [reflexivity|]. split_and!; [done|by apply prefix_cons, prefix_nil|right; eauto].
    + rewrite Eq. destruct (IH (S i) (mkQueue (q_cells q ++ [CTuple p]) false) s1 l (ex_intro _ s0 (conj Hreads Hends))) as (sent & fin & q' & s' & Hs & Hc & Hp & Hfin);
        [simpl in Hf; lia|].
      exists (p :: sent), fin, q', s'. split; [done|]. split; [by rewrite Hc; simpl; rewrite <- app_assoc|].
      split; [by apply prefix_cons|]. destruct Hfin as [[-> Hfin]|(-> & Hst & Hor)]; [left|right].
      * split; [done|]. rewrite !fmap_cons, Hfin. done.
      * split_and!; [done|done|]. destruct Hor as [Hq|?]; [by simpl in Hq|by right].
Qed.

(** ** Rows in order *)

Lemma prl_tuple_norm keys t : norm (prl_tuple keys t) = computeDatum1 heap_getattr keys t 0.
Proof. destruct keys as [|k keys]; [done|]. unfold prl_tuple, computeDatum1. by destruct (heap_getattr t (sk_attno k)). Qed.
Lemma prl_tuple_proj keys t : tuple (prl_tuple keys t) = t.
Proof. destruct keys as [|k keys]; [done|]. unfold prl_tuple, computeDatum1. by destruct (heap_getattr t (sk_attno k)). Qed.
Lemma prl_tuple_cached keys t : cached keys (prl_tuple keys t).
Proof. unfold cached. by rewrite prl_tuple_norm, prl_tuple_proj. Qed.

Lemma sorted_prl_tuple keys l : sorted (row_cmp keys) l -> sorted (comparetup_heap heap_getattr keys) (prl_tuple keys <$> l).
Proof.
  induction 1 as [|x l Hs IH Hx]; [constructor|]. constructor; [done|]. apply Forall_fmap. eapply Forall_impl; [exact Hx|].
  intros y Hy. unfold compose, cmp_le. rewrite (cmp_cached heap_getattr chunk_space overhead) by apply prl_tuple_cached. by rewrite !prl_tuple_proj.
Qed.

(** ** doSort *)

(** Parameters a sort accepts: sort functions, a forward scan, memory for the first array and a bound that fits an int when doubled. *)
Definition good_params (pars : SortParams) : Prop :=
  sort_functions (sp_keys pars) /\ sp_forward pars = true /\ memory_ok overhead (sp_work_mem pars) /\
  forall b, sp_bound pars = Some b -> (1 <= b <= INT_MAX / 2)%Z.

Lemma begin_sort_ok pars : good_params pars ->
  exists s, begin_sort pars = Ok s /\ loaded (SM := SM) (sp_keys pars) (sp_randomAccess pars) (sp_bound pars) s [] /\
    scanKeys s = sp_keys pars /\ memtupcount s = 0 /\ memtupsize s = 1024.
Proof.
  intros (Hk & Hf & Hm & Hb).
  destruct (begin_ok (SM := SM) junk (sp_keys pars) (sp_randomAccess pars) (sp_bound pars) (sp_work_mem pars) Hm Hb) as (s & s1 & Hbeg & Hset & HI).
  exists s1. unfold begin_sort. rewrite Hbeg, Hset. split; [done|]. split; [by left|].
  assert (Hmt : length (replicate 1024 junk) = 1024) by apply length_replicate.
  unfold tuplesort_begin_common in Hbeg. destruct (_ <? 0)%Z; [done|]. unfold memtupsize.
  revert Hbeg Hmt. generalize (replicate 1024 junk). intros mt Hbeg Hmt. injection Hbeg as <-. destruct (sp_bound pars) as [b|].
  - unfold tuplesort_set_bound, mbind, M_bind, mget, Assert, mput in Hset. simpl in Hset.
    destruct (_ <? b)%Z; injection Hset as <-; done.
  - by injection Hset as <-.
Qed.

Lemma cells_forall2 keys (rows : list MinimalTuple) :
  Forall2 (fun c t => exists p, c = CTuple p /\ tuple p = t) (cell_of keys <$> rows) rows.
Proof.
  induction rows as [|t rows IH]; [constructor|]. rewrite fmap_cons. constructor; [|done].
  eexists. split; [reflexivity|]. destruct keys as [|k keys]; [done|]. unfold computeDatum1. by destruct (heap_getattr t (sk_attno k)).
Qed.

(** A worker whose queue has [rows] and the last cell answers with them in order, up to the bound. *)
Lemma doSort_ok pars stopped fuel rows :
  good_params pars -> Forall row_fits rows -> length rows < fuel ->
  exists q' sent fin out D, doSort pars stopped fuel (mkQueue ((cell_of (sp_keys pars) <$> rows) ++ [CLast]) false) = Ok q' /\
    q_cells q' = (CTuple <$> sent) ++ fin /\ keeps_rows (sp_keys pars) out D rows /\
    (D = [] \/ exists b, sp_bound pars = Some b /\ Z.of_nat (length out) = b) /\
    (fun t => tuple t) <$> sent `prefix_of` out /\
    ((fin = [CLast] /\ (fun t => tuple t) <$> sent = out) \/ (fin = [] /\ q_stop q' = true /\ exists j, stopped j = true)).
Proof.
  intros Hg Hfit Hfu. destruct (begin_sort_ok pars Hg) as (s & Hbeg & HLd & _). destruct Hg as (Hk & Hf & _ & Hb). unfold doSort. rewrite Hbeg, Hf. cbn [q_cells q_stop].
  destruct (receive_ok (sp_keys pars) _ _ Hk rows [] s [] HLd (cell_of (sp_keys pars) <$> rows)) as (s1 & Hr & HLd1); [apply cells_forall2|].
  rewrite (mbind_ok _ _ _ _ _ Hr). rewrite app_nil_l in HLd1.
  destruct (performsort_ok (SM := SM) sort_functions (sp_keys pars) _ _ Hk (fun _ => _) true s1 _ HLd1) as (s2 & out & D & Hsort & [(s3 & Hreads & Hends) Hs Hkeep Hbd]).
  { apply Forall_fmap. eapply Forall_impl; [exact Hfit|]. intros row. apply good_row. }
  rewrite (mbind_ok _ _ _ _ _ Hsort).
  assert (Hlen : length out <= length rows).
  { destruct Hkeep as [Hp _]. apply Permutation_length in Hp. rewrite length_app, !length_fmap in Hp. lia. }
  destruct (send_back_ok fuel stopped 0 (mkQueue [] false) s2 out (ex_intro _ s3 (conj Hreads (Hends (or_introl eq_refl)))) ltac:(lia)) as (sent & fin & q' & s4 & He & Hc & Hp & Hfin).
  rewrite He. exists q', sent, fin, ((fun t => tuple t) <$> out), ((fun t => tuple t) <$> D). split_and!; [done|done| | |done|].
  - by eapply keeps_to_rows.
  - destruct Hbd as [->|(b & E & Hbl)]; [by left|right]. exists b. by rewrite length_fmap.
  - destruct Hfin as [?|(-> & Hst & [?|?])]; [by left|done|right; eauto].
Qed.

(** ** The workers' streams *)

Definition feeds_queue (keys : keys_t) (qs : list Queue) (w : nat) (l : list (SortTuple MinimalTuple)) : Prop :=
  exists q ps rest, qs !! w = Some q /\ q_cells q = (CTuple <$> ps) ++ CLast :: rest /\ l = (fun p => prl_tuple keys (tuple p)) <$> ps.

#[export] Instance queue_source : MergeSource fetch_from_worker feeds_queue.
Proof.
  split.
  - intros k qs w (q & ps & rest & Hq & Hc & Hl). destruct ps; [|done]. eexists. unfold fetch_from_worker, queue_get. rewrite Hq, Hc.
    split; [reflexivity|]. intros w' l Hne (q' & ps & rest' & H). exists q', ps, rest'. by rewrite list_lookup_insert_ne.
  - intros k qs w x l (q & ps & rest & Hq & Hc & Hl). destruct ps as [|p ps]; [done|]. rewrite fmap_cons in Hl. injection Hl as -> ->.
    eexists _, _. unfold fetch_from_worker, queue_get. rewrite Hq, Hc. split; [reflexivity|]. split; [done|]. split.
    + eexists _, ps, rest. rewrite list_lookup_insert_eq by (by eapply lookup_lt_Some). done.
    + intros w' l Hne (q' & ps' & rest' & H). exists q', ps', rest'. by rewrite list_lookup_insert_ne.
Qed.

(** What the worker of a queue with [rows] sends: [out], having dropped [D]. *)
Definition worker_result (pars : SortParams) (rows out D : list MinimalTuple) : Prop :=
  keeps_rows (sp_keys pars) out D rows /\ (D = [] \/ exists b, sp_bound pars = Some b /\ Z.of_nat (length out) = b).

Definition delivers (q : Queue) (out : list MinimalTuple) : Prop :=
  exists sent : list PrlSortTuple, q_cells q = (CTuple <$> sent) ++ [CLast] /\ (fun t => tuple t) <$> sent = out.

Lemma run_workers_ok pars fuel : forall shares,
  good_params pars -> Forall (fun rows => Forall row_fits rows /\ length rows < fuel) shares ->
  exists qs outs, run_workers pars fuel ((fun rows => mkQueue ((cell_of (sp_keys pars) <$> rows) ++ [CLast]) false) <$> shares) = Ok qs /\
    Forall2 delivers qs (outs.*1) /\
    Forall2 (fun rows od => worker_result pars rows (od.1) (od.2)) shares outs.
Proof.
  induction shares as [|rows shares IH]; intros Hg Hfit.
  - exists [], []. split_and!; [done|constructor|constructor].
  - apply Forall_cons in Hfit as [[Hfit Hfu] Hfits]. rewrite fmap_cons. cbn [run_workers].
    destruct (doSort_ok pars (fun _ => false) fuel rows Hg Hfit Hfu) as (q' & sent & fin & out & D & He & Hc & Hk & Hb & Hp & Hfin).
    rewrite He. destruct (IH Hg Hfits) as (qs & outs & Hr & H1 & H2). rewrite Hr. exists (q' :: qs), ((out, D) :: outs).
    destruct Hfin as [[-> Hfin]|(_ & _ & [j ?])]; [|done]. split_and!; [done|constructor; [by exists sent|done]|constructor; done].
Qed.

(** ** The whole *)

(** The leader after the workers have run, before the merge. *)
Lemma ready_to_merge pars n (s : tss) a lw qs (L : list (list MinimalTuple)) :
  scanKeys s = sp_keys pars -> memtupcount s = 0 -> memtupsize s = 1024 -> length L = n -> n <= 1024 ->
  Forall2 delivers qs L ->
  merge_inv (SM := SM) feeds_queue (sp_keys pars) 0 (mkPrl (set_availMem a s) n lw (replicate n false) false qs)
    ((fun out : list MinimalTuple => prl_tuple (sp_keys pars) <$> out) <$> L).
Proof.
  intros Hk Hc Hm Hl Hn HF. split; simpl.
  - done.
  - unfold heap_inv, memtupsize, in_heap. simpl. rewrite Hc. split_and!; [apply heap_ok_0|lia|constructor].
  - rewrite length_fmap. unfold memtupsize in *. simpl. lia.
  - unfold in_heap. simpl. by rewrite Hc.
  - intros w r Hr. apply list_lookup_fmap_Some in Hr as (out & -> & Hw).
    destruct (Forall2_lookup_r _ _ _ _ _ HF Hw) as (q & Hq & sent & Hcs & Hs).
    split; [apply lookup_replicate_2; apply lookup_lt_Some in Hw; lia|].
    exists q, sent, []. split_and!; [done|done|]. rewrite <- Hs, <- list_fmap_compose. done.
Qed.

Lemma concat_fmap_fmap {A B} (f : A -> B) (L : list (list A)) : concat ((fun l : list A => f <$> l) <$> L) = f <$> concat L.
Proof. induction L as [|l L IH]; [done|]. rewrite fmap_cons. simpl. by rewrite IH, fmap_app. Qed.

Definition shares (n : nat) (rows : list MinimalTuple) : list (list MinimalTuple) := (fun w => share n w 0 rows) <$> seq 0 n.

Lemma parallel_sort_ok pars n rows calls :
  good_params pars -> 1 <= n <= 1024 -> Forall row_fits rows ->
  exists out rest outs, parallel_sort n pars rows calls = Ok out /\
    keeps_rows (sp_keys pars) out rest (concat (outs.*1)) /\ length out = Nat.min calls (length (concat (outs.*1))) /\
    Forall2 (fun rs od => worker_result pars rs (od.1) (od.2)) (shares n rows) outs.
Proof.
  intros Hg Hn Hfit. pose proof Hg as (Hk & _).
  destruct (begin_sort_ok pars Hg) as (s & Hbeg & _ & Hks & Hcs & Hms).
  unfold parallel_sort. rewrite Hbeg.
  destruct (distribute_all_ok n rows 0 (with_workers n s)) as (a & lw & qs & Hd & Hlq & Hqs);
    [lia|done|simpl; by rewrite length_replicate|simpl; lia|simpl; by rewrite Nat.Div0.mod_0_l|].
  rewrite (mbind_ok _ _ _ _ _ Hd). unfold mbind at 1, M_bind at 1, mget. cbn [src].
  assert (Hqs' : qs = (fun rs => mkQueue ((cell_of (sp_keys pars) <$> rs) ++ [CLast]) false) <$> shares n rows).
  { apply list_eq. intros w. unfold shares. rewrite !list_lookup_fmap. destruct (decide (w < n)) as [Hw|Hw].
    - rewrite lookup_seq_lt by done. simpl. rewrite (Hqs w (mkQueue [] false)) by (by apply lookup_replicate_2). simpl. by rewrite Hks.
    - rewrite lookup_seq_ge by lia. simpl. apply lookup_ge_None. lia. }
  destruct (run_workers_ok pars (S (length rows)) (shares n rows) Hg) as (qs1 & outs & Hrun & HF & HW).
  { apply Forall_forall. intros rs Hrs. apply list_elem_of_fmap in Hrs as (w & -> & Hw%elem_of_seq).
    split; [by apply share_Forall|]. pose proof (share_le n w 0 rows). lia. }
  rewrite <- Hqs' in Hrun. unfold mbind at 1, M_bind at 1. cbn [src]. rewrite Hrun. unfold mbind at 1, M_bind at 1, mput. unfold set_src. cbn.
  assert (Hlo : length (outs.*1) = n) by (apply Forall2_length in HW; unfold shares in HW; rewrite length_fmap, length_seq in HW; by rewrite length_fmap).
  pose proof (ready_to_merge pars n s a lw qs1 (outs.*1) Hks Hcs Hms Hlo ltac:(lia) HF) as HI.
  set (rem := _ <$> outs.*1) in HI. assert (Hlr : length rem = n) by (unfold rem; by rewrite length_fmap).
  destruct (merge_prepare_ok (SM := SM) sort_functions fetch_from_worker feeds_queue _ _ _ Hk HI) as (st1 & Hp & HM & _); [done|done|].
  unfold prepareForMerge. rewrite (mbind_ok _ _ _ _ _ Hp).
  destruct (get_slots_ok (SM := SM) sort_functions fetch_from_worker feeds_queue _ calls _ _ Hk HM) as (o & rem' & st2 & Hget & _ & Hperm & Hlen & Hs & Ho).
  { apply Forall_fmap, Forall_fmap, Forall_forall. intros od Hod. apply sorted_prl_tuple.
    apply list_elem_of_lookup in Hod as [w Hw]. by destruct (Forall2_lookup_r _ _ _ _ _ HW Hw) as (rs & _ & (_ & Hsort & _) & _). }
  rewrite Hget. exists ((fun t => tuple t) <$> o), ((fun t => tuple t) <$> concat rem'), outs. split; [done|].
  unfold rem in Hperm, Hlen. rewrite concat_fmap_fmap in Hperm, Hlen. split; [|split; [by rewrite length_fmap, Hlen, length_fmap|done]].
  eapply (keeps_to_rows _ chunk_space overhead _ (tupindex junk)); [|done]. split; [|done]. by rewrite <- fmap_app, <- Hperm.
Qed.

(** What the workers sent and what they dropped are together the input. *)
Lemma workers_perm pars rss outs :
  Forall2 (fun rs od => worker_result pars rs (od.1) (od.2)) rss outs -> concat (outs.*1) ++ concat (outs.*2) ≡ₚ concat rss.
Proof.
  induction 1 as [|rs [o D] rss outs [[Hp _] _] HF IH]; [done|]. rewrite !fmap_cons. simpl in *. rewrite <- IH, <- Hp.
  rewrite <- !app_assoc. apply Permutation_app_head. rewrite !app_assoc. apply Permutation_app_tail, Permutation_app_comm.
Qed.

Lemma parallel_sort_plain pars n rows :
  good_params pars -> sp_bound pars = None -> 1 <= n <= 1024 -> Forall row_fits rows ->
  exists out, parallel_sort n pars rows (S (length rows)) = Ok out /\ out ≡ₚ rows /\ sorted (row_cmp (sp_keys pars)) out.
Proof.
  intros Hg Hb Hn Hfit. destruct (parallel_sort_ok pars n rows (S (length rows)) Hg Hn Hfit) as (out & rest & outs & He & (Hp & Hs & _) & Hl & HW).
  exists out. split; [done|]. split; [|done].
  assert (HD : concat (outs.*2) = []).
  { clear - HW Hb. induction HW as [|rs [o D] rss outs [_ HD] HF IH]; [done|]. rewrite fmap_cons. simpl in *. rewrite IH, app_nil_r.
    destruct HD as [|(b & ? & _)]; [done|congruence]. }
  pose proof (workers_perm _ _ _ HW) as Hw. rewrite HD, app_nil_r in Hw. unfold shares in Hw. rewrite shares_perm in Hw by lia.
  pose proof (Permutation_length Hw) as Hlen. pose proof (Permutation_length Hp) as Hlp. rewrite length_app in Hlp.
  assert (rest = []) as -> by (apply nil_length_inv; lia). rewrite app_nil_r in Hp. by rewrite Hp.
Qed.

Lemma filter_all {A} (P : A -> Prop) `{forall x, Decision (P x)} (l : list A) : (forall z, z ∈ l -> P z) -> filter P l = l.
Proof. induction l as [|z l IH]; intros Hl; [done|]. rewrite filter_cons_True by (apply Hl; by left). by rewrite IH by (intros; apply Hl; by right). Qed.
Lemma filter_none {A} (P : A -> Prop) `{forall x, Decision (P x)} (l : list A) : (forall z, z ∈ l -> ~ P z) -> filter P l = [].
Proof. induction l as [|z l IH]; intros Hl; [done|]. rewrite filter_cons_False by (apply Hl; by left). by rewrite IH by (intros; apply Hl; by right). Qed.

(** Rows a worker dropped are not smaller than what the leader returned. *)
Lemma dropped_not_smaller pars (out rest o others L D : list MinimalTuple) b :
  good_params pars -> keeps_rows (sp_keys pars) out rest L -> (forall x y, x ∈ o -> y ∈ D -> (row_cmp (sp_keys pars) x y <= 0)%Z) ->
  L ≡ₚ o ++ others -> length out <= b -> D = [] \/ length o = b ->
  forall x y, x ∈ out -> y ∈ D -> (row_cmp (sp_keys pars) x y <= 0)%Z.
Proof.
  intros (Hk & _) (Hp & _ & Hr) Ho Hsub Hb HD x y Hx Hy. pose proof (row_cmp_laws heap_getattr chunk_space overhead _ Hk) as HC.
  destruct HD as [->|Hlo]; [by apply elem_of_nil in Hy|].
  destruct (decide (row_cmp (sp_keys pars) x y <= 0)%Z) as [|Hgt]; [done|exfalso].
  set (P := fun z => (row_cmp (sp_keys pars) z x < 0)%Z).
  assert (HoP : filter P o = o).
  { apply filter_all. intros z Hz. unfold P. apply (cmp_lt_trans_r _ z y x); [by apply Ho|]. pose proof (cmp_sgn x y). lia. }
  assert (HrP : filter P rest = []).
  { apply filter_none. intros z Hz. unfold P. specialize (Hr x z Hx Hz). pose proof (cmp_sgn x z). lia. }
  assert (Hlt : length (filter P out) < length out).
  { apply (length_filter_lt P _ x Hx). unfold P. rewrite cmp_refl by done. lia. }
  rewrite Hsub in Hp. pose proof (filter_Permutation P _ _ Hp) as Hf. rewrite !filter_app, HrP, HoP, app_nil_r in Hf.
  apply Permutation_length in Hf. rewrite length_app in Hf. lia.
Qed.

Lemma elem_of_workers pars rss outs y :
  Forall2 (fun rs od => worker_result pars rs (od.1) (od.2)) rss outs -> y ∈ concat (outs.*2) ->
  exists o D rs others, y ∈ D /\ worker_result pars rs o D /\ concat (outs.*1) ≡ₚ o ++ others.
Proof.
  induction 1 as [|rs [o D] rss outs Hw HF IH]; [by intros ?%elem_of_nil|]. rewrite !fmap_cons. simpl.
  intros [Hy|Hy]%elem_of_app; [by exists o, D, rs, (concat outs.*1)|].
  destruct (IH Hy) as (o' & D' & rs' & others & Hy' & Hw' & Hp). exists o', D', rs', (o ++ others). split_and!; [done|done|].
  rewrite Hp, !app_assoc. apply Permutation_app_tail, Permutation_app_comm.
Qed.

Lemma workers_enough pars b rss outs :
  sp_bound pars = Some b -> Forall2 (fun rs od => worker_result pars rs (od.1) (od.2)) rss outs ->
  Nat.min (Z.to_nat b) (length (concat rss)) <= length (concat (outs.*1)).
Proof.
  intros Hb. induction 1 as [|rs [o D] rss outs [[Hp _] HD] HF IH]; [simpl; lia|]. rewrite fmap_cons. simpl in *.
  rewrite !length_app. apply Permutation_length in Hp. rewrite length_app in Hp.
  destruct HD as [->|(b' & ? & ?)]; [simpl in Hp; lia|]. assert (b' = b) by congruence. lia.
Qed.

Lemma parallel_sort_bounded pars n rows b :
  good_params pars -> sp_bound pars = Some b -> 1 <= n <= 1024 -> Forall row_fits rows ->
  exists out rest, parallel_sort n pars rows (Nat.min (Z.to_nat b) (length rows)) = Ok out /\
    length out = Nat.min (Z.to_nat b) (length rows) /\ keeps_rows (sp_keys pars) out rest rows.
Proof.
  intros Hg Hb Hn Hfit. set (m := Nat.min (Z.to_nat b) (length rows)).
  destruct (parallel_sort_ok pars n rows m Hg Hn Hfit) as (out & rest & outs & He & HK & Hl & HW). pose proof HK as (Hp & Hs & Hr).
  pose proof (workers_perm _ _ _ HW) as Hw. pose proof (workers_enough pars b _ _ Hb HW) as Hen.
  unfold shares in Hw, Hen. rewrite shares_perm in Hw, Hen by lia.
  exists out, (rest ++ concat (outs.*2)). split; [done|]. split; [lia|]. split_and!; [|done|].
  - rewrite <- Hw, <- Hp. by rewrite app_assoc.
  - intros x y Hx [Hy|Hy]%elem_of_app; [by apply Hr|].
    destruct (elem_of_workers _ _ _ _ HW Hy) as (o & D & rs & others & HyD & ((_ & _ & Ho) & HD) & HL).
    apply (dropped_not_smaller pars out rest o others (concat (outs.*1)) D (Z.to_nat b)); try done; [lia|].
    destruct HD as [->|(b' & ? & ?)]; [by left|right]. assert (b' = b) by congruence. lia.
Qed.
End Parallel.

(** ** What the merge leaves of the sort state *)

Section Status.
Context {T K Src : Type} `{SM : !SortMethods T K}.
Context (fetch : K -> nat -> M Src (option (SortTuple T))).
Local Abbreviation state := (PrlState T K Src).

(** A computation that leaves the status and the random access flag alone. *)
Definition keeps_status {A} (m : M state A) : Prop := forall s a s', m s = Ok (a, s') ->
  status (sub s') = status (sub s) /\ randomAccess (sub s') = randomAccess (sub s).

Lemma keeps_status_bind {A B} (m : M state A) (f : A -> M state B) :
  keeps_status m -> (forall a, keeps_status (f a)) -> keeps_status (m ≫= f).
Proof.
  intros Hm Hf s b s' Hr. apply mbind_inv in Hr as (a & s1 & H1 & H2).
  destruct (Hm _ _ _ H1) as [E1 E2], (Hf _ _ _ _ H2) as [E3 E4]. split; congruence.
Qed.
Lemma keeps_status_ret {A} (a : A) : keeps_status (mret a).
Proof. by intros s b s' [= <- <-]. Qed.
Lemma keeps_status_get : keeps_status mget.
Proof. by intros s b s' [= <- <-]. Qed.
Lemma keeps_status_deref {A} (o : option A) : keeps_status (deref o).
Proof. intros s b s'. unfold deref. destruct o; [by intros [= <- <-]|done]. Qed.
Lemma keeps_status_src {A} (m : M Src A) : keeps_status (on_src m).
Proof. intros s b s'. unfold on_src. destruct (m (src s)) as [[a v]|e]; [by intros [= <- <-]|done]. Qed.
Lemma keeps_status_insert t i : keeps_status (on_sub (tuplesort_heap_insert t i false)).
Proof.
  intros s b s'. unfold on_sub, tuplesort_heap_insert, mbind, M_bind, mget, lift_res. destruct (heap_insert _ _ _ _) as [[mt n]|]; [|done].
  by intros [= <- <-].
Qed.
Lemma keeps_status_siftup : keeps_status (on_sub (tuplesort_heap_siftup false)).
Proof.
  intros s b s'. unfold on_sub, tuplesort_heap_siftup, mbind, M_bind, mget, lift_res. destruct (heap_siftup _ _ _) as [[mt n]|]; [|done].
  by intros [= <- <-].
Qed.
Lemma keeps_status_finished w : keeps_status (set_finished w : M state unit).
Proof. intros s b s'. unfold set_finished, mbind, M_bind, mget, mput, mfail. case_decide; [by intros [= <- <-]|done]. Qed.
Lemma keeps_status_end : keeps_status (end_if_empty : M state unit).
Proof. intros s b s'. unfold end_if_empty, mbind, M_bind, mget, mput, mret, M_ret. case_bool_decide; by intros [= <- <-]. Qed.

Create HintDb status.
Hint Resolve keeps_status_ret keeps_status_get keeps_status_deref keeps_status_src keeps_status_insert
  keeps_status_siftup keeps_status_finished keeps_status_end : status.
Ltac status := repeat first [solve [auto with status] | apply keeps_status_bind; [|intros ?] | case_match].

Lemma merge_prepare_status : keeps_status (merge_prepare fetch).
Proof.
  assert (Hf : forall k cw, keeps_status (fetch_first fetch k cw)) by (induction k as [|k IH]; intros cw; cbn [fetch_first]; status).
  unfold merge_prepare. status.
Qed.
Lemma get_slots_status n : keeps_status (get_slots fetch n).
Proof. induction n as [|n IH]; cbn [get_slots]; unfold merge_next; status. Qed.
End Status.

(** ** Properties *)

(** C1: The parallel sort is correct.  With any number of workers from 1 to 1024 (the size of the leader's heap) and any work_mem that has
    room for the first array of tuples, whether the workers sort in memory or on tapes, the whole of it returns without an error: what the
    leader fetches after dealing out the rows, the sorts of the workers and the merge is a sorted
    permutation of the input. *)
Theorem parallel_sort_correct heap_getattr chunk_space overhead junk n pars rows :
  good_params overhead pars -> sp_bound pars = None -> 1 <= n <= 1024 -> Forall row_fits rows ->
  exists out, parallel_sort heap_getattr chunk_space overhead junk n pars rows (S (length rows)) = Ok out /\
    out ≡ₚ rows /\ sorted (row_cmp heap_getattr (sp_keys pars)) out.
Proof. intros. by apply parallel_sort_plain. Qed.

(** C10: Parallel LIMIT.  When the sort has a bound, which every worker applies to its own share, the first [b] fetches
    return the [b] smallest rows of the whole input in order: no row that was left out,
    or dropped by a worker, is smaller than one that was returned. *)
Theorem parallel_sort_limit heap_getattr chunk_space overhead junk n pars rows b :
  good_params overhead pars -> sp_bound pars = Some b -> 1 <= n <= 1024 -> Forall row_fits rows ->
  exists out rest,
    parallel_sort heap_getattr chunk_space overhead junk n pars rows (Nat.min (Z.to_nat b) (length rows)) = Ok out /\
    length out = Nat.min (Z.to_nat b) (length rows) /\ out ++ rest ≡ₚ rows /\ sorted (row_cmp heap_getattr (sp_keys pars)) out /\
    (forall x y, x ∈ out -> y ∈ rest -> (row_cmp heap_getattr (sp_keys pars) x y <= 0)%Z).
Proof. intros Hg Hb Hn Hf. destruct (parallel_sort_bounded heap_getattr chunk_space overhead junk pars n rows b Hg Hb Hn Hf) as (out & rest & ? & ? & ? & ? & ?). by exists out, rest. Qed.

(** C21: Round robin.  distributeToWorker deals [rows] out so that the queue of worker [w] gets exactly the rows number
    w, w + n, w + 2n, ... in their order, followed by the last cell; the shares make up the input,
    and their sizes differ by one at most. *)
Theorem distribute_round_robin heap_getattr chunk_space n rows (s : Tuplesortstate MinimalTuple (list ScanKeyData)) :
  0 < n ->
  exists st', distribute_all heap_getattr chunk_space rows (with_workers n s) = Ok (tt, st') /\
    (forall w, w < n -> src st' !! w = Some (mkQueue ((cell_of heap_getattr (scanKeys s) <$> share n w 0 rows) ++ [CLast]) false)) /\
    concat (shares n rows) ≡ₚ rows /\
    (forall w, w < n -> length (share n w 0 rows) = (length rows + (n - 1 - w)) / n).
Proof.
  intros Hn. destruct (distribute_all_ok heap_getattr chunk_space n rows 0 (with_workers n s)) as (a & lw & qs & Hd & Hlq & Hqs);
    [lia|done|simpl; by rewrite length_replicate|simpl; lia|simpl; by rewrite Nat.Div0.mod_0_l|].
  eexists. split; [exact Hd|]. split_and!.
  - intros w Hw. cbn [src]. by rewrite (Hqs w (mkQueue [] false)) by (by apply lookup_replicate_2).
  - apply shares_perm. lia.
  - intros w Hw. by apply share_length.
Qed.

(** C23: A worker.  doSort on a queue with [rows] and the last cell terminates and answers with a prefix of the rows in sorted order,
    of which a bounded sort has dropped none smaller than those kept.  The answer
    ends with the last cell and is complete unless the leader asked to stop. *)
Theorem worker_sorts_and_sends heap_getattr chunk_space overhead junk pars stopped rows :
  good_params overhead pars -> Forall row_fits rows ->
  exists q' sent fin out D,
    doSort heap_getattr chunk_space overhead junk pars stopped (S (length rows))
      (mkQueue ((cell_of heap_getattr (sp_keys pars) <$> rows) ++ [CLast]) false) = Ok q' /\
    q_cells q' = (CTuple <$> sent) ++ fin /\ keeps_rows heap_getattr (sp_keys pars) out D rows /\
    (fun t => tuple t) <$> sent `prefix_of` out /\
    ((fin = [CLast] /\ (fun t => tuple t) <$> sent = out) \/ (fin = [] /\ q_stop q' = true /\ exists j, stopped j = true)).
Proof.
  intros Hg Hf. destruct (doSort_ok heap_getattr chunk_space overhead junk pars stopped (S (length rows)) rows Hg Hf ltac:(lia))
    as (q' & sent & fin & out & D & H1 & H2 & H3 & _ & H5 & H6). by exists q', sent, fin, out, D.
Qed.

(** C9: The merge.  From any sources of sorted streams, at most as many as the heap has room for, the leader's fetches return
    the tuples of all streams in order: whatever the number of fetches, what was
    returned is sorted, nothing is lost, and no tuple still to come is smaller. *)
Theorem merge_sorts_streams {T K Src} `{SM : !SortMethods T K} (valid : K -> Prop) `{HL : !SortMethodsLaws SM valid}
    fetch feeds `{HF : !MergeSource (T := T) (K := K) (Src := Src) fetch feeds} k (st : PrlState T K Src) rem n :
  valid k -> merge_inv feeds k 0 st rem -> workersCnt st = length rem -> isParallelEnded st = false ->
  Forall (sorted (comparetup k)) rem ->
  exists outs later st', (merge_prepare fetch;; get_slots fetch n) st = Ok ((fun t => tuple t) <$> outs, st') /\
    outs ++ later ≡ₚ concat rem /\ length outs = Nat.min n (length (concat rem)) /\ sorted (comparetup k) outs /\
    (forall x y, x ∈ outs -> y ∈ later -> (comparetup k x y <= 0)%Z).
Proof.
  intros Hv HI Hc Hp Hs. destruct (merge_prepare_ok valid fetch feeds k st rem Hv HI Hc Hp) as (st1 & He & HM & _).
  rewrite (mbind_ok _ _ _ _ _ He). destruct (get_slots_ok valid fetch feeds k n st1 rem Hv HM Hs) as (outs & rem' & st2 & Hg & _ & Hp2 & Hl & Hso & Ho).
  by exists outs, (concat rem'), st2.
Qed.

(** C40: A parallel sort has no positions.  The leader's own sort state stays in TSS_INITIAL, through the merge and any
    number of fetches, so that rescanning, marking or restoring a position fails, also when
    random access was asked for. *)
Theorem parallel_positions_fail {T K Src} `{SM : !SortMethods T K} fetch (s0 s : PrlState T K Src) calls out :
  status (sub s0) = TSS_INITIAL -> (merge_prepare fetch;; get_slots fetch calls) s0 = Ok (out, s) ->
  let failure := Err (if randomAccess (sub s0) then EElog "invalid tuplesort state" else EAssert) in
  tuplesort_rescan (sub s) = failure /\ tuplesort_markpos (sub s) = failure /\ tuplesort_restorepos (sub s) = failure.
Proof.
  intros Hs Hr. apply mbind_inv in Hr as (u & s1 & H1 & H2).
  apply merge_prepare_status in H1 as [E1 E2]. apply get_slots_status in H2 as [E3 E4].
  assert (E : status (sub s) = TSS_INITIAL) by congruence.
  assert (R : randomAccess (sub s) = randomAccess (sub s0)) by congruence.
  unfold tuplesort_rescan, tuplesort_markpos, tuplesort_restorepos, mbind, M_bind, mget, Assert. rewrite E, R.
  by destruct (randomAccess (sub s0)).
Qed.

(** ** Witnesses *)

Definition demo_input : list MinimalTuple := [[1; 5]; [4; 9]; [3; 5]; [2; 7]; [9; 9]; [7; 1]; [2; 2]]%Z.
Definition demo_pars (b : option Z) : SortParams := mkSortParams demo_keys 200 false true b.
Lemma demo_pars_good b : b = None \/ b = Some 2%Z -> good_params 16 (demo_pars b).
Proof.
  intros Hb. split; [exact demo_keys_ok|]. split; [done|]. split; [vm_compute; discriminate|]. simpl. intros b' ->. destruct Hb as [|[= ->]]; [done|]. vm_compute. by split.
Qed.
Lemma demo_input_fits : Forall row_fits demo_input.
Proof. by repeat constructor. Qed.

Lemma parallel_sort_correct_witness :
  exists out, parallel_sort demo_getattr (fun _ => 32%Z) 16 demo_junk 3 (demo_pars None) demo_input 8 = Ok out /\
    out = [[4; 9]; [9; 9]; [2; 7]; [1; 5]; [3; 5]; [2; 2]; [7; 1]]%Z /\ sorted (row_cmp demo_getattr demo_keys) out.
Proof.
  destruct (parallel_sort_correct demo_getattr (fun _ => 32%Z) 16 demo_junk 3 (demo_pars None) demo_input)
    as (out & He & _ & Hs); [apply demo_pars_good; by left|done|lia|apply demo_input_fits|].
  exists out. split; [exact He|]. split; [|exact Hs]. vm_compute in He. injection He as <-. reflexivity.
Defined.

Lemma parallel_sort_limit_witness :
  exists out, parallel_sort demo_getattr (fun _ => 32%Z) 16 demo_junk 3 (demo_pars (Some 2%Z)) demo_input 2 = Ok out /\
    out = [[4; 9]; [9; 9]]%Z.
Proof.
  destruct (parallel_sort_limit demo_getattr (fun _ => 32%Z) 16 demo_junk 3 (demo_pars (Some 2%Z)) demo_input 2)
    as (out & rest & He & _); [apply demo_pars_good; by right|done|lia|apply demo_input_fits|].
  exists out. split; [exact He|]. vm_compute in He. injection He as <-. reflexivity.
Defined.

Definition demo_leader : Tuplesortstate MinimalTuple (list ScanKeyData) := set_memtuples (replicate 4 demo_junk) demo_state.
Lemma distribute_round_robin_witness :
  exists st', distribute_all demo_getattr (fun _ => 32%Z) demo_input (with_workers 3 demo_leader) = Ok (tt, st') /\
    src st' !! 1 = Some (mkQueue [cell_of demo_getattr demo_keys [4; 9]%Z; cell_of demo_getattr demo_keys [9; 9]%Z; CLast] false).
Proof.
  destruct (distribute_round_robin demo_getattr (fun _ => 32%Z) 3 demo_input demo_leader ltac:(lia)) as (st' & He & Hq & _).
  exists st'. split; [exact He|]. exact (Hq 1 ltac:(lia)).
Defined.

Lemma worker_sorts_and_sends_witness :
  exists q' sent fin, doSort demo_getattr (fun _ => 32%Z) 16 demo_junk (demo_pars None) (fun _ => false) 3
      (mkQueue [cell_of demo_getattr demo_keys [2; 7]%Z; cell_of demo_getattr demo_keys [4; 9]%Z; CLast] false) = Ok q' /\
    q_cells q' = (CTuple <$> sent) ++ fin /\ fin = [CLast] /\ (fun t => tuple t) <$> sent = [[4; 9]; [2; 7]]%Z.
Proof.
  destruct (worker_sorts_and_sends demo_getattr (fun _ => 32%Z) 16 demo_junk (demo_pars None) (fun _ => false) [[2; 7]; [4; 9]]%Z)
    as (q' & sent & fin & out & D & He & Hc & _ & _ & Hfin); [apply demo_pars_good; by left|by repeat constructor|].
  exists q', sent, fin. split; [exact He|]. split; [exact Hc|]. destruct Hfin as [[Hf _]|(_ & _ & j & Hj)]; [|discriminate].
  split; [exact Hf|]. rewrite Hf in Hc. vm_compute in He. injection He as <-.
  destruct sent as [|a [|b [|c sent]]]; try discriminate Hc. injection Hc as <- <-. reflexivity.
Defined.

(** Two sorts of the same process, merged. *)
Definition demo_half (rows : list (list Z)) : Tuplesortstate MinimalTuple (list ScanKeyData) :=
  set_status TSS_SORTEDINMEM (set_memtupcount (length rows) (set_memtuples (demo_tuple <$> rows) demo_state)).
Definition demo_halves : list (option (Tuplesortstate MinimalTuple (list ScanKeyData))) :=
  [Some (demo_half [[4; 9]; [1; 5]]%Z); Some (demo_half [[9; 9]; [2; 7]]%Z)].
Definition demo_merging : PrlState MinimalTuple (list ScanKeyData) (list (option (Tuplesortstate MinimalTuple (list ScanKeyData)))) :=
  mkPrl demo_leader 2 (-1) [false; false] false demo_halves.
Definition demo_streams : list (list (SortTuple MinimalTuple)) :=
  [demo_tuple <$> [[4; 9]; [1; 5]]%Z; demo_tuple <$> [[9; 9]; [2; 7]]%Z].

Lemma demo_merge_inv : merge_inv (SM := demo_methods) (feeds_lts (SM := demo_methods) false) demo_keys 0 demo_merging demo_streams.
Proof.
  split; [done| |simpl; unfold memtupsize; simpl; lia|done|].
  - split_and!; [apply heap_ok_0|simpl; lia|constructor].
  - intros [|[|w]] r Hw; simpl in Hw; simplify_eq; (split; [done|]).
    + exists (demo_half [[4; 9]; [1; 5]]%Z). split; [done|]. apply (yields_in_memory (SM := demo_methods) false (demo_half [[4; 9]; [1; 5]]%Z)); [done|unfold memtupsize; simpl; lia|simpl; lia|by right].
    + exists (demo_half [[9; 9]; [2; 7]]%Z). split; [done|]. apply (yields_in_memory (SM := demo_methods) false (demo_half [[9; 9]; [2; 7]]%Z)); [done|unfold memtupsize; simpl; lia|simpl; lia|by right].
Qed.

Lemma merge_sorts_streams_witness :
  exists outs st', (merge_prepare (SM := demo_methods) (fetch_lts (SM := demo_methods) false true);;
      get_slots (SM := demo_methods) (fetch_lts (SM := demo_methods) false true) 3) demo_merging = Ok ((fun t => tuple t) <$> outs, st') /\
    sorted (comparetup_heap demo_getattr demo_keys) outs /\ (fun t => tuple t) <$> outs = [[4; 9]; [9; 9]; [2; 7]]%Z.
Proof.
  destruct (merge_sorts_streams (SM := demo_methods) sort_functions (fetch_lts (SM := demo_methods) false true) (feeds_lts (SM := demo_methods) false)
    demo_keys demo_merging demo_streams 3 demo_keys_ok demo_merge_inv eq_refl eq_refl) as (outs & later & st' & He & _ & _ & Hs & _).
  - repeat constructor; vm_compute; discriminate.
  - exists outs, st'. split; [exact He|]. split; [exact Hs|]. vm_compute in He. injection He as Ho _. vm_compute. symmetry. exact Ho.
Defined.

Lemma parallel_positions_fail_witness :
  exists out s, (merge_prepare (SM := demo_methods) (fetch_lts (SM := demo_methods) false true);;
      get_slots (SM := demo_methods) (fetch_lts (SM := demo_methods) false true) 3) demo_merging = Ok (out, s) /\
    tuplesort_rescan (sub s) = Err (EElog "invalid tuplesort state").
Proof.
  eexists _, _. split; [vm_compute; reflexivity|].
  refine (proj1 (parallel_positions_fail (SM := demo_methods) (fetch_lts (SM := demo_methods) false true) demo_merging _ 3 _ eq_refl _)).
  vm_compute. reflexivity.
Defined.
