(* ===== verification/Workers.v ===== *)
(** * Workers: the life of the workers of a sort

    The control path of a parallel sort: the states of a worker (src/include/storage/parallel.h), the operations on
    them (waitForWorkers, stateTransition, waitForAllWorkers, waitForState of src/backend/storage/lmgr/parallel.c),
    the main loop of a worker (slaveBackendMain and doSort of src/backend/postmaster/slaveworker.c) and the
    leader (ExecSort and ExecEndSort of src/backend/executor/nodeSort.c), as processes that run at the same time.

    A loop that polls is a step that is possible when its condition holds.  Of a queue only the number of cells and
    which of them are the last ones is kept; [N] is its capacity.  The contents of the cells are the subject of
    ParallelSort, and the steps inside an operation on a queue that of BufferQueue. *)

From S2P Require Import Prelude.

Inductive PRL_WORKER_STATE :=
| PRL_WORKER_STATE_NONE | PRL_WORKER_STATE_INITIAL | PRL_WORKER_STATE_READY | PRL_WORKER_STATE_WORKING
| PRL_WORKER_STATE_FINISHED | PRL_WORKER_STATE_FINISHED_ACK | PRL_WORKER_STATE_END | PRL_WORKER_STATE_CANCELED
| PRL_WORKER_STATE_DEAD.
#[export] Instance PRL_WORKER_STATE_eq_dec : EqDecision PRL_WORKER_STATE.
Proof. solve_decision. Defined.

Inductive PRL_WORK_TYPE := PRL_WORK_TYPE_SORT | PRL_WORK_TYPE_QUERY | PRL_WORK_TYPE_TEST | PRL_WORK_TYPE_END.
#[export] Instance PRL_WORK_TYPE_eq_dec : EqDecision PRL_WORK_TYPE.
Proof. solve_decision. Defined.

(** The fields of a Worker and of its WorkDef that the protocol uses. *)
Record Worker := mkWorker { valid : bool; state : PRL_WORKER_STATE; jobId : Z; workType : PRL_WORK_TYPE }.
Definition set_state (st : PRL_WORKER_STATE) (w : Worker) : Worker := mkWorker (valid w) st (jobId w) (workType w).

(** ** The operations on the list of workers *)

(** worker->valid && worker->state == state && worker->work->jobId == jobId *)
Definition in_state (job : Z) (st : PRL_WORKER_STATE) (w : Worker) : bool :=
  valid w && bool_decide (state w = st) && (jobId w =? job)%Z.

(** readyCnt of one round of waitForWorkers *)
Fixpoint count_in_state (job : Z) (st : PRL_WORKER_STATE) (ws : list Worker) : nat :=
  match ws with
  | [] => 0
  | w :: ws' => (if in_state job st w then 1 else 0) + count_in_state job st ws'
  end.
(** The round after which waitForWorkers returns. *)
Definition waitForWorkers (job : Z) (workersCnt : nat) (st : PRL_WORKER_STATE) (ws : list Worker) : bool :=
  bool_decide (count_in_state job st ws = workersCnt).

(** The round after which waitForAllWorkers returns. *)
Definition waitForAllWorkers (st : PRL_WORKER_STATE) (ws : list Worker) : bool :=
  forallb (fun w => negb (valid w && (bool_decide (state w <> st) && bool_decide (state w <> PRL_WORKER_STATE_END)))) ws.

(** The number of workers that changed, and the list. *)
Fixpoint stateTransition (job : Z) (oldState newState : PRL_WORKER_STATE) (ws : list Worker) : nat * list Worker :=
  match ws with
  | [] => (0, [])
  | w :: ws' =>
    let '(counter, ws'') := stateTransition job oldState newState ws' in
    if in_state job oldState w then (S counter, set_state newState w :: ws'') else (counter, w :: ws'')
  end.

(** registerWorkers: the workers of the job that are initialised, in the order of the list; [None] when there are
    more of them than the array has room for. *)
Fixpoint ready_workers (job : Z) (i : nat) (ws : list Worker) : list nat :=
  match ws with
  | [] => []
  | w :: ws' => if in_state job PRL_WORKER_STATE_INITIAL w then i :: ready_workers job (S i) ws' else ready_workers job (S i) ws'
  end.
Definition registerWorkers (job : Z) (prl_level : nat) (ws : list Worker) : res (list nat) :=
  let workers := ready_workers job 0 ws in
  if decide (prl_level < length workers) then Err EUndef
  else if decide (length workers = prl_level) then Ok workers else Err EAssert.

(** One round of waitForState *)
Inductive round := Again | Reached | Canceled.
Definition waitForState (w : Worker) (st : PRL_WORKER_STATE) : round :=
  if decide (state w = st) then Reached
  else if decide (state w = PRL_WORKER_STATE_CANCELED) then Canceled
  else Again.
(** One round of waitForAndSet *)
Definition waitForAndSet (w : Worker) (st newState : PRL_WORKER_STATE) : round * Worker :=
  match waitForState w st with Reached => (Reached, set_state newState w) | r => (r, w) end.

(** ** Processes *)

(** Where a worker is.  [c] counts the tuples it has received, [k] those it has still to send. *)
Inductive wpc :=
| WForked                (* forkSlave has started it *)
| WWaitReady             (* in waitForState(worker, READY) *)
| WRecv (c : nat)        (* doSort: receiving *)
| WFinish (c : nat)      (* doSort: sorted, about to report *)
| WWaitAck (c : nat)     (* doSort: in waitForState(worker, FINISHED_ACK) *)
| WSend (k : nat)        (* doSort: sending back *)
| WEnd                   (* about to set END *)
| WDie                   (* the END job: about to set DEAD *)
| WExit.                 (* the process is gone *)

(** A worker process with what it shares with the leader: its Worker, its queue (for each cell whether it is the
    last one), the stop flag of the queue; and the leader's workersFinished entry for it. *)
Record wproc := mkProc { w_pc : wpc; w_shared : Worker; w_queue : list bool; w_stop : bool; w_finished : bool; w_sigint : bool }.
Definition set_pc (p : wpc) (w : wproc) : wproc := mkProc p (w_shared w) (w_queue w) (w_stop w) (w_finished w) (w_sigint w).
Definition set_shared (v : Worker) (w : wproc) : wproc := mkProc (w_pc w) v (w_queue w) (w_stop w) (w_finished w) (w_sigint w).
Definition set_wqueue (q : list bool) (w : wproc) : wproc := mkProc (w_pc w) (w_shared w) q (w_stop w) (w_finished w) (w_sigint w).
Definition set_wstop (b : bool) (w : wproc) : wproc := mkProc (w_pc w) (w_shared w) (w_queue w) b (w_finished w) (w_sigint w).
Definition set_wfinished (b : bool) (w : wproc) : wproc := mkProc (w_pc w) (w_shared w) (w_queue w) (w_stop w) b (w_sigint w).
Definition set_sigint (b : bool) (w : wproc) : wproc := mkProc (w_pc w) (w_shared w) (w_queue w) (w_stop w) (w_finished w) b.
Definition put_state (st : PRL_WORKER_STATE) (w : wproc) : wproc := set_shared (set_state st (w_shared w)) w.

(** What a worker can do next.  A sort with a bound sends fewer tuples than it received. *)
Definition worker_steps (N : nat) (w : wproc) : list wproc :=
  match w_pc w with
  | WForked =>
    [set_pc WWaitReady (set_shared (mkWorker true PRL_WORKER_STATE_INITIAL (jobId (w_shared w)) (workType (w_shared w))) w)]
  | WWaitReady =>
    match waitForState (w_shared w) PRL_WORKER_STATE_READY with
    | Reached => if decide (workType (w_shared w) = PRL_WORK_TYPE_END) then [set_pc WDie w] else [set_pc (WRecv 0) w]
    | Canceled => [set_pc WExit (put_state PRL_WORKER_STATE_CANCELED w)]
    | Again => []
    end
  | WRecv c =>
    match w_queue w with
    | [] => []
    | true :: q => [set_pc (WFinish c) (set_wqueue q w)]
    | false :: q => [set_pc (WRecv (S c)) (set_wqueue q w)]
    end
  | WFinish c => [set_pc (WWaitAck c) (put_state PRL_WORKER_STATE_FINISHED w)]
  | WWaitAck c =>
    match waitForState (w_shared w) PRL_WORKER_STATE_FINISHED_ACK with
    | Reached => (fun k => set_pc (WSend k) w) <$> seq 0 (S c)
    | Canceled => [set_pc WExit (put_state PRL_WORKER_STATE_CANCELED w)]
    | Again => []
    end
  | WSend k =>
    if decide (length (w_queue w) < N) then
      match k with
      | S k' => [set_pc (if w_stop w then WEnd else WSend k') (set_wqueue (w_queue w ++ [false]) w)]
      | O => [set_pc WEnd (set_wstop true (set_wqueue (w_queue w ++ [true]) w))]
      end
    else []
  | WEnd => [set_pc WWaitReady (put_state PRL_WORKER_STATE_END w)]
  | WDie => [set_pc WExit (put_state PRL_WORKER_STATE_DEAD w)]
  | WExit => []
  end.

(** A SIGINT is noticed where the code waits on a semaphore of a queue and where it sorts, not in waitForState. *)
Definition worker_cancel_steps (w : wproc) : list wproc :=
  if w_sigint w then
    match w_pc w with
    | WRecv _ | WFinish _ | WSend _ => [set_pc WExit (put_state PRL_WORKER_STATE_CANCELED w)]
    | _ => []
    end
  else [].

(** Where the leader is.  [r] is the number of rows it has still to send. *)
Inductive lpc :=
| LWaitInitial (r : nat)  (* ExecSort: waitForWorkers(INITIAL) *)
| LReady (r : nat)        (* registered; stateTransition(INITIAL, READY) *)
| LSend (r now : nat)     (* distributeToWorker(slot, false) to worker [now] *)
| LSendLast (i : nat)     (* distributeToWorker(NULL, true), worker [i] next *)
| LWaitFinished           (* waitForWorkers(FINISHED) *)
| LAck                    (* stateTransition(FINISHED, FINISHED_ACK) *)
| LFetch (i : nat)        (* prepareForMerge, worker [i] next *)
| LMerge                  (* between two fetches *)
| LGet (w : nat)          (* bufferQueueGet in tuplesort_gettupleslot_from_worker *)
| LStopSet (i : nat)      (* ExecEndSort: bufferQueueSetStop of worker [i] *)
| LStopGet (i : nat)      (* ExecEndSort: clear one value *)
| LWaitEnd                (* waitForWorkers(END) *)
| LEndTask                (* prepare ending task *)
| LWaitDead               (* waitForWorkers(DEAD) *)
| LDone
| LCancel                 (* after an error: waitForAllWorkers(CANCELED) *)
| LCleanup.

Record sys := mkSys { l_pc : lpc; procs : list wproc }.
Definition shared_list (s : sys) : list Worker := w_shared <$> procs s.

(** The leader goes to [l] and does [f] to worker [i]. *)
Definition with_proc (s : sys) (i : nat) (l : wproc -> lpc) (f : wproc -> option wproc) : list sys :=
  match procs s !! i with
  | Some w => match f w with Some w' => [mkSys (l w) (<[i := w']> (procs s))] | None => [] end
  | None => []
  end.
Definition send (N : nat) (last : bool) (w : wproc) : option wproc :=
  if decide (length (w_queue w) < N) then Some (set_wqueue (w_queue w ++ [last]) w) else None.
(** bufferQueueGet(.., true), and workersFinished[..] = true when it is the last one *)
Definition get (w : wproc) : option wproc :=
  match w_queue w with [] => None | b :: q => Some (set_wfinished (w_finished w || b) (set_wqueue q w)) end.
(** the state of the workers of the list, put back *)
Definition put_list (ws : list Worker) (ps : list wproc) : list wproc := zip_with set_shared ws ps.

(** worker->valid && worker->state != PRL_WORKER_STATE_END && worker->work->jobId == jobId *)
Definition to_stop (job : Z) (w : Worker) : bool :=
  valid w && bool_decide (state w <> PRL_WORKER_STATE_END) && (jobId w =? job)%Z.

(** for each worker of the job: destroyBufferQueue, READY, and the job END *)
Definition end_task (job : Z) (w : wproc) : wproc :=
  if valid (w_shared w) && (jobId (w_shared w) =? job)%Z
  then set_wqueue [] (set_shared (mkWorker true PRL_WORKER_STATE_READY (jobId (w_shared w)) PRL_WORK_TYPE_END) w)
  else w.

Definition unfinished (s : sys) : list nat :=
  filter (fun i => (w_finished <$> procs s !! i) = Some false) (seq 0 (length (procs s))).

(** waitForWorkers: go on to [l] in the round where all [n] workers are in the state. *)
Local Abbreviation wait job s st l :=
  (if waitForWorkers job (length (procs s)) st (shared_list s) then [mkSys l (procs s)] else []).
Local Abbreviation transit job s o st l := [mkSys l (put_list (snd (stateTransition job o st (shared_list s))) (procs s))].

(** What the leader can do next for the job [job] in ExecSort: setting up, dealing out and the first tuples of the merge. *)
Definition ExecSort_steps (job : Z) (N : nat) (s : sys) : list sys :=
  let n := length (procs s) in
  match l_pc s with
  | LWaitInitial r => wait job s PRL_WORKER_STATE_INITIAL (LReady r)
  | LReady r => transit job s PRL_WORKER_STATE_INITIAL PRL_WORKER_STATE_READY (LSend r 0)
  | LSend O _ => [mkSys (LSendLast 0) (procs s)]
  | LSend (S r) now => with_proc s now (fun _ => LSend r ((now + 1) mod n)) (send N false)
  | LSendLast i =>
    if decide (i < n) then with_proc s i (fun _ => LSendLast (S i)) (send N true) else [mkSys LWaitFinished (procs s)]
  | LWaitFinished => wait job s PRL_WORKER_STATE_FINISHED LAck
  | LAck => transit job s PRL_WORKER_STATE_FINISHED PRL_WORKER_STATE_FINISHED_ACK (LFetch 0)
  | LFetch i => if decide (i < n) then with_proc s i (fun _ => LFetch (S i)) get else [mkSys LMerge (procs s)]
  | LMerge => mkSys (LStopSet 0) (procs s) :: ((fun i => mkSys (LGet i) (procs s)) <$> unfinished s)
  | LGet i => with_proc s i (fun _ => LMerge) get
  | _ => []
  end.

(** The same in ExecEndSort. *)
Definition ExecEndSort_steps (job : Z) (s : sys) : list sys :=
  let n := length (procs s) in
  match l_pc s with
  | LStopSet i =>
    if decide (i < n) then
      with_proc s i (fun w => if to_stop job (w_shared w) then if w_stop w then LStopSet (S i) else LStopGet i else LStopSet (S i))
        (fun w => Some (if to_stop job (w_shared w) then set_wstop true w else w))
    else [mkSys LWaitEnd (procs s)]
  | LStopGet i => with_proc s i (fun _ => LStopSet (S i)) (fun w => Some (set_wqueue (tail (w_queue w)) w))
  | LWaitEnd => wait job s PRL_WORKER_STATE_END LEndTask
  | LEndTask => [mkSys LWaitDead (end_task job <$> procs s)]
  | LWaitDead => wait job s PRL_WORKER_STATE_DEAD LDone
  | _ => []
  end.

Definition leader_steps (job : Z) (N : nat) (s : sys) : list sys :=
  match l_pc s with
  | LStopSet _ | LStopGet _ | LWaitEnd | LEndTask | LWaitDead => ExecEndSort_steps job s
  | LCancel => if waitForAllWorkers PRL_WORKER_STATE_CANCELED (shared_list s) then [mkSys LCleanup (procs s)] else []
  | LDone | LCleanup => []
  | _ => ExecSort_steps job N s
  end.

Inductive step (job : Z) (N : nat) (s : sys) : sys -> Prop :=
| step_leader s' : s' ∈ leader_steps job N s -> step job N s s'
| step_worker i w w' : procs s !! i = Some w -> w' ∈ worker_steps N w -> step job N s (mkSys (l_pc s) (<[i := w']> (procs s))).

(** The query is cancelled: CHECK_FOR_INTERRUPTS of waitForWorkers and the waits of the queues raise the error, and
    the handler of the main loop tells the postmaster to send SIGINT to the workers. *)
Definition cancellable (l : lpc) : bool :=
  match l with LWaitInitial _ | LSend _ _ | LSendLast _ | LWaitFinished | LFetch _ | LGet _ | LWaitEnd | LWaitDead => true | _ => false end.
Inductive cstep (job : Z) (N : nat) (s : sys) : sys -> Prop :=
| cstep_step s' : step job N s s' -> cstep job N s s'
| cstep_cancel : cancellable (l_pc s) = true -> cstep job N s (mkSys LCancel (set_sigint true <$> procs s))
| cstep_worker i w w' : procs s !! i = Some w -> w' ∈ worker_cancel_steps w -> cstep job N s (mkSys (l_pc s) (<[i := w']> (procs s))).

(** The workers of a job as ExecSort sets them up. *)
Definition new_proc (job : Z) : wproc :=
  mkProc WForked (mkWorker false PRL_WORKER_STATE_NONE job PRL_WORK_TYPE_SORT) [] false false false.
Definition initial_sys (job : Z) (n r : nat) : sys := mkSys (LWaitInitial r) (replicate n (new_proc job)).

(** ** Invariant *)

(** What is known of a worker, by what the leader has done with it so far. *)
Inductive view := VFresh | VInitial | VReceiving | VTold | VFinished | VSending | VStopSet | VStopped | VEnded | VDying | VDead.

Definition view_of (l : lpc) (i : nat) : view :=
  match l with
  | LWaitInitial _ => VFresh
  | LReady _ => VInitial
  | LSend _ _ => VReceiving
  | LSendLast j => if decide (i < j) then VTold else VReceiving
  | LWaitFinished => VTold
  | LAck => VFinished
  | LFetch _ | LMerge | LGet _ => VSending
  | LStopSet j => if decide (i < j) then VStopped else VSending
  | LStopGet j => if decide (i < j) then VStopped else if decide (i = j) then VStopSet else VSending
  | LWaitEnd => VStopped
  | LEndTask => VEnded
  | LWaitDead => VDying
  | _ => VDead
  end.

(** No cell is the last one; the last cell is at the end. *)
Definition no_last (q : list bool) : Prop := Forall (fun b => b = false) q.
Definition ends_last (q : list bool) : Prop := exists q', q = q' ++ [true] /\ no_last q'.

(** Running and ready, or past it. *)
Definition receiving (w : wproc) : Prop :=
  state (w_shared w) = PRL_WORKER_STATE_READY /\ (w_pc w = WWaitReady \/ exists c, w_pc w = WRecv c).
Definition ended (w : wproc) : Prop := w_pc w = WWaitReady /\ state (w_shared w) = PRL_WORKER_STATE_END.
Definition ending (w : wproc) : Prop := (w_pc w = WEnd /\ state (w_shared w) = PRL_WORKER_STATE_FINISHED_ACK) \/ ended w.
Definition sending (w : wproc) : Prop :=
  state (w_shared w) = PRL_WORKER_STATE_FINISHED_ACK /\ ((exists c, w_pc w = WWaitAck c) \/ exists k, w_pc w = WSend k).

Definition wview (N : nat) (v : view) (w : wproc) : Prop :=
  match v with
  | VFresh => w_queue w = [] /\ w_stop w = false /\ w_finished w = false /\
      ((w_pc w = WForked /\ valid (w_shared w) = false) \/
       (w_pc w = WWaitReady /\ valid (w_shared w) = true /\ state (w_shared w) = PRL_WORKER_STATE_INITIAL))
  | VInitial => w_queue w = [] /\ w_stop w = false /\ w_finished w = false /\ w_pc w = WWaitReady /\
      valid (w_shared w) = true /\ state (w_shared w) = PRL_WORKER_STATE_INITIAL
  | VReceiving => no_last (w_queue w) /\ w_stop w = false /\ w_finished w = false /\ valid (w_shared w) = true /\ receiving w
  | VTold => w_stop w = false /\ w_finished w = false /\ valid (w_shared w) = true /\
      ((receiving w /\ ends_last (w_queue w)) \/
       (state (w_shared w) = PRL_WORKER_STATE_READY /\ w_queue w = [] /\ exists c, w_pc w = WFinish c) \/
       (state (w_shared w) = PRL_WORKER_STATE_FINISHED /\ w_queue w = [] /\ exists c, w_pc w = WWaitAck c))
  | VFinished => w_stop w = false /\ w_finished w = false /\ valid (w_shared w) = true /\
      state (w_shared w) = PRL_WORKER_STATE_FINISHED /\ w_queue w = [] /\ exists c, w_pc w = WWaitAck c
  | VSending => valid (w_shared w) = true /\ length (w_queue w) <= N /\
      ((w_stop w = false /\ w_finished w = false /\ sending w /\ no_last (w_queue w)) \/
       (w_stop w = true /\ ending w /\ ((w_finished w = false /\ ends_last (w_queue w)) \/ (w_finished w = true /\ w_queue w = []))))
  | VStopSet => valid (w_shared w) = true /\ length (w_queue w) <= N /\ ((w_stop w = true /\ sending w) \/ ending w)
  | VStopped => valid (w_shared w) = true /\ length (w_queue w) <= N /\
      ((w_stop w = true /\ sending w /\ length (w_queue w) < N) \/ ending w)
  | VEnded => valid (w_shared w) = true /\ ended w
  | VDying => valid (w_shared w) = true /\ workType (w_shared w) = PRL_WORK_TYPE_END /\
      ((state (w_shared w) = PRL_WORKER_STATE_READY /\ (w_pc w = WWaitReady \/ w_pc w = WDie)) \/
       (state (w_shared w) = PRL_WORKER_STATE_DEAD /\ w_pc w = WExit))
  | VDead => valid (w_shared w) = true /\ state (w_shared w) = PRL_WORKER_STATE_DEAD /\ w_pc w = WExit
  end.

(** The job does a sort until it is told to end, and belongs to the leader's job. *)
Definition typed (job : Z) (v : view) (w : wproc) : Prop :=
  jobId (w_shared w) = job /\ match v with VDying | VDead => True | _ => workType (w_shared w) = PRL_WORK_TYPE_SORT end.

Definition leader_ok (l : lpc) (ps : list wproc) : Prop :=
  match l with
  | LSend _ now => now < length ps
  | LFetch i => forall j w, i <= j -> ps !! j = Some w -> w_finished w = false
  | LGet i => exists w, ps !! i = Some w /\ w_finished w = false
  | LStopGet i => i < length ps
  | LCancel | LCleanup => False
  | _ => True
  end.

Record inv (job : Z) (N : nat) (s : sys) : Prop := {
  inv_some : 0 < length (procs s);
  inv_leader : leader_ok (l_pc s) (procs s);
  inv_procs : forall i w, procs s !! i = Some w -> wview N (view_of (l_pc s) i) w /\ typed job (view_of (l_pc s) i) w }.

Lemma inv_initial job N n r : 0 < n -> inv job N (initial_sys job n r).
Proof.
  intros Hn. split; simpl; [by rewrite length_replicate|done|]. intros i w [-> _]%lookup_replicate_1. split; [|done].
  split_and!; try done. by left.
Qed.

(** ** Steps of the workers *)

Lemma waitForState_reached w st : state w = st -> waitForState w st = Reached.
Proof. intros H. unfold waitForState. by rewrite decide_True. Qed.
Lemma waitForState_again w st : state w <> st -> state w <> PRL_WORKER_STATE_CANCELED -> waitForState w st = Again.
Proof. intros H1 H2. unfold waitForState. by rewrite !decide_False. Qed.

Lemma no_last_snoc q : no_last q -> no_last (q ++ [false]).
Proof. intros. apply Forall_app. by repeat constructor. Qed.
Lemma no_last_ends q : no_last q -> ends_last (q ++ [true]).
Proof. intros. by exists q. Qed.
Lemma ends_last_cons b q : ends_last (b :: q) -> (b = true /\ q = []) \/ (b = false /\ ends_last q).
Proof.
  intros (q' & He & Hn). destruct q' as [|b' q']; simplify_eq/=; [by left|]. right. apply Forall_cons in Hn as [-> Hn]. split; [done|]. by exists q'.
Qed.
Lemma ends_last_not_nil : ~ ends_last [].
Proof. intros (q' & He & _). by destruct q'. Qed.

(** Reads a step of a worker off [worker_steps], by the place where the worker is. *)
Ltac worker_step Hpc H :=
  unfold worker_steps in H; rewrite Hpc in H;
  repeat match type of H with context [waitForState ?w ?st] =>
    first [rewrite (waitForState_reached w st) in H by congruence | rewrite (waitForState_again w st) in H by congruence] end;
  repeat (case_decide || case_match); try congruence; rewrite ?elem_of_nil, ?list_elem_of_singleton in H; try done; subst.

Lemma typed_step job N v w w' : typed job v w -> w' ∈ worker_steps N w -> typed job v w'.
Proof.
  intros [Hj Ht] H. unfold worker_steps in H. unfold typed, waitForState in *.
  repeat case_match; rewrite ?elem_of_nil, ?list_elem_of_singleton in H; try done; subst; try (apply list_elem_of_fmap in H as (k & -> & _)); simpl; done.
Qed.

Lemma view_receiving N w w' : wview N VReceiving w -> workType (w_shared w) = PRL_WORK_TYPE_SORT ->
  w' ∈ worker_steps N w -> wview N VReceiving w'.
Proof.
  intros (Hq & Hs & Hf & Hv & Hst & [Hpc|[c Hpc]]) Ht H; worker_step Hpc H.
  - split_and!; try done. split; [done|]. right. by eexists.
  - by apply Forall_cons in Hq as [? _].
  - apply Forall_cons in Hq as [_ Hq].
    split_and!; try done. split; [done|]. right. by eexists.
Qed.

Lemma view_told N w w' : wview N VTold w -> workType (w_shared w) = PRL_WORK_TYPE_SORT ->
  w' ∈ worker_steps N w -> wview N VTold w'.
Proof.
  intros (Hs & Hf & Hv & [[[Hst [Hpc|[c Hpc]]] Hq]|[(Hst & Hq & c & Hpc)|(Hst & Hq & c & Hpc)]]) Ht H; worker_step Hpc H.
  - split_and!; try done. left. split; [|done]. split; [done|]. right. by eexists.
  - apply ends_last_cons in Hq as [[_ ->]|[? _]]; [|done].
    split_and!; try done. right; left. split_and!; try done. by eexists.
  - apply ends_last_cons in Hq as [[? _]|[_ Hq]]; [done|].
    split_and!; try done. left. split; [|done]. split; [done|]. right. by eexists.
  - split_and!; try done. right; right. split_and!; try done. by eexists.
Qed.

Lemma view_fresh N w w' : wview N VFresh w -> w' ∈ worker_steps N w -> wview N VFresh w'.
Proof.
  intros (Hq & Hs & Hf & [[Hpc Hv]|(Hpc & Hv & Hst)]) H; worker_step Hpc H. split_and!; try done. by right.
Qed.

Lemma ending_step N w w' : ending w -> w' ∈ worker_steps N w ->
  ended w' /\ w_queue w' = w_queue w /\ w_stop w' = w_stop w /\ w_finished w' = w_finished w /\ valid (w_shared w') = valid (w_shared w).
Proof. intros [[Hpc Hst]|[Hpc Hst]] H; worker_step Hpc H. done. Qed.

(** A sending worker sends one more cell, and stops after it if it was told to or if it is the last one. *)
Lemma sending_step N w w' : sending w -> w' ∈ worker_steps N w ->
  w_finished w' = w_finished w /\ valid (w_shared w') = valid (w_shared w) /\
  ((sending w' /\ w_queue w' = w_queue w /\ w_stop w' = w_stop w) \/
   (length (w_queue w) < N /\ w_stop w = false /\ sending w' /\ w_queue w' = w_queue w ++ [false] /\ w_stop w' = false) \/
   (length (w_queue w) < N /\ w_stop w = true /\ ending w' /\ w_queue w' = w_queue w ++ [false] /\ w_stop w' = true) \/
   (length (w_queue w) < N /\ ending w' /\ w_queue w' = w_queue w ++ [true] /\ w_stop w' = true)).
Proof.
  intros [Hst [[c Hpc]|[k Hpc]]] H; worker_step Hpc H.
  - apply list_elem_of_fmap in H as (k & -> & _). split_and!; [done..|]. left. split_and!; try done; split; [done|]; right; by eexists.
  - split_and!; [done..|]. right; right; right. split_and!; try done; by left.
  - split_and!; [done..|]. right; right; left. split_and!; try done; by left.
  - split_and!; [done..|]. right; left. split_and!; try done; split; [done|]; right; by eexists.
Qed.

Lemma view_sending N w w' : wview N VSending w -> w' ∈ worker_steps N w -> wview N VSending w'.
Proof.
  intros (Hv & Hl & [(Hs & Hf & Hsend & Hq)|(Hs & He & Hor)]) H.
  - destruct (sending_step _ _ _ Hsend H) as (Ef & Ev & [(S1 & E1 & E2)|[(Hlt & _ & S1 & E1 & E2)|[(_ & ? & _)|(Hlt & S1 & E1 & E2)]]]).
    + split_and!; [congruence|by rewrite E1|]. left. split_and!; congruence || done.
    + split_and!; [congruence|rewrite E1, length_app; simpl; lia|]. left. split_and!; [congruence|congruence|done|rewrite E1; by apply no_last_snoc].
    + congruence.
    + split_and!; [congruence|rewrite E1, length_app; simpl; lia|]. right. split_and!; [done|done|]. left. split; [congruence|].
      rewrite E1. by apply no_last_ends.
  - destruct (ending_step _ _ _ He H) as (E1 & E2 & E3 & E4 & E5). split_and!; [congruence|by rewrite E2|]. right.
    split_and!; [congruence|by right|]. by rewrite E2, E4.
Qed.

Lemma view_stop_set N w w' : wview N VStopSet w -> w' ∈ worker_steps N w -> wview N VStopSet w'.
Proof.
  intros (Hv & Hl & [[Hs Hsend]|He]) H.
  - destruct (sending_step _ _ _ Hsend H) as (Ef & Ev & [(S1 & E1 & E2)|[(Hlt & ? & _)|[(Hlt & _ & S1 & E1 & E2)|(Hlt & S1 & E1 & E2)]]]);
      [|congruence|..]; (split_and!; [congruence|rewrite E1, ?length_app; simpl; lia|]).
    + left. split; [congruence|done].
    + by right.
    + by right.
  - destruct (ending_step _ _ _ He H) as (E1 & E2 & E3 & E4 & E5). split_and!; [congruence|by rewrite E2|]. right. by right.
Qed.

Lemma view_stopped N w w' : wview N VStopped w -> w' ∈ worker_steps N w -> wview N VStopped w'.
Proof.
  intros (Hv & Hl & [(Hs & Hsend & Hlt)|He]) H.
  - destruct (sending_step _ _ _ Hsend H) as (Ef & Ev & [(S1 & E1 & E2)|[(_ & ? & _)|[(_ & _ & S1 & E1 & E2)|(_ & S1 & E1 & E2)]]]);
      [|congruence|..]; (split_and!; [congruence|rewrite E1, ?length_app; simpl; lia|]).
    + left. split_and!; [congruence|done|by rewrite E1].
    + by right.
    + by right.
  - destruct (ending_step _ _ _ He H) as (E1 & E2 & E3 & E4 & E5). split_and!; [congruence|by rewrite E2|]. right. by right.
Qed.

Lemma view_dying N w w' : wview N VDying w -> w' ∈ worker_steps N w -> wview N VDying w'.
Proof.
  intros (Hv & Ht & [[Hst [Hpc|Hpc]]|[Hst Hpc]]) H; worker_step Hpc H.
  - split_and!; try done. left. split; [done|]. by right.
  - split_and!; try done. by right.
Qed.

Lemma wview_step job N v w w' :
  wview N v w -> typed job v w -> w' ∈ worker_steps N w -> wview N v w' /\ typed job v w' /\ w_finished w' = w_finished w.
Proof.
  intros Hw Ht H. split_and!; [|by eapply typed_step|].
  - destruct Ht as [_ Ht]. destruct v; eauto using view_fresh, view_receiving, view_told, view_sending, view_stop_set, view_stopped, view_dying.
    + destruct Hw as (? & ? & ? & Hpc & ? & Hst). worker_step Hpc H.
    + destruct Hw as (? & ? & ? & Hst & ? & c & Hpc). worker_step Hpc H.
    + destruct Hw as (? & Hpc & Hst). worker_step Hpc H.
    + destruct Hw as (? & ? & Hpc). worker_step Hpc H.
  - unfold worker_steps, waitForState in H. repeat case_match; rewrite ?elem_of_nil, ?list_elem_of_singleton in H; try done; subst; try done;
      apply list_elem_of_fmap in H as (k & -> & _); done.
Qed.

Lemma inv_worker job N s i w w' :
  inv job N s -> procs s !! i = Some w -> w' ∈ worker_steps N w -> inv job N (mkSys (l_pc s) (<[i := w']> (procs s))).
Proof.
  intros [H1 H2 H3] Hw Hs. destruct (H3 _ _ Hw) as [Hv Ht]. destruct (wview_step _ _ _ _ _ Hv Ht Hs) as (Hv' & Ht' & Hf).
  pose proof (lookup_lt_Some _ _ _ Hw) as Hlt. split; simpl.
  - by rewrite length_insert.
  - destruct (l_pc s); simpl in *; rewrite ?length_insert; try done.
    + intros j wj Hj Hwj. apply list_lookup_insert_Some in Hwj as [(-> & -> & _)|[_ Hwj]]; [rewrite Hf|]; by eapply H2.
    + destruct H2 as (wg & Hg & Hgf). destruct (decide (w0 = i)) as [->|Hne].
      * exists w'. rewrite list_lookup_insert_eq by done. split; [done|]. congruence.
      * exists wg. by rewrite list_lookup_insert_ne.
  - intros j wj Hwj. apply list_lookup_insert_Some in Hwj as [(-> & -> & _)|[_ Hwj]]; [done|by apply H3].
Qed.

(** ** Steps of the leader *)

Lemma count_in_state_le job st ws : count_in_state job st ws <= length ws.
Proof. induction ws as [|w ws IH]; simpl; [lia|]. destruct (in_state job st w); lia. Qed.
Lemma count_in_state_all job st ws : count_in_state job st ws = length ws <-> Forall (fun w => in_state job st w = true) ws.
Proof.
  induction ws as [|w ws IH]; simpl; [by split; [constructor|]|]. pose proof (count_in_state_le job st ws). rewrite Forall_cons, <- IH.
  destruct (in_state job st w); split; intros; destruct_and?; try done; lia.
Qed.

Lemma in_state_spec job st w : in_state job st w = true <-> valid w = true /\ state w = st /\ jobId w = job.
Proof. unfold in_state. rewrite !andb_true_iff, bool_decide_eq_true, Z.eqb_eq. tauto. Qed.

Lemma stateTransition_fmap job o st ws :
  snd (stateTransition job o st ws) = (fun w => if in_state job o w then set_state st w else w) <$> ws.
Proof.
  induction ws as [|w ws IH]; [done|]. rewrite fmap_cons, <- IH. simpl. destruct (stateTransition job o st ws) as [c ws'].  by destruct (in_state job o w).
Qed.
Lemma stateTransition_count job o st ws : fst (stateTransition job o st ws) = count_in_state job o ws.
Proof. induction ws as [|w ws IH]; simpl; [done|]. destruct (stateTransition job o st ws). destruct (in_state job o w); simpl in *; lia. Qed.

Lemma put_list_fmap f ps : put_list (f <$> (w_shared <$> ps)) ps = (fun p => set_shared (f (w_shared p)) p) <$> ps.
Proof. induction ps as [|p ps IH]; [done|]. rewrite !fmap_cons. unfold put_list in *. simpl. by rewrite IH. Qed.

Lemma with_proc_inv s i l f s' :
  s' ∈ with_proc s i l f -> exists w w', procs s !! i = Some w /\ f w = Some w' /\ s' = mkSys (l w) (<[i := w']> (procs s)).
Proof.
  unfold with_proc. destruct (procs s !! i) as [w|]; [|by intros ?%elem_of_nil]. destruct (f w) as [w'|] eqn:E; [|by intros ?%elem_of_nil].
  intros ->%list_elem_of_singleton. eauto.
Qed.

(** waitForWorkers has returned. *)
Lemma wait_inv job N s st l s' v v' :
  inv job N s -> s' ∈ (if waitForWorkers job (length (procs s)) st (shared_list s) then [mkSys l (procs s)] else []) ->
  (forall i, view_of (l_pc s) i = v) -> (forall i, view_of l i = v') -> leader_ok l (procs s) ->
  (forall w, wview N v w -> valid (w_shared w) = true -> state (w_shared w) = st -> wview N v' w) ->
  (forall w, typed job v w -> state (w_shared w) = st -> typed job v' w) -> inv job N s'.
Proof.
  intros [H1 H2 H3] Hs Hv Hv' Hl Hw Ht. unfold waitForWorkers in Hs. case_bool_decide as Hc; [|by apply elem_of_nil in Hs].
  apply list_elem_of_singleton in Hs as ->. unfold shared_list in Hc. rewrite <- (length_fmap w_shared (procs s)) in Hc.
  apply count_in_state_all in Hc. split; simpl; try done. intros i w Hi. rewrite Hv'.
  assert (Hin : in_state job st (w_shared w) = true).
  { apply (Forall_lookup_1 _ _ i _ Hc). by rewrite list_lookup_fmap, Hi. }
  apply in_state_spec in Hin as (? & ? & ?). destruct (H3 _ _ Hi) as [? ?]. rewrite Hv in *. eauto.
Qed.

(** stateTransition was applied to all. *)
Lemma transit_inv job N s o st l v v' :
  inv job N s -> (forall i, view_of (l_pc s) i = v) -> (forall i, view_of l i = v') ->
  (forall ps, length ps = length (procs s) -> (forall i w, ps !! i = Some w -> exists w0, procs s !! i = Some w0 /\ w_finished w = w_finished w0) ->
     leader_ok l ps) ->
  (forall w, wview N v w -> typed job v w -> in_state job o (w_shared w) = true /\ wview N v' (put_state st w) /\ typed job v' (put_state st w)) ->
  inv job N (mkSys l (put_list (snd (stateTransition job o st (shared_list s))) (procs s))).
Proof.
  intros [H1 H2 H3] Hv Hv' Hl Hw. rewrite stateTransition_fmap. unfold shared_list. rewrite put_list_fmap. split; simpl.
  - by rewrite length_fmap.
  - apply Hl; [by rewrite length_fmap|]. intros i w Hi. apply list_lookup_fmap_Some in Hi as (w0 & -> & Hi). by exists w0.
  - intros i w Hi. apply list_lookup_fmap_Some in Hi as (w0 & -> & Hi). destruct (H3 _ _ Hi) as [Hv0 Ht0]. rewrite Hv in *. rewrite Hv'.
    destruct (Hw _ Hv0 Ht0) as (-> & ? & ?). done.
Qed.

(** The leader has dealt with worker [i] only. *)
Lemma one_inv job N s i w w' l :
  inv job N s -> procs s !! i = Some w -> leader_ok l (<[i := w']> (procs s)) ->
  (wview N (view_of (l_pc s) i) w -> typed job (view_of (l_pc s) i) w -> wview N (view_of l i) w' /\ typed job (view_of l i) w') ->
  (forall j, j <> i -> view_of l j = view_of (l_pc s) j) -> inv job N (mkSys l (<[i := w']> (procs s))).
Proof.
  intros [H1 H2 H3] Hi Hl Hw Hv. split; simpl; [by rewrite length_insert|done|].
  intros j wj Hj. apply list_lookup_insert_Some in Hj as [(<- & <- & _)|[Hne Hj]].
  - destruct (H3 _ _ Hi). by apply Hw.
  - rewrite Hv by done. by apply H3.
Qed.

Lemma same_procs job N s l :
  inv job N s -> leader_ok l (procs s) -> (forall i, i < length (procs s) -> view_of l i = view_of (l_pc s) i) -> inv job N (mkSys l (procs s)).
Proof. intros [H1 H2 H3] Hl Hv. split; simpl; [done|done|]. intros i w Hi. rewrite Hv by (by eapply lookup_lt_Some). by apply H3. Qed.

Lemma send_inv N b w w' : send N b w = Some w' -> length (w_queue w) < N /\ w' = set_wqueue (w_queue w ++ [b]) w.
Proof. unfold send. case_decide; [|done]. by intros [= <-]. Qed.
Lemma get_inv w w' : get w = Some w' -> exists b q, w_queue w = b :: q /\ w' = set_wfinished (w_finished w || b) (set_wqueue q w).
Proof. unfold get. destruct (w_queue w) as [|b q]; [done|]. intros [= <-]. eauto. Qed.

Lemma view_send N w : wview N VReceiving w -> wview N VReceiving (set_wqueue (w_queue w ++ [false]) w).
Proof. intros (Hq & ?). split; [|done]. by apply no_last_snoc. Qed.
Lemma view_send_last N w : wview N VReceiving w -> wview N VTold (set_wqueue (w_queue w ++ [true]) w).
Proof. intros (Hq & Hs & Hf & Hv & Hr). split_and!; try done. left. split; [done|]. by apply no_last_ends. Qed.

Lemma view_get N w w' : wview N VSending w -> get w = Some w' -> wview N VSending w'.
Proof.
  intros (Hv & Hl & Hor) (b & q & Hq & ->)%get_inv. rewrite Hq in Hl, Hor. split_and!; [done|simpl in *; lia|].
  destruct Hor as [(Hs & Hf & Hsend & Hn)|(Hs & He & [[Hf Hn]|[_ ?]])]; [..|done].
  - apply Forall_cons in Hn as [-> Hn]. left. simpl. by rewrite Hf.
  - right. split_and!; [done|done|]. simpl. rewrite Hf. apply ends_last_cons in Hn as [[-> ->]|[-> Hn]]; [by right|by left].
Qed.

Lemma to_stop_false job N w : wview N VSending w -> typed job VSending w -> to_stop job (w_shared w) = false -> state (w_shared w) = PRL_WORKER_STATE_END.
Proof.
  intros (Hv & _) [Hj _]. unfold to_stop. rewrite Hv, Hj, Z.eqb_refl, andb_true_r. simpl. rewrite bool_decide_eq_false. intros H. by apply dec_stable.
Qed.
Lemma view_stop_end job N w : wview N VSending w -> typed job VSending w -> to_stop job (w_shared w) = false -> wview N VStopped w.
Proof.
  intros Hw Ht Hx. pose proof (to_stop_false _ _ _ Hw Ht Hx) as Hst.
  destruct Hw as (Hv & Hl & [(_ & _ & [? _] & _)|(_ & He & _)]); [congruence|]. split_and!; try done; by right.
Qed.
Lemma view_stop_stopped N w : wview N VSending w -> w_stop w = true -> wview N VStopped (set_wstop true w).
Proof. intros (Hv & Hl & [(? & _)|(_ & He & _)]) Hx; [congruence|]. split_and!; try done; by right. Qed.
Lemma view_stop_set_now N w : wview N VSending w -> w_stop w = false -> wview N VStopSet (set_wstop true w).
Proof. intros (Hv & Hl & [(_ & _ & Hs & _)|(? & _)]) Hx; [|congruence]. split_and!; try done; by left. Qed.
Lemma view_stop_get N w : 0 < N -> wview N VStopSet w -> wview N VStopped (set_wqueue (tail (w_queue w)) w).
Proof.
  intros HN (Hv & Hl & Hor).
  assert (Ht : length (tail (w_queue w)) < N) by (destruct (w_queue w); simpl in *; lia).
  split_and!; [done|simpl; lia|]. destruct Hor as [[Hs Hsend]|He]; [by left|by right].
Qed.

Lemma unfinished_spec s i : i ∈ unfinished s -> exists w, procs s !! i = Some w /\ w_finished w = false.
Proof. intros Hi%list_elem_of_filter. destruct Hi as [Hf _]. apply fmap_Some in Hf as (w & ? & ?). by exists w. Qed.

Ltac elem H := rewrite ?list_elem_of_singleton in H; subst.
Ltac view_lia := intros; simpl; repeat case_decide; done || lia.

(** How far the leader is. *)
Definition phase (l : lpc) : nat :=
  match l with
  | LWaitInitial _ => 14 | LReady _ => 13 | LSend _ _ => 12 | LSendLast _ => 11 | LWaitFinished => 10 | LAck => 9 | LFetch _ => 8
  | LMerge | LGet _ => 7 | LStopSet _ | LStopGet _ => 6 | LWaitEnd => 5 | LEndTask => 4 | LWaitDead => 3 | LDone => 2
  | LCancel => 1 | LCleanup => 0
  end.

(** The first half of ExecSort. *)
Lemma inv_leader_setup job N s s' : 0 < N -> inv job N s -> 9 <= phase (l_pc s) -> s' ∈ leader_steps job N s -> inv job N s'.
Proof.
  intros HN HI Hph H. pose proof HI as [H1 H2 H3]. unfold leader_steps, ExecSort_steps, ExecEndSort_steps in H.
  destruct (l_pc s) as [r|r|r now|i| | |i| |i|i|i| | | | | |] eqn:El; simpl in Hph; try lia.
  - eapply (wait_inv _ _ _ _ _ _ VFresh VInitial); [exact HI|exact H|by rewrite El|done|done| |by intros].
    intros w (? & ? & ? & [[_ ?]|(? & ? & ?)]) ? ?; [congruence|]. done.
  - elem H. eapply (transit_inv _ _ _ _ _ _ VInitial VReceiving); [done|by rewrite El|done|intros ps Hps _; simpl; lia|].
    intros w (Hq & Hs & Hf & Hpc & Hv & Hst) [Hj Ht]. rewrite in_state_spec. split_and!; try done; simpl.
    split_and!; [rewrite Hq; constructor|done..|]. split; [done|by left].
  - destruct r as [|r].
    + elem H. apply same_procs; [done|done|rewrite El; view_lia].
    + apply with_proc_inv in H as (w & w' & Hw & Hs & ->). apply send_inv in Hs as [Hlt ->].
      eapply one_inv; [done|exact Hw| | |by rewrite El]; simpl; [rewrite length_insert; apply Nat.mod_upper_bound; lia|].
      rewrite El. intros Hv Ht. split; [exact (view_send N w Hv)|done].
  - case_decide.
    + apply with_proc_inv in H as (w & w' & Hw & Hs & ->). apply send_inv in Hs as [Hlt ->].
      eapply one_inv; [done|exact Hw|done| |rewrite El; view_lia]. rewrite El. simpl. rewrite decide_False, decide_True by lia.
      intros Hv Ht. split; [exact (view_send_last N w Hv)|done].
    + elem H. apply same_procs; [done|done|rewrite El; view_lia].
  - eapply (wait_inv _ _ _ _ _ _ VTold VFinished); [exact HI|exact H|by rewrite El|done|done| |by intros].
    intros w (? & ? & ? & [[[? _] _]|[(? & _)|(? & ? & ?)]]) ? ?; try congruence. done.
  - elem H. eapply (transit_inv _ _ _ _ _ _ VFinished VSending); [done|by rewrite El|done| |].
    + intros ps _ Hps j w _ Hj. destruct (Hps _ _ Hj) as (w0 & Hw0 & ->). by destruct (H3 _ _ Hw0) as [(_ & ? & _) _].
    + intros w (Hs & Hf & Hv & Hst & Hq & c & Hpc) [Hj Ht]. rewrite in_state_spec. split_and!; try done; simpl.
      rewrite Hq. split_and!; [done|simpl; lia|]. left. split_and!; [done|done| |constructor]. split; [done|]. left. by exists c.
Qed.

(** Fetching. *)
Lemma inv_leader_merge job N s s' : 0 < N -> inv job N s -> 7 <= phase (l_pc s) < 9 -> s' ∈ leader_steps job N s -> inv job N s'.
Proof.
  intros HN HI Hph H. pose proof HI as [H1 H2 H3]. unfold leader_steps, ExecSort_steps, ExecEndSort_steps in H.
  destruct (l_pc s) as [r|r|r now|i| | |i| |i|i|i| | | | | |] eqn:El; simpl in Hph; try lia.
  - case_decide.
    + apply with_proc_inv in H as (w & w' & Hw & Hg & ->). eapply one_inv; [done|exact Hw| | |by rewrite El]; simpl.
      * intros j wj Hj Hwj. rewrite list_lookup_insert_ne in Hwj by lia. simpl in H2. apply (H2 j wj); [lia|done].
      * rewrite El. simpl. intros Hv Ht. split; [exact (view_get N w w' Hv Hg)|]. by apply get_inv in Hg as (b & q & _ & ->).
    + elem H. apply same_procs; [done|done|rewrite El; view_lia].
  - apply elem_of_cons in H as [->|H].
    + apply same_procs; [done|done|rewrite El; view_lia].
    + apply list_elem_of_fmap in H as (i & -> & Hi). apply same_procs; [done|by apply unfinished_spec|by rewrite El].
  - apply with_proc_inv in H as (w & w' & Hw & Hg & ->). eapply one_inv; [done|exact Hw|done| |by rewrite El].
    rewrite El. simpl. intros Hv Ht. split; [exact (view_get N w w' Hv Hg)|]. by apply get_inv in Hg as (b & q & _ & ->).
Qed.

(** ExecEndSort. *)
Lemma inv_leader_end job N s s' : 0 < N -> inv job N s -> 2 <= phase (l_pc s) < 7 -> s' ∈ leader_steps job N s -> inv job N s'.
Proof.
  intros HN HI Hph H. pose proof HI as [H1 H2 H3]. unfold leader_steps, ExecSort_steps, ExecEndSort_steps in H.
  destruct (l_pc s) as [r|r|r now|i| | |i| |i|i|i| | | | | |] eqn:El; simpl in Hph; try lia.
  - case_decide as Hi; [|elem H; apply same_procs; [done|done|rewrite El; view_lia]].
    apply with_proc_inv in H as (w & w' & Hw & [= <-] & ->). destruct (to_stop job (w_shared w)) eqn:Est; [destruct (w_stop w) eqn:Es|].
    + eapply one_inv; [done|exact Hw|done| |rewrite El; view_lia]. rewrite El. simpl. rewrite decide_False, decide_True by lia.
      intros Hv Ht. split; [exact (view_stop_stopped N w Hv Es)|done].
    + eapply one_inv; [done|exact Hw|simpl; by rewrite length_insert| |rewrite El; view_lia]. rewrite El. simpl.
      repeat (case_decide; try lia). intros Hv Ht. split; [exact (view_stop_set_now N w Hv Es)|done].
    + eapply one_inv; [done|exact Hw|done| |rewrite El; view_lia]. rewrite El. simpl. rewrite decide_False, decide_True by lia.
      intros Hv Ht. split; [exact (view_stop_end job N w Hv Ht Est)|done].
  - apply with_proc_inv in H as (w & w' & Hw & [= <-] & ->).
    eapply one_inv; [done|exact Hw|done| |rewrite El; view_lia]. rewrite El. simpl. repeat (case_decide; try lia).
    intros Hv Ht. split; [exact (view_stop_get N w HN Hv)|done].
  - eapply (wait_inv _ _ _ _ _ _ VStopped VEnded); [exact HI|exact H|by rewrite El|done|done| |by intros].
    intros w (? & ? & [(_ & [? _] & _)|[[_ ?]|?]]) ? ?; try congruence. done.
  - elem H. split; simpl; [by rewrite length_fmap|done|]. intros i w Hi. apply list_lookup_fmap_Some in Hi as (w0 & -> & Hi).
    destruct (H3 _ _ Hi) as [(Hv & Hpc & Hst) [Hj Ht]]. unfold end_task. rewrite Hv, Hj, Z.eqb_refl. simpl.
    split; [|done]. split_and!; try done. left. split; [done|by left].
  - eapply (wait_inv _ _ _ _ _ _ VDying VDead); [exact HI|exact H|by rewrite El|done|done| |by intros].
    intros w (? & ? & [[? _]|[? ?]]) ? ?; [congruence|done].
  - by apply elem_of_nil in H.
Qed.

Lemma inv_leader_step job N s s' : 0 < N -> inv job N s -> s' ∈ leader_steps job N s -> inv job N s'.
Proof.
  intros HN HI H. destruct (decide (9 <= phase (l_pc s))); [by eapply inv_leader_setup|].
  destruct (decide (7 <= phase (l_pc s))); [eapply inv_leader_merge; eauto; lia|].
  destruct (decide (2 <= phase (l_pc s))); [eapply inv_leader_end; eauto; lia|].
  pose proof (inv_leader _ _ _ HI) as Hl. destruct (l_pc s); simpl in *; done || lia.
Qed.

(** ** Progress *)

Definition can_step (N : nat) (w : wproc) : Prop := exists w', w' ∈ worker_steps N w.

Lemma receiving_can N w : receiving w -> workType (w_shared w) = PRL_WORK_TYPE_SORT -> w_queue w <> [] -> can_step N w.
Proof.
  intros [Hst [Hpc|[c Hpc]]] Ht Hq; unfold can_step, worker_steps; rewrite Hpc.
  - rewrite waitForState_reached by done. rewrite Ht. eexists. by apply list_elem_of_singleton.
  - destruct (w_queue w) as [|[|] q]; [done|..]; eexists; by apply list_elem_of_singleton.
Qed.
Lemma sending_can N w : sending w -> length (w_queue w) < N -> can_step N w.
Proof.
  intros [Hst [[c Hpc]|[k Hpc]]] Hl; unfold can_step, worker_steps; rewrite Hpc.
  - rewrite waitForState_reached by done. eexists. by left.
  - rewrite decide_True by done. destruct k; eexists; by apply list_elem_of_singleton.
Qed.
Lemma told_can N w : wview N VTold w -> workType (w_shared w) = PRL_WORK_TYPE_SORT -> state (w_shared w) = PRL_WORKER_STATE_FINISHED \/ can_step N w.
Proof.
  intros (_ & _ & _ & [[Hr Hq]|[(_ & _ & c & Hpc)|(? & _)]]) Ht; [right|right|by left].
  - apply receiving_can; [done|done|]. intros Hn. rewrite Hn in Hq. by apply ends_last_not_nil in Hq.
  - unfold can_step, worker_steps. rewrite Hpc. eexists. by apply list_elem_of_singleton.
Qed.
Lemma stopped_can N w : wview N VStopped w -> state (w_shared w) = PRL_WORKER_STATE_END \/ can_step N w.
Proof.
  intros (_ & _ & [(_ & Hs & Hl)|[[Hpc _]|[_ ?]]]); [right; by apply sending_can|right|by left].
  unfold can_step, worker_steps. rewrite Hpc. eexists. by apply list_elem_of_singleton.
Qed.
Lemma dying_can N w : wview N VDying w -> state (w_shared w) = PRL_WORKER_STATE_DEAD \/ can_step N w.
Proof.
  intros (_ & Ht & [[Hst [Hpc|Hpc]]|[? _]]); [right..|by left]; unfold can_step, worker_steps; rewrite Hpc.
  - rewrite waitForState_reached by done. rewrite Ht. eexists. by apply list_elem_of_singleton.
  - eexists. by apply list_elem_of_singleton.
Qed.
Lemma fresh_can N w : wview N VFresh w -> state (w_shared w) = PRL_WORKER_STATE_INITIAL /\ valid (w_shared w) = true \/ can_step N w.
Proof.
  intros (_ & _ & _ & [[Hpc _]|(_ & ? & ?)]); [right|by left]. unfold can_step, worker_steps. rewrite Hpc. eexists. by apply list_elem_of_singleton.
Qed.
(** The leader can take a cell from a stream that has not ended, or the worker can add one. *)
Lemma sending_get N w : 0 < N -> wview N VSending w -> w_finished w = false -> is_Some (get w) \/ can_step N w.
Proof.
  intros HN (_ & _ & Hor) Hf. unfold get. destruct (w_queue w) as [|b q] eqn:Hq; [right|left; eauto].
  destruct Hor as [(_ & _ & Hs & _)|(_ & _ & [[_ Hn]|[? _]])]; [|by apply ends_last_not_nil in Hn|congruence].
  apply sending_can; [done|]. by rewrite Hq.
Qed.

Lemma worker_progress job N s i w : procs s !! i = Some w -> can_step N w -> exists s', step job N s s'.
Proof. intros Hi [w' Hw]. eexists. by eapply step_worker. Qed.

Lemma wait_progress job N s st l v :
  inv job N s -> (forall i, view_of (l_pc s) i = v) ->
  leader_steps job N s = (if waitForWorkers job (length (procs s)) st (shared_list s) then [mkSys l (procs s)] else []) ->
  (forall w, wview N v w -> typed job v w -> in_state job st (w_shared w) = true \/ can_step N w) -> exists s', step job N s s'.
Proof.
  intros HI Hv Hl Hw. destruct (waitForWorkers job (length (procs s)) st (shared_list s)) eqn:E.
  - eexists. apply step_leader. rewrite Hl. by apply list_elem_of_singleton.
  - unfold waitForWorkers in E. apply bool_decide_eq_false in E. unfold shared_list in E. rewrite <- (length_fmap w_shared (procs s)) in E.
    rewrite count_in_state_all in E. apply not_Forall_Exists in E; [|intros ?; apply _]. apply Exists_exists in E as (sh & Hin & Hns).
    apply list_elem_of_fmap in Hin as (w & -> & Hin). apply list_elem_of_lookup in Hin as [i Hi].
    destruct (inv_procs _ _ _ HI _ _ Hi) as [Hvw Htw]. rewrite Hv in Hvw, Htw. destruct (Hw w Hvw Htw) as [?|Hc]; [done|].
    by eapply worker_progress.
Qed.

Lemma with_proc_progress job N s i w l f :
  procs s !! i = Some w -> leader_steps job N s = with_proc s i l f -> is_Some (f w) -> exists s', step job N s s'.
Proof.
  intros Hi Hl [w' Hw]. eexists. apply step_leader. rewrite Hl. unfold with_proc. rewrite Hi, Hw. by apply list_elem_of_singleton.
Qed.

Lemma send_progress job N s i w l b :
  0 < N -> inv job N s -> procs s !! i = Some w -> view_of (l_pc s) i = VReceiving ->
  leader_steps job N s = with_proc s i l (send N b) -> exists s', step job N s s'.
Proof.
  intros HN HI Hi Hv Hl. destruct (inv_procs _ _ _ HI _ _ Hi) as [Hvw [_ Ht]]. rewrite Hv in Hvw, Ht.
  destruct (decide (length (w_queue w) < N)) as [Hlt|Hlt].
  - eapply with_proc_progress; [done|exact Hl|]. unfold send. rewrite decide_True by done. eauto.
  - destruct Hvw as (_ & _ & _ & _ & Hr). eapply worker_progress; [done|]. apply receiving_can; [done|done|]. intros E. rewrite E in Hlt. simpl in Hlt. lia.
Qed.

Lemma get_progress job N s i w l :
  0 < N -> inv job N s -> procs s !! i = Some w -> view_of (l_pc s) i = VSending -> w_finished w = false ->
  leader_steps job N s = with_proc s i l get -> exists s', step job N s s'.
Proof.
  intros HN HI Hi Hv Hf Hl. destruct (inv_procs _ _ _ HI _ _ Hi) as [Hvw _]. rewrite Hv in Hvw.
  destruct (sending_get N w HN Hvw Hf) as [Hg|Hc]; [by eapply with_proc_progress|by eapply worker_progress].
Qed.

Lemma progress job N s : 0 < N -> inv job N s -> l_pc s <> LDone -> exists s', step job N s s'.
Proof.
  intros HN HI Hd. pose proof HI as [H1 H2 H3].
  assert (Hnow : forall l ps, leader_steps job N s = [mkSys l ps] -> exists s', step job N s s').
  { intros l ps Hl. eexists. apply step_leader. rewrite Hl. by apply list_elem_of_singleton. }
  assert (Hlook : forall i, i < length (procs s) -> exists w, procs s !! i = Some w) by (intros; by apply lookup_lt_is_Some_2).
  destruct (l_pc s) as [r|r|r now|i| | |i| |i|i|i| | | | | |] eqn:El; simpl in H2; try done.
  - eapply (wait_progress job N s _ _ VFresh); [done|by rewrite El|unfold leader_steps, ExecSort_steps, ExecEndSort_steps; by rewrite El|].
    intros w Hw [Hj _]. destruct (fresh_can N w Hw) as [[? ?]|?]; [left; by apply in_state_spec|by right].
  - eapply Hnow. unfold leader_steps, ExecSort_steps, ExecEndSort_steps. by rewrite El.
  - destruct r as [|r]; [eapply Hnow; unfold leader_steps, ExecSort_steps, ExecEndSort_steps; by rewrite El|]. destruct (Hlook now H2) as [w Hw].
    eapply (send_progress job N s now w); [done|done|done|by rewrite El|unfold leader_steps, ExecSort_steps, ExecEndSort_steps; by rewrite El].
  - destruct (decide (i < length (procs s))) as [Hi|Hi]; [|eapply Hnow; unfold leader_steps, ExecSort_steps, ExecEndSort_steps; by rewrite El, decide_False].
    destruct (Hlook i Hi) as [w Hw]. eapply (send_progress job N s i w); [done|done|done| |unfold leader_steps, ExecSort_steps, ExecEndSort_steps; by rewrite El, decide_True].
    rewrite El. simpl. by rewrite decide_False by lia.
  - eapply (wait_progress job N s _ _ VTold); [done|by rewrite El|unfold leader_steps, ExecSort_steps, ExecEndSort_steps; by rewrite El|].
    intros w Hw [Hj Ht]. destruct (told_can N w Hw Ht) as [?|?]; [left|by right]. apply in_state_spec. destruct Hw as (_ & _ & ? & _). done.
  - eapply Hnow. unfold leader_steps, ExecSort_steps, ExecEndSort_steps. by rewrite El.
  - destruct (decide (i < length (procs s))) as [Hi|Hi]; [|eapply Hnow; unfold leader_steps, ExecSort_steps, ExecEndSort_steps; by rewrite El, decide_False].
    destruct (Hlook i Hi) as [w Hw]. eapply (get_progress job N s i w); [done|done|done|by rewrite El|by eapply H2|unfold leader_steps, ExecSort_steps, ExecEndSort_steps; by rewrite El, decide_True].
  - eexists. apply step_leader. unfold leader_steps, ExecSort_steps, ExecEndSort_steps. rewrite El. by left.
  - destruct H2 as (w & Hw & Hf). eapply (get_progress job N s i w); [done|done|done|by rewrite El|done|unfold leader_steps, ExecSort_steps, ExecEndSort_steps; by rewrite El].
  - destruct (decide (i < length (procs s))) as [Hi|Hi]; [|eapply Hnow; unfold leader_steps, ExecSort_steps, ExecEndSort_steps; by rewrite El, decide_False].
    destruct (Hlook i Hi) as [w Hw]. eapply with_proc_progress; [done|unfold leader_steps, ExecSort_steps, ExecEndSort_steps; by rewrite El, decide_True|eauto].
  - destruct (Hlook i H2) as [w Hw]. eapply with_proc_progress; [done|unfold leader_steps, ExecSort_steps, ExecEndSort_steps; by rewrite El|eauto].
  - eapply (wait_progress job N s _ _ VStopped); [done|by rewrite El|unfold leader_steps, ExecSort_steps, ExecEndSort_steps; by rewrite El|].
    intros w Hw [Hj _]. destruct (stopped_can N w Hw) as [?|?]; [left|by right]. apply in_state_spec. by destruct Hw as (? & _).
  - eapply Hnow. unfold leader_steps, ExecSort_steps, ExecEndSort_steps. by rewrite El.
  - eapply (wait_progress job N s _ _ VDying); [done|by rewrite El|unfold leader_steps, ExecSort_steps, ExecEndSort_steps; by rewrite El|].
    intros w Hw [Hj _]. destruct (dying_can N w Hw) as [?|?]; [left|by right]. apply in_state_spec. by destruct Hw as (? & _).
Qed.

(** ** Termination *)

(** What it has left to do in a phase with [n] workers. *)
Definition left_over (n : nat) (l : lpc) : nat :=
  match l with
  | LSend r _ => 5 * r
  | LSendLast i => 5 * (n - i)
  | LMerge => 1
  | LStopSet i => 2 * (n - i)
  | LStopGet i => 2 * (n - i) - 1
  | _ => 0
  end.
(** A bound on the steps a worker and the cells in its queue give rise to. *)
Definition potential (w : wproc) : nat :=
  let L := length (w_queue w) in
  match w_pc w with
  | WForked => 4 * L + 20
  | WWaitReady =>
    if decide (workType (w_shared w) = PRL_WORK_TYPE_END) then 2 * L + 4
    else if decide (state (w_shared w) = PRL_WORKER_STATE_END) then 2 * L + 5 else 4 * L + 15
  | WRecv c => 3 * c + 4 * L + 14
  | WFinish c => 3 * c + 2 * L + 12
  | WWaitAck c => 3 * c + 2 * L + 11
  | WSend k => 3 * k + 2 * L + 10
  | WEnd => 2 * L + 6
  | WDie => 2 * L + 3
  | WExit => 2 * L
  end.
Definition measure (s : sys) : nat := left_over (length (procs s)) (l_pc s) + sum_list_with potential (procs s).

Lemma sum_insert (ps : list wproc) i w w' :
  ps !! i = Some w -> sum_list_with potential (<[i := w']> ps) + potential w = sum_list_with potential ps + potential w'.
Proof. revert i. induction ps as [|p ps IH]; intros [|i] Hi; simplify_eq/=; [lia|]. specialize (IH _ Hi). lia. Qed.

Lemma potential_step N w w' : w' ∈ worker_steps N w -> potential w' < potential w.
Proof.
  intros H. unfold worker_steps in H. unfold potential. destruct (w_pc w) as [| |c|c|c|k| | |]; elem H; simpl.
  - repeat case_decide; lia.
  - destruct (waitForState _ _) eqn:E; [by apply elem_of_nil in H|..|].
    + unfold waitForState in E. destruct (decide (state (w_shared w) = PRL_WORKER_STATE_READY)) as [Hst|]; [|repeat case_decide; congruence].
      rewrite Hst. case_decide; elem H; simpl; lia.
    + elem H. simpl. repeat case_decide; lia.
  - destruct (w_queue w) as [|[|] q]; [by apply elem_of_nil in H|..]; elem H; simpl; lia.
  - lia.
  - destruct (waitForState _ _); [by apply elem_of_nil in H|..]; [|elem H; simpl; lia].
    apply list_elem_of_fmap in H as (k & -> & Hk%elem_of_seq). simpl. lia.
  - case_decide; [|by apply elem_of_nil in H]. destruct k as [|k]; elem H; simpl; rewrite length_app; simpl; [lia|]. destruct (w_stop w); lia.
  - repeat case_decide; simplify_eq/=; lia.
  - lia.
  - by apply elem_of_nil in H.
Qed.

Lemma potential_cells w b : potential (set_wqueue (w_queue w ++ [b]) w) <= potential w + 4.
Proof. unfold potential. simpl. rewrite length_app. simpl. destruct (w_pc w); repeat case_decide; lia. Qed.
Lemma potential_get w w' : get w = Some w' -> potential w' + 2 <= potential w.
Proof. intros (b & q & Hq & ->)%get_inv. unfold potential. simpl. rewrite Hq. simpl. destruct (w_pc w); repeat case_decide; lia. Qed.
Lemma potential_tail w : potential (set_wqueue (tail (w_queue w)) w) <= potential w.
Proof. unfold potential. simpl. destruct (w_queue w); simpl; destruct (w_pc w); repeat case_decide; lia. Qed.

Definition decreases (s s' : sys) : Prop :=
  phase (l_pc s') < phase (l_pc s) \/ (phase (l_pc s') = phase (l_pc s) /\ measure s' < measure s).

Lemma one_decreases s i w w' l :
  procs s !! i = Some w -> phase l = phase (l_pc s) ->
  left_over (length (procs s)) l + potential w' < left_over (length (procs s)) (l_pc s) + potential w ->
  decreases s (mkSys l (<[i := w']> (procs s))).
Proof.
  intros Hi Hp Hlt. right. split; [done|]. unfold measure. simpl. rewrite length_insert. pose proof (sum_insert _ _ _ w' Hi). lia.
Qed.

Lemma leader_decreases job N s s' : s' ∈ leader_steps job N s -> decreases s s'.
Proof.
  intros H. unfold leader_steps, ExecSort_steps, ExecEndSort_steps in H.
  assert (Hwait : forall st l, s' ∈ (if waitForWorkers job (length (procs s)) st (shared_list s) then [mkSys l (procs s)] else []) ->
    phase l < phase (l_pc s) -> decreases s s').
  { intros st l Hw Hp. destruct (waitForWorkers job (length (procs s)) st (shared_list s)); [|by apply elem_of_nil in Hw]. apply list_elem_of_singleton in Hw as ->. by left. }
  destruct (l_pc s) as [r|r|r now|i| | |i| |i|i|i| | | | | |] eqn:El;
    try (eapply Hwait; [exact H|simpl; lia]); try (elem H; left; rewrite El; simpl; lia); try (by apply elem_of_nil in H).
  - destruct r as [|r]; [elem H; left; rewrite El; simpl; lia|]. apply with_proc_inv in H as (w & w' & Hw & [_ ->]%send_inv & ->).
    eapply one_decreases; [done|by rewrite El|]. rewrite El. pose proof (potential_cells w false). cbn [left_over]. lia.
  - case_decide; [|elem H; left; rewrite El; simpl; lia]. apply with_proc_inv in H as (w & w' & Hw & [_ ->]%send_inv & ->).
    eapply one_decreases; [done|by rewrite El|]. rewrite El. pose proof (potential_cells w true). cbn [left_over]. lia.
  - case_decide; [|elem H; left; rewrite El; simpl; lia]. apply with_proc_inv in H as (w & w' & Hw & Hg%potential_get & ->).
    eapply one_decreases; [done|by rewrite El|]. rewrite El. cbn [left_over]. lia.
  - apply elem_of_cons in H as [->|(i & -> & _)%list_elem_of_fmap]; [left; rewrite El; simpl; lia|].
    right. rewrite El. split; [done|]. unfold measure. rewrite El. simpl. lia.
  - apply with_proc_inv in H as (w & w' & Hw & Hg%potential_get & ->). eapply one_decreases; [done|by rewrite El|]. rewrite El. cbn [left_over]. lia.
  - case_decide as Hi; [|elem H; left; rewrite El; simpl; lia]. apply with_proc_inv in H as (w & w' & Hw & [= <-] & ->).
    assert (Hp : potential (if to_stop job (w_shared w) then set_wstop true w else w) = potential w) by (by destruct (to_stop job (w_shared w))).
    eapply one_decreases; [done|rewrite El; repeat case_match; done|]. rewrite El, Hp. repeat case_match; cbn [left_over]; lia.
  - apply with_proc_inv in H as (w & w' & Hw & [= <-] & ->). pose proof (lookup_lt_Some _ _ _ Hw).
    eapply one_decreases; [done|by rewrite El|]. rewrite El. pose proof (potential_tail w). cbn [left_over]. lia.
  - destruct (waitForAllWorkers _ _); [|by apply elem_of_nil in H]. elem H. left. rewrite El. simpl. lia.
Qed.

Lemma step_decreases job N s s' : step job N s s' -> decreases s s'.
Proof.
  intros [s'' H|i w w' Hi H]; [by eapply leader_decreases|]. eapply one_decreases; [done|done|]. pose proof (potential_step _ _ _ H). lia.
Qed.

Lemma decreases_wf s : Acc (fun s' s => decreases s s') s.
Proof.
  remember (phase (l_pc s)) as p eqn:Hp. revert s Hp. induction (lt_wf p) as [p _ IHp]. intros s Hp.
  remember (measure s) as m eqn:Hm. revert s Hp Hm. induction (lt_wf m) as [m _ IHm]. intros s Hp Hm.
  constructor. intros s' [Hlt|[Heq Hlt]].
  - eapply IHp; [|done]. by rewrite Hp.
  - eapply IHm; [|congruence|done]. by rewrite Hm.
Qed.

Lemma step_wf job N s : Acc (fun s' s => step job N s s') s.
Proof. induction (decreases_wf s) as [s _ IH]. constructor. intros s' Hs. apply IH. by eapply step_decreases. Qed.

Lemma inv_step job N s s' : 0 < N -> inv job N s -> step job N s s' -> inv job N s'.
Proof. intros HN HI [s'' H|i w w' Hi H]; [by eapply inv_leader_step|by eapply inv_worker]. Qed.

Lemma inv_steps job N s s' : 0 < N -> inv job N s -> rtc (step job N) s s' -> inv job N s'.
Proof. intros HN HI Hr. induction Hr; [done|]. apply IHHr. by eapply inv_step. Qed.

(** Every run can be continued to the end. *)
Lemma runs_to_the_end job N s : 0 < N -> inv job N s -> exists s', rtc (step job N) s s' /\ l_pc s' = LDone.
Proof.
  intros HN. induction (step_wf job N s) as [s _ IH]. intros HI. destruct (decide (phase (l_pc s) = 2)) as [Hd|Hd].
  - exists s. split; [apply rtc_refl|]. by destruct (l_pc s).
  - destruct (progress job N s HN HI) as [s1 H1]; [by intros E; rewrite E in Hd|].
    destruct (IH s1 H1 (inv_step _ _ _ _ HN HI H1)) as (s' & Hr & ?). exists s'. split; [by eapply rtc_l|done].
Qed.

(** ** After a cancel *)

(** A worker in waitForState that nobody will answer any more, or that is gone without having been cancelled. *)
Definition waits_in_vain (w : wproc) : Prop :=
  valid (w_shared w) = true /\
  (((exists c, w_pc w = WWaitAck c) /\ state (w_shared w) = PRL_WORKER_STATE_FINISHED) \/
   (w_pc w = WWaitReady /\ state (w_shared w) = PRL_WORKER_STATE_INITIAL) \/
   (w_pc w = WExit /\ state (w_shared w) = PRL_WORKER_STATE_DEAD)).

Lemma vain_no_step N w w' : waits_in_vain w -> w' ∈ worker_steps N w ++ worker_cancel_steps w -> False.
Proof.
  intros (_ & [[[c Hpc] Hst]|[[Hpc Hst]|[Hpc Hst]]]) [H|H]%elem_of_app.
  all: try (unfold worker_cancel_steps in H; rewrite Hpc in H; by destruct (w_sigint w); apply elem_of_nil in H).
  all: worker_step Hpc H.
Qed.

Lemma vain_blocks ws w : w ∈ ws -> valid w = true -> state w <> PRL_WORKER_STATE_CANCELED -> state w <> PRL_WORKER_STATE_END ->
  waitForAllWorkers PRL_WORKER_STATE_CANCELED ws = false.
Proof.
  intros Hin Hv H1 H2. destruct (waitForAllWorkers _ _) eqn:E; [|done]. unfold waitForAllWorkers in E.
  rewrite forallb_forall in E. specialize (E w ltac:(by apply list_elem_of_In)). rewrite Hv in E.
  by rewrite !bool_decide_true in E by done.
Qed.

Definition hung (i : nat) (s : sys) : Prop := l_pc s = LCancel /\ exists w, procs s !! i = Some w /\ waits_in_vain w.

Lemma hung_step job N i s s' : hung i s -> cstep job N s s' -> hung i s'.
Proof.
  intros (Hl & w & Hi & Hw) Hs.
  assert (Hwait : waitForAllWorkers PRL_WORKER_STATE_CANCELED (shared_list s) = false).
  { apply (vain_blocks _ (w_shared w)); [|by destruct Hw|..].
    - apply list_elem_of_fmap. exists w. split; [done|]. by eapply list_elem_of_lookup_2.
    - destruct Hw as (_ & [[_ ?]|[[_ ?]|[_ ?]]]); congruence.
    - destruct Hw as (_ & [[_ ?]|[[_ ?]|[_ ?]]]); congruence. }
  assert (Hother : forall j w0 w0', procs s !! j = Some w0 -> w0' ∈ worker_steps N w0 ++ worker_cancel_steps w0 ->
    hung i (mkSys (l_pc s) (<[j := w0']> (procs s)))).
  { intros j w0 w0' Hj H. split; [done|]. destruct (decide (j = i)) as [->|Hne].
    - exfalso. assert (w0 = w) as -> by congruence. by eapply vain_no_step.
    - exists w. simpl. by rewrite list_lookup_insert_ne. }
  destruct Hs as [s'' [s3 H|j w0 w0' Hj H]|H|j w0 w0' Hj H].
  - unfold leader_steps, ExecSort_steps, ExecEndSort_steps in H. rewrite Hl, Hwait in H. by apply elem_of_nil in H.
  - apply (Hother j w0); [done|]. apply elem_of_app. by left.
  - by rewrite Hl in H.
  - apply (Hother j w0); [done|]. apply elem_of_app. by right.
Qed.

(** ** Running *)

(** The choice of the next step: the leader, a worker, a worker that notices the cancel (each with the number of the
    alternative), or the cancel itself. *)
Inductive choice := Leader (k : nat) | Wrk (i k : nat) | Notice (i : nat) | Cancel.
Definition choose (job : Z) (N : nat) (c : choice) (s : sys) : option sys :=
  match c with
  | Leader k => leader_steps job N s !! k
  | Wrk i k => w ← procs s !! i; w' ← worker_steps N w !! k; Some (mkSys (l_pc s) (<[i := w']> (procs s)))
  | Notice i => w ← procs s !! i; w' ← worker_cancel_steps w !! 0; Some (mkSys (l_pc s) (<[i := w']> (procs s)))
  | Cancel => if cancellable (l_pc s) then Some (mkSys LCancel (set_sigint true <$> procs s)) else None
  end.
Fixpoint run (job : Z) (N : nat) (cs : list choice) (s : sys) : option sys :=
  match cs with [] => Some s | c :: cs' => s' ← choose job N c s; run job N cs' s' end.

Lemma choose_sound job N c s s' : choose job N c s = Some s' -> cstep job N s s' /\ (c <> Cancel -> (forall i, c <> Notice i) -> step job N s s').
Proof.
  destruct c as [k|i k|i|]; simpl; intros H.
  - apply list_elem_of_lookup_2 in H. split; [apply cstep_step|intros _ _]; by apply step_leader.
  - apply bind_Some in H as (w & Hi & (w' & Hw%list_elem_of_lookup_2 & [= <-])%bind_Some).
    split; [apply cstep_step|intros _ _]; by eapply step_worker.
  - apply bind_Some in H as (w & Hi & (w' & Hw%list_elem_of_lookup_2 & [= <-])%bind_Some).
    split; [by eapply cstep_worker|]. intros _ Hn. by destruct (Hn i).
  - destruct (cancellable (l_pc s)) eqn:E; [|done]. injection H as <-. split; [by apply cstep_cancel|done].
Qed.

Lemma run_sound job N cs : forall s s', run job N cs s = Some s' -> rtc (cstep job N) s s'.
Proof.
  induction cs as [|c cs IH]; simpl; intros s s' H; [injection H as <-; apply rtc_refl|].
  apply bind_Some in H as (s1 & H1 & H2). eapply rtc_l; [by apply choose_sound in H1 as [? _]|by apply IH].
Qed.

Definition no_cancel (c : choice) : bool := match c with Cancel | Notice _ => false | _ => true end.
Lemma run_sound_plain job N cs : forall s s', forallb no_cancel cs = true -> run job N cs s = Some s' -> rtc (step job N) s s'.
Proof.
  induction cs as [|c cs IH]; simpl; intros s s' Hc H; [injection H as <-; apply rtc_refl|]. apply andb_true_iff in Hc as [Hc Hcs].
  apply bind_Some in H as (s1 & H1 & H2). eapply rtc_l; [|by apply IH]. apply choose_sound in H1 as [_ H1]. apply H1; by destruct c.
Qed.

Lemma ready_workers_spec job ws : forall i j, j ∈ ready_workers job i ws <-> i <= j /\ exists w, ws !! (j - i) = Some w /\ in_state job PRL_WORKER_STATE_INITIAL w = true.
Proof.
  induction ws as [|w ws IH]; intros i j; simpl; [rewrite elem_of_nil; split; [done|intros (_ & ? & ? & _); done]|].
  assert (Hrec : j ∈ ready_workers job (S i) ws <-> i <= j /\ i <> j /\ exists v, (w :: ws) !! (j - i) = Some v /\ in_state job PRL_WORKER_STATE_INITIAL v = true).
  { rewrite IH. split.
    - intros (Hle & v & Hv & Hs). split_and!; [lia|lia|]. exists v. replace (j - i) with (S (j - S i)) by lia. done.
    - intros (Hle & Hne & v & Hv & Hs). split; [lia|]. exists v. replace (j - i) with (S (j - S i)) in Hv by lia. done. }
  destruct (in_state job PRL_WORKER_STATE_INITIAL w) eqn:E; [rewrite elem_of_cons|]; rewrite Hrec.
  - split.
    + intros [->|(? & _ & ?)]; [|done]. split; [lia|]. exists w. by rewrite Nat.sub_diag.
    + intros (Hle & v & Hv & Hs). destruct (decide (i = j)) as [->|]; [by left|right]. eauto.
  - split; [intros (? & _ & ?); done|]. intros (Hle & v & Hv & Hs). split_and!; [done| |eauto]. intros ->. rewrite Nat.sub_diag in Hv. simplify_eq/=. congruence.
Qed.
Lemma ready_workers_length job ws i : length (ready_workers job i ws) = count_in_state job PRL_WORKER_STATE_INITIAL ws.
Proof. revert i. induction ws as [|w ws IH]; intros i; simpl; [done|]. destruct (in_state _ _ w); simpl; by rewrite IH. Qed.

(** The leader deals out rows or waits for the workers to have sorted them. *)
Definition dealing (l : lpc) : bool := match l with LSend _ _ | LSendLast _ | LWaitFinished => true | _ => false end.
(** It merges what they send, or stops them. *)
Definition merging (l : lpc) : bool :=
  match l with LFetch _ | LMerge | LGet _ | LStopSet _ | LStopGet _ | LWaitEnd => true | _ => false end.

Lemma view_pc N l i w : wview N (view_of l i) w ->
  (forall c, w_pc w = WRecv c -> dealing l = true) /\ (forall k, w_pc w = WSend k -> merging l = true).
Proof.
  intros Hv. split; intros c Hpc; destruct l; try done; exfalso; simpl in Hv; repeat case_decide; unfold wview, receiving, sending, ending, ended in Hv;
    repeat match goal with H : _ /\ _ |- _ => destruct H | H : _ \/ _ |- _ => destruct H | H : exists _, _ |- _ => destruct H end; congruence.
Qed.

(** ** Properties *)

(** C3: The protocol between the leader and its workers cannot deadlock and always ends.  For any number of workers, rows and capacity of
    the queues, and any interleaving without a cancel: there is no infinite run; a state in which
    no process can take a step is one where the leader is done and all workers are DEAD; and such a state
    can be reached from every state. *)
Theorem protocol_terminates job N n r s :
  0 < N -> 0 < n -> rtc (step job N) (initial_sys job n r) s ->
  Acc (fun s' s => step job N s s') s /\
  ((forall s', ~ step job N s s') -> l_pc s = LDone /\ Forall (fun w => state (w_shared w) = PRL_WORKER_STATE_DEAD) (procs s)) /\
  exists s', rtc (step job N) s s' /\ l_pc s' = LDone.
Proof.
  intros HN Hn Hr. assert (HI : inv job N s) by (eapply inv_steps; [done|by apply inv_initial|done]).
  split_and!; [apply step_wf| |by apply runs_to_the_end].
  intros Hno. destruct (decide (phase (l_pc s) = 2)) as [Hp|Hp].
  - assert (El : l_pc s = LDone) by (by destruct (l_pc s)). split; [done|]. apply Forall_lookup_2. intros i w Hi.
    destruct (inv_procs _ _ _ HI _ _ Hi) as [Hv _]. rewrite El in Hv. by destruct Hv as (_ & ? & _).
  - destruct (progress job N s HN HI) as [s' Hs]; [by intros E; rewrite E in Hp|]. by destruct (Hno s').
Qed.

(** The two directions of a queue do not mix.  In any run, a worker receives only while the leader is dealing out rows or waits for the
    workers to finish, it sends only while the leader merges or ends the sort, and when the leader destroys
    the queues every worker is waiting for its next job. *)
Lemma queue_directions_separate job N n r s i w :
  0 < N -> 0 < n -> rtc (step job N) (initial_sys job n r) s -> procs s !! i = Some w ->
  (forall c, w_pc w = WRecv c -> dealing (l_pc s) = true) /\
  (forall k, w_pc w = WSend k -> merging (l_pc s) = true) /\
  (l_pc s = LEndTask -> w_pc w = WWaitReady /\ state (w_shared w) = PRL_WORKER_STATE_END).
Proof.
  intros HN Hn Hr Hi. assert (HI : inv job N s) by (eapply inv_steps; [done|by apply inv_initial|done]).
  destruct (inv_procs _ _ _ HI _ _ Hi) as [Hv _]. destruct (view_pc _ _ _ _ Hv) as [Hr1 Hr2]. split_and!; [done|done|].
  intros El. rewrite El in Hv. by destruct Hv as [_ [? ?]].
Qed.

(** C30: stateTransition changes exactly the valid workers of the job that are in the old state, and returns their number; the
    workers of other jobs in the list are left as they are.  waitForWorkers returns in the
    round where as many workers of the job as asked for are in the state. *)
Theorem stateTransition_spec job o st ws :
  fst (stateTransition job o st ws) = count_in_state job o ws /\
  (forall i w, ws !! i = Some w -> snd (stateTransition job o st ws) !! i =
     Some (if in_state job o w then mkWorker true st (jobId w) (workType w) else w)) /\
  (o <> st -> count_in_state job o (snd (stateTransition job o st ws)) = 0) /\
  (waitForWorkers job (length ws) st ws = true <-> forall w, w ∈ ws -> valid w = true /\ state w = st /\ jobId w = job).
Proof.
  split_and!.
  - apply stateTransition_count.
  - intros i w Hi. rewrite stateTransition_fmap, list_lookup_fmap, Hi. simpl. destruct (in_state job o w) eqn:E; [|done].
    apply in_state_spec in E as (Hv & _). unfold set_state. by rewrite Hv.
  - intros Hne. rewrite stateTransition_fmap. induction ws as [|w ws IH]; [done|]. rewrite fmap_cons. simpl. rewrite IH.
    destruct (in_state job o w) eqn:E; [|by rewrite E]. destruct (in_state job o (set_state st w)) eqn:E'; [|done].
    apply in_state_spec in E' as (_ & ? & _). simpl in *. congruence.
  - unfold waitForWorkers. rewrite bool_decide_eq_true, count_in_state_all, Forall_forall. by setoid_rewrite in_state_spec.
Qed.

(** C32: registerWorkers, called after waitForWorkers has seen [prl_level] initialised workers of the job, fills the array with exactly these and
    neither writes past its end nor fails its assertion. *)
Theorem registerWorkers_spec job prl_level ws :
  waitForWorkers job prl_level PRL_WORKER_STATE_INITIAL ws = true ->
  exists ids, registerWorkers job prl_level ws = Ok ids /\ length ids = prl_level /\
    forall j, j ∈ ids <-> exists w, ws !! j = Some w /\ valid w = true /\ state w = PRL_WORKER_STATE_INITIAL /\ jobId w = job.
Proof.
  intros Hw. apply bool_decide_eq_true in Hw. exists (ready_workers job 0 ws). unfold registerWorkers.
  rewrite ready_workers_length, Hw, decide_False, decide_True by lia. split_and!; [done|done|].
  intros j. rewrite ready_workers_spec, Nat.sub_0_r. setoid_rewrite in_state_spec. split; [intros [_ H]; exact H|intros H; split; [lia|exact H]].
Qed.

(** C35: A cancelled query can hang.  waitForState does not look at interrupts: once the leader has been cancelled and waits for all workers to be
    CANCELED, a worker that has finished and waits for FINISHED_ACK, one that waits for its first job, or one that is
    DEAD but still in the list keeps the leader in waitForAllWorkers for ever, whatever the processes do. *)
Theorem cancel_hangs_leader job N i w s s' :
  l_pc s = LCancel -> procs s !! i = Some w -> waits_in_vain w -> rtc (cstep job N) s s' -> l_pc s' = LCancel.
Proof.
  intros Hl Hi Hw Hr. assert (Hh : hung i s) by (split; [done|by exists w]). clear Hl Hi Hw.
  induction Hr as [s|s s1 s2 Hs Hr IH]; [by destruct Hh|]. apply IH. by eapply hung_step.
Qed.

(** ** Witnesses *)

(** One worker, one row: up to the point where the leader waits for the worker to finish. *)
Definition demo_start : list choice := [Wrk 0 0; Leader 0; Leader 0; Leader 0; Leader 0; Leader 0; Leader 0; Wrk 0 0; Wrk 0 0; Wrk 0 0].
Definition demo_at (cs : list choice) (s0 : sys) : sys := match run 7 2 cs s0 with Some s => s | None => s0 end.
Definition demo_working : sys := demo_at demo_start (initial_sys 7 1 1).
Lemma demo_working_reached : rtc (step 7 2) (initial_sys 7 1 1) demo_working.
Proof. apply (run_sound_plain 7 2 demo_start); vm_compute; reflexivity. Qed.

Lemma protocol_terminates_witness :
  l_pc demo_working = LWaitFinished /\ exists s', rtc (step 7 2) demo_working s' /\ l_pc s' = LDone.
Proof.
  split; [vm_compute; reflexivity|].
  exact (proj2 (proj2 (protocol_terminates 7 2 1 1 demo_working ltac:(lia) ltac:(lia) demo_working_reached))).
Defined.

Definition demo_sending : sys := demo_at [Wrk 0 0; Leader 0; Leader 0; Wrk 0 1] demo_working.
Lemma demo_sending_reached : rtc (step 7 2) (initial_sys 7 1 1) demo_sending.
Proof.
  transitivity demo_working; [exact demo_working_reached|]. apply (run_sound_plain 7 2 [Wrk 0 0; Leader 0; Leader 0; Wrk 0 1]); vm_compute; reflexivity.
Qed.
Definition demo_sender : wproc :=
  mkProc (WSend 1) (mkWorker true PRL_WORKER_STATE_FINISHED_ACK 7 PRL_WORK_TYPE_SORT) [] false false false.
Lemma demo_sending_is : procs demo_sending !! 0 = Some demo_sender.
Proof. vm_compute. reflexivity. Qed.
Lemma queue_directions_separate_witness :
  procs demo_sending !! 0 = Some demo_sender /\ merging (l_pc demo_sending) = true.
Proof.
  split; [exact demo_sending_is|].
  exact (proj1 (proj2 (queue_directions_separate 7 2 1 1 demo_sending 0 demo_sender ltac:(lia) ltac:(lia) demo_sending_reached demo_sending_is)) 1 eq_refl).
Defined.

Definition demo_list : list Worker :=
  [mkWorker true PRL_WORKER_STATE_INITIAL 7 PRL_WORK_TYPE_SORT; mkWorker true PRL_WORKER_STATE_READY 9 PRL_WORK_TYPE_SORT;
   mkWorker true PRL_WORKER_STATE_INITIAL 7 PRL_WORK_TYPE_SORT].
Lemma registerWorkers_spec_witness :
  exists ids, registerWorkers 7 2 demo_list = Ok ids /\ ids = [0; 2] /\ length ids = 2.
Proof.
  destruct (registerWorkers_spec 7 2 demo_list eq_refl) as (ids & He & Hl & _). exists ids. split; [exact He|]. split; [|exact Hl].
  vm_compute in He. injection He as <-. reflexivity.
Defined.

(** Two workers; the first has finished and waits for the acknowledgement when the query is cancelled; the second one is
    still receiving and notices the cancel. *)
Definition demo_cancelled : sys :=
  demo_at [Wrk 0 0; Wrk 1 0; Leader 0; Leader 0; Leader 0; Leader 0; Leader 0; Leader 0; Wrk 0 0; Wrk 0 0; Wrk 0 0; Wrk 1 0; Cancel; Notice 1]
    (initial_sys 7 2 0).
Lemma demo_cancelled_reached : rtc (cstep 7 2) (initial_sys 7 2 0) demo_cancelled.
Proof.
  apply (run_sound 7 2 [Wrk 0 0; Wrk 1 0; Leader 0; Leader 0; Leader 0; Leader 0; Leader 0; Leader 0; Wrk 0 0; Wrk 0 0; Wrk 0 0; Wrk 1 0; Cancel; Notice 1]).
  vm_compute. reflexivity.
Qed.
Definition demo_waiting : wproc :=
  mkProc (WWaitAck 0) (mkWorker true PRL_WORKER_STATE_FINISHED 7 PRL_WORK_TYPE_SORT) [] false false true.
Lemma demo_cancelled_is : l_pc demo_cancelled = LCancel /\ procs demo_cancelled !! 0 = Some demo_waiting.
Proof. vm_compute. split; reflexivity. Qed.
Lemma demo_waiting_in_vain : waits_in_vain demo_waiting.
Proof. split; [reflexivity|]. left. split; [exists 0; reflexivity|reflexivity]. Qed.
Lemma cancel_hangs_leader_witness :
  rtc (cstep 7 2) (initial_sys 7 2 0) demo_cancelled /\ forall s', rtc (cstep 7 2) demo_cancelled s' -> l_pc s' = LCancel.
Proof.
  split; [exact demo_cancelled_reached|]. intros s' Hr.
  exact (cancel_hangs_leader 7 2 0 demo_waiting demo_cancelled s' (proj1 demo_cancelled_is) (proj2 demo_cancelled_is) demo_waiting_in_vain Hr).
Defined.
