(* ===== verification/Append.v ===== *)
(** * Append: the append node (src/backend/executor/nodeAppend.c)

    ExecInitAppend, ExecAppend, ExecReScanAppend and ExecEndAppend when no workers are used: prl_sql is off, or the node runs in a worker.
    ExecAppend then returns the rows of its subplans one subplan after the other, in both directions.  The subplans are a class.  The
    other branch is in PrlAppend; how it gives the subplans to the workers is here. *)

From S2P Require Import Prelude.
From Stdlib Require Import Permutation.

(** ** The subplans *)

(** The calls of execProcnode.c, execAmi.c and execUtils.c on a subplan; [update_params] is UpdateChangedParamSet, with the new
    parameters in [V]. *)
Class SubPlan (P A V : Type) := {
  proc_node : bool -> P -> option A * P;    (* the first argument: forward *)
  rescan_node : P -> P;
  end_node : P -> P;
  param_changed : P -> bool;
  update_params : V -> P -> P }.

(** What is relied on: a subplan has a position in its rows, from 0 (before the first) to their number plus one (after the last), which a call moves;
    a rescan puts it to the start.  [for_params] are the rows it has for given parameters: when they change, either the subplan notes it and will
    start over, or it does not depend on them. *)
Class SubPlanLaws (P A V : Type) `{!SubPlan P A V} := {
  sp_rows : P -> list A;
  sp_pos : P -> nat;
  for_params : P -> V -> list A;
  sp_bound : forall p, sp_pos p <= S (length (sp_rows p));
  sp_proc : forall forward p, let pos := if forward : bool then Nat.min (S (sp_pos p)) (S (length (sp_rows p))) else pred (sp_pos p) in
    exists p', proc_node forward p = (match pos with O => None | S i => sp_rows p !! i end, p') /\
      sp_rows p' = sp_rows p /\ sp_pos p' = pos /\ for_params p' = for_params p;
  sp_rescan : forall p, sp_rows (rescan_node p) = sp_rows p /\ sp_pos (rescan_node p) = 0 /\ for_params (rescan_node p) = for_params p;
  sp_changed : forall p, param_changed p = true -> sp_pos p = 0;
  sp_update : forall v p, sp_rows (update_params v p) = for_params p v /\ for_params (update_params v p) = for_params p }.

(** ** The node *)

(** Whether the node uses workers; [None] before the first call. *)
Record AppendState (P : Type) := mkAppend { appendplans : list P; as_whichplan : Z; prl_append_state : option bool }.
Arguments mkAppend {P} appendplans as_whichplan prl_append_state.
Arguments appendplans {P} a.
Arguments as_whichplan {P} a.
Arguments prl_append_state {P} a.

(** as_whichplan afterwards, and whether there is a next subplan *)
Definition exec_append_initialize_next (whichplan nplans : Z) : Z * bool :=
  if (whichplan <? 0)%Z then (0%Z, false)
  else if (nplans <=? whichplan)%Z then ((nplans - 1)%Z, false)
  else (whichplan, true).

Section code.
Context {P A V : Type} `{!SubPlan P A V}.
Implicit Types (n : AppendState P).

Definition ExecInitAppend {Plan} (ExecInitNode : Plan -> P) (plans : list Plan) (eflags : Z) : res (AppendState P) :=
  if (Z.land eflags EXEC_FLAG_MARK =? 0)%Z then
    Ok (mkAppend (ExecInitNode <$> plans) (fst (exec_append_initialize_next 0 (Z.of_nat (length plans)))) None)
  else Err EAssert.

(** The loop of ExecAppend. *)
Fixpoint append_loop (fuel : nat) (forward : bool) n : res (option A * AppendState P) :=
  match fuel with
  | O => Err EDiverge
  | S fuel' =>
    let k := Z.to_nat (as_whichplan n) in
    subnode ← idx (appendplans n) k;
    let '(result, subnode) := proc_node forward subnode in
    let plans := <[k := subnode]> (appendplans n) in
    match result with
    | Some t => Ok (Some t, mkAppend plans (as_whichplan n) (prl_append_state n))
    | None =>
      let '(which, more) := exec_append_initialize_next (if forward then as_whichplan n + 1 else as_whichplan n - 1) (Z.of_nat (length plans)) in
      let n := mkAppend plans which (prl_append_state n) in
      if more then append_loop fuel' forward n else Ok (None, n)
    end
  end.
(** Each turn of the loop is for another subplan. *)
Definition ExecAppend (forward : bool) n : res (option A * AppendState P) :=
  append_loop (length (appendplans n)) forward (mkAppend (appendplans n) (as_whichplan n) (Some false)).

(** The parameters that have changed, if any, and whether there is an exprCtxt. *)
Definition rescan_subnode (chgParam : option V) (exprCtxt : bool) (subnode : P) : P :=
  let subnode := match chgParam with Some v => update_params v subnode | None => subnode end in
  if negb (param_changed subnode) || exprCtxt then rescan_node subnode else subnode.
Definition ExecReScanAppend (chgParam : option V) (exprCtxt : bool) n : AppendState P :=
  let plans := rescan_subnode chgParam exprCtxt <$> appendplans n in
  mkAppend plans (fst (exec_append_initialize_next 0 (Z.of_nat (length plans)))) (prl_append_state n).

(** It reads the state that the first call of ExecAppend has set. *)
Definition ExecEndAppend n : res (AppendState P) :=
  match prl_append_state n with
  | None => Err EUndef
  | Some _ => Ok (mkAppend (end_node <$> appendplans n) (as_whichplan n) (prl_append_state n))
  end.

(** ** Scans *)

Inductive append_op := Fetch (forward : bool) | ReScan (chgParam : option V) (exprCtxt : bool).
Fixpoint append_scan (ops : list append_op) n : res (list (option A) * AppendState P) :=
  match ops with
  | [] => Ok ([], n)
  | Fetch forward :: ops =>
    '(t, n) ← ExecAppend forward n;
    '(ts, n) ← append_scan ops n;
    Ok (t :: ts, n)
  | ReScan v ctx :: ops => append_scan ops (ExecReScanAppend v ctx n)
  end.

(** The same on one sequence of rows with a position. *)
Definition move (len : nat) (forward : bool) (pos : nat) : nat := if forward then Nat.min (S pos) (S len) else pred pos.
Definition row_at (rows : list A) (pos : nat) : option A := match pos with O => None | S i => rows !! i end.
End code.
Arguments append_op V : clear implicits.

(** [parts] are the rows of each subplan, and what they are for given parameters. *)
Fixpoint rows_scan {A V} (ops : list (append_op V)) (parts : list (list A * (V -> list A))) (pos : nat) : list (option A) :=
  match ops with
  | [] => []
  | Fetch forward :: ops =>
    let rows := concat parts.*1 in
    let pos := move (length rows) forward pos in
    row_at rows pos :: rows_scan ops parts pos
  | ReScan None _ :: ops => rows_scan ops parts 0
  | ReScan (Some v) _ :: ops => rows_scan ops ((fun p => (snd p v, snd p)) <$> parts) 0
  end.

(** ** Proofs: one subplan after the other *)

Section serial.
Context {P A V : Type} `{!SubPlan P A V} `{HP : !SubPlanLaws P A V}.
Implicit Types (p : P) (pre post : list P).

Definition at_end p : Prop := sp_pos p = S (length (sp_rows p)).
Definition at_begin p : Prop := sp_pos p = 0.
Definition len p : nat := length (sp_rows p).
Local Abbreviation rows_of ps := (concat (sp_rows <$> ps)).
(** What a call does not change. *)
Definition same_plan p p' : Prop := sp_rows p' = sp_rows p /\ for_params p' = for_params p.
#[local] Instance same_plan_refl : Reflexive same_plan.
Proof. by intros p. Qed.

(** The node at subplan [p]: those before it are at their end, those after it at their beginning. *)
Definition node_at pre p post prl : AppendState P := mkAppend (pre ++ p :: post) (Z.of_nat (length pre)) prl.

Lemma node_at_lookup pre p post : (pre ++ p :: post) !! length pre = Some p.
Proof. by rewrite lookup_app_r, Nat.sub_diag by lia. Qed.
Lemma node_at_insert pre p post p' : <[length pre := p']> (pre ++ p :: post) = pre ++ p' :: post.
Proof. by rewrite insert_app_r_alt, Nat.sub_diag by lia. Qed.

Lemma append_loop_eq fuel fwd pre p post prl o p' : proc_node fwd p = (o, p') ->
  append_loop (S fuel) fwd (node_at pre p post prl) =
  match o with
  | Some t => Ok (Some t, node_at pre p' post prl)
  | None =>
    let '(which, more) := exec_append_initialize_next (if fwd then Z.of_nat (length pre) + 1 else Z.of_nat (length pre) - 1) (Z.of_nat (length pre + S (length post))) in
    let n := mkAppend (pre ++ p' :: post) which prl in if more then append_loop fuel fwd n else Ok (None, n)
  end.
Proof.
  intros E. cbn [append_loop node_at as_whichplan appendplans prl_append_state]. rewrite Nat2Z.id, (idx_ok _ _ _ (node_at_lookup pre p post)). unfold mbind, res_bind.
  rewrite E, node_at_insert, length_app. by destruct o.
Qed.

(** The node between two calls, at position [pos] of the rows of all subplans. *)
Definition offset pre p : nat := length (rows_of pre) + sp_pos p.
Definition part p : list A * (V -> list A) := (sp_rows p, for_params p).
Definition between (parts : list (list A * (V -> list A))) (pos : nat) (n : AppendState P) : Prop :=
  exists pre p post prl, n = node_at pre p post prl /\ Forall at_end pre /\ Forall at_begin post /\ parts = part <$> (pre ++ p :: post) /\
    pos = offset pre p /\ (post = [] \/ sp_pos p <= len p) /\ (pre = [] \/ 1 <= sp_pos p).

Lemma rows_of_app pre post : rows_of (pre ++ post) = rows_of pre ++ rows_of post.
Proof. by rewrite fmap_app, concat_app. Qed.

Lemma row_before pre p post i : i < len p -> rows_of (pre ++ p :: post) !! (length (rows_of pre) + i) = sp_rows p !! i.
Proof. intros Hi. rewrite rows_of_app, lookup_app_r by lia. replace (_ + i - _) with i by lia. cbn. by rewrite lookup_app_l. Qed.

Lemma same_rows pre p p' post : same_plan p p' -> rows_of (pre ++ p' :: post) = rows_of (pre ++ p :: post) /\ part <$> (pre ++ p' :: post) = part <$> (pre ++ p :: post).
Proof. intros [E1 E2]. unfold part. by rewrite !fmap_app, !fmap_cons, E1, E2. Qed.

Lemma last_plan (k : nat) : exec_append_initialize_next (Z.of_nat k + 1) (Z.of_nat (k + 1)) = (Z.of_nat k, false).
Proof. unfold exec_append_initialize_next. rewrite (proj2 (Z.ltb_ge _ _)), (proj2 (Z.leb_le _ _)) by lia. f_equal. lia. Qed.
Lemma next_plan (k m : nat) : exec_append_initialize_next (Z.of_nat k + 1) (Z.of_nat (k + S (S m))) = (Z.of_nat (S k), true).
Proof. unfold exec_append_initialize_next. rewrite (proj2 (Z.ltb_ge _ _)), (proj2 (Z.leb_gt _ _)) by lia. f_equal. lia. Qed.
Lemma first_plan m : exec_append_initialize_next (Z.of_nat 0 - 1) m = (0%Z, false).
Proof. done. Qed.
Lemma prior_plan (k m : nat) : exec_append_initialize_next (Z.of_nat (S k) - 1) (Z.of_nat (S k + S m)) = (Z.of_nat k, true).
Proof. unfold exec_append_initialize_next. rewrite (proj2 (Z.ltb_ge _ _)), (proj2 (Z.leb_gt _ _)) by lia. f_equal. lia. Qed.

(** A call that moves within [p]. *)
Lemma append_here fuel fwd pre p post prl pos : Forall at_end pre -> Forall at_begin post -> move (len p) fwd (sp_pos p) = S pos -> pos < len p ->
  let rows := rows_of (pre ++ p :: post) in
  exists n', append_loop (S fuel) fwd (node_at pre p post prl) = Ok (rows !! (length (rows_of pre) + pos), n') /\
    between (part <$> (pre ++ p :: post)) (S (length (rows_of pre) + pos)) n'.
Proof.
  intros Hpre Hpost Hm Hlt rows. destruct (sp_proc fwd p) as (p' & Hp & Hr & Hpos & Hq). unfold move, len in *. rewrite Hm in Hp, Hpos.
  rewrite (append_loop_eq _ _ _ _ _ _ _ _ Hp). unfold rows. rewrite row_before by done. destruct (lookup_lt_is_Some_2 _ _ Hlt) as [t Ht]. rewrite Ht.
  eexists. split; [reflexivity|]. destruct (same_rows pre p p' post (conj Hr Hq)) as [E1 E2]. exists pre, p', post, prl. unfold offset, len. rewrite Hpos, Hr, E2. split_and!; try done; first [lia|right; lia].
Qed.
(** A call that leaves [p]. *)
Lemma append_leaves fwd p : (fwd = true -> len p <= sp_pos p) -> (fwd = false -> sp_pos p <= 1) ->
  exists p', proc_node fwd p = (None, p') /\ same_plan p p' /\ if fwd then at_end p' else at_begin p'.
Proof.
  intros H1 H2. destruct (sp_proc fwd p) as (p' & Hp & Hr & Hpos & Hq). exists p'. rewrite Hp. unfold at_end, at_begin, len in *. rewrite Hr, Hpos. destruct fwd.
  - specialize (H1 eq_refl). rewrite Nat.min_r by lia. by rewrite lookup_ge_None_2.
  - specialize (H2 eq_refl). by replace (pred (sp_pos p)) with 0 by lia.
Qed.

(** Forward: the first row that is left in [p] or behind it. *)
Lemma append_forward post : forall fuel pre p prl, length post < fuel -> Forall at_end pre -> Forall at_begin post ->
  let rows := rows_of (pre ++ p :: post) in
  let pos := length (rows_of pre) + Nat.min (sp_pos p) (len p) in
  exists n', append_loop fuel true (node_at pre p post prl) = Ok (rows !! pos, n') /\ between (part <$> (pre ++ p :: post)) (S pos) n'.
Proof.
  induction post as [|q post IH]; intros fuel pre p prl Hf Hpre Hpost rows pos; (destruct fuel as [|fuel]; [cbn in Hf; lia|]);
    (destruct (decide (sp_pos p < len p)) as [Hlt|Hge]; [unfold pos; rewrite Nat.min_l by lia; apply append_here; try done; unfold move, len in *; lia|]);
    destruct (append_leaves true p ltac:(lia) ltac:(done)) as (p' & Hp & Hs & He); rewrite (append_loop_eq _ _ _ _ _ _ _ _ Hp); cbn [length].
  - rewrite last_plan. destruct (same_rows pre p p' [] Hs) as [E1 E2]. eexists. split.
    + unfold rows, pos. rewrite Nat.min_r by lia. rewrite lookup_ge_None_2; [reflexivity|]. rewrite rows_of_app, length_app. cbn. rewrite app_nil_r. unfold len. lia.
    + exists pre, p', [], prl. unfold offset, len in *. rewrite E2, He, (proj1 Hs). unfold pos. split_and!; try done; first [lia|by left|right; lia].
  - rewrite next_plan. apply Forall_cons in Hpost as [Hq Hpost]. destruct (IH fuel (pre ++ [p']) q prl ltac:(cbn in Hf; lia) ltac:(apply Forall_app; by repeat constructor) Hpost) as (n' & Hn & Hb).
    destruct (same_rows pre p p' (q :: post) Hs) as [E1 E2].
    assert (Epos : length (rows_of (pre ++ [p'])) + Nat.min (sp_pos q) (len q) = pos).
    { unfold pos. rewrite Hq, Nat.min_0_l, rows_of_app, length_app, Nat.min_r by lia. cbn. rewrite app_nil_r, (proj1 Hs). unfold len. lia. }
    rewrite Epos, <- (assoc_L (++)) in Hn, Hb. cbn [app] in Hn, Hb. rewrite E1 in Hn. rewrite E2 in Hb.
    exists n'. split; [|done]. unfold rows. rewrite <- Hn. unfold node_at. by rewrite <- app_assoc, length_app, Nat.add_1_r.
Qed.

(** Backward: the last row before the one [p] is at. *)
Lemma append_backward pre : forall fuel p post prl, length pre < fuel -> Forall at_end pre -> Forall at_begin post ->
  let rows := rows_of (pre ++ p :: post) in
  let pos := length (rows_of pre) + pred (sp_pos p) in
  exists n', append_loop fuel false (node_at pre p post prl) = Ok (row_at rows pos, n') /\ between (part <$> (pre ++ p :: post)) pos n'.
Proof.
  induction pre as [|q pre IH] using rev_ind; intros fuel p post prl Hf Hpre Hpost rows pos; (destruct fuel as [|fuel]; [cbn in Hf; lia|]);
    (destruct (decide (1 < sp_pos p)) as [Hlt|Hge];
      [pose proof (sp_bound p); destruct (append_here fuel false _ p post prl (sp_pos p - 2) Hpre Hpost ltac:(unfold move; lia) ltac:(unfold len; lia)) as (n' & Hn & Hb);
       exists n'; unfold pos; replace (pred (sp_pos p)) with (S (sp_pos p - 2)) by lia; rewrite Nat.add_succ_r; done|]);
    destruct (append_leaves false p ltac:(done) ltac:(lia)) as (p' & Hp & Hs & He); rewrite (append_loop_eq _ _ _ _ _ _ _ _ Hp); cbn [length].
  - rewrite first_plan. destruct (same_rows [] p p' post Hs) as [E1 E2]. assert (pos = 0) as -> by (unfold pos; cbn; lia). eexists. split; [reflexivity|].
    exists [], p', post, prl. unfold offset. rewrite He, E2. split_and!; try done; first [by left|right; lia].
  - rewrite length_app, Nat.add_1_r in *. rewrite prior_plan. apply Forall_app in Hpre as [Hpre [Hq _]%Forall_cons]. 
    destruct (IH fuel q (p' :: post) prl ltac:(lia) Hpre ltac:(by constructor)) as (n' & Hn & Hb).
    destruct (same_rows (pre ++ [q]) p p' post Hs) as [E1 E2].
    assert (Epos : length (rows_of pre) + pred (sp_pos q) = pos).
    { unfold pos. rewrite Hq, rows_of_app, length_app. cbn. rewrite app_nil_r. lia. }
    rewrite <- (assoc_L (++)) in E1, E2. cbn [app] in E1, E2. rewrite Epos in Hn, Hb. rewrite E1 in Hn. rewrite E2 in Hb.
    exists n'. split; [|done]. unfold rows. rewrite <- Hn. unfold node_at. by rewrite <- app_assoc.
Qed.

Lemma parts_rows (ps : list P) : (part <$> ps).*1 = sp_rows <$> ps.
Proof. by rewrite <- list_fmap_compose. Qed.

Lemma ExecAppend_ok fwd parts pos n : between parts pos n ->
  let rows := concat parts.*1 in
  exists n', ExecAppend fwd n = Ok (row_at rows (move (length rows) fwd pos), n') /\ between parts (move (length rows) fwd pos) n'.
Proof.
  intros (pre & p & post & prl & -> & Hpre & Hpost & -> & -> & Hend & Hbeg) rows. unfold rows, ExecAppend, offset. cbn [node_at appendplans as_whichplan]. rewrite length_app, parts_rows. cbn [length].
  assert (Hl : length (rows_of (pre ++ p :: post)) = length (rows_of pre) + (len p + length (rows_of post))) by (rewrite rows_of_app, length_app; cbn; by rewrite length_app).
  pose proof (sp_bound p) as Hb. destruct fwd; unfold move.
  - destruct (append_forward post (length pre + S (length post)) pre p (Some false) ltac:(lia) Hpre Hpost) as (n' & Hn & Hb'). exists n'.
    replace (Nat.min _ _) with (S (length (rows_of pre) + Nat.min (sp_pos p) (len p))); [done|]. rewrite Hl. unfold len in *.
    destruct Hend as [->|Hend]; [cbn|]; lia.
  - destruct (append_backward pre (length pre + S (length post)) p post (Some false) ltac:(lia) Hpre Hpost) as (n' & Hn & Hb'). exists n'.
    replace (pred (length (rows_of pre) + sp_pos p)) with (length (rows_of pre) + pred (sp_pos p)); [done|]. destruct Hbeg as [->|Hbeg]; [done|lia].
Qed.

Lemma rescan_subnode_ok v ctx p : at_begin (rescan_subnode v ctx p) /\ part (rescan_subnode v ctx p) = match v with Some v => (for_params p v, for_params p) | None => part p end.
Proof.
  unfold rescan_subnode. set (q := match v with Some v => update_params v p | None => p end).
  assert (Eq : part q = match v with Some v => (for_params p v, for_params p) | None => part p end) by (unfold q, part; destruct v as [v|]; [by destruct (sp_update v p) as [-> ->]|done]).
  rewrite <- Eq. destruct (sp_rescan q) as (R1 & R2 & R3). destruct (param_changed q) eqn:Ec; cbn [negb orb]; [|by unfold part; rewrite R1, R3].
  destruct ctx; [by unfold part; rewrite R1, R3|]. split; [by apply sp_changed|done].
Qed.

Lemma begin_between (ps : list P) prl : ps <> [] -> Forall at_begin ps -> between (part <$> ps) 0 (mkAppend ps (fst (exec_append_initialize_next 0 (Z.of_nat (length ps)))) prl).
Proof.
  intros Hne Hb. destruct ps as [|p ps]; [done|]. apply Forall_cons in Hb as [Hp Hb]. exists [], p, ps, prl. unfold offset. rewrite Hp.
  split_and!; try done; first [by left|right; lia].
Qed.

Lemma ExecReScanAppend_ok (v : option V) ctx parts pos n : between parts pos n ->
  between (match v with Some v => (fun x => (snd x v, snd x)) <$> parts | None => parts end) 0 (ExecReScanAppend v ctx n).
Proof.
  intros (pre & p & post & prl & -> & _ & _ & -> & _). unfold ExecReScanAppend. cbn [node_at appendplans prl_append_state].
  assert (Hne : pre ++ p :: post <> []) by (by destruct pre). set (ps := pre ++ p :: post) in *.
  assert (E : (match v with Some v => (fun x : list A * (V -> list A) => (snd x v, snd x)) <$> (part <$> ps) | None => part <$> ps end) = part <$> (rescan_subnode v ctx <$> ps)).
  { rewrite <- (list_fmap_compose _ part). destruct v as [v|]; rewrite <- ?list_fmap_compose; apply list_fmap_ext; intros ? q _; cbn; by rewrite (proj2 (rescan_subnode_ok _ ctx q)). }
  rewrite E. apply begin_between; [by destruct ps|]. apply Forall_fmap, Forall_true. intros q. by apply rescan_subnode_ok.
Qed.

Lemma append_scan_ok ops : forall parts pos n, between parts pos n -> exists n', append_scan ops n = Ok (rows_scan ops parts pos, n').
Proof.
  induction ops as [|[fwd|v ctx] ops IH]; intros parts pos n Hb; cbn [append_scan rows_scan]; [by exists n| |].
  - destruct (ExecAppend_ok fwd parts pos n Hb) as (n1 & -> & Hb1). cbn. destruct (IH _ _ _ Hb1) as (n2 & ->). by exists n2.
  - apply (ExecReScanAppend_ok v ctx) in Hb. destruct v; by apply IH in Hb.
Qed.

(** The state that ExecEndAppend reads. *)
Lemma append_loop_state fuel fwd : forall n t n', append_loop fuel fwd n = Ok (t, n') -> prl_append_state n' = prl_append_state n.
Proof.
  induction fuel as [|fuel IH]; intros n t n' H; cbn [append_loop] in H; [done|].
  apply res_bind_inv in H as (p & _ & H). destruct (proc_node fwd p) as [[x|] p']; [by injection H as _ <-|].
  destruct (exec_append_initialize_next _ _) as [which [|]]; [by apply IH in H|by injection H as _ <-].
Qed.
Definition is_fetch (op : append_op V) : bool := match op with Fetch _ => true | _ => false end.
Lemma append_scan_state ops : forall n ts n', append_scan ops n = Ok (ts, n') ->
  prl_append_state n' = if existsb is_fetch ops then Some false else prl_append_state n.
Proof.
  induction ops as [|[fwd|v ctx] ops IH]; intros n ts n' H; cbn [append_scan existsb is_fetch orb] in *; [by injection H as _ <-| |by apply IH in H].
  apply res_bind_inv in H as ([t n1] & H1 & ([ts' n2] & H2 & [= _ <-])%res_bind_inv). apply append_loop_state in H1. apply IH in H2. rewrite H2, H1. by destruct (existsb is_fetch ops).
Qed.
End serial.

Section giving.
Context {A : Type}.
Local Abbreviation plan := (list A).

(** ** Giving subplans to workers *)

(** The loop of ExecAppend over the subplans for worker [i]: the subplan found, and [j] afterwards. *)
Fixpoint find_plan (i j : nat) (plans : list plan) : option plan * nat :=
  match plans with
  | [] => (None, j)
  | p :: plans' => if decide (j = i) then (Some p, j) else find_plan i (S j) plans'
  end.

(** The loop over the workers, [k] of them from [i] on: [j] is initialised once, before it. *)
Fixpoint assign_plans (k i j : nat) (plans : list plan) : list (option plan) :=
  match k with
  | O => []
  | S k' => let '(p, j') := find_plan i j plans in p :: assign_plans k' (S i) j' plans
  end.

(** How many workers we need vs we can ask for *)
Definition append_workers (nplans prlSqlLvl : nat) : nat := if decide (nplans <= prlSqlLvl) then nplans else prlSqlLvl.

(** The state of a parallel append; who has finished is kept with the workers. *)
Record PrlAppendState := mkPas { pa_lastWorker : Z; pa_worksDone : nat }.

Lemma find_plan_later i (plans : list plan) : forall j, i < j -> fst (find_plan i j plans) = None.
Proof. induction plans as [|p plans IH]; intros j Hj; simpl; [done|]. rewrite decide_False by lia. apply IH. lia. Qed.

Lemma assign_later k (p0 p1 : plan) plans : forall i, 1 <= i -> assign_plans k (S i) i (p0 :: p1 :: plans) = replicate k (Some p1).
Proof.
  induction k as [|k IH]; intros i Hi; simpl; [done|]. rewrite decide_False, decide_True by lia. f_equal. apply IH. lia.
Qed.

Lemma assign_plans_ok k (p0 p1 : plan) plans :
  assign_plans (S (S k)) 0 0 (p0 :: p1 :: plans) = Some p0 :: Some p1 :: replicate k (Some p1).
Proof. simpl. do 2 f_equal. apply assign_later. lia. Qed.

End giving.

(** ** Properties *)

(** C19: An append node without workers is its subplans one after the other.  After ExecInitAppend, any sequence of fetches in both directions and of rescans, with or without changed
    parameters, returns what the same movements on the concatenation of the rows of the subplans return; rows are neither skipped nor repeated where one
    subplan ends, also not at empty ones, and moving on past either end and back again works. *)
Theorem append_scrolls {P A V Plan} `{!SubPlan P A V} `{!SubPlanLaws P A V} (ExecInitNode : Plan -> P) plans eflags (ops : list (append_op V)) n :
  plans <> [] -> Forall (fun p => sp_pos (ExecInitNode p) = 0) plans -> ExecInitAppend ExecInitNode plans eflags = Ok n ->
  exists n', append_scan ops n = Ok (rows_scan ops ((fun p => (sp_rows (ExecInitNode p), for_params (ExecInitNode p))) <$> plans) 0, n').
Proof.
  intros Hne Hb Hi. unfold ExecInitAppend in Hi. destruct (_ =? _)%Z; [|done]. injection Hi as <-.
  replace ((fun p => (sp_rows (ExecInitNode p), for_params (ExecInitNode p))) <$> plans) with (part <$> (ExecInitNode <$> plans)) by (by rewrite <- list_fmap_compose).
  apply append_scan_ok. rewrite <- (length_fmap ExecInitNode plans). apply begin_between; [by destruct plans|by apply Forall_fmap].
Qed.

(** Ending an append node.  ExecEndAppend reads the state that only the first call of ExecAppend sets: it works after a scan in which something was fetched, and
    uses a NULL pointer when nothing was, as for a plan that is only explained or a subplan that was never needed. *)
Lemma append_end_needs_fetch {P A V Plan} `{!SubPlan P A V} (ExecInitNode : Plan -> P) plans eflags (ops : list (append_op V)) n ts n' :
  ExecInitAppend ExecInitNode plans eflags = Ok n -> append_scan ops n = Ok (ts, n') ->
  ExecEndAppend n' = if existsb is_fetch ops then Ok (mkAppend (end_node <$> appendplans n') (as_whichplan n') (Some false)) else Err EUndef.
Proof.
  intros Hi Hs. apply append_scan_state in Hs. unfold ExecInitAppend in Hi. destruct (_ =? _)%Z; [|done]. injection Hi as <-. unfold ExecEndAppend. rewrite Hs. by destruct (existsb is_fetch ops).
Qed.

(** C39: The subplans are given out wrongly.  The counter of the inner loop is not reset for the next worker: the first worker
    gets the first subplan and every other worker the second one, so that with three workers or more the second
    subplan runs several times and others not at all. *)
Theorem append_assigns_second_plan {A} k (p0 p1 : list A) plans :
  assign_plans (S (S k)) 0 0 (p0 :: p1 :: plans) = Some p0 :: Some p1 :: replicate k (Some p1).
Proof. apply assign_plans_ok. Qed.

(** ** Witnesses *)

(** A subplan over a list; its parameter is the list. *)
Record scan_plan (A : Type) := mkScan { sc_rows : list A; sc_pos : nat; sc_changed : bool }.
Arguments mkScan {A} sc_rows sc_pos sc_changed.
Arguments sc_rows {A} s.
Arguments sc_pos {A} s.
Arguments sc_changed {A} s.
Definition scan_pos {A} (p : scan_plan A) : nat := if sc_changed p then 0 else Nat.min (sc_pos p) (S (length (sc_rows p))).
#[export] Instance scan_sub {A} : SubPlan (scan_plan A) A (list A) := {|
  proc_node forward p := let pos := move (length (sc_rows p)) forward (scan_pos p) in (row_at (sc_rows p) pos, mkScan (sc_rows p) pos false);
  rescan_node p := mkScan (sc_rows p) 0 false;
  end_node p := mkScan [] 0 false;
  param_changed := sc_changed;
  update_params v p := mkScan v (sc_pos p) true |}.
Lemma scan_bound {A} (p : scan_plan A) : scan_pos p <= S (length (sc_rows p)).
Proof. unfold scan_pos. destruct (sc_changed p); lia. Qed.
#[export, refine] Instance scan_sub_laws {A} : SubPlanLaws (scan_plan A) A (list A) := {| sp_rows := sc_rows; sp_pos := scan_pos; for_params p v := v; sp_bound := scan_bound |}.
Proof.
  - intros fwd p. eexists. split; [reflexivity|]. split_and!; try done. pose proof (scan_bound p). unfold move. unfold scan_pos at 1. cbn [sc_changed sc_pos sc_rows]. destruct fwd; lia.
  - done.
  - intros p. unfold scan_pos. cbn. by intros ->.
  - done.
Defined.

Definition demo_scan (rows : list Z) : scan_plan Z := mkScan rows 0 false.
Definition demo_parts : list (list Z) := [[]; [1; 2]; []; [3]]%Z.
Definition demo_append_ops : list (append_op (list Z)) :=
  [Fetch true; Fetch true; Fetch true; Fetch false; Fetch false; Fetch false; Fetch true; ReScan (Some [7]%Z) false; Fetch true; Fetch true; ReScan None true; Fetch true].

Lemma append_scrolls_witness : exists n n', ExecInitAppend demo_scan demo_parts 0 = Ok n /\
  append_scan demo_append_ops n = Ok ([Some 1; Some 2; Some 3; Some 2; Some 1; None; Some 1; Some 7; Some 7; Some 7]%Z, n').
Proof.
  destruct (append_scrolls demo_scan demo_parts 0 demo_append_ops _ ltac:(discriminate) ltac:(by repeat constructor) eq_refl) as (n' & H). eexists _, n'. split; [reflexivity|].
  rewrite H. reflexivity.
Defined.

Lemma append_end_needs_fetch_witness : exists n, ExecInitAppend demo_scan demo_parts 0 = Ok n /\ ExecEndAppend n = Err EUndef.
Proof. eexists. split; [reflexivity|]. exact (append_end_needs_fetch demo_scan demo_parts 0 [] _ [] _ eq_refl eq_refl). Defined.
