(* ===== verification/LimitNode.v ===== *)
(** * LimitNode: the limit node of the executor (src/backend/executor/nodeLimit.c)

    A limit node returns the rows of its subplan from OFFSET on, LIMIT of them, in both directions, with a state machine of seven
    states.  The subplan is a class ([SubPlan] of Append); when it is a sort node, the limit node tells it how many rows it needs.
    int64 is kept at its width where OFFSET and LIMIT are added; [position] counts rows that were fetched. *)

From S2P Require Import Prelude SortNode Append.

(** ** The subplan *)

(** What recompute_limits tells a subplan that is a sort node, [None] for no bound; nothing happens for other nodes. *)
Class LimitInput (P : Type) := { notify : option Z -> P -> P }.

(** The first rows that are needed, of all rows *)
Definition enough {A} (b : option Z) (rows all : list A) : Prop :=
  match b with Some n => take (Z.to_nat n) rows = take (Z.to_nat n) all | None => rows = all end.
(** A subplan has a position in its rows; [li_all] are the rows it has for its parameters, of which it need not return more than it was told.  What it was told counts
    from the next start; [li_fresh]: it has not started yet, or its parameters have changed and it will start over. *)
Class LimitInputLaws (P A V : Type) `{!SubPlan P A V} `{!LimitInput P} := {
  li_rows : P -> list A;
  li_all : P -> list A;
  li_pos : P -> nat;
  li_query : P -> V -> list A;
  li_proc : forall forward p, exists p', proc_node forward p = (row_at (li_rows p) (move (length (li_rows p)) forward (li_pos p)), p') /\
    li_rows p' = li_rows p /\ li_pos p' = move (length (li_rows p)) forward (li_pos p) /\ li_all p' = li_all p /\ li_query p' = li_query p;
  li_notify : forall b p, li_all (notify b p) = li_all p /\ li_query (notify b p) = li_query p /\ param_changed (notify b p) = param_changed p;
  li_fresh : P -> Prop;
  li_start : forall b p, li_fresh p -> li_pos (notify b p) = 0 /\ enough b (li_rows (notify b p)) (li_all p);
  li_rescan : forall b p, li_pos (rescan_node (notify b p)) = 0 /\ enough b (li_rows (rescan_node (notify b p))) (li_all p) /\
    li_all (rescan_node (notify b p)) = li_all p /\ li_query (rescan_node (notify b p)) = li_query p;
  li_changed : forall p, param_changed p = true -> li_fresh p;
  li_update : forall v p, li_all (update_params v p) = li_query p v /\ li_query (update_params v p) = li_query p }.

(** ** The node *)

Inductive LimitStateCond := LIMIT_INITIAL | LIMIT_RESCAN | LIMIT_EMPTY | LIMIT_INWINDOW | LIMIT_SUBPLANEOF | LIMIT_WINDOWEND | LIMIT_WINDOWSTART.

(** [E] are expressions, [Env] the parameters they are evaluated with. *)
Record LimitState (P A E Env : Type) := mkLimit {
  limitOffset : option E;
  limitCount : option E;
  offset : Z;
  count : Z;
  noCount : bool;
  lstate : LimitStateCond;
  position : Z;
  subSlot : option A;
  econtext : Env;
  ls_outer : P }.
Arguments mkLimit {P A E Env} limitOffset limitCount offset count noCount lstate position subSlot econtext ls_outer.
Arguments limitOffset {P A E Env} _.
Arguments limitCount {P A E Env} _.
Arguments offset {P A E Env} _.
Arguments count {P A E Env} _.
Arguments noCount {P A E Env} _.
Arguments lstate {P A E Env} _.
Arguments position {P A E Env} _.
Arguments subSlot {P A E Env} _.
Arguments econtext {P A E Env} _.
Arguments ls_outer {P A E Env} _.

Section code.
Context {P A V E Env : Type} `{!SubPlan P A V} `{!LimitInput P} (ExecEvalExpr : E -> Env -> option Z).
Local Abbreviation lim := (LimitState P A E Env).
Local Abbreviation LM := (M lim).
Implicit Type n : lim.

Definition set_lstate (v : LimitStateCond) n : lim := mkLimit (limitOffset n) (limitCount n) (offset n) (count n) (noCount n) v (position n) (subSlot n) (econtext n) (ls_outer n).
Definition set_position (v : Z) n : lim := mkLimit (limitOffset n) (limitCount n) (offset n) (count n) (noCount n) (lstate n) v (subSlot n) (econtext n) (ls_outer n).
Definition set_subSlot (v : option A) n : lim := mkLimit (limitOffset n) (limitCount n) (offset n) (count n) (noCount n) (lstate n) (position n) v (econtext n) (ls_outer n).
Definition set_ls_outer (v : P) n : lim := mkLimit (limitOffset n) (limitCount n) (offset n) (count n) (noCount n) (lstate n) (position n) (subSlot n) (econtext n) v.
Definition set_econtext (v : Env) n : lim := mkLimit (limitOffset n) (limitCount n) (offset n) (count n) (noCount n) (lstate n) (position n) (subSlot n) v (ls_outer n).

(** offset, count and noCount; an expression may be NULL. *)
Definition eval_limits (off cnt : option E) (env : Env) : res (Z * Z * bool) :=
  o ← match off with
      | Some e => match ExecEvalExpr e env with
          | None => Ok 0%Z
          | Some v => if (v <? 0)%Z then Err (EElog "OFFSET must not be negative") else Ok v
          end
      | None => Ok 0%Z
      end;
  '(c, nc) ← match cnt with
      | Some e => match ExecEvalExpr e env with
          | None => Ok (0%Z, true)
          | Some v => if (v <? 0)%Z then Err (EElog "LIMIT must not be negative") else Ok (v, false)
          end
      | None => Ok (0%Z, true)
      end;
  Ok (o, c, nc).

Definition recompute_limits_node : LM unit :=
  n ← mget;
  match eval_limits (limitOffset n) (limitCount n) (econtext n) with
  | Err e => mfail e
  | Ok (o, c, nc) =>
    mput (mkLimit (limitOffset n) (limitCount n) o c nc LIMIT_RESCAN 0 None (econtext n) (notify (tuples_needed nc c o) (ls_outer n)))
  end.

(** ExecProcNode(outerPlan) *)
Definition fetch_outer (forward : bool) : LM (option A) :=
  n ← mget;
  let '(slot, p) := proc_node forward (ls_outer n) in
  mput (set_ls_outer p n);;
  mret slot.

(** Fetches rows until position > offset; each round adds one to position. *)
Fixpoint skip_offset (fuel : nat) (forward : bool) : LM (option A) :=
  match fuel with
  | O => mfail EDiverge
  | S fuel' =>
    slot ← fetch_outer forward;
    match slot with
    | None => mmod (set_lstate LIMIT_EMPTY);; mret None
    | Some t =>
      mmod (set_subSlot (Some t));;
      mmod (fun n => set_position (position n + 1) n);;
      n ← mget;
      if (offset n <? position n)%Z then mmod (set_lstate LIMIT_INWINDOW);; mret (Some t) else skip_offset fuel' forward
    end
  end.
Definition from_start (forward : bool) : LM (option A) :=
  n ← mget;
  if negb forward then mret None
  else if (count n <=? 0)%Z && negb (noCount n) then mmod (set_lstate LIMIT_EMPTY);; mret None
  else skip_offset (S (Z.to_nat (offset n - position n))) forward.
(** The tuple in subSlot again, with the Assert at the end of ExecLimit *)
Definition return_again : LM (option A) := n ← mget; mmod (set_lstate LIMIT_INWINDOW);; Assert (bool_decide (is_Some (subSlot n)));; mret (subSlot n).

Definition ExecLimit (forward : bool) : LM (option A) :=
  n ← mget;
  match lstate n with
  | LIMIT_INITIAL => recompute_limits_node;; from_start forward
  | LIMIT_RESCAN => from_start forward
  | LIMIT_EMPTY => mret None
  | LIMIT_INWINDOW =>
    if forward then
      if negb (noCount n) && (wrap64 (offset n + count n) <=? position n)%Z then mmod (set_lstate LIMIT_WINDOWEND);; mret None
      else
        slot ← fetch_outer forward;
        match slot with
        | None => mmod (set_lstate LIMIT_SUBPLANEOF);; mret None
        | Some t => mmod (set_subSlot (Some t));; mmod (fun n => set_position (position n + 1) n);; mret (Some t)
        end
    else if (position n <=? wrap64 (offset n + 1))%Z then mmod (set_lstate LIMIT_WINDOWSTART);; mret None
    else
      slot ← fetch_outer forward;
      match slot with
      | None => mfail (EElog "LIMIT subplan failed to run backwards")
      | Some t => mmod (set_subSlot (Some t));; mmod (fun n => set_position (position n - 1) n);; mret (Some t)
      end
  | LIMIT_SUBPLANEOF =>
    if forward then mret None
    else
      slot ← fetch_outer forward;
      match slot with
      | None => mfail (EElog "LIMIT subplan failed to run backwards")
      | Some t => mmod (set_subSlot (Some t));; mmod (set_lstate LIMIT_INWINDOW);; mret (Some t)
      end
  | LIMIT_WINDOWEND => if forward then mret None else return_again
  | LIMIT_WINDOWSTART => if negb forward then mret None else return_again
  end.

Definition ExecInitLimit {Plan} (ExecInitNode : Plan -> Z -> P) (plan : Plan) (off cnt : option E) (env : Env) (eflags : Z) : res lim :=
  if (Z.land eflags EXEC_FLAG_MARK =? 0)%Z then Ok (mkLimit off cnt 0 0 false LIMIT_INITIAL 0 None env (ExecInitNode plan eflags)) else Err EAssert.
Definition ExecEndLimit n : P := end_node (ls_outer n).
(** The parameters that have changed, if any; ExecReScan of execAmi.c gives them to the subplan first. *)
Definition ExecReScanLimit (chgParam : option V) (env : Env) : LM unit :=
  mmod (set_econtext env);;
  mmod (fun n => match chgParam with Some v => set_ls_outer (update_params v (ls_outer n)) n | None => n end);;
  recompute_limits_node;;
  mmod (fun n => if param_changed (ls_outer n) then n else set_ls_outer (rescan_node (ls_outer n)) n).

(** ** Scans *)

Inductive limit_op := LFetch (forward : bool) | LReScan (chgParam : option V) (env : Env).
Fixpoint limit_scan (ops : list limit_op) : LM (list (option A)) :=
  match ops with
  | [] => mret []
  | LFetch forward :: ops => t ← ExecLimit forward; ts ← limit_scan ops; mret (t :: ts)
  | LReScan v env :: ops => ExecReScanLimit v env;; limit_scan ops
  end.

(** The same on the rows of the window with a position; an error when the limits are negative. *)
Definition window (l : Z * Z * bool) (rows : list A) : list A :=
  let '(o, c, nc) := l in if nc : bool then drop (Z.to_nat o) rows else take (Z.to_nat c) (drop (Z.to_nat o) rows).
Fixpoint window_scan (off cnt : option E) (query : V -> list A) (ops : list limit_op) (rows : list A) (env : Env) (pos : nat) : res (list (option A)) :=
  match ops with
  | [] => Ok []
  | LFetch forward :: ops =>
    l ← eval_limits off cnt env;
    let w := window l rows in
    let pos := move (length w) forward pos in
    ts ← window_scan off cnt query ops rows env pos;
    Ok (row_at w pos :: ts)
  | LReScan v env :: ops => eval_limits off cnt env ≫= fun _ => window_scan off cnt query ops (match v with Some v => query v | None => rows end) env 0
  end.
End code.
Arguments limit_op V Env : clear implicits.

(** ** Proofs *)

Section correct.
Context {P A V E Env : Type} `{!SubPlan P A V} `{!LimitInput P} `{!LimitInputLaws P A V} (ExecEvalExpr : E -> Env -> option Z) (off cnt : option E).
Implicit Type n : LimitState P A E Env.
Local Abbreviation eval := (eval_limits ExecEvalExpr off cnt).

(** The sums of the code do not overflow. *)
Definition fits (env : Env) : Prop :=
  match eval env with Ok (o, c, nc) => (o + 1 < 2 ^ 63)%Z /\ (nc = false -> o + c < 2 ^ 63)%Z | Err _ => True end.

Lemma eval_nonneg env o c nc : eval env = Ok (o, c, nc) -> (0 <= o)%Z /\ (0 <= c)%Z /\ (nc = true -> c = 0%Z).
Proof.
  unfold eval_limits. intros H. apply res_bind_inv in H as (o' & Ho & H). apply res_bind_inv in H as ([c' nc'] & Hc & H). injection H as -> -> ->. split; [|split].
  - destruct off as [e|]; [destruct (ExecEvalExpr e env) as [v|]|]; [destruct (Z.ltb_spec v 0); [done|]| |]; injection Ho as <-; lia.
  - destruct cnt as [e|]; [destruct (ExecEvalExpr e env) as [v|]|]; [destruct (Z.ltb_spec v 0); [done|]| |]; injection Hc as <- <-; lia.
  - destruct cnt as [e|]; [destruct (ExecEvalExpr e env) as [v|]|]; [destruct (v <? 0)%Z; [done|]| |]; injection Hc as <- <-; done.
Qed.
Lemma wrap64_small z : (0 <= z < 2 ^ 63)%Z -> wrap64 z = z.
Proof. intros H. unfold wrap64. rewrite Z.mod_small; lia. Qed.
Lemma wrap64_over z : (2 ^ 63 <= z < 2 ^ 64)%Z -> wrap64 z = (z - 2 ^ 64)%Z.
Proof. intros H. unfold wrap64. rewrite <- (Z.mod_unique (z + 2 ^ 63) (2 ^ 64) 1 (z - 2 ^ 63)); lia. Qed.

(** The window of the rows that the subplan returns is that of all rows. *)
Lemma window_enough env o c nc (rows all : list A) : eval env = Ok (o, c, nc) -> fits env -> enough (tuples_needed nc c o) rows all -> window (o, c, nc) all = window (o, c, nc) rows.
Proof.
  intros He Hf Hen. destruct (eval_nonneg _ _ _ _ He) as (Ho & Hc & _). unfold fits in Hf. rewrite He in Hf. destruct Hf as [_ Hf]. unfold tuples_needed in Hen.
  destruct nc; cbn [orb] in Hen; [cbn in Hen |- *; congruence|]. specialize (Hf eq_refl). rewrite wrap64_small in Hen by lia. destruct (Z.ltb_spec (c + o) 0); [lia|]. cbn in Hen |- *.
  rewrite !take_drop_commute. replace (Z.to_nat o + Z.to_nat c) with (Z.to_nat (c + o)) by lia. congruence.
Qed.
Lemma window_lookup o c nc (rows : list A) k : k < length (window (o, c, nc) rows) -> window (o, c, nc) rows !! k = rows !! (Z.to_nat o + k).
Proof. unfold window. destruct nc; intros Hk; [apply lookup_drop|]. rewrite lookup_take_lt, lookup_drop by (rewrite length_take in Hk; lia). done. Qed.
Lemma window_length_eq o c nc (rows : list A) : length (window (o, c, nc) rows) = if nc then length rows - Z.to_nat o else Nat.min (Z.to_nat c) (length rows - Z.to_nat o).
Proof. unfold window. destruct nc; rewrite ?length_take, length_drop; done. Qed.

Section invariant.
Context (query : V -> list A) (rows : list A) (env : Env).

Record same_node n : Prop := {
  sn_offset : limitOffset n = off;
  sn_count : limitCount n = cnt;
  sn_env : econtext n = env;
  sn_all : li_all (ls_outer n) = rows;
  sn_query : li_query (ls_outer n) = query }.

(** Where the node stands in the window, in each state of the machine *)
Definition stands n (o c : Z) (nc : bool) (pos : nat) : Prop :=
  let R := li_rows (ls_outer n) in
  let w := window (o, c, nc) R in
  let at_row k := position n = (o + Z.of_nat k)%Z /\ li_pos (ls_outer n) = Z.to_nat o + k in
  match lstate n with
  | LIMIT_INITIAL => False
  | LIMIT_RESCAN => pos = 0 /\ position n = 0%Z /\ li_pos (ls_outer n) = 0
  | LIMIT_EMPTY => w = []
  | LIMIT_INWINDOW => 1 <= pos <= length w /\ at_row pos /\ subSlot n = w !! (pos - 1)
  | LIMIT_SUBPLANEOF => w <> [] /\ pos = S (length w) /\ position n = (o + Z.of_nat (length w))%Z /\ length R = Z.to_nat o + length w /\ li_pos (ls_outer n) = S (length R)
  | LIMIT_WINDOWEND => w <> [] /\ pos = S (length w) /\ nc = false /\ length w = Z.to_nat c /\ at_row (length w) /\ subSlot n = w !! (length w - 1)
  | LIMIT_WINDOWSTART => w <> [] /\ pos = 0 /\ at_row 1 /\ subSlot n = w !! 0
  end.
Definition linv n (pos : nat) : Prop :=
  same_node n /\
  ((lstate n = LIMIT_INITIAL /\ pos = 0 /\ li_fresh (ls_outer n)) \/
   exists o c nc, eval env = Ok (o, c, nc) /\ offset n = o /\ count n = c /\ noCount n = nc /\ enough (tuples_needed nc c o) (li_rows (ls_outer n)) rows /\ stands n o c nc pos).

Lemma fetch_outer_ok fw n : exists p, fetch_outer fw n = Ok (row_at (li_rows (ls_outer n)) (move (length (li_rows (ls_outer n))) fw (li_pos (ls_outer n))), set_ls_outer p n) /\
  li_rows p = li_rows (ls_outer n) /\ li_pos p = move (length (li_rows (ls_outer n))) fw (li_pos (ls_outer n)) /\ li_all p = li_all (ls_outer n) /\ li_query p = li_query (ls_outer n).
Proof.
  destruct (li_proc fw (ls_outer n)) as (p & Hp & H). exists p. split; [|done]. unfold fetch_outer. rewrite mget_ok, Hp. done.
Qed.
Lemma same_node_outer n p : same_node n -> li_all p = li_all (ls_outer n) -> li_query p = li_query (ls_outer n) -> same_node (set_ls_outer p n).
Proof. intros [H1 H2 H3 H4 H5] Ha Hq. split; cbn; congruence. Qed.

(** The node after fetching: only the subplan, the position and the tuple differ. *)
Definition fetched n (st : LimitStateCond) (z : Z) (x : option A) (p : P) : LimitState P A E Env := set_lstate st (set_position z (set_subSlot x (set_ls_outer p n))).
Definition same_plan (p p' : P) : Prop := li_rows p' = li_rows p /\ li_all p' = li_all p /\ li_query p' = li_query p.

Lemma move_forward len k : k <= len -> move len true k = S k.
Proof. intros H. unfold move. lia. Qed.

Lemma skip_ok o fuel : forall n k, offset n = Z.of_nat o -> position n = Z.of_nat k -> li_pos (ls_outer n) = k -> k <= o -> k <= length (li_rows (ls_outer n)) -> fuel = S (o - k) ->
  (exists t p, li_rows (ls_outer n) !! o = Some t /\ skip_offset fuel true n = Ok (Some t, fetched n LIMIT_INWINDOW (Z.of_nat (S o)) (Some t) p) /\ same_plan (ls_outer n) p /\ li_pos p = S o) \/
  (length (li_rows (ls_outer n)) <= o /\ exists z x p, skip_offset fuel true n = Ok (None, fetched n LIMIT_EMPTY z x p) /\ same_plan (ls_outer n) p).
Proof.
  induction fuel as [|fuel IH]; intros n k Ho Hp Hk Hle Hlen Hf; [discriminate Hf|]. cbn [skip_offset]. destruct (fetch_outer_ok true n) as (p & He & Hr & Hpos & Ha & Hq).
  rewrite (mbind_ok _ _ _ _ _ He), Hk, move_forward by done. rewrite Hk, move_forward in Hpos by done. cbn [row_at].
  destruct (li_rows (ls_outer n) !! k) as [t|] eqn:Et.
  - rewrite !mmod_ok, mget_ok. cbn [offset position set_position set_subSlot set_ls_outer]. rewrite Ho, Hp. pose proof (lookup_lt_Some _ _ _ Et).
    set (n1 := set_position _ _). destruct (Z.ltb_spec (Z.of_nat o) (Z.of_nat k + 1)) as [Hlt|Hge].
    + left. assert (Hko : o = k) by lia. rewrite Hko. exists t, p. split; [done|]. split; [|done]. unfold fetched. replace (Z.of_nat (S k)) with (Z.of_nat k + 1)%Z by lia. done.
    + destruct (IH n1 (S k)) as [(t' & p' & Ht' & Hs & (G1 & G2 & G3) & Hp')|(Hl & z & x & p' & Hs & (G1 & G2 & G3))]; try done; try (cbn; lia); [cbn; rewrite Hr; lia|..]; cbn in *; rewrite Hr, ?Ha, ?Hq in *; [left|right].
      * exists t', p'. split; [done|]. split; [exact Hs|]. split; [split_and!; congruence|done].
      * split; [done|]. exists z, x, p'. split; [exact Hs|]. split_and!; congruence.
  - right. apply lookup_ge_None_1 in Et. split; [lia|]. exists (position n), (subSlot n), p. rewrite mmod_ok. split; [|done]. unfold fetched. destruct n; done.
Qed.

Lemma same_node_fetched n st z x p : same_node n -> same_plan (ls_outer n) p -> same_node (fetched n st z x p).
Proof. intros [H1 H2 H3 H4 H5] (G1 & G2 & G3). split; cbn; congruence. Qed.

(** The outcome of a fetch *)
Definition fetch_ok (o c : Z) (nc : bool) (fw : bool) (pos : nat) (r : res (option A * LimitState P A E Env)) : Prop :=
  let w := window (o, c, nc) rows in
  let pos' := move (length w) fw pos in
  exists n', r = Ok (row_at w pos', n') /\ linv n' pos'.

Section one_fetch.
Context (n : LimitState P A E Env) (o c : Z) (nc : bool) (pos : nat).
Context (Hsn : same_node n) (He : eval env = Ok (o, c, nc)) (Hfit : fits env) (Ho : offset n = o) (Hc : count n = c) (Hnc : noCount n = nc).
Context (Hen : enough (tuples_needed nc c o) (li_rows (ls_outer n)) rows).
Local Abbreviation R := (li_rows (ls_outer n)).
Local Abbreviation w := (window (o, c, nc) R).

Lemma window_eq : window (o, c, nc) rows = w.
Proof using He Hfit Hen. exact (window_enough env o c nc _ _ He Hfit Hen). Qed.
Lemma bounds : (0 <= o)%Z /\ (0 <= c)%Z /\ (o + 1 < 2 ^ 63)%Z /\ (nc = false -> o + c < 2 ^ 63)%Z.
Proof using He Hfit. destruct (eval_nonneg _ _ _ _ He) as (? & ? & _). unfold fits in Hfit. rewrite He in Hfit. tauto. Qed.

(** A node that differs as [fetched] does *)
Lemma linv_fetched st z x p pos' : same_plan (ls_outer n) p -> stands (fetched n st z x p) o c nc pos' -> linv (fetched n st z x p) pos'.
Proof using Hsn He Ho Hc Hnc Hen.
  intros Hp Hst. split; [apply same_node_fetched; done|]. right. exists o, c, nc. split_and!; try done. destruct Hp as [Hp _]. cbn. rewrite Hp. done.
Qed.
Lemma fetched_state_step st (x : option A) : (mmod (set_lstate st);; mret x) n = Ok (x, fetched n st (position n) (subSlot n) (ls_outer n)).
Proof. clear. destruct n. done. Qed.

Lemma from_start_ok fw : lstate n = LIMIT_RESCAN -> pos = 0 -> position n = 0%Z -> li_pos (ls_outer n) = 0 -> fetch_ok o c nc fw pos (from_start fw n).
Proof using Hsn He Hfit Ho Hc Hnc Hen.
  intros Hst Hpos Hp Hl. destruct bounds as (Hob & Hcb & _ & _). unfold fetch_ok. rewrite window_eq. unfold from_start. rewrite mget_ok. destruct fw; cbn [negb].
  2:{ exists n. subst pos. split; [done|]. split; [done|]. right. exists o, c, nc. split_and!; try done. unfold stands. rewrite Hst. done. }
  assert (Hempty : forall z x p, same_plan (ls_outer n) p -> length w = 0 -> w = [] /\ linv (fetched n LIMIT_EMPTY z x p) 1).
  { intros z x p Hsp Hw. apply nil_length_inv in Hw. split; [done|]. apply linv_fetched; [done|]. unfold stands. destruct Hsp as [Hsp _]. cbn. rewrite Hsp. exact Hw. }
  rewrite Hc, Hnc, Hpos. destruct ((c <=? 0)%Z && negb nc) eqn:Econd.
  { apply andb_prop in Econd as [Hc0 Hn]. apply Z.leb_le in Hc0. apply negb_true_iff in Hn. rewrite fetched_state_step.
    destruct (Hempty (position n) (subSlot n) (ls_outer n)) as [Hw Hinv]; [split; done|rewrite window_length_eq, Hn; lia|]. rewrite Hw. eexists. split; [reflexivity|exact Hinv]. }
  rewrite Hp, Z.sub_0_r, Ho. pose proof (skip_ok (Z.to_nat o) (S (Z.to_nat o)) n 0) as Hskip. rewrite Nat.sub_0_r, Ho, Hp in Hskip.
  specialize (Hskip ltac:(lia) ltac:(lia) Hl ltac:(lia) ltac:(lia) eq_refl). destruct Hskip as [(t & p & Ht & -> & Hsp & Hpp)|(Hlen & z & x & p & -> & Hsp)].
  - assert (Hwl : 1 <= length w). { apply lookup_lt_Some in Ht. rewrite window_length_eq. destruct nc; [lia|]. rewrite andb_true_r in Econd. apply Z.leb_gt in Econd. lia. }
    assert (Hw0 : w !! 0 = Some t) by (rewrite window_lookup, Nat.add_0_r by lia; done). rewrite move_forward by lia. cbn [row_at]. rewrite Hw0.
    eexists. split; [reflexivity|]. apply linv_fetched; [done|]. unfold stands. destruct Hsp as [Hsp _]. cbn -[window]. rewrite Hsp, Hw0. split_and!; [lia|lia|lia|lia|done].
  - destruct (Hempty z x p Hsp) as [Hw Hinv]; [rewrite window_length_eq; destruct nc; lia|]. rewrite Hw. eexists. split; [reflexivity|exact Hinv].
Qed.

Lemma window_bound k : k < length w -> Z.to_nat o + k < length R.
Proof. rewrite window_length_eq. destruct nc; lia. Qed.
Lemma window_row k : k < length w -> exists t, w !! k = Some t /\ R !! (Z.to_nat o + k) = Some t.
Proof. intros Hk. destruct (lookup_lt_is_Some_2 _ _ Hk) as [t Ht]. exists t. split; [done|]. rewrite <- window_lookup with (c := c) (nc := nc) by done. done. Qed.
Lemma row_end : row_at w (S (length w)) = None.
Proof. cbn. apply lookup_ge_None_2. done. Qed.
(** The node stays as it is. *)
Lemma stays_ok fw : linv n pos -> move (length w) fw pos = pos -> row_at w pos = None -> fetch_ok o c nc fw pos (Ok (None, n)).
Proof using He Hfit Hen. intros Hinv Hm Hr. unfold fetch_ok. rewrite window_eq, Hm, Hr. exists n. done. Qed.
(** Only the state of the machine changes. *)
Lemma changes_ok fw st x : row_at w (move (length w) fw pos) = x -> stands (fetched n st (position n) (subSlot n) (ls_outer n)) o c nc (move (length w) fw pos) ->
  fetch_ok o c nc fw pos ((mmod (set_lstate st);; mret x) n).
Proof using Hsn He Hfit Ho Hc Hnc Hen.
  intros Hx Hst. unfold fetch_ok. rewrite window_eq, Hx, fetched_state_step. eexists. split; [reflexivity|]. apply linv_fetched; [split; done|done].
Qed.
Lemma again_ok fw t : subSlot n = Some t -> row_at w (move (length w) fw pos) = Some t ->
  stands (fetched n LIMIT_INWINDOW (position n) (subSlot n) (ls_outer n)) o c nc (move (length w) fw pos) -> fetch_ok o c nc fw pos (return_again n).
Proof using Hsn He Hfit Ho Hc Hnc Hen.
  intros Hs Hr Hst. unfold return_again. rewrite mget_ok, Hs, bool_decide_true by done. apply changes_ok; done.
Qed.

Lemma inwindow_forward : lstate n = LIMIT_INWINDOW -> stands n o c nc pos -> fetch_ok o c nc true pos (ExecLimit ExecEvalExpr true n).
Proof using Hsn He Hfit Ho Hc Hnc Hen.
  intros Hl Hst. unfold stands in Hst. rewrite Hl in Hst. destruct Hst as (Hpos & (Hp & Hlp) & Hs). destruct bounds as (B1 & B2 & B3 & B4).
  unfold ExecLimit. rewrite mget_ok, Hl, Ho, Hc, Hnc, Hp. pose proof (window_length_eq o c nc R) as Hwl.
  destruct (negb nc && (wrap64 (o + c) <=? o + Z.of_nat pos)%Z) eqn:Econd.
  - apply andb_prop in Econd as [Hn Hle]. apply negb_true_iff in Hn. rewrite wrap64_small in Hle by (specialize (B4 Hn); lia). apply Z.leb_le in Hle.
    assert (Hpw : pos = length w) by (destruct nc; [discriminate Hn|]; lia). assert (Hwc : length w = Z.to_nat c) by (destruct nc; [discriminate Hn|]; lia). apply changes_ok.
    + rewrite move_forward, Hpw by lia. apply row_end.
    + rewrite move_forward by lia. unfold stands. cbn -[window]. rewrite <- Hpw. split_and!; try done; [intros Hnil; rewrite Hnil in Hpos; cbn in Hpos; lia|congruence].
  - assert (Hlt : pos <= length R - Z.to_nat o) by (rewrite Hwl in Hpos; destruct nc; lia).
    destruct (fetch_outer_ok true n) as (p & Hf & Hr & Hpp & Ha & Hq). rewrite (mbind_ok _ _ _ _ _ Hf), Hlp, move_forward by lia. rewrite Hlp, move_forward in Hpp by lia. cbn [row_at].
    unfold fetch_ok. rewrite window_eq, move_forward by lia. cbn [row_at].
    destruct (R !! (Z.to_nat o + pos)) as [t|] eqn:Et.
    + assert (Hin : pos < length w). { apply lookup_lt_Some in Et. rewrite Hwl. destruct nc; [lia|]. cbn [negb andb] in Econd. apply Z.leb_gt in Econd. rewrite wrap64_small in Econd by (specialize (B4 eq_refl); lia). lia. }
      destruct (window_row pos Hin) as (t' & Hw & Ht'). rewrite Et in Ht'. injection Ht' as <-. rewrite Hw. exists (fetched n LIMIT_INWINDOW (o + Z.of_nat pos + 1) (Some t) p).
      split; [rewrite !mmod_ok; unfold fetched; cbn; rewrite Hp; destruct n; cbn in *; subst; done|]. apply linv_fetched; [done|]. unfold stands. cbn -[window]. rewrite Hr.
      split_and!; [lia|lia|lia|lia|]. rewrite Nat.sub_0_r, Hw. done.
    + apply lookup_ge_None_1 in Et. assert (Hin : length w = pos) by (apply Nat.le_antisymm; [rewrite Hwl; destruct nc; lia|lia]). rewrite <- Hin, lookup_ge_None_2 by done.
      exists (fetched n LIMIT_SUBPLANEOF (position n) (subSlot n) p). split; [destruct n; done|]. apply linv_fetched; [done|]. unfold stands. cbn -[window]. rewrite Hr, Hin.
      split_and!; [intros Hnil; rewrite Hnil in Hin; cbn in Hin; lia|lia|done|lia|lia].
Qed.

(** A row of the subplan, backwards *)
Lemma back_row k st z : 1 <= k <= length w -> pred (li_pos (ls_outer n)) = Z.to_nat o + k -> z = (o + Z.of_nat k)%Z -> move (length w) false pos = k -> st = LIMIT_INWINDOW ->
  exists t p, fetch_outer false n = Ok (Some t, set_ls_outer p n) /\ same_plan (ls_outer n) p /\ row_at w (move (length w) false pos) = Some t /\
    linv (fetched n st z (Some t) p) (move (length w) false pos).
Proof using Hsn He Hfit Ho Hc Hnc Hen.
  intros Hk Hlp -> Hm ->. destruct (fetch_outer_ok false n) as (p & Hf & Hr & Hpp & Ha & Hq). destruct (window_row (k - 1)) as (t & Hw & Ht); [lia|]. rewrite Hm.
  cbn [move] in Hf, Hpp. rewrite Hlp in Hf, Hpp. replace (Z.to_nat o + k) with (S (Z.to_nat o + (k - 1))) in Hf by lia. cbn [row_at] in Hf. rewrite Ht in Hf.
  exists t, p. split; [done|]. split; [done|]. destruct k as [|k]; [lia|]. replace (S k - 1) with k in Hw by lia. split; [exact Hw|]. apply linv_fetched; [done|].
  unfold stands. cbn -[window]. rewrite Hr, Nat.sub_0_r, Hw. split_and!; done || lia.
Qed.

Lemma exec_ok fw : stands n o c nc pos -> fetch_ok o c nc fw pos (ExecLimit ExecEvalExpr fw n).
Proof using Hsn He Hfit Ho Hc Hnc Hen.
  intros Hst. assert (Hinv : linv n pos) by (split; [done|]; right; exists o, c, nc; done). destruct bounds as (B1 & B2 & B3 & B4).
  destruct (lstate n) eqn:Hl; [by unfold stands in Hst; rewrite Hl in Hst| | | | | |].
  - unfold stands in Hst. rewrite Hl in Hst. unfold ExecLimit. rewrite mget_ok, Hl. apply from_start_ok; tauto.
  - unfold ExecLimit. rewrite mget_ok, Hl. unfold stands in Hst. rewrite Hl in Hst. cbn in Hst. unfold fetch_ok. rewrite window_eq. exists n. unfold window. rewrite Hst. split.
    + destruct (move _ fw pos) as [|k]; done.
    + split; [done|]. right. exists o, c, nc. split_and!; try done. unfold stands. rewrite Hl. done.
  - destruct fw; [apply inwindow_forward; done|]. unfold stands in Hst. rewrite Hl in Hst. destruct Hst as (Hpos & (Hp & Hlp) & Hs). unfold ExecLimit. rewrite mget_ok, Hl, Ho, Hp.
    rewrite wrap64_small by lia. destruct (Z.leb_spec (o + Z.of_nat pos) (o + 1)) as [Hle|Hgt].
    + assert (pos = 1) by lia. apply changes_ok; cbn [move]; [replace (pred pos) with 0 by lia; done|]. unfold stands. cbn -[window]. rewrite Hs. subst pos.
      split_and!; try done. intros Hnil. rewrite Hnil in Hpos. cbn in Hpos. lia.
    + destruct (back_row (pos - 1) LIMIT_INWINDOW (position n - 1)) as (t & p & Hf & Hsp & Hrow & Hi); [lia|lia|lia|unfold move; lia|done|].
      rewrite (mbind_ok _ _ _ _ _ Hf). unfold fetch_ok. rewrite window_eq, Hrow. eexists. split; [|exact Hi]. unfold fetched. destruct n. cbn in *. subst. done.
  - unfold ExecLimit. rewrite mget_ok, Hl. unfold stands in Hst. rewrite Hl in Hst. destruct Hst as (Hne & Hpos & Hp & HR & Hlp). destruct fw.
    + apply stays_ok; [done|unfold move; lia|]. rewrite Hpos. apply row_end.
    + assert (Hw1 : 1 <= length w) by (destruct w; [done|cbn; lia]).
      destruct (back_row (length w) LIMIT_INWINDOW (position n)) as (t & p & Hf & Hsp & Hrow & Hi); [lia|lia|done|unfold move; lia|done|].
      rewrite (mbind_ok _ _ _ _ _ Hf). unfold fetch_ok. rewrite window_eq, Hrow. eexists. split; [|exact Hi]. unfold fetched. destruct n. done.
  - unfold ExecLimit. rewrite mget_ok, Hl. unfold stands in Hst. rewrite Hl in Hst. destruct Hst as (Hne & Hpos & Hn & Hwc & (Hp & Hlp) & Hs). assert (Hw1 : 1 <= length w) by (destruct w; [done|cbn; lia]). destruct fw.
    + apply stays_ok; [done|unfold move; lia|]. rewrite Hpos. apply row_end.
    + destruct (window_row (length w - 1)) as (t & Hw & _); [lia|]. assert (Hm : move (length w) false pos = length w) by (unfold move; lia).
      apply (again_ok false t); [congruence|rewrite Hm; destruct (length w); [lia|]; cbn [row_at]; rewrite Nat.sub_1_r in Hw; exact Hw|]. rewrite Hm. unfold stands. cbn -[window]. split_and!; done || lia.
  - unfold ExecLimit. rewrite mget_ok, Hl. unfold stands in Hst. rewrite Hl in Hst. destruct Hst as (Hne & Hpos & (Hp & Hlp) & Hs). assert (Hw1 : 1 <= length w) by (destruct w; [done|cbn; lia]). destruct fw; cbn [negb].
    + destruct (window_row 0) as (t & Hw & _); [lia|]. assert (Hm : move (length w) true pos = 1) by (unfold move; lia). apply (again_ok true t); [congruence|rewrite Hm; exact Hw|].
      rewrite Hm. unfold stands. cbn -[window]. split_and!; done || lia.
    + apply stays_ok; [done|unfold move; lia|]. rewrite Hpos. done.
Qed.
End one_fetch.

Lemma recompute_step n : limitOffset n = off -> limitCount n = cnt -> econtext n = env ->
  recompute_limits_node ExecEvalExpr n = match eval env with
    | Err e => Err e
    | Ok (o, c, nc) => Ok (tt, mkLimit off cnt o c nc LIMIT_RESCAN 0 None env (notify (tuples_needed nc c o) (ls_outer n)))
    end.
Proof. intros H1 H2 H3. unfold recompute_limits_node. rewrite mget_ok, H1, H2, H3. destruct (eval env) as [[[o c] nc]|e]; done. Qed.

(** A node whose limits were computed, with a subplan at its start *)
Lemma started_ok o c nc p : eval env = Ok (o, c, nc) -> li_all p = rows -> li_query p = query -> li_pos p = 0 -> enough (tuples_needed nc c o) (li_rows p) rows ->
  linv (mkLimit off cnt o c nc LIMIT_RESCAN 0 None env p) 0.
Proof. intros He Ha Hq Hp Hen. split; [split; done|]. right. exists o, c, nc. split_and!; done. Qed.

Lemma linv_exec fw n pos : fits env -> linv n pos ->
  match eval env with Ok (o, c, nc) => fetch_ok o c nc fw pos (ExecLimit ExecEvalExpr fw n) | Err e => ExecLimit ExecEvalExpr fw n = Err e end.
Proof.
  intros Hfit [Hsn [(Hl & -> & Hfr)|(o & c & nc & He & Ho & Hc & Hnc & Hen & Hst)]].
  - destruct Hsn as [H1 H2 H3 H4 H5]. unfold ExecLimit. rewrite mget_ok, Hl. pose proof (recompute_step n H1 H2 H3) as Hr. destruct (eval env) as [[[o c] nc]|e] eqn:He.
    + rewrite (mbind_ok _ _ _ _ _ Hr). destruct (li_start (tuples_needed nc c o) _ Hfr) as [Hp Hen]. destruct (li_notify (tuples_needed nc c o) (ls_outer n)) as (Ha & Hq & _).
      apply from_start_ok; try done; cbn; [split; cbn; congruence|congruence].
    + rewrite (mbind_err _ _ _ _ Hr). done.
  - rewrite He. apply exec_ok; done.
Qed.
End invariant.

Lemma limit_rescan_ok query rows env n v env' : same_node query rows env n ->
  match eval env' with
  | Ok _ => exists n', ExecReScanLimit ExecEvalExpr v env' n = Ok (tt, n') /\ linv query (match v with Some v => query v | None => rows end) env' n' 0
  | Err e => ExecReScanLimit ExecEvalExpr v env' n = Err e
  end.
Proof.
  intros [H1 H2 H3 H4 H5]. unfold ExecReScanLimit. rewrite !mmod_ok. set (n1 := match v with Some v => _ | None => _ end).
  assert (Hn1 : li_all (ls_outer n1) = match v with Some v => query v | None => rows end /\ li_query (ls_outer n1) = query /\ limitOffset n1 = off /\ limitCount n1 = cnt /\ econtext n1 = env').
  { subst n1. destruct v as [v|]; cbn; [|done]. destruct (li_update v (ls_outer n)) as [-> ->]. rewrite H5. done. }
  destruct Hn1 as (Ha & Hq & G1 & G2 & G3). pose proof (recompute_step env' n1 G1 G2 G3) as Hr. destruct (eval env') as [[[o c] nc]|e] eqn:He; [|rewrite (mbind_err _ _ _ _ Hr); done].
  rewrite (mbind_ok _ _ _ _ _ Hr). unfold mmod. set (b := tuples_needed nc c o). destruct (li_notify b (ls_outer n1)) as (Na & Nq & Nc). cbn [ls_outer]. rewrite Nc.
  destruct (param_changed (ls_outer n1)) eqn:Hch; eexists; (split; [reflexivity|]).
  - apply li_changed in Hch. destruct (li_start b _ Hch) as [Hp Hen]. rewrite Ha in Hen. apply started_ok; done || congruence.
  - destruct (li_rescan b (ls_outer n1)) as (Hp & Hen & Ra & Rq). rewrite Ha in Hen. apply started_ok; done || congruence.
Qed.

(** The limits fit for the parameters of every rescan. *)
Definition op_fits (op : limit_op V Env) : Prop := match op with LReScan _ env => fits env | LFetch _ => True end.
Lemma scan_ok query ops : forall rows env n pos, linv query rows env n pos -> fits env -> Forall op_fits ops ->
  match window_scan ExecEvalExpr off cnt query ops rows env pos with
  | Ok ts => exists n', limit_scan ExecEvalExpr ops n = Ok (ts, n')
  | Err e => limit_scan ExecEvalExpr ops n = Err e
  end.
Proof.
  induction ops as [|[fw|v env'] ops IH]; intros rows env n pos Hinv Hfit Hops; [by exists n|apply Forall_cons in Hops as [Hop Hops]..]; cbn [window_scan limit_scan].
  - pose proof (linv_exec query rows env fw n pos Hfit Hinv) as Hx. destruct (eval env) as [[[o c] nc]|e]; cbn [mbind res_bind]; [|rewrite (mbind_err _ _ _ _ Hx); done].
    destruct Hx as (n' & Hx & Hinv'). rewrite (mbind_ok _ _ _ _ _ Hx). specialize (IH rows env n' _ Hinv' Hfit Hops).
    destruct (window_scan _ _ _ _ _ _ _ _) as [ts|e]; cbn [mbind res_bind]; [|rewrite (mbind_err _ _ _ _ IH); done].
    destruct IH as (n'' & Hs). exists n''. rewrite (mbind_ok _ _ _ _ _ Hs). done.
  - destruct Hinv as [Hsn _]. pose proof (limit_rescan_ok query rows env n v env' Hsn) as Hr. destruct (eval env') as [l|e]; cbn [mbind res_bind]; [|rewrite (mbind_err _ _ _ _ Hr); done].
    destruct Hr as (n' & Hr & Hinv'). rewrite (mbind_ok _ _ _ _ _ Hr). apply IH; done.
Qed.

(** When the sum of the limits overflows, the node is at the end of the window after its first row. *)
Lemma overflow_forward n : lstate n = LIMIT_INWINDOW -> noCount n = false -> (0 <= offset n < 2 ^ 63)%Z -> (0 <= count n < 2 ^ 63)%Z -> (2 ^ 63 <= offset n + count n)%Z -> (0 <= position n)%Z ->
  ExecLimit ExecEvalExpr true n = Ok (None, set_lstate LIMIT_WINDOWEND n).
Proof.
  intros Hl Hnc Ho Hc Hs Hp. unfold ExecLimit. rewrite mget_ok, Hl, Hnc. cbn [negb andb].
  rewrite wrap64_over by lia. destruct (Z.leb_spec (offset n + count n - 2 ^ 64) (position n)); [done|lia].
Qed.
Lemma end_forward k : forall n, lstate n = LIMIT_WINDOWEND -> limit_scan ExecEvalExpr (repeat (LFetch true) k) n = Ok (repeat None k, n).
Proof.
  induction k as [|k IH]; intros n Hl; [done|]. cbn [repeat limit_scan]. assert (Hx : ExecLimit ExecEvalExpr true n = Ok (None, n)) by (unfold ExecLimit; rewrite mget_ok, Hl; done).
  rewrite (mbind_ok _ _ _ _ _ Hx), (mbind_ok _ _ _ _ _ (IH n Hl)). done.
Qed.
Lemma overflow_rest k n : lstate n = LIMIT_INWINDOW -> noCount n = false -> (0 <= offset n < 2 ^ 63)%Z -> (0 <= count n < 2 ^ 63)%Z -> (2 ^ 63 <= offset n + count n)%Z -> (0 <= position n)%Z ->
  exists n', limit_scan ExecEvalExpr (repeat (LFetch true) k) n = Ok (repeat None k, n').
Proof.
  intros Hl Hnc Ho Hc Hs Hp. destruct k as [|k]; [by exists n|]. cbn [repeat limit_scan]. rewrite (mbind_ok _ _ _ _ _ (overflow_forward n Hl Hnc Ho Hc Hs Hp)).
  rewrite (mbind_ok _ _ _ _ _ (end_forward k (set_lstate LIMIT_WINDOWEND n) eq_refl)). eexists. reflexivity.
Qed.
Lemma overflow_first env n o c t : limitOffset n = off -> limitCount n = cnt -> econtext n = env -> lstate n = LIMIT_INITIAL -> li_fresh (ls_outer n) -> eval env = Ok (o, c, false) ->
  (o < 2 ^ 63)%Z -> (c < 2 ^ 63)%Z -> (2 ^ 63 <= o + c)%Z -> li_all (ls_outer n) !! Z.to_nat o = Some t ->
  exists n', ExecLimit ExecEvalExpr true n = Ok (Some t, n') /\ lstate n' = LIMIT_INWINDOW /\ noCount n' = false /\ offset n' = o /\ count n' = c /\ (0 <= position n')%Z.
Proof.
  intros H1 H2 H3 Hl Hfr He Ho Hc Hs Ht. unfold ExecLimit. rewrite mget_ok, Hl. pose proof (recompute_step env n H1 H2 H3) as Hr. rewrite He in Hr. rewrite (mbind_ok _ _ _ _ _ Hr).
  destruct (eval_nonneg _ _ _ _ He) as (Hob & Hcb & _). destruct (li_start (tuples_needed false c o) _ Hfr) as [Hp Hen]. set (p := notify _ _) in *.
  assert (Hrows : li_rows p = li_all (ls_outer n)).
  { unfold tuples_needed in Hen. rewrite wrap64_over in Hen by lia. destruct (Z.ltb_spec (c + o - 2 ^ 64) 0); [exact Hen|lia]. }
  unfold from_start. rewrite mget_ok. cbn [negb count noCount offset position]. rewrite andb_true_r, Z.sub_0_r. destruct (Z.leb_spec c 0); [lia|].
  set (n1 := mkLimit _ _ _ _ _ _ _ _ _ _). pose proof (skip_ok (Z.to_nat o) (S (Z.to_nat o)) n1 0) as Hskip. cbn [offset position ls_outer n1] in Hskip.
  specialize (Hskip ltac:(lia) ltac:(lia) Hp ltac:(lia) ltac:(lia) ltac:(lia)). rewrite Hrows in Hskip. destruct Hskip as [(t' & p' & Ht' & -> & _)|[Hlen _]].
  - rewrite Ht in Ht'. injection Ht' as <-. eexists. split; [reflexivity|]. cbn. split_and!; done || lia.
  - apply lookup_lt_Some in Ht. lia.
Qed.
End correct.

(** C20: A scan of a limit node, forwards and backwards in any order and with rescans, returns the rows of the window: those of the subplan from OFFSET on, at most LIMIT of
    them.  After a rescan with other parameters it is the window of the new limits in the new rows.  A negative limit is an error.  The subplan may return no more rows
    than it was told; the sum of OFFSET and LIMIT is below 2^63. *)
Theorem limit_window {P A V E Env Plan : Type} `{!SubPlan P A V} `{!LimitInput P} `{!LimitInputLaws P A V} (ExecEvalExpr : E -> Env -> option Z) (ExecInitNode : Plan -> Z -> P) (plan : Plan)
    (off cnt : option E) (env : Env) (eflags : Z) (ops : list (limit_op V Env)) n :
  ExecInitLimit ExecInitNode plan off cnt env eflags = Ok n -> li_fresh (ExecInitNode plan eflags) -> fits ExecEvalExpr off cnt env -> Forall (op_fits ExecEvalExpr off cnt) ops ->
  match window_scan ExecEvalExpr off cnt (li_query (ExecInitNode plan eflags)) ops (li_all (ExecInitNode plan eflags)) env 0 with
  | Ok ts => exists n', limit_scan ExecEvalExpr ops n = Ok (ts, n')
  | Err e => limit_scan ExecEvalExpr ops n = Err e
  end.
Proof.
  unfold ExecInitLimit. destruct (_ =? 0)%Z; [|done]. intros [= <-] Hfr Hfit Hops. apply scan_ok; [|done..]. split; [split; done|]. left. done.
Qed.

(** C34: When OFFSET + LIMIT overflows int64, the node ends after the first row of the window, however many rows follow. *)
Theorem limit_overflow {P A V E Env Plan : Type} `{!SubPlan P A V} `{!LimitInput P} `{!LimitInputLaws P A V} (ExecEvalExpr : E -> Env -> option Z) (ExecInitNode : Plan -> Z -> P) (plan : Plan)
    (off cnt : option E) (env : Env) (eflags o c : Z) (t : A) (k : nat) n :
  ExecInitLimit ExecInitNode plan off cnt env eflags = Ok n -> li_fresh (ExecInitNode plan eflags) -> eval_limits ExecEvalExpr off cnt env = Ok (o, c, false) ->
  (o < 2 ^ 63)%Z -> (c < 2 ^ 63)%Z -> (2 ^ 63 <= o + c)%Z -> li_all (ExecInitNode plan eflags) !! Z.to_nat o = Some t ->
  exists n', limit_scan ExecEvalExpr (repeat (LFetch true) (S k)) n = Ok (Some t :: repeat None k, n').
Proof.
  unfold ExecInitLimit. destruct (_ =? 0)%Z; [|done]. intros [= <-] Hfr He Ho Hc Hs Ht. destruct (eval_nonneg _ _ _ _ _ _ _ He) as (Hob & Hcb & _).
  destruct (overflow_first ExecEvalExpr off cnt env (mkLimit off cnt 0 0 false LIMIT_INITIAL 0 None env (ExecInitNode plan eflags)) o c t) as (n1 & Hx & Hl & Hnc & Ho1 & Hc1 & Hp1); try done.
  cbn [repeat limit_scan]. rewrite (mbind_ok _ _ _ _ _ Hx).
  destruct (overflow_rest ExecEvalExpr k n1) as (n2 & Hy); try done || lia. exists n2. rewrite (mbind_ok _ _ _ _ _ Hy). done.
Qed.

(** ** A subplan *)

(** A subplan that sorts, as far as it was told to: [tn_run] has the rows it has sorted and its position in them, once it has started. *)
Record topn := mkTopN { tn_all : list Z; tn_bound : option Z; tn_run : option (list Z * nat); tn_changed : bool }.
Definition first_rows (b : option Z) (all : list Z) : list Z := match b with Some n => take (Z.to_nat n) all | None => all end.
Definition topn_run (p : topn) : list Z * nat := match tn_run p with Some r => r | None => (first_rows (tn_bound p) (tn_all p), 0) end.
#[export] Instance topn_sub : SubPlan topn Z (list Z) := {|
  proc_node fw p := let '(rows, pos) := topn_run p in
    let pos := move (length rows) fw pos in
    (row_at rows pos, mkTopN (tn_all p) (tn_bound p) (Some (rows, pos)) false);
  rescan_node p := mkTopN (tn_all p) (tn_bound p) None false;
  end_node p := p;
  param_changed p := tn_changed p && bool_decide (tn_run p = None);
  update_params v p := mkTopN v (tn_bound p) None true |}.
#[export] Instance topn_input : LimitInput topn := {| notify b p := mkTopN (tn_all p) b (tn_run p) (tn_changed p) |}.
Lemma first_rows_enough b all : enough b (first_rows b all) all.
Proof. destruct b as [n|]; cbn; [|done]. rewrite take_take, Nat.min_id. done. Qed.
#[export, refine] Instance topn_laws : LimitInputLaws topn Z (list Z) := {|
  li_rows p := fst (topn_run p); li_all := tn_all; li_pos p := snd (topn_run p); li_query _ v := v; li_fresh p := tn_run p = None |}.
Proof.
  - intros fw [all b run ch]. destruct run as [[rows pos]|]; (eexists; split; [reflexivity|done]).
  - intros b p. done.
  - intros b [all b' run ch] Hr. cbn in Hr. subst run. split; [done|]. apply first_rows_enough.
  - intros b [all b' run ch]. split_and!; try done. apply first_rows_enough.
  - intros p H. apply andb_prop in H as [_ H]. apply bool_decide_eq_true in H. done.
  - intros v p. done.
Defined.

(** Limits given as parameters by number; NULL when absent *)
Definition demo_eval (e : nat) (env : list Z) : option Z := env !! e.
Definition demo_plan (rows : list Z) (eflags : Z) : topn := mkTopN rows None None false.
(** Two rows from the second on; to the end and back; then all rows from the fourth on of other rows, and a negative limit *)
Definition demo_limit_ops : list (limit_op (list Z) (list Z)) :=
  [LFetch true; LFetch true; LFetch true; LFetch false; LFetch false; LFetch false; LFetch true; LReScan (Some [1; 2; 3; 4; 5]) [3]; LFetch true; LFetch true; LFetch true; LFetch false]%Z.

Example demo_limit_scan :
  (n ← ExecInitLimit demo_plan [10; 20; 30; 40]%Z (Some 0) (Some 1) [1; 2]%Z 0; '(ts, _) ← limit_scan demo_eval demo_limit_ops n; Ok ts) =
    Ok [Some 20; Some 30; None; Some 30; Some 20; None; Some 20; Some 4; Some 5; None; Some 5]%Z /\
  (n ← ExecInitLimit demo_plan [10; 20; 30; 40]%Z (Some 0) (Some 1) [1; 2]%Z 0; '(ts, _) ← limit_scan demo_eval [LFetch true; LReScan None [-1]%Z] n; Ok ts) =
    Err (EElog "OFFSET must not be negative").
Proof. split; vm_compute; reflexivity. Qed.

Lemma limit_window_witness : exists n n',
  ExecInitLimit demo_plan [10; 20; 30; 40]%Z (Some 0) (Some 1) [1; 2]%Z 0 = Ok n /\
  limit_scan demo_eval demo_limit_ops n = Ok ([Some 20; Some 30; None; Some 30; Some 20; None; Some 20; Some 4; Some 5; None; Some 5]%Z, n').
Proof.
  eexists. pose proof (limit_window demo_eval demo_plan [10; 20; 30; 40]%Z (Some 0) (Some 1) [1; 2]%Z 0 demo_limit_ops _ eq_refl) as H.
  destruct H as (n' & H); [reflexivity|split; [reflexivity|intros _; reflexivity]|repeat constructor; cbn; discriminate|]. exists n'. split; [reflexivity|exact H].
Defined.

Lemma limit_overflow_witness : exists n n',
  ExecInitLimit demo_plan [10; 20; 30; 40]%Z (Some 0) (Some 1) [1; 2 ^ 63 - 1]%Z 0 = Ok n /\
  limit_scan demo_eval (repeat (LFetch true) 3) n = Ok ([Some 20; None; None]%Z, n').
Proof.
  eexists. destruct (limit_overflow demo_eval demo_plan [10; 20; 30; 40]%Z (Some 0) (Some 1) [1; 2 ^ 63 - 1]%Z 0 1 (2 ^ 63 - 1) 20%Z 2 _ eq_refl) as (n' & H);
    [reflexivity..|discriminate|reflexivity|]. exists n'. split; [reflexivity|exact H].
Defined.
