(* ===== verification/Material.v ===== *)
(** * Material: the materialize node of the executor (src/backend/executor/nodeMaterial.c)

    A materialize node keeps the rows of its subplan in a tuple store as it returns them, so that they can be read again: backwards, after a rescan or from a
    mark.  The subplan is the class [SubPlan] of Append, a tuple what a tuple store keeps of it; the tuple store is the one of Tuplestore, on any temporary file. *)

From S2P Require Import Prelude Tape BufFile Tuplestore StoreSpec Append.

(** ** The node *)

Record MaterialState (P F : Type) := mkMat { m_eflags : Z; eof_underlying : bool; m_store : option (Tuplestorestate F); m_outer : P }.
Arguments mkMat {P F} m_eflags eof_underlying m_store m_outer.
Arguments m_eflags {P F} _.
Arguments eof_underlying {P F} _.
Arguments m_store {P F} _.
Arguments m_outer {P F} _.

Section code.
Context {P V F : Type} `{!SubPlan P tup V} `{!TempFile F} (GetMemoryChunkSpace : tup -> Z) (array_space : nat -> Z) (work_mem : Z).
Local Abbreviation mat := (MaterialState P F).
Local Abbreviation MM := (M mat).
Implicit Type n : mat.

Definition set_eof_underlying (v : bool) n : mat := mkMat (m_eflags n) v (m_store n) (m_outer n).
Definition set_m_store (v : option (Tuplestorestate F)) n : mat := mkMat (m_eflags n) (eof_underlying n) v (m_outer n).
Definition set_m_outer (v : P) n : mat := mkMat (m_eflags n) (eof_underlying n) (m_store n) v.

(** A call on the tuple store; without one it follows a NULL pointer. *)
Definition on_store {A} (m : M (Tuplestorestate F) A) : MM A := fun n =>
  match m_store n with
  | None => Err EUndef
  | Some s => match m s with Ok (a, s') => Ok (a, set_m_store (Some s') n) | Err e => Err e end
  end.

(** First time through, and a tuple store is needed; the pointer for the mark has number 1. *)
Definition init_store : MM unit :=
  n ← mget;
  match m_store n with
  | Some _ => mret tt
  | None =>
    if (m_eflags n =? 0)%Z then mret tt
    else
      mput (set_m_store (Some (tuplestore_begin_heap array_space true work_mem)) n);;
      on_store (tuplestore_set_eflags (m_eflags n));;
      if has_flag (m_eflags n) EXEC_FLAG_MARK then
        ptrno ← on_store (tuplestore_alloc_read_pointer (m_eflags n));
        Assert (ptrno =? 1)
      else mret tt
  end.
Definition store_ateof : MM bool := n ← mget; match m_store n with None => mret true | Some _ => on_store tuplestore_ateof end.

(** From the tuple store, then from the subplan *)
Definition read_or_fetch (forward eof_tuplestore : bool) : MM (option tup) :=
  slot ← (if eof_tuplestore then mret None else on_store (tuplestore_gettupleslot GetMemoryChunkSpace forward));
  match slot with
  | Some t => mret (Some t)
  | None =>
    n ← mget;
    if (eof_tuplestore || forward) && negb (eof_underlying n) then
      let '(outerslot, p) := proc_node forward (m_outer n) in
      mput (set_m_outer p n);;
      match outerslot with
      | None => mmod (set_eof_underlying true);; mret None
      | Some t =>
        match m_store n with Some _ => on_store (tuplestore_puttupleslot GetMemoryChunkSpace array_space t) | None => mret tt end;;
        mret (Some t)
      end
    else mret None
  end.

Definition ExecMaterial (forward : bool) : MM (option tup) :=
  init_store;;
  eof_tuplestore ← store_ateof;
  n ← mget;
  if negb forward && eof_tuplestore then
    if negb (eof_underlying n) then
      more ← on_store (tuplestore_advance GetMemoryChunkSpace forward);
      if more : bool then read_or_fetch forward false else mret None
    else read_or_fetch forward false
  else read_or_fetch forward eof_tuplestore.

Definition material_flags : Z := Z.lor EXEC_FLAG_REWIND (Z.lor EXEC_FLAG_BACKWARD EXEC_FLAG_MARK).
Definition ExecInitMaterial {Plan} (ExecInitNode : Plan -> Z -> P) (plan : Plan) (eflags : Z) : mat :=
  let own := Z.land eflags material_flags in
  let own := if has_flag eflags EXEC_FLAG_BACKWARD then Z.lor own EXEC_FLAG_REWIND else own in
  mkMat own false None (ExecInitNode plan (Z.ldiff eflags material_flags)).
(** With what tuplestore_end closes and frees *)
Definition ExecEndMaterial n : option (option F * list tup) * mat :=
  (tuplestore_end <$> m_store n, mkMat (m_eflags n) (eof_underlying n) None (end_node (m_outer n))).

Definition ExecMaterialMarkPos : MM unit :=
  n ← mget;
  Assert (has_flag (m_eflags n) EXEC_FLAG_MARK);;
  match m_store n with
  | None => mret tt
  | Some _ => on_store (tuplestore_copy_read_pointer 0 1);; on_store (tuplestore_trim GetMemoryChunkSpace)
  end.
Definition ExecMaterialRestrPos : MM unit :=
  n ← mget;
  Assert (has_flag (m_eflags n) EXEC_FLAG_MARK);;
  match m_store n with
  | None => mret tt
  | Some _ => on_store (tuplestore_copy_read_pointer 1 0)
  end.

(** The parameters that have changed, if any; ExecReScan of execAmi.c gives them to the subplan first. *)
Definition ExecMaterialReScan (chgParam : option V) : MM unit :=
  mmod (fun n => match chgParam with Some v => set_m_outer (update_params v (m_outer n)) n | None => n end);;
  n ← mget;
  let rescan_outer := if param_changed (m_outer n) then m_outer n else rescan_node (m_outer n) in
  if negb (m_eflags n =? 0)%Z then
    match m_store n with
    | None => mret tt
    | Some _ =>
      if param_changed (m_outer n) || negb (has_flag (m_eflags n) EXEC_FLAG_REWIND) then mput (mkMat (m_eflags n) false None rescan_outer)
      else on_store tuplestore_rescan
    end
  else mput (mkMat (m_eflags n) false (m_store n) rescan_outer).

(** ** Scans *)

Inductive mat_op := MFetch (forward : bool) | MMark | MRestore | MReScan (chgParam : option V).
Definition mat_step (op : mat_op) : MM (list (option tup)) :=
  match op with
  | MFetch forward => t ← ExecMaterial forward; mret [t]
  | MMark => ExecMaterialMarkPos;; mret []
  | MRestore => ExecMaterialRestrPos;; mret []
  | MReScan v => ExecMaterialReScan v;; mret []
  end.
Fixpoint mat_scan (ops : list mat_op) : MM (list (option tup)) :=
  match ops with [] => mret [] | op :: ops => r ← mat_step op; rs ← mat_scan ops; mret (r ++ rs) end.

(** The same on the rows, with a position and a mark; a rescan loses the mark.  No answer for what the node was not initialised for. *)
Fixpoint mat_spec (eflags : Z) (query : V -> list tup) (ops : list mat_op) (rows : list tup) (pos : nat) (mark : option nat) : option (list (option tup)) :=
  match ops with
  | [] => Some []
  | MFetch forward :: ops =>
    if forward || has_flag eflags EXEC_FLAG_BACKWARD then
      let pos := move (length rows) forward pos in
      ts ← mat_spec eflags query ops rows pos mark;
      Some (row_at rows pos :: ts)
    else None
  | MMark :: ops => if has_flag eflags EXEC_FLAG_MARK then mat_spec eflags query ops rows pos (Some pos) else None
  | MRestore :: ops => if has_flag eflags EXEC_FLAG_MARK then m ← mark; mat_spec eflags query ops rows m mark else None
  | MReScan v :: ops => mat_spec eflags query ops (match v with Some v => query v | None => rows end) 0 None
  end.
End code.
Arguments mat_op V : clear implicits.

(** ** Proofs *)

(** UpdateChangedParamSet leaves a subplan alone that does not depend on the parameters. *)
Class UpdateKeeps (P A V : Type) `{!SubPlan P A V} := update_keeps : forall v (p : P), param_changed (update_params v p) = false -> update_params v p = p.

Section correct.
Context {P V F : Type} `{!SubPlan P tup V} `{!SubPlanLaws P tup V} `{!UpdateKeeps P tup V} `{!TempFile F} `{!TempFileLaws F}.
Context (chunk_space : tup -> Z) (array_space : nat -> Z) (work_mem : Z).
Context (e : Z) (query : V -> list tup) (Hbw : has_flag e EXEC_FLAG_BACKWARD = true -> has_flag e EXEC_FLAG_REWIND = true).
(** Whether the scan has fetches backwards, and whether it restores positions; not both. *)
Context (prior restore : bool) (Hmix : prior && restore = false).
Implicit Type n : MaterialState P F.

Section rows.
Context (rows : list tup) (Hsmall : Forall small rows).

(** Positions that cannot be told apart: without fetches backwards, after the last row is as good as at it. *)
Definition near (x y : nat) : Prop := if prior then x = y else Nat.min x (length rows) = Nat.min y (length rows).
Lemma near_refl x : near x x.
Proof. unfold near. destruct prior; done. Qed.
Lemma near_forward x y : near x y -> move (length rows) true x = move (length rows) true y.
Proof. unfold near, move. destruct prior; [intros ->; done|lia]. Qed.

(** Where a pointer of the tuple store stands for the node: at the end of the store it is at the last row that was fetched, or behind it. *)
Definition view (eofu : bool) (k : nat) (q : aptr) : nat := if a_eof q then (if eofu then S k else k) else a_pos q.
(** A node that has a tuple store, with [q0] for the scan and [q1] for the mark *)
Record core n (s : Tuplestorestate F) (a : astore) (q0 q1 : aptr) : Prop := {
  c_R : R s a;
  c_store : m_store n = Some s;
  c_flags : m_eflags n = e;
  c_rows : sp_rows (m_outer n) = rows;
  c_query : for_params (m_outer n) = query;
  c_active : a_active a = 0;
  c_ptrs : a_ptrs a = q0 :: (if has_flag e EXEC_FLAG_MARK then [q1] else []);
  c_q0 : a_eflags q0 = e;
  c_q1 : a_eflags q1 = e;
  c_tuples : a_tuples a = take (length (a_tuples a)) rows;
  c_end : if eof_underlying n then length (a_tuples a) = length rows else sp_pos (m_outer n) = length (a_tuples a);
  c_floor : has_flag e EXEC_FLAG_REWIND = true -> a_floor a = 0 }.
Definition mark_ok n (a : astore) (q1 : aptr) (mark : option nat) : Prop :=
  restore = true -> forall m, mark = Some m -> near (view (eof_underlying n) (length (a_tuples a)) q1) m.
Definition minv n (pos : nat) (mark : option nat) : Prop :=
  (e = 0%Z /\ m_eflags n = e /\ m_store n = None /\ sp_rows (m_outer n) = rows /\ for_params (m_outer n) = query /\
    if eof_underlying n then pos = S (length rows) else sp_pos (m_outer n) = pos /\ pos <= length rows) \/
  (e <> 0%Z /\ m_eflags n = e /\ m_store n = None /\ sp_rows (m_outer n) = rows /\ for_params (m_outer n) = query /\
    eof_underlying n = false /\ sp_pos (m_outer n) = 0 /\ pos = 0 /\ (mark = None \/ mark = Some 0)) \/
  (e <> 0%Z /\ exists s a q0 q1, core n s a q0 q1 /\ near (view (eof_underlying n) (length (a_tuples a)) q0) pos /\ mark_ok n a q1 mark).

Lemma on_store_ok {A} (m : M (Tuplestorestate F) A) n s x s' : m_store n = Some s -> m s = Ok (x, s') -> on_store m n = Ok (x, set_m_store (Some s') n).
Proof. intros Hs Hm. unfold on_store. rewrite Hs, Hm. done. Qed.
Lemma set_m_store_id n s : m_store n = Some s -> set_m_store (Some s) n = n.
Proof. destruct n. cbn. intros ->. done. Qed.
Lemma R_ok s a : R s a -> a_ok a.
Proof. intros (r & C & _). exact (cm_ok _ _ _ C). Qed.

Section held.
Context n s a q0 q1 (C : core n s a q0 q1).
Local Abbreviation k := (length (a_tuples a)).

Lemma k_le : k <= length rows.
Proof using C. pose proof (f_equal length (c_tuples _ _ _ _ _ C)) as H. rewrite length_take in H. lia. Qed.
Lemma stored_row i : i < k -> a_tuples a !! i = rows !! i.
Proof using C. intros Hi. rewrite (c_tuples _ _ _ _ _ C), lookup_take_lt by done. done. Qed.
Lemma ptr_active : a_ptrs a !! a_active a = Some q0.
Proof using C. rewrite (c_active _ _ _ _ _ C), (c_ptrs _ _ _ _ _ C). done. Qed.
Lemma q0_pos : a_eof q0 = false -> a_pos q0 <= k.
Proof using C. intros He. exact (proj1 (ao_pos _ (R_ok _ _ (c_R _ _ _ _ _ C)) _ _ ptr_active He)). Qed.

(** The pointer of the scan moves. *)
Lemma core_move s' q : R s' (a_set_ptr (a_active a) q a) -> a_eflags q = e -> core (set_m_store (Some s') n) s' (a_set_ptr (a_active a) q a) q q1.
Proof using C.
  intros HR Hq. destruct C as [C1 C2 C3 C4 C5 C6 C7 C8 C9 C10 C11 C12]. split; try done. cbn. rewrite C6, C7. done.
Qed.
(** A read from the tuple store *)
Lemma store_get fw t q : a_get fw a = Some (t, a_set_ptr (a_active a) q a) -> a_eflags q = e ->
  exists s', on_store (tuplestore_gettupleslot chunk_space fw) n = Ok (t, set_m_store (Some s') n) /\ core (set_m_store (Some s') n) s' (a_set_ptr (a_active a) q a) q q1.
Proof using C.
  intros Hg Hq. destruct (get_ok chunk_space s a fw t _ (c_R _ _ _ _ _ C) Hg) as (s' & Hrun & HR). exists s'. split; [|apply core_move; done].
  apply (on_store_ok _ n s); [apply C|exact Hrun].
Qed.

Definition put_ptr_of (q : aptr) : aptr := if a_eof q then mkA e false k else q.
Lemma core_put t p s' : rows !! k = Some t -> eof_underlying n = false -> a_eof q0 = true -> sp_rows p = rows -> for_params p = query -> sp_pos p = S k -> R s' (a_put t a) ->
  core (mkMat (m_eflags n) false (Some s') p) s' (a_put t a) q0 (put_ptr_of q1).
Proof using C.
  intros Ht Hu He Hr Hq Hp HR. destruct C as [C1 C2 C3 C4 C5 C6 C7 C8 C9 C10 C11 C12]. split; try done.
  - cbn. rewrite C7, C6. cbn. rewrite bool_decide_false, andb_false_r by congruence. f_equal. destruct (has_flag e EXEC_FLAG_MARK); [|done]. cbn.
    rewrite bool_decide_true, andb_true_r by done. unfold put_ptr_of. rewrite C9. done.
  - unfold put_ptr_of. destruct (a_eof q1); done.
  - cbn. rewrite length_app. cbn. rewrite Nat.add_1_r, (take_S_r _ _ _ Ht), <- C10. done.
  - cbn. rewrite length_app. cbn. lia.
Qed.
End held.

(** At the end of the tuple store the next row comes from the subplan. *)
Lemma fetch_more n s a q0 q1 pos mark : core n s a q0 q1 -> e <> 0%Z -> a_eof q0 = true -> mark_ok n a q1 mark ->
  move (length rows) true pos = (if eof_underlying n then S (length rows) else S (length (a_tuples a))) ->
  exists n', read_or_fetch chunk_space array_space true true n = Ok (row_at rows (move (length rows) true pos), n') /\ minv n' (move (length rows) true pos) mark.
Proof using Hsmall Hmix.
  intros C He0 He Hmk ->. pose proof (k_le _ _ _ _ _ C) as Hk. pose proof (c_end _ _ _ _ _ C) as Hend. unfold read_or_fetch. rewrite mret_ok, mget_ok. cbn [orb andb].
  destruct (eof_underlying n) eqn:Eu; cbn [negb].
  - exists n. split; [cbn; rewrite lookup_ge_None_2 by lia; done|]. right; right. split; [done|]. exists s, a, q0, q1. split; [done|]. split; [|done]. unfold view. rewrite Eu, He, Hend. apply near_refl.
  - destruct (sp_proc true (m_outer n)) as (p & Hp & Hr & Hpos & Hq). rewrite (c_rows _ _ _ _ _ C), Hend in *. rewrite Hp. replace (Nat.min _ _) with (S (length (a_tuples a))) in * by lia.
    rewrite mput_ok. cbn [row_at]. destruct (rows !! length (a_tuples a)) as [t|] eqn:Et.
    + rewrite (c_store _ _ _ _ _ C). assert (Ht : small t) by (eapply Forall_lookup_1; done).
      destruct (put_ok chunk_space array_space _ a t (R_avail s a (ts_availMem s - chunk_space t) (c_R _ _ _ _ _ C)) Ht) as (s' & Hrun & HR).
      assert (Hput : on_store (tuplestore_puttupleslot chunk_space array_space t) (set_m_outer p n) = Ok (tt, set_m_store (Some s') (set_m_outer p n))).
      { apply (on_store_ok _ _ s); [exact (c_store _ _ _ _ _ C)|]. unfold tuplestore_puttupleslot. rewrite mmod_ok. exact Hrun. }
      rewrite (mbind_ok _ _ _ _ _ Hput). exists (mkMat (m_eflags n) false (Some s') p). split; [unfold set_m_store, set_m_outer; cbn; rewrite Eu; done|].
      right; right. split; [done|]. exists s', (a_put t a), q0, (put_ptr_of a q1). split; [apply (core_put n s a q0 q1 C); try done; exact (eq_trans Hq (c_query _ _ _ _ _ C))|]. split.
      * unfold view. rewrite He. cbn. rewrite length_app, Nat.add_1_r. apply near_refl.
      * intros Hre m Hm. specialize (Hmk Hre m Hm). unfold view in *. rewrite Eu in Hmk. unfold put_ptr_of. destruct (a_eof q1) eqn:E1; cbn; [exact Hmk|rewrite E1; exact Hmk].
    + apply lookup_ge_None_1 in Et. rewrite mmod_ok. eexists. split; [reflexivity|]. right; right. split; [done|]. exists s, a, q0, q1.
      split; [destruct C as [C1 C2 C3 C4 C5 C6 C7 C8 C9 C10 C11 C12]; split; try done; [exact (eq_trans Hq C5)|cbn; lia]|]. split.
      * unfold view. rewrite He. cbn. apply near_refl.
      * intros Hre m Hm. specialize (Hmk Hre m Hm). rewrite Hre, andb_true_r in Hmix. unfold near, view in *. rewrite Hmix in *. rewrite Eu in Hmk. cbn. destruct (a_eof q1); lia.
Qed.

(** A call that finds a tuple store *)
Lemma exec_held fw n s a q0 q1 : core n s a q0 q1 ->
  ExecMaterial chunk_space array_space work_mem fw n =
    if negb fw && a_eof q0 then
      if negb (eof_underlying n) then (more ← on_store (tuplestore_advance chunk_space fw); if more : bool then read_or_fetch chunk_space array_space fw false else mret None) n
      else read_or_fetch chunk_space array_space fw false n
    else read_or_fetch chunk_space array_space fw (a_eof q0) n.
Proof.
  intros C. pose proof (c_store _ _ _ _ _ C) as Hs. unfold ExecMaterial. assert (Hi : init_store array_space work_mem n = Ok (tt, n)) by (unfold init_store; rewrite mget_ok, Hs; done).
  assert (Ha : store_ateof n = Ok (a_eof q0, n)).
  { unfold store_ateof. rewrite mget_ok, Hs, (on_store_ok _ _ s _ _ Hs (ateof_ok s a q0 (c_R _ _ _ _ _ C) (ptr_active _ _ _ _ _ C))). rewrite set_m_store_id by done. done. }
  rewrite (mbind_ok _ _ _ _ _ Hi), (mbind_ok _ _ _ _ _ Ha), mget_ok. destruct (negb fw && a_eof q0); [|done]. destruct (negb (eof_underlying n)); done.
Qed.

Lemma forward_held n s a q0 q1 pos mark : core n s a q0 q1 -> e <> 0%Z -> near (view (eof_underlying n) (length (a_tuples a)) q0) pos -> mark_ok n a q1 mark ->
  exists n', ExecMaterial chunk_space array_space work_mem true n = Ok (row_at rows (move (length rows) true pos), n') /\ minv n' (move (length rows) true pos) mark.
Proof using Hsmall Hmix.
  intros C He0 Hnear Hmk. rewrite (exec_held true n s a q0 q1 C). cbn [negb andb]. pose proof (k_le _ _ _ _ _ C) as Hk. apply near_forward in Hnear. pose proof (c_end _ _ _ _ _ C) as Hend. unfold view in Hnear.
  destruct (a_eof q0) eqn:He.
  { apply (fetch_more n s a q0 q1); try done. rewrite <- Hnear. unfold move. destruct (eof_underlying n); lia. }
  pose proof (q0_pos _ _ _ _ _ C He) as Hq. destruct (a_tuples a !! a_pos q0) as [t|] eqn:Et.
  - destruct (store_get n s a q0 q1 C true (Some t) (mkA e false (S (a_pos q0)))) as (s' & Hg & C').
    { unfold a_get. rewrite (ptr_active _ _ _ _ _ C). cbn. rewrite He, Et, (c_q0 _ _ _ _ _ C). done. } { done. }
    apply lookup_lt_Some in Et as Hlt. unfold move in Hnear at 1. replace (Nat.min _ _) with (S (a_pos q0)) in Hnear by lia. rewrite <- Hnear.
    unfold read_or_fetch. rewrite (mbind_ok _ _ _ _ _ Hg). rewrite (stored_row _ _ _ _ _ C) in Et by done. cbn [row_at]. rewrite Et. eexists. split; [reflexivity|].
    right; right. split; [done|]. eexists _, _, _, _. split; [exact C'|]. split; [apply near_refl|done].
  - apply lookup_ge_None_1 in Et as Hge. destruct (store_get n s a q0 q1 C true None (mkA e true (a_pos q0))) as (s' & Hg & C').
    { unfold a_get. rewrite (ptr_active _ _ _ _ _ C). cbn. rewrite He, Et, (c_q0 _ _ _ _ _ C). done. } { done. }
    destruct (fetch_more _ s' _ _ q1 pos mark C' He0) as (n' & Hf & Hi); [done|done| |].
    { rewrite <- Hnear. cbn. unfold move. destruct (eof_underlying n); lia. }
    exists n'. split; [|done]. rewrite <- Hf. unfold read_or_fetch at 1. rewrite (mbind_ok _ _ _ _ _ Hg). done.
Qed.

(** Backwards the tuple store has the rows. *)
Section backward.
Context (Hb : has_flag e EXEC_FLAG_BACKWARD = true).

Lemma back_get n s a q0 q1 : core n s a q0 q1 -> let q := if a_eof q0 then length (a_tuples a) else a_pos q0 - 1 in
  a_get false a = Some (row_at rows q, a_set_ptr (a_active a) (mkA e false q) a).
Proof using Hb Hbw Hmix.
  intros C q. unfold a_get. rewrite (ptr_active _ _ _ _ _ C). cbn. rewrite (c_q0 _ _ _ _ _ C), Hb, (c_floor _ _ _ _ _ C) by auto. fold q. rewrite decide_False by lia.
  assert (Hq : q <= length (a_tuples a)). { subst q. destruct (a_eof q0) eqn:E; [done|]. pose proof (q0_pos _ _ _ _ _ C E). lia. }
  destruct q as [|q]; [done|]. rewrite decide_False by done. cbn. rewrite Nat.sub_0_r, (stored_row _ _ _ _ _ C) by lia. done.
Qed.
Lemma read_back_held n s a q0 q1 mark : core n s a q0 q1 -> e <> 0%Z -> mark_ok n a q1 mark -> let q := if a_eof q0 then length (a_tuples a) else a_pos q0 - 1 in
  exists n', read_or_fetch chunk_space array_space false false n = Ok (row_at rows q, n') /\ minv n' q mark.
Proof using Hb Hbw Hmix.
  intros C He0 Hmk q. destruct (store_get n s a q0 q1 C false _ _ (back_get n s a q0 q1 C) eq_refl) as (s' & Hg & C'). fold q in Hg, C'. unfold read_or_fetch. rewrite (mbind_ok _ _ _ _ _ Hg).
  exists (set_m_store (Some s') n). split; [destruct (row_at rows q); done|]. right; right. split; [done|]. eexists _, _, _, _. split; [exact C'|]. split; [apply near_refl|exact Hmk].
Qed.
Lemma backward_held n s a q0 q1 mark : core n s a q0 q1 -> e <> 0%Z -> mark_ok n a q1 mark -> let pos := view (eof_underlying n) (length (a_tuples a)) q0 in
  exists n', ExecMaterial chunk_space array_space work_mem false n = Ok (row_at rows (pred pos), n') /\ minv n' (pred pos) mark.
Proof using Hb Hbw Hmix.
  intros C He0 Hmk pos. rewrite (exec_held false n s a q0 q1 C). cbn [negb andb]. unfold pos, view. pose proof (read_back_held n s a q0 q1 mark C He0 Hmk) as Hback. pose proof (back_get n s a q0 q1 C) as Hbg.
  destruct (a_eof q0) eqn:He; [|rewrite <- Nat.sub_1_r; exact Hback]. destruct (eof_underlying n) eqn:Eu; cbn [negb]; [exact Hback|].
  destruct (get_ok chunk_space s a false _ _ (c_R _ _ _ _ _ C) Hbg) as (s' & Hrun & HR). pose proof (core_move n s a q0 q1 C s' _ HR eq_refl) as C'.
  assert (Hadv : on_store (tuplestore_advance chunk_space false) n = Ok (bool_decide (is_Some (row_at rows (length (a_tuples a)))), set_m_store (Some s') n)).
  { apply (on_store_ok _ n s); [apply C|]. unfold tuplestore_advance. rewrite (mbind_ok _ _ _ _ _ Hrun). done. }
  rewrite (mbind_ok _ _ _ _ _ Hadv). pose proof (k_le _ _ _ _ _ C) as Hk. destruct (length (a_tuples a)) as [|k] eqn:Ek; cbn [row_at].
  - rewrite bool_decide_false by (intros [? ?]; done). eexists. split; [reflexivity|]. right; right. split; [done|]. eexists _, _, _, _. split; [exact C'|]. split; [apply near_refl|].
    unfold mark_ok in *. cbn. rewrite Ek in Hmk. rewrite Ek. exact Hmk.
  - rewrite bool_decide_true by (apply lookup_lt_is_Some_2; lia). destruct (read_back_held _ _ _ _ _ mark C' He0 Hmk) as (n' & Hr & Hi). cbn in Hr, Hi. rewrite Nat.sub_0_r in Hr, Hi. exists n'. done.
Qed.
End backward.

(** The first call makes the tuple store. *)
Lemma init_fresh n mark : e <> 0%Z -> m_eflags n = e -> m_store n = None -> sp_rows (m_outer n) = rows -> for_params (m_outer n) = query -> eof_underlying n = false -> sp_pos (m_outer n) = 0 ->
  mark = None \/ mark = Some 0 ->
  exists n1 s a q0 q1, init_store array_space work_mem n = Ok (tt, n1) /\ core n1 s a q0 q1 /\ view (eof_underlying n1) (length (a_tuples a)) q0 = 0 /\ mark_ok n1 a q1 mark.
Proof.
  intros He0 Hf Hs Hr Hq Hu Hp Hmk. unfold init_store. rewrite mget_ok, Hs, Hf. destruct (Z.eqb_spec e 0) as [?|_]; [done|]. rewrite mput_ok.
  destruct (set_flags_ok _ _ _ e (begin_R array_space true work_mem) eq_refl eq_refl) as (s1 & Hrun1 & HR1). set (n0 := set_m_store _ n).
  rewrite (mbind_ok _ _ _ _ _ (on_store_ok _ n0 _ _ _ eq_refl Hrun1)). cbn in HR1. set (q := mkA e false 0) in HR1. set (a1 := a_set_ptr _ _ _) in HR1.
  assert (Hmark : forall n1 a, eof_underlying n1 = false -> a_tuples a = [] -> mark_ok n1 a q mark). { intros n1 a _ _ _ m ->. destruct Hmk as [?|[= ->]]; [done|apply near_refl]. }
  destruct (has_flag e EXEC_FLAG_MARK) eqn:Em.
  - destruct (alloc_ok s1 a1 q e HR1 eq_refl (or_introl eq_refl)) as (s2 & Hrun2 & HR2). rewrite (mbind_ok _ _ _ _ _ (on_store_ok _ (set_m_store (Some s1) n0) s1 _ _ eq_refl Hrun2)).
    eexists _, s2, _, q, q. split; [reflexivity|]. split; [split; try done|split; [done|apply Hmark; done]]; cbn; rewrite ?Em, ?Hu; done.
  - eexists _, s1, a1, q, q. split; [reflexivity|]. split; [split; try done|split; [done|apply Hmark; done]]; cbn; rewrite ?Em, ?Hu; done.
Qed.
Lemma exec_init fw n n1 s a q0 q1 : init_store array_space work_mem n = Ok (tt, n1) -> core n1 s a q0 q1 ->
  ExecMaterial chunk_space array_space work_mem fw n = ExecMaterial chunk_space array_space work_mem fw n1.
Proof.
  intros Hi C. unfold ExecMaterial. rewrite (mbind_ok _ _ _ _ _ Hi). assert (Hi1 : init_store array_space work_mem n1 = Ok (tt, n1)) by (unfold init_store; rewrite mget_ok, (c_store _ _ _ _ _ C); done).
  rewrite (mbind_ok _ _ _ _ _ Hi1). done.
Qed.

(** Without a tuple store the rows are passed on. *)
Lemma forward_plain n pos : e = 0%Z -> m_eflags n = e -> m_store n = None -> sp_rows (m_outer n) = rows -> for_params (m_outer n) = query ->
  (if eof_underlying n then pos = S (length rows) else sp_pos (m_outer n) = pos /\ pos <= length rows) ->
  exists n', ExecMaterial chunk_space array_space work_mem true n = Ok (row_at rows (move (length rows) true pos), n') /\ forall mark, minv n' (move (length rows) true pos) mark.
Proof.
  intros He Hf Hs Hr Hq Hpos. unfold ExecMaterial. assert (Hi : init_store array_space work_mem n = Ok (tt, n)) by (unfold init_store; rewrite mget_ok, Hs, Hf, He; done).
  assert (Ha : store_ateof n = Ok (true, n)) by (unfold store_ateof; rewrite mget_ok, Hs; done). rewrite (mbind_ok _ _ _ _ _ Hi), (mbind_ok _ _ _ _ _ Ha), mget_ok. cbn [negb andb].
  unfold read_or_fetch. rewrite mret_ok, mget_ok. cbn [orb andb]. destruct (eof_underlying n) eqn:Eu; cbn [negb].
  - subst pos. unfold move. replace (Nat.min _ _) with (S (length rows)) by lia. exists n. split; [cbn; rewrite lookup_ge_None_2 by lia; done|]. intros mark. left. rewrite Eu. done.
  - destruct Hpos as [Hpos Hle]. destruct (sp_proc true (m_outer n)) as (p & Hp & Hr' & Hpos' & Hq'). rewrite Hr, Hpos in *. rewrite Hp, mput_ok. unfold move.
    replace (Nat.min _ _) with (S pos) in * by lia. cbn [row_at]. destruct (rows !! pos) as [t|] eqn:Et.
    + rewrite Hs. eexists. split; [reflexivity|]. intros mark. left. cbn. rewrite Eu, Hs, Hf. apply lookup_lt_Some in Et. split_and!; done || congruence || lia.
    + rewrite mmod_ok. eexists. split; [reflexivity|]. intros mark. left. apply lookup_ge_None_1 in Et. cbn. rewrite Hs, Hf. split_and!; done || congruence || lia.
Qed.

Lemma fetch_step fw n pos mark : minv n pos mark -> (fw = false -> prior = true /\ has_flag e EXEC_FLAG_BACKWARD = true) ->
  exists n', ExecMaterial chunk_space array_space work_mem fw n = Ok (row_at rows (move (length rows) fw pos), n') /\ minv n' (move (length rows) fw pos) mark.
Proof using Hsmall Hmix Hbw.
  intros Hinv Hback. destruct Hinv as [(He & Hf & Hs & Hr & Hq & Hpos)|[(He & Hf & Hs & Hr & Hq & Hu & Hp & -> & Hmk)|(He & s & a & q0 & q1 & C & Hnear & Hmk)]].
  - destruct fw; [|destruct (Hback eq_refl) as [_ Hb]; rewrite He in Hb; discriminate Hb]. destruct (forward_plain n pos He Hf Hs Hr Hq Hpos) as (n' & Hx & Hi). eauto.
  - destruct (init_fresh n mark He Hf Hs Hr Hq Hu Hp Hmk) as (n1 & s & a & q0 & q1 & Hi & C & Hv & Hmk'). rewrite (exec_init fw n n1 s a q0 q1 Hi C). destruct fw.
    + apply (forward_held n1 s a q0 q1); try done. rewrite Hv. apply near_refl.
    + destruct (Hback eq_refl) as [_ Hb]. pose proof (backward_held Hb n1 s a q0 q1 mark C He Hmk') as H. cbn in H. rewrite Hv in H. exact H.
  - destruct fw; [apply (forward_held n s a q0 q1); done|]. destruct (Hback eq_refl) as [Hpr Hb]. unfold near in Hnear. rewrite Hpr in Hnear. subst pos. apply (backward_held Hb n s a q0 q1); done.
Qed.

(** *** Marks *)

Lemma mark_step n pos mark : minv n pos mark -> has_flag e EXEC_FLAG_MARK = true -> exists n', ExecMaterialMarkPos chunk_space n = Ok (tt, n') /\ minv n' pos (Some pos).
Proof.
  intros Hinv Hm. unfold ExecMaterialMarkPos. destruct Hinv as [(He & _)|[(He & Hf & Hs & Hr & Hq & Hu & Hp & -> & Hmk)|(He & s & a & q0 & q1 & C & Hnear & Hmk)]].
  - rewrite He in Hm. discriminate Hm.
  - rewrite mget_ok, Hf, Assert_ok, Hs by done. exists n. split; [done|]. right; left. split_and!; auto.
  - pose proof C as [C1 C2 C3 C4 C5 C6 C7 C8 C9 C10 C11 C12]. rewrite mget_ok, C3, Assert_ok, C2 by done. rewrite Hm in C7.
    destruct (copy_ok s a 0 1 q0 C1) as (s1 & Hrun1 & HR1); [rewrite C7; done|rewrite C7; cbn; lia|]. rewrite (mbind_ok _ _ _ _ _ (on_store_ok _ n s _ _ C2 Hrun1)).
    destruct (trim_ok chunk_space s1 _ HR1) as (s2 & Hrun2 & HR2). rewrite (on_store_ok _ (set_m_store (Some s1) n) s1 _ _ eq_refl Hrun2). eexists. split; [reflexivity|].
    assert (Hfl : has_flag e EXEC_FLAG_REWIND = true -> has_flag (a_flags (a_set_ptr 1 q0 a)) EXEC_FLAG_REWIND = true).
    { intros Hrw. apply a_flags_spec. exists 0, q0. cbn. rewrite C7. split; [done|]. rewrite C8. done. }
    right; right. split; [done|]. exists s2. eexists. exists q0, q0. split; [split; [exact HR2|..]|split]; destruct (has_flag (a_flags _) _) eqn:Efl; cbn; rewrite ?C7, ?Hm; auto; try done.
    + intros H. specialize (Hfl H). congruence.
    + intros _ m [= <-]. exact Hnear.
    + intros _ m [= <-]. exact Hnear.
Qed.
Lemma restore_step n pos m : minv n pos (Some m) -> has_flag e EXEC_FLAG_MARK = true -> restore = true -> exists n', ExecMaterialRestrPos n = Ok (tt, n') /\ minv n' m (Some m).
Proof.
  intros Hinv Hm Hre. unfold ExecMaterialRestrPos. destruct Hinv as [(He & _)|[(He & Hf & Hs & Hr & Hq & Hu & Hp & -> & Hmk)|(He & s & a & q0 & q1 & C & Hnear & Hmk)]].
  - rewrite He in Hm. discriminate Hm.
  - rewrite mget_ok, Hf, Assert_ok, Hs by done. exists n. split; [done|]. right; left. destruct Hmk as [?|[= ->]]; [done|]. split_and!; auto.
  - pose proof C as [C1 C2 C3 C4 C5 C6 C7 C8 C9 C10 C11 C12]. rewrite mget_ok, C3, Assert_ok, C2 by done. rewrite Hm in C7.
    destruct (copy_ok s a 1 0 q1 C1) as (s1 & Hrun1 & HR1); [rewrite C7; done|rewrite C7; cbn; lia|]. rewrite (on_store_ok _ n s _ _ C2 Hrun1). eexists. split; [reflexivity|].
    right; right. split; [done|]. exists s1, (a_set_ptr 0 q1 a), q1, q1. split; [split; try done; cbn; rewrite C7, Hm; done|]. split; [exact (Hmk Hre m eq_refl)|exact Hmk].
Qed.
End rows.

(** *** Rescans *)

Definition new_rows (v : option V) (rows : list tup) : list tup := match v with Some v => query v | None => rows end.
Lemma update_outer v p rows : sp_rows p = rows -> for_params p = query -> let p' := match v with Some v => update_params v p | None => p end in
  sp_rows p' = new_rows v rows /\ for_params p' = query /\ (param_changed p' = true \/ p' = p).
Proof.
  intros Hr Hq. destruct v as [v|]; cbn; [|auto]. destruct (sp_update v p) as [-> ->]. rewrite Hq. split_and!; [done|done|]. destruct (param_changed (update_params v p)) eqn:Ec; [auto|right].
  apply update_keeps. done.
Qed.
(** A subplan that starts over *)
Lemma outer_restart p : let p' := if param_changed p then p else rescan_node p in sp_rows p' = sp_rows p /\ for_params p' = for_params p /\ sp_pos p' = 0.
Proof. cbn. destruct (param_changed p) eqn:Ec; [split_and!; try done; apply sp_changed; done|]. destruct (sp_rescan p) as (H1 & H2 & H3). done. Qed.

Lemma rescan_step rows v n pos mark : minv rows n pos mark -> exists n', ExecMaterialReScan v n = Ok (tt, n') /\ minv (new_rows v rows) n' 0 None.
Proof.
  intros Hinv. unfold ExecMaterialReScan. rewrite mmod_ok, mget_ok. set (n1 := match v with Some v => _ | None => _ end).
  assert (Hn1 : n1 = set_m_outer (match v with Some v => update_params v (m_outer n) | None => m_outer n end) n) by (subst n1; destruct v, n; done).
  rewrite Hn1. clear n1 Hn1. cbn [m_eflags m_store m_outer set_m_outer]. set (p := match v with Some v => _ | None => _ end).
  assert (Hcommon : sp_rows (m_outer n) = rows /\ for_params (m_outer n) = query) by (destruct Hinv as [H|[H|(_ & s & a & q0 & q1 & C & _)]]; [tauto|tauto|split; apply C]).
  destruct (update_outer v (m_outer n) rows (proj1 Hcommon) (proj2 Hcommon)) as (Hr & Hq & Hch). fold p in Hr, Hq, Hch. destruct (outer_restart p) as (Hr' & Hq' & Hp').
  destruct Hinv as [(He & Hf & Hs & _)|[(He & Hf & Hs & _ & _ & Hu & Hp & _ & _)|(He & s & a & q0 & q1 & C & _)]].
  - rewrite Hf, Hs, He. eexists. split; [reflexivity|]. left. cbn. split_and!; congruence || lia || done.
  - rewrite Hf, Hs. destruct (Z.eqb_spec e 0); [done|]. eexists. split; [reflexivity|]. right; left. cbn. split_and!; auto. destruct Hch as [Hch| ->]; [apply sp_changed|]; done.
  - pose proof C as [C1 C2 C3 C4 C5 C6 C7 C8 C9 C10 C11 C12]. rewrite C3, C2. destruct (Z.eqb_spec e 0); [done|]. cbn [negb].
    destruct (param_changed p || negb (has_flag e EXEC_FLAG_REWIND)) eqn:Ec.
    + eexists. split; [reflexivity|]. right; left. cbn. split_and!; try done; [congruence|congruence|auto].
    + apply orb_false_iff in Ec as [Ec Erw]. apply negb_false_iff in Erw. destruct Hch as [?|Hsame]; [congruence|].
      assert (Hrows : new_rows v rows = rows) by congruence. rewrite Hsame, Hrows. assert (Hn : set_m_outer (m_outer n) n = n) by (destruct n; done). rewrite Hn.
      destruct (rescan_ok s a q0 C1) as (s' & Hrun & HR); [rewrite C6, C7; done|rewrite C8; done|auto|]. rewrite (on_store_ok _ n s _ _ C2 Hrun). eexists. split; [reflexivity|].
      right; right. split; [done|]. eexists _, _, _, q1. split; [apply (core_move rows n s a q0 q1 C); [exact HR|done]|]. split; [apply near_refl|]. intros _ m ?. done.
Qed.

(** *** Scans *)

Definition op_kind (op : mat_op V) : Prop :=
  match op with MFetch false => prior = true | MRestore => restore = true | MReScan (Some v) => Forall small (query v) | _ => True end.
Lemma scan_step ops : forall rows n pos mark ts, Forall small rows -> minv rows n pos mark -> Forall op_kind ops -> mat_spec e query ops rows pos mark = Some ts ->
  exists n', mat_scan chunk_space array_space work_mem ops n = Ok (ts, n').
Proof using Hmix Hbw UpdateKeeps0.
  induction ops as [|op ops IH]; intros rows n pos mark ts Hsm Hinv Hk Hsp; [injection Hsp as <-; exists n; done|]. apply Forall_cons in Hk as [Hop Hk]. cbn [mat_scan]. destruct op as [fw| | |v]; cbn [mat_spec mat_step] in *.
  - destruct (fw || _) eqn:Ef; [|discriminate Hsp]. destruct (mat_spec _ _ _ _ _ _) as [ts'|] eqn:Es; [|discriminate Hsp]. injection Hsp as <-.
    destruct (fetch_step rows Hsm fw n pos mark Hinv) as (n' & Hx & Hi); [intros ->; done|]. destruct (IH _ _ _ _ _ Hsm Hi Hk Es) as (n'' & Hs).
    exists n''. rewrite mbind_assoc, (mbind_ok _ _ _ _ _ Hx), mret_ok, (mbind_ok _ _ _ _ _ Hs). done.
  - destruct (has_flag e EXEC_FLAG_MARK) eqn:Em; [|discriminate Hsp]. destruct (mark_step rows n pos mark Hinv Em) as (n' & Hx & Hi). destruct (IH _ _ _ _ _ Hsm Hi Hk Hsp) as (n'' & Hs).
    exists n''. rewrite mbind_assoc, (mbind_ok _ _ _ _ _ Hx), mret_ok, (mbind_ok _ _ _ _ _ Hs). done.
  - destruct (has_flag e EXEC_FLAG_MARK) eqn:Em; [|discriminate Hsp]. destruct mark as [m|]; [|discriminate Hsp]. cbn in Hsp.
    destruct (restore_step rows n pos m Hinv Em Hop) as (n' & Hx & Hi). destruct (IH _ _ _ _ _ Hsm Hi Hk Hsp) as (n'' & Hs).
    exists n''. rewrite mbind_assoc, (mbind_ok _ _ _ _ _ Hx), mret_ok, (mbind_ok _ _ _ _ _ Hs). done.
  - destruct (rescan_step rows v n pos mark Hinv) as (n' & Hx & Hi). destruct (IH (new_rows v rows) n' 0 None ts) as (n'' & Hs); [destruct v; cbn; done|done|done|exact Hsp|].
    exists n''. rewrite mbind_assoc, (mbind_ok _ _ _ _ _ Hx), mret_ok, (mbind_ok _ _ _ _ _ Hs). done.
Qed.
End correct.

(** The flags of the node answer as those it was initialised with, and a node that scans backwards can be rewound. *)
Lemma init_flags {P F Plan} (ExecInitNode : Plan -> Z -> P) plan eflags : let e := m_eflags (F := F) (ExecInitMaterial ExecInitNode plan eflags) in
  has_flag e EXEC_FLAG_BACKWARD = has_flag eflags EXEC_FLAG_BACKWARD /\ has_flag e EXEC_FLAG_MARK = has_flag eflags EXEC_FLAG_MARK /\
  (has_flag e EXEC_FLAG_BACKWARD = true -> has_flag e EXEC_FLAG_REWIND = true).
Proof.
  assert (Hland : forall f, Z.land material_flags f = f -> has_flag (Z.land eflags material_flags) f = has_flag eflags f) by (intros f Hf; unfold has_flag; rewrite <- Z.land_assoc, Hf; done).
  cbn. destruct (has_flag eflags EXEC_FLAG_BACKWARD) eqn:Eb; rewrite ?has_flag_lor, !Hland, ?Eb by done; cbn; rewrite ?orb_false_r; split_and!; try done.
  intros _. apply orb_true_r.
Qed.
Lemma mat_spec_flags {V} eflags e query (ops : list (mat_op V)) : has_flag e EXEC_FLAG_BACKWARD = has_flag eflags EXEC_FLAG_BACKWARD -> has_flag e EXEC_FLAG_MARK = has_flag eflags EXEC_FLAG_MARK ->
  forall rows pos mark, mat_spec eflags query ops rows pos mark = mat_spec e query ops rows pos mark.
Proof.
  intros Hb Hm. induction ops as [|[fw| | |v] ops IH]; intros rows pos mark; cbn; rewrite ?Hb, ?Hm; [done|..].
  - rewrite IH. done.
  - rewrite IH. done.
  - destruct mark; cbn; [rewrite IH|]; done.
  - apply IH.
Qed.

Definition is_prior {V} (op : mat_op V) : bool := match op with MFetch false => true | _ => false end.
Definition rescan_small {V} (query : V -> list tup) (op : mat_op V) : Prop := match op with MReScan (Some v) => Forall small (query v) | _ => True end.
Definition is_restore {V} (op : mat_op V) : bool := match op with MRestore => true | _ => false end.

(** C21: A materialize node is a cursor over the rows of its subplan.  After ExecInitMaterial, any sequence of fetches, marks, restores and rescans that the flags allow, with new
    parameters or without, answers as a position in the rows does, whatever the memory for the tuple store and whichever rows were fetched from the subplan before.  Fetches backwards and restores do
    not occur in the same scan. *)
Theorem material_cursor {P V F Plan : Type} `{!SubPlan P tup V} `{!SubPlanLaws P tup V} `{!UpdateKeeps P tup V} `{!TempFile F} `{!TempFileLaws F}
    (chunk_space : tup -> Z) (array_space : nat -> Z) (work_mem : Z) (ExecInitNode : Plan -> Z -> P) (plan : Plan) (eflags : Z) (ops : list (mat_op V)) ts :
  let n := ExecInitMaterial (F := F) ExecInitNode plan eflags in
  sp_pos (m_outer n) = 0 -> Forall small (sp_rows (m_outer n)) -> Forall (rescan_small (for_params (m_outer n))) ops -> existsb is_prior ops && existsb is_restore ops = false ->
  mat_spec eflags (for_params (m_outer n)) ops (sp_rows (m_outer n)) 0 (Some 0) = Some ts ->
  exists n', mat_scan chunk_space array_space work_mem ops n = Ok (ts, n').
Proof.
  intros n Hp Hsm Hq Hmix Hsp. destruct (init_flags (F := F) ExecInitNode plan eflags) as (Hb & Hm & Hbw). fold n in Hb, Hm, Hbw. rewrite (mat_spec_flags _ (m_eflags n)) in Hsp by done.
  refine (scan_step _ _ _ _ _ Hbw (existsb is_prior ops) (existsb is_restore ops) Hmix ops _ n 0 (Some 0) ts Hsm _ _ Hsp).
  - destruct (decide (m_eflags n = 0%Z)) as [He|He]; [left|right; left]; do 5 (split; [done|]); [split; [exact Hp|lia]|]. do 3 (split; [done|]). auto.
  - apply Forall_forall. intros op Hop. pose proof (proj1 (Forall_forall _ _) Hq op Hop) as Hs. apply list_elem_of_In in Hop.
    destruct op as [[]| | |v]; cbn; try done; apply existsb_exists; eexists; (split; [exact Hop|done]).
Qed.

(** ** Examples *)

#[export] Instance scan_keeps {A} : UpdateKeeps (scan_plan A) A (list A).
Proof. intros v p. done. Qed.

(** On a buffered file with a buffer of four bytes; two tuples fit into the memory of the tuple store. *)
Definition demo_material (eflags : Z) (ops : list (mat_op (list tup))) : res (list (option tup)) :=
  '(ts, _) ← @mat_scan _ _ _ scan_sub demo_file (fun _ => 400%Z) (fun _ => 0%Z) 1 ops (ExecInitMaterial (fun rows _ => mkScan rows 0 false) [[1]; [2; 2]; [3]; [4]]%Z eflags); Ok ts.
Definition demo_mat_ops : list (mat_op (list tup)) :=
  [MFetch true; MFetch true; MFetch true; MFetch false; MReScan None; MFetch true; MFetch true; MFetch true; MFetch true; MFetch true; MFetch false; MMark; MFetch false; MReScan (Some [[7]]%Z); MFetch true; MFetch true].
Lemma material_cursor_witness : exists n',
  @mat_scan _ _ _ scan_sub demo_file (fun _ => 400%Z) (fun _ => 0%Z) 1 demo_mat_ops
    (ExecInitMaterial (fun rows _ => mkScan rows 0 false) [[1]; [2; 2]; [3]; [4]]%Z (Z.lor EXEC_FLAG_BACKWARD EXEC_FLAG_MARK)) =
  Ok ([Some [1]; Some [2; 2]; Some [3]; Some [2; 2]; Some [1]; Some [2; 2]; Some [3]; Some [4]; None; Some [4]; Some [3]; Some [7]; None]%Z, n').
Proof.
  apply (@material_cursor _ _ _ _ scan_sub scan_sub_laws scan_keeps demo_file demo_laws).
  - reflexivity.
  - repeat constructor.
  - repeat constructor.
  - reflexivity.
  - reflexivity.
Defined.

(** A mark at the last row that was fetched becomes a mark behind it when the subplan has no more rows: the scan backwards then returns that row again. *)
Example mark_at_end_moves :
  demo_material (Z.lor EXEC_FLAG_BACKWARD EXEC_FLAG_MARK) [MFetch true; MFetch true; MFetch true; MFetch true; MMark; MRestore; MFetch false] =
    Ok [Some [1]; Some [2; 2]; Some [3]; Some [4]; Some [3]]%Z /\
  demo_material (Z.lor EXEC_FLAG_BACKWARD EXEC_FLAG_MARK) [MFetch true; MFetch true; MFetch true; MFetch true; MMark; MFetch true; MRestore; MFetch false] =
    Ok [Some [1]; Some [2; 2]; Some [3]; Some [4]; None; Some [4]]%Z.
Proof. split; vm_compute; reflexivity. Qed.
