(* ===== verification/PrlAppend.v ===== *)
(** * PrlAppend: an append node with workers

    ExecAppend and ExecEndAppend of src/backend/executor/nodeAppend.c with prl_sql on, the worker that runs a subplan (slaveBackendMain and doQuery of
    src/backend/postmaster/slaveworker.c) and the node that sends its rows (ExecPrlSend of src/backend/executor/nodePrlSend.c), as
    processes that run at the same time.  As in Workers, a loop that waits is a step that is possible when its condition holds, except for the loop of
    ExecAppend over the queues, where each turn is a step.  A queue has [N] cells at most; a cell that is not the last one has a row.  The plan
    of a subplan stands for the rows it returns. *)

From S2P Require Import Prelude Workers Append.
From Stdlib Require Import Permutation.

(** ** The workers *)

Inductive apc (A : Type) :=
| AForked                   (* forkSlave has started it *)
| AWaitReady                (* in waitForState(worker, READY) *)
| ASend (rows : list A)     (* doQuery: in ExecPrlSend, the rows that ExecProcNode has still to return *)
| AEnd                      (* about to set END *)
| ADie                      (* the END job: about to set DEAD *)
| AExit.
Arguments AForked {A}.
Arguments AWaitReady {A}.
Arguments ASend {A} rows.
Arguments AEnd {A}.
Arguments ADie {A}.
Arguments AExit {A}.

(** A worker process with its Worker, the subnode of its QueryParams, its queue ([None] is the last cell), the stop flag
    of the queue, and the leader's workersFinished entry for it. *)
Record aproc (A : Type) := mkAproc {
  a_pc : apc A; a_shared : Worker; a_subnode : option (list A); a_queue : list (option A); a_stop : bool; a_finished : bool }.
Arguments mkAproc {A} a_pc a_shared a_subnode a_queue a_stop a_finished.
Arguments a_pc {A} a.
Arguments a_shared {A} a.
Arguments a_subnode {A} a.
Arguments a_queue {A} a.
Arguments a_stop {A} a.
Arguments a_finished {A} a.

(** Where the leader is. *)
Inductive alpc :=
| PWaitInitial        (* ExecAppend, the first time: waitForWorkers(INITIAL) *)
| PReady              (* registered; stateTransition(INITIAL, READY) *)
| PCall               (* a row was returned *)
| PLoop (i : Z)       (* ExecAppend: a turn of the loop, worker [i] was asked last *)
| PReassign (i : nat) (* ExecAppend: worker [i] has sent its last cell and gets another subplan *)
| PStopSet (i : nat)  (* ExecEndAppend: bufferQueueSetStop of worker [i] *)
| PStopGet (i : nat)  (* ExecEndAppend: clear one value *)
| PWaitEnd            (* waitForWorkers(END) *)
| PEndTask            (* prepare ending task *)
| PWaitDead           (* waitForWorkers(DEAD) *)
| PDone.

(** The leader and the workers, the rows ExecAppend has returned so far, and whether it has returned an empty slot. *)
Record asys (A : Type) := mkAsys { p_pc : alpc; p_procs : list (aproc A); p_pas : PrlAppendState; p_out : list A; p_eof : bool }.
Arguments mkAsys {A} p_pc p_procs p_pas p_out p_eof.
Arguments p_pc {A} a.
Arguments p_procs {A} a.
Arguments p_pas {A} a.
Arguments p_out {A} a.
Arguments p_eof {A} a.

Section code.
Context {A : Type}.
Local Abbreviation aproc := (aproc A).
Local Abbreviation asys := (asys A).
Implicit Types (w : aproc) (s : asys).

Definition aset_pc p w : aproc := mkAproc p (a_shared w) (a_subnode w) (a_queue w) (a_stop w) (a_finished w).
Definition aset_shared v w : aproc := mkAproc (a_pc w) v (a_subnode w) (a_queue w) (a_stop w) (a_finished w).
Definition aset_subnode p w : aproc := mkAproc (a_pc w) (a_shared w) p (a_queue w) (a_stop w) (a_finished w).
Definition aset_queue q w : aproc := mkAproc (a_pc w) (a_shared w) (a_subnode w) q (a_stop w) (a_finished w).
Definition aset_stop b w : aproc := mkAproc (a_pc w) (a_shared w) (a_subnode w) (a_queue w) b (a_finished w).
Definition aset_finished b w : aproc := mkAproc (a_pc w) (a_shared w) (a_subnode w) (a_queue w) (a_stop w) b.
Definition aput_state st w : aproc := aset_shared (set_state st (a_shared w)) w.

(** A turn of the loop of ExecPrlSend. *)
Definition ExecPrlSend (N : nat) (rows : list A) (w : aproc) : list aproc :=
  if decide (length (a_queue w) < N) then
    match rows with
    | [] => [aset_pc AEnd (aset_stop true (aset_queue (a_queue w ++ [None]) w))]
    | t :: rows => [aset_pc (if a_stop w then AEnd else ASend rows) (aset_queue (a_queue w ++ [Some t]) w)]
    end
  else [].

(** doQuery with a plan from the leader; one that was not set is garbage. *)
Definition doQuery (w : aproc) : list aproc :=
  match a_subnode w with Some rows => [aset_pc (ASend rows) w] | None => [] end.

Definition query_worker_steps (N : nat) (w : aproc) : list aproc :=
  match a_pc w with
  | AForked => [aset_pc AWaitReady (aset_shared (mkWorker true PRL_WORKER_STATE_INITIAL (jobId (a_shared w)) (workType (a_shared w))) w)]
  | AWaitReady =>
    match waitForState (a_shared w) PRL_WORKER_STATE_READY with
    | Reached => if decide (workType (a_shared w) = PRL_WORK_TYPE_END) then [aset_pc ADie w] else doQuery w
    | Canceled => [aset_pc AExit (aput_state PRL_WORKER_STATE_CANCELED w)]
    | Again => []
    end
  | ASend rows => ExecPrlSend N rows w
  | AEnd => [aset_pc AWaitReady (aput_state PRL_WORKER_STATE_END w)]
  | ADie => [aset_pc AExit (aput_state PRL_WORKER_STATE_DEAD w)]
  | AExit => []
  end.

(** ** The leader *)

Definition alist s : list Worker := a_shared <$> p_procs s.
Definition goto l s : asys := mkAsys l (p_procs s) (p_pas s) (p_out s) (p_eof s).
Definition aput_list (ws : list Worker) (ps : list aproc) : list aproc := zip_with aset_shared ws ps.
(** With worker [i] changed to [w]. *)
Definition goto_with l (i : nat) w s : asys := mkAsys l (<[i := w]> (p_procs s)) (p_pas s) (p_out s) (p_eof s).

(** waitForWorkers: go on to [l] in the round where all workers are in the state. *)
Definition await (job : Z) (st : PRL_WORKER_STATE) l s : list asys :=
  if waitForWorkers job (length (p_procs s)) st (alist s) then [goto l s] else [].

(** A turn of the loop of ExecAppend. *)
Definition append_turn (plans : list (list A)) (i : Z) s : list asys :=
  if forallb a_finished (p_procs s) then [mkAsys (PStopSet 0) (p_procs s) (p_pas s) (p_out s) true]
  else
    let i := Z.rem (i + 1) (Z.of_nat (length (p_procs s))) in
    let k := Z.to_nat i in
    match p_procs s !! k with
    | None => []
    | Some w =>
      if a_finished w then [goto (PLoop i) s]
      else
        match a_queue w with
        | [] => [goto (PLoop i) s]
        | Some t :: q => [mkAsys PCall (<[k := aset_queue q w]> (p_procs s)) (mkPas i (pa_worksDone (p_pas s))) (p_out s ++ [t]) (p_eof s)]
        | None :: q =>
          if decide (pa_worksDone (p_pas s) < length plans) then [goto_with (PReassign k) k (aset_queue q w) s]
          else [goto_with (PLoop i) k (aset_finished true (aset_queue q w)) s]
        end
    end.

(** The worker has ended its subplan and gets the next one. *)
Definition reassign (plans : list (list A)) (k : nat) s : list asys :=
  match p_procs s !! k with
  | None => []
  | Some w =>
    match waitForState (a_shared w) PRL_WORKER_STATE_END with
    | Reached =>
      match plans !! pa_worksDone (p_pas s) with
      | Some p =>
        [mkAsys (PLoop (Z.of_nat k)) (<[k := aset_finished false (aset_stop false (aput_state PRL_WORKER_STATE_READY (aset_subnode (Some p) w)))]> (p_procs s))
           (mkPas (pa_lastWorker (p_pas s)) (S (pa_worksDone (p_pas s)))) (p_out s) (p_eof s)]
      | None => []
      end
    | _ => []
    end
  end.

(** What the leader can do next in ExecAppend; after a row, the node above asks for another one or ends the query, and after
    an empty slot it ends the query. *)
Definition ExecAppend_steps (job : Z) (plans : list (list A)) s : list asys :=
  match p_pc s with
  | PWaitInitial => await job PRL_WORKER_STATE_INITIAL PReady s
  | PReady => [mkAsys (PLoop (pa_lastWorker (p_pas s))) (aput_list (snd (stateTransition job PRL_WORKER_STATE_INITIAL PRL_WORKER_STATE_READY (alist s))) (p_procs s)) (p_pas s) (p_out s) (p_eof s)]
  | PCall => [goto (PLoop (pa_lastWorker (p_pas s))) s; goto (PStopSet 0) s]
  | PLoop i => append_turn plans i s
  | PReassign k => reassign plans k s
  | _ => []
  end.

Definition aend_task (job : Z) w : aproc :=
  if valid (a_shared w) && (jobId (a_shared w) =? job)%Z
  then aset_queue [] (aset_shared (mkWorker true PRL_WORKER_STATE_READY (jobId (a_shared w)) PRL_WORK_TYPE_END) w)
  else w.

(** The same in ExecEndAppend. *)
Definition ExecEndAppend_steps (job : Z) s : list asys :=
  match p_pc s with
  | PStopSet i =>
    match p_procs s !! i with
    | None => [goto PWaitEnd s]
    | Some w =>
      if to_stop job (a_shared w) then [goto_with (if a_stop w then PStopSet (S i) else PStopGet i) i (aset_stop true w) s]
      else [goto (PStopSet (S i)) s]
    end
  | PStopGet i => match p_procs s !! i with None => [] | Some w => [goto_with (PStopSet (S i)) i (aset_queue (tail (a_queue w)) w) s] end
  | PWaitEnd => await job PRL_WORKER_STATE_END PEndTask s
  | PEndTask => [mkAsys PWaitDead (aend_task job <$> p_procs s) (p_pas s) (p_out s) (p_eof s)]
  | PWaitDead => await job PRL_WORKER_STATE_DEAD PDone s
  | _ => []
  end.

Definition append_leader_steps (job : Z) (plans : list (list A)) s : list asys :=
  ExecAppend_steps job plans s ++ ExecEndAppend_steps job s.

(** A turn of the loop that found nothing. *)
Definition idle_turn s s' : Prop := exists i i', p_pc s = PLoop i /\ s' = goto (PLoop i') s.

Inductive astep (job : Z) (N : nat) (plans : list (list A)) s : asys -> Prop :=
| astep_leader s' : s' ∈ append_leader_steps job plans s -> astep job N plans s s'
| astep_worker i w w' : p_procs s !! i = Some w -> w' ∈ query_worker_steps N w -> astep job N plans s (goto_with (p_pc s) i w' s).

(** The workers as ExecAppend sets them up: as many as there are subplans, or as allowed. *)
Definition new_aproc (job : Z) (p : option (list A)) : aproc :=
  mkAproc AForked (mkWorker false PRL_WORKER_STATE_NONE job PRL_WORK_TYPE_QUERY) p [] false false.
Definition append_init (job : Z) (plans : list (list A)) (prlSqlLvl : nat) : asys :=
  let n := append_workers (length plans) prlSqlLvl in
  mkAsys PWaitInitial (new_aproc job <$> assign_plans n 0 0 plans) (mkPas (-1) n) [] false.
End code.

(** ** Invariant *)

Section proofs.
Context {A : Type} (job : Z) (N : nat) (plans : list (list A)) (total : list A) (HN : 0 < N).
Local Abbreviation aproc := (aproc A).
Local Abbreviation asys := (asys A).
Local Abbreviation step := (astep job N plans).
Implicit Types (w : aproc) (s : asys).

(** What is known of a worker, by what the leader has done with it so far. *)
Inductive aview := AFresh | AInitial | ARunning | ATaken | AStopping | AStopped | AEnded | ADying | ADead.

Definition aview_of (l : alpc) (i : nat) : aview :=
  match l with
  | PWaitInitial => AFresh
  | PReady => AInitial
  | PCall | PLoop _ => ARunning
  | PReassign j => if decide (i = j) then ATaken else ARunning
  | PStopSet j => if decide (i < j) then AStopped else ARunning
  | PStopGet j => if decide (i < j) then AStopped else if decide (i = j) then AStopping else ARunning
  | PWaitEnd => AStopped
  | PEndTask => AEnded
  | PWaitDead => ADying
  | PDone => ADead
  end.

(** The last cell is at the end of the queue, or there is none. *)
Definition rows_only (q : list (option A)) : Prop := Forall is_Some q.
Definition with_last (q : list (option A)) : Prop := exists q', q = q' ++ [None] /\ rows_only q'.

Definition running w : Prop := state (a_shared w) = PRL_WORKER_STATE_READY /\ (a_pc w = AWaitReady \/ exists rows, a_pc w = ASend rows).
Definition at_rest w : Prop := a_pc w = AWaitReady /\ state (a_shared w) = PRL_WORKER_STATE_END.
Definition leaving w : Prop := (a_pc w = AEnd /\ state (a_shared w) = PRL_WORKER_STATE_READY) \/ at_rest w.

Definition viewed (v : aview) w : Prop :=
  match v with
  | AFresh => a_queue w = [] /\ a_stop w = false /\ a_finished w = false /\
      ((a_pc w = AForked /\ valid (a_shared w) = false) \/ (a_pc w = AWaitReady /\ valid (a_shared w) = true /\ state (a_shared w) = PRL_WORKER_STATE_INITIAL))
  | AInitial => a_queue w = [] /\ a_stop w = false /\ a_finished w = false /\ a_pc w = AWaitReady /\ valid (a_shared w) = true /\ state (a_shared w) = PRL_WORKER_STATE_INITIAL
  | ARunning => valid (a_shared w) = true /\ length (a_queue w) <= N /\
      ((a_stop w = false /\ a_finished w = false /\ running w /\ rows_only (a_queue w)) \/
       (a_stop w = true /\ leaving w /\ ((a_finished w = false /\ with_last (a_queue w)) \/ (a_finished w = true /\ a_queue w = []))))
  | ATaken => valid (a_shared w) = true /\ a_stop w = true /\ a_finished w = false /\ leaving w /\ a_queue w = []
  | AStopping => valid (a_shared w) = true /\ length (a_queue w) <= N /\ ((a_stop w = true /\ running w) \/ leaving w)
  | AStopped => valid (a_shared w) = true /\ length (a_queue w) <= N /\ ((a_stop w = true /\ running w /\ length (a_queue w) < N) \/ leaving w)
  | AEnded => valid (a_shared w) = true /\ at_rest w
  | ADying => valid (a_shared w) = true /\ workType (a_shared w) = PRL_WORK_TYPE_END /\
      ((state (a_shared w) = PRL_WORKER_STATE_READY /\ (a_pc w = AWaitReady \/ a_pc w = ADie)) \/ (state (a_shared w) = PRL_WORKER_STATE_DEAD /\ a_pc w = AExit))
  | ADead => valid (a_shared w) = true /\ state (a_shared w) = PRL_WORKER_STATE_DEAD /\ a_pc w = AExit
  end.

(** The job of the leader, with a plan, until it is told to end. *)
Definition assigned (v : aview) w : Prop :=
  jobId (a_shared w) = job /\ is_Some (a_subnode w) /\ match v with ADying | ADead => True | _ => workType (a_shared w) = PRL_WORK_TYPE_QUERY end.

(** The rows that are still to come of a worker. *)
Definition unsent w : list A :=
  match a_pc w with
  | AForked => default [] (a_subnode w)
  | AWaitReady => if decide (state (a_shared w) = PRL_WORKER_STATE_END) then [] else default [] (a_subnode w)
  | ASend rows => rows
  | _ => []
  end.
Definition coming w : list A := omap id (a_queue w) ++ unsent w.
Definition all_coming s : list A := concat (coming <$> p_procs s) ++ concat (drop (pa_worksDone (p_pas s)) plans).

Definition fetching (l : alpc) : bool := match l with PWaitInitial | PReady | PCall | PLoop _ | PReassign _ => true | _ => false end.

Definition in_range (i : Z) s : Prop := (-1 <= i < Z.of_nat (length (p_procs s)))%Z.
Definition leader_fine s : Prop :=
  in_range (pa_lastWorker (p_pas s)) s /\
  match p_pc s with
  | PLoop i => in_range i s
  | PReassign k => k < length (p_procs s) /\ pa_worksDone (p_pas s) < length plans
  | PStopGet i => i < length (p_procs s)
  | _ => True
  end.

Record ainv s : Prop := {
  ai_some : 0 < length (p_procs s);
  ai_leader : leader_fine s;
  ai_procs : forall i w, p_procs s !! i = Some w -> viewed (aview_of (p_pc s) i) w /\ assigned (aview_of (p_pc s) i) w;
  ai_done : forall i w, p_procs s !! i = Some w -> a_finished w = true -> length plans <= pa_worksDone (p_pas s);
  ai_eof : p_eof s = true -> p_out s ≡ₚ total;
  ai_sub : exists rest, p_out s ++ rest ≡ₚ total /\ (fetching (p_pc s) = true -> rest = all_coming s /\ p_eof s = false) }.

(** ** Steps of the workers *)

Ltac wstep Hpc H :=
  unfold query_worker_steps in H; rewrite Hpc in H;
  repeat match type of H with context [waitForState ?w ?st] =>
    first [rewrite (waitForState_reached w st) in H by congruence | rewrite (waitForState_again w st) in H by congruence] end;
  unfold doQuery, ExecPrlSend in H;
  repeat (case_decide || case_match); try congruence; rewrite ?elem_of_nil, ?list_elem_of_singleton in H; try done; subst.

Lemma leaving_step w w' : leaving w -> w' ∈ query_worker_steps N w ->
  at_rest w' /\ a_queue w' = a_queue w /\ a_stop w' = a_stop w /\ a_finished w' = a_finished w /\ valid (a_shared w') = valid (a_shared w).
Proof. intros [[Hpc Hst]|[Hpc Hst]] H; wstep Hpc H. done. Qed.

(** A running worker sends one more cell, and leaves after it if it was told to or if it is the last one. *)
Lemma running_step w w' : running w -> workType (a_shared w) = PRL_WORK_TYPE_QUERY -> w' ∈ query_worker_steps N w ->
  a_finished w' = a_finished w /\ valid (a_shared w') = valid (a_shared w) /\
  ((running w' /\ a_queue w' = a_queue w /\ a_stop w' = a_stop w) \/
   (length (a_queue w) < N /\ exists t, a_queue w' = a_queue w ++ [Some t] /\ a_stop w' = a_stop w /\ (a_stop w = true /\ leaving w' \/ a_stop w = false /\ running w')) \/
   (length (a_queue w) < N /\ leaving w' /\ a_queue w' = a_queue w ++ [None] /\ a_stop w' = true)).
Proof.
  intros [Hst [Hpc|[rows Hpc]]] Ht H; wstep Hpc H.
  - split_and!; [done..|]. left. split_and!; try done. split; [done|]. right. by eexists.
  - split_and!; [done..|]. right; right. split_and!; try done. by left.
  - split_and!; [done..|]. right; left. split; [done|]. eexists. split_and!; try done. left. split; [done|]. by left.
  - split_and!; [done..|]. right; left. split; [done|]. eexists. split_and!; try done. right. split; [done|]. split; [done|]. right. by eexists.
Qed.

Lemma assigned_step v w w' : assigned v w -> w' ∈ query_worker_steps N w -> assigned v w'.
Proof.
  intros (Hj & Hn & Ht) H. unfold query_worker_steps, waitForState, doQuery, ExecPrlSend in H. unfold assigned.
  repeat case_match; rewrite ?elem_of_nil, ?list_elem_of_singleton in H; try done; subst; done.
Qed.

Lemma rows_only_snoc q t : rows_only q -> rows_only (q ++ [Some t]).
Proof. intros. apply Forall_app. split; [done|]. repeat constructor. by eexists. Qed.

Lemma viewed_running w w' : viewed ARunning w -> workType (a_shared w) = PRL_WORK_TYPE_QUERY -> w' ∈ query_worker_steps N w -> viewed ARunning w'.
Proof.
  intros (Hv & Hl & [(Hs & Hf & Hr & Hq)|(Hs & He & Hor)]) Ht H.
  - destruct (running_step _ _ Hr Ht H) as (Ef & Ev & [(R & E1 & E2)|[(Hlt & t & E1 & E2 & [[? _]|[_ R]])|(Hlt & R & E1 & E2)]]); [|congruence|..];
      (split_and!; [congruence|rewrite E1, ?length_app; cbn; lia|]).
    + left. split_and!; congruence || done.
    + left. split_and!; try congruence; try done. rewrite E1. by apply rows_only_snoc.
    + right. split_and!; [done|done|]. left. split; [congruence|]. exists (a_queue w). done.
  - destruct (leaving_step _ _ He H) as (E1 & E2 & E3 & E4 & E5). split_and!; [congruence|by rewrite E2|]. right. split_and!; [congruence|by right|]. by rewrite E2, E4.
Qed.

Lemma viewed_stop v w w' : v = AStopping \/ v = AStopped -> viewed v w -> workType (a_shared w) = PRL_WORK_TYPE_QUERY -> w' ∈ query_worker_steps N w -> viewed v w'.
Proof.
  intros Hv Hw Ht H.
  assert (Hleave : leaving w -> valid (a_shared w) = true -> length (a_queue w) <= N -> viewed v w').
  { intros He Hval Hl. destruct (leaving_step _ _ He H) as (E1 & E2 & E3 & E4 & E5). destruct Hv as [->| ->]; (split_and!; [congruence|by rewrite E2|]); right; by right. }
  assert (Hrun : running w -> a_stop w = true -> valid (a_shared w) = true -> length (a_queue w) <= N -> (v = AStopped -> length (a_queue w) < N) -> viewed v w').
  { intros Hr Hs Hval Hl Hlt. destruct (running_step _ _ Hr Ht H) as (Ef & Ev & [(R & E1 & E2)|[(Hlt' & t & E1 & E2 & [[_ R]|[? _]])|(Hlt' & R & E1 & E2)]]); [| |congruence|];
      destruct Hv as [->| ->]; (split_and!; [congruence|rewrite E1, ?length_app; cbn; lia|]); try by right.
    - left. split; [congruence|done].
    - left. split_and!; [congruence|done|]. rewrite E1. by apply Hlt. }
  destruct Hv as [->| ->]; destruct Hw as (Hval & Hl & [(Hs & Hr)|He]); [|by apply Hleave| |by apply Hleave].
  - by apply Hrun.
  - destruct Hr as [Hr Hlt]. by apply Hrun.
Qed.

Lemma viewed_step v w w' : viewed v w -> assigned v w -> w' ∈ query_worker_steps N w -> viewed v w' /\ assigned v w' /\ a_finished w' = a_finished w.
Proof.
  intros Hw Ha H. split_and!; [|by eapply assigned_step|].
  - destruct Ha as (_ & _ & Ht). destruct v; [| |by eapply viewed_running| |by eapply viewed_stop; eauto|by eapply viewed_stop; eauto|..].
    + destruct Hw as (Hq & Hs & Hf & [[Hpc Hv]|(Hpc & Hv & Hst)]); wstep Hpc H. split_and!; try done. by right.
    + destruct Hw as (? & ? & ? & Hpc & ? & Hst). wstep Hpc H.
    + destruct Hw as (Hv & Hs & Hf & He & Hq). destruct (leaving_step _ _ He H) as (E1 & E2 & E3 & E4 & E5). split_and!; try congruence. by right.
    + destruct Hw as (? & Hpc & Hst). wstep Hpc H.
    + destruct Hw as (Hv & Htype & [[Hst [Hpc|Hpc]]|[Hst Hpc]]); wstep Hpc H.
      * split_and!; try done. left. split; [done|]. by right.
      * split_and!; try done. by right.
    + destruct Hw as (? & ? & Hpc). wstep Hpc H.
  - unfold query_worker_steps, waitForState, doQuery, ExecPrlSend in H. repeat case_match; rewrite ?elem_of_nil, ?list_elem_of_singleton in H; try done; subst; done.
Qed.

(** Where a worker can be as long as rows are fetched. *)
Definition early (v : aview) : bool := match v with AFresh | AInitial | ARunning | ATaken => true | _ => false end.
Lemma early_places v w : viewed v w -> early v = true ->
  a_pc w = AForked \/
  (a_pc w = AWaitReady /\ (state (a_shared w) = PRL_WORKER_STATE_INITIAL \/ state (a_shared w) = PRL_WORKER_STATE_READY \/ state (a_shared w) = PRL_WORKER_STATE_END)) \/
  (exists rows, a_pc w = ASend rows /\ a_stop w = false) \/ a_pc w = AEnd.
Proof.
  assert (Hl : leaving w -> a_pc w = AEnd \/ (a_pc w = AWaitReady /\ state (a_shared w) = PRL_WORKER_STATE_END)) by (intros [[? ?]|[? ?]]; auto).
  intros Hw Hv. destruct v; try done.
  - destruct Hw as (_ & _ & _ & [[? _]|(? & _ & ?)]); auto.
  - destruct Hw as (_ & _ & _ & ? & _ & ?). auto.
  - destruct Hw as (_ & _ & [(? & _ & [? [?|[rows ?]]] & _)|(_ & [?|[? ?]]%Hl & _)]); eauto 6.
  - destruct Hw as (_ & _ & _ & [?|[? ?]]%Hl & _); auto 6.
Qed.

(** Nothing is lost on the way, unless the worker was stopped. *)
Lemma coming_step v w w' : viewed v w -> assigned v w -> early v = true -> w' ∈ query_worker_steps N w -> coming w' = coming w.
Proof.
  intros Hw (_ & [rows Hn] & Ht) Hv H. assert (Hq : workType (a_shared w) = PRL_WORK_TYPE_QUERY) by (by destruct v).
  unfold coming, unsent. destruct (early_places v w Hw Hv) as [Hpc|[[Hpc Hst]|[(rs & Hpc & Hst)|Hpc]]]; unfold query_worker_steps in H; rewrite Hpc in H |- *.
  - apply list_elem_of_singleton in H as ->. done.
  - destruct Hst as [Hst|[Hst|Hst]]; unfold waitForState, doQuery in H; rewrite Hst, ?Hq, ?Hn in H; cbn in H; [by apply elem_of_nil in H| |by apply elem_of_nil in H].
    apply list_elem_of_singleton in H as ->. by rewrite Hst, Hn.
  - unfold ExecPrlSend in H. case_decide; [|by apply elem_of_nil in H]. rewrite Hst in H. destruct rs as [|t rs]; apply list_elem_of_singleton in H as ->; cbn [a_queue a_pc aset_pc aset_queue aset_stop].
    + rewrite omap_app. cbn. by rewrite !app_nil_r.
    + rewrite omap_app. cbn. by rewrite <- app_assoc.
  - apply list_elem_of_singleton in H as ->. done.
Qed.

Lemma early_view l i : fetching l = true -> early (aview_of l i) = true.
Proof. destruct l; cbn; try done. by case_decide. Qed.

Lemma coming_insert (ps : list aproc) k w w' : ps !! k = Some w -> exists rest, concat (coming <$> ps) ≡ₚ coming w ++ rest /\ concat (coming <$> <[k := w']> ps) ≡ₚ coming w' ++ rest.
Proof.
  intros Hk. exists (concat (coming <$> take k ps) ++ concat (coming <$> drop (S k) ps)). pose proof (lookup_lt_Some _ _ _ Hk) as Hlt. split.
  - rewrite <- (take_drop_middle ps k w Hk) at 1. rewrite fmap_app, fmap_cons, concat_app. cbn. apply Permutation_app_swap_app.
  - rewrite insert_take_drop by done. rewrite fmap_app, fmap_cons, concat_app. cbn. apply Permutation_app_swap_app.
Qed.
Lemma coming_same (ps : list aproc) k w w' : ps !! k = Some w -> coming w' = coming w -> coming <$> <[k := w']> ps = coming <$> ps.
Proof. intros Hk E. rewrite list_fmap_insert, E. apply list_insert_id. by rewrite list_lookup_fmap, Hk. Qed.

(** The leader goes to [l] and changes worker [k] to [w'], and returns [t]. *)
Lemma ainv_change s k w w' l pas out : ainv s -> p_procs s !! k = Some w -> let s' := mkAsys l (<[k := w']> (p_procs s)) pas out (p_eof s) in
  leader_fine s' -> viewed (aview_of l k) w' -> assigned (aview_of l k) w' -> (forall j, j <> k -> aview_of l j = aview_of (p_pc s) j) ->
  (a_finished w' = true -> a_finished w = true \/ length plans <= pa_worksDone (p_pas s)) -> pa_worksDone (p_pas s) <= pa_worksDone pas ->
  (p_eof s = true -> out = p_out s) -> (exists rest, out ++ rest ≡ₚ total /\ (fetching l = true -> rest = all_coming s' /\ p_eof s = false)) -> ainv s'.
Proof.
  intros [H1 H2 H3 H4 H5 H6] Hk s' Hl Hv Ha Hother Hfin Hdone Hout Hsub. split; cbn.
  - by rewrite length_insert.
  - done.
  - intros j wj Hj. apply list_lookup_insert_Some in Hj as [(<- & <- & _)|[Hne Hj]]; [done|]. rewrite Hother by done. by apply H3.
  - intros j wj Hj Hf. apply list_lookup_insert_Some in Hj as [(<- & <- & _)|[Hne Hj]].
    + destruct (Hfin Hf) as [Hf'|]; [pose proof (H4 _ _ Hk Hf')|]; lia.
    + pose proof (H4 _ _ Hj Hf). lia.
  - intros He. rewrite (Hout He). by apply H5.
  - done.
Qed.
(** Rows that stay where they are. *)
Lemma ainv_move s k w w' l : ainv s -> p_procs s !! k = Some w -> let s' := goto_with l k w' s in
  leader_fine s' -> viewed (aview_of l k) w' -> assigned (aview_of l k) w' -> (forall j, j <> k -> aview_of l j = aview_of (p_pc s) j) ->
  (a_finished w' = true -> a_finished w = true \/ length plans <= pa_worksDone (p_pas s)) -> (fetching l = true -> fetching (p_pc s) = true /\ coming w' = coming w) -> ainv s'.
Proof.
  intros HI Hk s' Hl Hv Ha Ho Hf Hc. apply (ainv_change s k w); try done. destruct (ai_sub _ HI) as (rest & Hp & Hrest). exists rest. split; [done|]. intros Hfe.
  destruct (Hc Hfe) as [Hfe' Ec]. destruct (Hrest Hfe') as [-> ?]. split; [|done]. unfold all_coming. cbn. by rewrite (coming_same _ _ _ _ Hk Ec).
Qed.
Lemma ainv_goto s l : ainv s -> leader_fine (goto l s) -> (forall i, i < length (p_procs s) -> aview_of l i = aview_of (p_pc s) i) -> (fetching l = true -> fetching (p_pc s) = true) -> ainv (goto l s).
Proof.
  intros [H1 H2 H3 H4 H5 H6] Hl Hv Hf. split; cbn; try done.
  - intros i w Hi. rewrite Hv by (by eapply lookup_lt_Some). by apply H3.
  - destruct H6 as (rest & Hp & Hrest). exists rest. split; [done|]. intros Hfe. apply Hrest. by apply Hf.
Qed.

Lemma leader_fine_with s k w' : leader_fine s -> leader_fine (goto_with (p_pc s) k w' s).
Proof. unfold leader_fine, in_range, goto_with. cbn. by rewrite length_insert. Qed.

Lemma ainv_worker s i w w' : ainv s -> p_procs s !! i = Some w -> w' ∈ query_worker_steps N w -> ainv (goto_with (p_pc s) i w' s).
Proof.
  intros HI Hi H. destruct (ai_procs _ HI _ _ Hi) as [Hv Ha]. destruct (viewed_step _ _ _ Hv Ha H) as (Hv' & Ha' & Hf).
  apply (ainv_move s i w); try done; [apply leader_fine_with, HI|rewrite Hf; by left|]. intros Hfe. split; [done|]. eapply coming_step; [exact Hv|exact Ha|by apply early_view|exact H].
Qed.

(** ** Steps of the leader *)

(** waitForWorkers has returned. *)
Lemma await_all s st l s' : s' ∈ await job st l s -> s' = goto l s /\ forall i w, p_procs s !! i = Some w -> valid (a_shared w) = true /\ state (a_shared w) = st.
Proof.
  unfold await, waitForWorkers, alist. case_bool_decide as Hc; [|by intros ?%elem_of_nil]. intros ->%list_elem_of_singleton. split; [done|]. intros i w Hi.
  rewrite <- (length_fmap a_shared (p_procs s)) in Hc. apply count_in_state_all in Hc. assert (Hin : in_state job st (a_shared w) = true).
  { apply (Forall_lookup_1 _ _ i _ Hc). by rewrite list_lookup_fmap, Hi. }
  by apply in_state_spec in Hin as (? & ? & _).
Qed.
Lemma await_inv s st l s' : ainv s -> s' ∈ await job st l s -> leader_fine (goto l s) -> (fetching l = true -> fetching (p_pc s) = true) ->
  (forall i w, viewed (aview_of (p_pc s) i) w -> assigned (aview_of (p_pc s) i) w -> valid (a_shared w) = true -> state (a_shared w) = st -> viewed (aview_of l i) w /\ assigned (aview_of l i) w) -> ainv s'.
Proof.
  intros [H1 H2 H3 H4 H5 H6] (-> & Hall)%await_all Hl Hf Hv. split; cbn; try done.
  - intros i w Hi. destruct (H3 _ _ Hi), (Hall _ _ Hi). by apply Hv.
  - destruct H6 as (rest & Hp & Hrest). exists rest. split; [done|]. intros Hfe. apply Hrest. by apply Hf.
Qed.

Lemma aput_list_fmap f (ps : list aproc) : aput_list (f <$> (a_shared <$> ps)) ps = (fun p => aset_shared (f (a_shared p)) p) <$> ps.
Proof. induction ps as [|p ps IH]; [done|]. rewrite !fmap_cons. unfold aput_list in *. cbn. by rewrite IH. Qed.

(** All workers are changed alike. *)
Lemma ainv_all s f l : ainv s -> let s' := mkAsys l (f <$> p_procs s) (p_pas s) (p_out s) (p_eof s) in
  leader_fine s' -> (forall w, a_finished (f w) = a_finished w) -> (forall i w, viewed (aview_of (p_pc s) i) w -> assigned (aview_of (p_pc s) i) w -> viewed (aview_of l i) (f w) /\ assigned (aview_of l i) (f w) /\ (fetching l = true -> coming (f w) = coming w)) ->
  (fetching l = true -> fetching (p_pc s) = true) -> ainv s'.
Proof.
  intros [H1 H2 H3 H4 H5 H6] s' Hl Hf Hv Hfe. split; cbn; try done.
  - by rewrite length_fmap.
  - intros i w Hi. apply list_lookup_fmap_Some in Hi as (w0 & -> & Hi). destruct (H3 _ _ Hi) as [Hv0 Ha0]. by destruct (Hv _ _ Hv0 Ha0) as (? & ? & _).
  - intros i w Hi. apply list_lookup_fmap_Some in Hi as (w0 & -> & Hi). rewrite Hf. by eapply H4.
  - destruct H6 as (rest & Hp & Hrest). exists rest. split; [done|]. intros Hl'. destruct (Hrest (Hfe Hl')) as [-> ?]. split; [|done]. unfold all_coming. cbn. f_equal. f_equal.
    rewrite <- list_fmap_compose. apply list_fmap_ext. intros i w Hi. cbn. symmetry. destruct (H3 _ _ Hi) as [Hv0 Ha0]. by apply (Hv i w).
Qed.

Lemma with_last_cons x (q : list (option A)) : with_last (x :: q) -> (x = None /\ q = []) \/ (is_Some x /\ with_last q).
Proof.
  intros (q' & He & Hn). destruct q' as [|y q']; simplify_eq/=; [by left|]. right. apply Forall_cons in Hn as [? Hn]. split; [done|]. by exists q'.
Qed.

(** A worker all of whose rows were received. *)
Lemma finished_nothing w : viewed ARunning w -> a_finished w = true -> coming w = [].
Proof.
  intros (_ & _ & [(_ & ? & _)|(_ & He & [[? _]|[_ Hq]])]) Hf; [congruence..|]. unfold coming, unsent. rewrite Hq. by destruct He as [[-> _]|[-> ->]].
Qed.
Lemma all_finished_nothing s i : ainv s -> p_pc s = PLoop i -> forallb a_finished (p_procs s) = true -> all_coming s = [].
Proof.
  intros HI Hpc Hall. rewrite forallb_forall in Hall.
  assert (Hf : forall k w, p_procs s !! k = Some w -> a_finished w = true /\ coming w = []).
  { intros k w Hk. assert (Hf : a_finished w = true) by (apply Hall, list_elem_of_In; by eapply list_elem_of_lookup_2). split; [done|]. apply finished_nothing; [|done].
    destruct (ai_procs _ HI _ _ Hk) as [Hv _]. by rewrite Hpc in Hv. }
  unfold all_coming. rewrite (drop_ge plans), app_nil_r.
  - assert (Hc : Forall (fun l => l = []) (coming <$> p_procs s)) by (apply Forall_fmap, Forall_lookup_2; intros k w Hk; by apply (Hf k)).
    revert Hc. generalize (coming <$> p_procs s) as l. intros l Hc. induction Hc as [|x l -> _ IH]; [done|]. exact IH.
  - destruct (lookup_lt_is_Some_2 _ _ (ai_some _ HI)) as [w Hw]. eapply ai_done; [done|exact Hw|]. by apply (Hf 0).
Qed.

Lemma in_range_next s i : 0 < length (p_procs s) -> in_range i s -> (0 <= Z.rem (i + 1) (Z.of_nat (length (p_procs s))) < Z.of_nat (length (p_procs s)))%Z.
Proof. intros Hn [? ?]. apply Z.rem_bound_pos; lia. Qed.

(** A cell was taken out of the queue of a running worker. *)
Lemma viewed_get w x q : viewed ARunning w -> a_finished w = false -> a_queue w = x :: q ->
  match x with Some _ => viewed ARunning (aset_queue q w) | None => viewed ATaken (aset_queue q w) /\ viewed ARunning (aset_finished true (aset_queue q w)) end.
Proof.
  intros (Hv & Hl & Hor) Hf Hq. rewrite Hq in Hl, Hor. cbn in Hl. destruct x as [t|].
  - split_and!; [done|cbn; lia|]. destruct Hor as [(Hs & _ & Hr & Hq'%Forall_cons)|(Hs & He & [[_ Hq']|[? _]])]; [left|right|congruence].
    + by destruct Hq' as [_ ?].
    + split_and!; try done. left. split; [done|]. apply with_last_cons in Hq' as [[? _]|[_ ?]]; done.
  - destruct Hor as [(_ & _ & _ & [Hq' _]%Forall_cons)|(Hs & He & [[_ Hq']|[? _]])]; [by destruct Hq'| |congruence].
    apply with_last_cons in Hq' as [[_ ->]|[[? ?] _]]; [|done]. split; [done|]. split_and!; [done|cbn; lia|]. right. split_and!; try done. by right.
Qed.

Lemma append_turn_inv s i s' : ainv s -> p_pc s = PLoop i -> s' ∈ append_turn plans i s -> ainv s'.
Proof.
  intros HI Hpc H. pose proof HI as [H1 [H2 H2'] H3 H4 H5 H6]. rewrite Hpc in H2'. unfold append_turn in H. destruct (forallb a_finished (p_procs s)) eqn:Hall.
  - apply list_elem_of_singleton in H as ->. destruct H6 as (rest & Hp & Hrest). rewrite Hpc in Hrest. destruct (Hrest eq_refl) as [-> He]. rewrite (all_finished_nothing s i HI Hpc Hall), app_nil_r in Hp.
    split; cbn; try done; [|by exists []; rewrite app_nil_r]. intros k w Hk. destruct (H3 _ _ Hk) as [Hv Ha]. by rewrite Hpc in Hv, Ha.
  - pose proof (in_range_next s i H1 H2') as Hj. set (j := Z.rem _ _) in *. destruct (p_procs s !! Z.to_nat j) as [w|] eqn:Hw; [|by apply elem_of_nil in H].
    destruct (H3 _ _ Hw) as [Hv Ha]. rewrite Hpc in Hv, Ha.
    assert (Hidle : ainv (goto (PLoop j) s)).
    { apply ainv_goto; [done| |by rewrite Hpc|by rewrite Hpc]. unfold leader_fine, in_range in *. cbn. lia. }
    destruct (a_finished w) eqn:Hf; [by apply list_elem_of_singleton in H as ->|]. destruct (a_queue w) as [|x q] eqn:Hq; [by apply list_elem_of_singleton in H as ->|].
    pose proof (viewed_get w x q Hv Hf Hq) as Hg. destruct x as [t|].
    + apply list_elem_of_singleton in H as ->. apply (ainv_change s _ w); try done; [|by rewrite Hpc|cbn; rewrite Hf; done|..].
      * unfold leader_fine, in_range. cbn. rewrite length_insert. split; [lia|done].
      * destruct H6 as (rest & Hp & Hrest). rewrite Hpc in Hrest. destruct (Hrest eq_refl) as [_ He]. by rewrite He.
      * destruct H6 as (rest & Hp & Hrest). rewrite Hpc in Hrest. destruct (Hrest eq_refl) as [-> He]. eexists. split; [|done]. rewrite <- Hp, <- app_assoc. apply Permutation_app_head. unfold all_coming. cbn [p_procs p_pas pa_worksDone].
        destruct (coming_insert _ _ _ (aset_queue q w) Hw) as (rest & -> & ->). unfold coming. rewrite Hq. cbn. done.
    + destruct Hg as [Hg1 Hg2]. assert (Hc : coming (aset_queue q w) = coming w) by (unfold coming; rewrite Hq; done). case_decide as Hd; apply list_elem_of_singleton in H as ->.
      * apply (ainv_move s _ w); try done; cbn [aview_of]; rewrite ?decide_True by done; try done; [| |cbn; by rewrite Hf|by rewrite Hpc].
        -- unfold leader_fine, in_range in *. cbn. rewrite length_insert. lia.
        -- intros k Hk. by rewrite decide_False, Hpc.
      * apply (ainv_move s _ w); try done; [|by rewrite Hpc|right; lia|by rewrite Hpc]. unfold leader_fine, in_range in *. cbn. rewrite length_insert. lia.
Qed.

Lemma reassign_inv s k s' : ainv s -> p_pc s = PReassign k -> s' ∈ reassign plans k s -> ainv s'.
Proof.
  intros HI Hpc H. pose proof HI as [H1 [H2 H2'] H3 H4 H5 H6]. rewrite Hpc in H2'. destruct H2' as [Hk Hd]. unfold reassign in H.
  destruct (p_procs s !! k) as [w|] eqn:Hw; [|by apply elem_of_nil in H]. destruct (H3 _ _ Hw) as [Hv Ha]. rewrite Hpc in Hv, Ha. cbn [aview_of] in Hv, Ha. rewrite decide_True in Hv, Ha by done.
  destruct (waitForState _ _) eqn:Ewait; [by apply elem_of_nil in H| |by apply elem_of_nil in H]. unfold waitForState in Ewait. destruct (decide (state (a_shared w) = PRL_WORKER_STATE_END)) as [Hst|]; [|repeat case_decide; done].
  destruct (lookup_lt_is_Some_2 plans _ Hd) as [p Hp]. rewrite Hp in H. apply list_elem_of_singleton in H as ->.
  destruct Hv as (Hval & Hs & Hf & He & Hq). destruct He as [[_ ?]|[Hrest _]]; [congruence|]. destruct Ha as (Hj & _ & Ht).
  destruct H6 as (rest & Hout & Hr). rewrite Hpc in Hr. destruct (Hr eq_refl) as [-> Heof].
  apply (ainv_change s k w); try done; cbn [pa_worksDone]; try lia; try (by rewrite Heof).
  - unfold leader_fine, in_range in *. cbn. rewrite length_insert. lia.
  - cbn [aview_of viewed]. split_and!; [done|cbn; rewrite Hq; cbn; lia|]. left. split_and!; [done|done| |cbn; rewrite Hq; constructor]. split; [done|]. left. done.
  - intros j Hj'. rewrite Hpc. cbn. by rewrite decide_False.
  - eexists. split; [|done]. rewrite <- Hout. apply Permutation_app_head. unfold all_coming. cbn [p_procs p_pas pa_worksDone]. rewrite (drop_S _ _ _ Hp). cbn [concat].
    destruct (coming_insert _ _ _ (aset_finished false (aset_stop false (aput_state PRL_WORKER_STATE_READY (aset_subnode (Some p) w)))) Hw) as (r & -> & ->).
    unfold coming, unsent. cbn [a_queue a_pc aset_finished aset_stop aput_state aset_shared aset_subnode set_state a_shared state a_subnode]. rewrite Hq, Hrest, Hst. cbn. rewrite <- app_assoc. apply Permutation_app_swap_app.
Qed.

(** ExecAppend. *)
Lemma ExecAppend_inv s s' : ainv s -> s' ∈ ExecAppend_steps job plans s -> ainv s'.
Proof.
  intros HI H. unfold ExecAppend_steps in H. pose proof (ai_leader _ HI) as [Hr _]. destruct (p_pc s) eqn:Hpc; try (by apply elem_of_nil in H).
  - eapply await_inv; [done|exact H|done|by rewrite Hpc|]. rewrite Hpc. intros j w (Hq & Hs & Hf & [[_ ?]|(? & ? & ?)]) ? ? ?; [congruence|]. split; done.
  - apply list_elem_of_singleton in H as ->. rewrite stateTransition_fmap. unfold alist. rewrite aput_list_fmap. apply ainv_all; try done; [| |by rewrite Hpc].
    + unfold leader_fine, in_range in *. cbn. by rewrite length_fmap.
    + rewrite Hpc. intros j w (Hq & Hs & Hf & Hp & Hv & Hst) (Hj & Hn & Ht). rewrite (proj2 (in_state_spec _ _ _)) by done. split_and!; try done.
      * cbn [aview_of viewed]. split_and!; [done|cbn; rewrite Hq; cbn; lia|]. left. split_and!; try done; [split; [done|by left]|cbn; rewrite Hq; constructor].
      * intros _. unfold coming, unsent. cbn. by rewrite Hp, Hst.
  - apply elem_of_cons in H as [->|[->|[]%elem_of_nil]%elem_of_cons]; (apply ainv_goto; [done| |by rewrite Hpc|by rewrite Hpc]); by unfold leader_fine, in_range in *.
  - by eapply append_turn_inv.
  - by eapply reassign_inv.
Qed.

Ltac view_cases := intros; cbn; repeat case_decide; done || lia.

(** ExecEndAppend. *)
Lemma ExecEndAppend_inv s s' : ainv s -> s' ∈ ExecEndAppend_steps job s -> ainv s'.
Proof using HN.
  intros HI H. unfold ExecEndAppend_steps in H. pose proof HI as [H1 [Hr Hl] H3 _ _ _].
  assert (Hfine : forall l, (match l with PLoop _ | PReassign _ | PStopGet _ => False | _ => True end) -> leader_fine (goto l s)) by (intros l ?; split; [done|by destruct l]).
  assert (Hfine' : forall l k w, (match l with PLoop _ | PReassign _ | PStopGet _ => False | _ => True end) -> leader_fine (goto_with l k w s)).
  { intros l k w ?. unfold leader_fine, in_range in *. cbn. rewrite length_insert. split; [done|by destruct l]. }
  destruct (p_pc s) as [| | |i|k|i|i| | | |] eqn:Hpc; try (by apply elem_of_nil in H).
  - destruct (p_procs s !! i) as [w|] eqn:Hw.
    2: { apply list_elem_of_singleton in H as ->. apply lookup_ge_None in Hw. apply ainv_goto; [done|by apply Hfine|rewrite Hpc; view_cases|done]. }
    destruct (H3 _ _ Hw) as [Hv Ha]. cbn in Hv, Ha. rewrite decide_False in Hv, Ha by lia. pose proof Hv as (Hval & Hlen & Hor).
    destruct (to_stop job (a_shared w)) eqn:Est.
    + apply list_elem_of_singleton in H as ->. apply (ainv_move s i w); try done; [| | |rewrite Hpc; destruct (a_stop w); view_cases|by left|by destruct (a_stop w)].
      * destruct (a_stop w); [by apply Hfine'|]. unfold leader_fine, in_range in *. cbn. rewrite length_insert. split; [done|]. by eapply lookup_lt_Some.
      * destruct (a_stop w) eqn:Es; cbn [aview_of]; rewrite ?decide_False, ?decide_True by lia; cbn; destruct Hor as [(? & _ & Hrun & _)|(? & He & _)]; try congruence; (split_and!; try done); [by right|by left].
      * destruct Ha as (? & ? & ?). destruct (a_stop w); cbn [aview_of]; by rewrite ?decide_False, ?decide_True by lia.
    + apply list_elem_of_singleton in H as ->. unfold to_stop in Est. destruct Ha as (Hj & Hn & Ht). rewrite Hval, Hj, Z.eqb_refl, andb_true_r in Est. cbn in Est. apply bool_decide_eq_false, dec_stable in Est.
      assert (He : leaving w) by (destruct Hor as [(_ & _ & [? _] & _)|(_ & ? & _)]; [congruence|done]).
      replace (goto (PStopSet (S i)) s) with (goto_with (PStopSet (S i)) i w s) by (unfold goto, goto_with; by rewrite list_insert_id).
      apply (ainv_move s i w); try done; [by apply Hfine'| | |rewrite Hpc; view_cases|by left]; cbn [aview_of]; rewrite decide_True by lia; [|done]. split_and!; try done. by right.
  - destruct (p_procs s !! i) as [w|] eqn:Hw; [|by apply elem_of_nil in H]. apply list_elem_of_singleton in H as ->.
    destruct (H3 _ _ Hw) as [Hv Ha]. cbn [aview_of] in Hv, Ha. rewrite decide_False, decide_True in Hv, Ha by lia. destruct Hv as (Hval & Hlen & Hor).
    apply (ainv_move s i w); try done; [by apply Hfine'| | |rewrite Hpc; view_cases|by left]; cbn [aview_of]; rewrite decide_True by lia; [|done].
    assert (length (tail (a_queue w)) < N) by (destruct (a_queue w); cbn in *; lia). split_and!; [done|cbn; lia|]. destruct Hor as [[Hs Hrun]|He]; [by left|by right].
  - eapply await_inv; [done|exact H|by apply Hfine|done|]. rewrite Hpc. intros j w (? & ? & [(_ & [? _] & _)|[[_ ?]|He]]) (? & ? & ?) ? ?; try congruence. done.
  - apply list_elem_of_singleton in H as ->. apply ainv_all; try done; [unfold leader_fine, in_range in *; cbn; by rewrite length_fmap|by intros w; unfold aend_task; destruct (_ && _)|].
    rewrite Hpc. intros j w (Hv & Hp & Hst) (Hj & Hn & Ht). unfold aend_task. rewrite Hv, Hj, Z.eqb_refl. cbn. split_and!; try done. left. split; [done|by left].
  - eapply await_inv; [done|exact H|by apply Hfine|done|]. rewrite Hpc. intros j w (? & ? & [[? _]|[? ?]]) (? & ? & _) ? ?; [congruence|]. done.
Qed.

Lemma ainv_step s s' : ainv s -> step s s' -> ainv s'.
Proof using HN.
  intros HI [s'' [H|H]%elem_of_app|i w w' Hi H]; [by eapply ExecAppend_inv|by eapply ExecEndAppend_inv|by eapply ainv_worker].
Qed.
Lemma ainv_steps s s' : ainv s -> rtc step s s' -> ainv s'.
Proof using HN. intros HI Hr. induction Hr; [done|]. apply IHHr. by eapply ainv_step. Qed.

(** ** Termination *)

(** A turn that found nothing leaves everything as it was; all other steps make progress. *)
Definition idle s s' : Prop := step s s' /\ idle_turn s s'.
Definition busy s s' : Prop := step s s' /\ ~ idle_turn s s'.

Definition aphase (l : alpc) : nat :=
  match l with
  | PWaitInitial => 8 | PReady => 7 | PCall | PLoop _ | PReassign _ => 6 | PStopSet _ | PStopGet _ => 5 | PWaitEnd => 4 | PEndTask => 3 | PWaitDead => 2 | PDone => 1
  end.
Definition aleft (n : nat) (l : alpc) : nat := match l with PCall => 1 | PStopSet i => 2 * (n - i) | PStopGet i => 2 * (n - i) - 1 | _ => 0 end.
(** A bound on the steps a worker, its queue and a plan give rise to. *)
Definition aeffort w : nat :=
  match a_pc w with
  | AForked => 3 * length (default [] (a_subnode w)) + 8
  | AWaitReady => if decide (workType (a_shared w) = PRL_WORK_TYPE_END) then 2 else if decide (state (a_shared w) = PRL_WORKER_STATE_END) then 0 else 3 * length (default [] (a_subnode w)) + 7
  | ASend rows => 3 * length rows + 6
  | AEnd => 3
  | ADie => 1
  | AExit => 0
  end.
Definition apotential w : nat := 2 * length (a_queue w) + aeffort w.
Definition plan_effort (ps : list (list A)) : nat := sum_list_with (fun p => 3 * length p + 9) ps.
Definition ameasure s : nat := aleft (length (p_procs s)) (p_pc s) + sum_list_with apotential (p_procs s) + plan_effort (drop (pa_worksDone (p_pas s)) plans).
Definition adecreases s s' : Prop := aphase (p_pc s') < aphase (p_pc s) \/ (aphase (p_pc s') = aphase (p_pc s) /\ ameasure s' < ameasure s).

Lemma idle_not_decreases s s' : idle_turn s s' -> ~ adecreases s s'.
Proof. intros (i & i' & Hpc & ->). unfold adecreases, ameasure. cbn. rewrite Hpc. cbn. lia. Qed.

Lemma apotential_insert (ps : list aproc) i w w' : ps !! i = Some w -> sum_list_with apotential (<[i := w']> ps) + apotential w = sum_list_with apotential ps + apotential w'.
Proof. revert i. induction ps as [|p ps IH]; intros [|i] Hi; simplify_eq/=; [lia|]. specialize (IH _ Hi). lia. Qed.

Lemma apotential_step w w' : w' ∈ query_worker_steps N w -> apotential w' < apotential w.
Proof.
  intros H. unfold query_worker_steps in H. unfold apotential, aeffort. destruct (a_pc w) as [| |rows| | |] eqn:Hpc; rewrite ?list_elem_of_singleton in H; subst; cbn [a_pc a_queue a_shared a_subnode aset_pc aset_shared aput_state].
  - repeat case_decide; lia.
  - unfold waitForState, doQuery in H. destruct (decide (state (a_shared w) = PRL_WORKER_STATE_READY)) as [Hst|Hst].
    + rewrite Hst. destruct (decide (workType (a_shared w) = PRL_WORK_TYPE_END)); [apply list_elem_of_singleton in H as ->; cbn; lia|]. rewrite (decide_False (P := PRL_WORKER_STATE_READY = PRL_WORKER_STATE_END)) by done. destruct (a_subnode w) as [rows|]; [|by apply elem_of_nil in H].
      apply list_elem_of_singleton in H as ->. cbn. lia.
    + destruct (decide (state (a_shared w) = PRL_WORKER_STATE_CANCELED)) as [Hc|]; [|by apply elem_of_nil in H]. apply list_elem_of_singleton in H as ->. cbn. rewrite Hc.
      destruct (decide (workType (a_shared w) = PRL_WORK_TYPE_END)); [lia|]. rewrite decide_False by done. lia.
  - unfold ExecPrlSend in H. case_decide; [|by apply elem_of_nil in H]. destruct rows as [|t rows]; apply list_elem_of_singleton in H as ->; cbn; rewrite length_app; cbn; [lia|]. destruct (a_stop w); cbn; lia.
  - cbn [set_state workType state]. repeat case_decide; first [lia|congruence].
  - lia.
  - by apply elem_of_nil in H.
Qed.

Lemma change_decreases s k w w' l out eof : p_procs s !! k = Some w -> aphase l = aphase (p_pc s) ->
  aleft (length (p_procs s)) l + apotential w' < aleft (length (p_procs s)) (p_pc s) + apotential w -> forall last, adecreases s (mkAsys l (<[k := w']> (p_procs s)) (mkPas last (pa_worksDone (p_pas s))) out eof).
Proof.
  intros Hk Hp Hlt last. right. split; [done|]. unfold ameasure. cbn [p_procs p_pc p_pas pa_worksDone]. rewrite length_insert. pose proof (apotential_insert _ _ _ w' Hk). lia.
Qed.
Lemma goto_with_decreases s k w w' l : p_procs s !! k = Some w -> aphase l = aphase (p_pc s) ->
  aleft (length (p_procs s)) l + apotential w' < aleft (length (p_procs s)) (p_pc s) + apotential w -> adecreases s (goto_with l k w' s).
Proof. intros Hk Hp Hlt. unfold goto_with. destruct (p_pas s) as [last done] eqn:E. pose proof (change_decreases s k w w' l (p_out s) (p_eof s) Hk Hp Hlt last) as H. rewrite E in H. exact H. Qed.

Lemma apotential_queue w x q : a_queue w = x :: q -> apotential (aset_queue q w) + 2 = apotential w.
Proof. intros Hq. unfold apotential. rewrite Hq. cbn. unfold aeffort. cbn. lia. Qed.

Lemma append_turn_decreases s i s' : p_pc s = PLoop i -> s' ∈ append_turn plans i s -> idle_turn s s' \/ adecreases s s'.
Proof.
  intros Hpc H. unfold append_turn in H. destruct (forallb a_finished (p_procs s)); [apply list_elem_of_singleton in H as ->; right; left; rewrite Hpc; cbn; lia|].
  destruct (p_procs s !! _) as [w|] eqn:Hw; [|by apply elem_of_nil in H]. destruct (a_finished w); [apply list_elem_of_singleton in H as ->; left; by eexists _, _|].
  destruct (a_queue w) as [|x q] eqn:Hq; [apply list_elem_of_singleton in H as ->; left; by eexists _, _|]. pose proof (apotential_queue w x q Hq) as Hp. right. destruct x as [t|].
  - apply list_elem_of_singleton in H as ->. eapply change_decreases; [done|by rewrite Hpc|]. rewrite Hpc. cbn [aleft]. lia.
  - case_decide; apply list_elem_of_singleton in H as ->; (eapply goto_with_decreases; [done|by rewrite Hpc|]); rewrite Hpc; cbn [aleft]; [lia|].
    replace (apotential (aset_finished true (aset_queue q w))) with (apotential (aset_queue q w)) by done. lia.
Qed.

Lemma reassign_decreases s k s' : p_pc s = PReassign k -> s' ∈ reassign plans k s -> adecreases s s'.
Proof.
  intros Hpc H. unfold reassign in H. destruct (p_procs s !! k) as [w|] eqn:Hw; [|by apply elem_of_nil in H]. destruct (waitForState _ _) eqn:Ew; [by apply elem_of_nil in H| |by apply elem_of_nil in H].
  unfold waitForState in Ew. destruct (decide (state (a_shared w) = PRL_WORKER_STATE_END)) as [Hst|]; [|repeat case_decide; done].
  destruct (plans !! pa_worksDone (p_pas s)) as [p|] eqn:Hp; [|by apply elem_of_nil in H]. apply list_elem_of_singleton in H as ->. right. rewrite Hpc. split; [done|].
  unfold ameasure. cbn [p_procs p_pc p_pas pa_worksDone]. rewrite Hpc, (drop_S _ _ _ Hp). cbn [plan_effort sum_list_with aleft].
  pose proof (apotential_insert _ _ _ (aset_finished false (aset_stop false (aput_state PRL_WORKER_STATE_READY (aset_subnode (Some p) w)))) Hw) as Hi.
  assert (apotential (aset_finished false (aset_stop false (aput_state PRL_WORKER_STATE_READY (aset_subnode (Some p) w)))) <= apotential w + (3 * length p + 8)).
  { unfold apotential, aeffort. cbn. destruct (a_pc w); rewrite ?Hst; cbn; repeat case_decide; lia. }
  unfold plan_effort in *. lia.
Qed.

Lemma astep_decreases s s' : step s s' -> idle_turn s s' \/ adecreases s s'.
Proof.
  intros [s'' [H|H]%elem_of_app|i w w' Hi H].
  - unfold ExecAppend_steps in H. destruct (p_pc s) as [| | |i|k|i|i| | | |] eqn:Hpc; try (by apply elem_of_nil in H).
    + apply await_all in H as [-> _]. right; left. rewrite Hpc. cbn. lia.
    + apply list_elem_of_singleton in H as ->. right; left. rewrite Hpc. cbn. lia.
    + right. apply elem_of_cons in H as [->|[->|[]%elem_of_nil]%elem_of_cons]; [right; rewrite Hpc; split; [done|unfold ameasure; rewrite Hpc; cbn; lia]|left; rewrite Hpc; cbn; lia].
    + by eapply append_turn_decreases.
    + right. by eapply reassign_decreases.
  - right. unfold ExecEndAppend_steps in H. destruct (p_pc s) as [| | |i|k|i|i| | | |] eqn:Hpc; try (by apply elem_of_nil in H).
    + destruct (p_procs s !! i) as [w|] eqn:Hw; [|apply list_elem_of_singleton in H as ->; left; rewrite Hpc; cbn; lia]. pose proof (lookup_lt_Some _ _ _ Hw).
      destruct (to_stop job (a_shared w)); apply list_elem_of_singleton in H as ->.
      * eapply goto_with_decreases; [done|rewrite Hpc; by destruct (a_stop w)|]. rewrite Hpc. replace (apotential (aset_stop true w)) with (apotential w) by done. destruct (a_stop w); cbn [aleft]; lia.
      * right. rewrite Hpc. split; [done|]. unfold ameasure. rewrite Hpc. cbn [goto p_pc p_procs p_pas aleft]. lia.
    + destruct (p_procs s !! i) as [w|] eqn:Hw; [|by apply elem_of_nil in H]. pose proof (lookup_lt_Some _ _ _ Hw). apply list_elem_of_singleton in H as ->.
      eapply goto_with_decreases; [done|by rewrite Hpc|]. rewrite Hpc. assert (apotential (aset_queue (tail (a_queue w)) w) <= apotential w) by (unfold apotential, aeffort; cbn; destruct (a_queue w); cbn; lia). cbn [aleft]. lia.
    + apply await_all in H as [-> _]. left. rewrite Hpc. cbn. lia.
    + apply list_elem_of_singleton in H as ->. left. rewrite Hpc. cbn. lia.
    + apply await_all in H as [-> _]. left. rewrite Hpc. cbn. lia.
  - right. eapply goto_with_decreases; [done|done|]. pose proof (apotential_step _ _ H). lia.
Qed.

(** Turns that find nothing and then a step that makes progress. *)
Definition advance s s' : Prop := exists s1, rtc idle s s1 /\ busy s1 s'.

Lemma idle_same s s' : rtc idle s s' -> aphase (p_pc s') = aphase (p_pc s) /\ ameasure s' = ameasure s.
Proof.
  intros Hr. induction Hr as [|s s1 s' [_ (i & i' & Hpc & ->)] _ [-> ->]]; [done|]. unfold ameasure. cbn. by rewrite Hpc.
Qed.
Lemma advance_decreases s s' : advance s s' -> adecreases s s'.
Proof.
  intros (s1 & [E1 E2]%idle_same & [Hs Hb]). destruct (astep_decreases _ _ Hs) as [|Hd]; [done|]. unfold adecreases in *. by rewrite <- E1, <- E2.
Qed.
Lemma advance_wf s : Acc (fun s' s => advance s s') s.
Proof.
  remember (aphase (p_pc s)) as p eqn:Hp. revert s Hp. induction (lt_wf p) as [p _ IHp]. intros s Hp.
  remember (ameasure s) as m eqn:Hm. revert s Hp Hm. induction (lt_wf m) as [m _ IHm]. intros s Hp Hm.
  constructor. intros s' [Hlt|[Heq Hlt]]%advance_decreases.
  - eapply IHp; [|done]. by rewrite Hp.
  - eapply IHm; [|congruence|done]. by rewrite Hm.
Qed.

(** ** Progress *)

Definition acan w : Prop := exists w', w' ∈ query_worker_steps N w.

Lemma running_can w : running w -> workType (a_shared w) = PRL_WORK_TYPE_QUERY -> is_Some (a_subnode w) -> length (a_queue w) < N -> acan w.
Proof.
  intros [Hst [Hpc|[rows Hpc]]] Ht [p Hp] Hl; unfold acan, query_worker_steps; rewrite Hpc.
  - rewrite waitForState_reached by done. unfold doQuery. rewrite Ht, Hp. eexists. by apply list_elem_of_singleton.
  - unfold ExecPrlSend. rewrite decide_True by done. destruct rows; eexists; by apply list_elem_of_singleton.
Qed.
Lemma leaving_can w : leaving w -> at_rest w \/ acan w.
Proof. intros [[Hpc _]|?]; [right|by left]. unfold acan, query_worker_steps. rewrite Hpc. eexists. by apply list_elem_of_singleton. Qed.

(** A worker that cannot do anything has been finished, or has something in its queue. *)
Lemma stuck_queue w : viewed ARunning w -> assigned ARunning w -> ~ acan w -> a_finished w = true \/ a_queue w <> [].
Proof using HN.
  intros (_ & Hl & [(_ & _ & Hr & _)|(_ & He & [[_ Hq]|[? _]])]) (_ & Hn & Ht) Hno; [| |by left]; right.
  - intros Hq. apply Hno. apply running_can; try done. by rewrite Hq.
  - destruct Hq as (q' & -> & _). by destruct q'.
Qed.

Lemma step_advances s s' : step s s' -> adecreases s s' -> exists s', advance s s'.
Proof. intros Hs Hd. exists s', s. split; [apply rtc_refl|]. split; [done|]. intros Hi. by apply (idle_not_decreases _ _ Hi). Qed.
Lemma worker_advances s i w : p_procs s !! i = Some w -> acan w -> exists s', advance s s'.
Proof.
  intros Hi [w' Hw]. eapply step_advances; [by eapply astep_worker|]. eapply goto_with_decreases; [done|done|]. pose proof (apotential_step _ _ Hw). lia.
Qed.

(** Steps from worker [p] forward to worker [u], of [n] *)
Definition dist (n p u : nat) : nat := if decide (p <= u) then u - p else u + n - p.
Lemma dist_next n p u : p < n -> u < n -> p <> u -> dist n p u = S (dist n (S p mod n) u).
Proof.
  intros Hp Hu Hne. unfold dist. destruct (decide (S p = n)) as [<-|].
  - rewrite Nat.Div0.mod_same. repeat case_decide; lia.
  - rewrite Nat.mod_small by lia. repeat case_decide; lia.
Qed.
Lemma next_asked n p : p < n -> Z.rem (Z.of_nat p + 1) (Z.of_nat n) = Z.of_nat (S p mod n).
Proof. intros Hp. rewrite Z.rem_mod_nonneg by lia. replace (Z.of_nat p + 1)%Z with (Z.of_nat (S p)) by lia. by rewrite <- Nat2Z.inj_mod. Qed.

(** The turns of the loop come to a worker that has sent something. *)
Lemma poll_advances d : forall s i p u wu, ainv s -> p_pc s = PLoop i -> (forall k w, p_procs s !! k = Some w -> a_finished w = true \/ a_queue w <> []) ->
  p_procs s !! u = Some wu -> a_finished wu = false -> Z.rem (i + 1) (Z.of_nat (length (p_procs s))) = Z.of_nat p -> p < length (p_procs s) -> dist (length (p_procs s)) p u = d -> exists s', advance s s'.
Proof using HN.
  induction d as [d IH] using lt_wf_ind. intros s i p u wu HI Hpc Hall Hu Hf Hp Hlt Hd.
  assert (Hnot : forallb a_finished (p_procs s) = false).
  { apply not_true_is_false. rewrite forallb_forall. intros Hx. rewrite (Hx wu) in Hf; [done|]. apply list_elem_of_In. by eapply list_elem_of_lookup_2. }
  destruct (lookup_lt_is_Some_2 _ _ Hlt) as [w Hw]. destruct (a_finished w) eqn:Hfw.
  - assert (Hstep : step s (goto (PLoop (Z.of_nat p)) s)).
    { apply astep_leader, elem_of_app. left. unfold ExecAppend_steps. rewrite Hpc. unfold append_turn. rewrite Hnot, Hp, Nat2Z.id, Hw, Hfw. by apply list_elem_of_singleton. }
    assert (p <> u) by congruence. pose proof (dist_next _ p u Hlt (lookup_lt_Some _ _ _ Hu) ltac:(done)) as Hn.
    destruct (IH (dist (length (p_procs s)) (S p mod length (p_procs s)) u) ltac:(lia) (goto (PLoop (Z.of_nat p)) s) (Z.of_nat p) (S p mod length (p_procs s)) u wu (ainv_step _ _ HI Hstep)) as (s' & s1 & Hr & Hb); try done.
    + by apply next_asked.
    + apply Nat.mod_upper_bound. cbn in *. lia.
    + exists s', s1. split; [|done]. eapply rtc_l; [|exact Hr]. split; [done|]. by eexists _, _.
  - destruct (Hall p w Hw) as [|Hq]; [congruence|]. destruct (a_queue w) as [|x q] eqn:Eq; [done|].
    assert (Hturn : exists s', s' ∈ append_turn plans i s /\ ~ idle_turn s s').
    { unfold append_turn. rewrite Hnot, Hp, Nat2Z.id, Hw, Hfw, Eq. pose proof (apotential_queue w x q Eq) as Hpot. destruct x as [t|].
      - eexists. split; [by apply list_elem_of_singleton|]. intros (i0 & i' & _ & E). by apply (f_equal p_pc) in E.
      - case_decide; (eexists; split; [by apply list_elem_of_singleton|]); intros Hi%idle_not_decreases; apply Hi; (eapply goto_with_decreases; [done|by rewrite Hpc|]); rewrite Hpc; cbn [aleft]; [lia|].
        replace (apotential (aset_finished true (aset_queue q w))) with (apotential (aset_queue q w)) by done. lia. }
    destruct Hturn as (s' & Hin & Hni). exists s', s. split; [apply rtc_refl|]. split; [|done]. apply astep_leader, elem_of_app. left. unfold ExecAppend_steps. by rewrite Hpc.
Qed.

Lemma leader_advances s s' : s' ∈ append_leader_steps job plans s -> ~ idle_turn s s' -> exists s', advance s s'.
Proof. intros H Hi. exists s', s. split; [apply rtc_refl|]. split; [by apply astep_leader|done]. Qed.

Lemma await_advances s st l : ainv s -> (forall s', s' ∈ await job st l s -> s' ∈ append_leader_steps job plans s) -> (forall i, l <> PLoop i) ->
  (forall i w, viewed (aview_of (p_pc s) i) w -> assigned (aview_of (p_pc s) i) w -> in_state job st (a_shared w) = true \/ acan w) -> exists s', advance s s'.
Proof.
  intros HI Hl Hni Hw. unfold await in Hl. destruct (waitForWorkers job (length (p_procs s)) st (alist s)) eqn:E.
  - eapply leader_advances; [apply Hl; by apply list_elem_of_singleton|]. intros (i & i' & _ & Eg). apply (f_equal p_pc) in Eg. by apply (Hni i').
  - unfold waitForWorkers, alist in E. apply bool_decide_eq_false in E. rewrite <- (length_fmap a_shared (p_procs s)), count_in_state_all in E.
    apply not_Forall_Exists in E; [|intros ?; apply _]. apply Exists_exists in E as (sh & (w & -> & Hin)%list_elem_of_fmap & Hns). apply list_elem_of_lookup in Hin as [i Hi].
    destruct (ai_procs _ HI _ _ Hi) as [Hv Ha]. destruct (Hw i w Hv Ha) as [?|Hc]; [done|]. by eapply worker_advances.
Qed.

Lemma loop_advances s i : ainv s -> p_pc s = PLoop i -> exists s', advance s s'.
Proof using HN.
  intros HI Hpc. destruct (decide (Exists (fun w => query_worker_steps N w <> []) (p_procs s))) as [Hex|Hno].
  - apply Exists_exists in Hex as (w & (k & Hk)%list_elem_of_lookup & Hne). apply (worker_advances s k w Hk). unfold acan. destruct (query_worker_steps N w) as [|w' l]; [done|]. exists w'. by left.
  - assert (Hall : forall k w, p_procs s !! k = Some w -> a_finished w = true \/ a_queue w <> []).
    { intros k w Hk. destruct (ai_procs _ HI _ _ Hk) as [Hv Ha]. rewrite Hpc in Hv, Ha. apply stuck_queue; [done|done|]. intros [w' Hw']. apply Hno, Exists_exists. exists w.
      split; [by eapply list_elem_of_lookup_2|]. intros E. rewrite E in Hw'. by apply elem_of_nil in Hw'. }
    destruct (forallb a_finished (p_procs s)) eqn:Hf.
    + eapply leader_advances; [apply elem_of_app; left; unfold ExecAppend_steps; rewrite Hpc; unfold append_turn; rewrite Hf; by apply list_elem_of_singleton|].
      intros (? & ? & _ & E). by apply (f_equal p_pc) in E.
    + assert (Hu : exists u wu, p_procs s !! u = Some wu /\ a_finished wu = false).
      { clear -Hf. induction (p_procs s) as [|w ps IH]; [done|]. cbn in Hf. destruct (a_finished w) eqn:E; [|by exists 0, w]. destruct (IH Hf) as (u & wu & ? & ?). by exists (S u), wu. }
      destruct Hu as (u & wu & Hu & Hfu). pose proof (ai_leader _ HI) as [_ Hr]. rewrite Hpc in Hr. pose proof (in_range_next s i (ai_some _ HI) Hr) as Hj.
      eapply (poll_advances _ s i (Z.to_nat (Z.rem (i + 1) (Z.of_nat (length (p_procs s)))))); try done; lia.
Qed.

Lemma append_advances s : ainv s -> p_pc s <> PDone -> exists s', advance s s'.
Proof using HN.
  intros HI Hd. pose proof (ai_leader _ HI) as [_ Hl].
  assert (Hnow : forall s', s' ∈ append_leader_steps job plans s -> (forall i, p_pc s <> PLoop i) -> exists s', advance s s').
  { intros s' H Hpc. eapply leader_advances; [exact H|]. intros (i & _ & E & _). by apply (Hpc i). }
  assert (HA : forall s', s' ∈ ExecAppend_steps job plans s -> s' ∈ append_leader_steps job plans s) by (intros; apply elem_of_app; by left).
  assert (HE : forall s', s' ∈ ExecEndAppend_steps job s -> s' ∈ append_leader_steps job plans s) by (intros; apply elem_of_app; by right).
  destruct (p_pc s) as [| | |i|k|i|i| | | |] eqn:Hpc; try done; [..|].
  - eapply (await_advances s); [done|intros s' H; apply HA; unfold ExecAppend_steps; rewrite Hpc; exact H|done|]. rewrite Hpc.
    intros j w (_ & _ & _ & [[Hp _]|(_ & ? & ?)]) (? & _); [right|left; by apply in_state_spec]. unfold acan, query_worker_steps. rewrite Hp. eexists. by apply list_elem_of_singleton.
  - eapply Hnow; [|done]. apply HA. unfold ExecAppend_steps. rewrite Hpc. by apply list_elem_of_singleton.
  - eapply Hnow; [|done]. apply HA. unfold ExecAppend_steps. rewrite Hpc. by left.
  - by eapply loop_advances.
  - destruct Hl as [Hk Hdone]. destruct (lookup_lt_is_Some_2 _ _ Hk) as [w Hw]. destruct (ai_procs _ HI _ _ Hw) as [Hv _]. rewrite Hpc in Hv. cbn [aview_of] in Hv. rewrite decide_True in Hv by done.
    destruct Hv as (_ & _ & _ & He & _). destruct (leaving_can w He) as [[_ Hst]|Hc]; [|by eapply worker_advances]. destruct (lookup_lt_is_Some_2 plans _ Hdone) as [p Hp].
    eapply Hnow; [|done]. apply HA. unfold ExecAppend_steps, reassign. rewrite Hpc, Hw, (waitForState_reached _ _ Hst), Hp. by apply list_elem_of_singleton.
  - destruct (p_procs s !! i) as [w|] eqn:Hw; [destruct (to_stop job (a_shared w)) eqn:Est|]; (eapply Hnow; [|done]); apply HE; unfold ExecEndAppend_steps; rewrite Hpc, Hw, ?Est; by apply list_elem_of_singleton.
  - destruct (lookup_lt_is_Some_2 _ _ Hl) as [w Hw]. eapply Hnow; [|done]. apply HE. unfold ExecEndAppend_steps. rewrite Hpc, Hw. by apply list_elem_of_singleton.
  - eapply (await_advances s); [done|intros s' H; apply HE; unfold ExecEndAppend_steps; rewrite Hpc; exact H|done|]. rewrite Hpc.
    intros j w (Hv & _ & [(_ & Hr & Hlt)|He]) (Hj & Hn & Ht); [right; by apply running_can|]. destruct (leaving_can w He) as [[_ ?]|?]; [left; by apply in_state_spec|by right].
  - eapply Hnow; [|done]. apply HE. unfold ExecEndAppend_steps. rewrite Hpc. by apply list_elem_of_singleton.
  - eapply (await_advances s); [done|intros s' H; apply HE; unfold ExecEndAppend_steps; rewrite Hpc; exact H|done|]. rewrite Hpc.
    intros j w (Hv & Ht & [[Hst [Hp|Hp]]|[? ?]]) (Hj & _); [right..|left; by apply in_state_spec]; unfold acan, query_worker_steps; rewrite Hp.
    + rewrite waitForState_reached by done. rewrite Ht. eexists. by apply list_elem_of_singleton.
    + eexists. by apply list_elem_of_singleton.
Qed.

Lemma advance_steps s s' : advance s s' -> rtc step s s'.
Proof.
  intros (s1 & Hr & [Hs _]). etrans; [|by apply rtc_once]. eapply (rtc_subrel idle); [|exact Hr]. by intros ? ? [? _].
Qed.
Lemma append_runs_to_end s : ainv s -> exists s', rtc step s s' /\ p_pc s' = PDone.
Proof using HN.
  induction (advance_wf s) as [s _ IH]. intros HI. destruct (decide (aphase (p_pc s) = 1)) as [Hd|Hd].
  - exists s. split; [apply rtc_refl|]. by destruct (p_pc s).
  - destruct (append_advances s HI) as [s1 H1]; [by intros E; rewrite E in Hd|]. pose proof (advance_steps _ _ H1) as Hr.
    destruct (IH s1 H1 (ainv_steps _ _ HI Hr)) as (s' & Hr' & ?). exists s'. split; [by etrans|done].
Qed.
(** As long as the node above asks for rows, the fetching goes on to the end. *)
Lemma fetching_step s s' : step s s' -> fetching (p_pc s) = true -> p_pc s <> PCall -> fetching (p_pc s') = true \/ p_eof s' = true.
Proof.
  intros [s'' [H|H]%elem_of_app|i w w' Hi H] Hf Hc; [| |by left].
  - unfold ExecAppend_steps in H. destruct (p_pc s) as [| | |i|k|i|i| | | |]; try done.
    + by apply await_all in H as [-> _]; left.
    + by apply list_elem_of_singleton in H as ->; left.
    + unfold append_turn in H. destruct (forallb a_finished (p_procs s)); [apply list_elem_of_singleton in H as ->; by right|]. left.
      repeat case_match; rewrite ?elem_of_nil, ?list_elem_of_singleton in H; try done; by subst.
    + left. unfold reassign in H. repeat case_match; rewrite ?elem_of_nil, ?list_elem_of_singleton in H; try done; by subst.
  - unfold ExecEndAppend_steps in H. destruct (p_pc s); try done; by apply elem_of_nil in H.
Qed.
Lemma idle_pc s s' : rtc idle s s' -> s' = s \/ exists i, p_pc s' = PLoop i.
Proof. intros [E|(s3 & _ & [_ (i & i' & _ & ->)])]%rtc_inv_r; [by left|right; by exists i']. Qed.
Lemma fetching_advances s : ainv s -> fetching (p_pc s) = true -> exists s', advance s s' /\ (fetching (p_pc s') = true \/ p_eof s' = true).
Proof using HN.
  intros HI Hf. destruct (decide (aleft 0 (p_pc s) = 1)) as [Hc|Hc].
  - assert (Hpc : p_pc s = PCall) by (destruct (p_pc s); cbn in Hc; done || lia). exists (goto (PLoop (pa_lastWorker (p_pas s))) s). split; [|by left].
    exists s. split; [apply rtc_refl|]. split; [apply astep_leader, elem_of_app; left; unfold ExecAppend_steps; rewrite Hpc; by left|]. intros (i & _ & E & _). congruence.
  - destruct (append_advances s HI ltac:(by intros E; rewrite E in Hf)) as (s' & s1 & Hr & Hb). exists s'. split; [by exists s1|]. apply (fetching_step s1); [by destruct Hb| |].
    + destruct (idle_pc _ _ Hr) as [->|[i ->]]; done.
    + destruct (idle_pc _ _ Hr) as [->|[i ->]]; [|done]. intros E. by rewrite E in Hc.
Qed.
Lemma fetching_ends s : ainv s -> fetching (p_pc s) = true -> exists s', rtc step s s' /\ p_eof s' = true.
Proof using HN.
  induction (advance_wf s) as [s _ IH]. intros HI Hf. destruct (fetching_advances s HI Hf) as (s1 & Ha & Hs1). pose proof (advance_steps _ _ Ha) as Hr.
  destruct Hs1 as [Hf1|He]; [|by exists s1]. destruct (IH s1 Ha (ainv_steps _ _ HI Hr) Hf1) as (s' & Hr' & ?). exists s'. split; [by etrans|done].
Qed.
End proofs.

(** ** The start *)

(** The rows that the workers will send, all in all: of the subplans they are started with, and of those that are given out later. *)
Definition append_rows {A} (plans : list (list A)) (prlSqlLvl : nat) : list A :=
  let n := append_workers (length plans) prlSqlLvl in concat (default [] <$> assign_plans n 0 0 plans) ++ concat (drop n plans).

Lemma assign_some {A} n (plans : list (list A)) : n <= length plans -> length (assign_plans n 0 0 plans) = n /\ Forall is_Some (assign_plans n 0 0 plans).
Proof.
  intros Hn. destruct n as [|[|n]]; [done|..].
  - destruct plans as [|p plans]; [cbn in Hn; lia|]. by repeat econstructor.
  - destruct plans as [|p0 [|p1 plans]]; [cbn in Hn; lia..|]. rewrite assign_plans_ok. cbn. rewrite length_replicate. split; [done|]. repeat constructor; try by eexists. apply Forall_replicate. by eexists.
Qed.
Lemma assign_two {A} n (plans : list (list A)) : n <= length plans -> n <= 2 -> assign_plans n 0 0 plans = Some <$> take n plans.
Proof. intros Hn H2. destruct n as [|[|[|n]]]; [done| | |lia]; destruct plans as [|p0 [|p1 plans]]; cbn in *; done || lia. Qed.

Lemma append_workers_ok nplans lvl : append_workers nplans lvl <= nplans /\ append_workers nplans lvl <= lvl /\ (0 < nplans -> 0 < lvl -> 0 < append_workers nplans lvl).
Proof. unfold append_workers. case_decide; lia. Qed.

Lemma append_init_ok {A} job N (plans : list (list A)) lvl : plans <> [] -> 0 < lvl -> ainv job N plans (append_rows plans lvl) (append_init job plans lvl).
Proof.
  intros Hp Hl. destruct (append_workers_ok (length plans) lvl) as (H1 & _ & H2). assert (Hn : 0 < length plans) by (destruct plans; [done|cbn; lia]). specialize (H2 Hn Hl).
  unfold append_rows, append_init. set (n := append_workers (length plans) lvl) in *. destruct (assign_some n plans H1) as [Elen Hsome].
  assert (Hw : forall i w, (new_aproc job <$> assign_plans n 0 0 plans) !! i = Some w -> exists p, w = new_aproc job (Some p)).
  { intros i w (o & -> & Ho)%list_lookup_fmap_Some. rewrite Forall_lookup in Hsome. destruct (Hsome i o Ho) as [p ->]. by exists p. }
  split; cbn [p_procs p_pc p_pas p_out p_eof pa_worksDone].
  - by rewrite length_fmap, Elen.
  - unfold leader_fine, in_range. cbn. rewrite length_fmap, Elen. lia.
  - intros i w Hi. destruct (Hw i w Hi) as [p ->]. split; [|by split; [|split; [by eexists|]]]. split_and!; try done. by left.
  - intros i w Hi. by destruct (Hw i w Hi) as [p ->].
  - done.
  - eexists. split; [|done]. cbn [app]. unfold all_coming. cbn [p_procs p_pas pa_worksDone]. by rewrite <- list_fmap_compose.
Qed.

Lemma append_rows_two {A} (plans : list (list A)) lvl : lvl <= 2 -> append_rows plans lvl = concat plans.
Proof.
  intros H2. unfold append_rows. destruct (append_workers_ok (length plans) lvl) as (H1 & H3 & _). set (n := append_workers _ _) in *. rewrite assign_two by lia.
  rewrite <- list_fmap_compose. rewrite (list_fmap_ext _ id) by done. by rewrite list_fmap_id, <- concat_app, take_drop.
Qed.

(** ** Running *)

(** The choice of the next step: the leader or a worker, with the number of the alternative. *)
Inductive achoice := ALeader (k : nat) | AWorker (i : nat).
Definition achoose {A} (job : Z) (N : nat) (plans : list (list A)) (c : achoice) (s : asys A) : option (asys A) :=
  match c with
  | ALeader k => append_leader_steps job plans s !! k
  | AWorker i => w ← p_procs s !! i; w' ← query_worker_steps N w !! 0; Some (goto_with (p_pc s) i w' s)
  end.
Fixpoint arun {A} (job : Z) (N : nat) (plans : list (list A)) (cs : list achoice) (s : asys A) : option (asys A) :=
  match cs with [] => Some s | c :: cs => s' ← achoose job N plans c s; arun job N plans cs s' end.
Lemma arun_sound {A} job N (plans : list (list A)) cs : forall s s', arun job N plans cs s = Some s' -> rtc (astep job N plans) s s'.
Proof.
  induction cs as [|c cs IH]; cbn; intros s s' H; [injection H as <-; apply rtc_refl|]. apply bind_Some in H as (s1 & H1 & H2). eapply rtc_l; [|by apply IH].
  destruct c as [k|i]; cbn in H1; [apply astep_leader; by eapply list_elem_of_lookup_2|]. apply bind_Some in H1 as (w & Hi & (w' & Hw%list_elem_of_lookup_2 & [= <-])%bind_Some). by eapply astep_worker.
Qed.

(** ** Properties *)

(** C17: A parallel append returns the rows of the subplans it runs.  For any capacity of the queues and in any interleaving of the leader and its workers, what ExecAppend has returned so far is
    part of the rows of the subplans that the workers got at the start and of those given out to workers that were done, each once; when it returns an empty slot, it has returned them
    all, and as long as the node above asks for rows it comes to that.  With one or two workers these are all rows of all subplans; with more, see append_assigns_second_plan. *)
Theorem append_parallel_rows {A} job N (plans : list (list A)) lvl s :
  0 < N -> plans <> [] -> 0 < lvl -> rtc (astep job N plans) (append_init job plans lvl) s ->
  (exists rest, p_out s ++ rest ≡ₚ append_rows plans lvl) /\ (p_eof s = true -> p_out s ≡ₚ append_rows plans lvl) /\
  (fetching (p_pc s) = true -> exists s', rtc (astep job N plans) s s' /\ p_eof s' = true) /\
  (lvl <= 2 -> append_rows plans lvl = concat plans).
Proof.
  intros HN Hp Hl Hr. pose proof (ainv_steps job N plans _ HN _ _ (append_init_ok job N plans lvl Hp Hl) Hr) as HI. split_and!.
  - destruct (ai_sub _ _ _ _ _ HI) as (rest & ? & _). by exists rest.
  - apply (ai_eof _ _ _ _ _ HI).
  - by apply (fetching_ends job N plans (append_rows plans lvl) HN).
  - apply append_rows_two.
Qed.

(** C18: The protocol of a parallel append ends.  Apart from turns of the loop in ExecAppend that find all queues asked empty, there is no infinite run, also when the node above
    stops early and workers are still sending; in every state that is not the end, such turns lead to a step of another kind; and at the end all
    workers are DEAD and gone. *)
Theorem append_protocol_ends {A} job N (plans : list (list A)) lvl s :
  0 < N -> plans <> [] -> 0 < lvl -> rtc (astep job N plans) (append_init job plans lvl) s ->
  Acc (fun s' s => advance job N plans s s') s /\ (p_pc s <> PDone -> exists s', advance job N plans s s') /\
  (exists s', rtc (astep job N plans) s s' /\ p_pc s' = PDone) /\
  (p_pc s = PDone -> Forall (fun w => state (a_shared w) = PRL_WORKER_STATE_DEAD /\ a_pc w = AExit) (p_procs s)).
Proof.
  intros HN Hp Hl Hr. pose proof (ainv_steps job N plans _ HN _ _ (append_init_ok job N plans lvl Hp Hl) Hr) as HI. split_and!.
  - by apply advance_wf.
  - by apply (append_advances job N plans (append_rows plans lvl) HN).
  - by apply (append_runs_to_end job N plans (append_rows plans lvl) HN).
  - intros Hd. apply Forall_lookup_2. intros i w Hi. destruct (ai_procs _ _ _ _ _ HI _ _ Hi) as [Hv _]. rewrite Hd in Hv. by destruct Hv as (_ & ? & ?).
Qed.

(** ** Witnesses *)

(** Two workers run three subplans; the first one to be done gets the third. *)
Definition demo_subplans : list (list Z) := [[1; 2]; []; [3]]%Z.
Definition demo_choices : list achoice :=
  [AWorker 0; AWorker 1; ALeader 0; ALeader 0; AWorker 1; AWorker 1; AWorker 1; ALeader 0; ALeader 0; ALeader 0; AWorker 0; AWorker 1; AWorker 0; AWorker 1; ALeader 0; AWorker 0; ALeader 0;
   ALeader 0; ALeader 0; ALeader 0; AWorker 0; AWorker 1; ALeader 0; ALeader 0; ALeader 0; ALeader 0].
Definition demo_end_sys : asys Z := default (append_init 7 demo_subplans 2) (arun 7 1 demo_subplans demo_choices (append_init 7 demo_subplans 2)).
Lemma demo_append_run : rtc (astep 7 1 demo_subplans) (append_init 7 demo_subplans 2) demo_end_sys.
Proof. apply (arun_sound 7 1 demo_subplans demo_choices). vm_compute. reflexivity. Qed.

Lemma append_parallel_rows_witness : p_out demo_end_sys = [1; 3; 2]%Z /\ p_out demo_end_sys ≡ₚ concat demo_subplans.
Proof.
  destruct (append_parallel_rows 7 1 demo_subplans 2 demo_end_sys ltac:(lia) ltac:(discriminate) ltac:(lia) demo_append_run) as (_ & He & _ & E).
  split; [vm_compute; reflexivity|]. rewrite <- (E ltac:(lia)). apply He. vm_compute. reflexivity.
Defined.

Lemma append_protocol_ends_witness : exists s', rtc (astep 7 1 demo_subplans) demo_end_sys s' /\ p_pc s' = PDone.
Proof.
  destruct (append_protocol_ends 7 1 demo_subplans 2 demo_end_sys ltac:(lia) ltac:(discriminate) ltac:(lia) demo_append_run) as (_ & _ & H & _). exact H.
Defined.
