(* ===== verification/ShmContext.v ===== *)
(** * ShmContext: memory contexts in shared memory (src/backend/utils/mmgr/shmctx.c)

    The chunks of a shared memory context are areas of the OSSP mm library, which is not part of the repository: it is a class with its
    documented behaviour as laws.  In front of what the caller gets there is the header of the block, by which all blocks of the
    context are linked both ways, and the header of the chunk, by which pfree (src/backend/utils/mmgr/mcxt.c) finds the context.  Several processes allocate and free in
    a context at the same time; the list of blocks has a spinlock. *)

From stdpp Require Import functions.
From S2P Require Import Prelude.

(** ** The mm library *)

(** A memory pool: mm_malloc hands out an area, which starts at a word boundary, or none; mm_free takes one back.  [areas] are the areas handed out, with their lengths. *)
Class MMLib (MM : Type) := {
  mm_malloc : MM -> Z -> option Z * MM;
  mm_free : MM -> Z -> MM;
  mm_destroy : MM -> MM;
  areas : MM -> gmap Z Z }.
Class MMLaws (MM : Type) `{!MMLib MM} : Prop := {
  mm_malloc_some : forall m n a m', (0 < n)%Z -> mm_malloc m n = (Some a, m') ->
    areas m !! a = None /\ areas m' = <[a := n]> (areas m) /\ forall b k, areas m !! b = Some k -> (a + n <= b \/ b + k <= a)%Z;
  mm_malloc_aligned : forall m n a m', (0 < n)%Z -> mm_malloc m n = (Some a, m') -> (0 < a)%Z /\ (8 | a)%Z;
  mm_malloc_none : forall m n m', mm_malloc m n = (None, m') -> areas m' = areas m;
  mm_free_area : forall m a n, areas m !! a = Some n -> areas (mm_free m a) = delete a (areas m);
  mm_destroy_areas : forall m, areas (mm_destroy m) = ∅ }.

(** ** Contexts, blocks and chunks *)

(** MAXALIGN, for MAXIMUM_ALIGNOF = 8 *)
Definition MAXALIGN (len : Z) : Z := Z.land (len + 7) (Z.lnot 7).

(** MAXALIGN(sizeof(AllocBlockData)) and MAXALIGN(sizeof(AllocChunkData)), with 8-byte pointers.  USE_ASSERT_CHECKING entails
    MEMORY_CONTEXT_CHECKING, with which the header of a chunk also has the field requested_size; the code here neither sets nor reads it. *)
Definition ALLOC_BLOCKHDRSZ : Z := 24.
Definition ALLOC_CHUNKHDRSZ : Z := 24.
Definition SIZEOF_BLOCKBOX : Z := 16.

Record AllocBlockData := mkBlock { b_sctx : Z; b_next : option Z; b_prev : option Z }.
Record AllocChunkData := mkChunk { c_sctx : Z; c_size : Z }.
(** The list of blocks; its spinlock makes each section below that holds it one step. *)
Record BlockBox := mkBox { blocks : option Z }.
Record ShmCtx := mkCtx { ctx_isTop : bool; ctx_box : Z }.

Record shm (MM : Type) := mkShm {
  pool : MM;
  block_at : gmap Z AllocBlockData;
  chunk_at : gmap Z AllocChunkData;
  box_at : gmap Z BlockBox;
  contexts : gmap Z ShmCtx }.
Arguments mkShm {MM} pool block_at chunk_at box_at contexts.
Arguments pool {MM} s.
Arguments block_at {MM} s.
Arguments chunk_at {MM} s.
Arguments box_at {MM} s.
Arguments contexts {MM} s.

Section code.
Context {MM : Type} `{!MMLib MM}.
Local Abbreviation SM := (M (shm MM)).
Implicit Type s : shm MM.

Definition set_pool m s : shm MM := mkShm m (block_at s) (chunk_at s) (box_at s) (contexts s).
Definition set_blocks (f : gmap Z AllocBlockData -> gmap Z AllocBlockData) s : shm MM := mkShm (pool s) (f (block_at s)) (chunk_at s) (box_at s) (contexts s).
Definition set_chunks (f : gmap Z AllocChunkData -> gmap Z AllocChunkData) s : shm MM := mkShm (pool s) (block_at s) (f (chunk_at s)) (box_at s) (contexts s).
Definition set_boxes (f : gmap Z BlockBox -> gmap Z BlockBox) s : shm MM := mkShm (pool s) (block_at s) (chunk_at s) (f (box_at s)) (contexts s).
Definition set_contexts (f : gmap Z ShmCtx -> gmap Z ShmCtx) s : shm MM := mkShm (pool s) (block_at s) (chunk_at s) (box_at s) (f (contexts s)).

(** Calls of the library; giving back what is not an area is undefined. *)
Definition malloc (n : Z) : SM (option Z) := fun s => let '(a, m) := mm_malloc (pool s) n in Ok (a, set_pool m s).
Definition free (a : Z) : SM unit := fun s => match areas (pool s) !! a with Some _ => Ok (tt, set_pool (mm_free (pool s) a) s) | None => Err EUndef end.

Definition get_context (c : Z) : SM ShmCtx := s ← mget; deref (contexts s !! c).
Definition get_box (b : Z) : SM BlockBox := s ← mget; deref (box_at s !! b).
Definition get_block (b : Z) : SM AllocBlockData := s ← mget; deref (block_at s !! b).
Definition get_chunk (b : Z) : SM AllocChunkData := s ← mget; deref (chunk_at s !! b).
Definition put_block (b : Z) (d : AllocBlockData) : SM unit := get_block b;; mmod (set_blocks (<[b := d]>)).
Definition put_box (b : Z) (d : BlockBox) : SM unit := get_box b;; mmod (set_boxes (<[b := d]>)).

(** ctx is the address of the node that MemoryContextCreate made. *)
Definition ShmContextCreate (ctx : Z) (parent : option Z) : SM unit :=
  isTop ← match parent with None => mret true | Some p => get_context p;; mret false end;
  box ← malloc SIZEOF_BLOCKBOX;
  match box with
  | None => mfail EUndef
  | Some box => mmod (set_boxes (<[box := mkBox None]>));; mmod (set_contexts (<[ctx := mkCtx isTop box]>))
  end.

Definition AllocPointerGetChunk (ptr : Z) : Z := (ptr - ALLOC_CHUNKHDRSZ)%Z.
Definition AllocChunkGetPointer (chk : Z) : Z := (chk + ALLOC_CHUNKHDRSZ)%Z.

(** ShmAlloc up to HOLD_INTERRUPTS: a block with its headers, not linked yet. *)
Definition new_block (ctx size : Z) : SM (option Z) :=
  get_context ctx;;
  block ← malloc (size + ALLOC_BLOCKHDRSZ + ALLOC_CHUNKHDRSZ);
  match block with
  | None => mret None
  | Some b =>
    mmod (set_blocks (<[b := mkBlock ctx None None]>));;
    mmod (set_chunks (<[(b + ALLOC_BLOCKHDRSZ)%Z := mkChunk ctx size]>));;
    mret (Some b)
  end.
(** The section of ShmAlloc under the spinlock. *)
Definition link_block (ctx block : Z) : SM unit :=
  c ← get_context ctx;
  box ← get_box (ctx_box c);
  d ← get_block block;
  match blocks box with
  | None => put_block block (mkBlock (b_sctx d) None (b_prev d))
  | Some first =>
    put_block block (mkBlock (b_sctx d) (Some first) (b_prev d));;
    f ← get_block first;
    put_block first (mkBlock (b_sctx f) (b_next f) (Some block))
  end;;
  put_box (ctx_box c) (mkBox (Some block)).
Definition ShmAlloc (ctx size : Z) : SM (option Z) :=
  block ← new_block ctx size;
  match block with
  | None => mret None
  | Some b => link_block ctx b;; mret (Some (AllocChunkGetPointer (b + ALLOC_BLOCKHDRSZ)%Z))
  end.

(** The section of ShmFreeAlloc under the spinlock. *)
Definition unlink_block (ctx block : Z) : SM unit :=
  c ← get_context ctx;
  box ← get_box (ctx_box c);
  d ← get_block block;
  if decide (blocks box = Some block) then
    match b_next d with
    | Some next =>
      put_box (ctx_box c) (mkBox (Some next));;
      n ← get_block next;
      put_block next (mkBlock (b_sctx n) (b_next n) None)
    | None => put_box (ctx_box c) (mkBox None)
    end
  else
    prev ← deref (b_prev d);
    p ← get_block prev;
    put_block prev (mkBlock (b_sctx p) (b_next d) (b_prev p));;
    match b_next d with
    | Some next => n ← get_block next; put_block next (mkBlock (b_sctx n) (b_next n) (b_prev d))
    | None => mret tt
    end.
(** mm_free of a block: its memory, the headers included, is gone. *)
Definition free_block (block : Z) : SM unit :=
  free block;;
  mmod (set_blocks (delete block));;
  mmod (set_chunks (delete (block + ALLOC_BLOCKHDRSZ)%Z)).
Definition ShmFreeAlloc (ctx pointer : Z) : SM unit :=
  let block := (AllocPointerGetChunk pointer - ALLOC_BLOCKHDRSZ)%Z in
  unlink_block ctx block;;
  free_block block.
(** pfree up to the call of free_p: it finds the context in the header of the chunk.  NULL is 0; a context is valid when it is there. *)
Definition pfree_header (pointer : Z) : SM AllocChunkData :=
  Assert (negb (pointer =? 0))%Z;;
  Assert (pointer =? MAXALIGN pointer)%Z;;
  h ← get_chunk (AllocPointerGetChunk pointer);
  s ← mget;
  Assert (bool_decide (is_Some (contexts s !! c_sctx h)));;
  mret h.
Definition pfree (pointer : Z) : SM unit :=
  h ← pfree_header pointer;
  ShmFreeAlloc (c_sctx h) pointer.

Definition ShmRealloc (ctx : Z) (pointer : option Z) (size : Z) : SM (option Z) :=
  get_context ctx;;
  match pointer with
  | None => malloc size
  | Some p => free p;; mret None
  end.

(** The loop of ShmReset and ShmDelete; [fuel] is the number of blocks there are, at least. *)
Fixpoint free_blocks (fuel : nat) (block : option Z) : SM unit :=
  match block with
  | None => mret tt
  | Some b =>
    match fuel with
    | O => mfail EDiverge
    | S fuel' => d ← get_block b; free_block b;; free_blocks fuel' (b_next d)
    end
  end.
Definition ShmReset (ctx : Z) : SM unit :=
  c ← get_context ctx;
  box ← get_box (ctx_box c);
  s ← mget;
  free_blocks (size (block_at s)) (blocks box);;
  put_box (ctx_box c) (mkBox None).
(** With the topmost context the pool goes, and all that is in it. *)
Definition ShmDelete (ctx : Z) : SM unit :=
  c ← get_context ctx;
  box ← get_box (ctx_box c);
  s ← mget;
  free_blocks (size (block_at s)) (blocks box);;
  free (ctx_box c);;
  mmod (set_boxes (delete (ctx_box c)));;
  mmod (set_contexts (delete ctx));;
  if ctx_isTop c then mmod (fun s => mkShm (mm_destroy (pool s)) ∅ ∅ ∅ (contexts s)) else mret tt.

Definition ShmGetChunkSpace (pointer : Z) : SM Z :=
  h ← get_chunk (AllocPointerGetChunk pointer);
  mret (c_size h + ALLOC_BLOCKHDRSZ + ALLOC_CHUNKHDRSZ)%Z.
Definition ShmIsEmpty (ctx : Z) : bool := false.
End code.

Lemma MAXALIGN_div a : MAXALIGN a = ((a + 7) / 8 * 8)%Z.
Proof.
  unfold MAXALIGN. rewrite <- Z.ldiff_land. change (Z.ldiff (a + 7) 7) with (Z.ldiff (a + 7) (Z.ones 3)).
  rewrite Z.ldiff_ones_r by done. by rewrite Z.shiftr_div_pow2, Z.shiftl_mul_pow2 by done.
Qed.
Lemma MAXALIGN_aligned a : (8 | a)%Z -> MAXALIGN a = a.
Proof. intros [k ->]. rewrite MAXALIGN_div, Z.div_add_l by done. change (7 / 8)%Z with 0%Z. lia. Qed.

(** ** Lists linked both ways *)

Definition before (bs : list Z) (i : nat) : option Z := match i with O => None | S j => bs !! j end.
Definition linked (h : gmap Z AllocBlockData) (c : Z) (bs : list Z) : Prop :=
  NoDup bs /\ forall i b, bs !! i = Some b -> h !! b = Some (mkBlock c (bs !! S i) (before bs i)).

Lemma linked_same h h' c bs : linked h c bs -> (forall b, b ∈ bs -> h' !! b = h !! b) -> linked h' c bs.
Proof. intros [Hn Hl] E. split; [done|]. intros i b Hb. rewrite E by (by eapply list_elem_of_lookup_2). by apply Hl. Qed.

Lemma linked_nil h c : linked h c [].
Proof. split; [constructor|done]. Qed.

Lemma linked_first h c b : linked (<[b := mkBlock c None None]> h) c [b].
Proof. split; [repeat constructor; set_solver|]. intros [|i] x Hx; simplify_eq/=. by rewrite lookup_insert_eq. Qed.
Lemma linked_cons h c b f bs : linked h c (f :: bs) -> b ∉ f :: bs ->
  linked (<[f := mkBlock c (bs !! 0) (Some b)]> (<[b := mkBlock c (Some f) None]> h)) c (b :: f :: bs).
Proof.
  intros [Hn Hl] Hb. split; [by constructor|]. intros [|[|i]] x Hx; cbn in Hx; simplify_eq.
  - rewrite lookup_insert_ne by (intros ->; set_solver). by rewrite lookup_insert_eq.
  - by rewrite lookup_insert_eq.
  - assert (x ∈ bs) by (by eapply list_elem_of_lookup_2). apply NoDup_cons in Hn as [Hf _]. rewrite !lookup_insert_ne by (intros ->; set_solver).
    rewrite (Hl (S i) x Hx). by destruct i.
Qed.

(** Taking out the block at position [k]. *)
Lemma delete_before (bs : list Z) k i : before (delete k bs) i = if decide (i <= k) then before bs i else before bs (S i).
Proof. destruct i as [|j]; [done|]. cbn. case_decide; [by rewrite list_lookup_delete_lt by lia|]. by rewrite list_lookup_delete_ge by lia. Qed.
Lemma linked_delete h c bs k b (h' : gmap Z AllocBlockData) : linked h c bs -> bs !! k = Some b ->
  (forall i x, bs !! i = Some x -> i <> k -> h' !! x = Some (mkBlock c (if decide (S i = k) then bs !! S k else bs !! S i) (if decide (i = S k) then before bs k else before bs i))) ->
  linked h' c (delete k bs).
Proof.
  intros [Hn Hl] Hk Hh. split; [eapply sublist_NoDup; [exact Hn|apply sublist_delete]|]. intros i x Hx. destruct (decide (i < k)) as [Hlt|Hge].
  - rewrite list_lookup_delete_lt in Hx by done. rewrite (Hh i x Hx) by lia. f_equal. f_equal.
    + case_decide as E; [rewrite list_lookup_delete_ge by lia; by subst|by rewrite list_lookup_delete_lt by lia].
    + rewrite delete_before, decide_False, decide_True by lia. done.
  - rewrite list_lookup_delete_ge in Hx by lia. rewrite (Hh (S i) x Hx) by lia. f_equal. f_equal.
    + rewrite decide_False by lia. by rewrite list_lookup_delete_ge by lia.
    + rewrite delete_before. destruct (decide (S i = S k)) as [E|E]; [injection E as ->; by rewrite decide_True|by rewrite decide_False by lia].
Qed.

(** ** The memory *)

Section memory.
Context {MM : Type} `{!MMLib MM} `{HMM : !MMLaws MM}.
Implicit Types (s : shm MM) (ch : Z -> list Z).

(** [ch c] are the blocks of context [c]. *)
Record mem_ok s ch : Prop := {
  mo_area : forall a n b k, areas (pool s) !! a = Some n -> areas (pool s) !! b = Some k -> a <> b -> (a + n <= b \/ b + k <= a)%Z;
  mo_block : forall b d, block_at s !! b = Some d -> exists n, areas (pool s) !! b = Some (n + ALLOC_BLOCKHDRSZ + ALLOC_CHUNKHDRSZ)%Z /\ (0 <= n)%Z /\
    chunk_at s !! (b + ALLOC_BLOCKHDRSZ)%Z = Some (mkChunk (b_sctx d) n) /\ is_Some (contexts s !! b_sctx d);
  mo_all : forall a n, areas (pool s) !! a = Some n -> is_Some (block_at s !! a) \/ is_Some (box_at s !! a);
  mo_chunk : forall k d, chunk_at s !! k = Some d -> is_Some (block_at s !! (k - ALLOC_BLOCKHDRSZ)%Z);
  mo_box : forall b d, box_at s !! b = Some d -> areas (pool s) !! b = Some SIZEOF_BLOCKBOX;
  mo_context : forall c x, contexts s !! c = Some x -> box_at s !! ctx_box x = Some (mkBox (ch c !! 0)) /\ linked (block_at s) c (ch c);
  mo_contexts : forall c c' x x', contexts s !! c = Some x -> contexts s !! c' = Some x' -> ctx_box x = ctx_box x' -> c = c';
  mo_align : forall a n, areas (pool s) !! a = Some n -> (0 < a)%Z /\ (8 | a)%Z }.

Lemma chain_block s ch c x b : mem_ok s ch -> contexts s !! c = Some x -> b ∈ ch c -> exists d, block_at s !! b = Some d /\ b_sctx d = c.
Proof. intros Hm Hc Hb. destruct (mo_context _ _ Hm c x Hc) as [_ [_ Hl]]. apply list_elem_of_lookup in Hb as [i Hi]. rewrite (Hl i b Hi). by eexists. Qed.

(** What the sections under the spinlock change: links within one context. *)
Definition relinked (c : Z) (touched : list Z) s s' : Prop :=
  pool s' = pool s /\ chunk_at s' = chunk_at s /\ contexts s' = contexts s /\
  (forall b, b ∉ touched -> block_at s' !! b = block_at s !! b) /\
  (forall b, b_sctx <$> block_at s' !! b = b_sctx <$> block_at s !! b) /\
  (exists x, contexts s !! c = Some x /\ exists d, box_at s' = <[ctx_box x := d]> (box_at s) /\ is_Some (box_at s !! ctx_box x)).

Lemma relinked_ok c bs touched s s' ch x : mem_ok s ch -> relinked c touched s s' -> contexts s !! c = Some x -> (forall b, b ∈ touched -> exists d, block_at s !! b = Some d /\ b_sctx d = c) ->
  box_at s' !! ctx_box x = Some (mkBox (bs !! 0)) -> linked (block_at s') c bs -> mem_ok s' (<[c := bs]> ch).
Proof.
  intros [H1 H2 HA H3 H4 H5 H6 H7] (E1 & E2 & E3 & E4 & E5 & (x' & Ex & d & E6 & E7)) Hx Ht Hbox Hl. assert (x' = x) as -> by congruence. split; rewrite ?E1, ?E2, ?E3; try done.
  - intros b db Hb. specialize (E5 b). rewrite Hb in E5. destruct (block_at s !! b) as [db'|] eqn:Eb; [|done]. injection E5 as E5. rewrite E5. by apply H2.
  - intros a n Ha. destruct (HA a n Ha) as [[d' Hd']|Hbx]; [left|right; rewrite E6; apply lookup_insert_is_Some; destruct (decide (ctx_box x = a)); auto].
    specialize (E5 a). rewrite Hd' in E5. by destruct (block_at s' !! a).
  - intros k dk Hk. destruct (H3 k dk Hk) as [db Hb]. specialize (E5 (k - ALLOC_BLOCKHDRSZ)%Z). rewrite Hb in E5. destruct (block_at s' !! _); [done|done].
  - intros b db. rewrite E6. intros [(<- & _)|[_ Hb]]%lookup_insert_Some; [destruct E7 as [d' Hd']; by eapply H4|by eapply H4].
  - intros c' x' Hc'. destruct (decide (c' = c)) as [->|Hne]; [assert (x' = x) as -> by congruence; by rewrite fn_lookup_insert|]. rewrite fn_lookup_insert_ne by done.
    destruct (H5 c' x' Hc') as [Hb Hl']. split; [rewrite E6, lookup_insert_ne; [done|intros E; apply Hne; by eapply H6]|].
    apply (linked_same (block_at s)); [done|]. intros b Hb'. apply E4. intros Hin. destruct (Ht b Hin) as (db & Hdb & Es). apply list_elem_of_lookup in Hb' as [i Hi]. destruct Hl' as [_ Hl']. rewrite (Hl' i b Hi) in Hdb.
    injection Hdb as <-. cbn in Es. done.
Qed.

(** ** The operations *)

Lemma get_context_ok s c x (A : Type) (f : ShmCtx -> M (shm MM) A) : contexts s !! c = Some x -> (get_context c ≫= f) s = f x s.
Proof. intros H. unfold get_context, mbind, M_bind, mget, deref. by rewrite H. Qed.
Lemma get_box_ok s b x (A : Type) (f : BlockBox -> M (shm MM) A) : box_at s !! b = Some x -> (get_box b ≫= f) s = f x s.
Proof. intros H. unfold get_box, mbind, M_bind, mget, deref. by rewrite H. Qed.
Lemma get_block_ok s b x (A : Type) (f : AllocBlockData -> M (shm MM) A) : block_at s !! b = Some x -> (get_block b ≫= f) s = f x s.
Proof. intros H. unfold get_block, mbind, M_bind, mget, deref. by rewrite H. Qed.
Lemma get_chunk_ok s b x (A : Type) (f : AllocChunkData -> M (shm MM) A) : chunk_at s !! b = Some x -> (get_chunk b ≫= f) s = f x s.
Proof. intros H. unfold get_chunk, mbind, M_bind, mget, deref. by rewrite H. Qed.
Lemma put_block_ok s b d x : block_at s !! b = Some x -> put_block b d s = Ok (tt, set_blocks (<[b := d]>) s).
Proof. intros H. unfold put_block. by rewrite (get_block_ok s b x). Qed.
Lemma put_box_ok s b d x : box_at s !! b = Some x -> put_box b d s = Ok (tt, set_boxes (<[b := d]>) s).
Proof. intros H. unfold put_box. by rewrite (get_box_ok s b x). Qed.

Lemma link_block_ok s ch c x b n : mem_ok s ch -> contexts s !! c = Some x -> block_at s !! b = Some (mkBlock c n None) -> b ∉ ch c ->
  exists s', link_block c b s = Ok (tt, s') /\ relinked c (b :: ch c) s s' /\ mem_ok s' (<[c := b :: ch c]> ch).
Proof.
  intros Hm Hc Hb Hin. destruct (mo_context _ _ Hm c x Hc) as [Hbox Hl]. unfold link_block. rewrite (get_context_ok _ _ _ _ _ Hc), (get_box_ok _ _ _ _ _ Hbox), (get_block_ok _ _ _ _ _ Hb). cbn [blocks b_sctx b_prev].
  assert (Ht : forall y, y ∈ b :: ch c -> exists d, block_at s !! y = Some d /\ b_sctx d = c) by (intros y [->|Hy]%elem_of_cons; [by eexists|by eapply chain_block]).
  assert (Hfin : forall h, linked h c (b :: ch c) -> (forall y, y ∉ b :: ch c -> h !! y = block_at s !! y) -> (forall y, b_sctx <$> h !! y = b_sctx <$> block_at s !! y) ->
    let s' := set_boxes (<[ctx_box x := mkBox (Some b)]>) (set_blocks (fun _ => h) s) in relinked c (b :: ch c) s s' /\ mem_ok s' (<[c := b :: ch c]> ch)).
  { intros h Hh E1 E2 s'. assert (HR : relinked c (b :: ch c) s s') by (split_and!; [done..|]; exists x; split; [done|]; eexists; split; [done|by eexists]). split; [done|].
    apply (relinked_ok c (b :: ch c) (b :: ch c) s s' ch x Hm HR Hc Ht); [|done]. cbn. by rewrite lookup_insert_eq. }
  destruct (ch c) as [|f bs] eqn:Ech; cbn [lookup list_lookup].
  - rewrite (mbind_ok _ _ _ _ _ (put_block_ok _ _ _ _ Hb)). rewrite (put_box_ok _ _ _ (mkBox None)) by (cbn; by rewrite Hbox). eexists. split; [reflexivity|].
    apply (Hfin (<[b := mkBlock c None None]> (block_at s))).
    + apply linked_first.
    + intros y Hy. rewrite lookup_insert_ne; [done|intros ->; set_solver].
    + intros y. destruct (decide (y = b)) as [->|]; [by rewrite lookup_insert_eq, Hb|by rewrite lookup_insert_ne].
  - assert (Hf : block_at s !! f = Some (mkBlock c (bs !! 0) None)) by (by apply (proj2 Hl 0)). assert (f <> b) by (intros ->; set_solver).
    rewrite mbind_assoc, (mbind_ok _ _ _ _ _ (put_block_ok _ _ _ _ Hb)).
    assert (Hf' : block_at (set_blocks (<[b := mkBlock c (Some f) None]>) s) !! f = Some (mkBlock c (bs !! 0) None)) by (cbn; by rewrite lookup_insert_ne).
    rewrite mbind_assoc, (get_block_ok _ _ _ _ _ Hf'). rewrite (mbind_ok _ _ _ _ _ (put_block_ok _ _ _ _ Hf')). rewrite (put_box_ok _ _ _ (mkBox (Some f))) by (cbn; by rewrite Hbox). eexists. split; [reflexivity|].
    apply (Hfin (<[f := mkBlock c (bs !! 0) (Some b)]> (<[b := mkBlock c (Some f) None]> (block_at s)))).
    + by apply linked_cons.
    + intros y Hy. rewrite !lookup_insert_ne; [done|intros ->; set_solver..].
    + intros y. destruct (decide (y = f)) as [->|]; [by rewrite lookup_insert_eq, Hf|]. destruct (decide (y = b)) as [->|]; [by rewrite lookup_insert_ne, lookup_insert_eq, Hb|by rewrite !lookup_insert_ne].
Qed.

Lemma same_box s b d : box_at s !! b = Some d -> set_boxes (<[b := d]>) s = s.
Proof. intros H. destruct s. unfold set_boxes. cbn in *. by rewrite insert_id. Qed.

(** The state with the links [h] and the box [d]. *)
Ltac give x s h d := exists (set_boxes (<[ctx_box x := d]>) (set_blocks (fun _ => h) s)); split; [reflexivity|].
Lemma unlink_block_ok s ch c x k b : mem_ok s ch -> contexts s !! c = Some x -> ch c !! k = Some b ->
  exists s', unlink_block c b s = Ok (tt, s') /\ relinked c (ch c) s s' /\ mem_ok s' (<[c := delete k (ch c)]> ch).
Proof.
  intros Hm Hc Hk. destruct (mo_context _ _ Hm c x Hc) as [Hbox Hl]. pose proof (proj2 Hl k b Hk) as Hb. pose proof (proj1 Hl) as Hnd.
  unfold unlink_block. rewrite (get_context_ok _ _ _ _ _ Hc), (get_box_ok _ _ _ _ _ Hbox), (get_block_ok _ _ _ _ _ Hb). cbn [blocks b_sctx b_prev b_next].
  assert (Ht : forall y, y ∈ ch c -> exists d, block_at s !! y = Some d /\ b_sctx d = c) by (intros y Hy; by eapply chain_block).
  assert (Hfin : forall h d, d = mkBox (delete k (ch c) !! 0) -> linked h c (delete k (ch c)) -> (forall y, y ∉ ch c -> h !! y = block_at s !! y) -> (forall y, b_sctx <$> h !! y = b_sctx <$> block_at s !! y) ->
    let s' := set_boxes (<[ctx_box x := d]>) (set_blocks (fun _ => h) s) in relinked c (ch c) s s' /\ mem_ok s' (<[c := delete k (ch c)]> ch)).
  { intros h d Hd Hh E1 E2 s'. assert (HR : relinked c (ch c) s s') by (split_and!; [done..|]; exists x; split; [done|]; eexists; split; [done|by eexists]). split; [done|].
    apply (relinked_ok c (delete k (ch c)) (ch c) s s' ch x Hm HR Hc Ht); [|done]. cbn. by rewrite lookup_insert_eq, Hd. }
  assert (Hinj : forall i j y z, ch c !! i = Some y -> ch c !! j = Some z -> i <> j -> y <> z) by (intros i j y z H1 H2 H3 ->; by apply H3; eapply NoDup_lookup).
  case_decide as Ed.
  - assert (k = 0) as -> by (eapply NoDup_lookup; eauto). destruct (ch c !! 1) as [nx|] eqn:Enx.
    + pose proof (proj2 Hl 1 nx Enx) as Hn. rewrite (mbind_ok _ _ _ _ _ (put_box_ok _ _ _ _ Hbox)).
      assert (Hn' : block_at (set_boxes (<[ctx_box x := mkBox (Some nx)]>) s) !! nx = Some (mkBlock c (ch c !! 2) (before (ch c) 1))) by done.
      rewrite (get_block_ok _ _ _ _ _ Hn'), (put_block_ok _ _ _ _ Hn'). give x s (<[nx := mkBlock c (ch c !! 2) None]> (block_at s)) (mkBox (Some nx)). apply Hfin.
      * by rewrite list_lookup_delete_ge by lia; rewrite Enx.
      * apply (linked_delete (block_at s) c (ch c) 0 b _ Hl Hk). intros i y Hy Hi. destruct (decide (i = 1)) as [->|Hi1].
        -- assert (y = nx) as -> by congruence. by rewrite lookup_insert_eq.
        -- rewrite lookup_insert_ne by (by eapply Hinj). rewrite (proj2 Hl i y Hy). by rewrite !decide_False by lia.
      * intros y Hy. rewrite lookup_insert_ne; [done|]. intros <-. apply Hy. by eapply list_elem_of_lookup_2.
      * intros y. destruct (decide (y = nx)) as [->|]; [by rewrite lookup_insert_eq, Hn|by rewrite lookup_insert_ne].
    + rewrite (put_box_ok _ _ _ _ Hbox). give x s (block_at s) (mkBox None). apply Hfin; [|apply (linked_delete (block_at s) c (ch c) 0 b _ Hl Hk)|done|done].
      * by rewrite list_lookup_delete_ge by lia; rewrite Enx.
      * intros i y Hy Hi. rewrite (proj2 Hl i y Hy). rewrite !decide_False; [done| |lia]. intros ->. congruence.
  - destruct k as [|j]; [done|]. destruct (lookup_lt_is_Some_2 (ch c) j) as [pv Hpv]; [apply lookup_lt_Some in Hk; lia|]. pose proof (proj2 Hl j pv Hpv) as Hp.
    cbn [before]. rewrite Hpv. unfold mbind at 1, M_bind at 1. cbn [deref]. rewrite (get_block_ok _ _ _ _ _ Hp), (mbind_ok _ _ _ _ _ (put_block_ok _ _ _ _ Hp)). cbn [b_sctx b_prev b_next].
    set (s1 := set_blocks _ s). destruct (ch c !! S (S j)) as [nx|] eqn:Enx.
    + pose proof (proj2 Hl (S (S j)) nx Enx) as Hn. assert (Hne : pv <> nx) by (eapply (Hinj j (S (S j))); done || lia).
      assert (Hn' : block_at s1 !! nx = Some (mkBlock c (ch c !! S (S (S j))) (before (ch c) (S (S j))))) by (cbn; by rewrite lookup_insert_ne).
      rewrite (get_block_ok _ _ _ _ _ Hn'), (put_block_ok _ _ _ _ Hn'). cbn [b_sctx b_next]. rewrite <- (same_box s1 (ctx_box x) (mkBox (ch c !! 0))) by done.
      give x s (<[nx := mkBlock c (ch c !! S (S (S j))) (Some pv)]> (<[pv := mkBlock c (Some nx) (before (ch c) j)]> (block_at s))) (mkBox (ch c !! 0)). apply Hfin.
      * by rewrite list_lookup_delete_lt by lia.
      * apply (linked_delete (block_at s) c (ch c) (S j) b _ Hl Hk). intros i y Hy Hi. destruct (decide (i = S (S j))) as [->|Hi1].
        -- assert (y = nx) as -> by congruence. rewrite lookup_insert_eq, decide_False by lia. cbn [before]. by rewrite Hpv.
        -- rewrite lookup_insert_ne by (by eapply Hinj). destruct (decide (i = j)) as [->|Hi2].
           ++ assert (y = pv) as -> by congruence. rewrite lookup_insert_eq. by rewrite decide_True, Enx by lia.
           ++ rewrite lookup_insert_ne by (by eapply Hinj). rewrite (proj2 Hl i y Hy). by rewrite !decide_False by lia.
      * intros y Hy. rewrite !lookup_insert_ne; [done|..]; intros <-; apply Hy; by eapply list_elem_of_lookup_2.
      * intros y. destruct (decide (y = nx)) as [->|]; [by rewrite lookup_insert_eq, Hn|]. rewrite lookup_insert_ne by done. destruct (decide (y = pv)) as [->|]; [by rewrite lookup_insert_eq, Hp|by rewrite lookup_insert_ne].
    + rewrite <- (same_box s1 (ctx_box x) (mkBox (ch c !! 0))) by done.
      give x s (<[pv := mkBlock c None (before (ch c) j)]> (block_at s)) (mkBox (ch c !! 0)). apply Hfin.
      * by rewrite list_lookup_delete_lt by lia.
      * apply (linked_delete (block_at s) c (ch c) (S j) b _ Hl Hk). intros i y Hy Hi. destruct (decide (i = j)) as [->|Hi2].
        -- assert (y = pv) as -> by congruence. rewrite lookup_insert_eq. by rewrite decide_True, Enx, decide_False by lia.
        -- rewrite lookup_insert_ne by (by eapply Hinj). rewrite (proj2 Hl i y Hy). rewrite !decide_False; [done| |lia]. intros ->. congruence.
      * intros y Hy. rewrite lookup_insert_ne; [done|]. intros <-. apply Hy. by eapply list_elem_of_lookup_2.
      * intros y. destruct (decide (y = pv)) as [->|]; [by rewrite lookup_insert_eq, Hp|by rewrite lookup_insert_ne].
Qed.

(** The memory with the new block [b]; its pool is [m]. *)
Definition with_block (m : MM) (ctx size b : Z) s : shm MM :=
  mkShm m (<[b := mkBlock ctx None None]> (block_at s)) (<[(b + ALLOC_BLOCKHDRSZ)%Z := mkChunk ctx size]> (chunk_at s)) (box_at s) (contexts s).

Lemma area_apart s ch a n m b : mem_ok s ch -> (0 < n)%Z -> mm_malloc (pool s) n = (Some a, m) -> (forall d, block_at s !! b = Some d -> a <> b) /\ (forall d, box_at s !! b = Some d -> a <> b).
Proof using HMM.
  intros Hm Hn Ha. destruct (mm_malloc_some _ _ _ _ Hn Ha) as (E & _). split.
  - intros d Hd ->. destruct (mo_block _ _ Hm b d Hd) as (k & Ek & _). congruence.
  - intros d Hd ->. rewrite (mo_box _ _ Hm b d Hd) in E. done.
Qed.

Lemma grown_areas (m m' : MM) a n : (0 < n)%Z -> mm_malloc m n = (Some a, m') ->
  (forall a n b k, areas m !! a = Some n -> areas m !! b = Some k -> a <> b -> (a + n <= b \/ b + k <= a)%Z) ->
  forall a n b k, areas m' !! a = Some n -> areas m' !! b = Some k -> a <> b -> (a + n <= b \/ b + k <= a)%Z.
Proof using HMM.
  intros Hn Ha Hd. destruct (mm_malloc_some _ _ _ _ Hn Ha) as (_ & -> & Hap). intros x i y j [(<- & <-)|[Hx Hi]]%lookup_insert_Some [(<- & <-)|[Hy Hj]]%lookup_insert_Some Hne; [done| | |by eapply Hd].
  - by apply Hap.
  - destruct (Hap _ _ Hi); lia.
Qed.

Lemma grown_aligned (m m' : MM) a n : (0 < n)%Z -> mm_malloc m n = (Some a, m') ->
  (forall b k, areas m !! b = Some k -> (0 < b)%Z /\ (8 | b)%Z) -> forall b k, areas m' !! b = Some k -> (0 < b)%Z /\ (8 | b)%Z.
Proof using HMM.
  intros Hn Ha H. destruct (mm_malloc_some _ _ _ _ Hn Ha) as (_ & -> & _). intros b k [(<- & _)|[_ Hb]]%lookup_insert_Some; [by eapply mm_malloc_aligned|by eapply H].
Qed.

Lemma new_block_ok s ch c x n : mem_ok s ch -> contexts s !! c = Some x -> (0 <= n)%Z ->
  match mm_malloc (pool s) (n + ALLOC_BLOCKHDRSZ + ALLOC_CHUNKHDRSZ)%Z with
  | (None, m) => new_block c n s = Ok (None, set_pool m s) /\ mem_ok (set_pool m s) ch
  | (Some b, m) => new_block c n s = Ok (Some b, with_block m c n b s) /\ mem_ok (with_block m c n b s) ch /\ block_at s !! b = None
  end.
Proof using HMM.
  intros Hm Hc Hn. unfold new_block. rewrite (get_context_ok _ _ _ _ _ Hc). unfold malloc, mbind, M_bind, mmod.
  assert (Hpos : (0 < n + ALLOC_BLOCKHDRSZ + ALLOC_CHUNKHDRSZ)%Z) by (unfold ALLOC_BLOCKHDRSZ, ALLOC_CHUNKHDRSZ; lia).
  destruct (mm_malloc (pool s) _) as [[b|] m] eqn:Ea.
  - destruct (mm_malloc_some _ _ _ _ Hpos Ea) as (Efree & Eareas & Hap). pose proof (fun y => area_apart s ch b _ m y Hm Hpos Ea) as Hapart.
    assert (Hb : block_at s !! b = None) by (destruct (block_at s !! b) as [d|] eqn:Ed; [destruct (Hapart b) as [H _]; by destruct (H d Ed)|done]).
    split_and!; [reflexivity| |done]. pose proof Hm as [H1 H2 HA H3 H4 H5 H6 H7]. split; cbn.
    + by eapply grown_areas.
    + intros y d [(<- & <-)|[Hne Hd]]%lookup_insert_Some; [exists n; cbn; rewrite Eareas, !lookup_insert_eq; by split_and!|].
      destruct (H2 y d Hd) as (k & K1 & K2 & K3 & K4). exists k. rewrite Eareas, !lookup_insert_ne by (done || lia). done.
    + intros a k. rewrite Eareas. intros [(<- & _)|[Hne Hk]]%lookup_insert_Some; [left; rewrite lookup_insert_eq; by eexists|]. rewrite lookup_insert_ne by done. by eapply HA.
    + intros k d [(<- & _)|[Hne Hd]]%lookup_insert_Some; [replace (b + ALLOC_BLOCKHDRSZ - ALLOC_BLOCKHDRSZ)%Z with b by lia; rewrite lookup_insert_eq; by eexists|].
      rewrite lookup_insert_ne by lia. by eapply H3.
    + intros y d Hd. rewrite Eareas, lookup_insert_ne; [by eapply H4|]. destruct (Hapart y) as [_ H]. by eapply H.
    + intros c' x' Hc'. destruct (H5 c' x' Hc') as [Hbx Hl]. split; [done|]. apply (linked_same (block_at s)); [done|]. intros y Hy. rewrite lookup_insert_ne; [done|]. intros <-.
      destruct (chain_block s ch c' x' b Hm Hc' Hy) as (d & Hd & _). congruence.
    + done.
    + by eapply grown_aligned.
  - split; [reflexivity|]. pose proof (mm_malloc_none _ _ _ Ea) as Eareas. destruct Hm as [H1 H2 HA H3 H4 H5 H6 H7]. split; cbn; try done; rewrite ?Eareas; try done; intros; rewrite ?Eareas; eauto.
Qed.

Lemma free_block_ok s ch b d : mem_ok s ch -> block_at s !! b = Some d -> (forall c x, contexts s !! c = Some x -> b ∉ ch c) ->
  exists s', free_block b s = Ok (tt, s') /\ mem_ok s' ch /\ s' = mkShm (mm_free (pool s) b) (delete b (block_at s)) (delete (b + ALLOC_BLOCKHDRSZ)%Z (chunk_at s)) (box_at s) (contexts s).
Proof using HMM.
  intros Hm Hb Hin. pose proof Hm as [H1 H2 HA H3 H4 H5 H6 H7]. destruct (H2 b d Hb) as (n & Ea & Hn & Eck & Ec). eexists. split; [unfold free_block, free, mbind, M_bind; rewrite Ea; reflexivity|]. split; [|done].
  pose proof (mm_free_area _ _ _ Ea) as Eareas. split; cbn; rewrite ?Eareas.
  - intros x i y j [_ Hx]%lookup_delete_Some [_ Hy]%lookup_delete_Some. by apply H1.
  - intros y dy [Hne Hy]%lookup_delete_Some. destruct (H2 y dy Hy) as (k & K1 & K2 & K3 & K4). exists k. rewrite !lookup_delete_ne by (done || lia). done.
  - intros a k [Hne Hk]%lookup_delete_Some. rewrite lookup_delete_ne by done. by eapply HA.
  - intros k dk [Hne Hk]%lookup_delete_Some. rewrite lookup_delete_ne by lia. by eapply H3.
  - intros y dy Hy. rewrite lookup_delete_ne; [by eapply H4|]. intros <-. rewrite (H4 b dy Hy) in Ea. injection Ea as Ea. unfold SIZEOF_BLOCKBOX, ALLOC_BLOCKHDRSZ, ALLOC_CHUNKHDRSZ in Ea. lia.
  - intros c x Hc. destruct (H5 c x Hc) as [Hbx Hl]. split; [done|]. apply (linked_same (block_at s)); [done|]. intros y Hy. rewrite lookup_delete_ne; [done|]. intros <-. by eapply Hin.
  - done.
  - intros a k [_ Hk]%lookup_delete_Some. by eapply H7.
Qed.

(** ** Resetting *)

Lemma free_blocks_boxes f fuel : forall b s, free_blocks fuel b (set_boxes f s) = match free_blocks fuel b s with Ok (_, s') => Ok (tt, set_boxes f s') | Err e => Err e end.
Proof.
  induction fuel as [|fuel IH]; intros [b|] s; try done. cbn [free_blocks]. unfold get_block, free_block, free, mbind, M_bind, mget, deref, mmod. cbn.
  destruct (block_at s !! b) as [d|]; [|done]. change (pool (set_boxes f s)) with (pool s). destruct (areas (pool s) !! b); [|done].
  exact (IH (b_next d) (set_chunks (delete (b + ALLOC_BLOCKHDRSZ)%Z) (set_blocks (delete b) (set_pool (mm_free (pool s) b) s)))).
Qed.

Lemma free_blocks_box_at fuel b s s' : free_blocks fuel b s = Ok (tt, s') -> box_at s' = box_at s.
Proof.
  intros H. assert (E : set_boxes (fun _ => box_at s) s = s) by (by destruct s). pose proof (free_blocks_boxes (fun _ => box_at s) fuel b s) as Hb. rewrite E, H in Hb. injection Hb as Hb. by rewrite Hb.
Qed.

(** The blocks of a list that is not reachable any more are freed, whatever their links back. *)
Lemma free_blocks_ok ch l : forall fuel s, mem_ok s ch -> length l <= fuel -> NoDup l -> (forall c x, contexts s !! c = Some x -> forall b, b ∈ l -> b ∉ ch c) ->
  (forall i b, l !! i = Some b -> exists d, block_at s !! b = Some d /\ b_next d = l !! S i) ->
  exists s', free_blocks fuel (l !! 0) s = Ok (tt, s') /\ mem_ok s' ch /\ box_at s' = box_at s /\ contexts s' = contexts s /\
    (forall b, areas (pool s') !! b = if decide (b ∈ l) then None else areas (pool s) !! b) /\ (forall b, block_at s' !! b = if decide (b ∈ l) then None else block_at s !! b).
Proof using HMM.
  induction l as [|b l IH]; intros fuel s Hm Hf Hnd Hin Hl.
  - exists s. split_and!; try done; [by destruct fuel|..]; intros b; by rewrite decide_False by (by intros ?%elem_of_nil).
  - destruct fuel as [|fuel]; [cbn in Hf; lia|]. destruct (Hl 0 b eq_refl) as (d & Hb & Hnext). apply NoDup_cons in Hnd as [Hnb Hnd]. cbn [lookup list_lookup free_blocks].
    rewrite (get_block_ok _ _ _ _ _ Hb). destruct (free_block_ok s ch b d Hm Hb) as (s1 & Hs1 & Hm1 & E); [intros c x Hc; eapply Hin; [exact Hc|by left]|]. rewrite (mbind_ok _ _ _ _ _ Hs1), Hnext.
    destruct (mo_block _ _ Hm b d Hb) as (n & Ea & _). pose proof (mm_free_area _ _ _ Ea) as Eareas.
    destruct (IH fuel s1 Hm1) as (s2 & Hs2 & Hm2 & B2 & C2 & A2 & D2); [cbn in Hf; lia|done|subst s1; intros c x Hc y Hy; eapply Hin; [exact Hc|by right]| |].
    { intros i y Hy. destruct (Hl (S i) y Hy) as (dy & Hdy & Hny). exists dy. subst s1. cbn. split; [|done]. rewrite lookup_delete_ne; [done|]. intros <-. apply Hnb. by eapply list_elem_of_lookup_2. }
    exists s2. subst s1. cbn in *. split_and!; try done.
    + intros y. rewrite A2, Eareas. destruct (decide (y = b)) as [->|Hne]; [rewrite lookup_delete_eq; rewrite (decide_True (P := b ∈ b :: l)) by (by left); by case_decide|].
      rewrite lookup_delete_ne by done. destruct (decide (y ∈ l)); [rewrite decide_True by (by right); done|rewrite decide_False by (intros [?|?]%elem_of_cons; done); done].
    + intros y. rewrite D2. destruct (decide (y = b)) as [->|Hne]; [rewrite lookup_delete_eq; rewrite (decide_True (P := b ∈ b :: l)) by (by left); by case_decide|].
      rewrite lookup_delete_ne by done. destruct (decide (y ∈ l)); [rewrite decide_True by (by right); done|rewrite decide_False by (intros [?|?]%elem_of_cons; done); done].
Qed.

(** The list of context [c] is cut off. *)
Lemma cut_ok s ch c x : mem_ok s ch -> contexts s !! c = Some x -> mem_ok (set_boxes (<[ctx_box x := mkBox None]>) s) (<[c := []]> ch).
Proof.
  intros Hm Hc. destruct (mo_context _ _ Hm c x Hc) as [Hbox Hl]. apply (relinked_ok c [] [] s _ ch x Hm); try done.
  - split_and!; try done. exists x. split; [done|]. eexists. split; [done|by eexists].
  - by intros b ?%elem_of_nil.
  - cbn. by rewrite lookup_insert_eq.
  - apply linked_nil.
Qed.

Lemma chain_fits s ch c x : mem_ok s ch -> contexts s !! c = Some x -> length (ch c) <= size (block_at s).
Proof.
  intros Hm Hc. destruct (mo_context _ _ Hm c x Hc) as [_ [Hnd _]]. rewrite <- (size_list_to_set (C := gset Z)) by done. rewrite <- size_dom. apply subseteq_size.
  intros b Hb%elem_of_list_to_set. destruct (chain_block s ch c x b Hm Hc Hb) as (d & Hd & _). by eapply elem_of_dom_2.
Qed.

(** What is left after the blocks of [c] were freed. *)
Definition freed_of (ch : Z -> list Z) (c : Z) s s' : Prop :=
  contexts s' = contexts s /\ (forall b, areas (pool s') !! b = if decide (b ∈ ch c) then None else areas (pool s) !! b) /\
  (forall b, block_at s' !! b = if decide (b ∈ ch c) then None else block_at s !! b).

Lemma free_chain_ok s ch c x : mem_ok s ch -> contexts s !! c = Some x ->
  exists s', free_blocks (size (block_at s)) (ch c !! 0) s = Ok (tt, s') /\ freed_of ch c s s' /\ box_at s' = box_at s /\ mem_ok (set_boxes (<[ctx_box x := mkBox None]>) s') (<[c := []]> ch).
Proof using HMM.
  intros Hm Hc. destruct (mo_context _ _ Hm c x Hc) as [Hbox [Hnd Hl]]. pose proof (cut_ok s ch c x Hm Hc) as Hm0. set (f := <[ctx_box x := mkBox None]> : gmap Z BlockBox -> gmap Z BlockBox) in *.
  destruct (free_blocks_ok (<[c := []]> ch) (ch c) (size (block_at s)) (set_boxes f s) Hm0) as (s1 & Hs1 & Hm1 & B1 & C1 & A1 & D1); [by eapply chain_fits|done| |intros i b Hb; eexists; split; [exact (Hl i b Hb)|done]|].
  { intros c' x' Hc' b Hb. destruct (decide (c' = c)) as [->|Hne]; [rewrite fn_lookup_insert; by intros ?%elem_of_nil|]. rewrite fn_lookup_insert_ne by done. intros Hb'.
    destruct (chain_block s ch c x b Hm Hc Hb) as (d & Hd & E). destruct (chain_block s ch c' x' b Hm Hc' Hb') as (d' & Hd' & E'). congruence. }
  rewrite free_blocks_boxes in Hs1. destruct (free_blocks _ _ s) as [[[] s2]|e] eqn:E; [|done]. injection Hs1 as <-. exists s2. cbn in *. split_and!; try done. by eapply free_blocks_box_at.
Qed.

Lemma ShmReset_ok s ch c x : mem_ok s ch -> contexts s !! c = Some x -> exists s', ShmReset c s = Ok (tt, s') /\ freed_of ch c s s' /\ mem_ok s' (<[c := []]> ch).
Proof using HMM.
  intros Hm Hc. destruct (mo_context _ _ Hm c x Hc) as [Hbox _]. destruct (free_chain_ok s ch c x Hm Hc) as (s1 & Hs1 & Hf & Hb & Hm1).
  exists (set_boxes (<[ctx_box x := mkBox None]>) s1). split_and!; [|done|done]. unfold ShmReset. rewrite (get_context_ok _ _ _ _ _ Hc), (get_box_ok _ _ _ _ _ Hbox), mget_ok. cbn [blocks]. rewrite (mbind_ok _ _ _ _ _ Hs1).
  by rewrite (put_box_ok _ _ _ (mkBox (ch c !! 0))) by (by rewrite Hb).
Qed.

(** Deleting a context that is not the topmost one gives back its box, too. *)
Lemma ShmDelete_ok s ch c x : mem_ok s ch -> contexts s !! c = Some x -> ctx_isTop x = false -> (forall b d, block_at s !! b = Some d -> b_sctx d = c -> b ∈ ch c) ->
  exists s', ShmDelete c s = Ok (tt, s') /\ mem_ok s' (<[c := []]> ch) /\ contexts s' = delete c (contexts s) /\
    forall b, areas (pool s') !! b = if decide (b ∈ ctx_box x :: ch c) then None else areas (pool s) !! b.
Proof using HMM.
  intros Hm Hc Htop Hall. destruct (mo_context _ _ Hm c x Hc) as [Hbox _]. destruct (free_chain_ok s ch c x Hm Hc) as (s1 & Hs1 & (C1 & A1 & D1) & Hb & Hm1).
  assert (Hnot : ctx_box x ∉ ch c).
  { intros Hin. destruct (chain_block s ch c x _ Hm Hc Hin) as (d & Hd & _). destruct (mo_block _ _ Hm _ _ Hd) as (n & En & Hn & _). rewrite (mo_box _ _ Hm _ _ Hbox) in En. injection En as En.
    unfold SIZEOF_BLOCKBOX, ALLOC_BLOCKHDRSZ, ALLOC_CHUNKHDRSZ in En. lia. }
  assert (Ha : areas (pool s1) !! ctx_box x = Some SIZEOF_BLOCKBOX) by (rewrite A1, decide_False by done; by apply (mo_box _ _ Hm _ _ Hbox)).
  pose proof (mm_free_area _ _ _ Ha) as Hfree. eexists. split.
  { unfold ShmDelete. rewrite (get_context_ok _ _ _ _ _ Hc), (get_box_ok _ _ _ _ _ Hbox), mget_ok. cbn [blocks]. rewrite (mbind_ok _ _ _ _ _ Hs1). unfold free. unfold mbind at 1, M_bind at 1. rewrite Ha, !mmod_ok, Htop. reflexivity. }
  destruct Hm1 as [H1 H2 HA H3 H4 H5 H6 H7]. cbn in *. split_and!.
  - split; cbn; rewrite ?Hfree.
    + intros a n b k [_ Hx]%lookup_delete_Some [_ Hy]%lookup_delete_Some. by apply H1.
    + intros b d Hd. destruct (H2 b d Hd) as (n & K1 & K2 & K3 & K4). exists n. assert (b <> ctx_box x) by (intros ->; rewrite Ha in K1; injection K1 as K1; unfold SIZEOF_BLOCKBOX, ALLOC_BLOCKHDRSZ, ALLOC_CHUNKHDRSZ in K1; lia).
      rewrite lookup_delete_ne by done. split_and!; try done. rewrite lookup_delete_ne; [done|]. intros E. rewrite D1 in Hd. destruct (decide (b ∈ ch c)) as [|Hbc]; [done|]. apply Hbc. by eapply Hall.
    + intros a n [Hne Hn]%lookup_delete_Some. rewrite lookup_delete_ne by done. destruct (HA a n Hn) as [|Hbx]; [by left|right]. by rewrite lookup_insert_ne in Hbx.
    + done.
    + intros b d [Hne Hd]%lookup_delete_Some. rewrite lookup_delete_ne by done. apply (H4 b d). by rewrite lookup_insert_ne.
    + intros c' x' [Hne Hc']%lookup_delete_Some. destruct (H5 c' x' Hc') as [Hbx Hl]. split; [|done]. rewrite lookup_insert_ne in Hbx; [|intros E; apply Hne; by eapply H6; [rewrite C1; exact Hc|exact Hc'|]].
      rewrite lookup_delete_ne; [done|]. intros E. apply Hne. by eapply H6; [rewrite C1; exact Hc|exact Hc'|].
    + intros c' c'' x' x'' [_ Hc']%lookup_delete_Some [_ Hc'']%lookup_delete_Some. by apply H6.
    + intros a n [_ Ha']%lookup_delete_Some. by eapply H7.
  - by rewrite C1.
  - intros b. rewrite Hfree. destruct (decide (b = ctx_box x)) as [->|Hne]; [rewrite lookup_delete_eq, decide_True by (by left); done|]. rewrite lookup_delete_ne by done. rewrite A1.
    destruct (decide (b ∈ ch c)); [by rewrite decide_True by (by right)|by rewrite decide_False by (intros [?|?]%elem_of_cons; done)].
Qed.
End memory.

(** ** Several processes *)

(** Where a process is within ShmAlloc or pfree. *)
Inductive proc := Idle | Linking (ctx block size : Z) | Unlinking (ctx block : Z) | Freeing (block : Z).
Definition holds (p : proc) : option Z := match p with Idle => None | Linking _ b _ | Unlinking _ b | Freeing b => Some b end.

(** [live] are the pointers that were returned and not given to pfree yet, with their context and size. *)
Record sys (MM : Type) := mkSys { mem : shm MM; procs : nat -> proc; live : gmap Z (Z * Z) }.
Arguments mkSys {MM} mem procs live.
Arguments mem {MM} s.
Arguments procs {MM} s.
Arguments live {MM} s.

(** The steps of ShmAlloc (up to the lock; with the lock) and of pfree (reading the header; with the lock; giving back the block). *)
Inductive action := StartAlloc (p : nat) (ctx size : Z) | EndAlloc (p : nat) | StartFree (p : nat) (pointer : Z) | Unlink (p : nat) | EndFree (p : nat).

Definition pointer_of (block : Z) : Z := AllocChunkGetPointer (block + ALLOC_BLOCKHDRSZ).
Definition block_of (pointer : Z) : Z := (AllocPointerGetChunk pointer - ALLOC_BLOCKHDRSZ)%Z.

Section system.
Context {MM : Type} `{!MMLib MM}.
Implicit Type y : sys MM.

(** One step; an action that does not fit the state of its process is no step.  Processes free only pointers they were given, and once. *)
Definition act (a : action) y : res (sys MM) :=
  match a with
  | StartAlloc p ctx size =>
    match procs y p, contexts (mem y) !! ctx with
    | Idle, Some _ =>
      if (size <? 0)%Z then Ok y
      else match new_block ctx size (mem y) with
      | Ok (Some b, s) => Ok (mkSys s (<[p := Linking ctx b size]> (procs y)) (live y))
      | Ok (None, s) => Ok (mkSys s (procs y) (live y))
      | Err e => Err e
      end
    | _, _ => Ok y
    end
  | EndAlloc p =>
    match procs y p with
    | Linking ctx b size =>
      match link_block ctx b (mem y) with
      | Ok (_, s) => Ok (mkSys s (<[p := Idle]> (procs y)) (<[pointer_of b := (ctx, size)]> (live y)))
      | Err e => Err e
      end
    | _ => Ok y
    end
  | StartFree p pointer =>
    match procs y p, live y !! pointer with
    | Idle, Some _ =>
      match pfree_header pointer (mem y) with
      | Ok (h, s) => Ok (mkSys s (<[p := Unlinking (c_sctx h) (block_of pointer)]> (procs y)) (delete pointer (live y)))
      | Err e => Err e
      end
    | _, _ => Ok y
    end
  | Unlink p =>
    match procs y p with
    | Unlinking ctx b => match unlink_block ctx b (mem y) with Ok (_, s) => Ok (mkSys s (<[p := Freeing b]> (procs y)) (live y)) | Err e => Err e end
    | _ => Ok y
    end
  | EndFree p =>
    match procs y p with
    | Freeing b => match free_block b (mem y) with Ok (_, s) => Ok (mkSys s (<[p := Idle]> (procs y)) (live y)) | Err e => Err e end
    | _ => Ok y
    end
  end.
Fixpoint act_all (l : list action) y : res (sys MM) :=
  match l with [] => Ok y | a :: l => match act a y with Ok y' => act_all l y' | Err e => Err e end end.

(** Without interference the steps are those of ShmAlloc and pfree. *)
Lemma act_alloc p ctx size y b s s' : procs y p = Idle -> is_Some (contexts (mem y) !! ctx) -> (0 <= size)%Z -> new_block ctx size (mem y) = Ok (Some b, s) -> link_block ctx b s = Ok (tt, s') ->
  ShmAlloc ctx size (mem y) = Ok (Some (pointer_of b), s') /\ act_all [StartAlloc p ctx size; EndAlloc p] y = Ok (mkSys s' (<[p := Idle]> (<[p := Linking ctx b size]> (procs y))) (<[pointer_of b := (ctx, size)]> (live y))).
Proof.
  intros Hp [x Hc] Hn H1 H2. split.
  - unfold ShmAlloc. by rewrite (mbind_ok _ _ _ _ _ H1), (mbind_ok _ _ _ _ _ H2).
  - cbn [act_all act]. rewrite Hp, Hc, (proj2 (Z.ltb_ge _ _)) by done. rewrite H1. cbn [act procs mem live]. by rewrite fn_lookup_insert, H2.
Qed.

(** ** Invariant *)

Definition proc_ok y (ch : Z -> list Z) (p : proc) : Prop :=
  match p with
  | Idle => True
  | Linking c b n => block_at (mem y) !! b = Some (mkBlock c None None) /\ chunk_at (mem y) !! (b + ALLOC_BLOCKHDRSZ)%Z = Some (mkChunk c n) /\ is_Some (contexts (mem y) !! c) /\ b ∉ ch c
  | Unlinking c b => is_Some (contexts (mem y) !! c) /\ b ∈ ch c
  | Freeing b => exists d, block_at (mem y) !! b = Some d /\ b ∉ ch (b_sctx d)
  end.
Record sys_inv y (ch : Z -> list Z) : Prop := {
  si_mem : mem_ok (mem y) ch;
  si_live : forall p c n, live y !! p = Some (c, n) -> is_Some (contexts (mem y) !! c) /\ block_of p ∈ ch c /\ chunk_at (mem y) !! AllocPointerGetChunk p = Some (mkChunk c n);
  si_proc : forall p, proc_ok y ch (procs y p);
  si_apart : forall p b, holds (procs y p) = Some b -> live y !! pointer_of b = None;
  si_unique : forall p q b, holds (procs y p) = Some b -> holds (procs y q) = Some b -> p = q;
  si_all : forall b d, block_at (mem y) !! b = Some d -> is_Some (live y !! pointer_of b) \/ exists p, holds (procs y p) = Some b }.

Lemma pointer_block b : block_of (pointer_of b) = b.
Proof. unfold block_of, pointer_of, AllocPointerGetChunk, AllocChunkGetPointer. lia. Qed.
Lemma block_pointer p : pointer_of (block_of p) = p.
Proof. unfold block_of, pointer_of, AllocPointerGetChunk, AllocChunkGetPointer. lia. Qed.
Lemma pointer_chunk b : AllocPointerGetChunk (pointer_of b) = (b + ALLOC_BLOCKHDRSZ)%Z.
Proof. unfold pointer_of, AllocPointerGetChunk, AllocChunkGetPointer. lia. Qed.

Lemma elem_of_delete_nodup (l : list Z) k b x : NoDup l -> l !! k = Some b -> (x ∈ delete k l <-> x ∈ l /\ x <> b).
Proof.
  intros Hnd Hk. rewrite <- (take_drop_middle l k b Hk) at 2. rewrite <- (take_drop_middle l k b Hk) in Hnd. apply NoDup_app in Hnd as (_ & H1 & [H2 _]%NoDup_cons).
  rewrite delete_take_drop, !elem_of_app, elem_of_cons. split; [|tauto]. intros [Hx|Hx]; split; try tauto; intros ->; [by apply (H1 b Hx), list_elem_of_here|done].
Qed.

Context `{HMM : !MMLaws MM}.

(** A block on its way in or out is in no list. *)
Lemma pending_apart y ch c x b d : mem_ok (mem y) ch -> contexts (mem y) !! c = Some x -> block_at (mem y) !! b = Some d -> b ∉ ch (b_sctx d) -> b ∉ ch c.
Proof. intros Hm Hc Hb Hn Hin. destruct (chain_block _ _ _ _ _ Hm Hc Hin) as (d' & Hd' & E). assert (d' = d) as -> by congruence. by subst c. Qed.

(** Changing the links of context [c] leaves the other processes alone. *)
Lemma relinked_proc y ch c touched s' bs q : relinked c touched (mem y) s' -> proc_ok y ch q -> (forall b, holds q = Some b -> b ∉ ch c -> b ∉ touched /\ b ∉ bs) ->
  (forall b, q = Unlinking c b -> b ∈ ch c -> b ∈ bs) -> mem_ok (mem y) ch -> is_Some (contexts (mem y) !! c) -> forall procs' live', proc_ok (mkSys s' procs' live') (<[c := bs]> ch) q.
Proof.
  intros (E1 & E2 & E3 & E4 & E5 & _) Hq Hout Hin Hm [x Hc] procs' live'. destruct q as [|c' b n|c' b|b]; cbn in *; [done|..].
  - destruct Hq as (Hb & Hck & Hcx & Hn). rewrite E2, E3. assert (Hnc : b ∉ ch c) by (by eapply (pending_apart y ch c x b _ Hm Hc Hb)). destruct (Hout b eq_refl Hnc) as [Ht Hbs].
    rewrite E4 by done. split_and!; try done. destruct (decide (c' = c)) as [->|]; [by rewrite fn_lookup_insert|by rewrite fn_lookup_insert_ne].
  - destruct Hq as [Hcx Hb]. rewrite E3. split; [done|]. destruct (decide (c' = c)) as [->|]; [rewrite fn_lookup_insert; by apply Hin|by rewrite fn_lookup_insert_ne].
  - destruct Hq as (d & Hb & Hn). assert (Hnc : b ∉ ch c) by (by eapply (pending_apart y ch c x b _ Hm Hc Hb)). destruct (Hout b eq_refl Hnc) as [Ht Hbs]. exists d. rewrite E4 by done. split; [done|].
    destruct (decide (b_sctx d = c)) as [->|]; [by rewrite fn_lookup_insert|by rewrite fn_lookup_insert_ne].
Qed.

Lemma relinked_blocks c touched s s' b d : relinked c touched s s' -> block_at s' !! b = Some d -> is_Some (block_at (MM := MM) s !! b).
Proof. intros (_ & _ & _ & _ & E & _) Hb. specialize (E b). rewrite Hb in E. by destruct (block_at s !! b). Qed.

Lemma act_link y ch p c b n : sys_inv y ch -> procs y p = Linking c b n ->
  exists s, link_block c b (mem y) = Ok (tt, s) /\ contexts s = contexts (mem y) /\ sys_inv (mkSys s (<[p := Idle]> (procs y)) (<[pointer_of b := (c, n)]> (live y))) (<[c := b :: ch c]> ch).
Proof.
  intros [H1 H2 H3 H4 H5 H6] Hp. pose proof (H3 p) as Hok. rewrite Hp in Hok. destruct Hok as (Hb & Hck & [x Hc] & Hn).
  destruct (link_block_ok (mem y) ch c x b None H1 Hc Hb Hn) as (s & Hs & HR & Hm). exists s. split; [done|]. pose proof HR as (E1 & E2 & E3 & _). split; [done|]. split; cbn; [done|..].
  - intros q c' n' [(<- & [= <- <-])|[_ Hl]]%lookup_insert_Some; rewrite E2, E3.
    + rewrite pointer_block, pointer_chunk, fn_lookup_insert. split_and!; [by eexists|by left|done].
    + destruct (H2 q c' n' Hl) as (K1 & K2 & K3). split_and!; [done| |done]. destruct (decide (c' = c)) as [->|]; [rewrite fn_lookup_insert; by right|by rewrite fn_lookup_insert_ne].
  - intros q. destruct (decide (q = p)) as [->|Hne]; [by rewrite fn_lookup_insert|]. rewrite fn_lookup_insert_ne by done. apply (relinked_proc y ch c (b :: ch c)); try done; [|intros b' _ ?; by right].
    intros b' Hb' Hnc. assert (b' <> b) by (intros ->; apply Hne; by eapply H5; [exact Hb'|rewrite Hp]). split; by intros [?|?]%elem_of_cons.
  - intros q b' Hb'. destruct (decide (q = p)) as [->|Hne]; [by rewrite fn_lookup_insert in Hb'|]. rewrite fn_lookup_insert_ne in Hb' by done. rewrite lookup_insert_ne; [by eapply H4|].
    intros E. apply Hne. eapply H5; [exact Hb'|rewrite Hp; cbn]. by rewrite <- (pointer_block b), E, pointer_block.
  - intros q q' b' Hq Hq'. destruct (decide (q = p)) as [->|Hne]; [by rewrite fn_lookup_insert in Hq|]. destruct (decide (q' = p)) as [->|Hne']; [by rewrite fn_lookup_insert in Hq'|].
    rewrite fn_lookup_insert_ne in Hq, Hq' by done. by eapply H5.
  - intros b' d Hd. destruct (relinked_blocks _ _ _ _ _ _ HR Hd) as [d' Hd']. destruct (decide (b' = b)) as [->|Hne]; [left; rewrite lookup_insert_eq; by eexists|].
    destruct (H6 b' d' Hd') as [Hl|[q Hq]]; [left; apply lookup_insert_is_Some; destruct (decide (pointer_of b = pointer_of b')); auto|right]. exists q. rewrite fn_lookup_insert_ne; [done|]. intros ->. rewrite Hp in Hq. by injection Hq as ->.
Qed.

Lemma act_unlink y ch p c b : sys_inv y ch -> procs y p = Unlinking c b ->
  exists s k, unlink_block c b (mem y) = Ok (tt, s) /\ contexts s = contexts (mem y) /\ sys_inv (mkSys s (<[p := Freeing b]> (procs y)) (live y)) (<[c := delete k (ch c)]> ch).
Proof.
  intros [H1 H2 H3 H4 H5 H6] Hp. pose proof (H3 p) as Hok. rewrite Hp in Hok. destruct Hok as ([x Hc] & Hin). apply list_elem_of_lookup in Hin as [k Hk].
  destruct (unlink_block_ok (mem y) ch c x k b H1 Hc Hk) as (s & Hs & HR & Hm). exists s, k. split; [done|]. pose proof HR as (E1 & E2 & E3 & _ & E5 & _). split; [done|].
  destruct (mo_context _ _ H1 c x Hc) as [_ [Hnd Hl]]. pose proof (fun z => elem_of_delete_nodup (ch c) k b z Hnd Hk) as Hdel. split; cbn; [done|..].
  - intros q c' n' Hlv; rewrite E2, E3. destruct (H2 q c' n' Hlv) as (K1 & K2 & K3). split_and!; [done| |done]. destruct (decide (c' = c)) as [->|]; [rewrite fn_lookup_insert|by rewrite fn_lookup_insert_ne].
    apply Hdel. split; [done|]. intros E. pose proof (H4 p b ltac:(by rewrite Hp)) as Hno. rewrite <- E, block_pointer in Hno. congruence.
  - intros q. destruct (decide (q = p)) as [->|Hne].
    + rewrite fn_lookup_insert. cbn. destruct (chain_block _ _ _ _ b H1 Hc ltac:(by eapply list_elem_of_lookup_2)) as (d & Hd & Hsc). specialize (E5 b). rewrite Hd in E5. destruct (block_at s !! b) as [d'|] eqn:Ed'; [|done]. injection E5 as E5.
      exists d'. split; [done|]. rewrite E5, Hsc, fn_lookup_insert. intros ?%Hdel. naive_solver.
    + rewrite fn_lookup_insert_ne by done. apply (relinked_proc y ch c (ch c)); try done.
      * intros b' Hb' Hnc. split; [done|]. intros [? _]%Hdel. done.
      * intros b' Eq Hb'. apply Hdel. split; [done|]. intros ->. apply Hne. eapply H5; [by rewrite Eq|by rewrite Hp].
  - intros q b' Hb'. destruct (decide (q = p)) as [->|Hne]; [rewrite fn_lookup_insert in Hb'; injection Hb' as <-; apply (H4 p); by rewrite Hp|]. rewrite fn_lookup_insert_ne in Hb' by done. by eapply H4.
  - intros q q' b' Hq Hq'. assert (Hsame : forall r, holds (<[p := Freeing b]> (procs y) r) = holds (procs y r)) by (intros r; destruct (decide (r = p)) as [->|]; [by rewrite fn_lookup_insert, Hp|by rewrite fn_lookup_insert_ne]).
    rewrite Hsame in Hq, Hq'. by eapply H5.
  - intros b' d Hd. destruct (relinked_blocks _ _ _ _ _ _ HR Hd) as [d' Hd']. destruct (H6 b' d' Hd') as [?|[q Hq]]; [by left|right]. exists q. destruct (decide (q = p)) as [->|]; [rewrite fn_lookup_insert; by rewrite Hp in Hq|by rewrite fn_lookup_insert_ne].
Qed.

(** What does not touch blocks and chunks other than [b] leaves the other processes alone. *)
Lemma same_proc y ch s' q b procs' live' : proc_ok y ch q -> holds q <> Some b -> contexts s' = contexts (mem y) ->
  (forall b', b' <> b -> block_at s' !! b' = block_at (mem y) !! b' /\ chunk_at s' !! (b' + ALLOC_BLOCKHDRSZ)%Z = chunk_at (mem y) !! (b' + ALLOC_BLOCKHDRSZ)%Z) -> proc_ok (mkSys s' procs' live') ch q.
Proof.
  intros Hq Hne Ec E. destruct q as [|c' b' n|c' b'|b']; cbn in *; [done|..]; rewrite ?Ec; try done; (destruct (E b') as [E1 E2]; [congruence|]); by rewrite E1, ?E2.
Qed.

Lemma act_new y ch p c x n : sys_inv y ch -> procs y p = Idle -> contexts (mem y) !! c = Some x -> (0 <= n)%Z ->
  exists o s, new_block c n (mem y) = Ok (o, s) /\ contexts s = contexts (mem y) /\ sys_inv (mkSys s (match o with Some b => <[p := Linking c b n]> (procs y) | None => procs y end) (live y)) ch.
Proof using HMM.
  intros [H1 H2 H3 H4 H5 H6] Hp Hc Hn. pose proof (new_block_ok (mem y) ch c x n H1 Hc Hn) as Hnew. destruct (mm_malloc _ _) as [[b|] m].
  - destruct Hnew as (Hs & Hm & Hb). exists (Some b), (with_block m c n b (mem y)). split; [done|]. split; [done|].
    assert (Hch : forall c' x', contexts (mem y) !! c' = Some x' -> b ∉ ch c') by (intros c' x' Hc' Hin; destruct (chain_block _ _ _ _ _ H1 Hc' Hin) as (d & Hd & _); congruence).
    assert (Hold : forall q, holds (procs y q) <> Some b).
    { intros q Hq. pose proof (H3 q) as Hok. destruct (procs y q) as [|c' b' n'|c' b'|b']; cbn in *; [done|..]; injection Hq as ->; [destruct Hok as [? _]; congruence|destruct Hok as [[x' Hx'] Hin]; by eapply Hch|destruct Hok as (d & ? & _); congruence]. }
    split; cbn; [done|..].
    + intros q c' n' Hl. destruct (H2 q c' n' Hl) as (K1 & K2 & K3). split_and!; [done|done|]. rewrite lookup_insert_ne; [done|]. intros E. destruct (mo_chunk _ _ H1 _ _ K3) as [d Hd].
      rewrite <- E in Hd. replace (b + ALLOC_BLOCKHDRSZ - ALLOC_BLOCKHDRSZ)%Z with b in Hd by lia. congruence.
    + intros q. destruct (decide (q = p)) as [->|Hne].
      * rewrite fn_lookup_insert. cbn. rewrite !lookup_insert_eq. split_and!; [done|done|by eexists|by eapply Hch].
      * rewrite fn_lookup_insert_ne by done. apply (same_proc y ch _ _ b); [done|done|done|]. intros b' Hb'. cbn. by rewrite !lookup_insert_ne by (done || lia).
    + intros q b' Hq. destruct (decide (q = p)) as [->|Hne]; [|rewrite fn_lookup_insert_ne in Hq by done; by eapply H4]. rewrite fn_lookup_insert in Hq. injection Hq as <-.
      destruct (live y !! pointer_of b) as [[c' n']|] eqn:El; [|done]. destruct (H2 _ _ _ El) as ([x' Hx'] & K2 & _). rewrite pointer_block in K2. by destruct (Hch c' x' Hx').
    + assert (Hh : forall r, holds (<[p := Linking c b n]> (procs y) r) = if decide (r = p) then Some b else holds (procs y r)) by (intros r; case_decide as E; [subst; by rewrite fn_lookup_insert|by rewrite fn_lookup_insert_ne]).
      intros q q' b'. rewrite !Hh. destruct (decide (q = p)) as [->|Hne], (decide (q' = p)) as [->|Hne']; [done| | |by apply H5]; intros Hq Hq'; [injection Hq as <-; by destruct (Hold q')|injection Hq' as <-; by destruct (Hold q)].
    + intros b' d [(<- & _)|[Hne Hd]]%lookup_insert_Some; [right; exists p; by rewrite fn_lookup_insert|]. destruct (H6 b' d Hd) as [?|[q Hq]]; [by left|right]. exists q.
      rewrite fn_lookup_insert_ne; [done|]. intros ->. by rewrite Hp in Hq.
  - destruct Hnew as (Hs & Hm). exists None, (set_pool m (mem y)). split; [done|]. split; [done|]. by split.
Qed.

(** What pfree asserts holds of the pointer of a block: it is neither NULL nor unaligned, and its context is there. *)
Lemma header_ok s ch ptr c n : mem_ok s ch -> is_Some (contexts s !! c) -> block_of ptr ∈ ch c -> chunk_at s !! AllocPointerGetChunk ptr = Some (mkChunk c n) ->
  pfree_header ptr s = Ok (mkChunk c n, s).
Proof.
  intros Hm [x Hc] Hin Hck. destruct (chain_block _ _ _ _ _ Hm Hc Hin) as (d & Hd & _). destruct (mo_block _ _ Hm _ _ Hd) as (k & Ha & _).
  destruct (mo_align _ _ Hm _ _ Ha) as [Hpos [j Hj]]. assert (Hp : ptr = (block_of ptr + 6 * 8)%Z) by (unfold block_of, AllocPointerGetChunk, ALLOC_CHUNKHDRSZ, ALLOC_BLOCKHDRSZ; lia).
  unfold pfree_header. rewrite Assert_ok by (apply negb_true_iff, Z.eqb_neq; lia). rewrite Assert_ok by (apply Z.eqb_eq; symmetry; apply MAXALIGN_aligned; exists (j + 6)%Z; lia).
  rewrite (get_chunk_ok _ _ _ _ _ Hck), mget_ok. rewrite Assert_ok by (apply bool_decide_eq_true; by exists x). done.
Qed.

Lemma act_header y ch p ptr c n : sys_inv y ch -> procs y p = Idle -> live y !! ptr = Some (c, n) ->
  pfree_header ptr (mem y) = Ok (mkChunk c n, mem y) /\ sys_inv (mkSys (mem y) (<[p := Unlinking c (block_of ptr)]> (procs y)) (delete ptr (live y))) ch.
Proof.
  intros [H1 H2 H3 H4 H5 H6] Hp Hl. destruct (H2 _ _ _ Hl) as (Hc & Hin & Hck). split; [by eapply header_ok|].
  assert (Hh : forall r, holds (<[p := Unlinking c (block_of ptr)]> (procs y) r) = if decide (r = p) then Some (block_of ptr) else holds (procs y r)) by (intros r; case_decide as E; [subst; by rewrite fn_lookup_insert|by rewrite fn_lookup_insert_ne]).
  assert (Hold : forall q, holds (procs y q) <> Some (block_of ptr)) by (intros q Hq; apply H4 in Hq; rewrite block_pointer in Hq; congruence).
  split; cbn; [done|..].
  - intros q c' n' [_ Hq]%lookup_delete_Some. by apply H2.
  - intros q. destruct (decide (q = p)) as [->|Hne]; [by rewrite fn_lookup_insert|]. rewrite fn_lookup_insert_ne by done. pose proof (H3 q). by destruct (procs y q).
  - intros q b. rewrite Hh. case_decide; [intros [= <-]; by rewrite block_pointer, lookup_delete_eq|]. intros Hq%H4. apply lookup_delete_None. by right.
  - intros q q' b. rewrite !Hh. destruct (decide (q = p)) as [->|Hne], (decide (q' = p)) as [->|Hne']; [done| | |by apply H5]; intros Hq Hq'; [injection Hq as <-; by destruct (Hold q')|injection Hq' as <-; by destruct (Hold q)].
  - intros b d Hd. destruct (H6 b d Hd) as [Hlv|[q Hq]].
    + destruct (decide (pointer_of b = ptr)) as [<-|Hne]; [right; exists p; by rewrite Hh, decide_True, pointer_block|left; by rewrite lookup_delete_ne].
    + right. exists q. rewrite Hh. case_decide as E; [subst; by rewrite Hp in Hq|done].
Qed.

Lemma act_give_back y ch p b : sys_inv y ch -> procs y p = Freeing b ->
  exists s, free_block b (mem y) = Ok (tt, s) /\ contexts s = contexts (mem y) /\ sys_inv (mkSys s (<[p := Idle]> (procs y)) (live y)) ch.
Proof using HMM.
  intros [H1 H2 H3 H4 H5 H6] Hp. pose proof (H3 p) as Hok. rewrite Hp in Hok. destruct Hok as (d & Hb & Hn).
  destruct (free_block_ok (mem y) ch b d H1 Hb) as (s & Hs & Hm & E); [intros c x Hc; by eapply pending_apart|]. exists s. split; [done|]. split; [by rewrite E|]. split; [done|..].
  - intros q c n Hl. destruct (H2 q c n Hl) as ([x K1] & K2 & K3). subst s. cbn. split_and!; [by eexists|done|]. rewrite lookup_delete_ne; [done|]. intros Eq.
    assert (Eb : block_of q = b) by (unfold block_of; rewrite <- Eq; lia). pose proof (pending_apart y ch c x b d H1 K1 Hb Hn). congruence.
  - intros q. cbn [procs]. destruct (decide (q = p)) as [->|Hne]; [by rewrite fn_lookup_insert|]. rewrite fn_lookup_insert_ne by done. apply (same_proc y ch _ _ b); [done| |by rewrite E|].
    + intros Hq. apply Hne. eapply H5; [exact Hq|by rewrite Hp].
    + intros b' Hb'. subst s. cbn. by rewrite !lookup_delete_ne by (done || lia).
  - cbn [procs live]. intros q b' Hq. destruct (decide (q = p)) as [->|Hne]; [by rewrite fn_lookup_insert in Hq|]. rewrite fn_lookup_insert_ne in Hq by done. by eapply H4.
  - cbn [procs]. intros q q' b' Hq Hq'. destruct (decide (q = p)) as [->|Hne]; [by rewrite fn_lookup_insert in Hq|]. destruct (decide (q' = p)) as [->|Hne']; [by rewrite fn_lookup_insert in Hq'|].
    rewrite fn_lookup_insert_ne in Hq, Hq' by done. by eapply H5.
  - intros b' d' Hd'. subst s. cbn in Hd'. apply lookup_delete_Some in Hd' as [Hne Hd']. destruct (H6 b' d' Hd') as [?|[q Hq]]; [by left|right]. exists q. cbn. rewrite fn_lookup_insert_ne; [done|].
    intros ->. rewrite Hp in Hq. by injection Hq as ->.
Qed.

Lemma act_ok a y ch : sys_inv y ch -> exists y' ch', act a y = Ok y' /\ sys_inv y' ch' /\ contexts (mem y') = contexts (mem y).
Proof using HMM.
  intros HI. assert (Hstay : exists y' ch', Ok y = Ok y' /\ sys_inv y' ch' /\ contexts (mem y') = contexts (mem y)) by (by exists y, ch). destruct a as [p c n|p|p ptr|p|p]; cbn [act].
  - destruct (procs y p) eqn:Hp; try done. destruct (contexts (mem y) !! c) as [x|] eqn:Hc; [|done]. destruct (Z.ltb_spec n 0); [done|].
    destruct (act_new y ch p c x n HI Hp Hc ltac:(done)) as (o & s & -> & Es & HI'). destruct o; by eexists _, ch.
  - destruct (procs y p) as [|c b n| |] eqn:Hp; try done. destruct (act_link y ch p c b n HI Hp) as (s & -> & Es & HI'). by eexists _, _.
  - destruct (procs y p) eqn:Hp; try done. destruct (live y !! ptr) as [[c n]|] eqn:Hl; [|done]. destruct (act_header y ch p ptr c n HI Hp Hl) as [-> HI']. by eexists _, ch.
  - destruct (procs y p) as [| |c b|] eqn:Hp; try done. destruct (act_unlink y ch p c b HI Hp) as (s & k & -> & Es & HI'). by eexists _, _.
  - destruct (procs y p) as [| | |b] eqn:Hp; try done. destruct (act_give_back y ch p b HI Hp) as (s & -> & Es & HI'). by eexists _, ch.
Qed.
Lemma act_all_ok l : forall y ch, sys_inv y ch -> exists y' ch', act_all l y = Ok y' /\ sys_inv y' ch'.
Proof using HMM.
  induction l as [|a l IH]; intros y ch HI; cbn [act_all]; [by exists y, ch|]. destruct (act_ok a y ch HI) as (y1 & ch1 & -> & HI1 & _). by eapply IH.
Qed.

(** ** Creating contexts *)

Lemma ShmContextCreate_ok s ch c parent s' : mem_ok s ch -> contexts s !! c = None -> ShmContextCreate c parent s = Ok (tt, s') ->
  mem_ok s' (<[c := []]> ch) /\ block_at s' = block_at s /\ exists x, contexts s' = <[c := x]> (contexts s).
Proof using HMM.
  intros Hm Hc. unfold ShmContextCreate. intros H. apply mbind_inv in H as (top & s1 & Hp & H). assert (s1 = s) as ->.
  { destruct parent as [q|]; [|by injection Hp as _ <-]. unfold get_context, mbind, M_bind, mget, deref in Hp. destruct (contexts s !! q); [by injection Hp as _ <-|done]. }
  unfold malloc, mbind, M_bind, mmod in H. destruct (mm_malloc (pool s) SIZEOF_BLOCKBOX) as [[box|] m] eqn:Ea; [|done]. injection H as <-.
  assert (Hpos : (0 < SIZEOF_BLOCKBOX)%Z) by done. destruct (mm_malloc_some _ _ _ _ Hpos Ea) as (Efree & Eareas & Hap). pose proof (fun z => area_apart s ch box _ m z Hm Hpos Ea) as Hapart. pose proof Hm as [H1 H2 HA H3 H4 H5 H6 H7].
  split; [|split; [done|by eexists]]. split; cbn; rewrite ?Eareas.
  - rewrite <- Eareas. by eapply grown_areas.
  - intros b d Hd. destruct (H2 b d Hd) as (n & K1 & K2 & K3 & K4). exists n. destruct (Hapart b) as [Hb _]. rewrite lookup_insert_ne by (by eapply Hb). split_and!; try done.
    apply lookup_insert_is_Some. destruct (decide (c = b_sctx d)); auto.
  - intros a n [(<- & _)|[Hne Hn]]%lookup_insert_Some; [right; rewrite lookup_insert_eq; by eexists|]. destruct (HA a n Hn) as [|Hb]; [by left|right]. by rewrite lookup_insert_ne.
  - done.
  - intros b d [(<- & _)|[Hne Hd]]%lookup_insert_Some; [by rewrite lookup_insert_eq|]. rewrite lookup_insert_ne by done. by eapply H4.
  - intros c' x [(<- & <-)|[Hne Hx]]%lookup_insert_Some; [cbn; rewrite lookup_insert_eq, fn_lookup_insert; split; [done|apply linked_nil]|]. rewrite fn_lookup_insert_ne by done. destruct (H5 c' x Hx) as [Hb Hl].
    split; [|done]. rewrite lookup_insert_ne; [done|]. destruct (Hapart (ctx_box x)) as [_ Hbx]. by eapply Hbx.
  - intros c1 c2 x1 x2 [(<- & <-)|[Hn1 Hx1]]%lookup_insert_Some [(<- & <-)|[Hn2 Hx2]]%lookup_insert_Some E; [done|cbn in E..|by eapply H6].
    + destruct (H5 c2 x2 Hx2) as [Hb _]. destruct (Hapart (ctx_box x2)) as [_ Hbx]. by destruct (Hbx _ Hb).
    + destruct (H5 c1 x1 Hx1) as [Hb _]. destruct (Hapart (ctx_box x1)) as [_ Hbx]. by destruct (Hbx _ Hb).
  - rewrite <- Eareas. by eapply grown_aligned.
Qed.

(** Contexts created one after the other, each with its parent. *)
Fixpoint create_contexts (l : list (Z * option Z)) : M (shm MM) unit :=
  match l with [] => mret tt | (c, parent) :: l => ShmContextCreate c parent;; create_contexts l end.

Lemma create_contexts_ok l : forall s ch s', mem_ok s ch -> block_at s = ∅ -> NoDup l.*1 -> (forall c, c ∈ l.*1 -> contexts s !! c = None) -> create_contexts l s = Ok (tt, s') ->
  exists ch', mem_ok s' ch' /\ block_at s' = ∅.
Proof using HMM.
  induction l as [|[c parent] l IH]; intros s ch s' Hm Hb Hnd Hc H; [injection H as <-; by exists ch|]. cbn in Hnd. apply NoDup_cons in Hnd as [Hn Hnd]. cbn [create_contexts] in H. apply mbind_inv in H as ([] & s1 & H1 & H).
  destruct (ShmContextCreate_ok s ch c parent s1 Hm) as (Hm1 & Hb1 & x & Hx); [apply Hc; by left|done|]. eapply (IH s1); [done|by rewrite Hb1|done| |done].
  intros c' Hc'. rewrite Hx, lookup_insert_ne; [apply Hc; by right|intros ->; done].
Qed.

Lemma empty_ok (m : MM) ch : areas m = ∅ -> mem_ok (mkShm m ∅ ∅ ∅ ∅) ch.
Proof. intros E. split; cbn; intros; rewrite ?E in *; done. Qed.

(** ** What holds of a pool *)

(** Pointers returned have areas of their own, headers included, of the size that is reported; nothing else is allocated but the boxes and what processes have in hand; and the
    list of a context has the blocks of its pointers and those about to be taken out. *)
Record shm_safe y : Prop := {
  safe_apart : forall p q c n c' n', live y !! p = Some (c, n) -> live y !! q = Some (c', n') -> p <> q ->
    (p + n <= q - ALLOC_BLOCKHDRSZ - ALLOC_CHUNKHDRSZ \/ q + n' <= p - ALLOC_BLOCKHDRSZ - ALLOC_CHUNKHDRSZ)%Z;
  safe_space : forall p c n, live y !! p = Some (c, n) ->
    areas (pool (mem y)) !! block_of p = Some (n + ALLOC_BLOCKHDRSZ + ALLOC_CHUNKHDRSZ)%Z /\ ShmGetChunkSpace p (mem y) = Ok ((n + ALLOC_BLOCKHDRSZ + ALLOC_CHUNKHDRSZ)%Z, mem y);
  safe_owned : forall a n, areas (pool (mem y)) !! a = Some n -> is_Some (box_at (mem y) !! a) \/ is_Some (live y !! pointer_of a) \/ exists q, holds (procs y q) = Some a;
  safe_list : forall c x, contexts (mem y) !! c = Some x -> exists bs, box_at (mem y) !! ctx_box x = Some (mkBox (bs !! 0)) /\ linked (block_at (mem y)) c bs /\
    forall b, b ∈ bs <-> (exists n, live y !! pointer_of b = Some (c, n)) \/ exists p, procs y p = Unlinking c b }.

Lemma inv_live_area y ch p c n : sys_inv y ch -> live y !! p = Some (c, n) -> areas (pool (mem y)) !! block_of p = Some (n + ALLOC_BLOCKHDRSZ + ALLOC_CHUNKHDRSZ)%Z.
Proof.
  intros HI Hl. destruct (si_live _ _ HI _ _ _ Hl) as ([x Hc] & Hin & Hck). destruct (chain_block _ _ _ _ _ (si_mem _ _ HI) Hc Hin) as (d & Hd & _).
  destruct (mo_block _ _ (si_mem _ _ HI) _ _ Hd) as (n' & Ea & _ & Hck' & _). rewrite <- pointer_chunk, block_pointer, Hck in Hck'. by injection Hck' as _ <-.
Qed.
Lemma inv_list y ch c x b : sys_inv y ch -> contexts (mem y) !! c = Some x -> b ∈ ch c <-> (exists n, live y !! pointer_of b = Some (c, n)) \/ exists p, procs y p = Unlinking c b.
Proof.
  intros HI Hc. split.
  - intros Hin. destruct (chain_block _ _ _ _ _ (si_mem _ _ HI) Hc Hin) as (d & Hd & Hs). destruct (si_all _ _ HI b d Hd) as [[[c' n] Hl]|[p Hp]].
    + left. destruct (si_live _ _ HI _ _ _ Hl) as ([x' Hc'] & Hin' & _). rewrite pointer_block in Hin'. destruct (chain_block _ _ _ _ _ (si_mem _ _ HI) Hc' Hin') as (d' & Hd' & Hs'). exists n. congruence.
    + right. exists p. pose proof (si_proc _ _ HI p) as Hok. destruct (procs y p) as [|c' b' n|c' b'|b']; cbn in *; [done|..]; injection Hp as ->.
      * destruct Hok as (Hb & _ & _ & Hn). rewrite Hb in Hd. injection Hd as <-. cbn in Hs. by subst.
      * destruct Hok as ([x' Hc'] & Hin'). destruct (chain_block _ _ _ _ _ (si_mem _ _ HI) Hc' Hin') as (d' & Hd' & Hs'). congruence.
      * destruct Hok as (d' & Hd' & Hn). assert (d' = d) as -> by congruence. by subst.
  - intros [[n Hl]|[p Hp]]; [destruct (si_live _ _ HI _ _ _ Hl) as (_ & Hin & _); by rewrite pointer_block in Hin|]. pose proof (si_proc _ _ HI p) as Hok. rewrite Hp in Hok. apply Hok.
Qed.
Lemma inv_safe y ch : sys_inv y ch -> shm_safe y.
Proof.
  intros HI. split.
  - intros p q c n c' n' Hp Hq Hne. pose proof (inv_live_area _ _ _ _ _ HI Hp) as Ap. pose proof (inv_live_area _ _ _ _ _ HI Hq) as Aq.
    assert (block_of p <> block_of q) by (intros E; apply Hne; by rewrite <- (block_pointer p), E, block_pointer). destruct (mo_area _ _ (si_mem _ _ HI) _ _ _ _ Ap Aq ltac:(done)); unfold block_of, AllocPointerGetChunk in *; lia.
  - intros p c n Hp. split; [by eapply inv_live_area|]. destruct (si_live _ _ HI _ _ _ Hp) as (_ & _ & Hck). unfold ShmGetChunkSpace. by rewrite (get_chunk_ok _ _ _ _ _ Hck).
  - intros a n Ha. destruct (mo_all _ _ (si_mem _ _ HI) a n Ha) as [[d Hd]|]; [right; by eapply si_all|by left].
  - intros c x Hc. exists (ch c). destruct (mo_context _ _ (si_mem _ _ HI) c x Hc) as [Hb Hl]. split_and!; [done|done|]. intros b. by eapply inv_list.
Qed.

Lemma reset_inv y ch c x s' : sys_inv y ch -> (forall p, procs y p = Idle) -> contexts (mem y) !! c = Some x -> freed_of ch c (mem y) s' -> mem_ok s' (<[c := []]> ch) ->
  sys_inv (mkSys s' (procs y) (filter (fun e => e.2.1 <> c) (live y))) (<[c := []]> ch).
Proof.
  intros HI Hidle Hc (C1 & A1 & D1) Hm'.
  assert (Hkeep : forall q c' n, live y !! q = Some (c', n) -> c' <> c -> block_of q ∉ ch c).
  { intros q c' n Hl Hne Hin. destruct (si_live _ _ HI _ _ _ Hl) as ([x' Hx'] & Hb & _). destruct (chain_block _ _ _ _ _ (si_mem _ _ HI) Hx' Hb) as (d & Hd & E).
    destruct (chain_block _ _ _ _ _ (si_mem _ _ HI) Hc Hin) as (d' & Hd' & E'). congruence. }
  split; cbn; [done|..].
  - intros q c' n [Hl Hne]%map_lookup_filter_Some. cbn in Hne. pose proof (Hkeep q c' n Hl Hne) as Hout. destruct (si_live _ _ HI _ _ _ Hl) as ([x' Hx'] & Hb & _). rewrite C1, fn_lookup_insert_ne by done. split_and!; [by eexists|done|].
    destruct (chain_block _ _ _ _ _ (si_mem _ _ HI) Hx' Hb) as (d & Hd & E). assert (Hd' : block_at s' !! block_of q = Some d) by (by rewrite D1, decide_False).
    destruct (mo_block _ _ Hm' _ _ Hd') as (n' & Ea & _ & Hck & _). rewrite A1, decide_False, (inv_live_area y ch q c' n HI Hl) in Ea by done. injection Ea as Ea. rewrite <- pointer_chunk, block_pointer in Hck.
    rewrite Hck, E. do 2 f_equal. lia.
  - intros p. by rewrite Hidle.
  - intros p b. by rewrite Hidle.
  - intros p q b. by rewrite Hidle.
  - intros b d Hd. rewrite D1 in Hd. destruct (decide (b ∈ ch c)) as [|Hn]; [done|]. destruct (si_all _ _ HI b d Hd) as [[[c' n] Hl]|[p Hp]]; [|by rewrite Hidle in Hp]. left. exists (c', n).
    apply map_lookup_filter_Some. split; [done|]. cbn. intros ->. apply Hn. apply (inv_list y ch c x b HI Hc). left. by exists n.
Qed.
End system.

(** ** Properties *)

(** C16: Shared memory contexts are safe for several processes.  After contexts were created in an empty pool, let any number of processes allocate and free in them, in any
    interleaving of the steps between which the code can be interrupted, each freeing pointers that were returned and not freed yet.  No step goes wrong: headers that are read
    are there, the assertions of pfree on the pointer and its context hold, and only areas of the pool are given back.  At any time the pointers that are in use have areas that do not overlap, headers included; the list of each context is linked
    both ways and has exactly the blocks in use and those about to be taken out; and no memory is lost. *)
Theorem shm_context_safe {MM} `{!MMLib MM} `{!MMLaws MM} (m : MM) ctxs s actions :
  areas m = ∅ -> NoDup ctxs.*1 -> create_contexts ctxs (mkShm m ∅ ∅ ∅ ∅) = Ok (tt, s) ->
  exists y, act_all actions (mkSys s (fun _ => Idle) ∅) = Ok y /\ shm_safe y.
Proof.
  intros Hm Hnd Hs. destruct (create_contexts_ok ctxs _ (fun _ => []) s (empty_ok m _ Hm) eq_refl Hnd ltac:(done) Hs) as (ch & Hok & Hb).
  assert (HI : sys_inv (mkSys s (fun _ => Idle) ∅) ch) by (split; cbn; try done; intros b d; by rewrite Hb).
  destruct (act_all_ok actions _ ch HI) as (y & ch' & Hy & HI'). exists y. split; [done|]. by eapply inv_safe.
Qed.

(** Resetting a context frees what was allocated in it.  When no process is within ShmAlloc or pfree, ShmReset gives back exactly the blocks of the pointers of that context; the pool
    is as it was before otherwise, the context is usable as a new one and so are all others.  ShmDelete also gives back the list head of a context that is not the topmost. *)
Lemma shm_reset_frees {MM} `{!MMLib MM} `{!MMLaws MM} (m : MM) ctxs s actions y c x :
  areas m = ∅ -> NoDup ctxs.*1 -> create_contexts ctxs (mkShm m ∅ ∅ ∅ ∅) = Ok (tt, s) ->
  act_all actions (mkSys s (fun _ => Idle) ∅) = Ok y -> (forall p, procs y p = Idle) -> contexts (mem y) !! c = Some x ->
  (exists s', ShmReset c (mem y) = Ok (tt, s') /\ shm_safe (mkSys s' (procs y) (filter (fun e => e.2.1 <> c) (live y))) /\
    forall a, areas (pool s') !! a = match live y !! pointer_of a with Some (c', _) => if decide (c' = c) then None else areas (pool (mem y)) !! a | None => areas (pool (mem y)) !! a end) /\
  (ctx_isTop x = false -> exists s', ShmDelete c (mem y) = Ok (tt, s') /\ contexts s' = delete c (contexts (mem y)) /\
    forall a, areas (pool s') !! a = if decide (a = ctx_box x) then None else match live y !! pointer_of a with Some (c', _) => if decide (c' = c) then None else areas (pool (mem y)) !! a | None => areas (pool (mem y)) !! a end).
Proof.
  intros Hm Hnd Hs Hrun Hidle Hc. destruct (create_contexts_ok ctxs _ (fun _ => []) s (empty_ok m _ Hm) eq_refl Hnd ltac:(done) Hs) as (ch0 & Hok & Hb0).
  assert (HI0 : sys_inv (mkSys s (fun _ => Idle) ∅) ch0) by (split; cbn; try done; intros b d; by rewrite Hb0).
  destruct (act_all_ok actions _ ch0 HI0) as (y' & ch & Hy & HI). assert (y' = y) as -> by congruence. clear HI0 Hok Hs Hm Hy Hrun.
  assert (Hin : forall b, b ∈ ch c <-> exists n, live y !! pointer_of b = Some (c, n)).
  { intros b. rewrite (inv_list y ch c x b HI Hc). split; [|by left]. intros [|[p Hp]]; [done|]. by rewrite Hidle in Hp. }
  assert (Hif : forall {A} (a : Z) (t e : A), (if decide (a ∈ ch c) then t else e) = match live y !! pointer_of a with Some (c', _) => if decide (c' = c) then t else e | None => e end).
  { intros A a t e. destruct (decide (a ∈ ch c)) as [Ha|Ha]; [apply Hin in Ha as [n ->]; by rewrite decide_True|]. destruct (live y !! pointer_of a) as [[c' n]|] eqn:El; [|done].
    rewrite decide_False; [done|]. intros ->. apply Ha, Hin. by exists n. }
  split.
  - destruct (ShmReset_ok (mem y) ch c x (si_mem _ _ HI) Hc) as (s' & Hrun & (C1 & A1 & D1) & Hm'). exists s'. split_and!; [done| |intros a; by rewrite A1, Hif]. apply (inv_safe _ (<[c := []]> ch)). by apply (reset_inv y ch c x).
  - intros Htop. destruct (ShmDelete_ok (mem y) ch c x (si_mem _ _ HI) Hc Htop) as (s' & Hrun & Hm' & C1 & A1).
    { intros b d Hd Hsc. destruct (si_all _ _ HI b d Hd) as [[[c' n] Hl]|[p Hp]]; [|by rewrite Hidle in Hp]. destruct (si_live _ _ HI _ _ _ Hl) as ([x' Hx'] & Hb & _). rewrite pointer_block in Hb.
      destruct (chain_block _ _ _ _ _ (si_mem _ _ HI) Hx' Hb) as (d' & Hd' & Hs'). assert (c' = c) as -> by congruence. done. }
    exists s'. split_and!; [done|done|]. intros a. rewrite A1, <- Hif. destruct (decide (a = ctx_box x)) as [->|Hne]; [by rewrite decide_True by (by left)|].
    destruct (decide (a ∈ ch c)); [by rewrite decide_True by (by right)|by rewrite decide_False by (intros [?|?]%elem_of_cons; done)].
Qed.

(** Reallocating is not supported: it gives back the memory from the pointer on, not the block. *)
Lemma realloc_frees_inside {MM} `{!MMLib MM} (s : shm MM) ch c x b d n k :
  mem_ok s ch -> contexts s !! c = Some x -> block_at s !! b = Some d -> areas (pool s) !! b = Some (n + ALLOC_BLOCKHDRSZ + ALLOC_CHUNKHDRSZ)%Z -> (0 < n)%Z -> (forall a j, areas (pool s) !! a = Some j -> (0 < j)%Z) ->
  ShmRealloc c (Some (pointer_of b)) k s = Err EUndef.
Proof.
  intros Hm Hc Hb Ha Hn Hpos. unfold ShmRealloc. rewrite (get_context_ok _ _ _ _ _ Hc). unfold free, mbind, M_bind. destruct (areas (pool s) !! pointer_of b) as [j|] eqn:E; [|done]. exfalso. pose proof (Hpos _ _ E).
  assert (pointer_of b <> b) by (unfold pointer_of, AllocChunkGetPointer, ALLOC_BLOCKHDRSZ, ALLOC_CHUNKHDRSZ; lia).
  destruct (mo_area _ _ Hm _ _ _ _ Ha E); unfold pointer_of, AllocChunkGetPointer, ALLOC_BLOCKHDRSZ, ALLOC_CHUNKHDRSZ in *; lia.
Qed.

(** ** Witnesses *)

(** A pool of 200 MB in which each area is put behind the others, at the next word boundary. *)
Definition demo_end (m : gmap Z Z) : Z := MAXALIGN (map_fold (fun a n e => Z.max (Z.max (a + 1) (a + n)) e) 4096%Z m).
Lemma MAXALIGN_up a : (a <= MAXALIGN a)%Z /\ (8 | MAXALIGN a)%Z.
Proof.
  rewrite MAXALIGN_div. split; [|by eexists]. pose proof (Z.div_mod (a + 7) 8 ltac:(done)). pose proof (Z.mod_pos_bound (a + 7) 8 ltac:(done)). lia.
Qed.
Lemma demo_end_ge (m : gmap Z Z) : (4096 <= demo_end m)%Z /\ (8 | demo_end m)%Z /\ forall a n, m !! a = Some n -> (a + n <= demo_end m /\ a + 1 <= demo_end m)%Z.
Proof.
  unfold demo_end. set (e := map_fold _ _ m). destruct (MAXALIGN_up e) as [Hup Hal].
  enough (H : (4096 <= e)%Z /\ forall a n, m !! a = Some n -> (a + n <= e /\ a + 1 <= e)%Z).
  { destruct H as [H0 H]. split_and!; [lia|done|]. intros a n Ha. specialize (H a n Ha). lia. }
  unfold e. apply (map_fold_weak_ind (fun e m => (4096 <= e)%Z /\ forall a n, m !! a = Some n -> (a + n <= e /\ a + 1 <= e)%Z)); [done|].
  intros i k m' e' Hi [IH0 IH]. split; [lia|]. intros a n [(<- & <-)|[_ H]]%lookup_insert_Some; [lia|]. specialize (IH a n H). lia.
Qed.
#[export] Instance demo_pool : MMLib (gmap Z Z) := {|
  mm_malloc m n := if (209715200 <? demo_end m + n)%Z then (None, m) else (Some (demo_end m), <[demo_end m := n]> m);
  mm_free m a := delete a m;
  mm_destroy m := ∅;
  areas m := m |}.
#[export] Instance demo_pool_laws : MMLaws (gmap Z Z).
Proof.
  split; cbn.
  - intros m n a m' Hn. destruct (_ <? _)%Z; [done|]. intros [= <- <-]. destruct (demo_end_ge m) as (_ & _ & H). split_and!; [|done|intros b k Hb%H; right; lia].
    destruct (m !! demo_end m) as [k|] eqn:E; [|done]. apply H in E. lia.
  - intros m n a m' Hn. destruct (_ <? _)%Z; [done|]. intros [= <- <-]. destruct (demo_end_ge m) as (H0 & H1 & _). split; [lia|done].
  - intros m n m'. destruct (_ <? _)%Z; [|done]. by intros [= <-].
  - done.
  - done.
Qed.

Definition demo_contexts : list (Z * option Z) := [(1, None); (2, Some 1)]%Z.
(** Two processes allocate in the second context at the same time, and one frees while the other allocates again. *)
Definition demo_actions : list action := [StartAlloc 0 2 10; StartAlloc 1 2 20; EndAlloc 1; EndAlloc 0; StartFree 0 4240; StartAlloc 1 2 8; Unlink 0; EndAlloc 1; EndFree 0].

Definition demo_shm : shm (gmap Z Z) := Eval vm_compute in match create_contexts demo_contexts (mkShm ∅ ∅ ∅ ∅ ∅) with Ok (_, s) => s | Err _ => mkShm ∅ ∅ ∅ ∅ ∅ end.
Lemma demo_created : create_contexts demo_contexts (mkShm (∅ : gmap Z Z) ∅ ∅ ∅ ∅) = Ok (tt, demo_shm).
Proof. vm_compute. reflexivity. Qed.
Definition demo_sys : sys (gmap Z Z) := match act_all demo_actions (mkSys demo_shm (fun _ => Idle) ∅) with Ok y => y | Err _ => mkSys demo_shm (fun _ => Idle) ∅ end.
Lemma demo_run : act_all demo_actions (mkSys demo_shm (fun _ => Idle) ∅) = Ok demo_sys.
Proof. vm_compute. reflexivity. Qed.

Lemma shm_context_safe_witness :
  exists y, act_all demo_actions (mkSys demo_shm (fun _ => Idle) ∅) = Ok y /\ shm_safe y /\ live y = {[4176 := (2, 10); 4312 := (2, 8)]}%Z.
Proof.
  destruct (shm_context_safe (MMLib0 := demo_pool) (∅ : gmap Z Z) demo_contexts demo_shm demo_actions ltac:(reflexivity) ltac:(repeat constructor; set_solver) demo_created) as (y & Hy & Hsafe).
  exists y. split; [exact Hy|]. split; [exact Hsafe|]. 
  transitivity (match act_all demo_actions (mkSys demo_shm (fun _ => Idle) ∅) with Ok y' => live y' | Err _ => ∅ end); [by rewrite Hy|vm_compute; reflexivity].
Defined.

Lemma shm_reset_frees_witness : exists s', ShmReset 2 (mem demo_sys) = Ok (tt, s') /\ pool s' = {[4096 := 16; 4112 := 16]}%Z.
Proof.
  destruct (shm_reset_frees (MMLib0 := demo_pool) (∅ : gmap Z Z) demo_contexts demo_shm demo_actions demo_sys 2 (mkCtx false 4112) ltac:(reflexivity) ltac:(repeat constructor; set_solver) demo_created demo_run)
    as [(s' & Hs & _ & _) _]; [intros [|[|p]]; reflexivity|vm_compute; reflexivity|].
  exists s'. split; [exact Hs|]. 
  transitivity (match ShmReset 2 (mem demo_sys) with Ok (_, s1) => pool s1 | Err _ => ∅ end); [by rewrite Hs|vm_compute; reflexivity].
Defined.
